(* ===== verification/_CoqProject ===== *)
-Q . S2P
Prelude.v
JsValue.v
Sha256.v
Canonical.v
Effects.v
ContinuityCore.v
FilesystemAeo.v
FilesystemGateway.v
CanonicalAeo.v
ExecutionEligibility.v
Adapter.v
Glob.v
FilesystemValidator.v
RuntimeGateway.v
NullAudit.v
FilesystemRoute.v
RouteSafety.v
RouteReplay.v
RouteLiveness.v
Epoch.v
Finality.v
Causality.v
ReplayConvergence.v
Reconciliation.v
ConflictSet.v
JsMap.v
LineageGraph.v
Worklist.v
RevocationPropagation.v
Ancestry.v
ContinuityClosure.v
LineageReconciliation.v
AgentToolGateway.v
ConflictArbitration.v
TopologyConvergence.v
Json.v
WorkerValues.v
WorkerTables.v
WorkerSql.v
WorkerLineage.v
WorkerEvidence.v
WorkerIssuance.v
WorkerAuthority.v
WorkerExecution.v
WorkerProof.v
WorkerInvariant.v
WorkerLawful.v
WorkerCalm.v
WorkerLineageProof.v
WorkerSafety.v
WorkerRun.v
WorkerTheorems.v
WorkerForest.v
WorkerAttestation.v
ProofChain.v
ProofRegistry.v
GovernedExecution.v
RegistryLock.v
RegistryAudit.v
AuditTheorems.v
SurfaceCoordination.v
SurfaceGraph.v
AgentReview.v
AgentGatewayTables.v
AgentGatewayRoutes.v
AgentGatewaySafety.v
AgentGatewayRun.v
AgentGatewayTheorems.v
GithubComment.v
D1Registry.v
D1Bootstrap.v
ReconciliationTraversal.v
ReconciliationReport.v
FederatedReconciliation.v
TraversalTheorems.v
ReconciledLineage.v
TraversalEvidence.v
FederationTheorems.v
