(* ===== verification/Prelude.v ===== *)
(** * ContinuityOS: a verification library

    The repository is a gateway that lets an agent act only through exact,
    validated, once-only objects. An agent's request becomes an ATAO, the ATAO an
    AEO (action-execution object), the AEO is validated against observations of
    the world, executed by an adapter if and only if the executed object is the
    validated one, and answered with a receipt or with NULL. Around that path
    lie modules that decide whether the records of several registries, partitions
    and participants agree, and under what status.

    ** Parts, files and sources

    Foundations
    - [Prelude]: tactics, hints and lemmas on lists, options and strings.
    - [JsValue]: run-time values of the language ([jsval]), coercions, objects as
      ordered lists of properties; [JsMap]: its [Map].
    - [Sha256], [Canonical]: [sha256Hex], [normalize], [canonicalize] of
      [src/canonical.js]. [Sha256.Fips] is the reference function of FIPS 180-4.
    - [Effects]: asynchronous functions as trees of awaited operations, run alone
      ([run]) or interleaved with others ([pool]).

    The write path
    - [FilesystemAeo]: [src/lib/filesystem-aeo.ts]. [FilesystemGateway]:
      [src/lib/filesystem-write-gateway.ts]. [CanonicalAeo]:
      [src/lib/compile-canonical-aeo.ts]. [ContinuityCore]:
      [src/continuity-core.js].
    - [Glob], [FilesystemValidator]: [src/lib/filesystem-aeo-validator.ts].
    - [ExecutionEligibility]: [runtime/lineage/executionEligibility.mjs].
      [Adapter]: [src/lib/adapter-contract.ts] and
      [src/lib/filesystem-execution-adapter.ts].
    - [RuntimeGateway]: [src/lib/filesystem-write-runtime-gateway.ts] over the
      ports of [src/lib/storage-adapter.ts]; [NullAudit]: [src/lib/null-audit.ts].
    - [FilesystemRoute]: the handler of
      [src/lib/filesystem-write-route-adapter.ts], its D1 tables being the store.
      [RouteSafety], [RouteReplay], [RouteLiveness] are its theorems.
    - [AgentToolGateway]: [src/lib/agent-tool-gateway.ts] and
      [src/lib/predicate-registry.ts].

    The runtime lineage ([runtime/lineage])
    - [ProofChain]: [continuityProofChain.mjs]. [ProofRegistry]:
      [proofChainRegistry.mjs] and [observeRegistry.mjs] over the text of the
      registry file. [GovernedExecution]: [governedExecution.mjs].
      [RegistryLock]: [registryLock.mjs] as steps of competing processes.

    The worker ([src/index.ts])
    - [Json]: [JSON.stringify], and a reader of its texts. [WorkerValues]: the
      platform (class [Platform]), constants and pure helpers. [WorkerTables]: the
      D1 registries as a record of tables. [WorkerSql]: the SQL statements, with
      their guards and unique keys.
    - [WorkerLineage]: the walk up a continuity lineage and the revocation
      cascades. [WorkerEvidence]: DSSE attestations, replay evidence, and
      [src/lib/topology-epoch.ts]. [WorkerIssuance]: /session, /continuity,
      /govern. [WorkerAuthority]: /authority, /preo, /compile. [WorkerExecution]:
      /validate, /execute. [WorkerProof]: /proof, and the router over the nine.
    - [WorkerInvariant]: the worlds the worker may reach ([lawful_world]), and what
      a step may change ([grows]); [sealed] says what binds a row to the rows it was
      made from. [WorkerLawful], [WorkerCalm],
      [WorkerLineageProof], [WorkerSafety]: every handler keeps to them.
      [WorkerRun]: concrete requests. [WorkerTheorems], [WorkerForest],
      [WorkerAttestation]: what follows.
    - [RegistryAudit]: the audit queries of
      [src/reconciliation/reconciliation-invariants.ts] over the same tables, with
      SQL's three truth values. [AuditTheorems]: which of them no reachable world
      violates, and which flag what the worker itself writes.

    The agent gateway ([src/index.ts])
    - [AgentReview]: [src/lib/authority-review.ts]. [AgentGatewayTables]: its
      registries beside the worker's, and the statements on both.
      [AgentGatewayRoutes]: /gateway/tool/intercept, /gateway/tool/propose,
      /gateway/authority/review, /gateway/authority/atao, /gateway/tool/compile and
      /agent/tool-call, over [AgentToolGateway] and [AgentReview].
    - [AgentGatewaySafety]: the worlds that gateway and worker reach together
      ([lawful_gateway]), and what a step may change ([ggrows]). [AgentGatewayRun]:
      concrete requests. [AgentGatewayTheorems]: what follows.

    The other stores and services
    - [GithubComment]: [src/lib/github-issue-comment-gateway.ts] from the request
      to the proof, the service that posts being a parameter.
    - [D1Registry]: [src/lib/d1-storage-adapter.ts] and the interfaces of
      [src/lib/storage-adapter.ts]: each call is the statements it issues, calls
      interleave, and a batch is one transaction.
    - [D1Bootstrap]: the start-up steps of the same file: the migration of the nonce
      table, which may be stopped after any statement, and the backfill, quarantine
      and stability test of the proof registry, where a decision may have several
      rows; that the database enforces a foreign key is a parameter.

    Reconciliation and federation ([src/index.ts])
    - [ReconciliationTraversal]: [deterministicRecursiveReconciliationTraversal], one
      walk over the worker's tables and four registries of evidence, with the checks
      of every row. [ReconciliationReport]: its summary, Merkle evidence, report,
      checkpoint and schedule, and the /reconcile routes. [FederatedReconciliation]:
      the portable bundle, the revocation evidence, the lineage across runtimes, and
      four of the /federation/reconcile routes.
    - [TraversalTheorems], [ReconciledLineage], [TraversalEvidence],
      [FederationTheorems]: what the walk answers, what a valid answer would mean and
      why the worker's own lineages never get one, what the evidence depends on, and
      what another runtime observes of it.

    Status of objects
    - [Epoch]: [src/lib/epoch-substrate.ts]. [Finality]:
      [src/lib/finality-classification.ts], [topology-visibility.ts],
      [quorum-attestation.ts], [proof-finality-metadata.ts]. [Causality]:
      [src/lib/causal-clock.ts], [causal-legitimacy-clock.ts].
    - [ReplayConvergence]: [src/lib/replay-convergence.ts] and
      [distributed-replay-convergence-enforcement.ts]. [Reconciliation]:
      [src/lib/reconciliation-state-machine.ts], [revocation-liveness.ts].
      [ConflictSet]: [src/lib/conflict-set.ts].

    Lineage across registries
    - [LineageGraph]: the untyped input, the views and the map of children that
      the three modules below repeat; [Worklist]: their queues; [Ancestry]: their
      walk upwards.
    - [RevocationPropagation]: [src/recursive-revocation-propagation.ts].
      [ContinuityClosure]: [src/continuity-lineage-closure-hardening.ts].
      [LineageReconciliation]:
      [src/distributed-continuity-lineage-reconciliation.ts].

    Agreement of participants
    - [ConflictArbitration]: [src/legitimacy-conflict-arbitration.ts].
    - [TopologyConvergence]: [src/distributed-topology-convergence.ts], which
      reads the arbitration's artifacts.
    - [SurfaceCoordination]: [src/inter-surface-coordination.ts] over the
      convergences. [SurfaceGraph]: [src/surface-graph-reconciliation.ts], the
      edges of which are coordinations.

    ** How the parts interact

    [FilesystemRoute.handler] parses a body, reads decision, policy and nonce from
    the store, and calls [RuntimeGateway], which captures ([FilesystemGateway]),
    compiles, materializes ([FilesystemAeo]), validates ([FilesystemValidator] over
    observations that are themselves awaited operations), executes ([Adapter],
    behind the gate of [ExecutionEligibility]), marks the nonce and appends the
    receipt; every refusal is recorded ([NullAudit]). Each awaited SQL statement is
    one step of a [pool]. The stores and worlds of the parts are abstract
    ([Context] of their Sections) and instantiated by the route.

    [GovernedExecution] calls [Adapter] with the carry and the nonces that
    [ProofRegistry] reads, and appends through it; the links are those of
    [ProofChain]. A governed run is one step: it runs inside the section that
    [RegistryLock] shows exclusive as long as no holder crashes.

    A request to the worker is an effect tree whose operations are SQL statements on
    one world of tables; a [pool] interleaves the statements of any number of
    requests with each other and with the passing of time.

    The agent gateway's routes are effect trees over a pair of the worker's world
    and the gateway's tables; a request of the worker becomes one of the pair
    ([AgentGatewayTables.beside]), so that a pool interleaves both. Its compile route
    writes the worker's table of objects, its tool-call boundary reads what the
    worker's lifecycle has written.

    The lineage modules share [LineageGraph] and [Worklist];
    [ContinuityClosure.traversal_agrees_with_collapse] states what the closure and
    the propagation promise each other. [TopologyConvergence.arbitration_composes]
    states what an arbitration does to a convergence; [SurfaceGraph.coordination_composes]
    what converged surfaces do to a coordination and a coordination to the graph.

    ** What the theorems show

    - Exactness: an execution happens to the object that was validated, once, and
      a receipt exists for that object only ([FilesystemGateway], [Adapter],
      [RuntimeGateway.gateway_spec]). A digest binds its text: where two objects
      could have one digest, a theorem names the texts that the code hashed there,
      two of which would have to differ and agree in SHA-256
      ([Canonical.collision_in], always of an explicit list).
    - Validation is the conjunction of its ten steps
      ([FilesystemValidator.validate_spec]).
    - The route: an invariant of the tables under every interleaving, nonces used
      at most once by requests in sequence, progress of a good request, and the
      interleaving in which one nonce is used twice.
    - The runtime lineage: the head of a chain binds its history; the runs admitted
      to a registry, and the adapters executed by governed runs, are sequences the
      gate admits one after the other, and the file reads back as one link for each.
    - The worker: under every interleaving a proof has its execution, validation,
      nonce, authority, continuity and object, of one decision and one digest;
      what has ended gains nothing; continuities form a forest of bounded depth
      whose scopes narrow; a decision is executed once; a cascade rewrites exactly
      the open rows below, and nothing else but projected delegations; every answer
      of the nine routes is a refusal or names rows that are stored.
    - Each verdict (enforcement, closure, propagation, reconciliation, finality,
      convergence, the tool gateway's proof) is characterised by an equivalence
      with the conditions that make it true, over untyped input where the code
      takes untyped input.
    - The agent gateway: whatever it is asked, the worker's guarantees stand; a tool
      call recorded as proven has a captured ATAO and a proof with its whole lineage;
      an object is compiled only from an ATAO with an approving review and a covering
      authority, and a decision is answered only as a permitted reviewer took it; an
      object that the gateway compiles is never validated, executed, proven or
      called; and two runs show what the code does not do (one proof serves several
      calls, reviews of one instant share identifiers).
    - The registries of the continuity core: what a pool of calls stores once stays,
      and each answer is exact about the rows it speaks of; a comment is posted only for the object that was validated; an interrupted
      migration loses the archived nonces in exactly the window that is exhibited,
      and the quarantine leaves one proof per decision, archives every other, and is
      stable.
    - Reconciliation: the walk only reads, accepts a row exactly when it follows
      from those before it ([ReconciledLineage.follows]), and stops at the first
      registry that has not exactly one such row; a valid answer means a whole lineage, bound
      row by row; no lineage that the worker writes gets one, because an execution's
      parent is a digest and its validation's origin a text. The Merkle root binds
      the first nine entries; a bundle and an envelope are observed as what they were
      made of, and no other evidence has an observed envelope's digest.
    - The audit: the worker's invariant implies the answers of eighteen audit
      queries; one query is an equivalence with an ancestry fact; another flags the
      worker's own compiled objects.
    - Each worklist and walk ends and computes reachability in the graph.
    - Where two modules or a comment and the code disagree, a theorem named for
      what happens says so on a concrete input.

    ** Conventions, bounds and fuel

    Strings are UTF-8 byte sequences; the digest reads those bytes, and length or
    order of UTF-16 units is only used where ASCII text makes them equal or is
    noted. Numbers are the integers, the infinities and NaN; fractions appear only
    in [Finality], as exact rationals. Words of SHA-256 are 32 bits wide with the
    wrap-around of the signed operators. [Date.parse], [Date.now], number printing
    outside the integers, [localeCompare], lower-casing beyond ASCII, [JSON.parse],
    regular expressions beyond the shapes in [Glob], and the rows that a database
    answers a query with are parameters; their hypotheses are documented
    behaviour (such as a total order for [localeCompare]). A function that reads
    the clock several times in one synchronous run is given one reading.

    Effect trees need no fuel. A worklist gets one unit per entry and one more, a
    walk upwards one per entry and two more: a node is visited once, so this is
    enough ([Worklist], [Ancestry]). The serialiser and the digest are structural
    or bounded by the length of the message.

    The worker climbs a lineage in at most 34 rounds (its own bound is 32), which
    [WorkerForest.climb_ends] shows to suffice; the recursive query of its cascades
    gets one round per row and one more. Integers are exact below 2^53, and property
    names are taken not to be array indices. The table of reviewed objects is taken
    to exist; the JSON payloads of the log tables, the constants of replay evidence and
    the text of an exception in an answer are left out.

    [GovernedExecution] takes the adapter not to write the registry. The hypothesis
    on [JSON.parse] there is that an object of scalars is read back as it was
    written ([ProofRegistry.reads_flat]); the worker's is that a canonical text is.
    The templates of [aeo_template_registry] and the reviewers' allowlist are
    parameters of the agent gateway's routes, which write neither. The number of rows
    in three registries of evidence, which other routes write and of which no column
    is read, is a parameter of the reconciliation walk; the walk has one step per
    registry, and its ancestry loop 33 rounds, the last of which its own bound of 32
    ends.

    [TopologyConvergence] takes two participant views never to be the same object,
    since the code compares them by reference in one place.

    ** Not modelled

    - [src/index.ts] beyond the nine lifecycle routes, the agent gateway's and
      the reconciliation routes: HTTP framing, dashboards and read-only routes, the trust tiers, revocation topology and
      compression of federated runtimes, the statements that create tables and columns.
    - The canonical path of a registry's lock, and the refusal of asynchronous
      functions under it.
    - The rest of [src/reconciliation] (traversal hashes, mutation surfaces, fate
      tests), [src/cross-registry-legitimacy-reconciliation.ts],
      [reconciliation-determinism.ts]: no caller among the modelled parts; older variants of modelled modules (such as
      [src/causal-legitimacy-clocks.ts]) repeat them.
    - Of the audit's queries those on tables the nine routes never write are
      modelled, and nothing is proved of them.
    - The near-identical [runtime/control_graph_*.ts], governance metrics and
      telemetry, visualisation, graph ingestion, command line, actions, release
      scripts and demonstrations: reshaping, input and output.
    - [continuity-core/], the second implementation in Rust, and [schema.sql]. *)
From Stdlib Require Import ZArith NArith Lia Permutation Sorted Ascii.
From stdpp Require Import base list strings gmap.

(** * Tactics shared by the development *)

(** Split every conjunction and destruct every [match]/[if] scrutinee of a
    hypothesis or of the goal, keeping the equations. *)
Ltac case_scrutinee :=
  match goal with
  | |- context [match ?x with _ => _ end] => destruct x eqn:?
  | H : context [match ?x with _ => _ end] |- _ => destruct x eqn:?
  end.

(** Discharge the branches of a function that returns early: simplify, drop
    the impossible equations, split the next scrutinee. *)
Ltac branches :=
  repeat (simplify_eq/=; try done; case_scrutinee); simplify_eq/=; try done.

(** Turn the boolean tests of the code into propositions. *)
Ltac boolify :=
  repeat match goal with
  | H : (_ && _) = true |- _ => apply andb_true_iff in H as [? ?]
  | H : (_ || _) = false |- _ => apply orb_false_iff in H as [? ?]
  | H : negb _ = true |- _ => apply negb_true_iff in H
  | H : negb _ = false |- _ => apply negb_false_iff in H
  | H : String.eqb _ _ = true |- _ => apply String.eqb_eq in H
  | H : String.eqb _ _ = false |- _ => apply String.eqb_neq in H
  | H : Z.eqb _ _ = true |- _ => apply Z.eqb_eq in H
  | H : Z.eqb _ _ = false |- _ => apply Z.eqb_neq in H
  | H : Z.leb _ _ = true |- _ => apply Z.leb_le in H
  | H : Z.leb _ _ = false |- _ => apply Z.leb_gt in H
  | H : Z.ltb _ _ = true |- _ => apply Z.ltb_lt in H
  | H : Z.ltb _ _ = false |- _ => apply Z.ltb_ge in H
  | H : bool_decide _ = true |- _ => apply bool_decide_eq_true in H
  | H : bool_decide _ = false |- _ => apply bool_decide_eq_false in H
  end.

(** * Stable sorting

    [Array.prototype.sort] with a consistent comparator is stable, so its
    result is the one stable sort of the input; insertion sort computes it. *)
Section SortBy.
Context {A : Type} (leb : A → A → bool).

Fixpoint insert_by (x : A) (l : list A) : list A :=
  match l with
  | [] => [x]
  | y :: l' => if leb x y then x :: y :: l' else y :: insert_by x l'
  end.

Fixpoint sort_by (l : list A) : list A :=
  match l with
  | [] => []
  | x :: l' => insert_by x (sort_by l')
  end.

Lemma insert_by_perm x l : insert_by x l ≡ₚ x :: l.
Proof.
  induction l as [|y l IH]; simpl; [done|].
  destruct (leb x y); [done|]. rewrite IH. constructor.
Qed.

Lemma sort_by_perm l : sort_by l ≡ₚ l.
Proof.
  induction l as [|x l IH]; simpl; [done|]. by rewrite insert_by_perm, IH.
Qed.

Lemma sort_by_length l : length (sort_by l) = length l.
Proof. by rewrite sort_by_perm. Qed.

Lemma elem_of_sort_by x l : x ∈ sort_by l ↔ x ∈ l.
Proof. by rewrite sort_by_perm. Qed.

Lemma sort_by_Forall (P : A → Prop) l : Forall P (sort_by l) ↔ Forall P l.
Proof. by rewrite sort_by_perm. Qed.

Definition leR (x y : A) : Prop := leb x y = true.

Context (leb_total : ∀ x y, leb x y = true ∨ leb y x = true).
Context (leb_trans : ∀ x y z, leb x y = true → leb y z = true → leb x z = true).

Lemma insert_by_sorted x l :
  StronglySorted leR l → StronglySorted leR (insert_by x l).
Proof using leb_total leb_trans.
  induction 1 as [|y l Hs IH Hall]; simpl; [repeat constructor|].
  destruct (leb x y) eqn:E.
  - constructor; [by constructor|]. constructor; [done|].
    eapply Forall_impl; [done|]. intros z Hz. by eapply leb_trans.
  - constructor; [done|]. rewrite insert_by_perm. constructor; [|done].
    destruct (leb_total x y); [congruence|done].
Qed.

Lemma sort_by_sorted l : StronglySorted leR (sort_by l).
Proof using leb_total leb_trans.
  induction l; simpl; [constructor|by apply insert_by_sorted].
Qed.

(** Sorting a sorted list changes nothing (stability). *)
Lemma sort_by_id l : StronglySorted leR l → sort_by l = l.
Proof.
  induction 1 as [|x l Hs IH Hall]; simpl; [done|]. rewrite IH.
  destruct Hall as [|y l Hxy _]; simpl; [done|]. by rewrite Hxy.
Qed.

(** On distinct elements of an antisymmetric order the sorted list is
    determined by the elements. *)
Lemma sorted_perm_unique l l' :
  (∀ x y, x ∈ l → y ∈ l → leb x y = true → leb y x = true → x = y) →
  StronglySorted leR l → StronglySorted leR l' → l ≡ₚ l' → l = l'.
Proof.
  intros Hanti Hs. revert l' Hanti.
  induction Hs as [|x l Hs IH Hall]; intros l' Hanti Hs' Hp.
  - by apply Permutation_nil in Hp.
  - destruct Hs' as [|y l' Hs' Hall'].
    { by apply Permutation_sym, Permutation_nil in Hp. }
    assert (x = y) as <-.
    { assert (y ∈ x :: l) as Hy by (rewrite Hp; left).
      assert (x ∈ y :: l') as Hx by (rewrite <- Hp; left).
      apply elem_of_cons in Hy as [->|Hy]; [done|].
      apply elem_of_cons in Hx as [->|Hx]; [done|].
      rewrite Forall_forall in Hall, Hall'.
      apply Hanti; [left|by right|by apply Hall|by apply Hall']. }
    f_equal. apply IH; [|done|by apply Permutation_cons_inv in Hp].
    intros a b Ha Hb. apply Hanti; by right.
Qed.
End SortBy.

(** * Strings

    A program string is held as the bytes of its UTF-8 encoding, so a literal
    of the code is the same literal here. *)

#[global] Arguments String.append !s1 s2 /.

Definition code (a : ascii) : N := N_of_ascii a.

(** Order of strings by UTF-16 code units (the order of [<] and of
    [Array.prototype.sort] on strings), computed on the UTF-8 bytes: it is the
    byte order, except that the lead bytes 0xEE and 0xEF (U+E000..U+FFFF) come
    after 0xF0..0xF4 (surrogate pairs start with 0xD800..0xDBFF). *)
Definition unit_key (a : ascii) : N :=
  let n := code a in
  if (238 <=? n)%N && (n <=? 239)%N then (n + 256)%N else n.

Fixpoint str_leb (s t : string) : bool :=
  match s, t with
  | EmptyString, _ => true
  | String _ _, EmptyString => false
  | String a s', String b t' =>
      if (unit_key a <? unit_key b)%N then true
      else if (unit_key b <? unit_key a)%N then false
      else str_leb s' t'
  end.

Definition str_ltb (s t : string) : bool := negb (str_leb t s).

Lemma code_inj a b : code a = code b → a = b.
Proof.
  intros H. unfold code in H.
  by rewrite <- (ascii_N_embedding a), <- (ascii_N_embedding b), H.
Qed.

Lemma code_bound a : (code a < 256)%N.
Proof. apply N_ascii_bounded. Qed.

Lemma unit_key_inj a b : unit_key a = unit_key b → a = b.
Proof.
  unfold unit_key. pose proof (code_bound a). pose proof (code_bound b).
  intros E. apply code_inj.
  destruct ((238 <=? code a)%N && (code a <=? 239)%N),
           ((238 <=? code b)%N && (code b <=? 239)%N); lia.
Qed.

Lemma str_leb_refl s : str_leb s s = true.
Proof. induction s; simpl; [done|]. by rewrite N.ltb_irrefl. Qed.

Lemma str_leb_total s t : str_leb s t = true ∨ str_leb t s = true.
Proof.
  revert t. induction s as [|a s IH]; intros [|b t]; simpl; [by left..|by right|].
  destruct (N.ltb_spec (unit_key a) (unit_key b)); [by left|].
  destruct (N.ltb_spec (unit_key b) (unit_key a)); [by right|]. apply IH.
Qed.

Lemma str_leb_trans s t u :
  str_leb s t = true → str_leb t u = true → str_leb s u = true.
Proof.
  revert t u. induction s as [|a s IH]; intros [|b t] [|c u]; simpl; try done.
  destruct (N.ltb_spec (unit_key a) (unit_key b)),
    (N.ltb_spec (unit_key b) (unit_key c)),
    (N.ltb_spec (unit_key a) (unit_key c)); try done; try lia;
  destruct (N.ltb_spec (unit_key b) (unit_key a)),
    (N.ltb_spec (unit_key c) (unit_key b)),
    (N.ltb_spec (unit_key c) (unit_key a)); try done; try lia.
  apply IH.
Qed.

Lemma str_leb_antisymm s t : str_leb s t = true → str_leb t s = true → s = t.
Proof.
  revert t. induction s as [|a s IH]; intros [|b t]; simpl; try done.
  destruct (N.ltb_spec (unit_key a) (unit_key b)),
    (N.ltb_spec (unit_key b) (unit_key a)); try done; try lia.
  intros H1 H2. f_equal; [apply unit_key_inj; lia|by apply IH].
Qed.

Lemma str_ltb_irrefl s : str_ltb s s = false.
Proof. unfold str_ltb. by rewrite str_leb_refl. Qed.

Lemma str_ltb_leb s t : str_ltb s t = true → str_leb s t = true.
Proof.
  unfold str_ltb. intros H%negb_true_iff.
  destruct (str_leb_total s t); congruence.
Qed.

(** ** Trimming

    [String.prototype.trim] removes ECMAScript WhiteSpace and LineTerminator
    code points; their UTF-8 forms have one, two or three bytes. *)
Definition ws1 (a : ascii) : bool :=
  let n := code a in ((9 <=? n) && (n <=? 13) || (n =? 32))%N.

Definition ws2 (a b : ascii) : bool := ((code a =? 194) && (code b =? 160))%N.

Definition ws3 (a b c : ascii) : bool :=
  let x := code a in let y := code b in let z := code c in
  ((x =? 225) && (y =? 154) && (z =? 128)
   || (x =? 226) && (y =? 128) && ((128 <=? z) && (z <=? 138)
        || (z =? 168) || (z =? 169) || (z =? 175))
   || (x =? 226) && (y =? 129) && (z =? 159)
   || (x =? 227) && (y =? 128) && (z =? 128)
   || (x =? 239) && (y =? 187) && (z =? 191))%N.

Fixpoint strip (w2 : ascii → ascii → bool) (w3 : ascii → ascii → ascii → bool)
    (s : string) {struct s} : string :=
  match s with
  | EmptyString => EmptyString
  | String a s1 =>
      if ws1 a then strip w2 w3 s1
      else match s1 with
      | EmptyString => s
      | String b s2 =>
          if w2 a b then strip w2 w3 s2
          else match s2 with
          | EmptyString => s
          | String c s3 => if w3 a b c then strip w2 w3 s3 else s
          end
      end
  end.

Definition trim_start (s : string) : string := strip ws2 ws3 s.
Definition trim_end (s : string) : string :=
  String.rev (strip (λ b a, ws2 a b) (λ c b a, ws3 a b c) (String.rev s)).
Definition js_trim (s : string) : string := trim_end (trim_start s).

(** [s.trim().length > 0]. *)
Definition non_blank (s : string) : bool := negb (String.eqb (js_trim s) EmptyString).

Definition is_empty_str (s : string) : bool := String.eqb s EmptyString.

(** ** Searching *)
Fixpoint starts_with (p s : string) : bool :=
  match p, s with
  | EmptyString, _ => true
  | String a p', String b s' => Ascii.eqb a b && starts_with p' s'
  | String _ _, EmptyString => false
  end.

Fixpoint includes (p s : string) : bool :=
  starts_with p s
  || match s with EmptyString => false | String _ s' => includes p s' end.

Definition ends_with (p s : string) : bool := starts_with (String.rev p) (String.rev s).

Fixpoint str_concat (sep : string) (l : list string) : string :=
  match l with
  | [] => EmptyString
  | [x] => x
  | x :: l' => x +:+ sep +:+ str_concat sep l'
  end.

Lemma str_app_assoc (s t u : string) : (s +:+ t) +:+ u = s +:+ (t +:+ u).
Proof. induction s; simpl; congruence. Qed.

Lemma str_app_nil (s : string) : s +:+ EmptyString = s.
Proof. induction s; simpl; congruence. Qed.

Lemma str_app_length (s t : string) :
  String.length (s +:+ t) = (String.length s + String.length t)%nat.
Proof. induction s; simpl; congruence. Qed.

Lemma str_app_inj (s t u : string) : s +:+ t = s +:+ u → t = u.
Proof. induction s; simpl; [done|]. intros [= ?]. auto. Qed.

(** A string with a visible ASCII character in front is not blank. *)
Definition visible (a : ascii) : bool := ((33 <=? code a) && (code a <=? 127))%N.

Lemma rev_app_eq (s t : string) : String.rev_app s t = String.rev s +:+ t.
Proof.
  unfold String.rev. revert t. induction s as [|a s IH]; intros t; simpl; [done|].
  rewrite IH, (IH (String a EmptyString)), str_app_assoc. done.
Qed.

Lemma strip_keeps w2 w3 c s :
  ws1 c = false → (∀ a, w2 a c = false) → (∀ a, w2 c a = false) →
  (∀ a b, w3 a b c = false) → (∀ a b, w3 a c b = false) → (∀ a b, w3 c a b = false) →
  strip w2 w3 (s +:+ String c EmptyString) ≠ EmptyString.
Proof.
  intros H1 H2 H2' H3 H3' H3''.
  induction (Nat.lt_wf_0_projected String.length s) as [s _ IH].
  destruct s as [|a [|b [|d s]]]; simpl.
  - by rewrite H1.
  - destruct (ws1 a); [by rewrite H1|]. by rewrite H2.
  - destruct (ws1 a); [apply (IH (String b EmptyString)); simpl; lia|].
    destruct (w2 a b); [by rewrite H1|]. by rewrite H3.
  - destruct (ws1 a); [apply (IH (String b (String d s))); simpl; lia|].
    destruct (w2 a b); [apply (IH (String d s)); simpl; lia|].
    destruct (w3 a b d); [apply IH; simpl; lia|done].
Qed.

Lemma visible_not_ws c : visible c = true →
  ws1 c = false ∧ (∀ a, ws2 a c = false ∧ ws2 c a = false)
  ∧ ∀ a b, ws3 a b c = false ∧ ws3 a c b = false ∧ ws3 c a b = false.
Proof.
  unfold visible, ws1, ws2, ws3. intros [H1%N.leb_le H2%N.leb_le]%andb_true_iff.
  repeat split; intros;
  repeat match goal with |- context [(?x =? ?y)%N] => destruct (N.eqb_spec x y); try lia
    | |- context [(?x <=? ?y)%N] => destruct (N.leb_spec x y); try lia end; done.
Qed.

(** A text between visible characters is its own trim. *)
Lemma strip_visible w2 w3 c s :
  visible c = true → (∀ a, w2 c a = false) → (∀ a b, w3 c a b = false) →
  strip w2 w3 (String c s) = String c s.
Proof.
  intros (H1 & _)%visible_not_ws H2 H3. simpl. rewrite H1.
  destruct s as [|b [|d s]]; [done|..]; rewrite H2; [done|]. by rewrite H3.
Qed.

Lemma rev_snoc s c : String.rev (s +:+ String c EmptyString) = String c (String.rev s).
Proof.
  induction s as [|a s IH]; [done|].
  change (String.rev (String a s)) with (String.rev_app s (String a EmptyString)).
  change (String.rev_app (s +:+ String c EmptyString) (String a EmptyString) = String c (String.rev_app s (String a EmptyString))).
  by rewrite !rev_app_eq, IH.
Qed.

Lemma rev_involutive s : String.rev (String.rev s) = s.
Proof.
  induction s as [|a s IH]; [done|].
  change (String.rev (String a s)) with (String.rev_app s (String a EmptyString)).
  by rewrite rev_app_eq, rev_snoc, IH.
Qed.

Lemma trim_visible c s d :
  visible c = true → visible d = true →
  js_trim (String c (s +:+ String d EmptyString)) = String c (s +:+ String d EmptyString).
Proof.
  intros Hc Hd. destruct (visible_not_ws c Hc) as (_ & H2 & H3), (visible_not_ws d Hd) as (_ & K2 & K3).
  unfold js_trim, trim_start. rewrite strip_visible by (done || (intros; apply H2 || apply H3)).
  unfold trim_end.
  change (String c (s +:+ String d EmptyString)) with (String c s +:+ String d EmptyString).
  rewrite rev_snoc, strip_visible by (done || (intros; apply K2 || apply K3)).
  by rewrite <- rev_snoc, rev_involutive.
Qed.

Lemma visible_non_blank c s : visible c = true → non_blank (String c s) = true.
Proof.
  intros (H1 & H2 & H3)%visible_not_ws. unfold non_blank, js_trim.
  assert (trim_start (String c s) = String c s) as ->.
  { unfold trim_start; simpl. rewrite H1.
    destruct s as [|b [|d s]]; [done|..]; rewrite (proj2 (H2 b)); [done|].
    by rewrite (proj2 (proj2 (H3 b d))). }
  unfold trim_end. change (String.rev (String c s)) with (String.rev_app s (String c EmptyString)).
  rewrite rev_app_eq.
  destruct (strip _ _ _) as [|a r] eqn:E.
  - exfalso. revert E. apply strip_keeps; [done|intros..]; try apply H2; apply H3.
  - apply negb_true_iff, String.eqb_neq. intros E'%(f_equal String.length).
    change (String.rev (String a r)) with (String.rev_app r (String a EmptyString)) in E'.
    rewrite rev_app_eq, str_app_length in E'. simpl in E'. lia.
Qed.

(** The [includes]/[has] of an array or a [Set] of strings. *)
Definition str_in (x : string) (l : list string) : bool := existsb (String.eqb x) l.

Lemma str_in_elem x l : str_in x l = true ↔ x ∈ l.
Proof.
  unfold str_in. rewrite existsb_exists, list_elem_of_In. split.
  - intros (y & Hy & ->%String.eqb_eq). done.
  - intros H. exists x. by rewrite String.eqb_refl.
Qed.

Lemma forallb_elem {A} (f : A → bool) l :
  forallb f l = true ↔ ∀ x, x ∈ l → f x = true.
Proof. rewrite forallb_forall. by setoid_rewrite list_elem_of_In. Qed.

Lemma existsb_elem {A} (f : A → bool) l :
  existsb f l = true ↔ ∃ x, x ∈ l ∧ f x = true.
Proof. rewrite existsb_exists. by setoid_rewrite list_elem_of_In. Qed.

Lemma existsb_false {A} (f : A → bool) l :
  existsb f l = false ↔ ∀ x, x ∈ l → f x = false.
Proof.
  split.
  - intros H x Hx. destruct (f x) eqn:E; [|done].
    rewrite <- H. symmetry. apply existsb_elem. eauto.
  - intros H. apply not_true_iff_false. intros (x & Hx & E)%existsb_elem.
    by rewrite H in E.
Qed.

Lemma elem_of_map {A B} (f : A → B) l y : y ∈ map f l ↔ ∃ x, x ∈ l ∧ y = f x.
Proof. rewrite list_elem_of_In, in_map_iff. setoid_rewrite list_elem_of_In. naive_solver. Qed.

Lemma map_nil {A B} (f : A → B) l : map f l = [] ↔ l = [].
Proof. by destruct l. Qed.

Lemma is_empty_str_true s : is_empty_str s = true ↔ s = EmptyString.
Proof. apply String.eqb_eq. Qed.

Lemma is_empty_str_false s : is_empty_str s = false ↔ s ≠ EmptyString.
Proof. apply String.eqb_neq. Qed.

(** [new Set(l)] read back in insertion order: first occurrences. *)
Fixpoint dedup (seen l : list string) : list string :=
  match l with
  | [] => []
  | x :: l' => if str_in x seen then dedup seen l' else x :: dedup (x :: seen) l'
  end.

Lemma elem_of_dedup seen l x : x ∈ dedup seen l ↔ x ∈ l ∧ x ∉ seen.
Proof.
  revert seen. induction l as [|y l IH]; intros seen; simpl; [set_solver|].
  destruct (str_in y seen) eqn:E.
  - apply str_in_elem in E. rewrite IH. set_solver.
  - assert (y ∉ seen) by (rewrite <- str_in_elem; congruence).
    rewrite !elem_of_cons, IH. destruct (decide (x = y)); set_solver.
Qed.

Lemma NoDup_dedup seen l : NoDup (dedup seen l).
Proof.
  revert seen. induction l as [|y l IH]; intros seen; simpl; [constructor|].
  destruct (str_in y seen); [done|]. constructor; [|done].
  rewrite elem_of_dedup. set_solver.
Qed.

Fixpoint str_forall (P : ascii → bool) (s : string) : bool :=
  match s with EmptyString => true | String a s' => P a && str_forall P s' end.

Lemma str_forall_app P s t :
  str_forall P (s +:+ t) = str_forall P s && str_forall P t.
Proof. induction s as [|a s IH]; simpl; [done|]. by rewrite IH, andb_assoc. Qed.

(** [s.length]: UTF-16 code units, counted on the UTF-8 bytes: none for a
    continuation byte, two for the lead byte of a four-byte sequence. *)
Fixpoint js_length (s : string) : nat :=
  match s with
  | EmptyString => O
  | String a s' =>
      let n := code a in
      ((if ((128 <=? n) && (n <? 192))%N then 0 else if (240 <=? n)%N then 2 else 1)
       + js_length s')%nat
  end.

Lemma js_length_ascii P s :
  (∀ a, P a = true → (code a < 128)%N) →
  str_forall P s = true →
  js_length s = String.length s.
Proof.
  intros HP. induction s as [|a s IH]; simpl; [done|]. intros [Ha Hs]%andb_true_iff.
  apply HP in Ha. destruct (N.leb_spec 128 (code a)); [lia|]. simpl.
  destruct (N.leb_spec 240 (code a)); [lia|]. simpl. f_equal. by apply IH.
Qed.

Fixpoint chars (s : string) : list ascii :=
  match s with EmptyString => [] | String a s' => a :: chars s' end.
