(* ===== verification/JsValue.v ===== *)
(** JavaScript values as the program sees them.

    The inductive type of run-time values, the coercions the code uses
    ([Boolean(v)], [String(v)], [typeof], property reads), and the object
    operations [Object.keys], spread and property assignment. *)
From Stdlib Require Import ZArith NArith Lia Ascii.
From stdpp Require Import base list strings pretty gmap.
From S2P Require Import Prelude.

(** Numbers are the integer-valued doubles below 10^21 (printed without an
    exponent), the infinities and NaN; [-0] and [0] are not told apart, as no
    modelled code tells them apart. *)
Inductive jsnum :=
  | NInt (z : Z)
  | NInf (negative : bool)
  | NNaN.

(** An object is its own enumerable string-keyed properties in creation
    order. *)
Inductive jsval :=
  | JUndef
  | JNull
  | JBool (b : bool)
  | JNum (n : jsnum)
  | JStr (s : string)
  | JArr (items : list jsval)
  | JObj (props : list (string * jsval)).

Section JsvalInd.
Context (P : jsval → Prop).
Context (HU : P JUndef) (HN : P JNull) (HB : ∀ b, P (JBool b)).
Context (HZ : ∀ n, P (JNum n)) (HS : ∀ s, P (JStr s)).
Context (HA : ∀ l, Forall P l → P (JArr l)).
Context (HO : ∀ l, Forall (λ kv, P kv.2) l → P (JObj l)).

Fixpoint jsval_nested_ind (v : jsval) : P v :=
  match v with
  | JUndef => HU
  | JNull => HN
  | JBool b => HB b
  | JNum n => HZ n
  | JStr s => HS s
  | JArr l => HA l
      ((fix go (l : list jsval) : Forall P l :=
          match l with
          | [] => Forall_nil_2 P
          | x :: l' => Forall_cons_2 P x l' (jsval_nested_ind x) (go l')
          end) l)
  | JObj l => HO l
      ((fix go (l : list (string * jsval)) : Forall (λ kv, P kv.2) l :=
          match l with
          | [] => Forall_nil_2 _
          | x :: l' => Forall_cons_2 _ x l' (jsval_nested_ind x.2) (go l')
          end) l)
  end.
End JsvalInd.

#[export] Instance jsnum_eq_dec : EqDecision jsnum.
Proof. solve_decision. Defined.

(** Structural equality of values, as a boolean function. *)
Fixpoint jsval_eqb (v w : jsval) : bool :=
  match v, w with
  | JUndef, JUndef | JNull, JNull => true
  | JBool a, JBool b => Bool.eqb a b
  | JNum a, JNum b => bool_decide (a = b)
  | JStr a, JStr b => String.eqb a b
  | JArr l, JArr m =>
      (fix go (l m : list jsval) : bool :=
         match l, m with
         | [], [] => true
         | x :: l', y :: m' => jsval_eqb x y && go l' m'
         | _, _ => false
         end) l m
  | JObj l, JObj m =>
      (fix go (l m : list (string * jsval)) : bool :=
         match l, m with
         | [], [] => true
         | (k, x) :: l', (k', y) :: m' =>
             String.eqb k k' && jsval_eqb x y && go l' m'
         | _, _ => false
         end) l m
  | _, _ => false
  end.

(** [Boolean(v)]. *)
Definition truthy (v : jsval) : bool :=
  match v with
  | JUndef | JNull | JNum NNaN => false
  | JBool b => b
  | JNum (NInt z) => negb (Z.eqb z 0)
  | JNum (NInf _) => true
  | JStr s => negb (is_empty_str s)
  | JArr _ | JObj _ => true
  end.

(** [v == null]. *)
Definition nullish (v : jsval) : bool :=
  match v with JUndef | JNull => true | _ => false end.

(** [a || b] and [a ?? b] on values. *)
Definition js_or (a b : jsval) : jsval := if truthy a then a else b.
Definition js_coalesce (a b : jsval) : jsval := if nullish a then b else a.

Definition num_to_string (n : jsnum) : string :=
  match n with
  | NInt z => pretty z
  | NInf false => "Infinity"
  | NInf true => "-Infinity"
  | NNaN => "NaN"
  end.

(** [String(v)]; an array joins its items with commas, [null] and
    [undefined] items as the empty string. *)
Fixpoint to_string (v : jsval) : string :=
  match v with
  | JUndef => "undefined"
  | JNull => "null"
  | JBool true => "true"
  | JBool false => "false"
  | JNum n => num_to_string n
  | JStr s => s
  | JArr l =>
      str_concat "," ((fix go (l : list jsval) : list string :=
        match l with
        | [] => []
        | x :: l' => (if nullish x then EmptyString else to_string x) :: go l'
        end) l)
  | JObj _ => "[object Object]"
  end.

(** [String(v || "")]. *)
Definition text (v : jsval) : string := to_string (js_or v (JStr EmptyString)).

(** [typeof v === 'string'], and the string when it is one. *)
Definition as_string (v : jsval) : option string :=
  match v with JStr s => Some s | _ => None end.
Definition is_string (v : jsval) : bool :=
  match v with JStr _ => true | _ => false end.
Definition is_array (v : jsval) : bool :=
  match v with JArr _ => true | _ => false end.

(** [Boolean(v) && typeof v === 'object' && !Array.isArray(v)]. *)
Definition is_record (v : jsval) : bool :=
  match v with JObj _ => true | _ => false end.

(** [typeof v === 'string' && v.trim().length > 0]. *)
Definition is_non_blank (v : jsval) : bool :=
  match v with JStr s => non_blank s | _ => false end.

(** [typeof v === 'string' && v.length > 0]. *)
Definition is_non_empty (v : jsval) : bool :=
  match v with JStr s => negb (is_empty_str s) | _ => false end.

(** Reading property [k]: [undefined] when absent. Primitives and arrays have
    none of the property names the code reads. *)
Fixpoint assoc (k : string) (ps : list (string * jsval)) : option jsval :=
  match ps with
  | [] => None
  | (k', v) :: ps' => if String.eqb k k' then Some v else assoc k ps'
  end.

Definition get (v : jsval) (k : string) : jsval :=
  match v with JObj ps => default JUndef (assoc k ps) | _ => JUndef end.

Definition str_or_empty (v : jsval) : string :=
  match v with JStr s => s | _ => EmptyString end.

(** [o.k = v] on an existing object: overwrite in place or append. *)
Fixpoint assoc_set (k : string) (v : jsval) (ps : list (string * jsval)) :
    list (string * jsval) :=
  match ps with
  | [] => [(k, v)]
  | (k', w) :: ps' => if String.eqb k k' then (k, v) :: ps' else (k', w) :: assoc_set k v ps'
  end.

(** [Object.keys(v)] (creation order). *)
Definition keys (v : jsval) : list string :=
  match v with JObj ps => map fst ps | _ => [] end.

(** [Object.keys(v).sort()]. *)
Definition sorted_keys (v : jsval) : list string := sort_by str_leb (keys v).

(** A string or [null]. *)
Definition opt_str (o : option string) : jsval :=
  match o with Some s => JStr s | None => JNull end.

Definition jint (z : Z) : jsval := JNum (NInt z).

(** ** Equality test *)
Lemma jsval_eqb_spec v : ∀ w, jsval_eqb v w = true ↔ v = w.
Proof.
  induction v as [| |b|n|s|l IH|l IH] using jsval_nested_ind; intros [| |b'|n'|s'|m|m];
    simpl; try done.
  - rewrite Bool.eqb_true_iff. naive_solver.
  - rewrite bool_decide_eq_true. naive_solver.
  - rewrite String.eqb_eq. naive_solver.
  - revert m. induction IH as [|x l Hx _ IHl]; intros [|y m]; try done.
    rewrite andb_true_iff, Hx, IHl. naive_solver.
  - revert m. induction IH as [|[k x] l Hx _ IHl]; intros [|[k' y] m]; try done.
    simpl in Hx. rewrite !andb_true_iff, String.eqb_eq, Hx, IHl. naive_solver.
Qed.

#[export] Instance jsval_eq_dec : EqDecision jsval.
Proof.
  intros v w. destruct (jsval_eqb v w) eqn:E.
  - left. by apply jsval_eqb_spec.
  - right. intros H%jsval_eqb_spec. congruence.
Defined.

(** ** Property reads and writes *)
Lemma assoc_set_eq k v ps : assoc k (assoc_set k v ps) = Some v.
Proof.
  induction ps as [|[k' w] ps IH]; simpl; [by rewrite String.eqb_refl|].
  destruct (String.eqb k k') eqn:E; simpl; [by rewrite String.eqb_refl|by rewrite E].
Qed.

Lemma assoc_set_ne k k' v ps : k ≠ k' → assoc k (assoc_set k' v ps) = assoc k ps.
Proof.
  intros Hne. induction ps as [|[j w] ps IH]; simpl.
  - by apply String.eqb_neq in Hne as ->.
  - destruct (String.eqb k' j) eqn:E; simpl.
    + apply String.eqb_eq in E as <-. by apply String.eqb_neq in Hne as ->.
    + by rewrite IH.
Qed.

Lemma assoc_elem k v ps : NoDup ps.*1 → (k, v) ∈ ps → assoc k ps = Some v.
Proof.
  induction ps as [|[j w] ps IH]; csimpl; [by intros _ ?%elem_of_nil|].
  intros [Hj Hnd]%NoDup_cons [E|Hin]%elem_of_cons.
  - injection E as -> ->. by rewrite String.eqb_refl.
  - destruct (String.eqb k j) eqn:Ek; [|by apply IH].
    apply String.eqb_eq in Ek as ->. destruct Hj. by apply (list_elem_of_fmap_2 fst) in Hin.
Qed.

Lemma is_record_inv v : is_record v = true → ∃ ps, v = JObj ps.
Proof. destruct v; naive_solver. Qed.

Lemma as_string_inv v s : as_string v = Some s → v = JStr s.
Proof. destruct v; naive_solver. Qed.

Lemma is_non_blank_inv v : is_non_blank v = true → ∃ s, v = JStr s ∧ non_blank s = true.
Proof. destruct v; naive_solver. Qed.

Lemma non_blank_str v : is_non_blank v = true → v = JStr (str_or_empty v).
Proof. by destruct v. Qed.

Lemma string_str v : is_string v = true → v = JStr (str_or_empty v).
Proof. by destruct v. Qed.

Lemma non_blank_non_empty v : is_non_blank v = true → is_non_empty v = true.
Proof. destruct v as [| | | |s| |]; try done. by destruct s. Qed.

Create HintDb js.
#[export] Hint Resolve non_blank_str string_str non_blank_non_empty : js.
#[export] Hint Resolve str_leb_total str_leb_refl str_leb_trans str_leb_antisymm : js.
#[export] Hint Rewrite String.eqb_refl assoc_set_eq : js.

(** * [Number(v)]

    Decimal integers of at most fifteen digits are read; what another text
    denotes is left to [other_number]. *)
Fixpoint digits_value (acc : Z) (s : string) : option Z :=
  match s with
  | EmptyString => Some acc
  | String c s' =>
      if ((48 <=? code c) && (code c <=? 57))%N
      then digits_value (10 * acc + (Z.of_N (code c) - 48))%Z s' else None
  end.

Section Number.
Context (other_number : string → jsnum).

Definition str_to_number (s : string) : jsnum :=
  let t := js_trim s in
  let '(negative, body) :=
    match t with
    | String c r =>
        if Ascii.eqb c "-" then (true, r) else if Ascii.eqb c "+" then (false, r) else (false, t)
    | EmptyString => (false, t)
    end in
  if is_empty_str t then NInt 0
  else if String.eqb body "Infinity" then NInf negative
  else if Nat.ltb 0 (String.length body) && Nat.leb (String.length body) 15 then
    match digits_value 0 body with
    | Some z => NInt (if negative then (- z)%Z else z)
    | None => other_number t
    end
  else other_number t.

Definition to_number (v : jsval) : jsnum :=
  match v with
  | JUndef => NNaN
  | JNull => NInt 0
  | JBool b => NInt (if b then 1 else 0)
  | JNum n => n
  | JStr s => str_to_number s
  | JArr _ | JObj _ => str_to_number (to_string v)
  end.
End Number.

(** [Number.isFinite(v)]: only finite numbers. *)
Definition finite_number (v : jsval) : option Z :=
  match v with JNum (NInt z) => Some z | _ => None end.

Definition finite (n : jsnum) : option Z :=
  match n with NInt z => Some z | _ => None end.
