(* ===== verification/Sha256.v ===== *)
(** SHA-256: [sha256Hex] of [src/canonical.js].

    The source computes with the signed 32-bit operators of the language
    ([>>>], [<<], [^], [&], [|], [~]) and reduces sums with [>>> 0]. The model
    keeps those operators; [Module Fips] is the FIPS 180-4 function on unsigned
    words, and the two are proved equal. *)
From Stdlib Require Import ZArith NArith Lia Ascii.
From stdpp Require Import base list strings gmap.
From S2P Require Import Prelude.

Definition hex_digit (n : N) : ascii :=
  ascii_of_N (if (n <? 10)%N then (48 + n)%N else (87 + n)%N).

Local Open Scope Z_scope.

Definition u32 (x : Z) : Z := Z.land x 4294967295.
Definition i32 (x : Z) : Z := if Z.testbit x 31 then u32 x - 4294967296 else u32 x.

(** The 32-bit operators of the language: operands through ToInt32, a signed
    result; [>>>] through ToUint32. *)
Definition js_bor (a b : Z) : Z := Z.lor (i32 a) (i32 b).
Definition js_band (a b : Z) : Z := Z.land (i32 a) (i32 b).
Definition js_bxor (a b : Z) : Z := Z.lxor (i32 a) (i32 b).
Definition js_bnot (a : Z) : Z := Z.lnot (i32 a).
Definition js_shl (a n : Z) : Z := i32 (Z.shiftl (i32 a) n).
Definition js_shr (a n : Z) : Z := Z.shiftr (i32 a) n.
Definition js_ushr (a n : Z) : Z := Z.shiftr (u32 a) n.

Definition rightRotate (value amount : Z) : Z :=
  js_bor (js_ushr value amount) (js_shl value (32 - amount)).

(** [new TextEncoder().encode(value)]. *)
Fixpoint utf8Bytes (s : string) : list Z :=
  match s with
  | EmptyString => []
  | String a s' => Z.of_N (code a) :: utf8Bytes s'
  end.

Definition be32 (x : Z) : list Z :=
  map (λ n, Z.land (Z.shiftr x n) 255) [24; 16; 8; 0].

(** The padded message: the bytes, 0x80, zeros, the 64-bit length. *)
Definition sha_pad (bytes : list Z) : list Z :=
  let len := Z.of_nat (length bytes) in
  let bitLength := len * 8 in
  let paddedLength := js_shl (js_shr (len + 9 + 63) 6) 6 in
  let high := bitLength / 4294967296 in
  let low := js_ushr bitLength 0 in
  bytes ++ [128] ++ repeat 0 (Z.to_nat (paddedLength - len - 9)) ++ be32 high ++ be32 low.

(** The table [k] (lines 50-59), in decimal. *)
Definition sha_k : list Z :=
  [1116352408; 1899447441; 3049323471; 3921009573; 961987163; 1508970993;
   2453635748; 2870763221; 3624381080; 310598401; 607225278; 1426881987;
   1925078388; 2162078206; 2614888103; 3248222580; 3835390401; 4022224774;
   264347078; 604807628; 770255983; 1249150122; 1555081692; 1996064986;
   2554220882; 2821834349; 2952996808; 3210313671; 3336571891; 3584528711;
   113926993; 338241895; 666307205; 773529912; 1294757372; 1396182291;
   1695183700; 1986661051; 2177026350; 2456956037; 2730485921; 2820302411;
   3259730800; 3345764771; 3516065817; 3600352804; 4094571909; 275423344;
   430227734; 506948616; 659060556; 883997877; 958139571; 1322822218;
   1537002063; 1747873779; 1955562222; 2024104815; 2227730452; 2361852424;
   2428436474; 2756734187; 3204031479; 3329325298].

Definition sha_h0 : list Z :=
  [1779033703; 3144134277; 1013904242; 2773480762; 1359893119;
   2600822924; 528734635; 1541459225].

(** [view.getUint32(4*i)] for the words of a byte list. *)
Fixpoint be_words (bytes : list Z) : list Z :=
  match bytes with
  | a :: b :: c :: d :: rest =>
      (Z.shiftl a 24 + Z.shiftl b 16 + Z.shiftl c 8 + d) :: be_words rest
  | _ => []
  end.

Definition at_ (l : list Z) (i : nat) : Z := nth i l 0.

(** Lines 61-65: one step of the message schedule, appending [w[i]]. *)
Definition schedule_step (w : list Z) (i : nat) : list Z :=
  let x := at_ w (i - 15) in
  let y := at_ w (i - 2) in
  let s0 := js_bxor (js_bxor (rightRotate x 7) (rightRotate x 18)) (js_ushr x 3) in
  let s1 := js_bxor (js_bxor (rightRotate y 17) (rightRotate y 19)) (js_ushr y 10) in
  w ++ [u32 (at_ w (i - 16) + s0 + at_ w (i - 7) + s1)].

Record sha_state := mkSha {
  sa : Z; sb : Z; sc : Z; sd : Z; se : Z; sf : Z; sg : Z; sh : Z
}.

(** Lines 68-84: one round. *)
Definition sha_round (w : list Z) (s : sha_state) (i : nat) : sha_state :=
  let 'mkSha a b c d e f g hh := s in
  let s1 := js_bxor (js_bxor (rightRotate e 6) (rightRotate e 11)) (rightRotate e 25) in
  let ch := js_bxor (js_band e f) (js_band (js_bnot e) g) in
  let temp1 := u32 (hh + s1 + ch + at_ sha_k i + at_ w i) in
  let s0 := js_bxor (js_bxor (rightRotate a 2) (rightRotate a 13)) (rightRotate a 22) in
  let maj := js_bxor (js_bxor (js_band a b) (js_band a c)) (js_band b c) in
  let temp2 := u32 (s0 + maj) in
  mkSha (u32 (temp1 + temp2)) a b c (u32 (d + temp1)) e f g.

Definition state_list (s : sha_state) : list Z :=
  [sa s; sb s; sc s; sd s; se s; sf s; sg s; sh s].

Definition list_state (h : list Z) : sha_state :=
  mkSha (at_ h 0) (at_ h 1) (at_ h 2) (at_ h 3) (at_ h 4) (at_ h 5) (at_ h 6) (at_ h 7).

(** Lines 58-94: one 64-byte block. *)
Definition sha_block (h : list Z) (block : list Z) : list Z :=
  let w := fold_left schedule_step (seq 16 48) (be_words block) in
  let s := fold_left (sha_round w) (seq 0 64) (list_state h) in
  zip_with (λ x y, u32 (x + y)) h (state_list s).

Fixpoint chunk64 (fuel : nat) (bytes : list Z) : list (list Z) :=
  match fuel, bytes with
  | O, _ | _, [] => []
  | S fuel', _ => take 64 bytes :: chunk64 fuel' (drop 64 bytes)
  end.

(** [word.toString(16).padStart(8, "0")] for a word below 2^32. *)
Definition hex_word (x : Z) : string :=
  fold_right (λ n s, String (hex_digit (Z.to_N (Z.land (Z.shiftr x n) 15))) s)
    EmptyString [28; 24; 20; 16; 12; 8; 4; 0].

Definition sha256Hex (input : string) : string :=
  let padded := sha_pad (utf8Bytes input) in
  let h := fold_left sha_block (chunk64 (length padded) padded) sha_h0 in
  String.concat EmptyString (map hex_word h).

(** Test vectors of FIPS 180-4. *)
Example sha256_abc : sha256Hex "abc" =
  "ba7816bf8f01cfea414140de5dae2223b00361a396177a9cb410ff61f20015ad".
Proof. vm_compute. reflexivity. Qed.

Example sha256_empty : sha256Hex EmptyString =
  "e3b0c44298fc1c149afbf4c8996fb92427ae41e4649b934ca495991b7852b855".
Proof. vm_compute. reflexivity. Qed.

Example sha256_two_blocks :
  sha256Hex "abcdbcdecdefdefgefghfghighijhijkijkljklmklmnlmnomnopnopq" =
  "248d6a61d20638b8e5c026930c3e6039a33ce45964ff2167f6ecedd419db06c1".
Proof. vm_compute. reflexivity. Qed.

(** The two tables are the fractional parts of the cube and square roots of the
    first primes: [x] is the fraction of the [e]-th root of [p] when, with the
    integer part [n] in front, it is the root of [p] scaled by 2^32, rounded
    down. *)
Definition primes64 : list Z :=
  List.filter (λ n, forallb (λ d, negb (n mod d =? 0)) (map Z.of_nat (seq 2 (Z.to_nat n - 2))))
    (map Z.of_nat (seq 2 310)).

Definition root_fraction (e p x : Z) : bool :=
  existsb (λ n, ((n * 2 ^ 32 + x) ^ e <=? p * 2 ^ (32 * e))
    && (p * 2 ^ (32 * e) <? (n * 2 ^ 32 + x + 1) ^ e)) (map Z.of_nat (seq 1 18)).

Lemma sha_tables :
  forallb (λ px, root_fraction 3 px.1 px.2) (combine primes64 sha_k) = true
  ∧ forallb (λ px, root_fraction 2 px.1 px.2) (combine primes64 sha_h0) = true
  ∧ length primes64 = length sha_k.
Proof. by vm_compute. Qed.

(** * Arithmetic modulo 2^32 *)

Lemma u32_mod x : u32 x = x mod 4294967296.
Proof. unfold u32. change 4294967295 with (Z.ones 32). by rewrite Z.land_ones by lia. Qed.

Lemma u32_bound x : 0 ≤ u32 x < 4294967296.
Proof. rewrite u32_mod. apply Z.mod_pos_bound. lia. Qed.

Lemma u32_idemp x : u32 (u32 x) = u32 x.
Proof. rewrite !u32_mod. apply Z.mod_mod. lia. Qed.

Lemma u32_small x : 0 ≤ x < 4294967296 → u32 x = x.
Proof. intros. rewrite u32_mod. by apply Z.mod_small. Qed.

Lemma u32_i32 x : u32 (i32 x) = u32 x.
Proof.
  unfold i32. destruct (Z.testbit x 31); [|apply u32_idemp].
  rewrite !u32_mod. rewrite Zminus_mod, Z.mod_mod, Z_mod_same_full, Z.sub_0_r by lia.
  apply Z.mod_mod. lia.
Qed.

(** Congruence of words, and the operators that respect it. *)
Definition eqm (x y : Z) : Prop := u32 x = u32 y.

#[export] Instance eqm_equiv : Equivalence eqm.
Proof. split; unfold eqm; [by intros ?|by intros ??|]. by intros ??? -> ->. Qed.

Lemma u32_add x y : u32 (x + y) = u32 (u32 x + u32 y).
Proof. rewrite !u32_mod. apply Zplus_mod. Qed.

#[export] Instance add_proper : Proper (eqm ==> eqm ==> eqm) Z.add.
Proof.
  intros x x' Hx y y' Hy. unfold eqm in *. by rewrite u32_add, Hx, Hy, <- u32_add.
Qed.

Lemma u32_eqm x : eqm (u32 x) x.
Proof. apply u32_idemp. Qed.

Ltac u32_bits :=
  unfold u32; apply Z.bits_inj'; intros ? ?;
  rewrite ?Z.land_spec, ?Z.lxor_spec, ?Z.lor_spec, ?Z.land_spec, ?Z.lxor_spec, ?Z.lor_spec;
  repeat match goal with |- context [Z.testbit ?x ?n] => destruct (Z.testbit x n) end;
  reflexivity.

Lemma u32_lxor x y : u32 (Z.lxor x y) = Z.lxor (u32 x) (u32 y).
Proof. u32_bits. Qed.
Lemma u32_land x y : u32 (Z.land x y) = Z.land (u32 x) (u32 y).
Proof. u32_bits. Qed.
Lemma u32_lor x y : u32 (Z.lor x y) = Z.lor (u32 x) (u32 y).
Proof. u32_bits. Qed.

Lemma u32_lnot x : u32 (Z.lnot x) = 4294967295 - u32 x.
Proof. rewrite !u32_mod. unfold Z.lnot. Z.div_mod_to_equations. lia. Qed.

Lemma u32_js_bxor a b : u32 (js_bxor a b) = Z.lxor (u32 a) (u32 b).
Proof. unfold js_bxor. by rewrite u32_lxor, !u32_i32. Qed.
Lemma u32_js_band a b : u32 (js_band a b) = Z.land (u32 a) (u32 b).
Proof. unfold js_band. by rewrite u32_land, !u32_i32. Qed.
Lemma u32_js_bor a b : u32 (js_bor a b) = Z.lor (u32 a) (u32 b).
Proof. unfold js_bor. by rewrite u32_lor, !u32_i32. Qed.
Lemma u32_js_bnot a : u32 (js_bnot a) = 4294967295 - u32 a.
Proof. unfold js_bnot. by rewrite u32_lnot, u32_i32. Qed.

Lemma u32_js_ushr a n : 0 ≤ n → u32 (js_ushr a n) = Z.shiftr (u32 a) n.
Proof.
  intros Hn. unfold js_ushr. apply u32_small. pose proof (u32_bound a).
  rewrite Z.shiftr_div_pow2 by done.
  assert (0 < 2 ^ n) by (apply Z.pow_pos_nonneg; lia).
  split; [apply Z.div_pos; lia|].
  apply Z.div_lt_upper_bound; [done|]. nia.
Qed.

Lemma u32_shiftl a n : 0 ≤ n → u32 (Z.shiftl a n) = u32 (Z.shiftl (u32 a) n).
Proof.
  intros. rewrite !u32_mod, !Z.shiftl_mul_pow2 by done.
  by rewrite Zmult_mod_idemp_l.
Qed.

Lemma u32_js_shl a n : 0 ≤ n → u32 (js_shl a n) = u32 (Z.shiftl (u32 a) n).
Proof.
  intros. unfold js_shl. rewrite u32_i32, u32_shiftl, u32_i32 by done. done.
Qed.

Create HintDb words.
#[export] Hint Rewrite u32_js_bxor u32_js_band u32_js_bor u32_js_bnot u32_idemp : words.
#[export] Hint Rewrite u32_js_ushr u32_js_shl using lia : words.

(** * FIPS 180-4 *)
Module Fips.
Definition rotr (n x : Z) : Z :=
  Z.lor (Z.shiftr x n) (Z.shiftl x (32 - n) mod 4294967296).
Definition lnot32 (x : Z) : Z := 4294967295 - x.
Definition Ch (x y z : Z) : Z := Z.lxor (Z.land x y) (Z.land (lnot32 x) z).
Definition Maj (x y z : Z) : Z :=
  Z.lxor (Z.lxor (Z.land x y) (Z.land x z)) (Z.land y z).
Definition Sigma0 (x : Z) : Z := Z.lxor (Z.lxor (rotr 2 x) (rotr 13 x)) (rotr 22 x).
Definition Sigma1 (x : Z) : Z := Z.lxor (Z.lxor (rotr 6 x) (rotr 11 x)) (rotr 25 x).
Definition sigma0 (x : Z) : Z := Z.lxor (Z.lxor (rotr 7 x) (rotr 18 x)) (Z.shiftr x 3).
Definition sigma1 (x : Z) : Z := Z.lxor (Z.lxor (rotr 17 x) (rotr 19 x)) (Z.shiftr x 10).
Definition add32 (l : list Z) : Z := fold_right Z.add 0 l mod 4294967296.

Definition schedule_step (w : list Z) (t : nat) : list Z :=
  w ++ [add32 [sigma1 (at_ w (t - 2)); at_ w (t - 7); sigma0 (at_ w (t - 15));
               at_ w (t - 16)]].

Definition round (w : list Z) (s : sha_state) (t : nat) : sha_state :=
  let 'mkSha a b c d e f g h := s in
  let T1 := add32 [h; Sigma1 e; Ch e f g; at_ sha_k t; at_ w t] in
  let T2 := add32 [Sigma0 a; Maj a b c] in
  mkSha (add32 [T1; T2]) a b c (add32 [d; T1]) e f g.

Definition block (H : list Z) (M : list Z) : list Z :=
  let w := fold_left schedule_step (seq 16 48) (be_words M) in
  let s := fold_left (round w) (seq 0 64) (list_state H) in
  zip_with (λ x y, add32 [x; y]) H (state_list s).

(** One bit, [k] zero bits with [l + 1 + k = 448 mod 512], the 64-bit [l]. *)
Definition pad (bytes : list Z) : list Z :=
  let len := Z.of_nat (length bytes) in
  bytes ++ [128] ++ repeat 0 (Z.to_nat ((55 - len) mod 64))
    ++ map (λ n, (8 * len) / 2 ^ n mod 256) [56; 48; 40; 32; 24; 16; 8; 0].

Definition sha256 (message : string) : string :=
  let padded := pad (utf8Bytes message) in
  let h := fold_left block (chunk64 (length padded) padded) sha_h0 in
  String.concat EmptyString (map hex_word h).
End Fips.

(** * The source computes FIPS 180-4 *)

Definition word (x : Z) : Prop := u32 x = x.

Lemma word_u32 x : word (u32 x).
Proof. apply u32_idemp. Qed.

Lemma word_eqm x y : word x → word y → eqm x y → x = y.
Proof. unfold word, eqm. congruence. Qed.

Lemma add32_u32 l : Fips.add32 l = u32 (fold_right Z.add 0 l).
Proof. by rewrite u32_mod. Qed.

Lemma word_at l i : Forall word l → word (at_ l i).
Proof.
  unfold at_. intros Hl. revert i. induction Hl as [|x l Hx _ IH]; intros [|i]; simpl; done.
Qed.

Lemma add32_pair x y : Fips.add32 [x; y] = u32 (x + y).
Proof. rewrite add32_u32. cbn [fold_right]. by rewrite Z.add_0_r. Qed.

Lemma u32_rightRotate x n :
  0 ≤ n ≤ 32 → u32 (rightRotate x n) = Fips.rotr n (u32 x).
Proof.
  intros. unfold rightRotate, Fips.rotr. autorewrite with words.
  by rewrite (u32_mod (Z.shiftl _ _)).
Qed.

(** An expression of the source denotes, modulo 2^32, the word of the
    standard. *)
Lemma eqm_word e f : u32 e = f → eqm e f.
Proof. intros <-. symmetry. apply u32_eqm. Qed.

Ltac word_expr :=
  autorewrite with words; rewrite ?u32_rightRotate by lia; rewrite ?u32_js_ushr by lia;
  repeat match goal with H : word ?x |- _ => rewrite H in *; clear H end; reflexivity.

Lemma schedule_step_fips w i :
  Forall word w →
  schedule_step w i = Fips.schedule_step w i ∧ Forall word (schedule_step w i).
Proof.
  intros Hw. unfold schedule_step. split; [|apply Forall_app; repeat constructor;
    [done|apply word_u32]].
  unfold Fips.schedule_step. do 2 f_equal. rewrite add32_u32. simpl.
  pose proof (word_at w (i - 15) Hw) as Hx. pose proof (word_at w (i - 2) Hw) as Hy.
  set (x := at_ w (i - 15)) in *. set (y := at_ w (i - 2)) in *.
  assert (u32 (js_bxor (js_bxor (rightRotate x 7) (rightRotate x 18)) (js_ushr x 3))
    = Fips.sigma0 x) as H0%eqm_word.
  { unfold Fips.sigma0. word_expr. }
  assert (u32 (js_bxor (js_bxor (rightRotate y 17) (rightRotate y 19)) (js_ushr y 10))
    = Fips.sigma1 y) as H1%eqm_word.
  { unfold Fips.sigma1. word_expr. }
  change (eqm (at_ w (i - 16) + js_bxor (js_bxor (rightRotate x 7) (rightRotate x 18))
    (js_ushr x 3) + at_ w (i - 7) + js_bxor (js_bxor (rightRotate y 17)
    (rightRotate y 19)) (js_ushr y 10))
    (Fips.sigma1 y + (at_ w (i - 7) + (Fips.sigma0 x + (at_ w (i - 16) + 0))))).
  rewrite H0, H1. unfold eqm. apply f_equal. ring.
Qed.

Definition word_state (s : sha_state) : Prop := Forall word (state_list s).

Lemma sha_round_fips w s i :
  word_state s → sha_round w s i = Fips.round w s i ∧ word_state (sha_round w s i).
Proof.
  destruct s as [a b c d e f g hh]. unfold word_state, state_list; simpl. intros Hs.
  repeat match goal with H : Forall _ (_ :: _) |- _ => apply Forall_cons in H as [? H] end.
  split; [|repeat constructor; auto using word_u32].
  assert (u32 (js_bxor (js_bxor (rightRotate e 6) (rightRotate e 11)) (rightRotate e 25))
    = Fips.Sigma1 e) as HS1%eqm_word by (unfold Fips.Sigma1; word_expr).
  assert (u32 (js_bxor (js_bxor (rightRotate a 2) (rightRotate a 13)) (rightRotate a 22))
    = Fips.Sigma0 a) as HS0%eqm_word by (unfold Fips.Sigma0; word_expr).
  assert (u32 (js_bxor (js_band e f) (js_band (js_bnot e) g)) = Fips.Ch e f g)
    as HCh%eqm_word by (unfold Fips.Ch, Fips.lnot32; word_expr).
  assert (u32 (js_bxor (js_bxor (js_band a b) (js_band a c)) (js_band b c)) = Fips.Maj a b c)
    as HMaj%eqm_word by (unfold Fips.Maj; word_expr).
  assert (eqm (hh + js_bxor (js_bxor (rightRotate e 6) (rightRotate e 11)) (rightRotate e 25)
      + js_bxor (js_band e f) (js_band (js_bnot e) g) + at_ sha_k i + at_ w i)
    (fold_right Z.add 0 [hh; Fips.Sigma1 e; Fips.Ch e f g; at_ sha_k i; at_ w i])) as HT1.
  { rewrite HS1, HCh. cbn [fold_right]. unfold eqm. apply f_equal. ring. }
  assert (eqm (js_bxor (js_bxor (rightRotate a 2) (rightRotate a 13)) (rightRotate a 22)
      + js_bxor (js_bxor (js_band a b) (js_band a c)) (js_band b c))
    (fold_right Z.add 0 [Fips.Sigma0 a; Fips.Maj a b c])) as HT2.
  { rewrite HS0, HMaj. cbn [fold_right]. unfold eqm. apply f_equal. ring. }
  unfold sha_round, Fips.round. rewrite HT1, HT2, <- !add32_u32. cbv zeta.
  by rewrite !add32_pair.
Qed.

Lemma Forall_fold_left {A B} (f g : A → B → A) (P : A → Prop) l a :
  (∀ a b, P a → f a b = g a b ∧ P (f a b)) → P a →
  fold_left f l a = fold_left g l a ∧ P (fold_left f l a).
Proof.
  intros Hstep. revert a. induction l as [|b l IH]; intros a Ha; simpl; [done|].
  destruct (Hstep a b Ha) as [<- ?]. by apply IH.
Qed.

Lemma byte_land x n : 0 ≤ n → Z.land (Z.shiftr x n) 255 = x / 2 ^ n mod 256.
Proof.
  intros. change 255 with (Z.ones 8). by rewrite Z.land_ones, Z.shiftr_div_pow2 by lia.
Qed.

Lemma sha_pad_fips bytes :
  Z.of_nat (length bytes) < 2147483520 → sha_pad bytes = Fips.pad bytes.
Proof.
  intros Hlen. unfold sha_pad, Fips.pad.
  set (len := Z.of_nat (length bytes)) in *. assert (0 ≤ len) by lia.
  assert (∀ x, 0 ≤ x < 2147483648 → i32 x = x) as Hi32.
  { intros x Hx. unfold i32. rewrite u32_small by lia.
    rewrite Z.testbit_eqb by lia. by rewrite Z.div_small by lia. }
  assert (js_shl (js_shr (len + 9 + 63) 6) 6 - len - 9 = (55 - len) mod 64) as ->.
  { unfold js_shl, js_shr. rewrite (Hi32 (len + 9 + 63)) by lia.
    rewrite Z.shiftr_div_pow2, (Hi32 ((len + 9 + 63) / 2 ^ 6)), Z.shiftl_mul_pow2, Hi32
      by (try lia; Z.div_mod_to_equations; lia).
    Z.div_mod_to_equations; lia. }
  do 3 f_equal. unfold be32, js_ushr. rewrite Z.shiftr_0_r, u32_mod.
  rewrite (Z.mul_comm len 8). simpl map. rewrite !byte_land by lia.
  rewrite !Z.div_div by lia. cbn [app].
  repeat (apply (f_equal2 cons); [try (Z.div_mod_to_equations; lia)|]); try done.
Qed.

Lemma be_words_word n bytes :
  (length bytes ≤ n)%nat → Forall (λ b, 0 ≤ b < 256) bytes → Forall word (be_words bytes).
Proof.
  revert bytes. induction n as [|n IH]; intros [|a [|b [|c [|d bytes]]]] Hn Hb;
    simpl in *; try lia; repeat constructor.
  - repeat (apply Forall_cons in Hb as [? Hb]). unfold word. apply u32_small.
    rewrite !Z.shiftl_mul_pow2 by lia. lia.
  - repeat (apply Forall_cons in Hb as [? Hb]). apply IH; [lia|done].
Qed.

Lemma sha_block_fips H M :
  length H = 8%nat → Forall word H → Forall (λ b, 0 ≤ b < 256) M →
  sha_block H M = Fips.block H M ∧ Forall word (sha_block H M) ∧ length (sha_block H M) = 8%nat.
Proof.
  intros Hl HH HM. unfold sha_block, Fips.block.
  destruct (Forall_fold_left schedule_step Fips.schedule_step (Forall word)
    (seq 16 48) (be_words M)) as [<- _].
  { intros. by apply schedule_step_fips. }
  { by eapply be_words_word. }
  set (w := fold_left schedule_step _ _).
  destruct (Forall_fold_left (sha_round w) (Fips.round w) word_state
    (seq 0 64) (list_state H)) as [<- Hs].
  { intros. by apply sha_round_fips. }
  { unfold word_state, list_state, state_list; simpl. repeat constructor; by apply word_at. }
  generalize (fold_left (sha_round w) (seq 0 64) (list_state H)). intros s.
  do 8 (destruct H as [|? H]; [done|]). destruct H; [|done].
  unfold state_list; simpl. split; [by rewrite !add32_pair|].
  split; [|done]. repeat constructor; apply word_u32.
Qed.

Lemma byte_range_app (l m : list Z) :
  Forall (λ b, 0 ≤ b < 256) l → Forall (λ b, 0 ≤ b < 256) m →
  Forall (λ b, 0 ≤ b < 256) (l ++ m).
Proof. rewrite Forall_app. done. Qed.

Lemma utf8Bytes_range s : Forall (λ b, 0 ≤ b < 256) (utf8Bytes s).
Proof.
  induction s as [|a s IH]; simpl; constructor; [|done].
  pose proof (code_bound a). lia.
Qed.

Lemma utf8Bytes_length s : length (utf8Bytes s) = String.length s.
Proof. induction s; simpl; congruence. Qed.

Lemma pad_range bytes :
  Forall (λ b, 0 ≤ b < 256) bytes → Forall (λ b, 0 ≤ b < 256) (Fips.pad bytes).
Proof.
  intros. unfold Fips.pad. repeat apply byte_range_app; try done.
  - by repeat constructor.
  - apply Forall_forall. intros b Hb. apply list_elem_of_In, repeat_spec in Hb. lia.
  - apply Forall_map. repeat constructor; simpl; apply Z.mod_pos_bound; lia.
Qed.

Lemma chunk64_range n bytes :
  Forall (λ b, 0 ≤ b < 256) bytes →
  Forall (Forall (λ b, 0 ≤ b < 256)) (chunk64 n bytes).
Proof.
  revert bytes. induction n as [|n IH]; intros [|b bytes] Hb; cbn [chunk64]; constructor.
  - by apply Forall_take.
  - by apply IH, Forall_drop.
Qed.

Lemma sha_blocks_fips H bs :
  length H = 8%nat → Forall word H → Forall (Forall (λ b, 0 ≤ b < 256)) bs →
  fold_left sha_block bs H = fold_left Fips.block bs H
  ∧ length (fold_left sha_block bs H) = 8%nat.
Proof.
  revert H. induction bs as [|b bs IH]; intros H Hl HH Hb; cbn [fold_left]; [done|].
  apply Forall_cons in Hb as [Hb Hbs].
  destruct (sha_block_fips H b) as (<- & ? & ?); [done..|]. by apply IH.
Qed.

Lemma sha_h0_word : Forall word sha_h0.
Proof. by repeat constructor. Qed.

(** C40. The source computes FIPS 180-4 SHA-256 on every message shorter than
    2^31 - 128 bytes; beyond it the 32-bit [paddedLength] goes negative and
    [new Uint8Array] throws. *)
Lemma sha256Hex_eq_fips s :
  Z.of_nat (String.length s) < 2147483520 → sha256Hex s = Fips.sha256 s.
Proof.
  intros Hs. unfold sha256Hex, Fips.sha256. rewrite sha_pad_fips by
    (by rewrite utf8Bytes_length).
  destruct (sha_blocks_fips sha_h0 (chunk64 (length (Fips.pad (utf8Bytes s)))
    (Fips.pad (utf8Bytes s)))) as [-> _]; [done|apply sha_h0_word| |done].
  apply chunk64_range, pad_range, utf8Bytes_range.
Qed.

Lemma sha256Hex_eq_fips_witness : sha256Hex "abc" = Fips.sha256 "abc".
Proof. apply (sha256Hex_eq_fips "abc"). reflexivity. Defined.

(** ** Shape of a digest *)
Definition is_hex (a : ascii) : bool :=
  let n := code a in (((48 <=? n) && (n <=? 57)) || ((97 <=? n) && (n <=? 102)))%N.

Lemma str_concat_cons s l :
  String.concat EmptyString (s :: l) = s +:+ String.concat EmptyString l.
Proof. destruct l as [|t l]; simpl; [by rewrite str_app_nil|done]. Qed.

Lemma is_hex_digit n : (n < 16)%N → is_hex (hex_digit n) = true.
Proof.
  intros Hn. unfold is_hex, hex_digit, code.
  destruct (N.ltb_spec n 10); rewrite N_ascii_embedding by lia;
    rewrite orb_true_iff, !andb_true_iff, !N.leb_le; lia.
Qed.

Lemma hex_word_shape x :
  String.length (hex_word x) = 8%nat ∧ str_forall is_hex (hex_word x) = true.
Proof.
  split; [done|]. unfold hex_word; cbn [fold_right str_forall].
  rewrite !is_hex_digit; [done|..]; change 15 with (Z.ones 4);
    rewrite Z.land_ones by lia;
    match goal with |- context [?a mod 2 ^ 4] =>
      pose proof (Z.mod_pos_bound a (2 ^ 4)) end; lia.
Qed.

Lemma sha_blocks_length bs H :
  length H = 8%nat → length (fold_left sha_block bs H) = 8%nat.
Proof.
  revert H. induction bs as [|b bs IH]; intros H Hl; cbn [fold_left]; [done|].
  apply IH. unfold sha_block. by rewrite length_zip_with, Hl.
Qed.

Lemma hex_words_shape l :
  String.length (String.concat EmptyString (map hex_word l)) = (8 * length l)%nat
  ∧ str_forall is_hex (String.concat EmptyString (map hex_word l)) = true.
Proof.
  induction l as [|x l [IHl IHf]]; [done|]. cbn [map].
  rewrite str_concat_cons, str_app_length, str_forall_app, IHl, IHf.
  destruct (hex_word_shape x) as [-> ->]. split; [simpl; lia|done].
Qed.

(** A digest is 64 lowercase hexadecimal digits. *)
Lemma sha256Hex_shape s :
  String.length (sha256Hex s) = 64%nat ∧ str_forall is_hex (sha256Hex s) = true.
Proof.
  unfold sha256Hex. set (h := fold_left _ _ _).
  destruct (hex_words_shape h) as [-> ->]. split; [|done].
  unfold h. by rewrite sha_blocks_length.
Qed.

#[global] Arguments sha256Hex : simpl never.
#[global] Opaque sha256Hex.
