(* ===== verification/Canonical.v ===== *)
(** Canonical serialisation: [normalize] and [canonicalize] of
    [src/canonical.js].

    Every identifier and every exact-object check of the system is
    [sha256Hex(canonicalize(v))]. This file models the serialiser and proves
    that its text determines the normalized value and that it is blind to the
    order of properties at every depth. *)
From Stdlib Require Import ZArith NArith Lia Ascii Sorted.
From stdpp Require Import base list strings pretty gmap.
From S2P Require Import Prelude JsValue Sha256.

(** * canonicalize *)

(** Assigning [normalized["__proto__"]] on a fresh object literal runs the
    inherited setter instead of creating a property, so the key never reaches
    the result. *)
Definition proto_key : string := "__proto__".

Definition prop_leb (a b : string * jsval) : bool := str_leb a.1 b.1.

Fixpoint normalize (v : jsval) : jsval :=
  match v with
  | JUndef => JNull
  | JNull => JNull
  | JStr s => JStr s
  | JBool b => JBool b
  | JNum (NInt z) => JNum (NInt z)
  | JNum _ => JNull
  | JArr l =>
      JArr ((fix go (l : list jsval) : list jsval :=
        match l with [] => [] | x :: l' => normalize x :: go l' end) l)
  | JObj ps =>
      JObj (sort_by prop_leb
        ((fix go (ps : list (string * jsval)) : list (string * jsval) :=
          match ps with
          | [] => []
          | (k, x) :: ps' =>
              if String.eqb k proto_key then go ps' else (k, normalize x) :: go ps'
          end) ps))
  end.

(** [JSON.stringify] of one code unit below 0x80 (and of each byte of the
    UTF-8 form of the others, which are emitted as they are). *)
Definition json_char (a : ascii) : string :=
  let n := code a in
  if (n =? 34)%N || (n =? 92)%N then String "\" (String a EmptyString)
  else if (n =? 8)%N then "\b"
  else if (n =? 9)%N then "\t"
  else if (n =? 10)%N then "\n"
  else if (n =? 12)%N then "\f"
  else if (n =? 13)%N then "\r"
  else if (n <? 32)%N then
    "\u00" +:+ String (hex_digit (n / 16)) (String (hex_digit (n mod 16)) EmptyString)
  else String a EmptyString.

Definition dquote : ascii := ascii_of_N 34.

(** The escaped characters of [s] followed by the closing quote. *)
Fixpoint json_body (s : string) : string :=
  match s with
  | EmptyString => String dquote EmptyString
  | String a s' => json_char a +:+ json_body s'
  end.

Definition json_quote (s : string) : string := String dquote (json_body s).

(** The text of a normalized value. *)
Fixpoint canon_text (v : jsval) : string :=
  match v with
  | JArr l =>
      "[" +:+ str_concat "," ((fix go (l : list jsval) : list string :=
        match l with [] => [] | x :: l' => canon_text x :: go l' end) l) +:+ "]"
  | JObj ps =>
      "{" +:+ str_concat "," (map snd (sort_by (λ a b, str_leb a.1 b.1)
        ((fix go (ps : list (string * jsval)) : list (string * string) :=
          match ps with
          | [] => []
          | (k, x) :: ps' => (k, json_quote k +:+ ":" +:+ canon_text x) :: go ps'
          end) ps))) +:+ "}"
  | JBool true => "true"
  | JBool false => "false"
  | JNum (NInt z) => pretty z
  | JStr s => json_quote s
  | _ => "null"
  end.

(** [canonicalize(value)]: the code normalizes again at every level, which
    changes nothing on a normalized value; [canonicalize_unfold] below is the
    recursive equation of the source. *)
Definition canonicalize (v : jsval) : string := canon_text (normalize v).

Definition hashCanonical (v : jsval) : string := sha256Hex (canonicalize v).

(** The prefixed form used for object identities. *)
Definition sha256_id (v : jsval) : string := "sha256:" +:+ hashCanonical v.

(** * normalize *)

Definition kept (kv : string * jsval) : bool := negb (String.eqb kv.1 proto_key).

Definition norm_props (ps : list (string * jsval)) : list (string * jsval) :=
  map (λ kv, (kv.1, normalize kv.2)) (List.filter kept ps).

Lemma normalize_arr l : normalize (JArr l) = JArr (map normalize l).
Proof. reflexivity. Qed.

Lemma normalize_obj ps : normalize (JObj ps) = JObj (sort_by prop_leb (norm_props ps)).
Proof.
  simpl. do 2 f_equal. unfold norm_props.
  induction ps as [|[k x] ps IH]; simpl; [done|]. unfold kept at 1; simpl.
  destruct (String.eqb k proto_key); simpl; by rewrite IH.
Qed.

Lemma prop_leb_total x y : prop_leb x y = true ∨ prop_leb y x = true.
Proof. apply str_leb_total. Qed.

Lemma prop_leb_trans x y z :
  prop_leb x y = true → prop_leb y z = true → prop_leb x z = true.
Proof. apply str_leb_trans. Qed.

(** The values [normalize] returns: no [undefined], finite numbers, objects
    sorted by key at every level. *)
Inductive normal : jsval → Prop :=
  | normal_null : normal JNull
  | normal_bool b : normal (JBool b)
  | normal_int z : normal (JNum (NInt z))
  | normal_str s : normal (JStr s)
  | normal_arr l : Forall normal l → normal (JArr l)
  | normal_obj ps :
      StronglySorted (leR prop_leb) ps → Forall (λ kv, normal kv.2) ps →
      Forall (λ kv, kept kv = true) ps → normal (JObj ps).

Lemma norm_props_kept ps : Forall (λ kv, kept kv = true) (norm_props ps).
Proof.
  unfold norm_props. induction ps as [|kv ps IH]; simpl; [done|].
  destruct (kept kv) eqn:E; simpl; [by constructor|done].
Qed.

Lemma normalize_normal v : normal (normalize v).
Proof.
  induction v as [| |b|[]|s|l IH|ps IH] using jsval_nested_ind; try by constructor.
  - rewrite normalize_arr. constructor. by apply Forall_map.
  - rewrite normalize_obj. constructor.
    + apply sort_by_sorted; [apply prop_leb_total|apply prop_leb_trans].
    + apply sort_by_Forall. unfold norm_props. apply Forall_map.
      induction IH as [|kv ps Hkv _ IH]; simpl; [done|].
      destruct (kept kv); [by constructor|done].
    + apply sort_by_Forall, norm_props_kept.
Qed.

Lemma norm_props_id ps :
  Forall (λ kv, kept kv = true) ps → Forall (λ kv, normalize kv.2 = kv.2) ps →
  norm_props ps = ps.
Proof.
  unfold norm_props. intros Hk Hn. induction Hk as [|[k x] ps Hkx _ IH]; [done|].
  apply Forall_cons in Hn as [Hx Hn]. simpl in *. rewrite Hkx. simpl.
  by rewrite Hx, IH.
Qed.

Lemma normalize_id v : normal v → normalize v = v.
Proof.
  induction v as [| |b|n|s|l IH|ps IH] using jsval_nested_ind; inversion 1 as
    [| | | |l' Hl|ps' Hs Hn Hk]; subst; try done.
  - rewrite normalize_arr. f_equal. apply list_eq_Forall2, Forall2_fmap_l.
    apply Forall_Forall2_diag. rewrite Forall_forall in IH, Hl |- *. naive_solver.
  - rewrite normalize_obj, norm_props_id; [f_equal; by apply sort_by_id|done|].
    rewrite Forall_forall in IH, Hn |- *. naive_solver.
Qed.

Lemma normalize_idemp v : normalize (normalize v) = normalize v.
Proof. apply normalize_id, normalize_normal. Qed.

(** * The text of a normal value *)

Definition member_text (kv : string * jsval) : string :=
  json_quote kv.1 +:+ ":" +:+ canon_text kv.2.

Lemma canon_text_arr l :
  canon_text (JArr l) = "[" +:+ str_concat "," (map canon_text l) +:+ "]".
Proof. reflexivity. Qed.

Lemma sort_by_map {A B} (f : A → B) (le1 : A → A → bool) (le2 : B → B → bool) l :
  (∀ x y, le2 (f x) (f y) = le1 x y) → sort_by le2 (map f l) = map f (sort_by le1 l).
Proof.
  intros Hle. induction l as [|x l IH]; simpl; [done|]. rewrite IH.
  generalize (sort_by le1 l) as m. induction m as [|y m IHm]; simpl; [done|].
  rewrite Hle. destruct (le1 x y); simpl; [done|]. by rewrite IHm.
Qed.

Lemma canon_text_obj ps :
  canon_text (JObj ps)
  = "{" +:+ str_concat "," (map member_text (sort_by prop_leb ps)) +:+ "}".
Proof.
  simpl. do 3 f_equal.
  rewrite <- (map_map (λ kv, (kv.1, member_text kv)) snd).
  rewrite <- (sort_by_map _ prop_leb (λ a b, str_leb a.1 b.1)) by done.
  do 2 f_equal. induction ps as [|[k x] ps IH]; simpl; [done|]. by rewrite IH.
Qed.

Lemma canon_text_obj_normal ps :
  normal (JObj ps) →
  canon_text (JObj ps) = "{" +:+ str_concat "," (map member_text ps) +:+ "}".
Proof. inversion 1; subst. by rewrite canon_text_obj, sort_by_id. Qed.

(** The recursive equation of [canonicalize] in the source. *)
Lemma canonicalize_unfold v :
  canonicalize v =
    match normalize v with
    | JArr items => "[" +:+ str_concat "," (map canonicalize items) +:+ "]"
    | JObj ps => "{" +:+ str_concat "," (map (λ kv,
        json_quote kv.1 +:+ ":" +:+ canonicalize kv.2) (sort_by prop_leb ps)) +:+ "}"
    | w => canon_text w
    end.
Proof.
  unfold canonicalize. pose proof (normalize_normal v) as Hn.
  destruct Hn as [| | | |l Hl|ps Hs Hn Hk]; try done.
  - rewrite canon_text_arr. do 3 f_equal. apply map_ext_Forall.
    eapply Forall_impl; [exact Hl|]. intros w Hw; simpl. by rewrite normalize_id.
  - rewrite canon_text_obj. do 3 f_equal. apply map_ext_Forall, sort_by_Forall.
    eapply Forall_impl; [exact Hn|]. intros [k w] Hw; simpl in *.
    unfold member_text; simpl. by rewrite normalize_id.
Qed.

(** * Unique readability

    The text of a value followed by a delimiter (or by nothing) determines the
    value and what follows. *)

Definition closer (a : ascii) : bool :=
  ((code a =? 44) || (code a =? 93) || (code a =? 125))%N.

Definition delim (r : string) : Prop :=
  match r with EmptyString => True | String a _ => closer a = true end.

Definition num_char (a : ascii) : bool :=
  (((48 <=? code a) && (code a <=? 57)) || (code a =? 45))%N.

Lemma span_unique s1 s2 r1 r2 :
  str_forall num_char s1 = true → str_forall num_char s2 = true → delim r1 → delim r2 →
  s1 +:+ r1 = s2 +:+ r2 → s1 = s2 ∧ r1 = r2.
Proof.
  assert (∀ a, num_char a = true → closer a = true → False) as Hexcl.
  { unfold num_char, closer. intros a. rewrite !orb_true_iff, andb_true_iff,
      !N.leb_le, !N.eqb_eq. lia. }
  revert s2. induction s1 as [|a s1 IH]; intros [|b s2]; simpl; intros H1 H2 D1 D2 E.
  - done.
  - subst r1. boolify. exfalso. eauto.
  - subst r2. boolify. exfalso. eauto.
  - boolify. injection E as -> E. destruct (IH s2) as [-> ->]; done.
Qed.

Lemma pretty_N_go_all x s :
  str_forall num_char s = true → str_forall num_char (pretty_N_go x s) = true.
Proof.
  revert s. induction (N.lt_wf_0 x) as [x _ IH]; intros s Hs.
  assert (x = 0 ∨ 0 < x)%N as [->|?] by lia; [done|].
  rewrite pretty_N_go_step by done. apply IH; [by apply N.div_lt|]. simpl.
  rewrite Hs, andb_true_r. unfold pretty_N_char. by repeat case_match.
Qed.

Lemma pretty_Z_all (z : Z) : str_forall num_char (pretty z) = true.
Proof.
  unfold pretty, pretty_Z. destruct z as [|p|p]; simpl; [done| |];
    unfold pretty, pretty_positive, pretty, pretty_N; case_decide; try done;
    by apply pretty_N_go_all.
Qed.

Lemma pretty_N_go_length x s :
  (String.length s ≤ String.length (pretty_N_go x s))%nat.
Proof.
  revert s. induction (N.lt_wf_0 x) as [x _ IH]; intros s.
  assert (x = 0 ∨ 0 < x)%N as [->|?] by lia; [by rewrite pretty_N_go_0|].
  rewrite pretty_N_go_step by done.
  etrans; [|by apply IH, N.div_lt]. simpl; lia.
Qed.

Lemma pretty_Z_ne (z : Z) : pretty z ≠ EmptyString.
Proof.
  destruct z as [|p|p]; [done| |done]. intros H%(f_equal String.length).
  unfold pretty, pretty_Z, pretty, pretty_positive, pretty, pretty_N in H.
  case_decide; [done|]. rewrite pretty_N_go_step in H by done.
  pose proof (pretty_N_go_length (N.pos p `div` 10)
    (String (pretty_N_char (N.pos p `mod` 10)) EmptyString)) as L.
  rewrite H in L. simpl in L. lia.
Qed.

(** Reading one escaped character back. *)
Definition hex_val (a : ascii) : N :=
  if (code a <? 58)%N then (code a - 48)%N else (code a - 87)%N.

Definition unescape (s : string) : option (ascii * string) :=
  match s with
  | EmptyString => None
  | String c r =>
      if (code c =? 92)%N then
        match r with
        | String e r' =>
            if (code e =? 117)%N then
              match r' with
              | String _ (String _ (String h (String l r''))) =>
                  Some (ascii_of_N (16 * hex_val h + hex_val l), r'')
              | _ => None
              end
            else if (code e =? 98)%N then Some (ascii_of_N 8, r')
            else if (code e =? 116)%N then Some (ascii_of_N 9, r')
            else if (code e =? 110)%N then Some (ascii_of_N 10, r')
            else if (code e =? 102)%N then Some (ascii_of_N 12, r')
            else if (code e =? 114)%N then Some (ascii_of_N 13, r')
            else Some (e, r')
        | EmptyString => None
        end
      else Some (c, r)
  end.

Lemma unescape_json_char a r : unescape (json_char a +:+ r) = Some (a, r).
Proof. by destruct a as [[] [] [] [] [] [] [] []]. Qed.

Lemma json_char_not_quote a r s : json_char a +:+ r ≠ String dquote s.
Proof. destruct a as [[] [] [] [] [] [] [] []]; discriminate. Qed.

Lemma json_char_inj a b r1 r2 :
  json_char a +:+ r1 = json_char b +:+ r2 → a = b ∧ r1 = r2.
Proof.
  intros E. apply (f_equal unescape) in E. rewrite !unescape_json_char in E. naive_solver.
Qed.

Lemma json_body_inj s t r1 r2 :
  json_body s +:+ r1 = json_body t +:+ r2 → s = t ∧ r1 = r2.
Proof.
  revert t. induction s as [|a s IH]; intros [|b t]; simpl; rewrite ?str_app_assoc; intros E.
  - naive_solver.
  - exfalso. by eapply json_char_not_quote.
  - exfalso. by eapply json_char_not_quote.
  - apply json_char_inj in E as [-> E]. apply IH in E as [-> ->]. done.
Qed.

Lemma json_quote_inj s t r1 r2 :
  json_quote s +:+ r1 = json_quote t +:+ r2 → s = t ∧ r1 = r2.
Proof. unfold json_quote; simpl. intros [= E]. by apply json_body_inj in E. Qed.

(** [f] prints [x] readably: against any [y] satisfying [Q]. *)
Definition readable {A} (f : A → string) (Q : A → Prop) (x : A) : Prop :=
  ∀ y r1 r2, Q y → delim r1 → delim r2 → f x +:+ r1 = f y +:+ r2 → x = y ∧ r1 = r2.

Definition opens {A} (f : A → string) (x : A) : Prop :=
  ∃ a s, f x = String a s ∧ closer a = false.

Section Lists.
Context {A : Type} (f : A → string) (Q : A → Prop) (close : ascii).
Context (close_closer : closer close = true) (close_comma : code close ≠ 44%N).

Fixpoint tail_text (l : list A) (r : string) : string :=
  match l with
  | [] => String close r
  | x :: l' => "," +:+ f x +:+ tail_text l' r
  end.

Lemma str_concat_tail x l r :
  str_concat "," (map f (x :: l)) +:+ String close r = f x +:+ tail_text l r.
Proof.
  revert x. induction l as [|y l IH]; intros x; [done|].
  change (str_concat "," (map f (x :: y :: l)))
    with (f x +:+ "," +:+ str_concat "," (map f (y :: l))).
  rewrite !str_app_assoc, IH. done.
Qed.

Lemma tail_delim l r : delim (tail_text l r).
Proof using close_closer. destruct l; done. Qed.

Lemma tail_text_inj l m r1 r2 :
  Forall (readable f Q) l → Forall Q m →
  tail_text l r1 = tail_text m r2 → l = m ∧ r1 = r2.
Proof using close_closer close_comma.
  intros Hl. revert m. induction Hl as [|x l Hx Hl IH]; intros [|y m] Hm; simpl; intros E.
  - naive_solver.
  - exfalso. by injection E as ->.
  - exfalso. by injection E as <-.
  - injection E as E. apply Forall_cons in Hm as [Hy Hm].
    apply Hx in E as [-> E]; [|done|apply tail_delim..].
    apply IH in E as [-> ->]; done.
Qed.

Lemma list_text_inj l m r1 r2 :
  Forall (readable f Q) l → Forall Q m → Forall (opens f) l → Forall (opens f) m →
  str_concat "," (map f l) +:+ String close r1 = str_concat "," (map f m) +:+ String close r2 →
  l = m ∧ r1 = r2.
Proof using close_closer close_comma.
  intros Hl Hm Ol Om E. destruct l as [|x l], m as [|y m].
  - simpl in E. naive_solver.
  - rewrite (str_concat_tail y) in E. apply Forall_cons in Om as [(a & s & Ha & Hc) _].
    rewrite Ha in E. simpl in E. injection E as <- _. congruence.
  - rewrite (str_concat_tail x) in E. apply Forall_cons in Ol as [(a & s & Ha & Hc) _].
    rewrite Ha in E. simpl in E. injection E as -> _. congruence.
  - rewrite !str_concat_tail in E.
    apply Forall_cons in Hl as [Hx Hl]. apply Forall_cons in Hm as [Hy Hm].
    apply Hx in E as [-> E]; [|done|apply tail_delim..].
    apply tail_text_inj in E as [-> ->]; done.
Qed.
End Lists.

Lemma num_char_not_closer a : num_char a = true → closer a = false.
Proof.
  unfold num_char, closer. rewrite !orb_true_iff, !orb_false_iff, andb_true_iff,
    !N.leb_le, !N.eqb_eq, !N.eqb_neq. lia.
Qed.

Lemma pretty_Z_head (z : Z) :
  ∃ a s, pretty z = String a s ∧ num_char a = true.
Proof.
  pose proof (pretty_Z_all z) as H. pose proof (pretty_Z_ne z) as Hne.
  destruct (pretty z) as [|a s]; [done|]. simpl in H. boolify. eauto.
Qed.

(** The first character tells the kind of a value. *)
Definition text_kind (v : jsval) (a : ascii) : Prop :=
  match v with
  | JArr _ => a = "["%char
  | JObj _ => a = "{"%char
  | JStr _ => a = dquote
  | JNum _ => num_char a = true
  | JBool true => a = "t"%char
  | JBool false => a = "f"%char
  | _ => a = "n"%char
  end.

Lemma canon_text_head v :
  normal v → ∃ a s, canon_text v = String a s ∧ text_kind v a.
Proof.
  intros Hv. destruct Hv as [|[]|z|s|l Hl|ps Hs Hn Hk]; simpl; eauto.
  apply pretty_Z_head.
Qed.

Lemma canon_opens v : normal v → opens canon_text v.
Proof.
  intros Hv. destruct (canon_text_head v Hv) as (a & s & E & Hk).
  exists a, s. split; [done|].
  destruct Hv as [|[]|z|t|l Hl|ps Hs Hn Hkk]; simpl in Hk; subst; try done.
  by apply num_char_not_closer.
Qed.

Lemma text_kind_clash v w a :
  text_kind v a → text_kind w a → normal v → normal w →
  match v, w with
  | JNull, JNull | JNum _, JNum _ | JStr _, JStr _ | JArr _, JArr _ | JObj _, JObj _ => True
  | JBool b, JBool c => b = c
  | _, _ => False
  end.
Proof.
  intros Ha Hb Hv Hw.
  destruct Hv as [|[]| | | | ], Hw as [|[]| | | | ]; simpl in *; subst; done.
Qed.

Lemma member_opens kv : opens member_text kv.
Proof. eexists dquote, _. by split. Qed.

Lemma member_readable kv :
  readable canon_text normal kv.2 →
  readable member_text (λ kv, normal kv.2) kv.
Proof.
  intros Hr [k y] r1 r2 Hy D1 D2 E. destruct kv as [k' x]. unfold member_text in E.
  simpl in *. rewrite !str_app_assoc in E. apply json_quote_inj in E as [-> E].
  simpl in E. injection E as E. apply Hr in E as [-> ->]; done.
Qed.

Lemma canon_readable v : normal v → readable canon_text normal v.
Proof.
  induction v as [| |b|n|s|l IH|ps IH] using jsval_nested_ind;
    intros Hv w r1 r2 Hw D1 D2 E;
    pose proof (canon_text_head _ Hv) as (a & t & Ea & Ka);
    pose proof (canon_text_head _ Hw) as (a' & t' & Ea' & Ka');
    (assert (a = a') as <- by (rewrite Ea, Ea' in E; simpl in E; congruence));
    pose proof (text_kind_clash _ _ _ Ka Ka' Hv Hw) as Hc; clear Ka Ka' Ea Ea';
    destruct Hw as [|c|z|u|m Hm|qs Hs Hn Hk]; try done; inversion Hv; subst.
  - simpl in E. simplify_eq. done.
  - destruct c; simpl in E; simplify_eq; done.
  - simpl in E. apply span_unique in E as [E ->]; [|apply pretty_Z_all..|done|done].
    by apply (inj pretty) in E as ->.
  - apply json_quote_inj in E as [-> ->]. done.
  - rewrite !canon_text_arr, !str_app_assoc in E. simpl in E. injection E as E.
    apply (list_text_inj canon_text normal) in E as [-> ->]; try done.
    + rewrite Forall_forall in IH, H0 |- *. eauto.
    + eapply Forall_impl; [exact H0|]. apply canon_opens.
    + eapply Forall_impl; [exact Hm|]. apply canon_opens.
  - rewrite (canon_text_obj_normal ps), (canon_text_obj_normal qs) in E by (done || by constructor).
    rewrite !str_app_assoc in E. simpl in E. injection E as E.
    apply (list_text_inj member_text (λ kv, normal kv.2)) in E as [-> ->]; try done.
    + rewrite Forall_forall in IH, H1 |- *. intros kv Hkv. apply member_readable. eauto.
    + apply Forall_true. intros. apply member_opens.
    + apply Forall_true. intros. apply member_opens.
Qed.

Lemma canon_text_inj v w :
  normal v → normal w → canon_text v = canon_text w → v = w.
Proof.
  intros Hv Hw E. eapply (canon_readable v Hv w EmptyString EmptyString); try done.
  by rewrite E.
Qed.

Lemma canonicalize_eq v w : canonicalize v = canonicalize w ↔ normalize v = normalize w.
Proof.
  unfold canonicalize. split; [|by intros ->].
  apply canon_text_inj; apply normalize_normal.
Qed.

(** ** Reading a property of a normalized object *)
Lemma assoc_insert k kv ps : assoc k (insert_by prop_leb kv ps) = assoc k (kv :: ps).
Proof.
  destruct kv as [j v]. induction ps as [|[i w] ps IH]; simpl; [done|].
  change (prop_leb (j, v) (i, w)) with (str_leb j i).
  destruct (str_leb j i) eqn:E; [done|]. simpl. rewrite IH; simpl.
  destruct (String.eqb k i) eqn:Ei, (String.eqb k j) eqn:Ej; try done.
  boolify. subst. by rewrite str_leb_refl in E.
Qed.

Lemma assoc_sort k ps : assoc k (sort_by prop_leb ps) = assoc k ps.
Proof.
  induction ps as [|[j v] ps IH]; simpl; [done|]. rewrite assoc_insert; simpl.
  by rewrite IH.
Qed.

Lemma assoc_norm_props k ps :
  k ≠ proto_key → assoc k (norm_props ps) = option_map normalize (assoc k ps).
Proof.
  intros Hk. unfold norm_props. induction ps as [|[j v] ps IH]; simpl; [done|].
  unfold kept at 1; simpl. destruct (String.eqb j proto_key) eqn:Ej; simpl.
  - apply String.eqb_eq in Ej as ->. apply String.eqb_neq in Hk as ->. done.
  - destruct (String.eqb k j); [done|apply IH].
Qed.

Lemma normalize_get v w k :
  k ≠ proto_key → normalize v = normalize w → normalize (get v k) = normalize (get w k).
Proof.
  intros Hk E. destruct v as [| |b|[]|s|l|ps], w as [| |b'|[]|s'|l'|qs]; try done;
    rewrite ?normalize_arr, ?normalize_obj in E; try done.
  injection E as E%(f_equal (assoc k)).
  rewrite !assoc_sort, !assoc_norm_props in E by done. simpl.
  destruct (assoc k ps), (assoc k qs); simpl in *; congruence.
Qed.

(** Strings, booleans and integers are their own normal form, and so is a list
    of strings. *)
Lemma normalize_str_inj s v : normalize v = JStr s → v = JStr s.
Proof. destruct v as [| | |[]| | |]; try done. Qed.

Lemma normalize_strings l m :
  forallb is_string l = true → map normalize l = map normalize m → l = m.
Proof.
  revert m. induction l as [|x l IH]; intros [|y m]; simpl; try done.
  intros [Hx Hl]%andb_true_iff [= Ey El]. destruct x; try done.
  simpl in Ey. apply symmetry, normalize_str_inj in Ey as ->. f_equal. by apply IH.
Qed.

Lemma normalize_strings_inj l m :
  forallb is_string l = true → normalize (JArr l) = normalize (JArr m) → l = m.
Proof. rewrite !normalize_arr. intros Hl [= E]. by apply normalize_strings. Qed.

Definition finite_num (n : jsnum) : bool := match n with NInt _ => true | _ => false end.

Lemma normalize_num_inj n m :
  finite_num n = true → normalize (JNum n) = normalize (JNum m) → n = m.
Proof. destruct n, m; simpl; congruence. Qed.

(** Values determined by their normal form. *)
Definition rigid (v : jsval) : bool :=
  match v with
  | JStr _ | JBool _ => true
  | JNum n => finite_num n
  | JArr l => forallb is_string l
  | _ => false
  end.

Lemma rigid_inj v w : rigid v = true → normalize v = normalize w → w = v.
Proof.
  destruct v as [| |b|n|s|l|ps]; simpl; try done; intros Hr E.
  - by destruct w as [| | |[]| | |].
  - destruct n; try done. destruct w as [| | |[]| | |]; simpl in E; congruence.
  - symmetry in E. by apply normalize_str_inj in E.
  - destruct w as [| | |[]| |m|]; try done. by apply normalize_strings_inj in E as ->.
Qed.

Lemma rigid_get v w k :
  k ≠ proto_key → rigid (get v k) = true → normalize v = normalize w → get w k = get v k.
Proof. intros Hk Hr E. apply rigid_inj; [done|]. by apply normalize_get. Qed.

(** ** Objects with determined properties *)

(** The properties a section must carry, and [v] carries them. *)
Definition props (v : jsval) : list (string * jsval) :=
  match v with JObj ps => ps | _ => [] end.

Definition carries (v w : jsval) : Prop :=
  is_record v = true ∧ Forall (λ kv, get v kv.1 = kv.2) (props w).

Lemma carries_rigid ps w :
  NoDup ps.*1 → Forall (λ kv, kv.1 ≠ proto_key ∧ rigid kv.2 = true) ps →
  normalize (JObj ps) = normalize w → carries w (JObj ps).
Proof.
  intros Hnd Hps E. split.
  - destruct w as [| | |[]| | |]; try done; rewrite normalize_obj in E;
      rewrite ?normalize_arr in E; done.
  - simpl. apply Forall_forall. intros [k v] Hkv; simpl.
    rewrite Forall_forall in Hps. specialize (Hps _ Hkv) as [Hk Hv]; simpl in *.
    apply assoc_elem in Hkv; [|done].
    rewrite (rigid_get (JObj ps) w k); simpl; by rewrite ?Hkv.
Qed.

Lemma strings_rigid l : rigid (JArr (map JStr l)) = true.
Proof. simpl. by induction l. Qed.

(** * What canonical text identifies

    [same] is the least congruence on values that reorders the properties of
    an object, writes [undefined] and non-finite numbers as [null], and drops
    a property named ["__proto__"]. *)
Inductive same : jsval → jsval → Prop :=
  | same_refl v : same v v
  | same_sym v w : same v w → same w v
  | same_trans u v w : same u v → same v w → same u w
  | same_undef : same JUndef JNull
  | same_non_finite n : (∀ z, n ≠ NInt z) → same (JNum n) JNull
  | same_perm ps qs : NoDup ps.*1 → ps ≡ₚ qs → same (JObj ps) (JObj qs)
  | same_proto l v r : same (JObj (l ++ (proto_key, v) :: r)) (JObj (l ++ r))
  | same_item l v w r : same v w → same (JArr (l ++ v :: r)) (JArr (l ++ w :: r))
  | same_prop l k v w r :
      same v w → same (JObj (l ++ (k, v) :: r)) (JObj (l ++ (k, w) :: r)).

#[export] Instance same_equiv : Equivalence same.
Proof. split; [exact same_refl|exact same_sym|exact same_trans]. Qed.

(** Objects have one property per key. *)
Inductive wf : jsval → Prop :=
  | wf_undef : wf JUndef
  | wf_null : wf JNull
  | wf_bool b : wf (JBool b)
  | wf_num n : wf (JNum n)
  | wf_str s : wf (JStr s)
  | wf_arr l : Forall wf l → wf (JArr l)
  | wf_obj ps : NoDup ps.*1 → Forall (λ kv, wf kv.2) ps → wf (JObj ps).

Lemma norm_props_app ps qs : norm_props (ps ++ qs) = norm_props ps ++ norm_props qs.
Proof. unfold norm_props. by rewrite List.filter_app, map_app. Qed.

Lemma norm_props_keys ps : (norm_props ps).*1 = (List.filter kept ps).*1.
Proof. unfold norm_props. induction (List.filter kept ps) as [|kv l IH]; csimpl; by rewrite ?IH. Qed.

Lemma filter_keys_sublist (f : string * jsval → bool) ps : (List.filter f ps).*1 `sublist_of` ps.*1.
Proof.
  induction ps as [|kv ps IH]; csimpl; [constructor|].
  destruct (f kv); csimpl; by constructor.
Qed.

Lemma NoDup_norm_props ps : NoDup ps.*1 → NoDup (norm_props ps).*1.
Proof. rewrite norm_props_keys. intros H. eapply sublist_NoDup; [exact H|apply filter_keys_sublist]. Qed.

#[export] Instance norm_props_perm : Proper ((≡ₚ) ==> (≡ₚ)) norm_props.
Proof.
  intros ps qs H. unfold norm_props. apply Permutation_map.
  induction H; simpl; repeat case_match; eauto using Permutation.
Qed.

(** Sorting by distinct keys forgets the order. *)
Lemma sort_props_perm ps qs :
  NoDup ps.*1 → ps ≡ₚ qs → sort_by prop_leb ps = sort_by prop_leb qs.
Proof.
  intros Hnd Hp. apply (sorted_perm_unique prop_leb).
  - intros [k x] [k' y]. rewrite !elem_of_sort_by. unfold prop_leb; simpl.
    intros Hx Hy H1 H2. pose proof (str_leb_antisymm _ _ H1 H2) as <-. f_equal.
    rewrite NoDup_alt in Hnd. apply list_elem_of_lookup in Hx as [i Hi]; apply list_elem_of_lookup in Hy as [j Hj].
    assert (i = j) as <- by (eapply Hnd; rewrite list_lookup_fmap, ?Hi, ?Hj; done).
    congruence.
  - apply sort_by_sorted; [apply prop_leb_total|apply prop_leb_trans].
  - apply sort_by_sorted; [apply prop_leb_total|apply prop_leb_trans].
  - by rewrite !sort_by_perm.
Qed.

Lemma normalize_same v w : same v w → normalize v = normalize w.
Proof.
  induction 1 as [| |???? E1 ? E2| |n Hn|ps qs Hnd Hp|l v r|l v w r _ IH|l k v w r _ IH].
  - done.
  - done.
  - by rewrite E1.
  - done.
  - destruct n; naive_solver.
  - rewrite !normalize_obj. f_equal.
    apply sort_props_perm; [by apply NoDup_norm_props|by rewrite Hp].
  - rewrite !normalize_obj. do 2 f_equal. by rewrite !norm_props_app.
  - rewrite !normalize_arr, !map_app. simpl. by rewrite IH.
  - rewrite !normalize_obj, !norm_props_app. do 3 f_equal.
    unfold norm_props; simpl. unfold kept; simpl.
    destruct (negb (String.eqb k proto_key)); simpl; by rewrite ?IH.
Qed.

Lemma same_items l l' pre :
  Forall2 same l l' → same (JArr (pre ++ l)) (JArr (pre ++ l')).
Proof.
  intros Hl. revert pre. induction Hl as [|v w l l' Hvw Hl IH]; intros pre; [done|].
  rewrite (same_item pre v w l Hvw).
  specialize (IH (pre ++ [w])). by rewrite <- !app_assoc in IH.
Qed.

Lemma same_props ps pre :
  Forall (λ kv, same kv.2 (normalize kv.2)) ps →
  same (JObj (pre ++ ps)) (JObj (pre ++ norm_props ps)).
Proof.
  intros Hps. revert pre. induction Hps as [|[k v] ps Hv _ IH]; intros pre; [done|].
  simpl in Hv. unfold norm_props; simpl. unfold kept at 1; simpl.
  destruct (String.eqb k proto_key) eqn:E; simpl.
  - apply String.eqb_eq in E as ->. rewrite same_proto. apply IH.
  - rewrite (same_prop pre k v _ ps Hv).
    specialize (IH (pre ++ [(k, normalize v)])). by rewrite <- !app_assoc in IH.
Qed.

Lemma same_normalize v : wf v → same v (normalize v).
Proof.
  induction v as [| |b|n|s|l IH|ps IH] using jsval_nested_ind; intros Hv;
    try by constructor.
  - destruct n; by constructor.
  - rewrite normalize_arr. apply (same_items _ _ []).
    inversion Hv; subst. apply Forall2_fmap_r, Forall_Forall2_diag.
    rewrite Forall_forall in IH, H0 |- *. eauto.
  - inversion Hv as [| | | | | |ps' Hnd Hps]; subst. rewrite normalize_obj.
    rewrite (same_props ps []).
    + apply same_perm; [by apply NoDup_norm_props|]. by rewrite sort_by_perm.
    + rewrite Forall_forall in IH, Hps |- *. eauto.
Qed.

(** C36. Canonical text decides equality of values up to the order of
    properties (at every depth), [undefined] and non-finite numbers read as
    [null], and properties named ["__proto__"]: it identifies exactly those
    and nothing else. *)
Theorem canonicalize_same v w :
  wf v → wf w → canonicalize v = canonicalize w ↔ same v w.
Proof.
  intros Hv Hw. rewrite canonicalize_eq. split; [|apply normalize_same].
  intros E. rewrite (same_normalize v Hv), E. symmetry. by apply same_normalize.
Qed.

Lemma canonicalize_same_witness :
  let v := JObj [("b", JArr [JUndef; JStr "x"]); ("a", jint 1)] in
  let w := JObj [("a", jint 1); ("b", JArr [JNull; JStr "x"])] in
  canonicalize v = canonicalize w ∧ same v w.
Proof.
  intros v w. split; [vm_compute; reflexivity|].
  refine (proj1 (canonicalize_same v w _ _) _).
  - repeat constructor; set_solver.
  - repeat constructor; set_solver.
  - vm_compute. reflexivity.
Defined.

(** The digest respects [same]. *)
#[global] Arguments normalize : simpl never.

#[export] Instance hashCanonical_proper : Proper (same ==> eq) hashCanonical.
Proof. intros v w H. unfold hashCanonical, canonicalize. by rewrite (normalize_same v w H). Qed.

#[export] Instance sha256_id_proper : Proper (same ==> eq) sha256_id.
Proof. intros v w H. unfold sha256_id. by rewrite H. Qed.

(** Two different texts of the list [l] have one digest. That some two texts
    do is a fact of counting, so no statement is relaxed by it: every statement
    names the texts, the ones the code hashes. *)
Definition collision_in (l : list string) : Prop :=
  ∃ s t, s ∈ l ∧ t ∈ l ∧ s ≠ t ∧ sha256Hex s = sha256Hex t.

Lemma collision_in_mono l l' : collision_in l → l ⊆ l' → collision_in l'.
Proof. intros (s & t & Hs & Ht & ? & ?) Hl. exists s, t. auto. Qed.

(** A list of one text has none, whatever the digest. *)
Lemma collision_in_single s : ¬ collision_in [s; s].
Proof. intros (a & b & Ha & Hb & Hn & _). set_solver. Qed.

(** Equal digests of values that are not [same] are a collision of their
    canonical texts. *)
Lemma hash_binding v w :
  hashCanonical v = hashCanonical w →
  normalize v = normalize w ∨ collision_in [canonicalize v; canonicalize w].
Proof.
  unfold hashCanonical. intros E.
  destruct (decide (canonicalize v = canonicalize w)) as [H|H].
  - left. by apply canonicalize_eq.
  - right. exists (canonicalize v), (canonicalize w). set_solver.
Qed.

Lemma sha256_id_binding v w :
  sha256_id v = sha256_id w →
  normalize v = normalize w ∨ collision_in [canonicalize v; canonicalize w].
Proof. intros E%str_app_inj. by apply hash_binding. Qed.

(** A collision among some texts is one among more; the texts stay opaque. *)
Ltac collide :=
  match goal with
  | H : collision_in _ |- collision_in _ =>
      apply (collision_in_mono _ _ H); intros ?;
      repeat first [rewrite elem_of_app | rewrite elem_of_cons | rewrite elem_of_nil];
      repeat match goal with
        | |- context [?x = ?y] => generalize (x = y); intros ?
        | |- context [?x ∈ ?y] => generalize (x ∈ y); intros ?
        end;
      intuition idtac
  end.

(** An own property named ["__proto__"] never reaches the digest: whatever
    its value, the object hashes as if it had no such property. *)
Theorem hash_ignores_proto l v r :
  hashCanonical (JObj (l ++ (proto_key, v) :: r)) = hashCanonical (JObj (l ++ r)).
Proof. by rewrite same_proto. Qed.

Lemma hashCanonical_length v : js_length (hashCanonical v) = 64%nat.
Proof.
  unfold hashCanonical. destruct (sha256Hex_shape (canonicalize v)) as [Hl Hh].
  rewrite <- Hl. apply (js_length_ascii is_hex); [|done].
  unfold is_hex. intros a. rewrite orb_true_iff, !andb_true_iff, !N.leb_le. lia.
Qed.

Lemma sha256_id_non_blank v : non_blank (sha256_id v) = true.
Proof. apply visible_non_blank. reflexivity. Qed.

Lemma sha256_id_non_empty v : is_empty_str (sha256_id v) = false.
Proof. reflexivity. Qed.

#[export] Hint Resolve sha256_id_non_blank sha256_id_non_empty : js.
#[export] Hint Rewrite sha256_id_non_blank sha256_id_non_empty hashCanonical_length : js.

#[global] Opaque sha256_id hashCanonical.
