(* ===== verification/Effects.v ===== *)
(** Asynchronous programs.

    An [async] function is a tree of awaited operations: each [await] performs
    one operation on the shared store and resumes with its answer. Between two
    awaits the function runs alone; at an await other requests may run. The
    same tree is read in two ways: [run] performs its operations one after the
    other, and a [pool] interleaves several trees, one operation at a time. *)
From Stdlib Require Import Lia.
From stdpp Require Import base list.
From S2P Require Import Prelude.

Section Prog.
Context {E : Type → Type}.

Inductive prog (A : Type) : Type :=
  | Ret (a : A)
  | Await {X : Type} (e : E X) (k : X → prog A).

Global Arguments Ret {A} a.
Global Arguments Await {A X} e k.

Fixpoint bind {A B} (m : prog A) (f : A → prog B) : prog B :=
  match m with
  | Ret a => f a
  | Await e k => Await e (λ x, bind (k x) f)
  end.

Definition await {X} (e : E X) : prog X := Await e Ret.

Context {S : Type} (handle : ∀ X, E X → S → S * X).

(** Uninterrupted execution. *)
Fixpoint run {A} (m : prog A) (s : S) : S * A :=
  match m with
  | Ret a => (s, a)
  | Await e k => run (k (handle _ e s).2) (handle _ e s).1
  end.

Lemma run_bind {A B} (m : prog A) (f : A → prog B) s :
  run (bind m f) s = run (f (run m s).2) (run m s).1.
Proof. revert s. induction m as [a|X e k IH]; intros s; simpl; [done|apply IH]. Qed.

Lemma run_await {X} (e : E X) s : run (await e) s = handle _ e s.
Proof. unfold await; simpl. by destruct (handle X e s). Qed.

(** Every operation of the tree satisfies [P], whatever the answers. *)
Fixpoint every (P : ∀ X, E X → Prop) {A} (m : prog A) : Prop :=
  match m with
  | Ret _ => True
  | Await e k => P _ e ∧ ∀ x, every P (k x)
  end.

Lemma every_bind (P : ∀ X, E X → Prop) {A B} (m : prog A) (f : A → prog B) :
  every P m → (∀ a, every P (f a)) → every P (bind m f).
Proof. induction m as [a|X e k IH]; simpl; naive_solver. Qed.

(** An invariant of the store kept by each operation is kept by a run. *)
Lemma run_invariant (P : ∀ X, E X → Prop) (I : S → Prop) {A} (m : prog A) s :
  (∀ X (e : E X) s, P X e → I s → I (handle X e s).1) →
  every P m → I s → I (run m s).1.
Proof.
  intros Hstep. revert s. induction m as [a|X e k IH]; intros s; simpl; [done|].
  intros [He Hk] Hs. apply IH; [done|]. by apply Hstep.
Qed.

(** ** Interleaving *)
Definition pool (A : Type) : Type := S * list (prog A).

(** One step: some request performs its next operation. *)
Inductive pool_step {A} : pool A → pool A → Prop :=
  | pool_step_at s ts i X (e : E X) k :
      ts !! i = Some (Await e k) →
      pool_step (s, ts) ((handle X e s).1, <[i := k (handle X e s).2]> ts).

Inductive pool_steps {A} : pool A → pool A → Prop :=
  | pool_refl p : pool_steps p p
  | pool_next p q r : pool_step p q → pool_steps q r → pool_steps p r.

(** Performing the operations of a schedule; an index whose request is
    finished is skipped. *)
Fixpoint schedule {A} (order : list nat) (p : pool A) : pool A :=
  match order with
  | [] => p
  | i :: order' =>
      schedule order'
        match p.2 !! i with
        | Some (Await e k) =>
            ((handle _ e p.1).1, <[i := k (handle _ e p.1).2]> p.2)
        | _ => p
        end
  end.

Lemma schedule_steps {A} order (p : pool A) : pool_steps p (schedule order p).
Proof.
  revert p. induction order as [|i order IH]; intros [s ts]; simpl; [constructor|].
  destruct (ts !! i) as [[a|X e k]|] eqn:Ei; [apply IH| |apply IH].
  eapply pool_next; [by econstructor|]. apply IH.
Qed.

(** An invariant kept by each operation is kept by every interleaving. *)
Lemma pool_invariant (P : ∀ X, E X → Prop) (I : S → Prop) {A} (p q : pool A) :
  (∀ X (e : E X) s, P X e → I s → I (handle X e s).1) →
  pool_steps p q → I p.1 → Forall (every P) p.2 → I q.1 ∧ Forall (every P) q.2.
Proof.
  intros Hstep. induction 1 as [|p q r Hpq _ IH]; [done|]. intros Hs Hts.
  destruct Hpq as [s ts i X e k Hi]; simpl in *.
  pose proof (Forall_lookup_1 _ _ _ _ Hts Hi) as [He Hk].
  apply IH; [by apply Hstep|]. apply Forall_insert; [done|apply Hk].
Qed.
End Prog.

Arguments prog : clear implicits.

Declare Scope prog_scope.
Delimit Scope prog_scope with prog.
Notation "'let*' x := m 'in' f" := (bind m (λ x, f))
  (at level 10, x name, m at level 100, f at level 200) : prog_scope.

(** * Reasoning about interleaved requests

    [grows] is how the store may change, whoever changes it; [I] is its
    invariant. A program is [ok] at a store when, wherever the other requests
    have brought the store meanwhile, its next operation keeps the invariant,
    changes the store only as [grows] allows, and leaves an [ok] program. *)
Section Interleaving.
Context {E : Type → Type} {S : Type} (handle : ∀ X, E X → S → S * X).
Context (I : S → Prop) (grows : S → S → Prop) `{!PreOrder grows}.

Fixpoint ok {A} (Q : A → S → Prop) (m : prog E A) (s : S) : Prop :=
  match m with
  | Ret a => ∀ s2, grows s s2 → I s2 → Q a s2
  | Await e k =>
      ∀ s2, grows s s2 → I s2 →
        I (handle _ e s2).1 ∧ grows s2 (handle _ e s2).1
        ∧ ok Q (k (handle _ e s2).2) (handle _ e s2).1
  end.

Lemma ok_grows {A} (Q : A → S → Prop) m s s' : grows s s' → ok Q m s → ok Q m s'.
Proof.
  intros Hs. destruct m as [a|X e k]; simpl; intros H s2 Hs2; apply H; by etrans.
Qed.

Lemma ok_bind {A B} (Q : A → S → Prop) (R : B → S → Prop) (m : prog E A) f s :
  ok Q m s → (∀ a s', grows s s' → I s' → Q a s' → ok R (f a) s') → I s → ok R (bind m f) s.
Proof.
  revert s. induction m as [a|X e k IH]; intros s; simpl.
  - intros Hq Hf Hi. apply Hf; [done|done|]. by apply Hq.
  - intros Hm Hf Hi s2 Hs2 Hi2. destruct (Hm s2 Hs2 Hi2) as (Hi' & Hg & Hk).
    split; [done|]. split; [done|]. apply IH; [done| |done].
    intros a s' Hs' Hi2' Hq. apply Hf; [|done|done]. by do 2 (etrans; [done|]).
Qed.

Lemma ok_weaken {A} (Q R : A → S → Prop) m s :
  (∀ a s', Q a s' → R a s') → ok Q m s → ok R m s.
Proof.
  intros HQR. revert s. induction m as [a|X e k IH]; intros s; simpl; [eauto|].
  intros H s2 Hs2 Hi. destruct (H s2 Hs2 Hi) as (? & ? & ?). eauto.
Qed.

(** One operation whose effect is known. *)
Lemma ok_await {A} (Q : A → S → Prop) X (e : E X) k s :
  (∀ s2, grows s s2 → I s2 →
    I (handle _ e s2).1 ∧ grows s2 (handle _ e s2).1
    ∧ ok Q (k (handle _ e s2).2) (handle _ e s2).1) →
  ok Q (Await e k) s.
Proof. done. Qed.

(** Every interleaving of [ok] requests keeps the invariant and leaves [ok]
    requests. *)
Lemma pool_steps_ok {A} (Q : nat → A → S → Prop) (p q : S * list (prog E A)) :
  pool_steps handle p q → I p.1 → (∀ i m, p.2 !! i = Some m → ok (Q i) m p.1) →
  I q.1 ∧ grows p.1 q.1 ∧ ∀ i m, q.2 !! i = Some m → ok (Q i) m q.1.
Proof.
  induction 1 as [p|p q r Hpq _ IH]; [done|].
  intros Hi Hall. destruct Hpq as [s ts i X e k Hk]; simpl in *.
  destruct (Hall i _ Hk s (reflexivity s) Hi) as (Hi' & Hg & Hok).
  destruct IH as (? & ? & ?); [done| |split; [done|split; [by etrans|done]]].
  intros j m Hj. destruct (decide (i = j)) as [<-|Hne].
  + rewrite list_lookup_insert_eq in Hj by (by eapply lookup_lt_Some). by injection Hj as <-.
  + rewrite list_lookup_insert_ne in Hj by done. eapply ok_grows; eauto.
Qed.

(** A request that has answered has established its own postcondition. *)
Lemma pool_ok {A} (Q : nat → A → S → Prop) (p q : S * list (prog E A)) :
  pool_steps handle p q → I p.1 → (∀ i m, p.2 !! i = Some m → ok (Q i) m p.1) →
  I q.1 ∧ grows p.1 q.1 ∧ ∀ i a, q.2 !! i = Some (Ret a) → Q i a q.1.
Proof.
  intros Hpq Hi Hall. destruct (pool_steps_ok Q p q Hpq Hi Hall) as (Hi' & Hg & Hok).
  split; [done|]. split; [done|]. intros i a Ha. by apply (Hok i _ Ha).
Qed.

(** An uninterrupted [ok] request. *)
Lemma run_ok {A} (Q : A → S → Prop) (m : prog E A) s :
  I s → ok Q m s → I (run handle m s).1 ∧ grows s (run handle m s).1
    ∧ Q (run handle m s).2 (run handle m s).1.
Proof.
  revert s. induction m as [a|X e k IH]; intros s Hi; simpl.
  - intros H. split; [done|]. split; [done|]. by apply H.
  - intros H. destruct (H s (reflexivity s) Hi) as (Hi' & Hg & Hok).
    destruct (IH _ _ Hi' Hok) as (? & ? & ?). split; [done|]. split; [by etrans|done].
Qed.
(** Every operation of the tree satisfies [P] and every answer it may give
    satisfies [Q], whatever the operations return. *)
Fixpoint tree (P : ∀ X, E X → Prop) {A} (Q : A → Prop) (m : prog E A) : Prop :=
  match m with
  | Ret a => Q a
  | Await e k => P _ e ∧ ∀ x, tree P Q (k x)
  end.

Lemma tree_bind (P : ∀ X, E X → Prop) {A B} (Q : A → Prop) (R : B → Prop) (m : prog E A) f :
  tree P Q m → (∀ a, Q a → tree P R (f a)) → tree P R (bind m f).
Proof. induction m as [a|X e k IH]; simpl; [eauto|]. intros [He Hk] Hf. split; eauto. Qed.

Lemma tree_weaken (P : ∀ X, E X → Prop) {A} (Q R : A → Prop) (m : prog E A) :
  (∀ a, Q a → R a) → tree P Q m → tree P R m.
Proof. intros HQR. induction m as [a|X e k IH]; simpl; [eauto|]. intros [He Hk]. split; eauto. Qed.

Lemma run_tree (P : ∀ X, E X → Prop) {A} (Q : A → Prop) (m : prog E A) s :
  tree P Q m → Q (run handle m s).2.
Proof. revert s. induction m as [a|X e k IH]; intros s; simpl; [done|]. intros [_ Hk]. eauto. Qed.

Lemma ok_tree (P : ∀ X, E X → Prop) {A} (Q : A → Prop) (m : prog E A) s :
  (∀ X (e : E X) s, P X e → I s → I (handle X e s).1 ∧ grows s (handle X e s).1) →
  tree P Q m → ok (λ a _, Q a) m s.
Proof.
  intros Hstep. revert s. induction m as [a|X e k IH]; intros s; simpl; [done|].
  intros [He Hk] s2 Hs2 Hi. destruct (Hstep X e s2 He Hi). eauto.
Qed.

(** Computing on the answer. *)
Lemma ok_map {A B} (R : B → S → Prop) (m : prog E A) f (g : A → B) s :
  (∀ a, f a = Ret (g a)) → ok (λ a, R (g a)) m s → ok R (bind m f) s.
Proof.
  intros Hf. revert s. induction m as [a|X e k IH]; intros s; simpl; [by rewrite Hf|].
  intros Hm s2 Hs2 Hi2. destruct (Hm s2 Hs2 Hi2) as (? & ? & ?). eauto.
Qed.

(** Reads: operations that keep the store. *)
Lemma ok_read {A B} (P : ∀ X, E X → Prop) (Q : A → Prop) (R : B → S → Prop)
    (m : prog E A) f s :
  (∀ X (e : E X) s, P X e → I s → I (handle X e s).1 ∧ grows s (handle X e s).1) →
  tree P Q m → (∀ a s', grows s s' → I s' → Q a → ok R (f a) s') → I s → ok R (bind m f) s.
Proof. intros Hstep Hm Hf Hi. eapply ok_bind; [by eapply ok_tree|done|done]. Qed.
End Interleaving.

(** Reading the store: operations that leave [s] as it is. *)
Section Quiet.
Context {E : Type → Type} {S : Type} (handle : ∀ X, E X → S → S * X).

Inductive quiet (s : S) {A} : prog E A → prog E A → Prop :=
  | quiet_refl m : quiet s m m
  | quiet_step X (e : E X) k m :
      (handle X e s).1 = s → quiet s (k (handle X e s).2) m → quiet s (Await e k) m.

Lemma quiet_bind {A B} (m m' : prog E A) (f : A → prog E B) s :
  quiet s m m' → quiet s (bind m f) (bind m' f).
Proof. induction 1; simpl; [constructor|]. by apply quiet_step. Qed.

Lemma quiet_trans {A} s (m n o : prog E A) : quiet s m n → quiet s n o → quiet s m o.
Proof. induction 1; [done|]. intros. by apply quiet_step; auto. Qed.

(** A program that only reads comes to its answer. *)
Lemma quiet_read {A B} (P : ∀ X, E X → Prop) (Q : A → Prop) (m : prog E A)
    (f : A → prog E B) s :
  (∀ X (e : E X), P X e → (handle X e s).1 = s) → tree P Q m →
  quiet s (bind m f) (f (run handle m s).2).
Proof.
  intros Hread. induction m as [a|X e k IH]; simpl; [constructor|].
  intros [He Hk]. apply quiet_step; [by apply Hread|].
  rewrite (Hread X e He). by apply IH.
Qed.

Lemma run_quiet {A} s (m m' : prog E A) : quiet s m m' → run handle m s = run handle m' s.
Proof. induction 1 as [|X e k m He _ IH]; simpl; [done|]. by rewrite He. Qed.

Lemma run_read {A} (P : ∀ X, E X → Prop) (Q : A → Prop) (m : prog E A) s :
  (∀ X (e : E X), P X e → (handle X e s).1 = s) → tree P Q m → (run handle m s).1 = s.
Proof.
  intros Hread. induction m as [a|X e k IH]; simpl; [done|].
  intros [He Hk]. rewrite (Hread X e He). by apply IH.
Qed.

Lemma pool_steps_trans {A} (p q r : S * list (prog E A)) :
  pool_steps handle p q → pool_steps handle q r → pool_steps handle p r.
Proof. induction 1; [done|]. intros. eapply pool_next; eauto. Qed.

Lemma quiet_pool {A} s (ts : list (prog E A)) i m m' :
  ts !! i = Some m → quiet s m m' → pool_steps handle (s, ts) (s, <[i := m']> ts).
Proof.
  intros Hi Hq. revert ts Hi. induction Hq as [m|X e k m He _ IH]; intros ts Hi.
  - rewrite list_insert_id by done. constructor.
  - eapply pool_next; [by apply pool_step_at|]. rewrite He.
    eapply pool_steps_trans.
    + apply IH. rewrite list_lookup_insert_eq; [done|]. by eapply lookup_lt_Some.
    + rewrite list_insert_insert_eq. constructor.
Qed.

(** Running one request to its end, the others waiting. *)
Lemma run_pool {A} s (ts : list (prog E A)) i m :
  ts !! i = Some m →
  pool_steps handle (s, ts) ((run handle m s).1, <[i := Ret (run handle m s).2]> ts).
Proof.
  revert s ts. induction m as [a|X e k IH]; intros s ts Hi; simpl.
  - rewrite list_insert_id by done. constructor.
  - eapply pool_next; [by apply pool_step_at|].
    eapply pool_steps_trans.
    + apply IH. rewrite list_lookup_insert_eq; [done|]. by eapply lookup_lt_Some.
    + rewrite list_insert_insert_eq. constructor.
Qed.

End Quiet.
