(* ===== verification/ContinuityCore.v ===== *)
(** The continuity-core primitives: [src/continuity-core.js].

    Canonical AEO validation, the lineage graph, proof envelopes, the
    reconciliation classifier and the in-memory replay registry. *)
From Stdlib Require Import ZArith NArith Lia Ascii.
From stdpp Require Import base list strings pretty gmap sets.
From S2P Require Import Prelude JsValue Sha256 Canonical.

(** * AEO validation *)

Definition REQUIRED_AEO_FIELDS : list string :=
  ["finality"; "intent"; "scope"; "target"; "validation"].

(** [JSON.parse(JSON.stringify(v))]: an [undefined] property disappears, an
    [undefined] item and a non-finite number become [null]. *)
Fixpoint json_clone (v : jsval) : jsval :=
  match v with
  | JUndef => JNull
  | JNum (NInt z) => JNum (NInt z)
  | JNum _ => JNull
  | JArr l =>
      JArr ((fix go (l : list jsval) : list jsval :=
        match l with [] => [] | x :: l' => json_clone x :: go l' end) l)
  | JObj ps =>
      JObj ((fix go (ps : list (string * jsval)) : list (string * jsval) :=
        match ps with
        | [] => []
        | (k, x) :: ps' =>
            match x with JUndef => go ps' | _ => (k, json_clone x) :: go ps' end
        end) ps)
  | _ => v
  end.

(** [o[k] = v] on an object value. *)
Definition put (o : jsval) (k : string) (v : jsval) : jsval :=
  match o with JObj ps => JObj (assoc_set k v ps) | _ => o end.

Definition aeoObjectForHash (aeo : jsval) : jsval :=
  let clone := json_clone aeo in
  if is_record (get clone "validation") then
    put clone "validation" (put (get clone "validation") "object_hash" JNull)
  else clone.

Inductive validity := VALID | NULL.

#[export] Instance validity_eq_dec : EqDecision validity.
Proof. solve_decision. Defined.

Record CanonicalAEOContext := mkContext {
  expected_authority : string;
  maximum_scope : list string
}.

(** Lines 25-29. *)
Definition five_keys (aeo : jsval) : bool :=
  bool_decide (sorted_keys aeo = REQUIRED_AEO_FIELDS).

(** Lines 32-35. *)
Definition section_bound (aeo : jsval) (expected : string) (k : string) : bool :=
  is_record (get aeo k) && bool_decide (get (get aeo k) "authority_id" = JStr expected).

(** Lines 38-43. *)
Definition bounds_ok (bounds : jsval) (max_scope : list string) : bool :=
  match bounds with
  | JArr l =>
      negb (match l with [] => true | _ => false end)
      && negb (existsb (λ b, negb (is_non_blank b)) l)
      && forallb (λ b, str_in (str_or_empty b) max_scope) l
  | _ => false
  end.

Definition validateAeo (aeo : jsval) (context : CanonicalAEOContext) : validity :=
  if negb (is_record aeo) then NULL
  else if negb (five_keys aeo) then NULL
  else if negb (forallb (section_bound aeo (expected_authority context)) REQUIRED_AEO_FIELDS)
  then NULL
  else if negb (bounds_ok (get (get aeo "scope") "bounds") (maximum_scope context)) then NULL
  else
    match get (get aeo "validation") "object_hash" with
    | JStr storedHash =>
        if negb (Nat.eqb (js_length storedHash) 64) then NULL
        else if negb (String.eqb (hashCanonical (aeoObjectForHash aeo)) storedHash) then NULL
        else VALID
    | _ => NULL
    end.

(** * Lineage graph *)

(** [nodes]: identifier to the parents of the node. *)
Abbreviation lineage_graph := (gmap string (list string)).

Inductive lineage_state := LVALID | LAMBIGUOUS | LORPHAN | LNULL.

#[export] Instance lineage_state_eq_dec : EqDecision lineage_state.
Proof. solve_decision. Defined.

Record lineage_node := mkNode { node_id : string; parent_ids : list string }.

Definition lineage_insert (g : lineage_graph) (n : lineage_node) :
    lineage_graph * lineage_state :=
  match g !! node_id n with
  | Some _ => (g, LAMBIGUOUS)
  | None => (<[node_id n := parent_ids n]> g, LVALID)
  end.

Definition lineage_classify (g : lineage_graph) (id : string) : lineage_state :=
  match g !! id with
  | None => LNULL
  | Some parents =>
      if forallb (λ p, bool_decide (is_Some (g !! p))) parents then LVALID else LORPHAN
  end.

Definition classifyAsValidation (g : lineage_graph) (id : string) : lineage_state :=
  match lineage_classify g id with LORPHAN => LNULL | st => st end.

(** * Proof envelope *)

(** The evidence fields as values; [result] and [timestamp] are trimmed when
    truthy, which throws on a non-string. *)
Inductive envelope_outcome :=
  | EnvelopeThrows
  | EnvelopeNull
  | Envelope (fields : jsval).

Definition trims (v : jsval) : option bool :=
  match v with
  | JStr s => Some (non_blank s)
  | _ => if truthy v then None else Some false
  end.

Definition buildProofEnvelope (proofId : jsval) (evidence : jsval) : envelope_outcome :=
  if negb (truthy evidence) then EnvelopeNull
  else
    match trims (get evidence "result") with
    | None => EnvelopeThrows
    | Some false => EnvelopeNull
    | Some true =>
        match trims (get evidence "timestamp") with
        | None => EnvelopeThrows
        | Some false => EnvelopeNull
        | Some true =>
            if nullish (get evidence "evidence_object") then EnvelopeNull
            else Envelope (JObj
              [("proof_id", proofId); ("execution_id", get evidence "execution_id");
               ("decision_id", get evidence "decision_id"); ("aeo_hash", get evidence "aeo_hash");
               ("target_system", get evidence "target_system");
               ("target_action", get evidence "target_action");
               ("result", get evidence "result"); ("timestamp", get evidence "timestamp");
               ("evidence_hash", JStr (hashCanonical (get evidence "evidence_object")))])
        end
    end.

(** * Reconciliation *)
Record reconciliation_evidence := mkEvidence {
  expected_hash : option string;
  observed_hash : option string;
  lineage_complete : bool;
  proof_present : bool;
  observations_complete : bool;
  ambiguity_detected : bool
}.

Inductive reconciliation := RECONCILED | DIVERGENT | AMBIGUOUS | PARTIAL | RNULL.

#[export] Instance reconciliation_eq_dec : EqDecision reconciliation.
Proof. solve_decision. Defined.

Definition classifyReconciliation (evidence : option reconciliation_evidence) : reconciliation :=
  match evidence with
  | None => RNULL
  | Some ev =>
      match expected_hash ev, observed_hash ev with
      | Some e, Some o =>
          if ambiguity_detected ev then AMBIGUOUS
          else if negb (lineage_complete ev) || negb (proof_present ev)
                  || negb (observations_complete ev) then PARTIAL
          else if String.eqb e o then RECONCILED
          else DIVERGENT
      | _, _ => PARTIAL
      end
  end.

(** * Replay registry *)
Record replay_registry := mkReplay {
  usedNonces : gset string;
  usedObjectHashes : gset string
}.

Inductive replay_class := UNUSED | USED | RAMBIGUOUS | REPLAY_NULL.

#[export] Instance replay_class_eq_dec : EqDecision replay_class.
Proof. solve_decision. Defined.

Definition createReplayRegistry : replay_registry := mkReplay ∅ ∅.

Definition replay_classify (r : replay_registry) (nonce objectHash lineageBinding : string) :
    replay_class :=
  if is_empty_str nonce || is_empty_str objectHash || is_empty_str lineageBinding
  then REPLAY_NULL
  else
    let nonceUsed := bool_decide (nonce ∈ usedNonces r) in
    let hashUsed := bool_decide (objectHash ∈ usedObjectHashes r) in
    if negb nonceUsed && negb hashUsed then UNUSED
    else if nonceUsed && hashUsed then USED
    else RAMBIGUOUS.

Definition replay_admit (r : replay_registry) (nonce objectHash lineageBinding : string) :
    replay_registry * replay_class :=
  match replay_classify r nonce objectHash lineageBinding with
  | UNUSED =>
      (mkReplay ({[nonce]} ∪ usedNonces r) ({[objectHash]} ∪ usedObjectHashes r), UNUSED)
  | _ => (r, REPLAY_NULL)
  end.

(** * Theorems: AEO validation *)

Lemma json_clone_get a k :
  get a k ≠ JUndef → get (json_clone a) k = json_clone (get a k).
Proof.
  destruct a as [| |b|[]|s|l|ps]; try done. simpl. intros Hk.
  induction ps as [|[j x] ps IH]; simpl in *; [done|].
  destruct (String.eqb k j) eqn:E; simpl in *.
  - destruct x; try done; simpl; by rewrite E.
  - destruct x; simpl; rewrite ?E; by apply IH.
Qed.

Lemma put_get_ne o k k' v : k ≠ k' → get (put o k' v) k = get o k.
Proof. intros Hk. destruct o as [| | |[]| | |ps]; try done. simpl. by rewrite assoc_set_ne. Qed.

Lemma aeoObjectForHash_get a k :
  k ≠ "validation" → is_record (get a k) = true →
  get (aeoObjectForHash a) k = json_clone (get a k).
Proof.
  intros Hk Hr. unfold aeoObjectForHash.
  destruct (is_record (get (json_clone a) "validation"));
    rewrite ?put_get_ne by done; apply json_clone_get; by destruct (get a k).
Qed.

Definition computed_hash (aeo : jsval) : string := hashCanonical (aeoObjectForHash aeo).

Lemma validateAeo_sound aeo context :
  validateAeo aeo context = VALID →
    is_record aeo = true ∧ sorted_keys aeo = REQUIRED_AEO_FIELDS
    ∧ (∀ k, k ∈ REQUIRED_AEO_FIELDS → is_record (get aeo k) = true
         ∧ get (get aeo k) "authority_id" = JStr (expected_authority context))
    ∧ bounds_ok (get (get aeo "scope") "bounds") (maximum_scope context) = true
    ∧ js_length (computed_hash aeo) = 64%nat
    ∧ get (get aeo "validation") "object_hash" = JStr (computed_hash aeo).
Proof.
  unfold validateAeo, five_keys, computed_hash. intros E.
  destruct (is_record aeo); [|done]. destruct (bool_decide _) eqn:Hk; [|done].
  destruct (forallb _ _) eqn:Hf; [|done]. destruct (bounds_ok _ _); [|done]. simpl in E.
  destruct (get (get aeo "validation") "object_hash") as [| | | |h| |]; try done.
  destruct (Nat.eqb (js_length h) 64) eqn:Hl; [|done].
  destruct (String.eqb _ h) eqn:Hs; [|done].
  apply bool_decide_eq_true in Hk. apply Nat.eqb_eq in Hl.
  apply String.eqb_eq in Hs as ->. repeat split; try done;
    rewrite forallb_elem in Hf; specialize (Hf k H); unfold section_bound in Hf; boolify; done.
Qed.

Lemma validateAeo_complete aeo context :
  is_record aeo = true → sorted_keys aeo = REQUIRED_AEO_FIELDS →
  (∀ k, k ∈ REQUIRED_AEO_FIELDS → is_record (get aeo k) = true
    ∧ get (get aeo k) "authority_id" = JStr (expected_authority context)) →
  bounds_ok (get (get aeo "scope") "bounds") (maximum_scope context) = true →
  js_length (computed_hash aeo) = 64%nat →
  get (get aeo "validation") "object_hash" = JStr (computed_hash aeo) →
  validateAeo aeo context = VALID.
Proof.
  unfold validateAeo, five_keys, computed_hash. intros -> -> Hsec -> Hl ->.
  assert (forallb (section_bound aeo (expected_authority context)) REQUIRED_AEO_FIELDS = true)
    as ->.
  { apply forallb_elem. intros k Hk. apply Hsec in Hk as [Hr Ha].
    unfold section_bound. rewrite Hr, Ha. simpl. by apply bool_decide_eq_true. }
  simpl. by rewrite Hl, String.eqb_refl.
Qed.

Lemma bounds_ok_spec v max_scope :
  bounds_ok v max_scope = true ↔ ∃ b bs, v = JArr (b :: bs)
    ∧ ∀ x, x ∈ b :: bs → ∃ s, x = JStr s ∧ non_blank s = true ∧ s ∈ max_scope.
Proof.
  unfold bounds_ok. destruct v as [| | | | |[|b bs]|];
    try (split; [done|by intros (? & ? & ? & ?)]).
  rewrite !andb_true_iff, (negb_true_iff (existsb _ _)), existsb_false, forallb_elem. split.
  - intros [[_ Hn] Hm]. exists b, bs. split; [done|]. intros x Hx.
    specialize (Hn x Hx). apply negb_false_iff, is_non_blank_inv in Hn as (s & -> & Hs).
    exists s. apply Hm, str_in_elem in Hx. done.
  - intros (b' & bs' & [= <- <-] & Hall).
    split; [split; [done|]|]; intros x (s & -> & Hs & Hm)%Hall; simpl;
      [by rewrite Hs|by apply str_in_elem].
Qed.

(** Canonical validation accepts exactly an object with the five required
    sections, each a record bound to the expected authority, whose bounds are a
    non-empty list of non-blank strings inside the maximum scope, and whose
    stored hash has 64 characters and is the digest of the object with that
    hash nulled. *)
Theorem validateAeo_spec aeo context :
  validateAeo aeo context = VALID ↔
    is_record aeo = true ∧ sorted_keys aeo = REQUIRED_AEO_FIELDS
    ∧ (∀ k, k ∈ REQUIRED_AEO_FIELDS → is_record (get aeo k) = true
         ∧ get (get aeo k) "authority_id" = JStr (expected_authority context))
    ∧ (∃ b bs, get (get aeo "scope") "bounds" = JArr (b :: bs)
         ∧ ∀ x, x ∈ b :: bs → ∃ s, x = JStr s ∧ non_blank s = true
             ∧ s ∈ maximum_scope context)
    ∧ js_length (computed_hash aeo) = 64%nat
    ∧ get (get aeo "validation") "object_hash" = JStr (computed_hash aeo).
Proof.
  rewrite <- bounds_ok_spec. split; [apply validateAeo_sound|].
  intros (? & ? & ? & ? & ? & ?). by apply validateAeo_complete.
Qed.

(** A concrete canonical AEO; its hash is computed from the object. *)
Definition fixture_canonical (value : string) : jsval :=
  let sect k v := JObj [("authority_id", JStr "auth-1"); (k, v)] in
  let aeo h := JObj
    [("finality", sect "proof_required" (JBool true)); ("intent", sect "value" (JStr value));
     ("scope", sect "bounds" (JArr [JStr "system:filesystem"]));
     ("target", sect "action" (JStr "modify"));
     ("validation", sect "object_hash" h)] in
  aeo (JStr (hashCanonical (aeo JNull))).

Definition fixture_context : CanonicalAEOContext := mkContext "auth-1" ["system:filesystem"].

(** The stored hash binds the sections: two canonical AEOs validated with
    the same [object_hash] carry the same finality, intent, scope and target
    (as serialised), or their two hashed texts are a collision of SHA-256. *)
Theorem validateAeo_binding a b ca cb :
  validateAeo a ca = VALID → validateAeo b cb = VALID →
  get (get a "validation") "object_hash" = get (get b "validation") "object_hash" →
  (∀ k, k ∈ ["finality"; "intent"; "scope"; "target"] →
     canonicalize (json_clone (get a k)) = canonicalize (json_clone (get b k)))
  ∨ collision_in [canonicalize (aeoObjectForHash a); canonicalize (aeoObjectForHash b)].
Proof.
  intros (_ & _ & Ha & _ & _ & Hha)%validateAeo_sound (_ & _ & Hb & _ & _ & Hhb)%validateAeo_sound E.
  rewrite Hha, Hhb in E. injection E as E. unfold computed_hash in E.
  destruct (hash_binding _ _ E) as [En|]; [left|by right].
  intros k Hk. apply canonicalize_eq.
  assert (k ∈ REQUIRED_AEO_FIELDS ∧ k ≠ "validation" ∧ k ≠ proto_key) as (Hr & Hv & Hp).
  { rewrite !elem_of_cons, elem_of_nil in Hk. unfold REQUIRED_AEO_FIELDS, proto_key.
    rewrite !elem_of_cons. naive_solver. }
  rewrite <- !aeoObjectForHash_get; [|done|by apply Hb|done|by apply Ha].
  by apply normalize_get.
Qed.

Lemma validateAeo_binding_witness :
  let a := fixture_canonical "write" in
  canonicalize (json_clone (get a "target")) = canonicalize (json_clone (get a "target"))
  ∨ collision_in [canonicalize (aeoObjectForHash a); canonicalize (aeoObjectForHash a)].
Proof.
  assert (validateAeo (fixture_canonical "write") fixture_context = VALID) as H.
  { apply validateAeo_complete;
      [reflexivity|reflexivity| |reflexivity|apply hashCanonical_length|reflexivity].
    intros k Hk. unfold REQUIRED_AEO_FIELDS in Hk.
    rewrite !elem_of_cons, elem_of_nil in Hk. destruct_or? Hk; subst; done. }
  destruct (validateAeo_binding _ _ _ _ H H eq_refl) as [Hk|Hc]; [left|by right].
  apply Hk. rewrite !elem_of_cons. tauto.
Defined.

(** * Theorems: lineage graph *)

Definition lineage_insert_all (ns : list lineage_node) (g : lineage_graph) : lineage_graph :=
  fold_left (λ g n, (lineage_insert g n).1) ns g.

Lemma lineage_insert_lookup g n id :
  (lineage_insert g n).1 !! id =
    match g !! id with
    | Some ps => Some ps
    | None => if decide (id = node_id n) then Some (parent_ids n) else None
    end.
Proof.
  unfold lineage_insert. destruct (g !! node_id n) eqn:E; simpl.
  - destruct (g !! id) eqn:E'; [done|]. case_decide; congruence.
  - destruct (decide (id = node_id n)) as [->|Hne].
    + by rewrite lookup_insert_eq, E.
    + rewrite lookup_insert_ne by done. by destruct (g !! id).
Qed.

Lemma lineage_insert_swap g n m :
  node_id n ≠ node_id m →
  (lineage_insert (lineage_insert g n).1 m).1 = (lineage_insert (lineage_insert g m).1 n).1.
Proof.
  intros Hne. apply map_eq. intros id. rewrite !lineage_insert_lookup.
  destruct (g !! id); [done|]. repeat case_decide; congruence.
Qed.

(** The graph does not depend on the order in which nodes with distinct
    identifiers arrive, and neither does any classification. *)
Theorem lineage_order_independent ns ms g :
  NoDup (node_id <$> ns) → ns ≡ₚ ms →
  lineage_insert_all ns g = lineage_insert_all ms g.
Proof.
  unfold lineage_insert_all. intros Hnd Hp. revert g Hnd.
  induction Hp as [|n ns ms _ IH|n m ns|ns ms os Hnm IH1 _ IH2]; intros g Hnd; csimpl in *.
  - done.
  - apply NoDup_cons in Hnd as [_ Hnd]. by apply IH.
  - apply NoDup_cons in Hnd as [Hn _]. rewrite lineage_insert_swap; [done|set_solver].
  - rewrite IH1, IH2; [done| |done]. by rewrite <- Hnm.
Qed.

Lemma lineage_order_independent_witness :
  let n := mkNode "a" [] in let m := mkNode "b" ["a"] in
  lineage_insert_all [n; m] ∅ = lineage_insert_all [m; n] ∅.
Proof.
  apply (lineage_order_independent [mkNode "a" []; mkNode "b" ["a"]]
    [mkNode "b" ["a"]; mkNode "a" []] ∅).
  - apply (bool_decide_unpack _). vm_compute. exact I.
  - apply perm_swap.
Defined.

(** A valid node stays valid, whatever is inserted later. *)
Lemma lineage_valid_stable g n id :
  lineage_classify g id = LVALID → lineage_classify (lineage_insert g n).1 id = LVALID.
Proof.
  unfold lineage_classify. rewrite lineage_insert_lookup.
  destruct (g !! id) as [ps|]; [|done].
  destruct (forallb _ ps) eqn:E; [|done]. intros _.
  enough (forallb (λ p, bool_decide (is_Some ((lineage_insert g n).1 !! p))) ps = true) as -> by done.
  rewrite forallb_elem in E |- *. intros p Hp. apply E in Hp.
  apply bool_decide_eq_true in Hp as [qs Hq]. apply bool_decide_eq_true.
  rewrite lineage_insert_lookup, Hq. eauto.
Qed.

(** * Theorems: reconciliation *)

(** RECONCILED is claimed exactly when the expected and the observed hash
    are both present and equal, the lineage, the proof and the observations
    are complete, and no ambiguity was detected. *)
Theorem classifyReconciliation_reconciled evidence :
  classifyReconciliation evidence = RECONCILED ↔
    ∃ ev h, evidence = Some ev ∧ expected_hash ev = Some h ∧ observed_hash ev = Some h
      ∧ lineage_complete ev = true ∧ proof_present ev = true
      ∧ observations_complete ev = true ∧ ambiguity_detected ev = false.
Proof.
  unfold classifyReconciliation. split.
  - intros E. destruct evidence as [[[e|] [o|] [] [] [] []]|]; simpl in *; try done.
    destruct (String.eqb e o) eqn:Eh; [|done]. apply String.eqb_eq in Eh as ->. naive_solver.
  - intros ([e o l p ob am] & h & -> & ? & ? & ? & ? & ? & ?). simpl in *. subst. simpl.
    by rewrite String.eqb_refl.
Qed.

(** * Theorems: replay registry *)

Record admission := mkAdmission {
  adm_nonce : string; adm_hash : string; adm_binding : string
}.

(** Admitting a sequence of requests: the registry after it and the requests
    that were answered [UNUSED]. *)
Fixpoint admit_all (r : replay_registry) (l : list admission) : replay_registry * list admission :=
  match l with
  | [] => (r, [])
  | a :: l' =>
      let '(r1, c) := replay_admit r (adm_nonce a) (adm_hash a) (adm_binding a) in
      let '(r2, ok) := admit_all r1 l' in
      (r2, if decide (c = UNUSED) then a :: ok else ok)
  end.

Lemma replay_admit_spec r n h b :
  replay_admit r n h b =
    (if decide (n ≠ EmptyString ∧ h ≠ EmptyString ∧ b ≠ EmptyString
      ∧ (n ∉ usedNonces r) ∧ (h ∉ usedObjectHashes r))
    then (mkReplay ({[n]} ∪ usedNonces r) ({[h]} ∪ usedObjectHashes r), UNUSED)
    else (r, REPLAY_NULL)).
Proof.
  unfold replay_admit, replay_classify, is_empty_str.
  destruct (String.eqb_spec n EmptyString); [rewrite decide_False by tauto; done|].
  destruct (String.eqb_spec h EmptyString); [rewrite decide_False by tauto; done|].
  destruct (String.eqb_spec b EmptyString); [rewrite decide_False by tauto; done|]. simpl.
  destruct (decide (n ∈ usedNonces r)) as [Hn|Hn], (decide (h ∈ usedObjectHashes r)) as [Hh|Hh];
    rewrite ?(bool_decide_eq_true_2 _ Hn), ?(bool_decide_eq_true_2 _ Hh),
      ?(bool_decide_eq_false_2 _ Hn), ?(bool_decide_eq_false_2 _ Hh); simpl;
    [rewrite decide_False by tauto..|rewrite decide_True by tauto]; done.
Qed.

(** One-time use: over any sequence of admissions, the admitted requests
    have pairwise distinct nonces and pairwise distinct object hashes, all of
    them new to the registry, and the final registry holds exactly the old
    entries and the admitted ones. *)
Theorem admit_all_once r l r' ok :
  admit_all r l = (r', ok) →
  NoDup (adm_nonce <$> ok) ∧ NoDup (adm_hash <$> ok)
  ∧ (∀ a, a ∈ ok → (adm_nonce a ∉ usedNonces r) ∧ adm_hash a ∉ usedObjectHashes r)
  ∧ usedNonces r' = (list_to_set (adm_nonce <$> ok) : gset string) ∪ usedNonces r
  ∧ usedObjectHashes r' = (list_to_set (adm_hash <$> ok) : gset string) ∪ usedObjectHashes r.
Proof.
  revert r r' ok. induction l as [|a l IH]; intros r r' ok; simpl.
  - intros [= <- <-]. csimpl. repeat split; try constructor; set_solver.
  - rewrite replay_admit_spec. destruct (decide (adm_nonce a ≠ _ ∧ _)) as [Hd|_].
    + destruct (admit_all _ l) as [r2 ok2] eqn:E. simpl. intros [= <- <-].
      apply IH in E as (Hn & Hh & Hf & -> & ->); simpl in *. csimpl.
      rewrite !NoDup_cons. repeat split; try done; try set_solver;
        intros (b & Hb & Hin)%list_elem_of_fmap; apply Hf in Hin; set_solver.
    + destruct (admit_all r l) as [r2 ok2] eqn:E. simpl. intros [= <- <-]. by apply IH in E.
Qed.

(** Three admissions: one nonce used twice, and a fresh pair. *)
Definition fixture_admissions : list admission :=
  [mkAdmission "n1" "h1" "l"; mkAdmission "n1" "h2" "l"; mkAdmission "n2" "h2" "l"].

Lemma admit_all_once_witness :
  ∃ r ok, admit_all createReplayRegistry fixture_admissions = (r, ok)
    ∧ length ok = 2 ∧ NoDup (adm_nonce <$> ok).
Proof.
  destruct (admit_all createReplayRegistry fixture_admissions) as [r ok] eqn:E.
  exists r, ok. split; [reflexivity|]. split.
  - vm_compute in E. injection E as <- <-. reflexivity.
  - exact (proj1 (admit_all_once _ _ _ _ E)).
Defined.
