(* ===== verification/FilesystemAeo.v ===== *)
(** The filesystem action-execution object: [src/lib/filesystem-aeo.ts].

    The record types of the module, the five section validators,
    [materializeFilesystemAEO] and [computeFilesystemAEOHash]. Arrays whose
    elements the code does not check are lists of values. *)
From Stdlib Require Import ZArith NArith Lia Ascii.
From stdpp Require Import base list strings pretty gmap.
From S2P Require Import Prelude JsValue Sha256 Canonical.

Definition FILESYSTEM_AEO_REQUIRED_KEYS : list string :=
  ["finality"; "intent"; "scope"; "target"; "validation"].

Record FilesystemAEOIntent := mkIntent {
  action : string;
  purpose : string
}.

Record FilesystemAEOScope := mkScope {
  repo : string;
  root : string;
  allowed_paths : list jsval;
  denied_paths : list jsval;
  allowed_operations : list jsval;
  denied_operations : list jsval;
  max_files : jsnum;
  max_diff_lines : jsnum
}.

Record FilesystemAEOValidation := mkValidation {
  decision_id : string;
  authority_lineage_hash : string;
  policy_id : string;
  policy_hash : string;
  canonicalization : string;
  pre_write_hash : string;
  proposed_diff_hash : string;
  aeo_hash_required : bool;
  replay_nonce : string;
  requires_unused_nonce : bool;
  requires_scope_match : bool;
  requires_path_policy_match : bool;
  requires_pre_write_hash_match : bool
}.

(** [target.system] is the literal ["filesystem"] by type. *)
Record FilesystemAEOTarget := mkTarget {
  operation : string;
  path : string;
  normalized_path_required : bool;
  symlink_following_allowed : bool
}.

Record FilesystemAEOFinality := mkFinality {
  proof_required : bool;
  proof_type : string;
  expected_result : string;
  proof_fields : list jsval;
  registry_required : bool;
  reconciliation_required : bool;
  replay_state_after_success : string
}.

Record FilesystemAEO := mkAEO {
  intent : FilesystemAEOIntent;
  scope : FilesystemAEOScope;
  validation : FilesystemAEOValidation;
  target : FilesystemAEOTarget;
  finality : FilesystemAEOFinality
}.

(** The run-time objects, properties in creation order. *)
Definition intent_js (i : FilesystemAEOIntent) : jsval :=
  JObj [("action", JStr (action i)); ("purpose", JStr (purpose i))].

Definition scope_js (s : FilesystemAEOScope) : jsval :=
  JObj [("repo", JStr (repo s)); ("root", JStr (root s));
        ("allowed_paths", JArr (allowed_paths s)); ("denied_paths", JArr (denied_paths s));
        ("allowed_operations", JArr (allowed_operations s));
        ("denied_operations", JArr (denied_operations s));
        ("max_files", JNum (max_files s)); ("max_diff_lines", JNum (max_diff_lines s))].

Definition validation_js (v : FilesystemAEOValidation) : jsval :=
  JObj [("decision_id", JStr (decision_id v));
        ("authority_lineage_hash", JStr (authority_lineage_hash v));
        ("policy_id", JStr (policy_id v)); ("policy_hash", JStr (policy_hash v));
        ("canonicalization", JStr (canonicalization v));
        ("pre_write_hash", JStr (pre_write_hash v));
        ("proposed_diff_hash", JStr (proposed_diff_hash v));
        ("aeo_hash_required", JBool (aeo_hash_required v));
        ("replay_nonce", JStr (replay_nonce v));
        ("requires_unused_nonce", JBool (requires_unused_nonce v));
        ("requires_scope_match", JBool (requires_scope_match v));
        ("requires_path_policy_match", JBool (requires_path_policy_match v));
        ("requires_pre_write_hash_match", JBool (requires_pre_write_hash_match v))].

Definition target_js (t : FilesystemAEOTarget) : jsval :=
  JObj [("system", JStr "filesystem"); ("operation", JStr (operation t));
        ("path", JStr (path t));
        ("normalized_path_required", JBool (normalized_path_required t));
        ("symlink_following_allowed", JBool (symlink_following_allowed t))].

Definition finality_js (f : FilesystemAEOFinality) : jsval :=
  JObj [("proof_required", JBool (proof_required f)); ("proof_type", JStr (proof_type f));
        ("expected_result", JStr (expected_result f));
        ("proof_fields", JArr (proof_fields f));
        ("registry_required", JBool (registry_required f));
        ("reconciliation_required", JBool (reconciliation_required f));
        ("replay_state_after_success", JStr (replay_state_after_success f))].

Definition aeo_js (a : FilesystemAEO) : jsval :=
  JObj [("intent", intent_js (intent a)); ("scope", scope_js (scope a));
        ("validation", validation_js (validation a)); ("target", target_js (target a));
        ("finality", finality_js (finality a))].

(** * Run-time type guards *)
Definition isStringArray (v : jsval) : bool :=
  match v with JArr l => forallb is_string l | _ => false end.

Definition items (v : jsval) : list jsval := match v with JArr l => l | _ => [] end.
Definition is_bool (v : jsval) : bool := match v with JBool _ => true | _ => false end.
Definition bool_of (v : jsval) : bool := match v with JBool b => b | _ => false end.
Definition num_of (v : jsval) : jsnum := match v with JNum n => n | _ => NNaN end.
Definition is_number (v : jsval) : bool := match v with JNum _ => true | _ => false end.

(** [n < z]; a comparison with NaN is false. *)
Definition num_ltz (n : jsnum) (z : Z) : bool :=
  match n with NInt x => Z.ltb x z | NInf neg => neg | NNaN => false end.

Definition is_nil {A} (l : list A) : bool := match l with [] => true | _ => false end.

(** * Section validators *)
Definition validateIntent (v : jsval) : option FilesystemAEOIntent :=
  if negb (is_record v) then None
  else if negb (is_non_empty (get v "action")) then None
  else if negb (is_non_empty (get v "purpose")) then None
  else Some (mkIntent (str_or_empty (get v "action")) (str_or_empty (get v "purpose"))).

Definition validateScope (v : jsval) : option FilesystemAEOScope :=
  if negb (is_record v) then None
  else if negb (is_non_empty (get v "repo")) then None
  else if negb (is_non_empty (get v "root")) then None
  else if negb (isStringArray (get v "allowed_paths")) then None
  else if negb (isStringArray (get v "denied_paths")) then None
  else if negb (isStringArray (get v "allowed_operations"))
          || is_nil (items (get v "allowed_operations")) then None
  else if negb (isStringArray (get v "denied_operations")) then None
  else if negb (is_number (get v "max_files")) || num_ltz (num_of (get v "max_files")) 1 then None
  else if negb (is_number (get v "max_diff_lines"))
          || num_ltz (num_of (get v "max_diff_lines")) 1 then None
  else Some (mkScope (str_or_empty (get v "repo")) (str_or_empty (get v "root"))
    (items (get v "allowed_paths")) (items (get v "denied_paths"))
    (items (get v "allowed_operations")) (items (get v "denied_operations"))
    (num_of (get v "max_files")) (num_of (get v "max_diff_lines"))).

Definition validateValidation (v : jsval) : option FilesystemAEOValidation :=
  if negb (is_record v) then None
  else if negb (is_non_empty (get v "decision_id")) then None
  else if negb (is_non_empty (get v "authority_lineage_hash")) then None
  else if negb (is_non_empty (get v "policy_id")) then None
  else if negb (is_non_empty (get v "policy_hash")) then None
  else if negb (is_non_empty (get v "canonicalization")) then None
  else if negb (is_non_empty (get v "pre_write_hash")) then None
  else if negb (is_non_empty (get v "proposed_diff_hash")) then None
  else if negb (is_bool (get v "aeo_hash_required")) then None
  else if negb (is_non_empty (get v "replay_nonce")) then None
  else if negb (is_bool (get v "requires_unused_nonce")) then None
  else if negb (is_bool (get v "requires_scope_match")) then None
  else if negb (is_bool (get v "requires_path_policy_match")) then None
  else if negb (is_bool (get v "requires_pre_write_hash_match")) then None
  else Some (mkValidation (str_or_empty (get v "decision_id"))
    (str_or_empty (get v "authority_lineage_hash")) (str_or_empty (get v "policy_id"))
    (str_or_empty (get v "policy_hash")) (str_or_empty (get v "canonicalization"))
    (str_or_empty (get v "pre_write_hash")) (str_or_empty (get v "proposed_diff_hash"))
    (bool_of (get v "aeo_hash_required")) (str_or_empty (get v "replay_nonce"))
    (bool_of (get v "requires_unused_nonce")) (bool_of (get v "requires_scope_match"))
    (bool_of (get v "requires_path_policy_match"))
    (bool_of (get v "requires_pre_write_hash_match"))).

Definition validateTarget (v : jsval) : option FilesystemAEOTarget :=
  if negb (is_record v) then None
  else if negb (bool_decide (get v "system" = JStr "filesystem")) then None
  else if negb (is_non_empty (get v "operation")) then None
  else if negb (is_non_empty (get v "path")) then None
  else if negb (is_bool (get v "normalized_path_required")) then None
  else if negb (is_bool (get v "symlink_following_allowed")) then None
  else Some (mkTarget (str_or_empty (get v "operation")) (str_or_empty (get v "path"))
    (bool_of (get v "normalized_path_required"))
    (bool_of (get v "symlink_following_allowed"))).

Definition validateFinality (v : jsval) : option FilesystemAEOFinality :=
  if negb (is_record v) then None
  else if negb (is_bool (get v "proof_required")) || negb (bool_of (get v "proof_required"))
  then None
  else if negb (is_non_empty (get v "proof_type")) then None
  else if negb (is_non_empty (get v "expected_result")) then None
  else if negb (isStringArray (get v "proof_fields")) || is_nil (items (get v "proof_fields"))
  then None
  else if negb (is_bool (get v "registry_required")) then None
  else if negb (is_bool (get v "reconciliation_required")) then None
  else if negb (is_non_empty (get v "replay_state_after_success")) then None
  else Some (mkFinality (bool_of (get v "proof_required")) (str_or_empty (get v "proof_type"))
    (str_or_empty (get v "expected_result")) (items (get v "proof_fields"))
    (bool_of (get v "registry_required")) (bool_of (get v "reconciliation_required"))
    (str_or_empty (get v "replay_state_after_success"))).

(** * Materialization *)
Inductive FilesystemAEOMaterializationFailure :=
  | missing_required_field
  | extra_field_present
  | authority_binding_missing
  | invalid_field_type.

Inductive FilesystemAEOMaterializationResult :=
  | Materialized (aeo : FilesystemAEO) (aeo_hash : string)
  | NotMaterialized (failure : FilesystemAEOMaterializationFailure).

(** Lines 194-198: the sorted keys against the required ones, by index. *)
Fixpoint keys_match (keys required : list string) : bool :=
  match required with
  | [] => true
  | r :: required' =>
      match keys with
      | k :: keys' => String.eqb k r && keys_match keys' required'
      | [] => false
      end
  end.

Definition computeFilesystemAEOHash (aeo : FilesystemAEO) : string :=
  sha256_id (aeo_js aeo).

Definition materializeFilesystemAEO (input : jsval) : FilesystemAEOMaterializationResult :=
  if negb (is_record input) then NotMaterialized missing_required_field
  else
    let ks := sorted_keys input in
    if negb (Nat.eqb (length ks) (length FILESYSTEM_AEO_REQUIRED_KEYS)) then
      NotMaterialized
        (if Nat.ltb (length FILESYSTEM_AEO_REQUIRED_KEYS) (length ks)
         then extra_field_present else missing_required_field)
    else if negb (keys_match ks FILESYSTEM_AEO_REQUIRED_KEYS) then
      NotMaterialized
        (if Nat.ltb (length FILESYSTEM_AEO_REQUIRED_KEYS) (length ks)
         then extra_field_present else missing_required_field)
    else
      match validateIntent (get input "intent") with
      | None => NotMaterialized invalid_field_type
      | Some intent =>
          match validateScope (get input "scope") with
          | None => NotMaterialized invalid_field_type
          | Some scope =>
              match validateValidation (get input "validation") with
              | None => NotMaterialized authority_binding_missing
              | Some validation =>
                  match validateTarget (get input "target") with
                  | None => NotMaterialized invalid_field_type
                  | Some target =>
                      match validateFinality (get input "finality") with
                      | None => NotMaterialized invalid_field_type
                      | Some finality =>
                          let aeo := mkAEO intent scope validation target finality in
                          Materialized aeo (sha256_id (aeo_js aeo))
                      end
                  end
              end
          end
      end.

Definition CANONICAL_FILESYSTEM_AEO_FIXTURE : FilesystemAEO := mkAEO
  (mkIntent "modify_file" "bounded repository file mutation")
  (mkScope "mindshift-demo" "repository"
    [JStr "src/**"; JStr "tests/**"; JStr "docs/**"]
    [JStr ".github/workflows/**"; JStr "wrangler.toml"; JStr ".env*"; JStr "secrets/**";
     JStr "package-lock.json"]
    [JStr "create"; JStr "modify"]
    [JStr "delete"; JStr "chmod"; JStr "rename"; JStr "symlink"] (NInt 1) (NInt 300))
  (mkValidation "AUTH-fixture-001" "sha256:fixture-authority-lineage-hash"
    "filesystem-write-policy-v1" "sha256:fixture-policy-hash" "json-canonical-v1"
    "sha256:fixture-pre-write-hash" "sha256:fixture-diff-hash" true "fixture-nonce-001"
    true true true true)
  (mkTarget "modify" "src/example.ts" true false)
  (mkFinality true "filesystem_mutation_receipt" "single_bounded_file_mutation"
    [JStr "decision_id"; JStr "aeo_hash"; JStr "target_path"; JStr "operation";
     JStr "pre_write_hash"; JStr "post_write_hash"; JStr "diff_hash"; JStr "execution_id";
     JStr "timestamp"] true true "CONSUMED").

(** * Specification of materialization *)

Definition non_empty (s : string) : bool := negb (is_empty_str s).

Definition intent_wf (i : FilesystemAEOIntent) : bool :=
  non_empty (action i) && non_empty (purpose i).

Definition scope_wf (s : FilesystemAEOScope) : bool :=
  non_empty (repo s) && non_empty (root s)
  && forallb is_string (allowed_paths s) && forallb is_string (denied_paths s)
  && (forallb is_string (allowed_operations s) && negb (is_nil (allowed_operations s)))
  && forallb is_string (denied_operations s)
  && negb (num_ltz (max_files s) 1) && negb (num_ltz (max_diff_lines s) 1).

Definition validation_wf (v : FilesystemAEOValidation) : bool :=
  non_empty (decision_id v) && non_empty (authority_lineage_hash v)
  && non_empty (policy_id v) && non_empty (policy_hash v) && non_empty (canonicalization v)
  && non_empty (pre_write_hash v) && non_empty (proposed_diff_hash v)
  && non_empty (replay_nonce v).

Definition target_wf (t : FilesystemAEOTarget) : bool :=
  non_empty (operation t) && non_empty (path t).

Definition finality_wf (f : FilesystemAEOFinality) : bool :=
  proof_required f && non_empty (proof_type f) && non_empty (expected_result f)
  && (forallb is_string (proof_fields f) && negb (is_nil (proof_fields f)))
  && non_empty (replay_state_after_success f).

Definition aeo_wf (a : FilesystemAEO) : bool :=
  intent_wf (intent a) && scope_wf (scope a) && validation_wf (validation a)
  && target_wf (target a) && finality_wf (finality a).

(** ** One lemma per guard *)
Lemma non_empty_inv v : is_non_empty v = true → v = JStr (str_or_empty v) ∧ non_empty (str_or_empty v) = true.
Proof. destruct v; naive_solver. Qed.

Lemma string_array_inv v : isStringArray v = true → v = JArr (items v) ∧ forallb is_string (items v) = true.
Proof. destruct v; naive_solver. Qed.

Lemma is_bool_inv v : is_bool v = true → v = JBool (bool_of v).
Proof. destruct v; naive_solver. Qed.

Lemma is_number_inv v : is_number v = true → v = JNum (num_of v).
Proof. destruct v; naive_solver. Qed.

(** Turn the guards a validator passed into facts about the fields. *)
Ltac passed :=
  boolify;
  repeat match goal with
  | H : is_non_empty _ = true |- _ => apply non_empty_inv in H as [? ?]
  | H : isStringArray _ = true |- _ => apply string_array_inv in H as [? ?]
  | H : is_bool _ = true |- _ => apply is_bool_inv in H
  | H : is_number _ = true |- _ => apply is_number_inv in H
  end.

(** A validator: [f v = Some x] iff [v] carries the properties of [x] and [x]
    satisfies the field conditions. *)
Ltac validator_sound :=
  intros; branches;
  repeat match goal with
  | H : @eq ?T _ _ |- _ =>
      lazymatch T with jsval => fail | bool => fail | _ => injection H; clear H; intros; subst end
  end; passed; repeat split; simpl; try done;
    [ repeat constructor; simpl; try congruence
    | repeat (apply andb_true_iff; split); simpl; try done; try by apply negb_true_iff ].

Ltac validator_complete :=
  intros [[? Hps] Hwf]; boolify; simpl in *;
  repeat match goal with H : Forall _ (_ :: _) |- _ => apply Forall_cons in H as [? H] end;
  simpl in *;
  repeat match goal with H : ?x = true |- context [?x] => rewrite H; simpl end;
  repeat match goal with H : get _ _ = _ |- _ => rewrite H; simpl; clear H end;
  unfold non_empty in *;
  repeat match goal with H : _ = true |- _ => rewrite H; simpl; clear H end;
  repeat match goal with H : _ = false |- _ => rewrite H; simpl; clear H end;
  try done.

Lemma validateIntent_spec v i :
  validateIntent v = Some i ↔ carries v (intent_js i) ∧ intent_wf i = true.
Proof.
  destruct i. unfold validateIntent, carries, intent_wf. split.
  - validator_sound.
  - validator_complete.
Qed.

Lemma validateScope_spec v i :
  validateScope v = Some i ↔ carries v (scope_js i) ∧ scope_wf i = true.
Proof.
  destruct i. unfold validateScope, carries, scope_wf. split.
  - validator_sound.
  - validator_complete.
Qed.

Lemma validateValidation_spec v i :
  validateValidation v = Some i ↔ carries v (validation_js i) ∧ validation_wf i = true.
Proof.
  destruct i. unfold validateValidation, carries, validation_wf. split.
  - validator_sound.
  - validator_complete.
Qed.

Lemma validateTarget_spec v i :
  validateTarget v = Some i ↔ carries v (target_js i) ∧ target_wf i = true.
Proof.
  destruct i. unfold validateTarget, carries, target_wf. split.
  - validator_sound.
  - validator_complete.
Qed.

Lemma validateFinality_spec v i :
  validateFinality v = Some i ↔ carries v (finality_js i) ∧ finality_wf i = true.
Proof.
  destruct i. unfold validateFinality, carries, finality_wf. split.
  - validator_sound.
  - validator_complete.
Qed.

Lemma keys_match_eq ks req :
  length ks = length req → keys_match ks req = true ↔ ks = req.
Proof.
  revert ks. induction req as [|r req IH]; intros [|k ks] Hl; simpl in *; try done.
  rewrite andb_true_iff, String.eqb_eq, IH by congruence. naive_solver.
Qed.

(** The exact-shape test: exactly the five required keys. *)
Definition exact_shape (input : jsval) : bool :=
  Nat.eqb (length (sorted_keys input)) (length FILESYSTEM_AEO_REQUIRED_KEYS)
  && keys_match (sorted_keys input) FILESYSTEM_AEO_REQUIRED_KEYS.

Lemma exact_shape_spec input :
  exact_shape input = true ↔ sorted_keys input = FILESYSTEM_AEO_REQUIRED_KEYS.
Proof.
  unfold exact_shape. rewrite andb_true_iff, Nat.eqb_eq. split.
  - intros [Hl Hm]. by apply keys_match_eq in Hm.
  - intros E. rewrite E. split; [done|]. by apply keys_match_eq.
Qed.

(** The sections of [a] are the ones [input] carries. *)
Definition carries_sections (input : jsval) (a : FilesystemAEO) : Prop :=
  Forall (λ kv, carries (get input kv.1) kv.2) (props (aeo_js a)).

Lemma materialize_sound input a h :
  materializeFilesystemAEO input = Materialized a h →
    is_record input = true ∧ sorted_keys input = FILESYSTEM_AEO_REQUIRED_KEYS
    ∧ carries_sections input a ∧ aeo_wf a = true ∧ h = computeFilesystemAEOHash a.
Proof.
  unfold carries_sections, aeo_wf; simpl. rewrite !Forall_cons, !andb_true_iff. simpl.
  rewrite <- exact_shape_spec. unfold exact_shape, materializeFilesystemAEO.
  intros E. destruct a. branches; boolify.
  repeat match goal with
  | H : validateIntent _ = Some _ |- _ => apply validateIntent_spec in H as [? ?]
  | H : validateScope _ = Some _ |- _ => apply validateScope_spec in H as [? ?]
  | H : validateValidation _ = Some _ |- _ => apply validateValidation_spec in H as [? ?]
  | H : validateTarget _ = Some _ |- _ => apply validateTarget_spec in H as [? ?]
  | H : validateFinality _ = Some _ |- _ => apply validateFinality_spec in H as [? ?]
  end.
  rewrite Heqb0. eauto 20.
Qed.

(** Materialization succeeds exactly on an object with the five required
    keys whose sections carry well-formed fields; the result is made of those
    fields (anything else inside a section is dropped) and comes with the
    digest of the result. *)
Theorem materialize_spec input a h :
  materializeFilesystemAEO input = Materialized a h ↔
    is_record input = true ∧ sorted_keys input = FILESYSTEM_AEO_REQUIRED_KEYS
    ∧ carries_sections input a ∧ aeo_wf a = true ∧ h = computeFilesystemAEOHash a.
Proof.
  split; [apply materialize_sound|].
  unfold carries_sections, aeo_wf; simpl. rewrite !Forall_cons, !andb_true_iff. simpl.
  rewrite <- exact_shape_spec. unfold exact_shape, materializeFilesystemAEO.
  intros (-> & [Hl Hm]%andb_true_iff & (Hi & Hs & Hv & Ht & Hf & _)
    & ((((? & ?) & ?) & ?) & ?) & ->).
  destruct a as [i s v t f]; simpl in *. rewrite Hl, Hm; simpl.
  rewrite (proj2 (validateIntent_spec _ i)), (proj2 (validateScope_spec _ s)),
      (proj2 (validateValidation_spec _ v)), (proj2 (validateTarget_spec _ t)),
      (proj2 (validateFinality_spec _ f)) by done. done.
Qed.

(** Materializing the object of a well-formed AEO gives the AEO back. *)
Theorem materialize_roundtrip a :
  aeo_wf a = true →
  materializeFilesystemAEO (aeo_js a) = Materialized a (computeFilesystemAEOHash a).
Proof.
  intros Hwf. unfold aeo_wf in Hwf. boolify. destruct a as [i s v t f]; simpl in *.
  unfold materializeFilesystemAEO; simpl.
  rewrite (proj2 (validateIntent_spec _ i)), (proj2 (validateScope_spec _ s)),
      (proj2 (validateValidation_spec _ v)), (proj2 (validateTarget_spec _ t)),
      (proj2 (validateFinality_spec _ f)); [done|..];
    split; try done; split; try done; repeat constructor.
Qed.

Lemma materialize_roundtrip_witness :
  materializeFilesystemAEO (aeo_js CANONICAL_FILESYSTEM_AEO_FIXTURE)
  = Materialized CANONICAL_FILESYSTEM_AEO_FIXTURE
      (computeFilesystemAEOHash CANONICAL_FILESYSTEM_AEO_FIXTURE).
Proof. apply (materialize_roundtrip CANONICAL_FILESYSTEM_AEO_FIXTURE). reflexivity. Defined.

(** * The digest binds the object *)

(** The finite limits a JSON input can carry; [Infinity] and [NaN] pass the
    [< 1] guards and are both written as [null]. *)
Definition finite_limits (a : FilesystemAEO) : bool :=
  finite_num (max_files (scope a)) && finite_num (max_diff_lines (scope a)).

(** A section is recovered from the normal form of any object carrying it. *)
Ltac section_inj :=
  intros Hwf E; apply carries_rigid in E;
  [ destruct E as [_ E]; simpl in E;
    repeat match goal with H : Forall _ (_ :: _) |- _ => apply Forall_cons in H as [? H] end;
    simpl in *; simplify_eq; done
  | csimpl; apply (bool_decide_unpack _); vm_compute; exact I
  | simpl; boolify; repeat constructor; simpl; done ].

Lemma intent_js_inj i i' :
  intent_wf i = true → normalize (intent_js i) = normalize (intent_js i') → i = i'.
Proof. destruct i, i'. section_inj. Qed.

Lemma scope_js_inj s s' :
  scope_wf s && finite_num (max_files s) && finite_num (max_diff_lines s) = true →
  normalize (scope_js s) = normalize (scope_js s') → s = s'.
Proof. destruct s, s'. unfold scope_wf; simpl. section_inj. Qed.

Lemma validation_js_inj v v' :
  validation_wf v = true → normalize (validation_js v) = normalize (validation_js v') → v = v'.
Proof. destruct v, v'. section_inj. Qed.

Lemma target_js_inj t t' :
  target_wf t = true → normalize (target_js t) = normalize (target_js t') → t = t'.
Proof. destruct t, t'. section_inj. Qed.

Lemma finality_js_inj f f' :
  finality_wf f = true → normalize (finality_js f) = normalize (finality_js f') → f = f'.
Proof. destruct f, f'. unfold finality_wf; simpl. section_inj. Qed.

Lemma aeo_js_inj a b :
  aeo_wf a = true → finite_limits a = true →
  normalize (aeo_js a) = normalize (aeo_js b) → a = b.
Proof.
  unfold aeo_wf, finite_limits. intros Hwf Hfin E. boolify.
  destruct a as [i s v t f], b as [i' s' v' t' f']; simpl in *.
  pose proof (normalize_get _ _ "intent" ltac:(discriminate) E) as Hi%intent_js_inj; [|done].
  pose proof (normalize_get _ _ "scope" ltac:(discriminate) E) as Hs%scope_js_inj;
    [|by rewrite !andb_true_iff].
  pose proof (normalize_get _ _ "validation" ltac:(discriminate) E) as Hv%validation_js_inj;
    [|done].
  pose proof (normalize_get _ _ "target" ltac:(discriminate) E) as Ht%target_js_inj; [|done].
  pose proof (normalize_get _ _ "finality" ltac:(discriminate) E) as Hf%finality_js_inj; [|done].
  simpl in *. by subst.
Qed.

(** Two inputs materialized under one digest are the same AEO, or they
    are two texts of one digest: the [aeo_hash] of a (finite-limit) AEO binds
    every field of every section. *)
Theorem materialize_binding i j a b h :
  finite_limits a = true →
  materializeFilesystemAEO i = Materialized a h →
  materializeFilesystemAEO j = Materialized b h →
  a = b ∨ collision_in [canonicalize (aeo_js a); canonicalize (aeo_js b)].
Proof.
  intros Hfin (_ & _ & _ & Hwf & ->)%materialize_sound (_ & _ & _ & _ & E)%materialize_sound.
  destruct (sha256_id_binding _ _ E) as [En|]; [left|by right]. by apply aeo_js_inj.
Qed.

Lemma materialize_binding_witness :
  let a := CANONICAL_FILESYSTEM_AEO_FIXTURE in
  a = a ∨ collision_in [canonicalize (aeo_js a); canonicalize (aeo_js a)].
Proof.
  refine (materialize_binding (aeo_js CANONICAL_FILESYSTEM_AEO_FIXTURE)
    (aeo_js CANONICAL_FILESYSTEM_AEO_FIXTURE) _ _
    (computeFilesystemAEOHash CANONICAL_FILESYSTEM_AEO_FIXTURE) _ _ _); reflexivity.
Defined.

#[global] Arguments computeFilesystemAEOHash : simpl never.
