(* ===== verification/FilesystemGateway.v ===== *)
(** The bounded filesystem-write gateway: [src/lib/filesystem-write-gateway.ts].

    ATAO capture, AEO compilation and the exact-object execution boundary. *)
From Stdlib Require Import ZArith NArith Lia Ascii.
From stdpp Require Import base list strings pretty gmap.
From S2P Require Import Prelude JsValue Sha256 Canonical FilesystemAeo.

(** * ATAO: agent tool action object *)

(** The literal fields ([system], [action], [risk_class], the two [creates_*]
    flags) are constants of the type. *)
Record FilesystemWriteATAO := mkATAO {
  atao_id : string;
  agent_id : string;
  session_id : string;
  atao_intent : string;
  param_path : string;
  param_content : string;
  atao_repo : string;
  atao_root : string;
  timestamp : string
}.

(** [ataoBody], lines 82-102. *)
Definition atao_body_js (a : FilesystemWriteATAO) : jsval :=
  JObj [("agent_id", JStr (agent_id a)); ("session_id", JStr (session_id a));
        ("intent", JStr (atao_intent a));
        ("proposed_action", JObj [
          ("system", JStr "filesystem"); ("action", JStr "write_file");
          ("parameters", JObj [("path", JStr (param_path a));
                               ("content", JStr (param_content a))])]);
        ("scope", JObj [("repo", JStr (atao_repo a)); ("root", JStr (atao_root a))]);
        ("risk_class", JStr "P2"); ("timestamp", JStr (timestamp a));
        ("creates_authority", JBool false); ("creates_execution_eligibility", JBool false)].

Definition captureFilesystemWriteATAO (input : jsval) : option FilesystemWriteATAO :=
  if negb (truthy input) then None
  else if negb (is_non_blank (get input "agent_id")) then None
  else if negb (is_non_blank (get input "session_id")) then None
  else if negb (is_non_blank (get input "intent")) then None
  else if negb (is_non_blank (get input "path")) then None
  else if negb (is_string (get input "content")) then None
  else if negb (is_non_blank (get input "repo")) then None
  else if negb (is_non_blank (get input "root")) then None
  else if negb (is_non_blank (get input "timestamp")) then None
  else
    let body := mkATAO EmptyString
      (str_or_empty (get input "agent_id")) (str_or_empty (get input "session_id"))
      (str_or_empty (get input "intent")) (str_or_empty (get input "path"))
      (str_or_empty (get input "content")) (str_or_empty (get input "repo"))
      (str_or_empty (get input "root")) (str_or_empty (get input "timestamp")) in
    Some (mkATAO (sha256_id (atao_body_js body))
      (agent_id body) (session_id body) (atao_intent body) (param_path body)
      (param_content body) (atao_repo body) (atao_root body) (timestamp body)).

(** * AEO compilation *)
Definition proof_fields_list : list jsval :=
  map JStr ["decision_id"; "aeo_hash"; "target_path"; "operation"; "pre_write_hash";
            "post_write_hash"; "diff_hash"; "execution_id"; "timestamp"].

Definition array_non_empty (v : jsval) : bool := is_array v && negb (is_nil (items v)).

Definition compileFilesystemWriteAEO (atao : option FilesystemWriteATAO) (binding : jsval) :
    option FilesystemAEO :=
  match atao with
  | None => None
  | Some atao =>
      if negb (truthy binding) then None
      else if negb (is_non_blank (get binding "decision_id")) then None
      else if negb (is_non_blank (get binding "authority_lineage_hash")) then None
      else if negb (is_non_blank (get binding "policy_id")) then None
      else if negb (is_non_blank (get binding "policy_hash")) then None
      else if negb (is_non_blank (get binding "replay_nonce")) then None
      else if negb (is_string (get binding "pre_write_hash")) then None
      else if negb (is_string (get binding "proposed_diff_hash")) then None
      else if negb (array_non_empty (get binding "allowed_paths")) then None
      else if negb (array_non_empty (get binding "allowed_operations")) then None
      else if negb (is_array (get binding "denied_paths")) then None
      else if negb (is_array (get binding "denied_operations")) then None
      else if negb (is_number (get binding "max_files"))
              || num_ltz (num_of (get binding "max_files")) 1 then None
      else if negb (is_number (get binding "max_diff_lines"))
              || num_ltz (num_of (get binding "max_diff_lines")) 1 then None
      else
        let operation :=
          if is_non_blank (get binding "pre_write_hash") then "modify" else "create" in
        Some (mkAEO
          (mkIntent "write_file" (atao_intent atao))
          (mkScope (atao_repo atao) (atao_root atao)
            (items (get binding "allowed_paths")) (items (get binding "denied_paths"))
            (items (get binding "allowed_operations"))
            (items (get binding "denied_operations"))
            (num_of (get binding "max_files")) (num_of (get binding "max_diff_lines")))
          (mkValidation (str_or_empty (get binding "decision_id"))
            (str_or_empty (get binding "authority_lineage_hash"))
            (str_or_empty (get binding "policy_id"))
            (str_or_empty (get binding "policy_hash")) "json-canonical-v1"
            (str_or_empty (get binding "pre_write_hash"))
            (str_or_empty (get binding "proposed_diff_hash")) true
            (str_or_empty (get binding "replay_nonce")) true true true true)
          (mkTarget operation (param_path atao) true false)
          (mkFinality true "filesystem_write_execution" "single_bounded_file_mutation"
            proof_fields_list true true "CONSUMED"))
  end.

(** * Execution boundary *)
Inductive execution_result := EXECUTED | NULL.

Definition execution_result_str (r : execution_result) : string :=
  match r with EXECUTED => "EXECUTED" | NULL => "NULL" end.

Record FilesystemWriteExecutionProof := mkProof {
  proof_id : string;
  proof_atao_id : string;
  proof_aeo_hash : string;
  validated_object_hash : string;
  executed_object_hash : string;
  target_path : string;
  target_action : string;
  proof_result : execution_result;
  null_reason : option string;
  emitted_at : string
}.

(** [proofBody], lines 315-327. *)
Definition proof_body_js (p : FilesystemWriteExecutionProof) : jsval :=
  JObj [("atao_id", JStr (proof_atao_id p)); ("aeo_hash", JStr (proof_aeo_hash p));
        ("validated_object_hash", JStr (validated_object_hash p));
        ("executed_object_hash", JStr (executed_object_hash p));
        ("target_surface", JStr "filesystem"); ("target_path", JStr (target_path p));
        ("target_action", JStr (target_action p));
        ("execution_result", JStr (execution_result_str (proof_result p)));
        ("null_reason", opt_str (null_reason p)); ("creates_authority", JBool false);
        ("emitted_at", JStr (emitted_at p))].

Definition with_id (p : FilesystemWriteExecutionProof) : FilesystemWriteExecutionProof :=
  mkProof (sha256_id (proof_body_js p)) (proof_atao_id p) (proof_aeo_hash p)
    (validated_object_hash p) (executed_object_hash p) (target_path p) (target_action p)
    (proof_result p) (null_reason p) (emitted_at p).

(** The injected executor writes [content] at [path] in the world [W]; its
    answer is not used by the boundary. *)
Section Execute.
Context {W : Type} (executor : string → string → W → W).

Definition executeFilesystemWrite (aeo : option FilesystemAEO)
    (validated_object_hash : jsval) (atao : option FilesystemWriteATAO)
    (emitted_at : jsval) (w : W) : W * option FilesystemWriteExecutionProof :=
  match aeo, atao with
  | Some aeo, Some atao =>
      if negb (is_non_blank validated_object_hash) then (w, None)
      else if negb (is_non_blank emitted_at) then (w, None)
      else
        let targetPath := path (target aeo) in
        let targetAction := operation (target aeo) in
        let recomputedAEOHash := computeFilesystemAEOHash aeo in
        let hashMatch := String.eqb recomputedAEOHash (str_or_empty validated_object_hash) in
        let '(w', result, reason, executed) :=
          if negb hashMatch then (w, NULL, Some "OBJECT_HASH_MISMATCH", recomputedAEOHash)
          else (executor targetPath (param_content atao) w, EXECUTED, None, recomputedAEOHash) in
        (w', Some (with_id (mkProof EmptyString (atao_id atao) recomputedAEOHash
          (str_or_empty validated_object_hash) executed targetPath targetAction result reason
          (str_or_empty emitted_at))))
  | _, _ => (w, None)
  end.
End Execute.

(** * Properties *)

(** The text fields of a capture input that must be non-blank. *)
Definition capture_required : list string :=
  ["agent_id"; "session_id"; "intent"; "path"; "repo"; "root"; "timestamp"].

Definition atao_field (a : FilesystemWriteATAO) : list (string * string) :=
  [("agent_id", agent_id a); ("session_id", session_id a); ("intent", atao_intent a);
   ("path", param_path a); ("content", param_content a); ("repo", atao_repo a);
   ("root", atao_root a); ("timestamp", timestamp a)].

(** Capture succeeds exactly when every required field is a non-blank string
    and the content is a string; the ATAO then carries those fields verbatim
    and its identity is the digest of its body. *)
Theorem capture_spec input a :
  captureFilesystemWriteATAO input = Some a ↔
    (∀ k, k ∈ capture_required → is_non_blank (get input k) = true)
    ∧ Forall (λ kv, get input kv.1 = JStr kv.2) (atao_field a)
    ∧ atao_id a = sha256_id (atao_body_js a).
Proof.
  split.
  - unfold captureFilesystemWriteATAO. intros E. branches. boolify.
    split; [|split; [|done]].
    + unfold capture_required. intros k Hk.
      rewrite !elem_of_cons, elem_of_nil in Hk. naive_solver.
    + unfold atao_field; simpl. repeat constructor; simpl; auto with js.
  - intros (Hreq & Hf & Hid). destruct a as [i ag se it pa co re ro ti].
    unfold atao_field in Hf; simpl in Hf.
    repeat match goal with H : Forall _ (_ :: _) |- _ => apply Forall_cons in H as [? H] end.
    unfold atao_body_js in Hid; simpl in *. subst i.
    unfold captureFilesystemWriteATAO.
    assert (truthy input = true) as -> by (by destruct input).
    rewrite !Hreq by (unfold capture_required; set_solver).
    repeat match goal with H : get _ _ = _ |- _ => rewrite H; clear H end. done.
Qed.

Lemma capture_path input a :
  captureFilesystemWriteATAO input = Some a → param_path a ≠ EmptyString.
Proof.
  unfold captureFilesystemWriteATAO. intros E. branches. boolify.
  destruct (get input "path") as [| | | |p| |]; try done. simpl in *. by destruct p.
Qed.

Lemma compile_path atao binding aeo :
  compileFilesystemWriteAEO (Some atao) binding = Some aeo → path (target aeo) = param_path atao.
Proof. unfold compileFilesystemWriteAEO. intros E. branches. Qed.

Lemma capture_fields input a :
  captureFilesystemWriteATAO input = Some a →
  param_path a = str_or_empty (get input "path")
  ∧ param_content a = str_or_empty (get input "content").
Proof. unfold captureFilesystemWriteATAO. intros E. branches. Qed.

Lemma compile_fields atao binding aeo :
  compileFilesystemWriteAEO (Some atao) binding = Some aeo →
  replay_nonce (validation aeo) = str_or_empty (get binding "replay_nonce")
  ∧ decision_id (validation aeo) = str_or_empty (get binding "decision_id")
  ∧ pre_write_hash (validation aeo) = str_or_empty (get binding "pre_write_hash").
Proof. unfold compileFilesystemWriteAEO. intros E. branches. Qed.

(** The content of the ATAO takes no part in the compiled AEO. *)
Definition with_content (a : FilesystemWriteATAO) (id content : string) : FilesystemWriteATAO :=
  mkATAO id (agent_id a) (session_id a) (atao_intent a) (param_path a) content
    (atao_repo a) (atao_root a) (timestamp a).

Lemma compile_with_content a id content binding :
  compileFilesystemWriteAEO (Some (with_content a id content)) binding
  = compileFilesystemWriteAEO (Some a) binding.
Proof. reflexivity. Qed.

(** What a compiled AEO is: the purpose, path and scope come from the ATAO,
    the policy from the binding, the operation from the pre-state hash, and the
    safety flags (proof, registry, unused nonce, no symlinks) are always set.
    The file content takes no part in it. *)
Theorem compile_spec atao binding aeo :
  compileFilesystemWriteAEO (Some atao) binding = Some aeo →
    purpose (intent aeo) = atao_intent atao
    ∧ path (target aeo) = param_path atao
    ∧ repo (scope aeo) = atao_repo atao ∧ root (scope aeo) = atao_root atao
    ∧ Forall (λ kv, get binding kv.1 = JStr kv.2)
        [("decision_id", decision_id (validation aeo));
         ("authority_lineage_hash", authority_lineage_hash (validation aeo));
         ("policy_id", policy_id (validation aeo)); ("policy_hash", policy_hash (validation aeo));
         ("pre_write_hash", pre_write_hash (validation aeo));
         ("proposed_diff_hash", proposed_diff_hash (validation aeo));
         ("replay_nonce", replay_nonce (validation aeo))]
    ∧ (operation (target aeo) = "create" ↔ non_blank (pre_write_hash (validation aeo)) = false)
    ∧ Forall (λ b, b = true)
        [requires_unused_nonce (validation aeo); requires_scope_match (validation aeo);
         requires_path_policy_match (validation aeo);
         requires_pre_write_hash_match (validation aeo);
         proof_required (finality aeo); registry_required (finality aeo);
         negb (symlink_following_allowed (target aeo))]
    ∧ replay_state_after_success (finality aeo) = "CONSUMED"
    ∧ ∀ content, compileFilesystemWriteAEO
        (Some (mkATAO (atao_id atao) (agent_id atao) (session_id atao) (atao_intent atao)
           (param_path atao) content (atao_repo atao) (atao_root atao) (timestamp atao)))
        binding = Some aeo.
Proof.
  intros E. repeat split; try (intros content; rewrite <- E; reflexivity);
    unfold compileFilesystemWriteAEO in E; branches; boolify; simpl; try done;
    try (repeat constructor; simpl; auto with js; done);
    destruct (get binding "pre_write_hash"); simpl in *; congruence.
Qed.

Definition fixture_capture : jsval :=
  JObj [("agent_id", JStr "agent-1"); ("session_id", JStr "session-1");
        ("intent", JStr "update seed"); ("path", JStr "src/example.ts");
        ("content", JStr "hello"); ("repo", JStr "mindshift-demo");
        ("root", JStr "repository"); ("timestamp", JStr "2026-01-01T00:00:00.000Z")].

Definition fixture_binding : jsval :=
  JObj [("decision_id", JStr "AUTH-1"); ("authority_lineage_hash", JStr "sha256:lineage");
        ("policy_id", JStr "policy-1"); ("policy_hash", JStr "sha256:policy");
        ("pre_write_hash", JStr "sha256:pre"); ("proposed_diff_hash", JStr EmptyString);
        ("replay_nonce", JStr "nonce-1"); ("allowed_paths", JArr [JStr "src/**"]);
        ("denied_paths", JArr []); ("allowed_operations", JArr [JStr "modify"]);
        ("denied_operations", JArr []); ("max_files", jint 1); ("max_diff_lines", jint 300)].

(** The ATAO and the AEO of the fixture. *)
Definition fixture_atao : FilesystemWriteATAO :=
  mkATAO "sha256:atao" "agent-1" "session-1" "update seed" "src/example.ts" "hello"
    "mindshift-demo" "repository" "2026-01-01T00:00:00.000Z".

Definition fixture_aeo : FilesystemAEO :=
  default CANONICAL_FILESYSTEM_AEO_FIXTURE
    (compileFilesystemWriteAEO (Some fixture_atao) fixture_binding).

Lemma compile_spec_witness :
  operation (target fixture_aeo) = "modify" ∧ purpose (intent fixture_aeo) = "update seed".
Proof.
  destruct (compile_spec fixture_atao fixture_binding fixture_aeo eq_refl) as (Hp & _).
  split; [reflexivity|exact Hp].
Defined.

(** ** The execution boundary *)
Section ExecuteSpec.
Context {W : Type} (executor : string → string → W → W).

Lemma execute_some aeo vh atao em w w' p :
  executeFilesystemWrite executor (Some aeo) vh (Some atao) em w = (w', Some p) →
  validated_object_hash p = str_or_empty vh
  ∧ executed_object_hash p = computeFilesystemAEOHash aeo
  ∧ proof_id p = sha256_id (proof_body_js p)
  ∧ match proof_result p with
    | EXECUTED => validated_object_hash p = executed_object_hash p
        ∧ w' = executor (path (target aeo)) (param_content atao) w ∧ null_reason p = None
    | NULL => validated_object_hash p ≠ executed_object_hash p ∧ w' = w
        ∧ null_reason p = Some "OBJECT_HASH_MISMATCH"
    end.
Proof.
  unfold executeFilesystemWrite. intros E.
  destruct (is_non_blank vh), (is_non_blank em); simpl in E; try done.
  destruct (String.eqb _ _) eqn:Eh; simpl in E; boolify; simplify_eq; simpl; naive_solver.
Qed.

Lemma execute_none aeo vh atao em w w' :
  executeFilesystemWrite executor aeo vh atao em w = (w', None) → w' = w.
Proof.
  unfold executeFilesystemWrite. destruct aeo, atao; try naive_solver.
  destruct (is_non_blank vh), (is_non_blank em); simpl; try naive_solver.
  destruct (String.eqb _ _); simpl; naive_solver.
Qed.
End ExecuteSpec.

(** C32. Exact object: when an AEO was validated under its digest and the
    boundary reports EXECUTED, the world changed by exactly one call of the
    executor, on the path of the AEO it was given and with the content of the
    captured action; that AEO has the digest of the validated one, and the proof
    names both digests. It is the validated AEO, field for field, unless the
    texts of these two AEOs are a collision of SHA-256. In every other case the
    executor is not called, and a NULL proof means that the digests differ. *)
Theorem execute_exact_object {W} (executor : string → string → W → W)
    validated aeo atao em w w' p :
  aeo_wf validated = true → finite_limits validated = true →
  executeFilesystemWrite executor aeo (JStr (computeFilesystemAEOHash validated)) atao em w
  = (w', p) →
  match p with
  | Some q => ∃ ex a,
      aeo = Some ex ∧ atao = Some a
      ∧ validated_object_hash q = computeFilesystemAEOHash validated
      ∧ executed_object_hash q = computeFilesystemAEOHash ex
      ∧ match proof_result q with
        | EXECUTED =>
            computeFilesystemAEOHash ex = computeFilesystemAEOHash validated
            ∧ w' = executor (path (target ex)) (param_content a) w
            ∧ (ex = validated
               ∨ collision_in [canonicalize (aeo_js validated); canonicalize (aeo_js ex)])
        | NULL =>
            computeFilesystemAEOHash ex ≠ computeFilesystemAEOHash validated ∧ w' = w
        end
  | None => w' = w
  end.
Proof.
  intros Hwf Hfin E. destruct p as [q|]; [|by eapply execute_none].
  destruct aeo as [ex|], atao as [a|]; try done.
  apply execute_some in E as (Hv & He & _ & Hr). simpl in Hv. exists ex, a.
  do 4 (split; [done|]). destruct (proof_result q); destruct Hr as (Heq & Hw & _); rewrite Hv, He in Heq.
  2:{ split; [congruence|done]. }
  split; [done|]. split; [done|]. destruct (sha256_id_binding _ _ Heq) as [En|]; [left|by right].
  symmetry. by apply aeo_js_inj.
Qed.

(** A concrete execution, logging the writes. *)
Definition fixture_run :=
  executeFilesystemWrite (λ p c l, (p, c) :: l) (Some CANONICAL_FILESYSTEM_AEO_FIXTURE)
    (JStr (computeFilesystemAEOHash CANONICAL_FILESYSTEM_AEO_FIXTURE)) (Some fixture_atao)
    (JStr "2026-01-01T00:00:00.000Z") [].

Lemma fixture_executes : ∃ pid ai h ta nr em,
  fixture_run = ([("src/example.ts", "hello")],
    Some (mkProof pid ai h h h "src/example.ts" ta EXECUTED nr em)).
Proof.
  unfold fixture_run, executeFilesystemWrite, computeFilesystemAEOHash, with_id. simpl.
  autorewrite with js. simpl. repeat eexists.
Qed.

Lemma execute_exact_object_witness :
  fixture_run.1 = [("src/example.ts", "hello")].
Proof.
  destruct fixture_executes as (pid & ai & h & ta & nr & em & E).
  pose proof (execute_exact_object _ CANONICAL_FILESYSTEM_AEO_FIXTURE _ _ _ _ _ _
    eq_refl eq_refl E) as (ex & a & [= <-] & [= <-] & _ & _ & _ & H & _).
  rewrite E. exact H.
Defined.
