(* ===== verification/CanonicalAeo.v ===== *)
(** Projection of a filesystem AEO into the canonical five-section AEO:
    [src/lib/compile-canonical-aeo.ts]. *)
From Stdlib Require Import ZArith NArith Lia Ascii.
From stdpp Require Import base list strings pretty gmap.
From S2P Require Import Prelude JsValue Sha256 Canonical ContinuityCore FilesystemAeo.

(** All five sections carry the same [authority_id], held once. *)
Record CanonicalAEO := mkCanonical {
  authority_id : string;
  c_proof_required : bool;
  c_proof_type : string;
  c_value : string;
  c_bounds : list string;
  c_operation : string;
  c_path : string;
  c_system : string;
  c_decision_id : string;
  c_object_hash : option string;
  c_proposed_diff_hash : string;
  c_replay_nonce : string
}.

Definition canonical_js (c : CanonicalAEO) : jsval :=
  let auth := ("authority_id", JStr (authority_id c)) in
  JObj
    [("finality", JObj [auth; ("proof_required", JBool (c_proof_required c));
                        ("proof_type", JStr (c_proof_type c))]);
     ("intent", JObj [auth; ("value", JStr (c_value c))]);
     ("scope", JObj [auth; ("bounds", JArr (map JStr (c_bounds c)))]);
     ("target", JObj [("action", JStr (c_operation c)); auth;
                      ("operation", JStr (c_operation c)); ("path", JStr (c_path c));
                      ("system", JStr (c_system c))]);
     ("validation", JObj [auth; ("decision_id", JStr (c_decision_id c));
                          ("object_hash", opt_str (c_object_hash c));
                          ("proposed_diff_hash", JStr (c_proposed_diff_hash c));
                          ("replay_nonce", JStr (c_replay_nonce c))])].

Inductive CanonicalAEOCompilationResult :=
  | CanonicalOk (canonical_aeo : CanonicalAEO) (canonical_aeo_hash : string)
      (context : CanonicalAEOContext)
  | CanonicalDenied (denial_reason : string).

(** Lines 89-92. *)
Definition canonical_bounds (aeo : FilesystemAEO) : list string :=
  ("system:" +:+ "filesystem")
  :: map (λ op, "action:" +:+ to_string op) (allowed_operations (scope aeo)).

(** The canonical AEO with [object_hash] still null: [aeo_for_hash], lines
    94-132. *)
Definition aeo_for_hash (aeo : FilesystemAEO) : CanonicalAEO :=
  mkCanonical (authority_lineage_hash (validation aeo)) (proof_required (finality aeo))
    (proof_type (finality aeo)) (purpose (intent aeo)) (canonical_bounds aeo)
    (operation (target aeo)) (path (target aeo)) "filesystem"
    (decision_id (validation aeo)) None (proposed_diff_hash (validation aeo))
    (replay_nonce (validation aeo)).

Definition with_object_hash (c : CanonicalAEO) (h : string) : CanonicalAEO :=
  mkCanonical (authority_id c) (c_proof_required c) (c_proof_type c) (c_value c) (c_bounds c)
    (c_operation c) (c_path c) (c_system c) (c_decision_id c) (Some h)
    (c_proposed_diff_hash c) (c_replay_nonce c).

Definition compileCanonicalAEOFromFilesystem (aeo : option FilesystemAEO) :
    CanonicalAEOCompilationResult :=
  match aeo with
  | None => CanonicalDenied "NULL_FILESYSTEM_AEO"
  | Some aeo =>
      let canonical_authority_id := authority_lineage_hash (validation aeo) in
      if negb (non_blank canonical_authority_id) then
        CanonicalDenied "MISSING_CANONICAL_AUTHORITY_ID"
      else
        let object_hash := hashCanonical (canonical_js (aeo_for_hash aeo)) in
        let canonical_aeo := with_object_hash (aeo_for_hash aeo) object_hash in
        CanonicalOk canonical_aeo (sha256_id (canonical_js canonical_aeo))
          (mkContext canonical_authority_id (canonical_bounds aeo))
  end.

(** * Theorems *)

Lemma json_clone_strings l : json_clone (JArr (map JStr l)) = JArr (map JStr l).
Proof. simpl. f_equal. induction l as [|s l IH]; simpl; [done|]. by f_equal. Qed.

Lemma json_clone_arr l : json_clone (JArr l) = JArr (map json_clone l).
Proof. reflexivity. Qed.

(** Cloning loses nothing of a canonical AEO, and hashing nulls the stored
    hash. *)
Lemma canonical_for_hash c h :
  aeoObjectForHash (canonical_js (with_object_hash c h)) =
    canonical_js (mkCanonical (authority_id c) (c_proof_required c) (c_proof_type c) (c_value c)
      (c_bounds c) (c_operation c) (c_path c) (c_system c) (c_decision_id c) None
      (c_proposed_diff_hash c) (c_replay_nonce c)).
Proof.
  unfold aeoObjectForHash, canonical_js. cbn -[json_clone_arr map].
  pose proof (json_clone_strings (c_bounds c)) as Hb. cbn in Hb. injection Hb as Hb.
  rewrite Hb. reflexivity.
Qed.

Lemma canonical_bounds_ok aeo :
  bounds_ok (JArr (map JStr (canonical_bounds aeo))) (canonical_bounds aeo) = true.
Proof.
  apply bounds_ok_spec. eexists _, _. split; [reflexivity|].
  intros x Hx. change (x ∈ map JStr (canonical_bounds aeo)) in Hx.
  apply list_elem_of_In, in_map_iff in Hx as (s & <- & Hs). exists s.
  split; [done|]. split; [|by apply list_elem_of_In].
  unfold canonical_bounds in Hs. destruct Hs as [<-|Hs]; [by apply visible_non_blank|].
  apply in_map_iff in Hs as (op & <- & _). by apply visible_non_blank.
Qed.

Lemma compile_canonical_ok aeo c h ctx :
  compileCanonicalAEOFromFilesystem (Some aeo) = CanonicalOk c h ctx →
  non_blank (authority_lineage_hash (validation aeo)) = true
  ∧ c = with_object_hash (aeo_for_hash aeo) (hashCanonical (canonical_js (aeo_for_hash aeo)))
  ∧ h = sha256_id (canonical_js c)
  ∧ ctx = mkContext (authority_lineage_hash (validation aeo)) (canonical_bounds aeo).
Proof.
  unfold compileCanonicalAEOFromFilesystem.
  destruct (non_blank _); [|done]. simpl. by intros [= <- <- <-].
Qed.

Lemma canonical_valid aeo c h ctx :
  compileCanonicalAEOFromFilesystem (Some aeo) = CanonicalOk c h ctx →
  validateAeo (canonical_js c) ctx = VALID.
Proof.
  intros (_ & -> & _ & ->)%compile_canonical_ok. apply validateAeo_complete.
  - reflexivity.
  - reflexivity.
  - intros k Hk. unfold REQUIRED_AEO_FIELDS in Hk.
    rewrite !elem_of_cons, elem_of_nil in Hk. destruct_or? Hk; subst; done.
  - apply canonical_bounds_ok.
  - apply hashCanonical_length.
  - unfold computed_hash. rewrite canonical_for_hash. reflexivity.
Qed.

(** The projection satisfies the canonical contract: whenever it succeeds,
    which is exactly when the authority lineage hash is not blank, the canonical
    AEO it returns is VALID in the context it returns, so the canonical stage of
    the gateway never rejects a projected AEO. *)
Theorem compile_canonical_valid aeo :
  (non_blank (authority_lineage_hash (validation aeo)) = true ↔
     ∃ c h ctx, compileCanonicalAEOFromFilesystem (Some aeo) = CanonicalOk c h ctx)
  ∧ ∀ c h ctx, compileCanonicalAEOFromFilesystem (Some aeo) = CanonicalOk c h ctx →
      validateAeo (canonical_js c) ctx = VALID ∧ h = sha256_id (canonical_js c).
Proof.
  split; [split|].
  - intros H. unfold compileCanonicalAEOFromFilesystem. rewrite H. simpl. eauto.
  - intros (c & h & ctx & H). by apply compile_canonical_ok in H as (? & _).
  - intros c h ctx H. split; [by eapply canonical_valid|].
    by apply compile_canonical_ok in H as (_ & _ & ? & _).
Qed.

(** The sections of a canonical AEO are rigid: its normal form determines it. *)
Ltac section_carries E k :=
  let H := fresh in
  pose proof (normalize_get _ _ k ltac:(discriminate) E) as H;
  apply carries_rigid in H as [_ H];
  [ simpl in H;
    repeat match goal with H : Forall _ (_ :: _) |- _ => apply Forall_cons in H as [? H] end
  | csimpl; apply (bool_decide_unpack _); vm_compute; exact I
  | repeat constructor; try done; apply strings_rigid ].

Lemma canonical_js_inj c d h g :
  normalize (canonical_js (with_object_hash c h)) = normalize (canonical_js (with_object_hash d g)) →
  with_object_hash c h = with_object_hash d g.
Proof.
  intros E. destruct c, d.
  section_carries E "finality". section_carries E "intent". section_carries E "scope".
  section_carries E "target". section_carries E "validation".
  simpl in *.
  assert (∀ l m, map JStr l = map JStr m → l = m) as Hinj.
  { induction l as [|x l IH]; intros [|y m]; simpl; try done. intros [= -> ?]. f_equal; auto. }
  repeat match goal with H : JArr _ = JArr _ |- _ => injection H as H; apply Hinj in H end.
  unfold with_object_hash; simpl. simplify_eq. done.
Qed.

(** What the canonical hash binds: two filesystem AEOs with the same
    canonical hash agree on authority lineage, decision, nonce, path, operation,
    purpose, declared diff hash, proof requirement and namespaced bounds, or
    their two hashed texts are a collision of SHA-256. *)
Theorem canonical_hash_binding a b ca cb h xa xb :
  compileCanonicalAEOFromFilesystem (Some a) = CanonicalOk ca h xa →
  compileCanonicalAEOFromFilesystem (Some b) = CanonicalOk cb h xb →
  aeo_for_hash a = aeo_for_hash b
  ∨ collision_in [canonicalize (canonical_js ca); canonicalize (canonical_js cb)].
Proof.
  intros (_ & -> & -> & _)%compile_canonical_ok (_ & -> & E & _)%compile_canonical_ok.
  destruct (sha256_id_binding _ _ E) as [En|]; [left|by right].
  apply canonical_js_inj in En. injection En; intros.
  unfold aeo_for_hash; f_equal; try assumption. unfold canonical_bounds. by f_equal.
Qed.

Definition fixture_compiled : CanonicalAEOCompilationResult :=
  compileCanonicalAEOFromFilesystem (Some CANONICAL_FILESYSTEM_AEO_FIXTURE).

Lemma canonical_hash_binding_witness :
  ∃ c h x, fixture_compiled = CanonicalOk c h x ∧
    (aeo_for_hash CANONICAL_FILESYSTEM_AEO_FIXTURE
     = aeo_for_hash CANONICAL_FILESYSTEM_AEO_FIXTURE
     ∨ collision_in [canonicalize (canonical_js c); canonicalize (canonical_js c)]).
Proof.
  unfold fixture_compiled, compileCanonicalAEOFromFilesystem.
  eexists _, _, _. split; [reflexivity|].
  eapply (canonical_hash_binding CANONICAL_FILESYSTEM_AEO_FIXTURE
    CANONICAL_FILESYSTEM_AEO_FIXTURE); reflexivity.
Defined.
