(* ===== verification/ExecutionEligibility.v ===== *)
(** The execution-eligibility continuity gate:
    [runtime/lineage/executionEligibility.mjs].

    [Date.parse] and the clock are parameters: the interpretation of date
    strings is not defined by the repository. *)
From Stdlib Require Import ZArith NArith Lia Ascii.
From stdpp Require Import base list strings pretty gmap.
From S2P Require Import Prelude JsValue Sha256 Canonical.

(** [str(v)]. *)
Definition str (v : jsval) : string :=
  match v with
  | JStr s => s
  | JUndef | JNull => EmptyString
  | _ => to_string v
  end.

(** [a < b] on numbers. *)
Definition num_lt (a b : jsnum) : bool :=
  match a, b with
  | NInt x, NInt y => Z.ltb x y
  | NInt _, NInf neg => negb neg
  | NInf neg, NInt _ => neg
  | NInf neg, NInf neg' => neg && negb neg'
  | _, _ => false
  end.

Definition GENESIS_OBJECT_HASH : string :=
  hashCanonical (JObj [("genesis", JBool true); ("lineage", JStr "EXECUTION_ELIGIBILITY")]).

Definition GENESIS_EXECUTION_STATE : jsval :=
  JObj [("continuity_id", JStr EmptyString); ("parent_continuity_id", JStr EmptyString);
        ("validated_object_hash", JStr GENESIS_OBJECT_HASH);
        ("executed_object_hash", JStr GENESIS_OBJECT_HASH);
        ("proof_hash", JStr EmptyString); ("status", JStr "ACTIVE");
        ("expires_at", JStr EmptyString); ("revoked_at", JStr EmptyString);
        ("is_genesis", JBool true)].

Inductive eligibility_reason :=
  | UNVALIDATED_CURRENT
  | CURRENT_INVARIANT_BROKEN
  | PRIOR_INVARIANT_BROKEN
  | UNINHERITED_EXECUTED_STATE
  | BROKEN_CONTINUITY
  | REVOKED_LINEAGE
  | EXPIRED_LINEAGE
  | REPLAYED_NONCE.

#[export] Instance eligibility_reason_eq_dec : EqDecision eligibility_reason.
Proof. solve_decision. Defined.

(** [if (c) null_reasons.push(r)]. *)
Definition when (c : bool) (r : eligibility_reason) : list eligibility_reason :=
  if c then [r] else [].

Section Gate.
Context (date_parse : string → option Z) (date_now : Z).

Definition isExpired (expires_at : jsval) (nowMs : jsnum) : bool :=
  let raw := str expires_at in
  if is_empty_str raw then false
  else match date_parse raw with
       | None => false
       | Some t => num_lt (NInt t) nowMs
       end.

(** Lines 83-88. *)
Definition now_ms (now : jsval) : jsnum :=
  match now with
  | JNum n => n
  | _ =>
      if truthy now then
        match date_parse (to_string now) with Some t => NInt t | None => NNaN end
      else NInt date_now
  end.

(** The decision: [eligibility] is ELIGIBLE when the list of reasons is empty. *)
Definition classifyExecutionEligibility (prior current : jsval) (now : jsval)
    (consumed_nonces : list jsval) : list eligibility_reason :=
  let priorState := if nullish prior then GENESIS_EXECUTION_STATE else prior in
  let nowMs := now_ms now in
  let consumed := map str consumed_nonces in
  let validated := str (get current "validated_object_hash") in
  let executed := str (get current "executed_object_hash") in
  when (is_empty_str validated) UNVALIDATED_CURRENT
  ++ when (negb (is_empty_str executed) && negb (String.eqb executed validated))
       CURRENT_INVARIANT_BROKEN
  ++ when (negb (String.eqb (str (get priorState "validated_object_hash"))
                            (str (get priorState "executed_object_hash"))))
       PRIOR_INVARIANT_BROKEN
  ++ when (negb (String.eqb (str (get current "parent_executed_object_hash"))
                            (str (get priorState "executed_object_hash"))))
       UNINHERITED_EXECUTED_STATE
  ++ when (negb (String.eqb (str (get current "parent_continuity_id"))
                            (str (get priorState "continuity_id"))))
       BROKEN_CONTINUITY
  ++ when (negb (is_empty_str (str (get priorState "revoked_at")))
           || negb (String.eqb (str (js_or (get priorState "status") (JStr "ACTIVE"))) "ACTIVE"))
       REVOKED_LINEAGE
  ++ when (isExpired (get priorState "expires_at") nowMs) EXPIRED_LINEAGE
  ++ when (negb (is_empty_str (str (get current "nonce")))
           && str_in (str (get current "nonce")) consumed)
       REPLAYED_NONCE.

Definition eligibilityCarry (current : jsval) : jsval :=
  let executed := str (get current "executed_object_hash") in
  let validated := str (get current "validated_object_hash") in
  JObj [("continuity_id", JStr (str (get current "continuity_id")));
        ("parent_continuity_id", JStr (str (get current "parent_continuity_id")));
        ("validated_object_hash", JStr validated);
        ("executed_object_hash", JStr (if is_empty_str executed then validated else executed));
        ("proof_hash", JStr (str (get current "proof_hash")));
        ("status", JStr (str (js_or (get current "status") (JStr "ACTIVE"))));
        ("expires_at", JStr (str (get current "expires_at")));
        ("revoked_at", JStr (str (get current "revoked_at")))].

(** * Theorems *)

Lemma when_nil c r : when c r = [] ↔ c = false.
Proof. by destruct c. Qed.

(** The predicates of the gate. *)
Record eligible (prior current now : jsval) (consumed : list jsval) : Prop := mkEligible {
  el_validated : str (get current "validated_object_hash") ≠ EmptyString;
  el_current : str (get current "executed_object_hash") = EmptyString
    ∨ str (get current "executed_object_hash") = str (get current "validated_object_hash");
  el_prior : str (get prior "validated_object_hash") = str (get prior "executed_object_hash");
  el_inherits : str (get current "parent_executed_object_hash")
    = str (get prior "executed_object_hash");
  el_continuity : str (get current "parent_continuity_id") = str (get prior "continuity_id");
  el_live : str (get prior "revoked_at") = EmptyString
    ∧ str (js_or (get prior "status") (JStr "ACTIVE")) = "ACTIVE";
  el_unexpired : isExpired (get prior "expires_at") (now_ms now) = false;
  el_nonce : str (get current "nonce") = EmptyString
    ∨ str (get current "nonce") ∉ map str consumed
}.

Lemma negb_eqb_false a b : negb (String.eqb a b) = false ↔ a = b.
Proof. rewrite negb_false_iff. apply String.eqb_eq. Qed.

Lemma gate_iff prior current now consumed :
  classifyExecutionEligibility prior current now consumed = [] ↔
    eligible (if nullish prior then GENESIS_EXECUTION_STATE else prior) current now consumed.
Proof.
  unfold classifyExecutionEligibility. set (p := if nullish prior then _ else _).
  rewrite !app_nil, !when_nil, !negb_eqb_false, !orb_false_iff, !negb_eqb_false,
    !andb_false_iff, !negb_false_iff, !is_empty_str_true, is_empty_str_false.
  rewrite String.eqb_eq. split.
  - intros (H1 & H2 & H3 & H4 & H5 & [H6 H6'] & H7 & H8). constructor; try done.
    destruct H8 as [H8|H8]; [by left|right]. rewrite <- str_in_elem. congruence.
  - intros [H1 H2 H3 H4 H5 [H6 H6'] H7 H8]. repeat split; try done.
    destruct H8 as [H8|H8]; [by left|right].
    apply not_true_iff_false. by rewrite str_in_elem.
Qed.
(** The gate answers ELIGIBLE exactly when every inheritance predicate
    holds against the prior head (the genesis state when there is none). *)
Theorem eligibility_spec prior current now consumed :
  classifyExecutionEligibility prior current now consumed = [] ↔
    eligible (if nullish prior then GENESIS_EXECUTION_STATE else prior) current now consumed.
Proof. apply gate_iff. Qed.

(** Runs admitted one after the other on a lineage, newest first: each is
    eligible against the carry of the one before, with the nonces of all before
    consumed. *)
Inductive admitted : jsval → list jsval → Prop :=
  | admitted_root : admitted JNull []
  | admitted_next head runs current now :
      admitted head runs →
      classifyExecutionEligibility head current now (map (λ r, get r "nonce") runs) = [] →
      admitted (eligibilityCarry current) (current :: runs).

(** The object a run executed: the one it asserts, or the validated one. *)
Definition executed_of (run : jsval) : string :=
  let executed := str (get run "executed_object_hash") in
  if is_empty_str executed then str (get run "validated_object_hash") else executed.

(** Each run inherits the executed object and the identity of the one before;
    the first one those of the genesis state. *)
Fixpoint inherits (runs : list jsval) : Prop :=
  match runs with
  | [] => True
  | run :: older =>
      str (get run "parent_executed_object_hash")
        = match older with [] => GENESIS_OBJECT_HASH | prev :: _ => executed_of prev end
      ∧ str (get run "parent_continuity_id")
        = match older with [] => EmptyString | prev :: _ => str (get prev "continuity_id") end
      ∧ inherits older
  end.

Lemma admitted_head head runs :
  admitted head runs →
  match runs with [] => head = JNull | run :: _ => head = eligibilityCarry run end.
Proof. by destruct 1. Qed.

(** Runtime lineage: along any sequence of admitted runs the executed
    object is the validated one, each run inherits the executed object of its
    predecessor down to the genesis object, and no nonce is admitted twice. *)
Theorem admitted_lineage head runs :
  admitted head runs →
  inherits runs
  ∧ Forall (λ r, executed_of r = str (get r "validated_object_hash")) runs
  ∧ NoDup (List.filter (λ n, negb (is_empty_str n)) (map (λ r, str (get r "nonce")) runs)).
Proof.
  induction 1 as [|head runs current now Hadm (IHi & IHe & IHn) Hel]; [by repeat constructor|].
  apply gate_iff in Hel. pose proof (admitted_head _ _ Hadm) as Hhead.
  destruct Hel as [Hv Hc Hp Hi Hid _ _ Hn]. split; [|split].
  - simpl. split; [|split; [|done]].
    + destruct runs as [|run older]; subst head; [done|]. done.
    + destruct runs as [|run older]; subst head; done.
  - constructor; [|done]. unfold executed_of.
    destruct (is_empty_str _) eqn:E; [done|]. apply is_empty_str_false in E. tauto.
  - simpl. destruct (is_empty_str (str (get current "nonce"))) eqn:E; simpl; [done|].
    constructor; [|done]. apply is_empty_str_false in E.
    destruct Hn as [Hn|Hn]; [done|]. rewrite map_map in Hn.
    intros Hin. apply Hn. apply list_elem_of_In in Hin. apply filter_In in Hin as [Hin _].
    by apply list_elem_of_In.
Qed.
End Gate.

(** Two runs of a lineage, the second inheriting the first. *)
Definition fixture_run_1 : jsval :=
  JObj [("continuity_id", JStr "c1"); ("parent_continuity_id", JStr EmptyString);
        ("parent_executed_object_hash", JStr GENESIS_OBJECT_HASH);
        ("validated_object_hash", JStr "sha256:one"); ("nonce", JStr "n1")].

Definition fixture_run_2 : jsval :=
  JObj [("continuity_id", JStr "c2"); ("parent_continuity_id", JStr "c1");
        ("parent_executed_object_hash", JStr "sha256:one");
        ("validated_object_hash", JStr "sha256:two"); ("nonce", JStr "n2")].

Lemma admitted_lineage_witness :
  admitted (λ _, None) 0 (eligibilityCarry fixture_run_2) [fixture_run_2; fixture_run_1]
  ∧ inherits [fixture_run_2; fixture_run_1].
Proof.
  assert (admitted (λ _, None) 0 (eligibilityCarry fixture_run_2) [fixture_run_2; fixture_run_1])
    as H.
  { eapply (admitted_next _ _ _ _ _ JUndef); [eapply (admitted_next _ _ _ _ _ JUndef)|].
    - constructor.
    - apply gate_iff. constructor; try done; try (by left); right; simpl; set_solver.
    - apply gate_iff. constructor; try done; try (by left); right; simpl; set_solver. }
  split; [exact H|]. apply (proj1 (admitted_lineage _ _ _ _ H)).
Defined.
