(* ===== verification/Adapter.v ===== *)
(** The adapter boundary: [src/lib/adapter-contract.ts] and the filesystem
    adapter [src/lib/filesystem-execution-adapter.ts].

    [executeWithAdapter] is the only place where a proof receipt is made. The
    adapter is an interface: a synchronous effect on a world [W] that answers
    with evidence. *)
From Stdlib Require Import ZArith NArith Lia Ascii.
From stdpp Require Import base list strings pretty gmap.
From S2P Require Import Prelude JsValue Sha256 Canonical ExecutionEligibility.

(** * Types *)

Record AdapterExecutionContext := mkAdapterContext {
  ctx_validated_object_hash : string;
  ctx_emitted_at : string
}.

Inductive AdapterNullReason :=
  | NULL_AEO_INPUT
  | NULL_VALIDATED_HASH
  | NULL_EXECUTOR
  | NULL_EMITTED_AT
  | AEO_SHAPE_INVALID
  | OBJECT_HASH_MISMATCH
  | EXECUTOR_RETURNED_NULL
  | EVIDENCE_MISSING_EXECUTION_ID
  | EVIDENCE_MISSING_EXECUTED_AT
  | EVIDENCE_SURFACE_MISMATCH
  | EVIDENCE_ADAPTER_SPECIFIC_NULL
  | NULL_CONTINUITY_CONTEXT
  | EXECUTION_NOT_ELIGIBLE
  | STORED_CHAIN_INVALID.

#[export] Instance null_reason_eq_dec : EqDecision AdapterNullReason.
Proof. solve_decision. Defined.

Definition null_reason_str (r : AdapterNullReason) : string :=
  match r with
  | NULL_AEO_INPUT => "NULL_AEO_INPUT"
  | NULL_VALIDATED_HASH => "NULL_VALIDATED_HASH"
  | NULL_EXECUTOR => "NULL_EXECUTOR"
  | NULL_EMITTED_AT => "NULL_EMITTED_AT"
  | AEO_SHAPE_INVALID => "AEO_SHAPE_INVALID"
  | OBJECT_HASH_MISMATCH => "OBJECT_HASH_MISMATCH"
  | EXECUTOR_RETURNED_NULL => "EXECUTOR_RETURNED_NULL"
  | EVIDENCE_MISSING_EXECUTION_ID => "EVIDENCE_MISSING_EXECUTION_ID"
  | EVIDENCE_MISSING_EXECUTED_AT => "EVIDENCE_MISSING_EXECUTED_AT"
  | EVIDENCE_SURFACE_MISMATCH => "EVIDENCE_SURFACE_MISMATCH"
  | EVIDENCE_ADAPTER_SPECIFIC_NULL => "EVIDENCE_ADAPTER_SPECIFIC_NULL"
  | NULL_CONTINUITY_CONTEXT => "NULL_CONTINUITY_CONTEXT"
  | EXECUTION_NOT_ELIGIBLE => "EXECUTION_NOT_ELIGIBLE"
  | STORED_CHAIN_INVALID => "STORED_CHAIN_INVALID"
  end.

(** The inherited lineage head a receipt binds. *)
Record LineageBinding := mkLineage {
  lb_continuity_id : string;
  lb_parent_continuity_id : string;
  lb_parent_executed_object_hash : string
}.

Record AdapterProofReceipt := mkReceipt {
  receipt_id : string;
  validated_object_hash : string;
  executed_object_hash : string;
  execution_evidence_hash : string;
  adapter_surface : jsval;
  receipt_decision_id : jsval;
  receipt_replay_nonce : jsval;
  receipt_emitted_at : string;
  lineage_binding : option LineageBinding
}.

(** [receiptBody], lines 321-333. *)
Definition receipt_body_js (r : AdapterProofReceipt) : jsval :=
  JObj ([("validated_object_hash", JStr (validated_object_hash r));
         ("executed_object_hash", JStr (executed_object_hash r));
         ("execution_evidence_hash", JStr (execution_evidence_hash r));
         ("adapter_surface", adapter_surface r);
         ("decision_id", receipt_decision_id r); ("replay_nonce", receipt_replay_nonce r);
         ("execution_result", JStr "EXECUTED"); ("creates_authority", JBool false);
         ("emitted_at", JStr (receipt_emitted_at r))]
    ++ match lineage_binding r with
       | None => []
       | Some b =>
           [("continuity_id", JStr (lb_continuity_id b));
            ("parent_continuity_id", JStr (lb_parent_continuity_id b));
            ("parent_executed_object_hash", JStr (lb_parent_executed_object_hash b));
            ("lineage_eligibility", JStr "ELIGIBLE")]
       end).

Inductive AdapterExecutionOutcome :=
  | Executed (receipt : AdapterProofReceipt)
  | NullResult (reason : AdapterNullReason) (lineage_null_reasons : list eligibility_reason)
  | Throws.

Record ContinuityGateContext := mkContinuity {
  prior : jsval;
  consumed_nonces : list jsval;
  gate_now : jsval
}.

Definition ADAPTER_AEO_REQUIRED_KEYS : list string :=
  ["finality"; "intent"; "scope"; "target"; "validation"].

(** The keys are sorted, so pairwise equality at equal length is equality. *)
Definition hasExactAEOShape (aeo : jsval) : bool :=
  bool_decide (sorted_keys aeo = ADAPTER_AEO_REQUIRED_KEYS).

Definition computeAdapterAEOHash (aeo : jsval) : string := sha256_id aeo.

(** [a !== b] on the strings the boundary compares. *)
Definition strict_ne (a b : jsval) : bool := negb (bool_decide (a = b)).

(** What [execute] does: evidence ([null] included) or an exception. *)
Inductive execute_answer := Evidence (e : jsval) | ExecuteThrows.

(** * The interface of an adapter *)
Class AdapterContract (W : Type) := {
  execute : jsval → AdapterExecutionContext → W → W * execute_answer
}.

Section Boundary.
Context {W : Type} (date_parse : string → option Z) (date_now : Z).

(** Lines 271-304: the continuity gate. *)
Inductive gate_result :=
  | GateOpen (binding : option LineageBinding)
  | GateClosed (reason : AdapterNullReason) (reasons : list eligibility_reason).

Definition continuity_gate (aeo : jsval) (validated : string)
    (continuity : option ContinuityGateContext) : gate_result :=
  let validation := get aeo "validation" in
  let lineageKey :=
    if is_non_blank (get validation "lineage_key")
    then js_trim (str_or_empty (get validation "lineage_key")) else EmptyString in
  if is_empty_str lineageKey then GateOpen None
  else
    match continuity with
    | None => GateClosed NULL_CONTINUITY_CONTEXT []
    | Some c =>
        let current := JObj
          [("lineage_key", JStr lineageKey);
           ("continuity_id", get validation "continuity_id");
           ("parent_continuity_id", get validation "parent_continuity_id");
           ("parent_executed_object_hash", get validation "parent_executed_object_hash");
           ("validated_object_hash", JStr validated);
           ("nonce", get validation "replay_nonce")] in
        match classifyExecutionEligibility date_parse date_now (prior c) current
                (gate_now c) (consumed_nonces c) with
        | [] => GateOpen (Some (mkLineage
            (to_string (js_coalesce (get validation "continuity_id") (JStr EmptyString)))
            (to_string (js_coalesce (get validation "parent_continuity_id") (JStr EmptyString)))
            (to_string (js_coalesce (get validation "parent_executed_object_hash")
              (JStr EmptyString)))))
        | reasons => GateClosed EXECUTION_NOT_ELIGIBLE reasons
        end
    end.

(** Lines 312-337: evidence checks and receipt construction. *)
Definition emit_receipt (aeo : jsval) (validated recomputed emitted_at : string)
    (binding : option LineageBinding) (evidence : jsval) : AdapterExecutionOutcome :=
  if negb (truthy evidence) then NullResult EXECUTOR_RETURNED_NULL []
  else if negb (is_non_blank (get evidence "execution_id"))
  then NullResult EVIDENCE_MISSING_EXECUTION_ID []
  else if negb (is_non_blank (get evidence "executed_at"))
  then NullResult EVIDENCE_MISSING_EXECUTED_AT []
  else if nullish (get aeo "target") then Throws
  else if strict_ne (get evidence "adapter_surface") (get (get aeo "target") "system")
  then NullResult EVIDENCE_SURFACE_MISMATCH []
  else if negb (is_record (get evidence "adapter_specific"))
  then NullResult EVIDENCE_ADAPTER_SPECIFIC_NULL []
  else
    let body := mkReceipt EmptyString validated recomputed (sha256_id evidence)
      (get evidence "adapter_surface") (get (get aeo "validation") "decision_id")
      (get (get aeo "validation") "replay_nonce") emitted_at binding in
    Executed (mkReceipt (sha256_id (receipt_body_js body)) validated recomputed
      (sha256_id evidence) (get evidence "adapter_surface")
      (get (get aeo "validation") "decision_id")
      (get (get aeo "validation") "replay_nonce") emitted_at binding).

Definition executeWithAdapter (aeo validated_object_hash : jsval)
    (executor : option (AdapterContract W)) (emitted_at : jsval)
    (continuity : option ContinuityGateContext) (w : W) : W * AdapterExecutionOutcome :=
  if negb (truthy aeo) then (w, NullResult NULL_AEO_INPUT [])
  else if negb (is_non_blank validated_object_hash) then (w, NullResult NULL_VALIDATED_HASH [])
  else
    match executor with
    | None => (w, NullResult NULL_EXECUTOR [])
    | Some adapter =>
        if negb (is_non_blank emitted_at) then (w, NullResult NULL_EMITTED_AT [])
        else if negb (hasExactAEOShape aeo) then (w, NullResult AEO_SHAPE_INVALID [])
        else
          let recomputed := computeAdapterAEOHash aeo in
          let validated := str_or_empty validated_object_hash in
          let emitted := str_or_empty emitted_at in
          if negb (String.eqb recomputed validated) then (w, NullResult OBJECT_HASH_MISMATCH [])
          else if nullish (get aeo "validation") then (w, Throws)
          else
            match continuity_gate aeo validated continuity with
            | GateClosed reason reasons => (w, NullResult reason reasons)
            | GateOpen binding =>
                let '(w', answer) := execute aeo (mkAdapterContext validated emitted) w in
                match answer with
                | ExecuteThrows => (w', Throws)
                | Evidence evidence =>
                    (w', emit_receipt aeo validated recomputed emitted binding evidence)
                end
            end
    end.

(** * Filesystem adapter *)
Record FilesystemWriteResult := mkWriteResult {
  execution_id : string;
  executed_at : string;
  bytes_written : Z
}.

Definition FILESYSTEM_ADAPTER_SURFACE : string := "filesystem".

(** The injected writer: an effect on the world that answers with metadata or
    [null]. *)
Definition FilesystemWriter : Type :=
  string → string → W → W * option FilesystemWriteResult.

Definition fs_execute (content : string) (writer : FilesystemWriter) (aeo : jsval)
    (_ : AdapterExecutionContext) (w : W) : W * execute_answer :=
  let target := get aeo "target" in
  if nullish target then (w, ExecuteThrows)
  else if strict_ne (get target "system") (JStr FILESYSTEM_ADAPTER_SURFACE)
  then (w, Evidence JNull)
  else
    match get target "path" with
    | JStr path =>
        if is_empty_str path then (w, Evidence JNull)
        else
          let operation :=
            match get target "operation" with JStr op => op | _ => "write" end in
          let '(w', result) := writer path content w in
          match result with
          | None => (w', Evidence JNull)
          | Some r =>
              (w', Evidence (JObj
                [("execution_id", JStr (execution_id r)); ("executed_at", JStr (executed_at r));
                 ("adapter_surface", JStr FILESYSTEM_ADAPTER_SURFACE);
                 ("adapter_specific", JObj [("bytes_written", jint (bytes_written r));
                    ("path", JStr path); ("operation", JStr operation)])]))
          end
    | _ => (w, Evidence JNull)
    end.

Definition FilesystemExecutionAdapter (content : string) (writer : FilesystemWriter) :
    AdapterContract W :=
  {| execute := fs_execute content writer |}.

Definition executeFilesystemAdapter (aeo : jsval) (validated_object_hash content : string)
    (writer : FilesystemWriter) (emitted_at : string) (w : W) : W * AdapterExecutionOutcome :=
  executeWithAdapter aeo (JStr validated_object_hash)
    (Some (FilesystemExecutionAdapter content writer)) (JStr emitted_at) None w.
End Boundary.

Arguments AdapterContract W : clear implicits.

(** * Theorems *)
Section BoundaryTheorems.
Context {W : Type} (date_parse : string → option Z) (date_now : Z) (adapter : AdapterContract W).

(** What the checks before the adapter call establish. *)
Record admitted_call (aeo vh em : jsval) (continuity : option ContinuityGateContext)
    (binding : option LineageBinding) : Prop := mkAdmitted {
  ac_shape : sorted_keys aeo = ADAPTER_AEO_REQUIRED_KEYS;
  ac_hash : vh = JStr (sha256_id aeo);
  ac_emitted : is_non_blank em = true;
  ac_gate : continuity_gate date_parse date_now aeo (sha256_id aeo) continuity = GateOpen binding
}.

Lemma executeWithAdapter_cases aeo vh em continuity w :
  (∃ o, executeWithAdapter date_parse date_now aeo vh (Some adapter) em continuity w = (w, o)
     ∧ ∀ r, o ≠ Executed r)
  ∨ ∃ binding, admitted_call aeo vh em continuity binding
     ∧ let '(w', answer) :=
         execute aeo (mkAdapterContext (sha256_id aeo) (str_or_empty em)) w in
       executeWithAdapter date_parse date_now aeo vh (Some adapter) em continuity w =
         (w', match answer with
              | ExecuteThrows => Throws
              | Evidence ev =>
                  emit_receipt aeo (sha256_id aeo) (sha256_id aeo) (str_or_empty em) binding ev
              end).
Proof.
  unfold executeWithAdapter, computeAdapterAEOHash, hasExactAEOShape.
  destruct (truthy aeo); [simpl|left; eexists; split; [reflexivity|done]].
  destruct (is_non_blank vh) eqn:Hvh; [simpl|left; eexists; split; [reflexivity|done]].
  destruct (is_non_blank em) eqn:Hem; [simpl|left; eexists; split; [reflexivity|done]].
  destruct (bool_decide _) eqn:Hs; [simpl|left; eexists; split; [reflexivity|done]].
  destruct (String.eqb _ _) eqn:Hh; [simpl|left; eexists; split; [reflexivity|done]].
  destruct (nullish _); [left; eexists; split; [reflexivity|done]|].
  apply String.eqb_eq in Hh. rewrite <- Hh.
  destruct (continuity_gate _ _ _ _ _) as [binding|] eqn:Hg;
    [|left; eexists; split; [reflexivity|done]].
  right. exists binding. split.
  - constructor; try done; [by apply bool_decide_eq_true in Hs|].
    rewrite Hh. by apply non_blank_str.
  - destruct (execute _ _ w) as [w' answer]. by destruct answer.
Qed.

Lemma emit_receipt_inv aeo v rc em binding ev r :
  emit_receipt aeo v rc em binding ev = Executed r →
  validated_object_hash r = v ∧ executed_object_hash r = rc
  ∧ execution_evidence_hash r = sha256_id ev ∧ lineage_binding r = binding
  ∧ receipt_decision_id r = get (get aeo "validation") "decision_id"
  ∧ receipt_replay_nonce r = get (get aeo "validation") "replay_nonce"
  ∧ adapter_surface r = get (get aeo "target") "system"
  ∧ get ev "adapter_surface" = get (get aeo "target") "system"
  ∧ is_non_blank (get ev "execution_id") = true ∧ is_non_blank (get ev "executed_at") = true
  ∧ receipt_emitted_at r = em
  ∧ receipt_id r = sha256_id (receipt_body_js r).
Proof.
  unfold emit_receipt, strict_ne. intros E.
  destruct (truthy ev); [simpl in E|done].
  destruct (is_non_blank (get ev "execution_id")); [simpl in E|done].
  destruct (is_non_blank (get ev "executed_at")); [simpl in E|done].
  destruct (nullish _); [done|].
  destruct (bool_decide (get ev "adapter_surface" = _)) eqn:Hs; [simpl in E|done].
  destruct (is_record _); [simpl in E|done].
  apply bool_decide_eq_true in Hs. injection E as <-. simpl. by rewrite Hs.
Qed.

(** Exact object at the boundary: a receipt is emitted only for an AEO of
    the exact shape whose recomputed digest is the validated one, after exactly
    one call of the adapter on that very AEO; validated and executed hash in
    the receipt are that digest, decision and nonce come from the AEO, the
    surface is the target system, and the identity is the digest of the body. *)
Theorem receipt_exact_object aeo vh em continuity w w' r :
  executeWithAdapter date_parse date_now aeo vh (Some adapter) em continuity w
    = (w', Executed r) →
  vh = JStr (sha256_id aeo)
  ∧ validated_object_hash r = sha256_id aeo ∧ executed_object_hash r = sha256_id aeo
  ∧ sorted_keys aeo = ADAPTER_AEO_REQUIRED_KEYS
  ∧ (∃ ev, execute aeo (mkAdapterContext (sha256_id aeo) (str_or_empty em)) w = (w', Evidence ev)
       ∧ execution_evidence_hash r = sha256_id ev)
  ∧ receipt_decision_id r = get (get aeo "validation") "decision_id"
  ∧ receipt_replay_nonce r = get (get aeo "validation") "replay_nonce"
  ∧ adapter_surface r = get (get aeo "target") "system"
  ∧ receipt_id r = sha256_id (receipt_body_js r).
Proof.
  intros E.
  destruct (executeWithAdapter_cases aeo vh em continuity w) as [(o & Eo & Ho)|(b & Ha & Hx)].
  - rewrite Eo in E. injection E as <- ->. by destruct (Ho r).
  - destruct (execute _ _ w) as [w1 [ev|]] eqn:Ex; rewrite Hx in E; [|done].
    injection E as <- E. apply emit_receipt_inv in E as (? & ? & ? & ? & ? & ? & ? & _ & _ & _ & _ & ?).
    destruct Ha. repeat split; eauto.
Qed.

(** No valid object, nothing happens: whenever the digest of the AEO differs
    from the validated hash, or its shape is not exact, the adapter is not
    called and no receipt exists. *)
Theorem mismatch_nothing_happens aeo vh em continuity w :
  vh ≠ JStr (sha256_id aeo) ∨ sorted_keys aeo ≠ ADAPTER_AEO_REQUIRED_KEYS →
  ∃ o, executeWithAdapter date_parse date_now aeo vh (Some adapter) em continuity w = (w, o)
    ∧ ∀ r, o ≠ Executed r.
Proof.
  intros H.
  destruct (executeWithAdapter_cases aeo vh em continuity w) as [?|(b & [] & _)]; [done|tauto].
Qed.

(** Declared continuity is enforced: when the AEO names a lineage, a receipt
    exists only if a continuity context was supplied and the run is eligible
    against its head, so the parent object it declares is the prior executed
    object; the receipt binds that lineage head. *)
Theorem receipt_inherits_lineage aeo vh em continuity w w' r k :
  get (get aeo "validation") "lineage_key" = JStr k → non_blank k = true →
  executeWithAdapter date_parse date_now aeo vh (Some adapter) em continuity w
    = (w', Executed r) →
  ∃ c, continuity = Some c ∧
    let head := if nullish (prior c) then GENESIS_EXECUTION_STATE else prior c in
    str (get (get aeo "validation") "parent_executed_object_hash")
      = str (get head "executed_object_hash")
    ∧ str (get head "validated_object_hash") = str (get head "executed_object_hash")
    ∧ str (get (get aeo "validation") "parent_continuity_id") = str (get head "continuity_id")
    ∧ str (js_or (get head "status") (JStr "ACTIVE")) = "ACTIVE"
    ∧ (str (get (get aeo "validation") "replay_nonce") = EmptyString
       ∨ str (get (get aeo "validation") "replay_nonce") ∉ map str (consumed_nonces c))
    ∧ lineage_binding r ≠ None.
Proof.
  intros Hk Hb E.
  destruct (executeWithAdapter_cases aeo vh em continuity w) as [(o & Eo & Ho)|(b & Ha & Hx)].
  { rewrite Eo in E. injection E as <- ->. by destruct (Ho r). }
  destruct (execute _ _ w) as [w1 [ev|]]; rewrite Hx in E; [|done].
  injection E as <- E. apply emit_receipt_inv in E as (_ & _ & _ & -> & _).
  destruct Ha as [_ _ _ Hg]. unfold continuity_gate in Hg. rewrite Hk in Hg. simpl in Hg.
  rewrite Hb in Hg. unfold non_blank in Hb. apply negb_true_iff in Hb.
  change (is_empty_str (js_trim k) = false) in Hb. rewrite Hb in Hg.
  destruct continuity as [c|]; [|done]. exists c. split; [done|].
  destruct (classifyExecutionEligibility _ _ _ _ _ _) eqn:Hc; [|done].
  apply gate_iff in Hc as [? ? ? ? ? [? ?] ? ?]. simpl in *. injection Hg as <-. done.
Qed.
End BoundaryTheorems.

(** ** Concrete runs of the filesystem adapter *)
Definition fixture_aeo : jsval :=
  JObj [("finality", JObj []); ("intent", JObj []); ("scope", JObj []);
        ("target", JObj [("system", JStr "filesystem"); ("path", JStr "a.txt");
                         ("operation", JStr "modify")]);
        ("validation", JObj [("decision_id", JStr "D1"); ("replay_nonce", JStr "N1")])].

Definition logging_writer : FilesystemWriter (W := list (string * string)) :=
  λ path content w, ((path, content) :: w, Some (mkWriteResult "fs-write:1" "now" 2)).

Lemma fixture_executed :
  executeWithAdapter (λ _, None) 0 fixture_aeo (JStr (sha256_id fixture_aeo))
    (Some (FilesystemExecutionAdapter "hi" logging_writer)) (JStr "t") None []
  = ([("a.txt", "hi")], emit_receipt fixture_aeo (sha256_id fixture_aeo) (sha256_id fixture_aeo)
      "t" None (JObj
        [("execution_id", JStr "fs-write:1"); ("executed_at", JStr "now");
         ("adapter_surface", JStr "filesystem");
         ("adapter_specific", JObj [("bytes_written", jint 2); ("path", JStr "a.txt");
            ("operation", JStr "modify")])])).
Proof.
  unfold executeWithAdapter, computeAdapterAEOHash. cbn [is_non_blank str_or_empty].
  autorewrite with js. reflexivity.
Qed.

Lemma receipt_exact_object_witness :
  ∃ r, (executeWithAdapter (λ _, None) 0 fixture_aeo (JStr (sha256_id fixture_aeo))
    (Some (FilesystemExecutionAdapter "hi" logging_writer)) (JStr "t") None []).2 = Executed r
    ∧ validated_object_hash r = executed_object_hash r.
Proof.
  rewrite fixture_executed. eexists. split; [reflexivity|].
  destruct (receipt_exact_object (λ _, None) 0 _ _ _ _ _ _ _ _ fixture_executed)
    as (_ & Hv & He & _).
  etransitivity; [exact Hv|symmetry; exact He].
Defined.

Lemma mismatch_nothing_happens_witness :
  ∃ o, executeWithAdapter (λ _, None) 0 fixture_aeo JNull
    (Some (FilesystemExecutionAdapter "hi" logging_writer)) (JStr "t") None [] = ([], o).
Proof.
  destruct (mismatch_nothing_happens (λ _, None) 0
    (FilesystemExecutionAdapter "hi" logging_writer) fixture_aeo JNull (JStr "t") None [])
    as (o & Ho & _); [left; discriminate|].
  exists o. exact Ho.
Defined.

Definition fixture_lineage_aeo : jsval :=
  JObj [("finality", JObj []); ("intent", JObj []); ("scope", JObj []);
        ("target", JObj [("system", JStr "filesystem"); ("path", JStr "a.txt")]);
        ("validation", JObj [("decision_id", JStr "D1"); ("replay_nonce", JStr "N1");
           ("lineage_key", JStr "L"); ("continuity_id", JStr "c1");
           ("parent_continuity_id", JStr EmptyString);
           ("parent_executed_object_hash", JStr GENESIS_OBJECT_HASH)])].

Definition fixture_evidence : jsval :=
  JObj [("execution_id", JStr "fs-write:1"); ("executed_at", JStr "now");
        ("adapter_surface", JStr "filesystem");
        ("adapter_specific", JObj [("bytes_written", jint 2); ("path", JStr "a.txt");
           ("operation", JStr "write")])].

Lemma fixture_lineage_executed :
  executeWithAdapter (λ _, None) 0 fixture_lineage_aeo (JStr (sha256_id fixture_lineage_aeo))
    (Some (FilesystemExecutionAdapter "hi" logging_writer)) (JStr "t")
    (Some (mkContinuity JNull [] JUndef)) []
  = ([("a.txt", "hi")],
     emit_receipt fixture_lineage_aeo (sha256_id fixture_lineage_aeo)
       (sha256_id fixture_lineage_aeo) "t"
       (Some (mkLineage "c1" EmptyString GENESIS_OBJECT_HASH)) fixture_evidence).
Proof.
  unfold executeWithAdapter, computeAdapterAEOHash. cbn [is_non_blank str_or_empty].
  autorewrite with js.
  assert (continuity_gate (λ _, None) 0 fixture_lineage_aeo (sha256_id fixture_lineage_aeo)
    (Some (mkContinuity JNull [] JUndef))
    = GateOpen (Some (mkLineage "c1" EmptyString GENESIS_OBJECT_HASH))) as Hg.
  { unfold continuity_gate. cbn -[classifyExecutionEligibility GENESIS_OBJECT_HASH sha256_id].
    rewrite (proj2 (gate_iff _ _ _ _ _ _)); [reflexivity|].
    constructor; try done; [by left|]. right. apply not_elem_of_nil. }
  cbn -[continuity_gate emit_receipt sha256_id GENESIS_OBJECT_HASH]. rewrite Hg. reflexivity.
Qed.

Lemma receipt_inherits_lineage_witness :
  str (get (get fixture_lineage_aeo "validation") "parent_executed_object_hash")
  = str (get GENESIS_EXECUTION_STATE "executed_object_hash").
Proof.
  destruct (receipt_inherits_lineage (λ _, None) 0 _ fixture_lineage_aeo _ _ _ _ _ _ "L"
    eq_refl eq_refl fixture_lineage_executed) as (c & [= <-] & H & _). exact H.
Defined.
