(* ===== verification/Glob.v ===== *)
(** Path patterns of the filesystem validator: [matchesGlob], [pathMatchesAny]
    and [pathIsInsideRoot] of [src/lib/filesystem-aeo-validator.ts].

    A pattern with a star that is neither a [/**] suffix nor a [*.] prefix is
    turned into a regular expression by three textual replacements, kept here as
    such. The expressions they make of patterns without other metacharacters are
    interpreted below; the rest is left to [re_other]. *)
From Stdlib Require Import ZArith NArith Lia Ascii.
From stdpp Require Import base list strings gmap.
From S2P Require Import Prelude.

(** [s.replace(/c/g, r)] for one character. *)
Fixpoint replace_char (c : ascii) (r s : string) : string :=
  match s with
  | EmptyString => EmptyString
  | String a s' => (if Ascii.eqb a c then r else String a EmptyString) +:+ replace_char c r s'
  end.

(** [s.replace(/cc/g, r)] for a doubled character: leftmost, not overlapping. *)
Fixpoint replace_double (c : ascii) (r s : string) : string :=
  match s with
  | EmptyString => EmptyString
  | String a s1 =>
      match s1 with
      | EmptyString => s
      | String b s2 =>
          if Ascii.eqb a c && Ascii.eqb b c then r +:+ replace_double c r s2
          else String a (replace_double c r s1)
      end
  end.

Definition glob_regex (pattern : string) : string :=
  "^" +:+ replace_char "*" "[^/]*" (replace_double "*" ".*" (replace_char "." "\." pattern))
  +:+ "$".

(** ** Regular expressions of the shape produced *)
Inductive atom :=
  | Lit (c : ascii)
  | AnyChar          (* . *)
  | NotSlashes.      (* [^/]* *)

Definition re_meta (c : ascii) : bool :=
  existsb (Ascii.eqb c) (chars "\^$.*+?()[]{}|").

Fixpoint parse_atoms (s : string) : option (list atom) :=
  match s with
  | "$" => Some []
  | String "\" (String "." s') => option_map (cons (Lit ".")) (parse_atoms s')
  | String "." s' => option_map (cons AnyChar) (parse_atoms s')
  | String "[" (String "^" (String "/" (String "]" (String "*" s')))) =>
      option_map (cons NotSlashes) (parse_atoms s')
  | String c s' => if re_meta c then None else option_map (cons (Lit c)) (parse_atoms s')
  | EmptyString => None
  end.

Definition parse_regex (s : string) : option (list atom) :=
  match s with String "^" s' => parse_atoms s' | _ => None end.

(** The bytes that start a line terminator ([.] does not match one). *)
Definition at_line_end (s : string) : bool :=
  match s with
  | String a s' =>
      (code a =? 10)%N || (code a =? 13)%N
      || match s' with
         | String b (String c _) =>
             ((code a =? 226) && (code b =? 128) && ((code c =? 168) || (code c =? 169)))%N
         | _ => false
         end
  | EmptyString => false
  end.

(** Matching the whole string. [.] takes the first byte of a character; in the
    expressions above it is followed by [[^/]*], which takes the others. *)
Fixpoint match_atoms (atoms : list atom) (s : string) : bool :=
  match atoms with
  | [] => is_empty_str s
  | Lit c :: rest =>
      match s with String a s' => Ascii.eqb a c && match_atoms rest s' | _ => false end
  | AnyChar :: rest =>
      match s with
      | String a s' => negb (at_line_end s) && match_atoms rest s'
      | _ => false
      end
  | NotSlashes :: rest =>
      (fix stars (s : string) : bool :=
         match_atoms rest s
         || match s with
            | String a s' => negb (Ascii.eqb a "/") && stars s'
            | EmptyString => false
            end) s
  end.

(** [s.slice(0, -3)] of a string ending in three ASCII characters. *)
Fixpoint drop_last3 (s : string) : string :=
  match s with
  | String a (String _ (String _ (String _ _)) as s') => String a (drop_last3 s')
  | _ => EmptyString
  end.

Definition slice1 (s : string) : string :=
  match s with String _ s' => s' | EmptyString => EmptyString end.

Section Glob.
Context (re_other : string → string → bool).

Definition re_test (regex path : string) : bool :=
  match parse_regex regex with
  | Some atoms => match_atoms atoms path
  | None => re_other regex path
  end.

Definition matchesGlob (path pattern : string) : bool :=
  if ends_with "/**" pattern then
    let prefix := drop_last3 pattern in
    String.eqb path prefix || starts_with (prefix +:+ "/") path
  else if starts_with "*." pattern then ends_with (slice1 pattern) path
  else if includes "*" pattern then re_test (glob_regex pattern) path
  else String.eqb path pattern.

Definition pathMatchesAny (path : string) (patterns : list string) : bool :=
  existsb (matchesGlob path) patterns.

Definition pathIsInsideRoot (normalizedPath : string) : bool :=
  negb (starts_with "../" normalizedPath) && negb (String.eqb normalizedPath "..").
End Glob.

Example glob_dir : matchesGlob (λ _ _, false) "src/lib/a.ts" "src/**" = true.
Proof. reflexivity. Qed.
Example glob_env : matchesGlob (λ _ _, false) ".env.local" ".env*" = true.
Proof. reflexivity. Qed.
Example glob_ext : matchesGlob (λ _ _, false) "a/b.ts" "*.ts" = true.
Proof. reflexivity. Qed.
Example glob_regex_text : glob_regex "src/**/x.ts" = "^src/.[^/]*/x\.ts$".
Proof. reflexivity. Qed.

(** * Theorems *)

Lemma starts_with_spec p s : starts_with p s = true ↔ ∃ r, s = p +:+ r.
Proof.
  revert s. induction p as [|a p IH]; intros s; simpl; [by split; eauto|].
  destruct s as [|b s]; [by split; [|intros (r & ?)]|].
  rewrite andb_true_iff, Ascii.eqb_eq, IH. split.
  - intros (-> & r & ->). by exists r.
  - intros (r & [= -> ->]). eauto.
Qed.

Lemma match_lits l rest s :
  match_atoms (map Lit (chars l) ++ rest) s = true ↔
    ∃ r, s = l +:+ r ∧ match_atoms rest r = true.
Proof.
  revert s. induction l as [|a l IH]; intros s; cbn [chars map app].
  - simpl. split; [eauto|by intros (r & -> & ?)].
  - cbn [match_atoms]. destruct s as [|b s].
    + split; [done|]. by intros (r & ? & _).
    + rewrite andb_true_iff, Ascii.eqb_eq, IH. simpl. split.
      * intros (-> & r & -> & Hr). eauto.
      * intros (r & [= -> ->] & Hr). eauto.
Qed.

(** No slash in [s]. *)
Definition no_slash (s : string) : bool := str_forall (λ a, negb (Ascii.eqb a "/")) s.

Lemma match_stars rest s :
  match_atoms (NotSlashes :: rest) s = true ↔
    ∃ u r, s = u +:+ r ∧ no_slash u = true ∧ match_atoms rest r = true.
Proof.
  cbn [match_atoms]. induction s as [|a s IH].
  - rewrite orb_false_r. split; [by exists EmptyString, EmptyString|].
    intros ([|] & r & E & _ & H); simpl in E; [by subst|done].
  - rewrite orb_true_iff, andb_true_iff, IH. split.
    + intros [H|(Ha & u & r & -> & Hu & H)]; [by exists EmptyString, (String a s)|].
      exists (String a u), r. split; [done|]. split; [|done]. unfold no_slash. simpl.
      by rewrite Ha.
    + intros ([|b u] & r & E & Hu & H); simpl in E; [left; by subst|right].
      injection E as <- ->. unfold no_slash in Hu. simpl in Hu.
      apply andb_true_iff in Hu as [Ha Hu]. eauto 6.
Qed.

(** Characters that stand for themselves in a pattern. *)
Definition plain (s : string) : bool :=
  str_forall (λ c, negb (re_meta c)) s.

Lemma plain_cons c s :
  plain (String c s) = true → re_meta c = false ∧ plain s = true.
Proof. unfold plain. simpl. intros H. boolify. by split. Qed.

(** The replacements leave plain text alone and rewrite the doubled star. *)
Lemma replace_char_plain c r s t :
  re_meta c = true → plain s = true → replace_char c r (s +:+ t) = s +:+ replace_char c r t.
Proof.
  intros Hc. induction s as [|a s IH]; [done|]. intros [Ha Hs]%plain_cons. simpl.
  destruct (Ascii.eqb_spec a c); [congruence|]. simpl. by rewrite IH.
Qed.

Lemma replace_double_plain r s t :
  plain s = true →
  replace_double "*" r (s +:+ String "*" (String "*" t))
  = s +:+ r +:+ replace_double "*" r t.
Proof.
  induction s as [|a s IH]; [done|]. intros [Ha Hs]%plain_cons. simpl.
  destruct (Ascii.eqb_spec a "*"); [subst; discriminate|]. simpl.
  rewrite IH by done. destruct s; done.
Qed.

Lemma replace_double_none r s : plain s = true → replace_double "*" r s = s.
Proof.
  induction s as [|a s IH]; [done|]. intros [Ha Hs]%plain_cons.
  destruct s as [|b s]; [done|]. cbn [replace_double].
  destruct (Ascii.eqb_spec a "*"); [subst; discriminate|]. simpl. f_equal. by apply IH.
Qed.

Lemma parse_plain s t :
  plain s = true → parse_atoms (s +:+ t) = option_map (app (map Lit (chars s))) (parse_atoms t).
Proof.
  induction s as [|a s IH].
  - intros _. simpl. by destruct (parse_atoms t).
  - intros [Ha Hs]%plain_cons. cbn [String.append chars map].
    assert (parse_atoms (String a (s +:+ t))
      = option_map (cons (Lit a)) (parse_atoms (s +:+ t))) as E.
    { destruct a as [[] [] [] [] [] [] [] []]; try discriminate Ha; reflexivity. }
    rewrite E, IH by done. by destruct (parse_atoms t).
Qed.

(** A pattern with [**] between two plain parts does not span directories:
    the star of the [.*] it was replaced by is itself replaced, so between the
    two parts the path must have one character (not a line end) followed by
    characters other than a slash. In particular the part may not be empty and
    at most its first character is a slash. *)
Theorem glob_middle_double_star re_other p q path :
  plain p = true → plain q = true → includes "*" (p +:+ "**" +:+ q) = true →
  ends_with "/**" (p +:+ "**" +:+ q) = false → starts_with "*." (p +:+ "**" +:+ q) = false →
  matchesGlob re_other path (p +:+ "**" +:+ q) = true ↔
    ∃ c u, path = p +:+ String c (u +:+ q) ∧ no_slash u = true
      ∧ at_line_end (String c (u +:+ q)) = false.
Proof.
  intros Hp Hq Hi He Hs. unfold matchesGlob. rewrite He, Hs, Hi.
  assert (glob_regex (p +:+ "**" +:+ q) = "^" +:+ p +:+ ".[^/]*" +:+ q +:+ "$") as ->.
  { unfold glob_regex.
    assert (replace_char "." "\." (p +:+ "**" +:+ q) = p +:+ "**" +:+ q) as ->.
    { rewrite (replace_char_plain "." _ p) by done. f_equal. simpl.
      rewrite <- (str_app_nil q), (replace_char_plain "." _ q) by done. done. }
    simpl. f_equal. rewrite replace_double_plain, replace_double_none by done.
    rewrite (replace_char_plain "*" _ p) by done. rewrite !str_app_assoc. f_equal. simpl.
    rewrite <- (str_app_nil q), (replace_char_plain "*" _ q) by done. simpl.
    by rewrite !str_app_nil. }
  assert (parse_regex ("^" +:+ p +:+ ".[^/]*" +:+ q +:+ "$")
    = Some (map Lit (chars p) ++ AnyChar :: NotSlashes :: map Lit (chars q))) as Hre.
  { change (parse_atoms (p +:+ (".[^/]*" +:+ q +:+ "$"))
      = Some (map Lit (chars p) ++ AnyChar :: NotSlashes :: map Lit (chars q))).
    rewrite parse_plain by done.
    change (parse_atoms (".[^/]*" +:+ q +:+ "$"))
      with (option_map (cons AnyChar) (option_map (cons NotSlashes) (parse_atoms (q +:+ "$")))).
    rewrite parse_plain by done. simpl. by rewrite app_nil_r. }
  unfold re_test. rewrite Hre, match_lits. split.
  - intros (r & -> & H). cbn [match_atoms] in H. destruct r as [|c r]; [done|].
    apply andb_true_iff in H as [Hl H]. apply negb_true_iff in Hl.
    apply (match_stars (map Lit (chars q))) in H as (u & r' & -> & Hu & H).
    rewrite <- (app_nil_r (map Lit (chars q))), match_lits in H. destruct H as (r & -> & H).
    apply String.eqb_eq in H as ->. rewrite str_app_nil in *. eauto.
  - intros (c & u & -> & Hu & Hl). exists (String c (u +:+ q)). split; [done|].
    cbn [match_atoms]. rewrite Hl. simpl negb. apply andb_true_iff. split; [done|].
    apply (match_stars (map Lit (chars q))). exists u, q. split; [done|]. split; [done|].
    rewrite <- (app_nil_r (map Lit (chars q))), match_lits. exists EmptyString.
    by rewrite str_app_nil.
Qed.

Lemma glob_middle_double_star_witness :
  matchesGlob (λ _ _, false) "src/a/x/k" "src/**/x/k" = true
  ∧ matchesGlob (λ _ _, false) "src/a/b/x/k" "src/**/x/k" = false
  ∧ (∃ c u, "src/a/x/k" = "src/" +:+ String c (u +:+ "/x/k") ∧ no_slash u = true
      ∧ at_line_end (String c (u +:+ "/x/k")) = false).
Proof.
  split; [reflexivity|]. split; [reflexivity|].
  apply (proj1 (glob_middle_double_star (λ _ _, false) "src/" "/x/k" "src/a/x/k"
    eq_refl eq_refl eq_refl eq_refl eq_refl)). reflexivity.
Defined.
