(* ===== verification/FilesystemValidator.v ===== *)
(** The filesystem validator: [validateFilesystemAEO] of
    [src/lib/filesystem-aeo-validator.ts].

    The context is an interface of observations, each an asynchronous program of
    [Effects]; the validator awaits them in the order of the source and stops at
    the first denial. *)
From Stdlib Require Import ZArith NArith Lia Ascii.
From stdpp Require Import base list strings pretty gmap.
From S2P Require Import Prelude JsValue Sha256 Canonical Effects FilesystemAeo Glob.

Inductive ObservationError :=
  | NOT_FOUND | READ_DENIED | AMBIGUOUS_PATH | SYMLINK_BLOCKED | IO_ERROR
  | UNSUPPORTED_ENCODING | OUTSIDE_SCOPE | TIMEOUT | REGISTRY_MISS | LINEAGE_MISMATCH
  | POLICY_MISS | REPLAY_STATE_UNKNOWN.

#[export] Instance observation_error_eq_dec : EqDecision ObservationError.
Proof. solve_decision. Defined.

Inductive ObservationResult (T : Type) :=
  | ObsOk (value : T)
  | ObsErr (observation_error : ObservationError) (topology_visible safe_to_disclose : bool).

Arguments ObsOk {T} value.
Arguments ObsErr {T} observation_error topology_visible safe_to_disclose.

Record DecisionRecord := mkDecision {
  d_decision_id : string;
  d_status : string;
  d_authority_lineage_hash : string;
  d_scope : string;
  d_expires_at : option string
}.

Record AuthorityLineageRecord := mkAuthorityLineage {
  al_lineage_hash : string;
  al_status : string
}.

Record PolicyRecord := mkPolicy {
  p_policy_id : string;
  p_policy_hash : string;
  p_allowed_paths : list string;
  p_denied_paths : list string;
  p_allowed_operations : list string;
  p_denied_operations : list string;
  p_max_files : Z;
  p_max_diff_lines : Z
}.

Inductive ReplayState := UNUSED | RESERVED | CONSUMED | INVALIDATED.

#[export] Instance replay_state_eq_dec : EqDecision ReplayState.
Proof. solve_decision. Defined.

Inductive AeoReplayState := AEO_UNUSED | AEO_CONSUMED | AEO_INVALIDATED.

#[export] Instance aeo_replay_state_eq_dec : EqDecision AeoReplayState.
Proof. solve_decision. Defined.

Record DiffInspectionResult := mkDiff {
  applicable : bool;
  post_write_hash : string
}.

(** The observations the validator makes (the interfaces of the context also
    declare [readAuthorityLineage], [readPolicyHash], [readMetadata],
    [hashDiff] and [now], which it never calls). *)
Class FilesystemValidatorContext (E : Type → Type) := {
  readDecision : string → prog E (ObservationResult DecisionRecord);
  readPolicy : string → prog E (ObservationResult PolicyRecord);
  readNonceState : string → prog E (ObservationResult ReplayState);
  readAeoState : string → prog E (ObservationResult AeoReplayState);
  normalizePath : string → ObservationResult string;
  readHash : string → prog E (ObservationResult string);
  inspectApplicability : string → string → string → prog E (ObservationResult DiffInspectionResult)
}.

Record AdapterObservation := mkObservation {
  adapter : string;
  obs_error : ObservationError;
  obs_safe_to_disclose : bool
}.

(** [mutation_performed] and [retry_same_aeo_allowed] are false in every denial
    the validator builds. *)
Record DenialResult := mkDenial {
  denial_reason : string;
  failure_class : string;
  required_agent_action : option string;
  denial_aeo_hash : option string;
  denial_decision_id : option string;
  adapter_observation : option AdapterObservation
}.

Inductive ValidatorResult :=
  | VALID (aeo_hash : string)
  | NULL (denial_result : DenialResult).

(** [nullResult] with the reason and class alone, with the decision, and with
    an observation. *)
Definition deny (reason class : string) : ValidatorResult :=
  NULL (mkDenial reason class None None None None).
Definition deny_d (reason class d : string) : ValidatorResult :=
  NULL (mkDenial reason class None None (Some d) None).
Definition deny_o (reason class d adapter : string) (err : ObservationError) (safe : bool) :
    ValidatorResult :=
  NULL (mkDenial reason class None None (Some d) (Some (mkObservation adapter err safe))).

Section Validator.
Context {E : Type → Type} {ctx : FilesystemValidatorContext E}.
Context (re_other : string → string → bool).

Local Open Scope prog_scope.

(** Steps 9 and 10, lines 594-637. *)
Definition check_finality (input : jsval) (d aeo_hash : string) : ValidatorResult :=
  let finality := get input "finality" in
  if negb (is_record finality) then
    deny_d "FINALITY_REQUIREMENT_INVALID" "FINALITY_INVALID" d
  else if negb (bool_decide (get finality "proof_required" = JBool true)) then
    deny_d "FINALITY_REQUIREMENT_INVALID" "PROOF_NOT_REQUIRED" d
  else if negb (bool_decide (get finality "registry_required" = JBool true)) then
    deny_d "FINALITY_REQUIREMENT_INVALID" "REGISTRY_NOT_REQUIRED" d
  else if negb (bool_decide (get finality "replay_state_after_success" = JStr "CONSUMED")) then
    deny_d "FINALITY_REQUIREMENT_INVALID" "REPLAY_CONSUMED_NOT_DECLARED" d
  else VALID aeo_hash.

(** Step 8, lines 557-592. *)
Definition check_diff (input : jsval) (d aeo_hash pre normalizedPath : string) :
    prog E ValidatorResult :=
  let proposed := str_or_empty (get (get input "validation") "proposed_diff_hash") in
  if is_empty_str proposed then Ret (check_finality input d aeo_hash)
  else
    let* obs := inspectApplicability pre normalizedPath proposed in
    match obs with
    | ObsErr err _ safe =>
        Ret (deny_o "DIFF_HASH_MISMATCH" "DIFF_INSPECTION_FAILED" d "diffInspector" err safe)
    | ObsOk diff =>
        if negb (applicable diff) then
          Ret (NULL (mkDenial "DIFF_HASH_MISMATCH" "DIFF_NOT_APPLICABLE"
            (Some "RE_MATERIALIZE_AEO_FROM_CURRENT_STATE") (Some aeo_hash) (Some d) None))
        else Ret (check_finality input d aeo_hash)
    end.

(** Step 7, lines 474-555. *)
Definition check_prestate (input : jsval) (d aeo_hash normalizedPath op : string) :
    prog E ValidatorResult :=
  let pre := str_or_empty (get (get input "validation") "pre_write_hash") in
  if is_empty_str pre then Ret (deny_d "PRE_WRITE_HASH_MISSING" "INVALID_VALIDATION" d)
  else
    let* obs := readHash normalizedPath in
    match obs with
    | ObsErr err _ safe =>
        if bool_decide (err = NOT_FOUND) && String.eqb op "create" then
          check_diff input d aeo_hash pre normalizedPath
        else if bool_decide (err = NOT_FOUND) then
          Ret (NULL (mkDenial "TARGET_PRESTATE_UNOBSERVABLE" "TARGET_PRESTATE_UNOBSERVABLE"
            (Some "RE_MATERIALIZE_AEO_FROM_CURRENT_STATE") None (Some d)
            (Some (mkObservation "filesystem" err safe))))
        else if bool_decide (err = READ_DENIED) then
          Ret (deny_o "OBSERVATION_DENIED" "OBSERVATION_DENIED" d "filesystem" err safe)
        else if bool_decide (err = TIMEOUT) then
          Ret (deny_o "OBSERVATION_TIMEOUT" "OBSERVATION_TIMEOUT" d "filesystem" err safe)
        else
          Ret (deny_o "OBSERVATION_UNAVAILABLE" "OBSERVATION_UNAVAILABLE" d "filesystem" err safe)
    | ObsOk file_hash =>
        if negb (String.eqb file_hash pre) then
          Ret (NULL (mkDenial "PRE_WRITE_HASH_MISMATCH" "STALE_PRESTATE"
            (Some "RE_MATERIALIZE_AEO_FROM_CURRENT_STATE") (Some aeo_hash) (Some d) None))
        else check_diff input d aeo_hash pre normalizedPath
    end.

(** Step 6, lines 411-472. *)
Definition check_replay (input : jsval) (d aeo_hash normalizedPath op : string) :
    prog E ValidatorResult :=
  let nonce := str_or_empty (get (get input "validation") "replay_nonce") in
  if is_empty_str nonce then Ret (deny_d "REPLAY_NOT_ALLOWED" "REPLAY_NONCE_MISSING" d)
  else
    let* obs := readNonceState nonce in
    match obs with
    | ObsErr err _ safe =>
        Ret (deny_o
          (if bool_decide (err = REPLAY_STATE_UNKNOWN) then "REPLAY_NOT_DETERMINABLE"
           else "REPLAY_NOT_ALLOWED")
          "REPLAY_STATE_UNKNOWN" d "replayRegistry" err safe)
    | ObsOk state =>
        if negb (bool_decide (state = UNUSED)) then
          Ret (deny_d "REPLAY_NOT_ALLOWED" "REPLAY_NONCE_CONSUMED_OR_RESERVED" d)
        else
          let* aeo_obs := readAeoState aeo_hash in
          match aeo_obs with
          | ObsOk (AEO_CONSUMED | AEO_INVALIDATED) =>
              Ret (NULL (mkDenial "REPLAY_NOT_ALLOWED" "AEO_ALREADY_CONSUMED" None
                (Some aeo_hash) (Some d) None))
          | _ => check_prestate input d aeo_hash normalizedPath op
          end
    end.

(** Step 5, lines 320-409. *)
Definition check_target (input : jsval) (d aeo_hash : string) (policy : PolicyRecord) :
    prog E ValidatorResult :=
  let target := get input "target" in
  let targetPath := str_or_empty (get target "path") in
  let targetOperation := str_or_empty (get target "operation") in
  if negb (is_record target) then
    Ret (deny_d "PATH_OR_OPERATION_NOT_ALLOWED" "INVALID_TARGET" d)
  else if is_empty_str targetPath || is_empty_str targetOperation then
    Ret (deny_d "PATH_OR_OPERATION_NOT_ALLOWED" "INVALID_TARGET" d)
  else
    match normalizePath targetPath with
    | ObsErr err _ safe =>
        Ret (deny_o
          (if bool_decide (err = AMBIGUOUS_PATH) then "PATH_AMBIGUOUS"
           else "PATH_OR_OPERATION_NOT_ALLOWED")
          "PATH_AMBIGUOUS" d "filesystem" err safe)
    | ObsOk normalizedPath =>
        if negb (pathIsInsideRoot normalizedPath) then
          Ret (deny_d "PATH_OR_OPERATION_NOT_ALLOWED" "PATH_OUTSIDE_ROOT" d)
        else if negb (pathMatchesAny re_other normalizedPath (p_allowed_paths policy)) then
          Ret (deny_d "PATH_OR_OPERATION_NOT_ALLOWED" "PATH_NOT_ALLOWED" d)
        else if pathMatchesAny re_other normalizedPath (p_denied_paths policy) then
          Ret (deny_d "PATH_OR_OPERATION_NOT_ALLOWED" "PATH_DENIED" d)
        else if negb (str_in targetOperation (p_allowed_operations policy)) then
          Ret (deny_d "PATH_OR_OPERATION_NOT_ALLOWED" "OPERATION_NOT_ALLOWED" d)
        else if str_in targetOperation (p_denied_operations policy) then
          Ret (deny_d "PATH_OR_OPERATION_NOT_ALLOWED" "OPERATION_DENIED" d)
        else check_replay input d aeo_hash normalizedPath targetOperation
    end.

(** Step 4, lines 282-318. *)
Definition check_policy (input : jsval) (d aeo_hash : string) : prog E ValidatorResult :=
  let policy_id := str_or_empty (get (get input "validation") "policy_id") in
  let policy_hash := str_or_empty (get (get input "validation") "policy_hash") in
  if is_empty_str policy_id || is_empty_str policy_hash then
    Ret (deny_d "POLICY_HASH_MISMATCH" "POLICY_INVALID" d)
  else
    let* obs := readPolicy policy_id in
    match obs with
    | ObsErr err _ safe =>
        Ret (deny_o "POLICY_HASH_MISMATCH" "POLICY_INVALID" d "policyRegistry" err safe)
    | ObsOk policy =>
        if negb (String.eqb (p_policy_hash policy) policy_hash) then
          Ret (deny_d "POLICY_HASH_MISMATCH" "POLICY_HASH_MISMATCH" d)
        else check_target input d aeo_hash policy
    end.

(** Step 3, lines 244-280. *)
Definition check_authority (input : jsval) (d lineage aeo_hash : string) :
    prog E ValidatorResult :=
  let* obs := readDecision d in
  match obs with
  | ObsErr err _ safe =>
      Ret (deny_o "AUTHORITY_INVALID" "AUTHORITY_INVALID" d "authorityRegistry" err safe)
  | ObsOk decision =>
      if negb (String.eqb (d_status decision) "ACTIVE") then
        Ret (deny_d "AUTHORITY_INVALID" "AUTHORITY_INVALID" d)
      else if negb (String.eqb (d_authority_lineage_hash decision) lineage) then
        Ret (deny_d "AUTHORITY_INVALID" "AUTHORITY_LINEAGE_MISMATCH" d)
      else check_policy input d aeo_hash
  end.

(** Steps 1 and 2, lines 174-242, then the rest. *)
Definition validateFilesystemAEO (input : jsval) (aeoHashOverride : option string) :
    prog E ValidatorResult :=
  if negb (is_record input) then Ret (deny "INVALID_AEO_SHAPE" "INVALID_AEO_SHAPE")
  else
    let ks := sorted_keys input in
    if negb (Nat.eqb (length ks) (length FILESYSTEM_AEO_REQUIRED_KEYS)) then
      Ret (deny
        (if Nat.ltb (length FILESYSTEM_AEO_REQUIRED_KEYS) (length ks)
         then "EXTRA_FIELD_PRESENT" else "MISSING_REQUIRED_FIELD") "INVALID_AEO_SHAPE")
    else if negb (keys_match ks FILESYSTEM_AEO_REQUIRED_KEYS) then
      Ret (deny "INVALID_AEO_SHAPE" "INVALID_AEO_SHAPE")
    else
      let aeo_hash := sha256_id input in
      if match aeoHashOverride with
         | None => false
         | Some o => negb (String.eqb o aeo_hash)
         end
      then Ret (NULL (mkDenial "AEO_HASH_MISMATCH" "AEO_HASH_MISMATCH" None (Some aeo_hash)
             None None))
      else if negb (is_record (get input "validation")) then
        Ret (deny "AUTHORITY_INVALID" "AUTHORITY_INVALID")
      else
        let d := str_or_empty (get (get input "validation") "decision_id") in
        let lineage := str_or_empty (get (get input "validation") "authority_lineage_hash") in
        if is_empty_str d || is_empty_str lineage then
          Ret (deny "AUTHORITY_INVALID" "AUTHORITY_INVALID")
        else check_authority input d lineage aeo_hash.
End Validator.

(** * Theorems *)
Section ValidatorTheorems.
Context {E : Type → Type} {ctx : FilesystemValidatorContext E}.
Context (re_other : string → string → bool).
Context {S : Type} (handle : ∀ X, E X → S → S * X) (s : S).

(** The answer of an observation in the current state. *)
Definition look {X} (m : prog E X) : X := (run handle m s).2.

(** The promise of the context: observations do not change the state. *)
Class ReadOnlyContext := {
  ro_decision d : (run handle (readDecision d) s).1 = s;
  ro_policy p : (run handle (readPolicy p) s).1 = s;
  ro_nonce n : (run handle (readNonceState n) s).1 = s;
  ro_aeo a : (run handle (readAeoState a) s).1 = s;
  ro_hash p : (run handle (readHash p) s).1 = s;
  ro_diff a b c : (run handle (inspectApplicability a b c) s).1 = s
}.

Context {ro : ReadOnlyContext}.

(** [m] leaves the state alone and answers VALID exactly under [P], with hash
    [h]. *)
Definition decides (m : prog E ValidatorResult) (h : string) (P : Prop) : Prop :=
  (run handle m s).1 = s ∧ ∀ h', look m = VALID h' ↔ h' = h ∧ P.

Lemma decides_ret_denied d h : decides (Ret (NULL d)) h False.
Proof. split; [done|]. unfold look; simpl. split; [done|tauto]. Qed.

Lemma decides_iff m h P Q : (P ↔ Q) → decides m h P → decides m h Q.
Proof. intros HPQ [Hs H]. split; [done|]. intros h'. by rewrite H, HPQ. Qed.

Lemma decides_look {X} (m : prog E X) k h P :
  (run handle m s).1 = s → decides (k (look m)) h P → decides (bind m k) h P.
Proof. intros Hs. unfold decides, look. by rewrite run_bind, Hs. Qed.

(** A denial under a failed guard; the rest under the guard. *)
Lemma decides_guard (b : bool) (Q : Prop) d m h P :
  (b = true ↔ Q) → decides m h P →
  decides (if negb b then Ret (NULL d) else m) h (Q ∧ P).
Proof.
  intros Hb Hm. destruct b; simpl.
  - eapply decides_iff; [|done]. naive_solver.
  - eapply decides_iff; [|apply decides_ret_denied]. naive_solver.
Qed.

Lemma decides_guard_neg (b : bool) (Q : Prop) d m h P :
  (b = false ↔ Q) → decides m h P →
  decides (if b then Ret (NULL d) else m) h (Q ∧ P).
Proof.
  intros Hb Hm. rewrite <- (negb_involutive b). apply decides_guard; [|done].
  by rewrite negb_true_iff.
Qed.

Lemma empty_pair_false a b :
  is_empty_str a || is_empty_str b = false ↔ a ≠ EmptyString ∧ b ≠ EmptyString.
Proof. unfold is_empty_str. by rewrite orb_false_iff, !String.eqb_neq. Qed.

Lemma is_empty_false a : is_empty_str a = false ↔ a ≠ EmptyString.
Proof. apply String.eqb_neq. Qed.

Definition finality_ok (input : jsval) : Prop :=
  is_record (get input "finality") = true
  ∧ get (get input "finality") "proof_required" = JBool true
  ∧ get (get input "finality") "registry_required" = JBool true
  ∧ get (get input "finality") "replay_state_after_success" = JStr "CONSUMED".

Lemma decides_finality input d h :
  decides (Ret (check_finality input d h)) h (finality_ok input).
Proof.
  unfold check_finality, finality_ok, decides, look, deny_d; simpl. split; [done|].
  intros h'. destruct (is_record _); simpl; [|naive_solver].
  repeat (case_bool_decide; simpl; [|naive_solver]). naive_solver.
Qed.

Definition vfield (input : jsval) (k : string) : string :=
  str_or_empty (get (get input "validation") k).
Definition tfield (input : jsval) (k : string) : string :=
  str_or_empty (get (get input "target") k).

Definition diff_ok (input : jsval) (np : string) : Prop :=
  vfield input "proposed_diff_hash" = EmptyString
  ∨ ∃ df, look (inspectApplicability (vfield input "pre_write_hash") np
        (vfield input "proposed_diff_hash")) = ObsOk df ∧ applicable df = true.

Lemma decides_diff input d h np :
  decides (check_diff input d h (vfield input "pre_write_hash") np) h
    (diff_ok input np ∧ finality_ok input).
Proof.
  unfold check_diff, diff_ok. fold (vfield input "proposed_diff_hash").
  destruct (is_empty_str _) eqn:Ee.
  - eapply decides_iff; [|apply decides_finality]. apply String.eqb_eq in Ee. naive_solver.
  - apply is_empty_false in Ee. apply decides_look; [apply ro_diff|].
    destruct (look (inspectApplicability _ _ _)) as [df|]; simpl.
    + destruct (applicable df) eqn:Ea; simpl.
      * eapply decides_iff; [|apply decides_finality]. naive_solver.
      * eapply decides_iff; [|apply decides_ret_denied]. split; [done|].
        intros [[?|(? & [= <-] & ?)] _]; congruence.
    + eapply decides_iff; [|apply decides_ret_denied]. split; [done|].
      intros [[?|(? & ? & ?)] _]; congruence.
Qed.

(** The pre-state was observed to be the declared one, or the operation is
    [create] and there is no file. *)
Definition prestate_ok (input : jsval) (np : string) : Prop :=
  vfield input "pre_write_hash" ≠ EmptyString
  ∧ (look (readHash np) = ObsOk (vfield input "pre_write_hash")
     ∨ tfield input "operation" = "create" ∧ ∃ v sd, look (readHash np) = ObsErr NOT_FOUND v sd).

Lemma decides_prestate input d h np :
  decides (check_prestate input d h np (tfield input "operation")) h
    (prestate_ok input np ∧ diff_ok input np ∧ finality_ok input).
Proof.
  unfold check_prestate, prestate_ok. fold (vfield input "pre_write_hash").
  eapply decides_iff; [apply and_assoc|].
  apply decides_guard_neg; [apply is_empty_false|]. apply decides_look; [apply ro_hash|].
  destruct (look (readHash np)) as [fh|err v sd]; simpl.
  - destruct (String.eqb_spec fh (vfield input "pre_write_hash")) as [->|Hne]; simpl.
    + eapply decides_iff; [|apply decides_diff]. naive_solver.
    + eapply decides_iff; [|apply decides_ret_denied]. naive_solver.
  - destruct (decide (err = NOT_FOUND)) as [->|Hne].
    + rewrite !bool_decide_eq_true_2 by done. simpl.
      destruct (String.eqb_spec (tfield input "operation") "create").
      * eapply decides_iff; [|apply decides_diff]. naive_solver.
      * eapply decides_iff; [|apply decides_ret_denied]. naive_solver.
    + rewrite !(bool_decide_eq_false_2 (err = NOT_FOUND)) by done. simpl.
      eapply decides_iff with (P := False); [naive_solver|].
      repeat case_bool_decide; apply decides_ret_denied.
Qed.

Definition replay_ok (input : jsval) (h : string) : Prop :=
  vfield input "replay_nonce" ≠ EmptyString
  ∧ look (readNonceState (vfield input "replay_nonce")) = ObsOk UNUSED
  ∧ look (readAeoState h) ≠ ObsOk AEO_CONSUMED
  ∧ look (readAeoState h) ≠ ObsOk AEO_INVALIDATED.

Lemma decides_replay input d h np :
  decides (check_replay input d h np (tfield input "operation")) h
    (replay_ok input h ∧ prestate_ok input np ∧ diff_ok input np ∧ finality_ok input).
Proof.
  unfold check_replay, replay_ok. fold (vfield input "replay_nonce").
  eapply decides_iff; [apply and_assoc|].
  apply decides_guard_neg; [apply is_empty_false|]. apply decides_look; [apply ro_nonce|].
  destruct (look (readNonceState _)) as [st|]; simpl.
  - destruct (decide (st = UNUSED)) as [->|Hne].
    + rewrite bool_decide_eq_true_2 by done. simpl. apply decides_look; [apply ro_aeo|].
      destruct (look (readAeoState h)) as [[]|] eqn:Ea; simpl;
        (eapply decides_iff; [|apply decides_prestate || apply decides_ret_denied]); naive_solver.
    + rewrite bool_decide_eq_false_2 by done. simpl.
      eapply decides_iff; [|apply decides_ret_denied]. naive_solver.
  - eapply decides_iff; [|apply decides_ret_denied]. naive_solver.
Qed.
(** The target is inside the root, on an allowed and not denied path, with an
    allowed and not denied operation. *)
Definition path_ok (policy : PolicyRecord) (np op : string) : Prop :=
  pathIsInsideRoot np = true
  ∧ pathMatchesAny re_other np (p_allowed_paths policy) = true
  ∧ pathMatchesAny re_other np (p_denied_paths policy) = false
  ∧ op ∈ p_allowed_operations policy ∧ op ∉ p_denied_operations policy.

Definition rest_ok (input : jsval) (h np : string) : Prop :=
  replay_ok input h ∧ prestate_ok input np ∧ diff_ok input np ∧ finality_ok input.

Definition target_ok (input : jsval) (policy : PolicyRecord) (h : string) : Prop :=
  is_record (get input "target") = true
  ∧ (tfield input "path" ≠ EmptyString ∧ tfield input "operation" ≠ EmptyString)
  ∧ ∃ np, normalizePath (tfield input "path") = ObsOk np
      ∧ path_ok policy np (tfield input "operation") ∧ rest_ok input h np.

Lemma decides_target input d h policy :
  decides (check_target re_other input d h policy) h (target_ok input policy h).
Proof.
  unfold check_target, target_ok.
  fold (tfield input "path") (tfield input "operation").
  apply decides_guard; [done|]. apply decides_guard_neg; [apply empty_pair_false|].
  destruct (normalizePath _) as [np|err v sd]; simpl.
  - eapply decides_iff with (P := pathIsInsideRoot np = true
      ∧ pathMatchesAny re_other np (p_allowed_paths policy) = true
      ∧ pathMatchesAny re_other np (p_denied_paths policy) = false
      ∧ tfield input "operation" ∈ p_allowed_operations policy
      ∧ (tfield input "operation" ∉ p_denied_operations policy) ∧ rest_ok input h np).
    { unfold path_ok. split.
      - intros (? & ? & ? & ? & ? & ?). exists np. tauto.
      - intros (? & [= <-] & ?). tauto. }
    apply decides_guard; [done|]. apply decides_guard; [done|].
    apply decides_guard_neg; [done|]. apply decides_guard; [apply str_in_elem|].
    apply decides_guard_neg; [|apply decides_replay].
    rewrite <- str_in_elem. symmetry. apply not_true_iff_false.
  - eapply decides_iff with (P := False); [|destruct (bool_decide _); apply decides_ret_denied].
    split; [done|]. by intros (? & ? & _).
Qed.

Definition policy_ok (input : jsval) (h : string) : Prop :=
  (vfield input "policy_id" ≠ EmptyString ∧ vfield input "policy_hash" ≠ EmptyString)
  ∧ ∃ policy, look (readPolicy (vfield input "policy_id")) = ObsOk policy
      ∧ p_policy_hash policy = vfield input "policy_hash" ∧ target_ok input policy h.

Lemma decides_policy input d h :
  decides (check_policy re_other input d h) h (policy_ok input h).
Proof.
  unfold check_policy, policy_ok. fold (vfield input "policy_id") (vfield input "policy_hash").
  apply decides_guard_neg; [apply empty_pair_false|]. apply decides_look; [apply ro_policy|].
  destruct (look (readPolicy _)) as [policy|]; simpl.
  - eapply decides_iff with (P := p_policy_hash policy = vfield input "policy_hash"
      ∧ target_ok input policy h); [|apply decides_guard; [apply String.eqb_eq|apply decides_target]].
    split; [eauto|]. by intros (? & [= <-] & ?).
  - eapply decides_iff; [|apply decides_ret_denied]. split; [done|]. by intros (? & ? & _).
Qed.

Definition authority_ok (input : jsval) (h : string) : Prop :=
  ∃ decision, look (readDecision (vfield input "decision_id")) = ObsOk decision
    ∧ d_status decision = "ACTIVE"
    ∧ d_authority_lineage_hash decision = vfield input "authority_lineage_hash"
    ∧ policy_ok input h.

Lemma decides_authority input h :
  decides (check_authority re_other input (vfield input "decision_id")
    (vfield input "authority_lineage_hash") h) h (authority_ok input h).
Proof.
  unfold check_authority, authority_ok. apply decides_look; [apply ro_decision|].
  destruct (look (readDecision _)) as [decision|]; simpl.
  - eapply decides_iff with (P := d_status decision = "ACTIVE"
      ∧ d_authority_lineage_hash decision = vfield input "authority_lineage_hash"
      ∧ policy_ok input h).
    { split; [eauto|]. by intros (? & [= <-] & ?). }
    apply decides_guard; [apply String.eqb_eq|].
    apply decides_guard; [apply String.eqb_eq|apply decides_policy].
  - eapply decides_iff; [|apply decides_ret_denied]. split; [done|]. by intros (? & ? & _).
Qed.

(** Every condition for VALID, in the order of the ten steps. *)
Definition accepted (input : jsval) (aeoHashOverride : option string) : Prop :=
  is_record input = true ∧ sorted_keys input = FILESYSTEM_AEO_REQUIRED_KEYS
  ∧ (aeoHashOverride = None ∨ aeoHashOverride = Some (sha256_id input))
  ∧ is_record (get input "validation") = true
  ∧ (vfield input "decision_id" ≠ EmptyString
     ∧ vfield input "authority_lineage_hash" ≠ EmptyString)
  ∧ authority_ok input (sha256_id input).

Lemma validate_decides input ov :
  decides (validateFilesystemAEO re_other input ov) (sha256_id input) (accepted input ov).
Proof.
  unfold validateFilesystemAEO, accepted.
  fold (vfield input "decision_id") (vfield input "authority_lineage_hash").
  apply decides_guard; [done|].
  assert (sorted_keys input = FILESYSTEM_AEO_REQUIRED_KEYS ↔
    Nat.eqb (length (sorted_keys input)) (length FILESYSTEM_AEO_REQUIRED_KEYS) = true
    ∧ keys_match (sorted_keys input) FILESYSTEM_AEO_REQUIRED_KEYS = true) as Hk.
  { rewrite <- exact_shape_spec. unfold exact_shape. apply andb_true_iff. }
  eapply decides_iff; [apply and_iff_compat_r; symmetry; exact Hk|].
  eapply decides_iff; [apply and_assoc|].
  apply decides_guard; [done|]. apply decides_guard; [done|]. apply decides_guard_neg.
  { destruct ov as [o|]; [|naive_solver]. rewrite negb_false_iff, String.eqb_eq. naive_solver. }
  apply decides_guard; [done|]. apply decides_guard_neg; [apply empty_pair_false|].
  apply decides_authority.
Qed.

(** C33. The validator is exactly its ten steps: over observations that do not
    change the state, it never changes the state, and it answers VALID (with the
    digest of the input) iff the shape, the digest, the authority lineage, the
    policy hash, the path and operation policy, the replay state, the pre-state,
    the declared diff and the finality requirements all hold. *)
Theorem validate_spec input ov :
  (run handle (validateFilesystemAEO re_other input ov) s).1 = s
  ∧ ∀ h, (run handle (validateFilesystemAEO re_other input ov) s).2 = VALID h ↔
      h = sha256_id input ∧ accepted input ov.
Proof. apply validate_decides. Qed.

Lemma accepted_pre_write input ov :
  accepted input ov → vfield input "pre_write_hash" ≠ EmptyString.
Proof.
  intros (_ & _ & _ & _ & _ & dc & _ & _ & _ & _ & pol & _ & _ & _ & _ & np & _ & _ & Hr).
  destruct Hr as (_ & [Hp _] & _). exact Hp.
Qed.

(** An AEO that declares no pre-state hash is never VALID, also when it
    creates a file that does not exist. *)
Theorem validate_needs_pre_write_hash input ov h :
  vfield input "pre_write_hash" = EmptyString →
  (run handle (validateFilesystemAEO re_other input ov) s).2 ≠ VALID h.
Proof.
  intros Hp Hv. apply (validate_decides input ov) in Hv as [_ Ha].
  by apply accepted_pre_write in Ha.
Qed.
End ValidatorTheorems.

(** * Whatever the observations answer

    Facts about the validator that do not depend on the state: which operations
    it performs, and what holds of a VALID answer even if other requests change
    the registries while it waits. *)
Section ValidatorTree.
Context {E : Type → Type} {ctx : FilesystemValidatorContext E}.
Context (re_other : string → string → bool) (P : ∀ X, E X → Prop).

(** Every operation of the context's observations satisfies [P]. *)
Class Observes := {
  obs_decision d : tree P (λ _, True) (readDecision d);
  obs_policy p : tree P (λ _, True) (readPolicy p);
  obs_nonce n : tree P (λ _, True) (readNonceState n);
  obs_aeo a : tree P (λ _, True) (readAeoState a);
  obs_hash p : tree P (λ _, True) (readHash p);
  obs_diff a b c : tree P (λ _, True) (inspectApplicability a b c)
}.

Context {obs : Observes}.

Definition needs_prestate (input : jsval) (r : ValidatorResult) : Prop :=
  ∀ h, r = VALID h → vfield input "pre_write_hash" ≠ EmptyString.

Lemma denied_needs input d : needs_prestate input (NULL d).
Proof. by intros h. Qed.

Hint Resolve denied_needs : core.

(** Case analysis of a step: every branch is a denial, a read or a later step. *)
Ltac tree_cases :=
  repeat first
    [ apply denied_needs
    | match goal with
      | |- tree _ _ (bind _ _) => eapply tree_bind; [|intros ? _]
      | |- tree _ _ (if ?b then _ else _) => destruct b
      | |- tree _ _ (match ?x with _ => _ end) => destruct x
      end ].

Lemma tree_diff input d h pre np :
  pre = vfield input "pre_write_hash" → pre ≠ EmptyString →
  tree P (needs_prestate input) (check_diff input d h pre np).
Proof.
  intros -> Hp. unfold check_diff. tree_cases; try apply obs_diff; try done; by intros ??.
Qed.

Lemma tree_prestate input d h np op :
  tree P (needs_prestate input) (check_prestate input d h np op).
Proof.
  unfold check_prestate. fold (vfield input "pre_write_hash").
  destruct (is_empty_str _) eqn:Ee; [apply denied_needs|]. apply is_empty_false in Ee.
  tree_cases; first [apply obs_hash|by apply tree_diff].
Qed.

Lemma tree_replay input d h np op :
  tree P (needs_prestate input) (check_replay input d h np op).
Proof.
  unfold check_replay. tree_cases; first [apply obs_nonce|apply obs_aeo|apply tree_prestate].
Qed.

Lemma tree_target input d h policy :
  tree P (needs_prestate input) (check_target re_other input d h policy).
Proof. unfold check_target. tree_cases. apply tree_replay. Qed.

Lemma tree_authority input d lin h :
  tree P (needs_prestate input) (check_authority re_other input d lin h).
Proof.
  unfold check_authority, check_policy. tree_cases;
    first [apply obs_decision|apply obs_policy|apply tree_target].
Qed.

Lemma validate_tree input ov :
  tree P (needs_prestate input) (validateFilesystemAEO re_other input ov).
Proof. unfold validateFilesystemAEO. tree_cases. apply tree_authority. Qed.
End ValidatorTree.

(** ** A concrete context: the registries of the fixture AEO *)
Definition no_effect (X : Type) : Type := Empty_set.

Definition fixture_policy : PolicyRecord :=
  mkPolicy "filesystem-write-policy-v1" "sha256:fixture-policy-hash"
    ["src/**"; "tests/**"; "docs/**"] [".github/workflows/**"; "secrets/**"]
    ["create"; "modify"] ["delete"; "chmod"; "rename"; "symlink"] 1 300.

#[export] Instance fixture_context : FilesystemValidatorContext no_effect := {|
  readDecision d := Ret (if String.eqb d "AUTH-fixture-001"
    then ObsOk (mkDecision d "ACTIVE" "sha256:fixture-authority-lineage-hash" "repository" None)
    else ObsErr REGISTRY_MISS false true);
  readPolicy _ := Ret (ObsOk fixture_policy);
  readNonceState _ := Ret (ObsOk UNUSED);
  readAeoState _ := Ret (ObsOk AEO_UNUSED);
  normalizePath p := ObsOk p;
  readHash _ := Ret (ObsOk "sha256:fixture-pre-write-hash");
  inspectApplicability _ _ _ := Ret (ObsOk (mkDiff true EmptyString))
|}.

Definition no_handle (X : Type) (e : no_effect X) (s : unit) : unit * X := match e with end.

#[export] Instance fixture_read_only : ReadOnlyContext no_handle tt.
Proof. by split. Qed.

Lemma fixture_accepted :
  accepted (λ _ _, false) no_handle tt (aeo_js CANONICAL_FILESYSTEM_AEO_FIXTURE) None.
Proof.
  split; [done|]. split; [done|]. split; [by left|]. split; [done|]. split; [done|].
  eexists. split; [reflexivity|]. split; [done|]. split; [done|]. split; [done|].
  eexists. split; [reflexivity|]. split; [done|]. split; [done|]. split; [done|].
  eexists. split; [reflexivity|]. split.
  - split; [done|]. split; [done|]. split; [done|]. cbn.
    rewrite <- !str_in_elem. done.
  - split; [done|]. split; [split; [done|by left]|]. split; [|done].
    right. eexists. split; reflexivity.
Qed.

Lemma validate_spec_witness :
  (run no_handle (validateFilesystemAEO (λ _ _, false)
    (aeo_js CANONICAL_FILESYSTEM_AEO_FIXTURE) None) tt).2
  = VALID (sha256_id (aeo_js CANONICAL_FILESYSTEM_AEO_FIXTURE)).
Proof.
  apply (proj2 (validate_spec (λ _ _, false) no_handle tt
    (aeo_js CANONICAL_FILESYSTEM_AEO_FIXTURE) None)).
  split; [reflexivity|apply fixture_accepted].
Defined.

(** The AEO of a file creation: no pre-state to hash. *)
Definition fixture_create : jsval :=
  JObj [("finality", JObj []); ("intent", JObj []); ("scope", JObj []);
        ("target", JObj [("operation", JStr "create"); ("path", JStr "src/new.ts")]);
        ("validation", JObj [("pre_write_hash", JStr EmptyString)])].

Lemma validate_needs_pre_write_hash_witness :
  ¬ ∃ h, (run no_handle (validateFilesystemAEO (λ _ _, false) fixture_create None) tt).2 = VALID h.
Proof.
  intros [h Hh]. revert Hh. exact (validate_needs_pre_write_hash (λ _ _, false) no_handle tt
    fixture_create None h eq_refl).
Defined.
