(* ===== verification/RuntimeGateway.v ===== *)
(** The mandatory gateway path: [runFilesystemWriteGatewayAction] of
    [src/lib/filesystem-write-runtime-gateway.ts], over the ports of
    [src/lib/storage-adapter.ts].

    The store behind the ports is reached by awaited operations; the writer is
    synchronous and acts on a world [W] of the request (for the route, the
    capture variable of its closure), which the program carries along. *)
From Stdlib Require Import ZArith NArith Lia Ascii.
From stdpp Require Import base list strings pretty gmap.
From S2P Require Import Prelude JsValue Sha256 Canonical Effects ContinuityCore FilesystemAeo.
From S2P Require Import FilesystemGateway CanonicalAeo ExecutionEligibility Adapter Glob.
From S2P Require Import FilesystemValidator.

(** * Ports *)
Inductive AppendResult :=
  | APPENDED (id hash : string)
  | ALREADY_EXISTS (id hash : string)
  | REJECTED (reason : string).

Definition append_status (r : AppendResult) : string :=
  match r with
  | APPENDED _ _ => "APPENDED"
  | ALREADY_EXISTS _ _ => "ALREADY_EXISTS"
  | REJECTED _ => "REJECTED"
  end.

Class ReplayRegistryPort (E : Type → Type) := {
  isNonceUnused : string → prog E bool;
  markNonceConsumed : string → string → prog E AppendResult
}.

(** * Gateway *)
Record FilesystemWriteIntentInput := mkIntentInput {
  atao_input : jsval;
  binding : jsval
}.

Record FilesystemWriteKernelContext (E : Type → Type) (W : Type) := mkKernel {
  validator_context : option (FilesystemValidatorContext E);
  writer : option (FilesystemWriter (W := W));
  replay_registry : option (ReplayRegistryPort E);
  kernel_emitted_at : jsval
}.

Arguments mkKernel {E W}.
Arguments validator_context {E W}.
Arguments writer {E W}.
Arguments replay_registry {E W}.
Arguments kernel_emitted_at {E W}.

Inductive FilesystemWriteGatewayStage := capture | compile | canonical | replay | validate | execute_stage.

#[export] Instance stage_eq_dec : EqDecision FilesystemWriteGatewayStage.
Proof. solve_decision. Defined.

Definition stage_str (s : FilesystemWriteGatewayStage) : string :=
  match s with
  | capture => "capture" | compile => "compile" | canonical => "canonical"
  | replay => "replay" | validate => "validate" | execute_stage => "execute"
  end.

(** [receipt] is null in every NULL result the gateway builds. [GatewayThrows]
    is an exception out of the adapter boundary. *)
Inductive FilesystemWriteGatewayActionResult :=
  | EXECUTED (receipt : AdapterProofReceipt) (atao_id : string)
  | EXECUTED_UNCOMMITTED (receipt : AdapterProofReceipt) (atao_id : string)
  | NullAt (stage : FilesystemWriteGatewayStage) (reason : string)
      (validator_denial : option DenialResult)
  | GatewayThrows.

Definition nullAtStage (stage : FilesystemWriteGatewayStage) (reason : string) :
    FilesystemWriteGatewayActionResult :=
  NullAt stage reason None.

Section Gateway.
Context {E : Type → Type} {W : Type}.
Context (re_other : string → string → bool) (date_parse : string → option Z) (date_now : Z).

Local Open Scope prog_scope.

(** Stages 7 and 8, lines 186-219. *)
Definition execute_and_commit {port : ReplayRegistryPort E} (wr : FilesystemWriter (W := W))
    (emitted_at : string) (atao : FilesystemWriteATAO) (c : CanonicalAEO) (hash : string)
    (w : W) : prog E (W * FilesystemWriteGatewayActionResult) :=
  let '(w', outcome) := executeFilesystemAdapter date_parse date_now (canonical_js c) hash
    (param_content atao) wr emitted_at w in
  match outcome with
  | Throws => Ret (w', GatewayThrows)
  | NullResult reason _ => Ret (w', nullAtStage execute_stage (null_reason_str reason))
  | Executed receipt =>
      let* commitResult :=
        markNonceConsumed (c_replay_nonce c) (str_or_empty (receipt_decision_id receipt)) in
      match commitResult with
      | REJECTED _ => Ret (w', EXECUTED_UNCOMMITTED receipt (FilesystemGateway.atao_id atao))
      | _ => Ret (w', EXECUTED receipt (FilesystemGateway.atao_id atao))
      end
  end.

Definition runFilesystemWriteGatewayAction (intent : option FilesystemWriteIntentInput)
    (context : FilesystemWriteKernelContext E W) (w : W) :
    prog E (W * FilesystemWriteGatewayActionResult) :=
  match intent with
  | None => Ret (w, nullAtStage capture "NULL_GATEWAY_INPUT")
  | Some intent =>
  match validator_context context with
  | None => Ret (w, nullAtStage validate "NULL_VALIDATOR_CONTEXT")
  | Some vctx =>
  match writer context with
  | None => Ret (w, nullAtStage execute_stage "NULL_WRITER")
  | Some wr =>
  match replay_registry context with
  | None => Ret (w, nullAtStage replay "NULL_REPLAY_REGISTRY")
  | Some port =>
  if negb (is_non_blank (kernel_emitted_at context)) then
    Ret (w, nullAtStage capture "NULL_EMITTED_AT")
  else
  match captureFilesystemWriteATAO (atao_input intent) with
  | None => Ret (w, nullAtStage capture "ATAO_CAPTURE_FAILED")
  | Some atao =>
  match compileFilesystemWriteAEO (Some atao) (binding intent) with
  | None => Ret (w, nullAtStage compile "AEO_COMPILE_FAILED")
  | Some aeo =>
  match compileCanonicalAEOFromFilesystem (Some aeo) with
  | CanonicalDenied reason => Ret (w, nullAtStage canonical reason)
  | CanonicalOk canonical_aeo canonical_aeo_hash cctx =>
  if negb (bool_decide (validateAeo (canonical_js canonical_aeo) cctx = ContinuityCore.VALID))
  then Ret (w, nullAtStage canonical "CANONICAL_VALIDATION_NULL")
  else
  let* nonceUnused := isNonceUnused (c_replay_nonce canonical_aeo) in
  if negb nonceUnused then Ret (w, nullAtStage replay "REPLAY_NONCE_CONSUMED")
  else
  let* omegaValidation := validateFilesystemAEO re_other (aeo_js aeo) None in
  match omegaValidation with
  | NULL denial => Ret (w, NullAt validate (denial_reason denial) (Some denial))
  | VALID _ =>
      execute_and_commit wr (str_or_empty (kernel_emitted_at context)) atao canonical_aeo
        canonical_aeo_hash w
  end end end end end end end end.
End Gateway.

(** * Theorems *)
Section GatewayTheorems.
Context {E : Type → Type} {W : Type}.
Context (re_other : string → string → bool) (date_parse : string → option Z) (date_now : Z).

Lemma canonical_no_lineage c h :
  continuity_gate date_parse date_now (canonical_js c) h None = GateOpen None.
Proof. reflexivity. Qed.

Lemma fs_adapter_cases c h content (wr : FilesystemWriter (W := W)) em w w' o :
  c_system c = "filesystem" →
  executeFilesystemAdapter date_parse date_now (canonical_js c) h content wr em w = (w', o) →
  (w' = w ∧ ∀ r, o ≠ Executed r)
  ∨ (h = sha256_id (canonical_js c) ∧ c_path c ≠ EmptyString
     ∧ w' = (wr (c_path c) content w).1
     ∧ ∀ r, o = Executed r →
         validated_object_hash r = h ∧ executed_object_hash r = h
         ∧ receipt_decision_id r = JStr (c_decision_id c)
         ∧ receipt_replay_nonce r = JStr (c_replay_nonce c)
         ∧ receipt_id r = sha256_id (receipt_body_js r) ∧ lineage_binding r = None
         ∧ receipt_emitted_at r = em).
Proof.
  intros Hsys. unfold executeFilesystemAdapter. intros E0.
  destruct (executeWithAdapter_cases date_parse date_now (FilesystemExecutionAdapter content wr)
    (canonical_js c) (JStr h) (JStr em) None w) as [(o' & Eo & Ho)|(b & Ha & Hx)].
  { rewrite Eo in E0. injection E0 as <- <-. by left. }
  destruct Ha as [_ [= ->] _ [= <-]%(eq_trans (eq_sym (canonical_no_lineage _ _)))].
  destruct (execute _ _ w) as [w1 answer] eqn:Ex. rewrite Hx in E0. injection E0 as <- <-.
  cbn in Ex. rewrite Hsys in Ex. cbn in Ex.
  destruct (is_empty_str (c_path c)) eqn:Ep.
  { injection Ex as <- <-. left. split; [done|]. intros r. done. }
  right. split; [done|]. split; [by apply String.eqb_neq in Ep|].
  destruct (wr (c_path c) content w) as [w2 [res|]]; injection Ex as <- <-; (split; [done|]);
    intros r Hr; [|done].
  apply emit_receipt_inv in Hr as (-> & -> & _ & -> & -> & -> & _ & _ & _ & _ & -> & ->). done.
Qed.

Lemma fs_adapter_success c content (wr : FilesystemWriter (W := W)) em w res :
  c_system c = "filesystem" → c_path c ≠ EmptyString → non_blank em = true →
  (wr (c_path c) content w).2 = Some res →
  non_blank (execution_id res) = true → non_blank (executed_at res) = true →
  ∃ r, executeFilesystemAdapter date_parse date_now (canonical_js c)
    (sha256_id (canonical_js c)) content wr em w = ((wr (c_path c) content w).1, Executed r)
    ∧ receipt_decision_id r = JStr (c_decision_id c).
Proof.
  intros Hsys Hp Hem Hw Hid Hat.
  unfold executeFilesystemAdapter, executeWithAdapter, computeAdapterAEOHash, hasExactAEOShape.
  cbn [is_non_blank str_or_empty]. rewrite sha256_id_non_blank, Hem, String.eqb_refl.
  cbn [truthy canonical_js negb nullish get assoc default].
  rewrite canonical_no_lineage. cbn [execute FilesystemExecutionAdapter].
  assert (fs_execute content wr (canonical_js c)
    (mkAdapterContext (sha256_id (canonical_js c)) em) w
    = ((wr (c_path c) content w).1, Evidence (JObj
        [("execution_id", JStr (execution_id res)); ("executed_at", JStr (executed_at res));
         ("adapter_surface", JStr FILESYSTEM_ADAPTER_SURFACE);
         ("adapter_specific", JObj [("bytes_written", jint (bytes_written res));
            ("path", JStr (c_path c)); ("operation", JStr (c_operation c))])]))) as ->.
  { unfold fs_execute. cbn. rewrite Hsys. cbn. apply String.eqb_neq in Hp.
    unfold is_empty_str. rewrite Hp. destruct (wr _ _ _) as [w1 o]. simpl in Hw. by subst o. }
  unfold emit_receipt. cbn. rewrite Hid, Hat, Hsys. cbn. eexists. split; reflexivity.
Qed.

Context {S : Type} (handle : ∀ X, E X → S → S * X) (s : S).
Context {vctx : FilesystemValidatorContext E} {port : ReplayRegistryPort E}.
Context {ro : ReadOnlyContext handle s}.
Context (nonce_ro : ∀ n, (run handle (isNonceUnused n) s).1 = s).
Context (wr : FilesystemWriter (W := W)).

Definition kernel (em : jsval) : FilesystemWriteKernelContext E W :=
  mkKernel (Some vctx) (Some wr) (Some port) em.

Definition gateway (intent : FilesystemWriteIntentInput) (em : jsval) (w : W) :
    S * (W * FilesystemWriteGatewayActionResult) :=
  run handle (runFilesystemWriteGatewayAction re_other date_parse date_now (Some intent)
    (kernel em) w) s.

(** What holds of the objects of a request that reaches execution. *)
Record approved (intent : FilesystemWriteIntentInput) (em : jsval) (atao : FilesystemWriteATAO)
    (aeo : FilesystemAEO) (c : CanonicalAEO) : Prop := mkApproved {
  ap_emitted : is_non_blank em = true;
  ap_capture : captureFilesystemWriteATAO (atao_input intent) = Some atao;
  ap_compile : compileFilesystemWriteAEO (Some atao) (binding intent) = Some aeo;
  ap_canonical : ∃ cctx, compileCanonicalAEOFromFilesystem (Some aeo)
    = CanonicalOk c (sha256_id (canonical_js c)) cctx;
  ap_unused : look handle s (isNonceUnused (replay_nonce (validation aeo))) = true;
  ap_valid : accepted re_other handle s (aeo_js aeo) None
}.

(** Whether the commit answered [REJECTED]. *)
Definition rejected (r : AppendResult) : bool :=
  match r with REJECTED _ => true | _ => false end.

(** Stage by stage: either a NULL that left the store alone, or the execution
    of an approved object. *)
Lemma gateway_cases intent em w :
  (∃ stage reason denial, stage ≠ execute_stage
     ∧ gateway intent em w = (s, (w, NullAt stage reason denial)))
  ∨ ∃ atao aeo c, approved intent em atao aeo c
     ∧ gateway intent em w =
       run handle (execute_and_commit date_parse date_now wr (str_or_empty em) atao c
         (sha256_id (canonical_js c)) w) s.
Proof.
  unfold gateway, runFilesystemWriteGatewayAction, kernel, nullAtStage. cbn [validator_context writer
    replay_registry kernel_emitted_at].
  destruct (is_non_blank em) eqn:Hem; cbn [negb]; [|left; do 3 eexists; split; [|reflexivity]; done].
  destruct (captureFilesystemWriteATAO _) as [atao|] eqn:Hcap;
    [|left; do 3 eexists; split; [|reflexivity]; done].
  destruct (compileFilesystemWriteAEO _ _) as [aeo|] eqn:Hcomp;
    [|left; do 3 eexists; split; [|reflexivity]; done].
  destruct (compileCanonicalAEOFromFilesystem _) as [c h cctx|] eqn:Hcan;
    [|left; do 3 eexists; split; [|reflexivity]; done].
  rewrite (canonical_valid _ _ _ _ Hcan), bool_decide_eq_true_2 by done. cbn [negb].
  pose proof (compile_canonical_ok _ _ _ _ Hcan) as (_ & Hc & Hh & _).
  assert (c_replay_nonce c = replay_nonce (validation aeo)) as Hn by (by subst c).
  rewrite run_bind, nonce_ro.
  change (run handle (isNonceUnused (c_replay_nonce c)) s).2
    with (look handle s (isNonceUnused (c_replay_nonce c))).
  destruct (look handle s (isNonceUnused (c_replay_nonce c))) eqn:Hu; cbn [negb];
    [|left; do 3 eexists; split; [|reflexivity]; done].
  destruct (validate_decides re_other handle s (aeo_js aeo) None) as [Hs Hv].
  rewrite run_bind, Hs.
  change (run handle (validateFilesystemAEO re_other (aeo_js aeo) None) s).2
    with (look handle s (validateFilesystemAEO re_other (aeo_js aeo) None)).
  destruct (look handle s (validateFilesystemAEO re_other (aeo_js aeo) None))
    as [h'|denial] eqn:Hl; [|left; do 3 eexists; split; [|reflexivity]; done].
  right. destruct (proj1 (Hv h') eq_refl) as [_ Hacc]. exists atao, aeo, c. subst h.
  split; [|done]. constructor; eauto. by rewrite <- Hn.
Qed.

Lemma approved_facts intent em atao aeo c :
  approved intent em atao aeo c →
  c = with_object_hash (aeo_for_hash aeo) (hashCanonical (canonical_js (aeo_for_hash aeo))).
Proof. intros [_ _ _ [cctx Hc] _ _]. by apply compile_canonical_ok in Hc as (_ & ? & _). Qed.

(** The writer was called once, with what an approved request asks for. *)
Definition written (intent : FilesystemWriteIntentInput) (em : jsval) (w w' : W) : Prop :=
  ∃ atao aeo c, approved intent em atao aeo c
    ∧ w' = (wr (param_path atao) (param_content atao) w).1.

Lemma approved_path intent em atao aeo c :
  approved intent em atao aeo c → c_path c = param_path atao.
Proof.
  intros Hap. rewrite (approved_facts _ _ _ _ _ Hap). destruct Hap as [_ _ Hcomp _ _ _].
  simpl. by apply compile_path in Hcomp.
Qed.

Lemma gateway_outcome intent em w s' w' result :
  gateway intent em w = (s', (w', result)) →
  match result with
  | NullAt stage _ _ => s' = s ∧ (w' = w ∨ stage = execute_stage ∧ written intent em w w')
  | GatewayThrows => s' = s ∧ (w' = w ∨ written intent em w w')
  | EXECUTED r aid | EXECUTED_UNCOMMITTED r aid =>
      ∃ atao aeo c answer, approved intent em atao aeo c
        ∧ aid = FilesystemGateway.atao_id atao
        ∧ validated_object_hash r = sha256_id (canonical_js c)
        ∧ executed_object_hash r = sha256_id (canonical_js c)
        ∧ receipt_replay_nonce r = JStr (replay_nonce (validation aeo))
        ∧ lineage_binding r = None
        ∧ w' = (wr (param_path atao) (param_content atao) w).1
        ∧ run handle (markNonceConsumed (replay_nonce (validation aeo))
            (decision_id (validation aeo))) s = (s', answer)
        ∧ rejected answer = match result with EXECUTED_UNCOMMITTED _ _ => true | _ => false end
  end.
Proof.
  intros Hg. destruct (gateway_cases intent em w) as [(st & re & de & Hst & Hc)|
    (atao & aeo & c & Hap & Hc)]; rewrite Hc in Hg; [simplify_eq; by split; [|left]|].
  unfold execute_and_commit in Hg.
  destruct (executeFilesystemAdapter _ _ _ _ _ _ _ _) as [w1 o] eqn:Ho.
  pose proof (approved_facts _ _ _ _ _ Hap) as Hcf.
  apply fs_adapter_cases in Ho; [|by rewrite Hcf].
  assert (w1 = w ∨ written intent em w w1) as Hwr.
  { destruct Ho as [[-> _]|(_ & _ & -> & _)]; [by left|right]. exists atao, aeo, c.
    split; [exact Hap|]. by rewrite (approved_path _ _ _ _ _ Hap). }
  destruct o as [r|reason rs|]; [|cbn in Hg; simplify_eq; split; [done|]; naive_solver
    |cbn in Hg; simplify_eq; by split].
  destruct Ho as [[_ Ho]|(_ & _ & -> & Hr)]; [by destruct (Ho r)|].
  destruct (Hr r eq_refl) as (Hv & He & Hd & Hrn & _ & Hb & _). rewrite Hd in Hg. cbn [str_or_empty] in Hg.
  rewrite run_bind in Hg.
  pose proof (approved_path _ _ _ _ _ Hap) as Hp.
  assert (c_replay_nonce c = replay_nonce (validation aeo)) as Hn by (by rewrite Hcf).
  assert (c_decision_id c = decision_id (validation aeo)) as Hdd by (by rewrite Hcf).
  rewrite Hn in *. rewrite Hdd, Hp in Hg.
  destruct (run handle (markNonceConsumed _ _) s) as [s1 answer] eqn:Hm. cbn [fst snd] in Hg.
  clear Hcf Hr Hn Hdd Hd.
  destruct answer; cbn in Hg; injection Hg as <- <- <-; exists atao, aeo, c; eexists;
    (split; [exact Hap|]); (split; [done|]); (split; [exact Hv|]); (split; [exact He|]);
    (split; [exact Hrn|]); (split; [exact Hb|]);
    (split; [by rewrite <- Hp|]); (split; [exact Hm|done]).
Qed.

Lemma gateway_approved intent em w atao aeo c :
  approved intent em atao aeo c →
  gateway intent em w =
    run handle (execute_and_commit date_parse date_now wr (str_or_empty em) atao c
      (sha256_id (canonical_js c)) w) s.
Proof.
  intros [Hem Hcap Hcomp [cctx Hcan] Hu Hacc].
  unfold gateway, runFilesystemWriteGatewayAction, kernel. cbn [validator_context writer
    replay_registry kernel_emitted_at].
  rewrite Hem, Hcap, Hcomp, Hcan, (canonical_valid _ _ _ _ Hcan).
  rewrite bool_decide_eq_true_2 by done. cbn [negb].
  pose proof (compile_canonical_ok _ _ _ _ Hcan) as (_ & Hc & _ & _).
  assert (c_replay_nonce c = replay_nonce (validation aeo)) as -> by (by subst c).
  rewrite run_bind, nonce_ro. unfold look in Hu. rewrite Hu. cbn [negb].
  destruct (validate_decides re_other handle s (aeo_js aeo) None) as [Hs Hv].
  rewrite run_bind, Hs. unfold look in Hv.
  by rewrite (proj2 (Hv _) (conj eq_refl Hacc)).
Qed.

Lemma gateway_completes intent em w atao aeo c res :
  approved intent em atao aeo c →
  (wr (param_path atao) (param_content atao) w).2 = Some res →
  non_blank (execution_id res) = true → non_blank (executed_at res) = true →
  ∃ r, gateway intent em w =
    let '(s', answer) := run handle (markNonceConsumed (replay_nonce (validation aeo))
      (decision_id (validation aeo))) s in
    (s', ((wr (param_path atao) (param_content atao) w).1,
      if rejected answer then EXECUTED_UNCOMMITTED r (FilesystemGateway.atao_id atao)
      else EXECUTED r (FilesystemGateway.atao_id atao))).
Proof.
  intros Hap Hw Hid Hat. rewrite (gateway_approved _ _ _ _ _ _ Hap).
  pose proof (approved_facts _ _ _ _ _ Hap) as Hcf. destruct Hap as [Hem Hcap Hcomp _ _ _].
  assert (c_path c = param_path atao) as Hp
    by (rewrite Hcf; simpl; by apply compile_path in Hcomp).
  rewrite <- Hp in *.
  destruct (fs_adapter_success c (param_content atao) wr (str_or_empty em) w res)
    as (r & Hr & Hd); try done.
  { by rewrite Hcf. }
  { rewrite Hp. by apply capture_path in Hcap. }
  { by apply is_non_blank_inv in Hem as (e & -> & ?). }
  unfold execute_and_commit. rewrite Hr, run_bind, Hd. cbn [str_or_empty]. exists r.
  assert (c_replay_nonce c = replay_nonce (validation aeo)) as -> by (by rewrite Hcf).
  assert (c_decision_id c = decision_id (validation aeo)) as -> by (by rewrite Hcf).
  destruct (run handle (markNonceConsumed _ _) s) as [s1 []]; reflexivity.
Qed.

Lemma gateway_executed intent em w s' w' r aid :
  gateway intent em w = (s', (w', EXECUTED r aid)) →
  ∃ atao aeo c, approved intent em atao aeo c
    ∧ validated_object_hash r = sha256_id (canonical_js c)
    ∧ executed_object_hash r = sha256_id (canonical_js c)
    ∧ w' = (wr (param_path atao) (param_content atao) w).1.
Proof. intros (? & ? & ? & ? & ? & ? & ? & ? & _ & _ & ? & _)%gateway_outcome. eauto 10. Qed.

(** C24. No valid object, nothing happens; and the executed object is the
    validated one. A NULL outcome leaves the store unchanged (no nonce is
    consumed) and the writer uncalled, except that a NULL of the execute stage
    may follow one call of the writer, with the path and content of a captured,
    compiled and accepted request, when what the writer answered was refused;
    so may an exception. An execution
    (committed or not) happens only to an object that was captured, compiled,
    projected, whose nonce was observed unused, and that the validator accepts;
    its receipt carries the canonical digest as validated and executed hash and
    the nonce of the AEO;
    the writer was called once, with the ATAO's path and content; the nonce was
    marked consumed once, and EXECUTED_UNCOMMITTED says that mark was rejected. *)
Theorem gateway_spec intent em w s' w' result :
  gateway intent em w = (s', (w', result)) →
  match result with
  | NullAt stage _ _ => s' = s ∧ (w' = w ∨ stage = execute_stage ∧ written intent em w w')
  | GatewayThrows => s' = s ∧ (w' = w ∨ written intent em w w')
  | EXECUTED r aid | EXECUTED_UNCOMMITTED r aid =>
      ∃ atao aeo c answer, approved intent em atao aeo c
        ∧ aid = FilesystemGateway.atao_id atao
        ∧ validated_object_hash r = sha256_id (canonical_js c)
        ∧ executed_object_hash r = sha256_id (canonical_js c)
        ∧ receipt_replay_nonce r = JStr (replay_nonce (validation aeo))
        ∧ lineage_binding r = None
        ∧ w' = (wr (param_path atao) (param_content atao) w).1
        ∧ run handle (markNonceConsumed (replay_nonce (validation aeo))
            (decision_id (validation aeo))) s = (s', answer)
        ∧ rejected answer = match result with EXECUTED_UNCOMMITTED _ _ => true | _ => false end
  end.
Proof. apply gateway_outcome. Qed.
(** An approved object is executed: when the request passes every stage and
    the writer answers with a non-blank identifier and time, the gateway
    returns EXECUTED, or EXECUTED_UNCOMMITTED exactly if the nonce could not be
    marked; the file was written and the nonce marked. *)
Theorem gateway_executes intent em w atao aeo c res :
  approved intent em atao aeo c →
  (wr (param_path atao) (param_content atao) w).2 = Some res →
  non_blank (execution_id res) = true → non_blank (executed_at res) = true →
  ∃ r, gateway intent em w =
    let '(s', answer) := run handle (markNonceConsumed (replay_nonce (validation aeo))
      (decision_id (validation aeo))) s in
    (s', ((wr (param_path atao) (param_content atao) w).1,
      if rejected answer then EXECUTED_UNCOMMITTED r (FilesystemGateway.atao_id atao)
      else EXECUTED r (FilesystemGateway.atao_id atao))).
Proof. apply gateway_completes. Qed.

(** The capture input with another content. *)
Definition with_content_input (intent : FilesystemWriteIntentInput) (content : string) :
    FilesystemWriteIntentInput :=
  mkIntentInput (put (atao_input intent) "content" (JStr content)) (binding intent).

Lemma put_get o k v : is_record o = true → get (put o k v) k = v.
Proof. destruct o; try done. simpl. by rewrite assoc_set_eq. Qed.

Lemma capture_with_content input content a :
  captureFilesystemWriteATAO input = Some a →
  ∃ id, captureFilesystemWriteATAO (put input "content" (JStr content))
    = Some (FilesystemGateway.with_content a id content).
Proof.
  intros E0. assert (is_record input = true) as Hr.
  { destruct input; try done; unfold captureFilesystemWriteATAO in E0; branches. }
  unfold captureFilesystemWriteATAO in *.
  assert (truthy (put input "content" (JStr content)) = true) as -> by (by destruct input).
  rewrite put_get by done. repeat (rewrite put_get_ne by done).
  branches. eexists. reflexivity.
Qed.

(** The content is not part of the executed object: two requests that differ
    only in the content to write, both executed, get receipts with the same
    validated and executed object hash although the writer wrote different
    contents. *)
Theorem content_not_in_object_hash intent content em w s1 w1 r1 a1 s2 w2 r2 a2 :
  gateway intent em w = (s1, (w1, EXECUTED r1 a1)) →
  gateway (with_content_input intent content) em w = (s2, (w2, EXECUTED r2 a2)) →
  validated_object_hash r1 = validated_object_hash r2
  ∧ executed_object_hash r1 = executed_object_hash r2
  ∧ ∃ path, w2 = (wr path content w).1.
Proof.
  intros H1 H2. apply gateway_executed in H1 as (atao & aeo & c & Ha & Hv & He & _).
  apply gateway_executed in H2 as (atao' & aeo' & c' & Ha' & Hv' & He' & Hw').
  pose proof (approved_facts _ _ _ _ _ Ha) as Hc. pose proof (approved_facts _ _ _ _ _ Ha') as Hc'.
  destruct Ha as [_ Hcap Hcomp _ _ _], Ha' as [_ Hcap' Hcomp' _ _ _].
  cbn [atao_input binding with_content_input] in Hcap', Hcomp'.
  destruct (capture_with_content _ content _ Hcap) as [id Hid].
  assert (atao' = FilesystemGateway.with_content atao id content) as ->
    by (rewrite Hid in Hcap'; congruence).
  rewrite (compile_with_content atao id content) in Hcomp'.
  rewrite Hcomp in Hcomp'. injection Hcomp' as <-.
  rewrite Hv, Hv', He, He', Hc, Hc'. split; [done|]. split; [done|]. by eexists.
Qed.
End GatewayTheorems.

(** * The gateway among other requests

    Stage by stage with the store changing at every await: [P] holds of the
    reads, [Q] is what the caller needs of the outcome. *)
Section GatewayInterleaved.
Context {E : Type → Type} {W : Type}.
Context (re_other : string → string → bool) (date_parse : string → option Z) (date_now : Z).
Context {S : Type} (handle : ∀ X, E X → S → S * X).
Context (I : S → Prop) (grows : S → S → Prop) `{!PreOrder grows}.
Context (P : ∀ X, E X → Prop).
Context (Hread : ∀ X (e : E X) s, P X e → I s → I (handle X e s).1 ∧ grows s (handle X e s).1).
Context {vctx : FilesystemValidatorContext E} {obs : Observes P} {port : ReplayRegistryPort E}.
Context (nonce_reads : ∀ n, tree P (λ _, True) (isNonceUnused n)).
Context (wr : FilesystemWriter (W := W)).
Context (Q : W * FilesystemWriteGatewayActionResult → S → Prop).

Lemma gateway_ok intent em w s :
  I s →
  (∀ s' stage reason denial, grows s s' → I s' → Q (w, NullAt stage reason denial) s') →
  (∀ s' atao aeo c, grows s s' → I s' →
     captureFilesystemWriteATAO (atao_input intent) = Some atao →
     compileFilesystemWriteAEO (Some atao) (binding intent) = Some aeo →
     vfield (aeo_js aeo) "pre_write_hash" ≠ EmptyString →
     c = with_object_hash (aeo_for_hash aeo) (hashCanonical (canonical_js (aeo_for_hash aeo))) →
     ok handle I grows Q (execute_and_commit date_parse date_now wr (str_or_empty em) atao c
       (sha256_id (canonical_js c)) w) s') →
  ok handle I grows Q (runFilesystemWriteGatewayAction re_other date_parse date_now (Some intent)
    (mkKernel (Some vctx) (Some wr) (Some port) em) w) s.
Proof.
  intros Hi Hnull Hexec. unfold runFilesystemWriteGatewayAction, nullAtStage.
  cbn [validator_context writer replay_registry kernel_emitted_at].
  assert (∀ s' stage reason denial, grows s s' →
    ok handle I grows Q (Ret (w, NullAt stage reason denial)) s') as Hret.
  { intros s' stage reason denial Hs s2 Hs2 Hi2. apply Hnull; [by etrans|done]. }
  destruct (is_non_blank em); cbn [negb]; [|by apply Hret].
  destruct (captureFilesystemWriteATAO _) as [atao|] eqn:Hcap; [|by apply Hret].
  destruct (compileFilesystemWriteAEO _ _) as [aeo|] eqn:Hcomp; [|by apply Hret].
  destruct (compileCanonicalAEOFromFilesystem _) as [c h cctx|] eqn:Hcan; [|by apply Hret].
  rewrite (canonical_valid _ _ _ _ Hcan), bool_decide_eq_true_2 by done. cbn [negb].
  apply compile_canonical_ok in Hcan as (_ & Hc & -> & _).
  eapply (ok_read handle I grows); [exact Hread|apply nonce_reads| |done].
  intros unused s1 Hs1 Hi1 _. destruct unused; cbn [negb]; [|by apply Hret].
  eapply (ok_read handle I grows); [exact Hread|by apply validate_tree| |done].
  intros r s2 Hs2 Hi2 Hr. assert (grows s s2) as Hs by (by etrans).
  destruct r as [h|denial]; [|by apply Hret]. eapply Hexec; try done. by apply (Hr h).
Qed.

Lemma fs_adapter_no_throw c h content em w w' :
  executeFilesystemAdapter date_parse date_now (canonical_js c) h content wr em w ≠ (w', Throws).
Proof.
  unfold executeFilesystemAdapter, executeWithAdapter. intros E0.
  cbn [truthy canonical_js negb nullish get assoc default] in E0.
  repeat (case_match; try done); simplify_eq; cbn in *;
    unfold emit_receipt, fs_execute in *; cbn in *; repeat (case_match; simplify_eq).
Qed.

Lemma execute_and_commit_ok input bd em atao aeo c w s :
  captureFilesystemWriteATAO input = Some atao →
  compileFilesystemWriteAEO (Some atao) bd = Some aeo →
  c = with_object_hash (aeo_for_hash aeo) (hashCanonical (canonical_js (aeo_for_hash aeo))) →
  I s →
  (∀ s' w' stage reason denial, grows s s' → I s' → Q (w', NullAt stage reason denial) s') →
  (∀ r, executed_object_hash r = sha256_id (canonical_js c) →
     validated_object_hash r = sha256_id (canonical_js c) →
     receipt_decision_id r = JStr (decision_id (validation aeo)) →
     receipt_replay_nonce r = JStr (replay_nonce (validation aeo)) →
     receipt_id r = sha256_id (receipt_body_js r) → lineage_binding r = None →
     ok handle I grows (λ answer, Q ((wr (param_path atao) (param_content atao) w).1,
         if rejected answer then EXECUTED_UNCOMMITTED r (FilesystemGateway.atao_id atao)
         else EXECUTED r (FilesystemGateway.atao_id atao)))
       (markNonceConsumed (replay_nonce (validation aeo)) (decision_id (validation aeo))) s) →
  ok handle I grows Q (execute_and_commit date_parse date_now wr em atao c
    (sha256_id (canonical_js c)) w) s.
Proof.
  intros Hcap Hcomp Hc Hi Hnull Hexec. unfold execute_and_commit.
  destruct (executeFilesystemAdapter _ _ _ _ _ _ _ _) as [w1 o] eqn:Ho.
  destruct o as [r|reason rs|].
  2: { intros s2 Hs2 Hi2. by apply Hnull. }
  2: { by apply fs_adapter_no_throw in Ho. }
  apply fs_adapter_cases in Ho as [[_ Ho]|(_ & _ & -> & Hr)]; [by destruct (Ho r)| |by subst c].
  destruct (Hr r eq_refl) as (Hv & He & Hd & Hn & Hid & Hb & _). rewrite Hd. cbn [str_or_empty].
  assert (c_path c = param_path atao) as ->
    by (subst c; simpl; by apply compile_path in Hcomp).
  assert (c_replay_nonce c = replay_nonce (validation aeo)) as Hcn by (by rewrite Hc).
  assert (c_decision_id c = decision_id (validation aeo)) as Hcd by (by rewrite Hc).
  rewrite Hcn in *. rewrite Hcd in *. clear Hc Hcn Hcd.
  eapply (ok_map handle I grows Q _ _ (λ answer, (_, if rejected answer then _ else _)));
    [|by apply Hexec]. by intros [].
Qed.
End GatewayInterleaved.

(** * An approved request up to its commit *)
Section GatewayQuiet.
Context {E : Type → Type} {W : Type}.
Context (re_other : string → string → bool) (date_parse : string → option Z) (date_now : Z).
Context {S : Type} (handle : ∀ X, E X → S → S * X) (s : S).
Context (P : ∀ X, E X → Prop) (Hread : ∀ X (e : E X), P X e → (handle X e s).1 = s).
Context {vctx : FilesystemValidatorContext E} {obs : Observes P} {port : ReplayRegistryPort E}.
Context {ro : ReadOnlyContext handle s}.
Context (nonce_reads : ∀ n, tree P (λ _, True) (isNonceUnused n)).
Context (wr : FilesystemWriter (W := W)).

(** All it does before the commit is read. *)
Lemma gateway_quiet intent em w atao aeo c :
  approved re_other handle s intent em atao aeo c →
  quiet handle s
    (runFilesystemWriteGatewayAction re_other date_parse date_now (Some intent)
       (mkKernel (Some vctx) (Some wr) (Some port) em) w)
    (execute_and_commit date_parse date_now wr (str_or_empty em) atao c
       (sha256_id (canonical_js c)) w).
Proof.
  intros [Hem Hcap Hcomp [cctx Hcan] Hu Hacc].
  unfold runFilesystemWriteGatewayAction. cbn [validator_context writer
    replay_registry kernel_emitted_at].
  rewrite Hem, Hcap, Hcomp, Hcan, (canonical_valid _ _ _ _ Hcan).
  rewrite bool_decide_eq_true_2 by done. cbn [negb].
  pose proof (compile_canonical_ok _ _ _ _ Hcan) as (_ & Hc & _ & _).
  assert (c_replay_nonce c = replay_nonce (validation aeo)) as -> by (by subst c).
  eapply quiet_trans; [by eapply quiet_read|]. unfold look in Hu. rewrite Hu. cbn [negb].
  destruct (validate_decides re_other handle s (aeo_js aeo) None) as [_ Hv]. unfold look in Hv.
  eapply quiet_trans; [by eapply quiet_read, validate_tree|].
  rewrite (proj2 (Hv _) (conj eq_refl Hacc)). constructor.
Qed.

(** Then it writes, and marks the nonce. *)
Lemma commit_form intent em w atao aeo c res :
  approved re_other handle s intent em atao aeo c →
  (wr (param_path atao) (param_content atao) w).2 = Some res →
  non_blank (execution_id res) = true → non_blank (executed_at res) = true →
  ∃ r, receipt_replay_nonce r = JStr (replay_nonce (validation aeo))
    ∧ receipt_id r = sha256_id (receipt_body_js r) ∧ receipt_emitted_at r = str_or_empty em
    ∧ validated_object_hash r = executed_object_hash r ∧ lineage_binding r = None
    ∧ execute_and_commit date_parse date_now wr (str_or_empty em) atao c
        (sha256_id (canonical_js c)) w =
      bind (markNonceConsumed (replay_nonce (validation aeo)) (decision_id (validation aeo)))
        (λ answer, let w' := (wr (param_path atao) (param_content atao) w).1 in
           match answer with
           | REJECTED _ => Ret (w', EXECUTED_UNCOMMITTED r (FilesystemGateway.atao_id atao))
           | _ => Ret (w', EXECUTED r (FilesystemGateway.atao_id atao))
           end).
Proof.
  intros Hap Hw Hid Hat. pose proof (approved_facts _ _ _ _ _ _ _ _ Hap) as Hcf.
  destruct Hap as [Hem Hcap Hcomp _ _ _].
  assert (c_path c = param_path atao) as Hp
    by (rewrite Hcf; simpl; by apply compile_path in Hcomp).
  rewrite <- Hp in *.
  destruct (fs_adapter_success date_parse date_now c (param_content atao) wr (str_or_empty em) w
    res) as (r & Hr & Hd); try done.
  { by rewrite Hcf. }
  { rewrite Hp. by apply capture_path in Hcap. }
  { by apply is_non_blank_inv in Hem as (e & -> & ?). }
  assert (c_replay_nonce c = replay_nonce (validation aeo)) as Hcn by (by rewrite Hcf).
  assert (c_decision_id c = decision_id (validation aeo)) as Hcd by (by rewrite Hcf).
  assert (c_system c = "filesystem") as Hsys by (by rewrite Hcf).
  destruct (fs_adapter_cases _ _ _ _ _ _ _ _ _ _ Hsys Hr) as [[_ Ho]|(_ & _ & _ & Hrec)]; [by destruct (Ho r)|].
  destruct (Hrec r eq_refl) as (Hv & He & _ & Hn & Hi & Hb & Hm).
  exists r. rewrite Hn, Hv, He, Hcn. repeat (split; [done|]).
  unfold execute_and_commit. rewrite Hr, Hd. cbn [str_or_empty]. by rewrite Hcn, Hcd.
Qed.
End GatewayQuiet.

(** ** A concrete gateway over the fixture registries *)
#[export] Instance fixture_port : ReplayRegistryPort no_effect := {|
  isNonceUnused _ := Ret true;
  markNonceConsumed n d := Ret (APPENDED n d)
|}.

Definition fixture_intent : FilesystemWriteIntentInput :=
  mkIntentInput fixture_capture (JObj
    [("decision_id", JStr "AUTH-fixture-001");
     ("authority_lineage_hash", JStr "sha256:fixture-authority-lineage-hash");
     ("policy_id", JStr "filesystem-write-policy-v1");
     ("policy_hash", JStr "sha256:fixture-policy-hash");
     ("pre_write_hash", JStr "sha256:fixture-pre-write-hash");
     ("proposed_diff_hash", JStr EmptyString);
     ("replay_nonce", JStr "nonce-1"); ("allowed_paths", JArr [JStr "src/**"]);
     ("denied_paths", JArr []); ("allowed_operations", JArr [JStr "modify"]);
     ("denied_operations", JArr []); ("max_files", jint 1); ("max_diff_lines", jint 300)]).

Definition fixture_time : jsval := JStr "2026-01-01T00:00:00.000Z".

Lemma fixture_approved content : ∃ id aeo c,
  approved (λ _ _, false) no_handle tt (with_content_input fixture_intent content) fixture_time
    (FilesystemGateway.with_content fixture_atao id content) aeo c.
Proof.
  do 3 eexists. constructor; [reflexivity| | | | |].
  - cbn. unfold captureFilesystemWriteATAO. cbn. reflexivity.
  - reflexivity.
  - eexists. unfold compileCanonicalAEOFromFilesystem. reflexivity.
  - reflexivity.
  - split; [done|]. split; [done|]. split; [by left|]. split; [done|]. split; [done|].
    eexists. split; [reflexivity|]. split; [done|]. split; [done|]. split; [done|].
    eexists. split; [reflexivity|]. split; [done|]. split; [done|]. split; [done|].
    eexists. split; [reflexivity|]. split.
    + split; [done|]. split; [done|]. split; [done|]. cbn. rewrite <- !str_in_elem. done.
    + split; [done|]. split; [split; [done|by left]|]. split; [|done]. by left.
Qed.

Abbreviation fixture_gateway content :=
  (gateway (λ _ _, false) (λ _, None) 0 no_handle tt logging_writer
    (with_content_input fixture_intent content) fixture_time []).

Lemma fixture_nonce_ro n : (run no_handle (isNonceUnused n) tt).1 = tt.
Proof. reflexivity. Qed.

Lemma fixture_gateway_executes content :
  ∃ r id, fixture_gateway content = (tt, ([("src/example.ts", content)], EXECUTED r id)).
Proof.
  destruct (fixture_approved content) as (id & aeo & c & Hap).
  destruct (gateway_completes (λ _ _, false) (λ _, None) 0 no_handle tt fixture_nonce_ro
    logging_writer _ _ [] _ _ _ (mkWriteResult "fs-write:1" "now" 2) Hap eq_refl eq_refl eq_refl)
    as (r & Hr).
  exists r. eexists. exact Hr.
Qed.

Lemma gateway_executes_witness :
  ∃ r id, fixture_gateway "hello" = (tt, ([("src/example.ts", "hello")], EXECUTED r id)).
Proof.
  destruct (fixture_approved "hello") as (id & aeo & c & Hap).
  destruct (gateway_executes (λ _ _, false) (λ _, None) 0 no_handle tt fixture_nonce_ro
    logging_writer _ _ [] _ _ _ (mkWriteResult "fs-write:1" "now" 2) Hap eq_refl eq_refl eq_refl)
    as (r & Hr).
  exists r. eexists. exact Hr.
Defined.

Lemma gateway_spec_witness :
  ∃ r id, fixture_gateway "hello" = (tt, ([("src/example.ts", "hello")], EXECUTED r id))
    ∧ validated_object_hash r = executed_object_hash r.
Proof.
  destruct (fixture_gateway_executes "hello") as (r & id & Hg). exists r, id. split; [exact Hg|].
  destruct (gateway_spec (λ _ _, false) (λ _, None) 0 no_handle tt fixture_nonce_ro
    logging_writer _ _ _ _ _ _ Hg) as (? & ? & ? & ? & _ & _ & Hv & He & _).
  etransitivity; [exact Hv|symmetry; exact He].
Defined.

Lemma content_not_in_object_hash_witness :
  ∃ r1 a1 r2 a2,
    fixture_gateway "hello" = (tt, ([("src/example.ts", "hello")], EXECUTED r1 a1))
    ∧ fixture_gateway "goodbye" = (tt, ([("src/example.ts", "goodbye")], EXECUTED r2 a2))
    ∧ executed_object_hash r1 = executed_object_hash r2.
Proof.
  destruct (fixture_gateway_executes "hello") as (r1 & a1 & H1).
  destruct (fixture_gateway_executes "goodbye") as (r2 & a2 & H2).
  exists r1, a1, r2, a2. split; [exact H1|]. split; [exact H2|].
  assert (with_content_input fixture_intent "goodbye"
    = with_content_input (with_content_input fixture_intent "hello") "goodbye") as Ei
    by reflexivity.
  rewrite Ei in H2.
  destruct (content_not_in_object_hash (λ _ _, false) (λ _, None) 0 no_handle tt fixture_nonce_ro
    logging_writer _ "goodbye" _ _ _ _ _ _ _ _ _ _ H1 H2) as (_ & He & _). exact He.
Defined.
