(* ===== verification/NullAudit.v ===== *)
(** Bounded NULL responses: [src/lib/null-audit.ts].

    The reason classes of the internal audit record and the response the agent
    sees. The correlation identifier comes from a random source and is an
    argument wherever it is used. *)
From Stdlib Require Import ZArith NArith Lia Ascii.
From stdpp Require Import base list strings gmap.
From S2P Require Import Prelude JsValue.

Inductive ReasonClass := REPLAY_NULL | POLICY_NULL | MUTATION_NULL.

#[export] Instance reason_class_eq_dec : EqDecision ReasonClass.
Proof. solve_decision. Defined.

Definition reason_class_str (c : ReasonClass) : string :=
  match c with
  | REPLAY_NULL => "REPLAY_NULL" | POLICY_NULL => "POLICY_NULL"
  | MUTATION_NULL => "MUTATION_NULL"
  end.

(** [result], [execution_performed] and [proof_emitted] are constants of the
    record. *)
Record NullAuditRecord := mkAudit {
  correlation_id : string;
  reason_class : ReasonClass;
  audit_stage : option string;
  audit_denial_reason : option string;
  audit_agent_id : option string;
  audit_session_id : option string;
  audit_atao_id : option string;
  audit_canonical_aeo_hash : option string;
  audit_decision_id : option string;
  audit_replay_nonce : option string;
  validator_version : string;
  audit_created_at : string
}.

Definition NULL_AUDIT_VALIDATOR_VERSION : string := "omega_fs_v1".

Definition REPLAY_VALUES : list string :=
  ["REPLAY_NONCE_CONSUMED"; "REPLAY_NOT_ALLOWED"; "REPLAY_NOT_DETERMINABLE";
   "REPLAY_STATE_UNKNOWN"; "REPLAY_NONCE_MISSING"; "REPLAY_NONCE_CONSUMED_OR_RESERVED";
   "AEO_ALREADY_CONSUMED"; "replay_nonce_decision_mismatch"].

Definition MUTATION_VALUES : list string :=
  ["AEO_HASH_MISMATCH"; "OBJECT_HASH_MISMATCH"; "AEO_SHAPE_INVALID"; "INVALID_AEO_SHAPE";
   "CANONICAL_VALIDATION_NULL"; "ATAO_CAPTURE_FAILED"; "AEO_COMPILE_FAILED";
   "NULL_GATEWAY_INPUT"; "NULL_VALIDATOR_CONTEXT"; "NULL_WRITER"; "NULL_REPLAY_REGISTRY";
   "NULL_EMITTED_AT"; "NULL_AEO_INPUT"; "NULL_VALIDATED_HASH"; "NULL_EXECUTOR";
   "EXTRA_FIELD_PRESENT"; "MISSING_REQUIRED_FIELD"; "PRE_WRITE_HASH_MISSING";
   "PRE_WRITE_HASH_MISMATCH"; "TARGET_PRESTATE_UNOBSERVABLE"; "OBSERVATION_DENIED";
   "OBSERVATION_TIMEOUT"; "OBSERVATION_UNAVAILABLE"; "STALE_PRESTATE"; "DIFF_HASH_MISMATCH";
   "DIFF_INSPECTION_FAILED"; "DIFF_NOT_APPLICABLE"; "WRITER_CAPTURE_MISSING";
   "EVIDENCE_MISSING_EXECUTION_ID"; "EVIDENCE_MISSING_EXECUTED_AT";
   "EVIDENCE_SURFACE_MISMATCH"; "EVIDENCE_ADAPTER_SPECIFIC_NULL"; "EXECUTOR_RETURNED_NULL"].

(** Lines 118-124: the first candidate found in a table decides. *)
Fixpoint classify_candidates (candidates : list (option string)) : ReasonClass :=
  match candidates with
  | [] => POLICY_NULL
  | None :: rest => classify_candidates rest
  | Some c :: rest =>
      if is_empty_str c then classify_candidates rest
      else if str_in c REPLAY_VALUES then REPLAY_NULL
      else if str_in c MUTATION_VALUES then MUTATION_NULL
      else classify_candidates rest
  end.

Definition classifyReasonClass (stage reason failure_class null_reason : option string) :
    ReasonClass :=
  classify_candidates [failure_class; null_reason; reason; stage].

Definition buildBoundedNullResponse (correlation_id : string) : list (string * jsval) :=
  [("result", JStr "NULL"); ("execution_performed", JBool false);
   ("proof_emitted", JBool false); ("correlation_id", JStr correlation_id)].

(** The two tables do not overlap, so the class of a single code does not depend
    on their order. *)
Lemma reason_tables_disjoint c : c ∈ REPLAY_VALUES → c ∉ MUTATION_VALUES.
Proof.
  assert (forallb (λ c, negb (str_in c MUTATION_VALUES)) REPLAY_VALUES = true) as H by reflexivity.
  rewrite forallb_elem in H. intros Hc. rewrite <- str_in_elem. apply H in Hc.
  apply negb_true_iff in Hc. congruence.
Qed.
