(* ===== verification/FilesystemRoute.v ===== *)
(** The filesystem-write route: [src/lib/filesystem-write-route-adapter.ts].

    The D1 tables of the route are the store; a request is a program whose
    operations are the SQL statements it awaits, in the order of the source.
    Clock readings and the correlation identifier are arguments of a request. *)
From Stdlib Require Import ZArith NArith Lia Ascii.
From stdpp Require Import base list strings pretty gmap.
From S2P Require Import Prelude JsValue Sha256 Canonical Effects ContinuityCore FilesystemAeo.
From S2P Require Import FilesystemGateway CanonicalAeo ExecutionEligibility Adapter Glob.
From S2P Require Import FilesystemValidator RuntimeGateway NullAudit.

Definition FILESYSTEM_WRITE_ADAPTER_ROUTE : string := "/gateway/tool/filesystem-write".
Definition GATEWAY_DECISION_ID : string := "AUTH-filesystem-write-gateway-001".
Definition GATEWAY_POLICY_ID : string := "filesystem-write-gateway-policy-v1".
Definition SEED_PATH : string := "governed/filesystem-write-gateway/seed.md".

(** Line breaks of the source string are the character 10. *)
Definition newline : string := String (ascii_of_N 10) EmptyString.
Definition SEED_CONTENT : string :=
  "# Governed Filesystem Write Gateway" +:+ newline +:+ newline
  +:+ "Seed object for the runtime-enforced filesystem-write gateway action (issue #1890)."
  +:+ newline
  +:+ "Every mutation to this registry passes through runFilesystemWriteGatewayAction."
  +:+ newline.

Definition policy_allowed_paths : list string := ["governed/filesystem-write-gateway/**"].
Definition policy_denied_paths : list string := ["governed/filesystem-write-gateway/secrets/**"].
Definition policy_allowed_operations : list string := ["create"; "modify"].
Definition policy_denied_operations : list string := ["delete"; "chmod"; "rename"; "symlink"].

Definition GATEWAY_POLICY_BODY : jsval :=
  JObj [("policy_id", JStr GATEWAY_POLICY_ID);
        ("allowed_paths", JArr (map JStr policy_allowed_paths));
        ("denied_paths", JArr (map JStr policy_denied_paths));
        ("allowed_operations", JArr (map JStr policy_allowed_operations));
        ("denied_operations", JArr (map JStr policy_denied_operations));
        ("max_files", jint 1); ("max_diff_lines", jint 300)].

(** Cached after the first call; the cache does not change the answer. *)
Definition filesystemWriteGatewayPolicyHash : string := sha256_id GATEWAY_POLICY_BODY.

Definition GATEWAY_LINEAGE_HASH : string :=
  sha256_id (JObj [("decision_id", JStr GATEWAY_DECISION_ID);
    ("surface", JStr "filesystem_write"); ("scope", JStr "repository")]).

(** ["sha256:" + sha256Hex(content)]. *)
Definition content_id (content : string) : string := "sha256:" +:+ sha256Hex content.

(** * Tables *)
Record ObjectRow := mkObject {
  o_content : string;
  o_content_hash : string;
  o_bytes_written : Z;
  o_updated_at : string
}.

Record DecisionRow := mkDecisionRow {
  dr_status : string;
  dr_authority_lineage_hash : string;
  dr_scope : string;
  dr_expires_at : option string;
  dr_created_at : string
}.

Record NonceRow := mkNonce {
  n_decision_id : string;
  n_state : ReplayState;
  n_created_at : string;
  n_consumed_at : option string
}.

Record ProofRow := mkProofRow {
  pr_atao_id : string;
  pr_validated_object_hash : string;
  pr_executed_object_hash : string;
  pr_execution_evidence_hash : string;
  pr_adapter_surface : jsval;
  pr_decision_id : jsval;
  pr_replay_nonce : jsval;
  pr_target_path : string;
  pr_emitted_at : string;
  pr_created_at : string
}.

Record LineageRow := mkLineageRow {
  lr_canonical_aeo_hash : string;
  lr_receipt_id : string;
  lr_decision_id : jsval;
  lr_replay_nonce : jsval;
  lr_target_path : string;
  lr_created_at : string
}.

Record db := mkDb {
  objects : gmap string ObjectRow;
  decisions : gmap string DecisionRow;
  nonces : gmap string NonceRow;
  proofs : gmap string ProofRow;
  lineage : gmap string LineageRow;
  audits : gmap string NullAuditRecord
}.

Definition empty_db : db := mkDb ∅ ∅ ∅ ∅ ∅ ∅.

(** * SQL statements of the route

    The [CREATE ... IF NOT EXISTS] statements only create the tables and the
    append-only triggers, which no statement below would fire. *)
Inductive D1 : Type → Type :=
  | InsertDecisionOrIgnore (id : string) (row : DecisionRow) : D1 unit
  | InsertObjectOrIgnore (path : string) (row : ObjectRow) : D1 unit
  | SelectDecision (id : string) : D1 (option DecisionRow)
  | SelectNonce (nonce : string) : D1 (option NonceRow)
  | SelectObject (path : string) : D1 (option ObjectRow)
  | UpsertNonceConsumed (nonce decision now : string) : D1 Z
  | UpsertObject (path : string) (row : ObjectRow) : D1 unit
  | InsertProof (receipt_id : string) (row : ProofRow) : D1 bool
  | InsertLineageDoNothing (node_id : string) (row : LineageRow) : D1 Z
  | InsertAuditDoNothing (record : NullAuditRecord) : D1 Z.

Definition set_objects (f : gmap string ObjectRow → gmap string ObjectRow) (s : db) : db :=
  mkDb (f (objects s)) (decisions s) (nonces s) (proofs s) (lineage s) (audits s).
Definition set_decisions (f : gmap string DecisionRow → gmap string DecisionRow) (s : db) : db :=
  mkDb (objects s) (f (decisions s)) (nonces s) (proofs s) (lineage s) (audits s).
Definition set_nonces (f : gmap string NonceRow → gmap string NonceRow) (s : db) : db :=
  mkDb (objects s) (decisions s) (f (nonces s)) (proofs s) (lineage s) (audits s).
Definition set_proofs (f : gmap string ProofRow → gmap string ProofRow) (s : db) : db :=
  mkDb (objects s) (decisions s) (nonces s) (f (proofs s)) (lineage s) (audits s).
Definition set_lineage (f : gmap string LineageRow → gmap string LineageRow) (s : db) : db :=
  mkDb (objects s) (decisions s) (nonces s) (proofs s) (f (lineage s)) (audits s).
Definition set_audits (f : gmap string NullAuditRecord → gmap string NullAuditRecord) (s : db) : db :=
  mkDb (objects s) (decisions s) (nonces s) (proofs s) (lineage s) (f (audits s)).

(** The row the upsert leaves: on conflict only the state and the time change. *)
Definition consumed_row (old : option NonceRow) (decision now : string) : NonceRow :=
  match old with
  | Some row => mkNonce (n_decision_id row) CONSUMED (n_created_at row) (Some now)
  | None => mkNonce decision CONSUMED now (Some now)
  end.

(** What each statement does and answers: a row, the number of changes, or
    (for the proof insert) whether the primary key was free. *)
Definition d1 (X : Type) (e : D1 X) (s : db) : db * X :=
  match e in D1 X return db * X with
  | InsertDecisionOrIgnore id row =>
      (set_decisions (λ m, match m !! id with Some _ => m | None => <[id := row]> m end) s, tt)
  | InsertObjectOrIgnore path row =>
      (set_objects (λ m, match m !! path with Some _ => m | None => <[path := row]> m end) s, tt)
  | SelectDecision id => (s, decisions s !! id)
  | SelectNonce nonce => (s, nonces s !! nonce)
  | SelectObject path => (s, objects s !! path)
  | UpsertNonceConsumed nonce decision now =>
      (set_nonces (λ m, <[nonce := consumed_row (m !! nonce) decision now]> m) s, 1%Z)
  | UpsertObject path row => (set_objects (λ m, <[path := row]> m) s, tt)
  | InsertProof id row =>
      match proofs s !! id with
      | Some _ => (s, false)
      | None => (set_proofs (λ m, <[id := row]> m) s, true)
      end
  | InsertLineageDoNothing id row =>
      match lineage s !! id with
      | Some _ => (s, 0%Z)
      | None => (set_lineage (λ m, <[id := row]> m) s, 1%Z)
      end
  | InsertAuditDoNothing record =>
      match audits s !! correlation_id record with
      | Some _ => (s, 0%Z)
      | None => (set_audits (λ m, <[correlation_id record := record]> m) s, 1%Z)
      end
  end.

(** * Clock readings and random handle of one request *)
Record request_env := mkEnv {
  t_ensure : string;
  t_timestamp : string;
  t_emitted : string;
  t_write : string;
  t_consumed : string;
  t_persisted : string;
  t_lineage : string;
  t_audit : string;
  new_correlation_id : string
}.

Section Route.
Context (re_other : string → string → bool) (date_parse : string → option Z) (date_now : Z).

Local Open Scope prog_scope.

(** * Ports over the tables *)
Definition normalizeGovernedFilesystemPath (path : string) : ObservationResult string :=
  if negb (non_blank path) then ObsErr AMBIGUOUS_PATH false true
  else if starts_with "/" path || includes ".." path || includes "\" path
  then ObsErr OUTSIDE_SCOPE false true
  else ObsOk path.

Definition d1_isNonceUnused (replay_nonce : string) : prog D1 bool :=
  let* row := await (SelectNonce replay_nonce) in
  Ret (match row with None => true | Some r => bool_decide (n_state r = UNUSED) end).

Definition d1_markNonceConsumed (now replay_nonce decision_id : string) :
    prog D1 AppendResult :=
  let* changes := await (UpsertNonceConsumed replay_nonce decision_id now) in
  Ret (if (0 <? changes)%Z then APPENDED replay_nonce decision_id
       else ALREADY_EXISTS replay_nonce decision_id).

Definition buildD1ReplayRegistryPort (now : string) : ReplayRegistryPort D1 := {|
  isNonceUnused := d1_isNonceUnused;
  markNonceConsumed := d1_markNonceConsumed now
|}.

Definition appendLineageNode (node_id : string) (row : LineageRow) : prog D1 AppendResult :=
  let* changes := await (InsertLineageDoNothing node_id row) in
  Ret (if (0 <? changes)%Z then APPENDED node_id (lr_canonical_aeo_hash row)
       else ALREADY_EXISTS node_id (lr_canonical_aeo_hash row)).

Definition appendNullAuditRecord (record : NullAuditRecord) : prog D1 AppendResult :=
  let* changes := await (InsertAuditDoNothing record) in
  Ret (if (0 <? changes)%Z
       then APPENDED (correlation_id record) (reason_class_str (reason_class record))
       else ALREADY_EXISTS (correlation_id record) (reason_class_str (reason_class record))).

Definition gateway_policy (policy_hash : string) : PolicyRecord :=
  mkPolicy GATEWAY_POLICY_ID policy_hash policy_allowed_paths policy_denied_paths
    policy_allowed_operations policy_denied_operations 1 300.

Definition buildD1FilesystemValidatorContext (policy_hash : string) :
    FilesystemValidatorContext D1 := {|
  readDecision decisionId :=
    let* row := await (SelectDecision decisionId) in
    Ret (match row with
         | None => ObsErr REGISTRY_MISS false true
         | Some r => ObsOk (mkDecision decisionId (dr_status r) (dr_authority_lineage_hash r)
             (dr_scope r) (dr_expires_at r))
         end);
  readPolicy _ := Ret (ObsOk (gateway_policy policy_hash));
  readNonceState replayNonce :=
    let* unused := d1_isNonceUnused replayNonce in
    Ret (ObsOk (if unused then UNUSED else CONSUMED));
  readAeoState _ := Ret (ObsOk AEO_UNUSED);
  normalizePath := normalizeGovernedFilesystemPath;
  readHash normalizedPath :=
    let* row := await (SelectObject normalizedPath) in
    Ret (match row with
         | None => ObsErr NOT_FOUND false true
         | Some r => ObsOk (o_content_hash r)
         end);
  inspectApplicability _ _ _ := Ret (ObsOk (mkDiff true EmptyString))
|}.

(** The writer's closure variable. *)
Record FilesystemWriterCapture := mkCapture {
  cap_path : string;
  cap_content : string;
  cap_bytes_written : Z
}.

Definition buildD1FilesystemWriter (clock : string) :
    FilesystemWriter (W := option FilesystemWriterCapture) :=
  λ path content _,
    let bytes := Z.of_nat (js_length content) in
    (Some (mkCapture path content bytes),
     Some (mkWriteResult ("fs-write:sha256:" +:+ sha256Hex content) clock bytes)).

(** * Responses *)
Definition filesystemWriteResponse (data : list (string * jsval)) : jsval :=
  JObj ([("route", JStr FILESYSTEM_WRITE_ADAPTER_ROUTE); ("mutation_capability", JBool true);
         ("execution_capability", JBool true); ("proof_generating", JBool true);
         ("creates_authority", JBool false)] ++ data).

(** A response, or an exception that leaves the handler. *)
Inductive route_result :=
  | Response (body : jsval)
  | HandlerThrows.

Definition non_empty_opt (s : string) : option string :=
  if is_empty_str s then None else Some s.

Definition respondBoundedNull (env : request_env) (stage reason : option string)
    (failure_class agent_id session_id atao_id canonical_aeo_hash decision_id
     replay_nonce : option string) : prog D1 route_result :=
  let record := mkAudit (new_correlation_id env)
    (classifyReasonClass stage reason failure_class None) stage
    (match failure_class with Some f => Some f | None => reason end)
    agent_id session_id atao_id canonical_aeo_hash decision_id replay_nonce
    NULL_AUDIT_VALIDATOR_VERSION (t_audit env) in
  let* _ := appendNullAuditRecord record in
  Ret (Response (filesystemWriteResponse (buildBoundedNullResponse (new_correlation_id env)))).

Definition ensureFilesystemWriteGatewayRegistry (env : request_env) : prog D1 unit :=
  let* _ := await (InsertDecisionOrIgnore GATEWAY_DECISION_ID
    (mkDecisionRow "ACTIVE" GATEWAY_LINEAGE_HASH "repository" None (t_ensure env))) in
  await (InsertObjectOrIgnore SEED_PATH
    (mkObject SEED_CONTENT (content_id SEED_CONTENT) (Z.of_nat (js_length SEED_CONTENT))
      (t_ensure env))).

Definition receipt_js (r : AdapterProofReceipt) : jsval :=
  match receipt_body_js r with
  | JObj ps => JObj (("receipt_id", JStr (receipt_id r)) :: ps)
  | v => v
  end.

(** Lines 475-487: the answer to an execution. *)
Definition executed_response (committed : bool) (receipt : AdapterProofReceipt)
    (captured : FilesystemWriterCapture) (lineage_status : list (string * jsval)) : jsval :=
  let status := JStr (if committed then "EXECUTED" else "EXECUTED_UNCOMMITTED") in
  filesystemWriteResponse
    ([("status", status); ("result", status); ("receipt", receipt_js receipt);
      ("target_path", JStr (cap_path captured));
      ("bytes_written", jint (cap_bytes_written captured));
      ("content_hash", JStr (content_id (cap_content captured)))] ++ lineage_status).

(** The rows of lines 456-457 and 464-475. *)
Definition proof_row (receipt : AdapterProofReceipt) (captured : FilesystemWriterCapture)
    (atao_id persisted_at : string) : ProofRow :=
  mkProofRow atao_id (validated_object_hash receipt) (executed_object_hash receipt)
    (execution_evidence_hash receipt) (adapter_surface receipt)
    (receipt_decision_id receipt) (receipt_replay_nonce receipt) (cap_path captured)
    (receipt_emitted_at receipt) persisted_at.

Definition lineage_row (receipt : AdapterProofReceipt) (captured : FilesystemWriterCapture)
    (now : string) : LineageRow :=
  mkLineageRow (validated_object_hash receipt) (receipt_id receipt)
    (receipt_decision_id receipt) (receipt_replay_nonce receipt) (cap_path captured) now.

(** Lines 447-487: persisting an execution and answering. *)
Definition persist_execution (env : request_env) (captured : FilesystemWriterCapture)
    (receipt : AdapterProofReceipt) (atao_id : string) (committed : bool) :
    prog D1 route_result :=
  let content_hash := content_id (cap_content captured) in
  let* _ := await (UpsertObject (cap_path captured)
    (mkObject (cap_content captured) content_hash (cap_bytes_written captured)
      (t_persisted env))) in
  let* fresh := await (InsertProof (receipt_id receipt)
    (proof_row receipt captured atao_id (t_persisted env))) in
  if negb fresh then Ret HandlerThrows
  else
    let respond lineage_status :=
      Ret (Response (executed_response committed receipt captured lineage_status)) in
    if committed then
      let* lineageResult := appendLineageNode ("lineage:" +:+ receipt_id receipt)
        (lineage_row receipt captured (t_lineage env)) in
      respond [("lineage_append_status", JStr (append_status lineageResult))]
    else respond [].

(** Lines 424-487: the outcome of the gateway. *)
Definition finish_request (env : request_env) (agent_id session_id decision_id replay_nonce : string)
    (outcome : option FilesystemWriterCapture * FilesystemWriteGatewayActionResult) :
    prog D1 route_result :=
  match outcome.2 with
  | GatewayThrows => Ret HandlerThrows
  | NullAt stage reason denial =>
      respondBoundedNull env (Some (stage_str stage)) (Some reason)
        (option_map failure_class denial) (Some agent_id) (Some session_id) None
        (match denial with Some d => denial_aeo_hash d | None => None end)
        (Some decision_id) (Some replay_nonce)
  | EXECUTED receipt atao_id | EXECUTED_UNCOMMITTED receipt atao_id =>
      match outcome.1 with
      | None =>
          respondBoundedNull env (Some "execute") (Some "WRITER_CAPTURE_MISSING") None
            (Some agent_id) (Some session_id) (Some atao_id)
            (Some (validated_object_hash receipt)) (Some decision_id) (Some replay_nonce)
      | Some captured =>
          persist_execution env captured receipt atao_id
            match outcome.2 with EXECUTED _ _ => true | _ => false end
      end
  end.

(** Lines 386-411. *)
Definition route_intent (env : request_env)
    (agent_id session_id intent path content decision_id lineage_hash pre_write_hash
     replay_nonce : string) : FilesystemWriteIntentInput :=
  mkIntentInput
    (JObj [("agent_id", JStr agent_id); ("session_id", JStr session_id);
           ("intent", JStr intent); ("path", JStr path); ("content", JStr content);
           ("repo", JStr "mindshift-demo"); ("root", JStr "repository");
           ("timestamp", JStr (t_timestamp env))])
    (JObj [("decision_id", JStr decision_id); ("authority_lineage_hash", JStr lineage_hash);
           ("policy_id", JStr GATEWAY_POLICY_ID);
           ("policy_hash", JStr filesystemWriteGatewayPolicyHash);
           ("pre_write_hash", JStr pre_write_hash); ("proposed_diff_hash", JStr EmptyString);
           ("replay_nonce", JStr replay_nonce);
           ("allowed_paths", JArr (map JStr policy_allowed_paths));
           ("denied_paths", JArr (map JStr policy_denied_paths));
           ("allowed_operations", JArr (map JStr policy_allowed_operations));
           ("denied_operations", JArr (map JStr policy_denied_operations));
           ("max_files", jint 1); ("max_diff_lines", jint 300)]).

(** The text of a body field: [String(b.k || "")]. *)
Definition body_text (b : jsval) (k : string) : string :=
  to_string (js_or (get b k) (JStr EmptyString)).

(** [request.json()] gave [b] ([null] when it failed). *)
Definition handleFilesystemWriteRoute (env : request_env) (b : jsval) : prog D1 route_result :=
  let* _ := ensureFilesystemWriteGatewayRegistry env in
  if negb (is_record b || is_array b) then
    respondBoundedNull env (Some "capture") (Some "malformed_request") None None None None None
      None None
  else
    let agent_id := body_text b "agent_id" in
    let session_id := body_text b "session_id" in
    let intent := body_text b "intent" in
    let path := body_text b "path" in
    let content := str_or_empty (get b "content") in
    let decision_id := to_string (js_or (get b "decision_id") (JStr GATEWAY_DECISION_ID)) in
    let replay_nonce := body_text b "replay_nonce" in
    if is_empty_str agent_id || is_empty_str session_id || is_empty_str intent
       || is_empty_str path || is_empty_str replay_nonce then
      respondBoundedNull env (Some "capture") (Some "missing_required_fields") None
        (non_empty_opt agent_id) (non_empty_opt session_id) None None None None
    else
      let* decisionRow := await (SelectDecision decision_id) in
      match decisionRow with
      | None =>
          respondBoundedNull env (Some "validate") (Some "decision_not_found") None
            (Some agent_id) (Some session_id) None None (Some decision_id) (Some replay_nonce)
      | Some drow =>
          let* nonceRow := await (SelectNonce replay_nonce) in
          if match nonceRow with
             | Some n => negb (String.eqb (n_decision_id n) decision_id)
             | None => false
             end
          then
            respondBoundedNull env (Some "validate") (Some "replay_nonce_decision_mismatch") None
              (Some agent_id) (Some session_id) None None (Some decision_id) (Some replay_nonce)
          else
            let* existingObject := await (SelectObject path) in
            let pre_write_hash :=
              match existingObject with Some o => o_content_hash o | None => EmptyString end in
            let policy_hash := filesystemWriteGatewayPolicyHash in
            let* outcome := runFilesystemWriteGatewayAction re_other date_parse date_now
              (Some (route_intent env agent_id session_id intent path content decision_id
                 (dr_authority_lineage_hash drow) pre_write_hash replay_nonce))
              (mkKernel (Some (buildD1FilesystemValidatorContext policy_hash))
                 (Some (buildD1FilesystemWriter (t_write env)))
                 (Some (buildD1ReplayRegistryPort (t_consumed env))) (JStr (t_emitted env)))
              None in
            finish_request env agent_id session_id decision_id replay_nonce outcome
      end.
End Route.

(** * Invariant of the tables *)

(** A proof row as the receipt it records. *)
Definition row_receipt (id : string) (r : ProofRow) : AdapterProofReceipt :=
  mkReceipt id (pr_validated_object_hash r) (pr_executed_object_hash r)
    (pr_execution_evidence_hash r) (pr_adapter_surface r) (pr_decision_id r)
    (pr_replay_nonce r) (pr_emitted_at r) None.

Definition consumed (s : db) (nonce : string) : Prop :=
  ∃ row, nonces s !! nonce = Some row ∧ n_state row = CONSUMED.

Record db_inv (s : db) : Prop := mkInv {
  inv_objects : ∀ p o, objects s !! p = Some o →
    p = SEED_PATH ∧ o_content_hash o = content_id (o_content o);
  inv_nonces : ∀ n row, nonces s !! n = Some row → n_state row = CONSUMED;
  inv_proofs : ∀ id r, proofs s !! id = Some r →
    pr_validated_object_hash r = pr_executed_object_hash r
    ∧ pr_target_path r = SEED_PATH
    ∧ id = sha256_id (receipt_body_js (row_receipt id r))
    ∧ ∃ nonce, pr_replay_nonce r = JStr nonce ∧ consumed s nonce;
  inv_lineage : ∀ id r, lineage s !! id = Some r →
    id = "lineage:" +:+ lr_receipt_id r
    ∧ ∃ p, proofs s !! lr_receipt_id r = Some p
        ∧ pr_validated_object_hash p = lr_canonical_aeo_hash r
        ∧ pr_decision_id p = lr_decision_id r ∧ pr_replay_nonce p = lr_replay_nonce r
        ∧ pr_target_path p = lr_target_path r;
  inv_audits : ∀ id r, audits s !! id = Some r → correlation_id r = id
}.

(** How the tables change: proofs, lineage, audits and decisions are only
    appended to, objects are never removed, a consumed nonce stays consumed and
    keeps its decision. *)
Record db_grows (s t : db) : Prop := mkGrows {
  gr_proofs : proofs s ⊆ proofs t;
  gr_lineage : lineage s ⊆ lineage t;
  gr_audits : audits s ⊆ audits t;
  gr_decisions : decisions s ⊆ decisions t;
  gr_objects : ∀ p, is_Some (objects s !! p) → is_Some (objects t !! p);
  gr_nonces : ∀ n row, nonces s !! n = Some row → ∃ row', nonces t !! n = Some row'
    ∧ n_decision_id row' = n_decision_id row ∧ (n_state row = CONSUMED → n_state row' = CONSUMED)
}.

#[export] Instance db_grows_preorder : PreOrder db_grows.
Proof.
  split.
  - intros s. constructor; eauto.
  - intros s t u [] []. constructor; try (by etrans); eauto.
    intros n row Hn. destruct (gr_nonces0 _ _ Hn) as (row' & Hn' & ? & ?).
    destruct (gr_nonces1 _ _ Hn') as (row2 & ? & ? & ?). exists row2. split; [done|].
    split; [congruence|]. eauto.
Qed.

Lemma consumed_grows s t n : db_grows s t → consumed s n → consumed t n.
Proof.
  intros Hg (row & Hr & Hs). destruct (gr_nonces _ _ Hg _ _ Hr) as (row' & ? & _ & ?).
  exists row'. eauto.
Qed.

Lemma empty_db_inv : db_inv empty_db.
Proof. constructor; intros ? ? H; cbn in H; by rewrite lookup_empty in H. Qed.

(** ** Each statement keeps the invariant *)
Lemma inv_insert_decision s id row :
  db_inv s → db_inv (d1 _ (InsertDecisionOrIgnore id row) s).1
    ∧ db_grows s (d1 _ (InsertDecisionOrIgnore id row) s).1.
Proof.
  intros []. simpl. split; constructor; simpl; eauto.
  destruct (decisions s !! id) eqn:E; [done|]. by apply insert_subseteq.
Qed.

Lemma inv_insert_seed s row :
  o_content_hash row = content_id (o_content row) →
  db_inv s → db_inv (d1 _ (InsertObjectOrIgnore SEED_PATH row) s).1
    ∧ db_grows s (d1 _ (InsertObjectOrIgnore SEED_PATH row) s).1.
Proof.
  intros Hh []. simpl. split; constructor; simpl; eauto.
  - intros p o. destruct (objects s !! SEED_PATH) eqn:E; [eauto|].
    rewrite lookup_insert_Some. intros [[<- <-]|[_ H]]; eauto.
  - intros p Hp. destruct (objects s !! SEED_PATH) eqn:E; [done|].
    apply lookup_insert_is_Some. destruct (decide (SEED_PATH = p)); eauto.
Qed.

Lemma inv_upsert_nonce s n d now :
  db_inv s → db_inv (d1 _ (UpsertNonceConsumed n d now) s).1
    ∧ db_grows s (d1 _ (UpsertNonceConsumed n d now) s).1
    ∧ consumed (d1 _ (UpsertNonceConsumed n d now) s).1 n.
Proof.
  intros []. simpl.
  assert (n_state (consumed_row (nonces s !! n) d now) = CONSUMED) as Hc
    by (by destruct (nonces s !! n)).
  assert (db_grows s (set_nonces (λ m, <[n := consumed_row (m !! n) d now]> m) s)) as Hg.
  { constructor; simpl; eauto. intros k row Hk. destruct (decide (n = k)) as [->|Hne].
    - rewrite lookup_insert_eq. eexists. split; [done|]. rewrite Hk. by split.
    - rewrite lookup_insert_ne by done. eauto. }
  split; [|split; [done|]].
  - constructor; simpl; eauto.
    + intros k row. rewrite lookup_insert_Some. intros [[_ <-]|[_ H]]; eauto.
    + intros id r Hr. destruct (inv_proofs0 _ _ Hr) as (? & ? & ? & k & ? & Hk).
      repeat split; try done. exists k. split; [done|]. by eapply consumed_grows in Hg.
  - exists (consumed_row (nonces s !! n) d now). simpl. by rewrite lookup_insert_eq.
Qed.

Lemma inv_upsert_seed s row :
  o_content_hash row = content_id (o_content row) →
  db_inv s → db_inv (d1 _ (UpsertObject SEED_PATH row) s).1
    ∧ db_grows s (d1 _ (UpsertObject SEED_PATH row) s).1.
Proof.
  intros Hh []. simpl. split; constructor; simpl; eauto.
  - intros p o. rewrite lookup_insert_Some. intros [[<- <-]|[_ H]]; eauto.
  - intros p Hp. apply lookup_insert_is_Some. destruct (decide (SEED_PATH = p)); eauto.
Qed.

Lemma inv_insert_proof s id row nonce :
  pr_validated_object_hash row = pr_executed_object_hash row →
  pr_target_path row = SEED_PATH → id = sha256_id (receipt_body_js (row_receipt id row)) →
  pr_replay_nonce row = JStr nonce → consumed s nonce →
  db_inv s → db_inv (d1 _ (InsertProof id row) s).1
    ∧ db_grows s (d1 _ (InsertProof id row) s).1
    ∧ ((d1 _ (InsertProof id row) s).2 = true →
       proofs (d1 _ (InsertProof id row) s).1 !! id = Some row).
Proof.
  intros Hv Hp Hid Hn Hc Hi. simpl. destruct (proofs s !! id) eqn:E; simpl; [done|].
  assert (proofs s ⊆ <[id:=row]> (proofs s)) as Hsub by (by apply insert_subseteq).
  destruct Hi. split; [|split; [by constructor; simpl; eauto|by rewrite lookup_insert_eq]].
  constructor; simpl; eauto.
  - intros k r. rewrite lookup_insert_Some. intros [[<- <-]|[_ H]]; [|by apply inv_proofs0 in H].
    split; [done|]. split; [done|]. split; [done|]. exists nonce. split; [done|]. exact Hc.
  - intros k r Hr. destruct (inv_lineage0 _ _ Hr) as (? & p & Hpp & ?). split; [done|].
    exists p. split; [|done]. by eapply lookup_weaken.
Qed.

Lemma inv_insert_lineage s row p :
  proofs s !! lr_receipt_id row = Some p →
  pr_validated_object_hash p = lr_canonical_aeo_hash row →
  pr_decision_id p = lr_decision_id row → pr_replay_nonce p = lr_replay_nonce row →
  pr_target_path p = lr_target_path row →
  db_inv s →
  let id := "lineage:" +:+ lr_receipt_id row in
  db_inv (d1 _ (InsertLineageDoNothing id row) s).1
    ∧ db_grows s (d1 _ (InsertLineageDoNothing id row) s).1
    ∧ is_Some (lineage (d1 _ (InsertLineageDoNothing id row) s).1 !! id).
Proof.
  intros Hp Hv Hd Hn Ht Hi id. unfold d1. destruct (lineage s !! id) eqn:E; simpl; [by eauto|].
  destruct Hi. split; [|split].
  - constructor; simpl; eauto. intros k r. rewrite lookup_insert_Some.
    intros [[<- <-]|[_ H]]; [|by apply inv_lineage0 in H].
    split; [done|]. by exists p.
  - constructor; simpl; eauto. by apply insert_subseteq.
  - rewrite lookup_insert_eq. eauto.
Qed.

Lemma inv_insert_audit s r :
  db_inv s → db_inv (d1 _ (InsertAuditDoNothing r) s).1
    ∧ db_grows s (d1 _ (InsertAuditDoNothing r) s).1
    ∧ is_Some (audits (d1 _ (InsertAuditDoNothing r) s).1 !! correlation_id r).
Proof.
  intros Hi. simpl. destruct (audits s !! correlation_id r) eqn:E; simpl; [by eauto|].
  destruct Hi. split; [|split].
  - constructor; simpl; eauto.
    intros k r'. rewrite lookup_insert_Some. intros [[<- <-]|[_ H]]; eauto.
  - constructor; simpl; eauto. by apply insert_subseteq.
  - rewrite lookup_insert_eq. eauto.
Qed.
