(* ===== verification/RouteSafety.v ===== *)
(** Safety of the filesystem-write route under every interleaving.

    Requests run concurrently: any number of handlers of
    [src/lib/filesystem-write-route-adapter.ts], each performing its SQL
    statements one at a time, in any order between them. *)
From Stdlib Require Import ZArith NArith Lia Ascii.
From stdpp Require Import base list strings pretty gmap.
From S2P Require Import Prelude JsValue Sha256 Canonical Effects ContinuityCore FilesystemAeo.
From S2P Require Import FilesystemGateway CanonicalAeo ExecutionEligibility Adapter Glob.
From S2P Require Import FilesystemValidator RuntimeGateway NullAudit FilesystemRoute.

(** Statements that only read. *)
Definition is_read (X : Type) (e : D1 X) : Prop := ∀ s, (d1 X e s).1 = s.

Lemma read_ok (X : Type) (e : D1 X) s :
  is_read X e → db_inv s → db_inv (d1 X e s).1 ∧ db_grows s (d1 X e s).1.
Proof. intros He Hi. by rewrite He. Qed.

#[export] Instance d1_observes h :
  Observes (ctx := buildD1FilesystemValidatorContext h) is_read.
Proof. constructor; intros; simpl; try done; by split. Qed.

Lemma d1_nonce_reads n : tree is_read (λ _, True) (d1_isNonceUnused n).
Proof. by split. Qed.

(** * What an answer guarantees

    A NULL answer carries nothing but the correlation identifier of an audit
    record that is stored. An EXECUTED answer is backed by a stored proof whose
    executed object is the validated one, on the one governed path, and by its
    lineage node; its nonce is consumed. A handler throws only on a receipt
    that is already stored. *)
Inductive answered (env : request_env) (s : db) : route_result → Prop :=
  | answered_null :
      is_Some (audits s !! new_correlation_id env) →
      answered env s (Response (filesystemWriteResponse
        (buildBoundedNullResponse (new_correlation_id env))))
  | answered_executed receipt captured atao_id at_time nonce status :
      proofs s !! receipt_id receipt = Some (proof_row receipt captured atao_id at_time) →
      is_Some (lineage s !! ("lineage:" +:+ receipt_id receipt)) →
      validated_object_hash receipt = executed_object_hash receipt →
      cap_path captured = SEED_PATH → receipt_replay_nonce receipt = JStr nonce →
      consumed s nonce →
      answered env s (Response (executed_response true receipt captured
        [("lineage_append_status", JStr status)]))
  | answered_throws id :
      is_Some (proofs s !! id) → answered env s HandlerThrows.

Lemma answered_grows env s t r : db_grows s t → answered env s r → answered env t r.
Proof.
  intros Hg [[x Hx]|receipt captured aid at_time nonce status Hp [l Hl] Hv Hc Hn Hk|id [x Hx]].
  - apply answered_null. exists x. eapply lookup_weaken; [done|apply Hg].
  - econstructor; eauto using consumed_grows.
    + eapply lookup_weaken; [done|apply Hg].
    + exists l. eapply lookup_weaken; [done|apply Hg].
  - apply answered_throws with id. exists x. eapply lookup_weaken; [done|apply Hg].
Qed.

(** The last operation of a request: what it establishes stays. *)
Lemma answered_stable env s r :
  answered env s r → ok d1 db_inv db_grows (λ a s', answered env s' a) (Ret r) s.
Proof. intros Ha s2 Hs2 _. by eapply answered_grows. Qed.

Section Safety.
Context (re_other : string → string → bool) (date_parse : string → option Z) (date_now : Z).
Context (env : request_env).

Abbreviation okr := (ok d1 db_inv db_grows (λ a s', answered env s' a)).

Lemma null_ok a b c d e f g h i s :
  db_inv s → okr (respondBoundedNull env a b c d e f g h i) s.
Proof.
  intros Hi s2 Hs2 Hi2. destruct (inv_insert_audit s2 (mkAudit (new_correlation_id env)
    (classifyReasonClass a b c None) a (match c with Some f => Some f | None => b end)
    d e f g h i NULL_AUDIT_VALIDATOR_VERSION (t_audit env)) Hi2) as (? & ? & Ha).
  split; [done|]. split; [done|]. apply answered_stable. by constructor.
Qed.

Lemma ensure_ok s :
  db_inv s → ok d1 db_inv db_grows (λ _ _, True) (ensureFilesystemWriteGatewayRegistry env) s.
Proof.
  intros Hi s2 Hs2 Hi2.
  destruct (inv_insert_decision s2 GATEWAY_DECISION_ID
    (mkDecisionRow "ACTIVE" GATEWAY_LINEAGE_HASH "repository" None (t_ensure env)) Hi2).
  split; [done|]. split; [done|]. intros s3 Hs3 Hi3.
  destruct (inv_insert_seed s3 (mkObject SEED_CONTENT (content_id SEED_CONTENT)
    (Z.of_nat (js_length SEED_CONTENT)) (t_ensure env)) eq_refl Hi3).
  split; [done|]. by split.
Qed.

Lemma row_receipt_of r captured aid at_time :
  lineage_binding r = None →
  row_receipt (receipt_id r) (proof_row r captured aid at_time) = r.
Proof. destruct r; simpl. by intros ->. Qed.

Lemma persist_ok captured r aid nonce s :
  db_inv s → cap_path captured = SEED_PATH → lineage_binding r = None →
  validated_object_hash r = executed_object_hash r →
  receipt_id r = sha256_id (receipt_body_js r) →
  receipt_replay_nonce r = JStr nonce → consumed s nonce →
  okr (persist_execution env captured r aid true) s.
Proof.
  intros Hi Hc Hb Hv Hid Hn Hk s1 Hs1 Hi1. rewrite Hc.
  destruct (inv_upsert_seed s1 (mkObject (cap_content captured)
    (content_id (cap_content captured)) (cap_bytes_written captured) (t_persisted env))
    eq_refl Hi1) as [Hi1' Hg1].
  split; [done|]. split; [done|]. intros s2 Hs2 Hi2.
  assert (consumed s2 nonce) as Hk2 by (do 3 (eapply consumed_grows; [done|]); done).
  destruct (inv_insert_proof s2 (receipt_id r) (proof_row r captured aid (t_persisted env)) nonce
    Hv Hc ltac:(rewrite row_receipt_of by done; exact Hid) Hn Hk2 Hi2) as (Hi2' & Hg2 & Hp).
  split; [done|]. split; [done|].
  destruct ((d1 bool (InsertProof (receipt_id r) _) s2).2) eqn:Ef; cbn [negb].
  - intros s3 Hs3 Hi3. specialize (Hp eq_refl).
    assert (proofs s3 !! receipt_id r = Some (proof_row r captured aid (t_persisted env))) as Hp3
      by (eapply lookup_weaken; [exact Hp|apply Hs3]).
    destruct (inv_insert_lineage s3 (lineage_row r captured (t_lineage env)) _ Hp3 eq_refl eq_refl
      eq_refl eq_refl Hi3) as (Hi4 & Hg4 & Hl).
    split; [done|]. split; [done|]. apply answered_stable. econstructor; try done.
    + eapply lookup_weaken; [exact Hp3|apply Hg4].
    + do 3 (eapply consumed_grows; [done|]). done.
  - apply answered_stable. apply answered_throws with (receipt_id r).
    cbn in Ef. destruct (proofs s2 !! receipt_id r) eqn:E; [|done]. exists p. simpl. by rewrite E.
Qed.

(** The fields of a request survive capture and compilation. *)
Lemma route_capture ag se it pa co de li pre no atao :
  captureFilesystemWriteATAO (atao_input (route_intent env ag se it pa co de li pre no))
    = Some atao → param_path atao = pa ∧ param_content atao = co.
Proof. apply capture_fields. Qed.

Lemma route_compile ag se it pa co de li pre no atao aeo :
  compileFilesystemWriteAEO (Some atao) (binding (route_intent env ag se it pa co de li pre no))
    = Some aeo →
  replay_nonce (validation aeo) = no ∧ decision_id (validation aeo) = de
  ∧ vfield (aeo_js aeo) "pre_write_hash" = pre.
Proof. apply compile_fields. Qed.

(** What the gateway hands to the persistence step. *)
Definition good_outcome (nonce : string)
    (o : option FilesystemWriterCapture * FilesystemWriteGatewayActionResult) (s : db) : Prop :=
  match o.2 with
  | NullAt _ _ _ => True
  | EXECUTED r _ => ∃ captured, o.1 = Some captured ∧ cap_path captured = SEED_PATH
      ∧ lineage_binding r = None ∧ validated_object_hash r = executed_object_hash r
      ∧ receipt_id r = sha256_id (receipt_body_js r)
      ∧ receipt_replay_nonce r = JStr nonce ∧ consumed s nonce
  | _ => False
  end.

Lemma route_gateway_ok h ag se it pa co de li pre no s :
  db_inv s → pre = EmptyString ∨ pa = SEED_PATH →
  ok d1 db_inv db_grows (good_outcome no)
    (runFilesystemWriteGatewayAction re_other date_parse date_now
       (Some (route_intent env ag se it pa co de li pre no))
       (mkKernel (Some (buildD1FilesystemValidatorContext h))
          (Some (buildD1FilesystemWriter (t_write env)))
          (Some (buildD1ReplayRegistryPort (t_consumed env))) (JStr (t_emitted env))) None) s.
Proof.
  intros Hi Hpre.
  apply (gateway_ok re_other date_parse date_now d1 db_inv db_grows is_read read_ok
    (vctx := buildD1FilesystemValidatorContext h)
    (port := buildD1ReplayRegistryPort (t_consumed env)) d1_nonce_reads); [done|done|].
  intros s1 atao aeo c Hs1 Hi1 Hcap Hcomp Hpw Hc.
  destruct (route_capture _ _ _ _ _ _ _ _ _ _ Hcap) as [Hp Hco].
  destruct (route_compile _ _ _ _ _ _ _ _ _ _ _ Hcomp) as (Hn & Hd & Hpr).
  destruct Hpre as [Hpre|Hpre]; [congruence|].
  eapply (execute_and_commit_ok date_parse date_now d1 db_inv db_grows
    (port := buildD1ReplayRegistryPort (t_consumed env)));
    [exact Hcap|exact Hcomp|exact Hc|exact Hi1|done|].
  intros r He Hv Hdr Hnr Hid Hb. rewrite Hn in Hnr |- *. rewrite Hp, Hpre.
  intros s2 Hs2 Hi2. destruct (inv_upsert_nonce s2 no (decision_id (validation aeo))
    (t_consumed env) Hi2) as (Hi3 & Hg3 & Hk3).
  split; [done|]. split; [done|]. intros s3 Hs3 Hi3'. simpl.
  eexists. split; [done|]. split; [done|]. split; [done|]. split; [congruence|]. split; [done|].
  split; [done|]. by eapply consumed_grows.
Qed.

Lemma finish_ok ag se de no o s :
  db_inv s → good_outcome no o s → okr (finish_request env ag se de no o) s.
Proof.
  intros Hi Ho. unfold finish_request, good_outcome in *. destruct o as [cap [r aid|r aid|st re d|]];
    cbn [fst snd] in *; [|done|by apply null_ok|done].
  destruct Ho as (captured & -> & Hc & Hb & Hv & Hid & Hn & Hk). by apply persist_ok with no.
Qed.

(** A request, wherever the others bring the store meanwhile. *)
Lemma route_ok b s :
  db_inv s → okr (handleFilesystemWriteRoute re_other date_parse date_now env b) s.
Proof.
  intros Hi. unfold handleFilesystemWriteRoute.
  eapply ok_bind; [apply _|by apply ensure_ok| |done]. intros [] s1 Hs1 Hi1 _.
  destruct (negb (is_record b || is_array b)); [by apply null_ok|].
  destruct (_ || _); [by apply null_ok|].
  eapply (ok_read d1 db_inv db_grows is_read (λ _, True)); [exact read_ok|by split| |done].
  intros drow s2 Hs2 Hi2 _. destruct drow as [drow|]; [|by apply null_ok].
  eapply (ok_read d1 db_inv db_grows is_read (λ _, True)); [exact read_ok|by split| |done].
  intros nrow s3 Hs3 Hi3 _. destruct (match nrow with Some n => _ | None => _ end);
    [by apply null_ok|].
  (* the answer of the object read is used: it must be at the seed path *)
  intros s4 Hs4 Hi4. split; [done|]. split; [done|]. cbn [d1 fst snd].
  eapply (ok_bind d1 db_inv db_grows (good_outcome (body_text b "replay_nonce")));
    [|intros o s5 Hs5 Hi5 Ho; by eapply finish_ok|done].
  apply route_gateway_ok; [done|].
  destruct (objects s4 !! body_text b "path") as [o|] eqn:Eo; [right|by left].
  by apply (inv_objects _ Hi4) in Eo as [? _].
Qed.
End Safety.

(** C16. The route is safe under every interleaving. Any number of requests,
    their statements interleaved in any order, starting from any store that
    satisfies the invariant: the invariant holds throughout (every stored
    proof has equal validated and executed hashes, its identifier is the
    digest of the receipt, its nonce is consumed, its lineage node refers to
    it, and only the governed seed file is ever written); proofs, lineage and
    audits are never changed or removed; and every answer given so far is an
    audited NULL carrying only its correlation identifier, or an execution
    whose proof, lineage node and consumed nonce are stored. *)
Theorem route_interleaved re_other date_parse date_now (requests : list (request_env * jsval))
    s q :
  db_inv s →
  pool_steps d1
    (s, map (λ r, handleFilesystemWriteRoute re_other date_parse date_now r.1 r.2) requests) q →
  db_inv q.1 ∧ db_grows s q.1
  ∧ ∀ i r a, requests !! i = Some r → q.2 !! i = Some (Ret a) → answered r.1 q.1 a.
Proof.
  intros Hi Hq.
  destruct (pool_ok d1 db_inv db_grows (λ i a s', ∀ r, requests !! i = Some r → answered r.1 s' a)
    _ _ Hq Hi) as (? & ? & Ha).
  - simpl. intros i m Hm. rewrite list_lookup_fmap in Hm.
    destruct (requests !! i) as [r|] eqn:Er; [|done]. injection Hm as <-.
    eapply ok_weaken; [|apply route_ok, Hi]. simpl. intros a s' Ha r' [= <-]. done.
  - split; [done|]. split; [done|]. intros i r a Hr Hi'. by eapply Ha.
Qed.
