(* ===== verification/RouteReplay.v ===== *)
(** Replay on the filesystem-write route.

    Requests served one after the other execute a nonce at most once; the same
    requests interleaved can execute it twice, because the nonce is read before
    the write and the mark never reports a conflict. *)
From Stdlib Require Import ZArith NArith Lia Ascii.
From stdpp Require Import base list strings pretty gmap.
From S2P Require Import Prelude JsValue Sha256 Canonical Effects ContinuityCore FilesystemAeo.
From S2P Require Import FilesystemGateway CanonicalAeo ExecutionEligibility Adapter Glob.
From S2P Require Import FilesystemValidator RuntimeGateway NullAudit FilesystemRoute.
From S2P Require Import RouteSafety.

#[export] Instance d1_read_only h s :
  ReadOnlyContext (ctx := buildD1FilesystemValidatorContext h) d1 s.
Proof. by constructor. Qed.

Lemma d1_nonce_ro s n : (run d1 (d1_isNonceUnused n) s).1 = s.
Proof. done. Qed.

(** The nonce has not been consumed. *)
Lemma unused_not_consumed s n :
  look d1 s (d1_isNonceUnused n) = true → ¬ consumed s n.
Proof.
  unfold look, d1_isNonceUnused. simpl. intros Hu (row & Hr & Hc). rewrite Hr in Hu.
  apply bool_decide_eq_true in Hu. congruence.
Qed.

Section Replay.
Context (re_other : string → string → bool) (date_parse : string → option Z) (date_now : Z).

Abbreviation route := (handleFilesystemWriteRoute re_other date_parse date_now).

(** The tables after the registry is ensured. *)
Definition ensured (env : request_env) (s : db) : db :=
  (run d1 (ensureFilesystemWriteGatewayRegistry env) s).1.

Lemma ensured_proofs env s : proofs (ensured env s) = proofs s.
Proof. reflexivity. Qed.

Lemma ensured_nonces env s : nonces (ensured env s) = nonces s.
Proof. reflexivity. Qed.

(** An answer of an execution with nonce [n]. *)
Definition executed_nonce (a : route_result) (n : string) : Prop :=
  ∃ receipt captured status, receipt_replay_nonce receipt = JStr n
    ∧ a = Response (executed_response true receipt captured
            [("lineage_append_status", JStr status)]).

Lemma null_not_executed c n :
  ¬ executed_nonce (Response (filesystemWriteResponse (buildBoundedNullResponse c))) n.
Proof. intros (? & ? & ? & ? & E). discriminate E. Qed.

(** Running one request: its proofs are those of before, with at most one more,
    for a nonce that was not consumed. *)
Definition quiet_run (s : db) (out : db * route_result) : Prop :=
  proofs out.1 = proofs s ∧ ∀ n, ¬ executed_nonce out.2 n.

Definition executing_run (s : db) (n : string) (out : db * route_result) : Prop :=
  ∃ id row, ¬ consumed s n ∧ proofs s !! id = None
    ∧ proofs out.1 = <[id := row]> (proofs s) ∧ pr_replay_nonce row = JStr n
    ∧ consumed out.1 n ∧ ∀ m, executed_nonce out.2 m → m = n.

Lemma null_run env a b c d e f g h i s t :
  proofs t = proofs s →
  quiet_run s (run d1 (respondBoundedNull env a b c d e f g h i) t).
Proof.
  intros Ht. split; [|apply null_not_executed]. simpl.
  by destruct (audits t !! _).
Qed.

Lemma persist_run env captured r aid n s t :
  proofs t = proofs s → ¬ consumed s n → consumed t n → receipt_replay_nonce r = JStr n →
  let out := run d1 (persist_execution env captured r aid true) t in
  quiet_run s out ∨ executing_run s n out.
Proof.
  intros Ht Hn Hc Hr out. subst out. unfold persist_execution, appendLineageNode.
  rewrite !run_bind. cbn -[d1]. set (t1 := (d1 unit (UpsertObject _ _) t).1).
  assert (proofs t1 = proofs s ∧ consumed t1 n) as [Ht1 Hc1] by by split.
  clearbody t1. destruct (proofs t1 !! receipt_id r) as [x|] eqn:Ex.
  - left. cbn [d1]. rewrite Ex. cbn. split; [done|]. intros m (? & ? & ? & ? & ?). done.
  - right. exists (receipt_id r), (proof_row r captured aid (t_persisted env)).
    cbn [d1]. rewrite Ex. rewrite Ht1 in Ex. cbn -[executed_response].
    destruct (lineage t1 !! _); cbn -[executed_response]; rewrite Ht1;
      (split; [done|split; [done|split; [done|split; [done|split; [done|]]]]]);
      intros m (r' & c' & st & Hm & E); injection E; intros; congruence.
Qed.

Lemma d1_mark_inv now n d s s' answer :
  run d1 (d1_markNonceConsumed now n d) s = (s', answer) →
  s' = (d1 Z (UpsertNonceConsumed n d now) s).1 ∧ answer = APPENDED n d.
Proof. by intros [= <- <-]. Qed.

Lemma consumed_upsert s n d now : consumed (d1 Z (UpsertNonceConsumed n d now) s).1 n.
Proof.
  exists (consumed_row (nonces s !! n) d now). simpl. rewrite lookup_insert_eq.
  split; [done|]. by destruct (nonces s !! n).
Qed.

Lemma finish_run env h ag se it pa co de li pre no s t :
  proofs t = proofs s → nonces t = nonces s →
  let intent := route_intent env ag se it pa co de li pre no in
  let out := run d1
    (bind (runFilesystemWriteGatewayAction re_other date_parse date_now (Some intent)
       (mkKernel (Some (buildD1FilesystemValidatorContext h))
          (Some (buildD1FilesystemWriter (t_write env)))
          (Some (buildD1ReplayRegistryPort (t_consumed env))) (JStr (t_emitted env))) None)
     (finish_request env ag se de no)) t in
  quiet_run s out ∨ executing_run s no out.
Proof.
  intros Hp Hn intent out. subst out. rewrite run_bind.
  destruct (run d1 (runFilesystemWriteGatewayAction _ _ _ _ _ _) t) as [t1 [w1 result]] eqn:Eg.
  assert (gateway re_other date_parse date_now d1 t
    (vctx := buildD1FilesystemValidatorContext h)
    (port := buildD1ReplayRegistryPort (t_consumed env))
    (buildD1FilesystemWriter (t_write env)) intent (JStr (t_emitted env)) None
    = (t1, (w1, result))) as Hg by exact Eg.
  apply gateway_outcome in Hg; [|apply _|apply d1_nonce_ro]. cbn [fst snd].
  unfold finish_request. cbn [fst snd]. destruct result as [r aid|r aid|st re d|].
  - destruct Hg as (atao & aeo & c & answer & Hap & _ & _ & _ & Hr & _ & -> & Hm & _).
    cbn [buildD1FilesystemWriter]. apply (d1_mark_inv _ _ _ t t1) in Hm as [-> _].
    destruct Hap as [_ _ Hcomp _ Hu _].
    destruct (route_compile _ _ _ _ _ _ _ _ _ _ _ _ Hcomp) as (Hno & _). rewrite Hno in *.
    eapply persist_run; [exact Hp| | |exact Hr].
    + apply unused_not_consumed in Hu. unfold consumed in *.
      by rewrite <- Hn.
    + eapply consumed_upsert.
  - destruct Hg as (atao & aeo & c & answer & _ & _ & _ & _ & _ & _ & _ & Hm & Hrej).
    by apply (d1_mark_inv _ _ _ t t1) in Hm as [_ ->].
  - destruct Hg as [-> _]. left. by apply null_run.
  - destruct Hg as [-> _]. left. split; [done|]. by intros n (? & ? & ? & _ & ?).
Qed.

Lemma route_run env b s :
  let out := run d1 (route env b) s in
  quiet_run s out ∨ executing_run s (body_text b "replay_nonce") out.
Proof.
  intros out. subst out. unfold handleFilesystemWriteRoute. rewrite run_bind.
  set (t := (run d1 (ensureFilesystemWriteGatewayRegistry env) s).1).
  assert (proofs t = proofs s ∧ nonces t = nonces s) as [Hp Hn] by by split.
  clearbody t. destruct (negb (is_record b || is_array b)); [left; by apply null_run|].
  destruct (_ || _); [left; by apply null_run|]. rewrite run_bind, run_await. cbn [d1 fst snd].
  destruct (decisions t !! _) as [drow|]; [|left; by apply null_run].
  rewrite run_bind, run_await. cbn [d1 fst snd].
  destruct (match nonces t !! _ with Some n => _ | None => _ end); [left; by apply null_run|].
  rewrite run_bind, run_await. cbn [d1 fst snd]. by apply finish_run.
Qed.

(** ** Requests served one after the other *)
Fixpoint serve (s : db) (requests : list (request_env * jsval)) : db * list route_result :=
  match requests with
  | [] => (s, [])
  | (env, b) :: rest =>
      let '(s', a) := run d1 (route env b) s in
      let '(t, answers) := serve s' rest in (t, a :: answers)
  end.

Lemma route_run_inv env b s :
  db_inv s → db_inv (run d1 (route env b) s).1 ∧ db_grows s (run d1 (route env b) s).1.
Proof.
  intros Hi. eapply (run_ok d1 db_inv db_grows) in Hi as (? & ? & _); [done|by apply route_ok].
Qed.

Lemma executed_consumes env b s n :
  db_inv s → executed_nonce (run d1 (route env b) s).2 n →
  ¬ consumed s n ∧ consumed (run d1 (route env b) s).1 n.
Proof.
  intros Hi Hx. destruct (route_run env b s) as [[_ Hq]|(id & row & Hn & _ & _ & _ & Hc & Hm)].
  - by apply Hq in Hx.
  - by apply Hm in Hx as ->.
Qed.

Lemma serve_consumed requests s n :
  db_inv s → consumed s n → Forall (λ a, ¬ executed_nonce a n) (serve s requests).2.
Proof.
  revert s. induction requests as [|[env b] rest IH]; intros s Hi Hc; cbn [serve]; [constructor|].
  destruct (route_run_inv env b s Hi) as [Hi' Hg].
  pose proof (executed_consumes env b s n Hi) as Hx.
  destruct (run d1 (route env b) s) as [s' a]. cbn [fst snd] in *.
  specialize (IH s' Hi' (consumed_grows _ _ _ Hg Hc)). destruct (serve s' rest) as [t answers].
  constructor; [|done]. by intros [? _]%Hx.
Qed.

Lemma serve_once requests s i j a c n :
  db_inv s → (serve s requests).2 !! i = Some a → (serve s requests).2 !! j = Some c →
  executed_nonce a n → executed_nonce c n → i = j.
Proof.
  intros Hi Ha Hc Hna Hnc. revert s i j Hi Ha Hc.
  induction requests as [|[env b] rest IH]; intros s i j Hi; cbn [serve]; [done|].
  destruct (route_run_inv env b s Hi) as [Hi' Hg].
  pose proof (executed_consumes env b s n Hi) as Hx.
  destruct (run d1 (route env b) s) as [s' a0]. cbn [fst snd] in *.
  pose proof (serve_consumed rest s' n Hi') as Hf. specialize (IH s').
  destruct (serve s' rest) as [t answers]. cbn [fst snd] in *.
  destruct i as [|i], j as [|j]; simpl; [done| | |intros; f_equal; by eapply IH].
  - intros [= ->] Hj. destruct (Hx Hna) as [_ Hk]. apply Hf in Hk.
    by eapply Forall_lookup_1 in Hk; [|exact Hj].
  - intros Hj [= ->]. destruct (Hx Hnc) as [_ Hk]. apply Hf in Hk.
    by eapply Forall_lookup_1 in Hk; [|exact Hj].
Qed.
End Replay.

(** A nonce is executed at most once when requests are served one after
    the other: of all answers to a sequence of requests, from any store
    that satisfies the invariant, no two executions carry the same nonce. *)
Theorem sequential_nonce_once re_other date_parse date_now requests s i j a c n :
  db_inv s →
  (serve re_other date_parse date_now s requests).2 !! i = Some a →
  (serve re_other date_parse date_now s requests).2 !! j = Some c →
  executed_nonce a n → executed_nonce c n → i = j.
Proof. apply serve_once. Qed.
