(* ===== verification/RouteLiveness.v ===== *)
(** Progress of the filesystem-write route, and what interleaving does to a nonce.

    A well-formed request to the governed file, with an active decision and an
    unused nonce, is executed. Two such requests with one nonce, interleaved
    so that both read before either commits, are both executed. *)
From Stdlib Require Import ZArith NArith Lia Ascii.
From stdpp Require Import base list strings pretty gmap.
From S2P Require Import Prelude JsValue Sha256 Canonical Effects ContinuityCore FilesystemAeo.
From S2P Require Import FilesystemGateway CanonicalAeo ExecutionEligibility Adapter Glob.
From S2P Require Import FilesystemValidator RuntimeGateway NullAudit FilesystemRoute.
From S2P Require Import RouteSafety RouteReplay.

Section Liveness.
Context (re_other : string → string → bool) (date_parse : string → option Z) (date_now : Z).
Context (env : request_env).

Lemma route_captures ag se it pa co de li pre no :
  non_blank ag = true → non_blank se = true → non_blank it = true → non_blank pa = true →
  non_blank (t_timestamp env) = true →
  ∃ id, captureFilesystemWriteATAO (atao_input (route_intent env ag se it pa co de li pre no))
  = Some (mkATAO id ag se it pa co "mindshift-demo" "repository" (t_timestamp env)).
Proof.
  intros Ha Hs Hi Hp Ht. eexists. unfold captureFilesystemWriteATAO.
  set (o := atao_input _).
  assert (get o "agent_id" = JStr ag) as -> by reflexivity.
  assert (get o "session_id" = JStr se) as -> by reflexivity.
  assert (get o "intent" = JStr it) as -> by reflexivity.
  assert (get o "path" = JStr pa) as -> by reflexivity.
  assert (get o "content" = JStr co) as -> by reflexivity.
  assert (get o "repo" = JStr "mindshift-demo") as -> by reflexivity.
  assert (get o "root" = JStr "repository") as -> by reflexivity.
  assert (get o "timestamp" = JStr (t_timestamp env)) as -> by reflexivity.
  cbn [is_non_blank is_string negb truthy o]. rewrite Ha, Hs, Hi, Hp, Ht. reflexivity.
Qed.

(** The AEO of a request, the pre-state hash being known. *)
Definition route_aeo (it pa de li pre no : string) : FilesystemAEO :=
  mkAEO (mkIntent "write_file" it)
    (mkScope "mindshift-demo" "repository" (map JStr policy_allowed_paths)
       (map JStr policy_denied_paths) (map JStr policy_allowed_operations)
       (map JStr policy_denied_operations) (num_of (jint 1)) (num_of (jint 300)))
    (mkValidation de li GATEWAY_POLICY_ID filesystemWriteGatewayPolicyHash "json-canonical-v1"
       pre EmptyString true no true true true true)
    (mkTarget "modify" pa true false)
    (mkFinality true "filesystem_write_execution" "single_bounded_file_mutation"
       proof_fields_list true true "CONSUMED").

Lemma route_compiles id ag se it pa co ti de li pre no :
  non_blank de = true → non_blank li = true → non_blank no = true → non_blank pre = true →
  compileFilesystemWriteAEO
    (Some (mkATAO id ag se it pa co "mindshift-demo" "repository" ti))
    (binding (route_intent env ag se it pa co de li pre no))
  = Some (route_aeo it pa de li pre no).
Proof.
  intros Hd Hl Hn Hp. unfold compileFilesystemWriteAEO, route_aeo.
  set (o := binding _).
  assert (get o "decision_id" = JStr de) as -> by reflexivity.
  assert (get o "authority_lineage_hash" = JStr li) as -> by reflexivity.
  assert (get o "policy_id" = JStr GATEWAY_POLICY_ID) as -> by reflexivity.
  assert (get o "policy_hash" = JStr filesystemWriteGatewayPolicyHash) as -> by reflexivity.
  assert (get o "replay_nonce" = JStr no) as -> by reflexivity.
  assert (get o "pre_write_hash" = JStr pre) as -> by reflexivity.
  assert (get o "proposed_diff_hash" = JStr EmptyString) as -> by reflexivity.
  assert (non_blank filesystemWriteGatewayPolicyHash = true) as Hh by apply sha256_id_non_blank.
  assert (non_blank GATEWAY_POLICY_ID = true) as Hg by reflexivity.
  cbn [is_non_blank is_string negb str_or_empty]. rewrite Hd, Hl, Hn, Hp, Hh, Hg. reflexivity.
Qed.

(** A request the registries support: active authority, unused nonce, and the
    pre-state hash of the stored object. *)
Record supported (s : db) (de li no : string) (obj : ObjectRow) : Prop := mkSupported {
  su_decision : ∃ row, decisions s !! de = Some row ∧ dr_status row = "ACTIVE"
    ∧ dr_authority_lineage_hash row = li;
  su_de : non_blank de = true;
  su_li : non_blank li = true;
  su_no : non_blank no = true;
  su_nonce_decision : ∀ row, nonces s !! no = Some row → n_decision_id row = de;
  su_states : ∀ row, nonces s !! no = Some row → n_state row = UNUSED;
  su_object : objects s !! SEED_PATH = Some obj;
  su_hash : o_content_hash obj = content_id (o_content obj)
}.

Lemma supported_look s de li no obj :
  supported s de li no obj → look d1 s (d1_isNonceUnused no) = true.
Proof.
  intros [_ _ _ _ _ Hst _ _]. unfold look, d1_isNonceUnused. simpl.
  destruct (nonces s !! no) as [row|]; [|done]. by rewrite (Hst row eq_refl).
Qed.

Lemma look_decision h s de row :
  decisions s !! de = Some row →
  look d1 s (readDecision (FilesystemValidatorContext := buildD1FilesystemValidatorContext h) de)
  = ObsOk (mkDecision de (dr_status row) (dr_authority_lineage_hash row) (dr_scope row)
      (dr_expires_at row)).
Proof.
  intros Hr. unfold look, readDecision, buildD1FilesystemValidatorContext.
  rewrite run_bind, run_await. cbn [d1 fst snd]. by rewrite Hr.
Qed.

Lemma look_hash h s p o :
  objects s !! p = Some o →
  look d1 s (readHash (FilesystemValidatorContext := buildD1FilesystemValidatorContext h) p)
  = ObsOk (o_content_hash o).
Proof.
  intros Hr. unfold look, readHash, buildD1FilesystemValidatorContext.
  rewrite run_bind, run_await. cbn [d1 fst snd]. by rewrite Hr.
Qed.

Lemma look_nonce h s n :
  look d1 s (d1_isNonceUnused n) = true →
  look d1 s (readNonceState (FilesystemValidatorContext := buildD1FilesystemValidatorContext h) n)
  = ObsOk UNUSED.
Proof.
  intros Hu. unfold look, readNonceState, buildD1FilesystemValidatorContext in *.
  rewrite run_bind, d1_nonce_ro. by rewrite Hu.
Qed.

Lemma content_id_non_blank c : non_blank (content_id c) = true.
Proof. apply visible_non_blank. reflexivity. Qed.

Lemma non_blank_ne s : non_blank s = true → s ≠ EmptyString.
Proof. by intros H ->. Qed.

Lemma route_accepted s it de li no obj :
  supported s de li no obj →
  accepted re_other d1 s
    (ctx := buildD1FilesystemValidatorContext filesystemWriteGatewayPolicyHash)
    (aeo_js (route_aeo it SEED_PATH de li (o_content_hash obj) no)) None.
Proof.
  intros Hs. pose proof (supported_look _ _ _ _ _ Hs) as Hlook.
  destruct Hs as [(row & Hrow & Hact & Hli) Hde Hnl Hno _ _ Hobj Hh].
  assert (o_content_hash obj ≠ EmptyString) as Hpre
    by (rewrite Hh; apply non_blank_ne, content_id_non_blank).
  split; [done|]. split; [done|]. split; [by left|]. split; [done|].
  split; [split; apply non_blank_ne; assumption|].
  eexists. split; [exact (look_decision _ _ _ _ Hrow)|].
  split; [exact Hact|]. split; [exact Hli|].
  split; [split; [done|apply non_blank_ne, sha256_id_non_blank]|].
  eexists. split; [reflexivity|]. split; [reflexivity|].
  split; [done|]. split; [done|].
  eexists. split; [reflexivity|]. split.
  - split; [reflexivity|]. split; [reflexivity|]. split; [reflexivity|].
    split; apply (bool_decide_unpack _); vm_compute; exact I.
  - split; [split; [by apply non_blank_ne|split; [|by split]]|].
    + exact (look_nonce _ _ _ Hlook).
    + split; [split; [exact Hpre|left; exact (look_hash _ _ _ _ Hobj)]|split; [by left|done]].
Qed.

Lemma route_approved s ag se it co de li no obj :
  non_blank ag = true → non_blank se = true → non_blank it = true →
  non_blank (t_timestamp env) = true → non_blank (t_emitted env) = true →
  supported s de li no obj →
  ∃ id c, approved re_other d1 s
    (vctx := buildD1FilesystemValidatorContext filesystemWriteGatewayPolicyHash)
    (port := buildD1ReplayRegistryPort (t_consumed env))
    (route_intent env ag se it SEED_PATH co de li (o_content_hash obj) no) (JStr (t_emitted env))
    (mkATAO id ag se it SEED_PATH co "mindshift-demo" "repository" (t_timestamp env))
    (route_aeo it SEED_PATH de li (o_content_hash obj) no) c.
Proof.
  intros Ha Hse Hit Ht Hem Hs. pose proof Hs as [_ Hde Hli Hno _ _ _ Hh].
  destruct (route_captures ag se it SEED_PATH co de li (o_content_hash obj) no Ha Hse Hit eq_refl Ht)
    as [id Hcap].
  exists id. eexists. constructor.
  - exact Hem.
  - exact Hcap.
  - apply route_compiles; try done. rewrite Hh. apply content_id_non_blank.
  - eexists. unfold compileCanonicalAEOFromFilesystem. cbn [validation route_aeo
      authority_lineage_hash]. rewrite Hli. reflexivity.
  - by eapply supported_look.
  - by eapply route_accepted.
Qed.

(** A body the route accepts, for the governed file. *)
Record well_formed (b : jsval) (de no : string) : Prop := mkWellFormed {
  wf_record : is_record b = true;
  wf_agent : non_blank (body_text b "agent_id") = true;
  wf_session : non_blank (body_text b "session_id") = true;
  wf_intent : non_blank (body_text b "intent") = true;
  wf_path : body_text b "path" = SEED_PATH;
  wf_nonce : body_text b "replay_nonce" = no;
  wf_decision : to_string (js_or (get b "decision_id") (JStr GATEWAY_DECISION_ID)) = de
}.

Definition clocks_ok : Prop :=
  non_blank (t_timestamp env) = true ∧ non_blank (t_emitted env) = true
  ∧ non_blank (t_write env) = true.

(** The receipt of the execution of a request. *)
Definition receipt_for (no : string) (r : AdapterProofReceipt) : Prop :=
  receipt_replay_nonce r = JStr no ∧ receipt_id r = sha256_id (receipt_body_js r)
  ∧ receipt_emitted_at r = t_emitted env ∧ validated_object_hash r = executed_object_hash r
  ∧ lineage_binding r = None.

Lemma is_empty_non_blank x : non_blank x = true → is_empty_str x = false.
Proof. intros H. apply String.eqb_neq. by apply non_blank_ne. Qed.

(** A registry that is already there is left alone. *)
Lemma ensure_quiet s :
  is_Some (decisions s !! GATEWAY_DECISION_ID) → is_Some (objects s !! SEED_PATH) →
  quiet d1 s (ensureFilesystemWriteGatewayRegistry env) (Ret tt).
Proof.
  intros [x Hx] [o Ho]. destruct s as [ob de no pr li au]. cbn [decisions objects] in Hx, Ho.
  apply quiet_step; [unfold d1, set_decisions; cbn [fst decisions]; by rewrite Hx|].
  apply quiet_step; [unfold d1, set_objects; cbn [fst objects]; by rewrite Ho|].
  constructor.
Qed.

Lemma route_commit_point s b de li no obj :
  is_Some (decisions s !! GATEWAY_DECISION_ID) → clocks_ok → well_formed b de no →
  supported s de li no obj →
  ∃ r captured aid m, receipt_for no r ∧ cap_path captured = SEED_PATH
    ∧ cap_content captured = str_or_empty (get b "content")
    ∧ quiet d1 s (handleFilesystemWriteRoute re_other date_parse date_now env b) m
    ∧ ∀ t, run d1 m t = run d1 (persist_execution env captured r aid true)
        (d1 _ (UpsertNonceConsumed no de (t_consumed env)) t).1.
Proof.
  intros [drow Hdr] (Ht & Hem & Hw) [Hrec Hag Hse Hit Hpa Hno Hde] Hsup.
  set (co := str_or_empty (get b "content")).
  destruct (route_approved s _ _ _ co de li no obj Hag Hse Hit Ht Hem Hsup) as (id & c & Hap).
  pose proof (gateway_quiet re_other date_parse date_now d1 s is_read (λ X e He, He s)
    (vctx := buildD1FilesystemValidatorContext filesystemWriteGatewayPolicyHash)
    (port := buildD1ReplayRegistryPort (t_consumed env)) d1_nonce_reads
    (buildD1FilesystemWriter (t_write env)) _ _ None _ _ _ Hap) as Hq.
  destruct (commit_form re_other date_parse date_now d1 s
    (vctx := buildD1FilesystemValidatorContext filesystemWriteGatewayPolicyHash)
    (port := buildD1ReplayRegistryPort (t_consumed env)) (buildD1FilesystemWriter (t_write env))
    _ _ None _ _ _ _ Hap eq_refl ltac:(by apply visible_non_blank) Hw)
    as (r & Hrn & Hid & Hra & Hv & Hb & Hform).
  rewrite Hform in Hq. clear Hform Hap.
  exists r. do 3 eexists. split; [by repeat split|]. split; [|split; [|split]]; cycle 2.
  - unfold handleFilesystemWriteRoute.
    eapply quiet_trans; [apply quiet_bind, ensure_quiet; [by eexists|by eexists; apply Hsup]|].
    rewrite Hrec. cbn [orb negb bind].
    rewrite !is_empty_non_blank by (try done; by rewrite ?Hno, ?Hpa; try apply Hsup).
    cbn [orb]. rewrite Hde.
    destruct Hsup as [(row & Hrow & Hact & Hli) _ _ _ Hnd _ Hobj _].
    apply quiet_step; [done|]. cbn [d1 fst snd]. rewrite Hrow.
    apply quiet_step; [done|]. cbn [d1 fst snd]. rewrite Hno.
    assert (match nonces s !! no with
      | Some n => negb (n_decision_id n =? de)%string | None => false end = false) as ->.
    { destruct (nonces s !! no) as [n|] eqn:En; [|done].
      by rewrite (Hnd n eq_refl), String.eqb_refl. }
    apply quiet_step; [done|]. cbn [d1 fst snd]. rewrite Hpa, Hobj, Hli.
    apply quiet_bind. exact Hq.
  - intros t. reflexivity.
  - reflexivity.
  - reflexivity.
Qed.

(** A receipt that is not stored yet is stored, and the answer is EXECUTED. *)
Lemma persist_fresh captured r aid t :
  proofs t !! receipt_id r = None →
  let out := run d1 (persist_execution env captured r aid true) t in
  (∃ status, out.2 = Response (executed_response true r captured
     [("lineage_append_status", JStr status)]))
  ∧ proofs out.1 = <[receipt_id r := proof_row r captured aid (t_persisted env)]> (proofs t)
  ∧ nonces out.1 = nonces t
  ∧ option_map o_content (objects out.1 !! cap_path captured) = Some (cap_content captured).
Proof.
  intros Hr out. subst out. unfold persist_execution, appendLineageNode.
  rewrite !run_bind. cbn -[d1 executed_response option_map].
  set (t1 := (d1 unit (UpsertObject _ _) t).1).
  assert (proofs t1 = proofs t ∧ nonces t1 = nonces t
    ∧ option_map o_content (objects t1 !! cap_path captured) = Some (cap_content captured))
    as (Hp & Hn & Ho).
  { split; [done|]. split; [done|]. unfold t1, d1, set_objects. cbn [fst objects].
    by rewrite lookup_insert_eq. }
  clearbody t1. rewrite <- Hp in Hr. cbn [d1]. rewrite Hr. cbn -[executed_response option_map].
  destruct (lineage t1 !! _); cbn -[executed_response option_map]; rewrite Hp, Hn;
    (split; [by eexists|by repeat split]).
Qed.
End Liveness.

(** The texts two receipts are identified by have one digest. *)
Definition receipts_collide (r r' : AdapterProofReceipt) : Prop :=
  collision_in [canonicalize (receipt_body_js r); canonicalize (receipt_body_js r')].

(** The receipt of a request collides with one that the store holds already. *)
Definition stale_receipt (env : request_env) (no : string) (s : db) : Prop :=
  ∃ r row, receipt_for env no r ∧ proofs s !! receipt_id r = Some row
    ∧ receipts_collide r (row_receipt (receipt_id r) row).

(** An empty table of proofs holds none. *)
Lemma stale_receipt_empty env no s : proofs s = ∅ → ¬ stale_receipt env no s.
Proof. intros E (r & row & _ & H & _). by rewrite E in H. Qed.

(** The answer that carries receipt [r]. *)
Definition answers_receipt (a : route_result) (r : AdapterProofReceipt) : Prop :=
  ∃ captured status, a = Response (executed_response true r captured
    [("lineage_append_status", JStr status)]).

(** The identifier of a receipt binds its nonce and its time. *)
Lemma receipt_body_binding r r' :
  sha256_id (receipt_body_js r) = sha256_id (receipt_body_js r') →
  (∀ n n', receipt_replay_nonce r = JStr n → receipt_replay_nonce r' = JStr n' →
     n = n' ∧ receipt_emitted_at r = receipt_emitted_at r') ∨ receipts_collide r r'.
Proof.
  intros [E|]%sha256_id_binding; [left|by right]. intros n n' Hn Hn'.
  pose proof (normalize_get _ _ "replay_nonce" ltac:(discriminate) E) as En.
  pose proof (normalize_get _ _ "emitted_at" ltac:(discriminate) E) as Ee.
  change (normalize (receipt_replay_nonce r) = normalize (receipt_replay_nonce r')) in En.
  change (JStr (receipt_emitted_at r) = JStr (receipt_emitted_at r')) in Ee.
  rewrite Hn, Hn' in En. injection En as ->. injection Ee as ->. done.
Qed.

Lemma fresh_receipt env s de li no obj r :
  db_inv s → supported s de li no obj → receipt_for env no r →
  proofs s !! receipt_id r = None ∨ stale_receipt env no s.
Proof.
  intros Hi Hs Hr. pose proof Hr as (Hn & Hid & _). destruct (proofs s !! receipt_id r) as [row|] eqn:E; [|by left].
  right. exists r, row. split; [exact Hr|]. split; [exact E|].
  destruct (inv_proofs _ Hi _ _ E) as (_ & _ & Hrow & n & Hpn & (nr & Hnr & Hc)).
  assert (sha256_id (receipt_body_js r)
    = sha256_id (receipt_body_js (row_receipt (receipt_id r) row))) as Eh by congruence.
  destruct (receipt_body_binding _ _ Eh) as [Hb|]; [|done].
  destruct (Hb no n Hn Hpn) as [<- _]. apply (su_states _ _ _ _ _ Hs) in Hnr. congruence.
Qed.

Lemma upsert_consumed_after n d now s u :
  nonces u = nonces (d1 Z (UpsertNonceConsumed n d now) s).1 → consumed u n.
Proof.
  intros E. destruct (consumed_upsert s n d now) as (row & Hr & Hc). exists row. by rewrite E.
Qed.

Lemma executes_lemma re_other date_parse date_now env s b de li no obj :
  db_inv s → is_Some (decisions s !! GATEWAY_DECISION_ID) → clocks_ok env →
  well_formed b de no → supported s de li no obj →
  let out := run d1 (handleFilesystemWriteRoute re_other date_parse date_now env b) s in
  (executed_nonce out.2 no ∧ consumed out.1 no
   ∧ option_map o_content (objects out.1 !! SEED_PATH) = Some (str_or_empty (get b "content")))
  ∨ stale_receipt env no s.
Proof.
  intros Hi Hd Hc Hw Hs out. subst out.
  destruct (route_commit_point re_other date_parse date_now env s b de li no obj Hd Hc Hw Hs)
    as (r & captured & aid & m & Hr & Hpath & Hcont & Hq & Hm).
  destruct (fresh_receipt _ _ _ _ _ _ _ Hi Hs Hr) as [Hf|]; [left|by right].
  rewrite (run_quiet _ _ _ _ Hq), Hm.
  destruct (persist_fresh env captured r aid
    (d1 _ (UpsertNonceConsumed no de (t_consumed env)) s).1 Hf) as ((st & Ha) & _ & Hn & Ho).
  split; [|split].
  - exists r, captured, st. split; [apply Hr|exact Ha].
  - by eapply upsert_consumed_after.
  - rewrite <- Hpath, <- Hcont. exact Ho.
Qed.


(** Two requests of one nonce, each stopped before its commit. *)
Lemma twice_lemma re_other date_parse date_now e1 e2 s b1 b2 de li no obj :
  db_inv s → is_Some (decisions s !! GATEWAY_DECISION_ID) → clocks_ok e1 → clocks_ok e2 →
  t_emitted e1 ≠ t_emitted e2 → well_formed b1 de no → well_formed b2 de no →
  supported s de li no obj →
  (∃ t a1 a2,
     pool_steps d1
       (s, [handleFilesystemWriteRoute re_other date_parse date_now e1 b1;
            handleFilesystemWriteRoute re_other date_parse date_now e2 b2])
       (t, [Ret a1; Ret a2])
     ∧ executed_nonce a1 no ∧ executed_nonce a2 no
     ∧ option_map o_content (objects t !! SEED_PATH) = Some (str_or_empty (get b2 "content")))
  ∨ stale_receipt e1 no s ∨ stale_receipt e2 no s
  ∨ ∃ r1 r2,
      answers_receipt (run d1 (handleFilesystemWriteRoute re_other date_parse date_now e1 b1) s).2 r1
      ∧ answers_receipt (run d1 (handleFilesystemWriteRoute re_other date_parse date_now e2 b2) s).2 r2
      ∧ receipts_collide r1 r2.
Proof.
  intros Hi Hd Hc1 Hc2 Hne Hw1 Hw2 Hs.
  destruct (route_commit_point re_other date_parse date_now e1 s b1 de li no obj Hd Hc1 Hw1 Hs)
    as (r1 & k1 & aid1 & m1 & Hr1 & _ & _ & Hq1 & Hm1).
  destruct (route_commit_point re_other date_parse date_now e2 s b2 de li no obj Hd Hc2 Hw2 Hs)
    as (r2 & k2 & aid2 & m2 & Hr2 & Hp2 & Hk2 & Hq2 & Hm2).
  destruct (fresh_receipt _ _ _ _ _ _ _ Hi Hs Hr1) as [Hf1|]; [|by right; left].
  destruct (fresh_receipt _ _ _ _ _ _ _ Hi Hs Hr2) as [Hf2|]; [|by right; right; left].
  destruct (decide (receipt_id r1 = receipt_id r2)) as [E|Hrr].
  { right; right; right. exists r1, r2.
    destruct (persist_fresh e1 k1 r1 aid1
      (d1 _ (UpsertNonceConsumed no de (t_consumed e1)) s).1 Hf1) as ((st1 & Ha1) & _).
    destruct (persist_fresh e2 k2 r2 aid2
      (d1 _ (UpsertNonceConsumed no de (t_consumed e2)) s).1 Hf2) as ((st2 & Ha2) & _).
    split; [rewrite (run_quiet _ _ _ _ Hq1), Hm1; by exists k1, st1|].
    split; [rewrite (run_quiet _ _ _ _ Hq2), Hm2; by exists k2, st2|].
    pose proof Hr1 as (Hn1 & Hi1 & He1 & _). pose proof Hr2 as (Hn2 & Hi2 & He2 & _).
    rewrite Hi1, Hi2 in E. destruct (receipt_body_binding _ _ E) as [Hb|]; [|done].
    destruct (Hb no no Hn1 Hn2) as [_ Hee]. congruence. }
  left.
  destruct (persist_fresh e1 k1 r1 aid1
    (d1 _ (UpsertNonceConsumed no de (t_consumed e1)) s).1 Hf1) as ((st1 & Ha1) & Hp1 & _ & _).
  rewrite <- Hm1 in Ha1, Hp1. set (s1 := (run d1 m1 s).1) in *.
  assert (proofs (d1 _ (UpsertNonceConsumed no de (t_consumed e2)) s1).1 !! receipt_id r2 = None)
    as Hf2' by (change (proofs s1 !! receipt_id r2 = None); rewrite Hp1, lookup_insert_ne; done).
  destruct (persist_fresh e2 k2 r2 aid2 _ Hf2') as ((st2 & Ha2) & _ & _ & Ho2).
  rewrite <- Hm2 in Ha2, Ho2.
  exists (run d1 m2 s1).1, (run d1 m1 s).2, (run d1 m2 s1).2. split; [|split; [|split]].
  - eapply pool_steps_trans; [by apply (quiet_pool d1 s _ 0 (handleFilesystemWriteRoute re_other date_parse date_now e1 b1) m1)|].
    eapply pool_steps_trans; [by apply (quiet_pool d1 s _ 1 (handleFilesystemWriteRoute re_other date_parse date_now e2 b2) m2)|].
    eapply pool_steps_trans; [by apply (run_pool d1 s _ 0 m1)|].
    eapply pool_steps_trans; [by apply (run_pool d1 _ _ 1 m2)|]. constructor.
  - exists r1, k1, st1. split; [apply Hr1|exact Ha1].
  - exists r2, k2, st2. split; [apply Hr2|exact Ha2].
  - rewrite <- Hp2, <- Hk2. exact Ho2.
Qed.

(** Interleaved, a nonce is executed twice: whenever a nonce is good for one
    request, it is good for two that run concurrently. Some interleaving
    answers EXECUTED to both, and the file keeps the content of the later one
    only, unless a receipt of one of them collides with a stored one or with that
    of the other. *)
Theorem interleaved_nonce_twice re_other date_parse date_now e1 e2 s b1 b2 de li no obj :
  db_inv s → is_Some (decisions s !! GATEWAY_DECISION_ID) → clocks_ok e1 → clocks_ok e2 →
  t_emitted e1 ≠ t_emitted e2 → well_formed b1 de no → well_formed b2 de no →
  supported s de li no obj →
  (∃ t a1 a2,
     pool_steps d1
       (s, [handleFilesystemWriteRoute re_other date_parse date_now e1 b1;
            handleFilesystemWriteRoute re_other date_parse date_now e2 b2])
       (t, [Ret a1; Ret a2])
     ∧ executed_nonce a1 no ∧ executed_nonce a2 no
     ∧ option_map o_content (objects t !! SEED_PATH) = Some (str_or_empty (get b2 "content")))
  ∨ stale_receipt e1 no s ∨ stale_receipt e2 no s
  ∨ ∃ r1 r2,
      answers_receipt (run d1 (handleFilesystemWriteRoute re_other date_parse date_now e1 b1) s).2 r1
      ∧ answers_receipt (run d1 (handleFilesystemWriteRoute re_other date_parse date_now e2 b2) s).2 r2
      ∧ receipts_collide r1 r2.
Proof. apply twice_lemma. Qed.

(** ** A concrete registry with its seed *)
Definition fixture_env (emitted : string) : request_env :=
  mkEnv "t0" "t1" emitted "t3" "t4" "t5" "t6" "t7" ("corr-" +:+ emitted).

Definition fixture_body (content : string) : jsval :=
  JObj [("agent_id", JStr "agent-1"); ("session_id", JStr "session-1");
        ("intent", JStr "update seed"); ("path", JStr SEED_PATH); ("content", JStr content);
        ("replay_nonce", JStr "nonce-1")].

Definition fixture_db : db := ensured (fixture_env "e0") empty_db.

Definition fixture_object : ObjectRow :=
  mkObject SEED_CONTENT (content_id SEED_CONTENT) (Z.of_nat (js_length SEED_CONTENT)) "t0".

Definition fixture_re : string → string → bool := λ _ _, false.
Definition fixture_date : string → option Z := λ _, None.

Lemma fixture_inv : db_inv fixture_db.
Proof. apply (run_ok d1 db_inv db_grows _ _ _ empty_db_inv (ensure_ok (fixture_env "e0") _ empty_db_inv)). Qed.

Lemma fixture_decision : is_Some (decisions fixture_db !! GATEWAY_DECISION_ID).
Proof. eexists. reflexivity. Qed.

Lemma fixture_supported :
  supported fixture_db GATEWAY_DECISION_ID GATEWAY_LINEAGE_HASH "nonce-1" fixture_object.
Proof.
  constructor; try done.
  eexists. split; [reflexivity|]. by split.
Qed.

Lemma fixture_well_formed content :
  well_formed (fixture_body content) GATEWAY_DECISION_ID "nonce-1".
Proof. by constructor. Qed.


Lemma interleaved_nonce_twice_witness :
  (∃ t a1 a2,
     pool_steps d1
       (fixture_db, [handleFilesystemWriteRoute fixture_re fixture_date 0 (fixture_env "e1")
                       (fixture_body "first");
                     handleFilesystemWriteRoute fixture_re fixture_date 0 (fixture_env "e2")
                       (fixture_body "second")])
       (t, [Ret a1; Ret a2])
     ∧ executed_nonce a1 "nonce-1" ∧ executed_nonce a2 "nonce-1"
     ∧ option_map o_content (objects t !! SEED_PATH) = Some "second")
  ∨ ∃ r1 r2,
      answers_receipt (run d1 (handleFilesystemWriteRoute fixture_re fixture_date 0 (fixture_env "e1")
        (fixture_body "first")) fixture_db).2 r1
      ∧ answers_receipt (run d1 (handleFilesystemWriteRoute fixture_re fixture_date 0 (fixture_env "e2")
        (fixture_body "second")) fixture_db).2 r2
      ∧ receipts_collide r1 r2.
Proof.
  destruct (interleaved_nonce_twice fixture_re fixture_date 0 (fixture_env "e1") (fixture_env "e2")
    fixture_db (fixture_body "first") (fixture_body "second") _ _ _ _ fixture_inv fixture_decision
    (conj eq_refl (conj eq_refl eq_refl)) (conj eq_refl (conj eq_refl eq_refl))
    ltac:(discriminate) (fixture_well_formed "first") (fixture_well_formed "second")
    fixture_supported) as [H|[[]%stale_receipt_empty|[[]%stale_receipt_empty|H]]];
    [left; exact H|reflexivity|reflexivity|right; exact H].
Defined.

(** Two requests with one nonce, one after the other: the second one is not
    executed. *)
Definition fixture_requests : list (request_env * jsval) :=
  [(fixture_env "e1", fixture_body "first"); (fixture_env "e2", fixture_body "second")].

Lemma sequential_nonce_once_witness :
  ∃ a c, (serve fixture_re fixture_date 0 fixture_db fixture_requests).2 = [a; c]
    ∧ executed_nonce a "nonce-1" ∧ ¬ executed_nonce c "nonce-1".
Proof.
  pose proof (executes_lemma fixture_re fixture_date 0 (fixture_env "e1") fixture_db
    (fixture_body "first") _ _ _ _ fixture_inv fixture_decision (conj eq_refl (conj eq_refl eq_refl))
    (fixture_well_formed "first") fixture_supported) as Hx.
  pose proof (λ i j a c, sequential_nonce_once fixture_re fixture_date 0 fixture_requests fixture_db
    i j a c "nonce-1" fixture_inv) as Honce.
  unfold fixture_requests in *. cbn [serve] in *.
  destruct (run d1 _ fixture_db) as [s1 a]. destruct (run d1 _ s1) as [s2 c].
  cbn [fst snd] in *. exists a, c. split; [reflexivity|].
  destruct Hx as [[Ha _]|[]%stale_receipt_empty]; [|reflexivity]. split; [exact Ha|]. intros Hc.
  discriminate (Honce 0 1 a c eq_refl eq_refl Ha Hc).
Defined.

Lemma route_interleaved_witness :
  let q := schedule d1 [0; 1; 0; 1; 0; 1; 0; 0; 1; 1]
    (fixture_db, map (λ r, handleFilesystemWriteRoute fixture_re fixture_date 0 r.1 r.2)
       fixture_requests) in
  db_inv q.1 ∧ db_grows fixture_db q.1.
Proof.
  destruct (route_interleaved fixture_re fixture_date 0 fixture_requests fixture_db _ fixture_inv
    (schedule_steps d1 [0; 1; 0; 1; 0; 1; 0; 0; 1; 1] _)) as (Hi & Hg & _).
  split; [exact Hi|exact Hg].
Defined.
