(* ===== verification/Epoch.v ===== *)
(** Epochs: [src/lib/epoch-substrate.ts].

    The nine finality states of an epoch, their classification from evidence
    and the table of permitted transitions. *)
From Stdlib Require Import ZArith NArith Lia Ascii.
From stdpp Require Import base list strings gmap relations.
From S2P Require Import Prelude JsValue Sha256 Canonical.

Inductive EpochFinalityStatus :=
  | EPOCH_LOCAL
  | EPOCH_GLOBAL_CANDIDATE
  | EPOCH_GLOBAL_AUTHORITATIVE
  | EPOCH_AMBIGUOUS
  | EPOCH_STALE_VISIBLE
  | EPOCH_PARTITION_SUSPENDED
  | EPOCH_CONFLICTED
  | EPOCH_REVOKED
  | EPOCH_NULL.

#[export] Instance epoch_status_eq_dec : EqDecision EpochFinalityStatus.
Proof. solve_decision. Defined.

Record EpochRecord := mkEpoch {
  epoch_id : string;
  epoch_scope : string;
  epoch_finality_status : EpochFinalityStatus;
  quorum_attestation_id : option string;
  epoch_quorum_profile : option string;
  epoch_causal_frontier : option Z;
  epoch_replay_frontier : option string;
  epoch_reconciliation_frontier : option string;
  epoch_revocation_frontier : option string;
  finality_classification_id : option string;
  supersedes_epoch_id : option string;
  epoch_reason_code : string;
  epoch_created_at : string
}.

Definition buildEpochId (scope created_at reason : string) : string :=
  "epoch_" +:+ hashCanonical (JObj [("epoch_scope", JStr scope); ("created_at", JStr created_at);
    ("reason_code", JStr reason)]).

Definition isEpochGloballyAuthoritative (status : EpochFinalityStatus) : bool :=
  match status with EPOCH_GLOBAL_AUTHORITATIVE => true | _ => false end.

Definition isEpochLocallyValid (status : EpochFinalityStatus) : bool :=
  match status with
  | EPOCH_LOCAL | EPOCH_GLOBAL_CANDIDATE | EPOCH_GLOBAL_AUTHORITATIVE => true
  | _ => false
  end.

Definition isEpochTerminal (status : EpochFinalityStatus) : bool :=
  match status with EPOCH_NULL => true | _ => false end.

Definition isEpochBlocking (status : EpochFinalityStatus) : bool :=
  match status with
  | EPOCH_AMBIGUOUS | EPOCH_PARTITION_SUSPENDED | EPOCH_CONFLICTED | EPOCH_REVOKED | EPOCH_NULL =>
      true
  | _ => false
  end.

Record epoch_evidence := mkEpochEvidence {
  topology_present : bool;
  quorum_met : bool;
  revocation_live : bool;
  has_competing_head : bool;
  is_revoked : bool
}.

Definition classifyEpochFinality (opts : epoch_evidence) : EpochFinalityStatus :=
  if is_revoked opts then EPOCH_REVOKED
  else if negb (topology_present opts) then EPOCH_PARTITION_SUSPENDED
  else if has_competing_head opts then EPOCH_CONFLICTED
  else if negb (quorum_met opts) then EPOCH_LOCAL
  else if negb (revocation_live opts) then EPOCH_STALE_VISIBLE
  else EPOCH_GLOBAL_AUTHORITATIVE.

Definition epochFinalityToEpochValidPredicate (status : EpochFinalityStatus)
    (require_global : bool) : bool :=
  match status with
  | EPOCH_GLOBAL_AUTHORITATIVE => true
  | EPOCH_LOCAL | EPOCH_GLOBAL_CANDIDATE => negb require_global
  | _ => false
  end.

Definition allowed (from : EpochFinalityStatus) : list EpochFinalityStatus :=
  match from with
  | EPOCH_LOCAL =>
      [EPOCH_GLOBAL_CANDIDATE; EPOCH_AMBIGUOUS; EPOCH_PARTITION_SUSPENDED; EPOCH_NULL]
  | EPOCH_GLOBAL_CANDIDATE =>
      [EPOCH_GLOBAL_AUTHORITATIVE; EPOCH_AMBIGUOUS; EPOCH_PARTITION_SUSPENDED; EPOCH_NULL]
  | EPOCH_GLOBAL_AUTHORITATIVE =>
      [EPOCH_STALE_VISIBLE; EPOCH_CONFLICTED; EPOCH_REVOKED; EPOCH_AMBIGUOUS; EPOCH_NULL]
  | EPOCH_AMBIGUOUS => [EPOCH_LOCAL; EPOCH_GLOBAL_AUTHORITATIVE; EPOCH_NULL]
  | EPOCH_STALE_VISIBLE => [EPOCH_GLOBAL_AUTHORITATIVE; EPOCH_LOCAL; EPOCH_NULL]
  | EPOCH_PARTITION_SUSPENDED =>
      [EPOCH_LOCAL; EPOCH_GLOBAL_CANDIDATE; EPOCH_GLOBAL_AUTHORITATIVE; EPOCH_NULL]
  | EPOCH_CONFLICTED => [EPOCH_GLOBAL_AUTHORITATIVE; EPOCH_AMBIGUOUS; EPOCH_NULL]
  | EPOCH_REVOKED => [EPOCH_NULL]
  | EPOCH_NULL => []
  end.

Definition isValidEpochTransition (from to : EpochFinalityStatus) : bool :=
  match from with
  | EPOCH_NULL => false
  | _ => bool_decide (to ∈ allowed from)
  end.

(** * Theorems *)

(** The life of an epoch: any number of permitted transitions. *)
Definition epoch_step (from to : EpochFinalityStatus) : Prop :=
  isValidEpochTransition from to = true.

Lemma epoch_step_elem from to : epoch_step from to ↔ to ∈ allowed from.
Proof.
  unfold epoch_step, isValidEpochTransition.
  destruct from; rewrite ?bool_decide_eq_true; [done..|]. cbn. rewrite elem_of_nil. done.
Qed.

Lemma epoch_null_final s : rtc epoch_step EPOCH_NULL s → s = EPOCH_NULL.
Proof.
  inversion 1 as [|x y z Hs _]; [done|]. apply epoch_step_elem, elem_of_nil in Hs. done.
Qed.

(** Revocation of an epoch is final. However many permitted transitions
    follow, a revoked epoch is only ever revoked or null, so it never again
    supports a local or a global decision; null is terminal, and every
    other status can be nulled at once. *)
Theorem epoch_revocation_final :
  (∀ s, rtc epoch_step EPOCH_REVOKED s → (s = EPOCH_REVOKED ∨ s = EPOCH_NULL)
     ∧ isEpochLocallyValid s = false ∧ epochFinalityToEpochValidPredicate s false = false)
  ∧ (∀ s, rtc epoch_step EPOCH_NULL s → s = EPOCH_NULL)
  ∧ ∀ s, s ≠ EPOCH_NULL → epoch_step s EPOCH_NULL.
Proof.
  split; [|split; [apply epoch_null_final|intros [] Hs; reflexivity || congruence]].
  intros s H. assert (s = EPOCH_REVOKED ∨ s = EPOCH_NULL) as Hs; [|by destruct Hs as [-> | ->]; auto].
  inversion H as [|x y z Hs Hr]; [by left|right]. subst.
  apply epoch_step_elem, list_elem_of_singleton in Hs as ->. by apply epoch_null_final.
Qed.

(** Only full evidence makes an epoch globally authoritative: the topology is
    present, a quorum is met, revocation is live, there is no competing head and
    no revocation. But less evidence can give a status that permits more: while
    revocation is not live, an epoch with a quorum is stale and supports no
    decision, and the same epoch without a quorum is local and supports local
    decisions. *)
Theorem epoch_evidence_required :
  (∀ ev, isEpochGloballyAuthoritative (classifyEpochFinality ev) = true ↔
     ev = mkEpochEvidence true true true false false)
  ∧ isEpochLocallyValid (classifyEpochFinality (mkEpochEvidence true true false false false))
    = false
  ∧ isEpochLocallyValid (classifyEpochFinality (mkEpochEvidence true false false false false))
    = true.
Proof.
  split; [|done]. intros [[] [] [] [] []]; cbn; split; intros H; try done; by inversion H.
Qed.
