(* ===== verification/Finality.v ===== *)
(** Finality of legitimacy objects: [src/lib/finality-classification.ts],
    [src/lib/topology-visibility.ts], [src/lib/quorum-attestation.ts] and
    [src/lib/proof-finality-metadata.ts].

    The [creates_*], [restores_replay] and similar fields are constants of the
    results. Weights and the quorum threshold are exact rationals. *)
From Stdlib Require Import ZArith NArith QArith Lia Ascii.
From stdpp Require Import base list strings pretty gmap.
From S2P Require Import Prelude JsValue Sha256 Canonical Epoch.

Inductive FinalityClassification :=
  | LOCAL_VALID | CONVERGENCE_VALID | GLOBAL_VALID | FAMBIGUOUS | FSTALE_VISIBLE
  | FPARTITION_SUSPENDED | FNULL.

#[export] Instance finality_eq_dec : EqDecision FinalityClassification.
Proof. solve_decision. Defined.

Definition finality_str (c : FinalityClassification) : string :=
  match c with
  | LOCAL_VALID => "LOCAL_VALID" | CONVERGENCE_VALID => "CONVERGENCE_VALID"
  | GLOBAL_VALID => "GLOBAL_VALID" | FAMBIGUOUS => "AMBIGUOUS" | FSTALE_VISIBLE => "STALE_VISIBLE"
  | FPARTITION_SUSPENDED => "PARTITION_SUSPENDED" | FNULL => "NULL"
  end.

(** * Partition admission *)
Inductive partition_refusal :=
  | missing_partition_metadata | ambiguous_partition_ordering | finality_hash_drift
  | reconciliation_ambiguity | detached_lineage | partition_visibility_loss
  | stale_partition_settlement_evidence | non_deterministic_partition_reconciliation
  | partition_unsettled | partition_drift.

Inductive PartitionAdmissionDecision :=
  | PartitionAdmitted (state : string)
  | PartitionRefused (reason : partition_refusal).

Section Partition.
Context (date_parse : string → option Z) (date_now : Z) (other_number : string → jsnum).

Definition closure_preimage (epoch : Z) (lineage : string) : jsval :=
  JObj [("partition_epoch", jint epoch); ("canonical_lineage_hash", JStr lineage)].

Definition closure_hash (epoch : Z) (lineage : string) : string :=
  hashCanonical (closure_preimage epoch lineage).

Definition classifyPartitionFinalityAdmission (input : jsval) : PartitionAdmissionDecision :=
  let state := text (get input "partition_finality_state") in
  let closureHash := text (get input "partition_closure_hash") in
  let canonicalLineage := text (get input "canonical_lineage_hash") in
  let partitionLineage := text (get input "partition_lineage_hash") in
  let topologyVisible := bool_decide (get input "topology_visible" = JBool true) in
  let reconciliationDeterministic :=
    bool_decide (get input "reconciliation_deterministic" = JBool true) in
  let orderingDeterministic :=
    bool_decide (get input "reconciliation_ordering_deterministic" = JBool true) in
  let epoch := finite (to_number other_number (get input "partition_epoch")) in
  let observedAtMs := date_parse (text (get input "settlement_observed_at")) in
  let nowMs := default date_now (finite_number (get input "now_ms")) in
  let freshnessWindow := default 300000%Z (finite_number (get input "freshness_window_ms")) in
  if is_empty_str state || is_empty_str closureHash || is_empty_str canonicalLineage
     || is_empty_str partitionLineage then PartitionRefused missing_partition_metadata
  else
    match epoch with
    | None => PartitionRefused missing_partition_metadata
    | Some epoch =>
        if negb topologyVisible then PartitionRefused partition_visibility_loss
        else if negb orderingDeterministic then PartitionRefused ambiguous_partition_ordering
        else if negb reconciliationDeterministic then
          PartitionRefused non_deterministic_partition_reconciliation
        else if match observedAtMs with
                | None => true
                | Some t => (freshnessWindow <? nowMs - t)%Z
                end
        then PartitionRefused stale_partition_settlement_evidence
        else if negb (String.eqb canonicalLineage partitionLineage) then
          PartitionRefused detached_lineage
        else if negb (String.eqb closureHash (closure_hash epoch canonicalLineage)) then
          PartitionRefused finality_hash_drift
        else if String.eqb state "PARTITION_DRIFT" then PartitionRefused partition_drift
        else if String.eqb state "PARTITION_OPEN"
                || String.eqb state "PARTITION_PENDING_SETTLEMENT" then
          PartitionRefused partition_unsettled
        else if String.eqb state "NULL" then PartitionRefused reconciliation_ambiguity
        else if String.eqb state "PARTITION_SETTLED" || String.eqb state "PARTITION_RECONCILED"
        then PartitionAdmitted state
        else PartitionRefused reconciliation_ambiguity
    end.
End Partition.

(** * Classification from predicates *)
Record PredicateSnapshot := mkPredicates {
  V : bool; A : bool; U : bool; P : bool; R : bool; T : bool; C : bool;
  Q : bool; G : bool; L : bool; X : bool
}.

Definition buildFinClassId (object_hash : string) (c : FinalityClassification)
    (created_at : string) : string :=
  "fcr_" +:+ hashCanonical (JObj [("object_hash", JStr object_hash);
    ("classification", JStr (finality_str c)); ("created_at", JStr created_at)]).

(** The four flags: quorum, global consensus, lineage freshness, integrity. *)
Definition evidenceFlagsFromPredicates (p : PredicateSnapshot) : bool * bool * bool * bool :=
  (Q p, G p, L p, X p).

Definition classifyFromPredicates (p : PredicateSnapshot) (topologyPresent : bool)
    (epochStatus : option EpochFinalityStatus)
    (causalOverride : option FinalityClassification) : FinalityClassification :=
  if negb topologyPresent then FPARTITION_SUSPENDED
  else if bool_decide (epochStatus = Some EPOCH_PARTITION_SUSPENDED) then FPARTITION_SUSPENDED
  else if bool_decide (epochStatus = Some EPOCH_STALE_VISIBLE) then FSTALE_VISIBLE
  else if match epochStatus with Some s => isEpochBlocking s | None => false end then FNULL
  else if negb (V p && A p && U p && P p && R p && T p && C p) then FNULL
  else if Q p && G p && L p && X p then
    match causalOverride with
    | Some FAMBIGUOUS => FAMBIGUOUS
    | Some FNULL => FNULL
    | _ =>
        if match epochStatus with Some s => isEpochGloballyAuthoritative s | None => false end
        then GLOBAL_VALID else CONVERGENCE_VALID
    end
  else if L p then LOCAL_VALID
  else FSTALE_VISIBLE.

(** * Topology visibility *)
Inductive TopologyVisibilityState :=
  | TOPOLOGY_VISIBLE | TOPOLOGY_PARTIAL | TOPOLOGY_STALE | TOPOLOGY_INVISIBLE
  | TOPOLOGY_AMBIGUOUS | TOPOLOGY_NULL.

#[export] Instance topology_eq_dec : EqDecision TopologyVisibilityState.
Proof. solve_decision. Defined.

Record TopologySnapshot := mkSnapshot {
  topology_snapshot_id : string;
  topology_snapshot_hash : string;
  observed_nodes : list string;
  missing_nodes : list string;
  stale_nodes : list string;
  partitioned_nodes : list string;
  observed_at : string;
  snapshot_epoch_id : string;
  visibility_classification : TopologyVisibilityState
}.

Inductive visibility_class := VISIBLE | DEGRADED | BLOCKING.

Record TopologyVisibilityResult := mkVisibility {
  topology_visibility : TopologyVisibilityState;
  finality_guard : bool;
  visibility : visibility_class;
  result_missing_nodes : list string;
  result_stale_nodes : list string
}.

Definition buildTopologySnapshotHash (observed missing stale partitioned : list string)
    (epoch at_time : string) : string :=
  let nodes l := JArr (map JStr (sort_by str_leb l)) in
  hashCanonical (JObj [("observed_nodes", nodes observed); ("missing_nodes", nodes missing);
    ("stale_nodes", nodes stale); ("partitioned_nodes", nodes partitioned);
    ("epoch_id", JStr epoch); ("observed_at", JStr at_time)]).

Definition buildTopologySnapshotId (hash epoch : string) : string :=
  "tsn_" +:+ hashCanonical (JObj [("topology_snapshot_hash", JStr hash); ("epoch_id", JStr epoch)]).

Definition classifyTopologyVisibility (snapshot : option TopologySnapshot) :
    TopologyVisibilityResult :=
  match snapshot with
  | None => mkVisibility TOPOLOGY_NULL false BLOCKING [] []
  | Some s =>
      if bool_decide (visibility_classification s = TOPOLOGY_NULL) then
        mkVisibility TOPOLOGY_NULL false BLOCKING (missing_nodes s) (stale_nodes s)
      else if Nat.eqb (length (observed_nodes s)) 0 then
        mkVisibility TOPOLOGY_INVISIBLE false BLOCKING (missing_nodes s) (stale_nodes s)
      else if Nat.ltb 0 (length (stale_nodes s)) then
        mkVisibility TOPOLOGY_STALE false DEGRADED (missing_nodes s) (stale_nodes s)
      else if Nat.ltb 0 (length (partitioned_nodes s)) then
        mkVisibility TOPOLOGY_AMBIGUOUS false BLOCKING (missing_nodes s) []
      else if Nat.ltb 0 (length (missing_nodes s)) then
        mkVisibility TOPOLOGY_PARTIAL false BLOCKING (missing_nodes s) []
      else mkVisibility TOPOLOGY_VISIBLE true VISIBLE [] []
  end.

(** [None]: valid. *)
Definition validateTopologySnapshot (s : jsval) : option string :=
  if nullish s then Some "topology snapshot is null or missing"
  else if negb (is_record s || is_array s) then Some "topology snapshot must be an object"
  else if negb (is_non_empty (get s "topology_snapshot_hash")) then
    Some "topology_snapshot_hash is missing or empty"
  else if negb (is_array (get s "observed_nodes")) then Some "observed_nodes must be an array"
  else if negb (is_array (get s "missing_nodes")) then Some "missing_nodes must be an array"
  else if negb (is_array (get s "stale_nodes")) then Some "stale_nodes must be an array"
  else if negb (is_array (get s "partitioned_nodes")) then
    Some "partitioned_nodes must be an array"
  else if negb (is_non_empty (get s "epoch_id")) then Some "epoch_id is missing"
  else if negb (is_non_empty (get s "observed_at")) then Some "observed_at is missing"
  else None.

Definition topologyVisibilityToFinalityGuard (s : TopologyVisibilityState) : bool :=
  bool_decide (s = TOPOLOGY_VISIBLE).

Definition topologyVisibilityToFinalityClassification (s : TopologyVisibilityState) :
    option FinalityClassification :=
  match s with
  | TOPOLOGY_VISIBLE => None
  | TOPOLOGY_PARTIAL => Some FPARTITION_SUSPENDED
  | TOPOLOGY_STALE => Some FSTALE_VISIBLE
  | TOPOLOGY_INVISIBLE => Some FNULL
  | TOPOLOGY_AMBIGUOUS => Some FAMBIGUOUS
  | TOPOLOGY_NULL => Some FNULL
  end.

Definition topologyEvidenceFlags (r : TopologyVisibilityResult) : bool * TopologyVisibilityState :=
  (finality_guard r, topology_visibility r).

(** * Quorum attestation *)
Abbreviation rational := QArith_base.Q.

Record MemberAttestation := mkMember {
  member_id : string;
  member_weight : rational;
  attested_hash : string;
  attested_at : string;
  signature_present : bool
}.

Definition buildQuorumAttestationId (profile object_hash created_at : string) : string :=
  "qar_" +:+ hashCanonical (JObj [("federation_profile_id", JStr profile);
    ("attested_object_hash", JStr object_hash); ("created_at", JStr created_at)]).

Inductive ValidatorAttestationType := EVIDENCE | OBSERVATION.

#[export] Instance attestation_type_eq_dec : EqDecision ValidatorAttestationType.
Proof. solve_decision. Defined.

Record ValidatorAttestationEnvelope := mkAttestation {
  validator_attestation_id : string;
  validator_id : string;
  attestation_epoch_id : string;
  object_hash : string;
  attestation_classification : FinalityClassification;
  attestation_topology_hash : string;
  causal_clock_json : string;
  attestation_type : ValidatorAttestationType;
  attestation_timestamp : string;
  signature : string;
  is_epoch_stale : bool;
  is_topology_visible : bool
}.

Definition buildValidatorAttestationId (validator hash at_time : string) : string :=
  "vae_" +:+ hashCanonical (JObj [("validator_id", JStr validator); ("object_hash", JStr hash);
    ("timestamp_utc", JStr at_time)]).

Definition isAttestationEpochStale (envelope_epoch active_epoch_id : string) : bool :=
  negb (String.eqb envelope_epoch active_epoch_id).

Definition isAttestationTopologyVisible (topology_hash : string) : bool :=
  Nat.ltb 0 (js_length topology_hash).

Definition weight_sum (members : list MemberAttestation) : rational :=
  fold_left (λ sum m, (sum + member_weight m)%Q) members 0%Q.

Definition evaluateWeightedQuorum (members : list MemberAttestation) (target_hash : string)
    (threshold_fraction : rational) : rational * rational * bool :=
  let weight_total := weight_sum members in
  let weight_approved :=
    weight_sum (List.filter (λ m, String.eqb (attested_hash m) target_hash) members) in
  (weight_total, weight_approved,
   negb (Qle_bool weight_total 0) && Qle_bool (weight_total * threshold_fraction) weight_approved).

Definition evidence_envelopes (envelopes : list ValidatorAttestationEnvelope) :
    list ValidatorAttestationEnvelope :=
  List.filter (λ e, bool_decide (attestation_type e = EVIDENCE) && is_topology_visible e)
    envelopes.

Definition member_of (e : ValidatorAttestationEnvelope) : MemberAttestation :=
  mkMember (validator_id e) 1 (object_hash e) (attestation_timestamp e)
    (Nat.ltb 0 (js_length (signature e))).

(** The base predicates with the four evidence predicates set. *)
Definition full_predicates (p : PredicateSnapshot) : PredicateSnapshot :=
  mkPredicates (V p) (A p) (U p) (P p) (R p) (T p) (C p) true true true true.

(** [Q], [G], [L] and [X] of [base_predicates] are not read. *)
Definition classifyFromValidatorAttestations (envelopes : list ValidatorAttestationEnvelope)
    (base_predicates : PredicateSnapshot) (quorum_threshold_fraction : rational)
    (epochStatus : option EpochFinalityStatus) : FinalityClassification :=
  if Nat.eqb (length envelopes) 0 then FNULL
  else if existsb is_epoch_stale envelopes then FSTALE_VISIBLE
  else if forallb (λ e, negb (is_topology_visible e)) envelopes then FPARTITION_SUSPENDED
  else
    let evidenceEnvelopes := evidence_envelopes envelopes in
    let hashes := dedup [] (map object_hash evidenceEnvelopes) in
    if Nat.ltb 1 (length hashes) then FAMBIGUOUS
    else
      match evidenceEnvelopes with
      | first :: _ :: _ =>
          let quorum_met := (evaluateWeightedQuorum (map member_of evidenceEnvelopes)
            (object_hash first) quorum_threshold_fraction).2 in
          if negb quorum_met then LOCAL_VALID
          else classifyFromPredicates (full_predicates base_predicates) true epochStatus None
      | _ => LOCAL_VALID
      end.

(** * Proof finality *)
Inductive DetachReason :=
  | missing_continuity_lineage | missing_validated_object_hash | missing_execution_lineage
  | stale_proof_reuse.

Record ProofEvent := mkProofEvent {
  proof_event_id : string;
  event_proof_id : string;
  from_classification : FinalityClassification;
  to_classification : FinalityClassification;
  event_reason : string;
  event_time : string;
  event_evidence : option string
}.

Definition proof_event_key (id : string) (from to : FinalityClassification) (at_time : string) :
    jsval :=
  JObj [("proof_id", JStr id); ("from_classification", JStr (finality_str from));
        ("to_classification", JStr (finality_str to)); ("timestamp_utc", JStr at_time)].

Definition buildProofDowngradeEventId id from to at_time : string :=
  "pde_" +:+ hashCanonical (proof_event_key id from to at_time).

Definition buildProofUpgradeEventId id from to at_time : string :=
  "pue_" +:+ hashCanonical (proof_event_key id from to at_time).

Record proof_evidence := mkProofEvidence {
  proof_topology_present : bool;
  continuity_lineage_present : bool;
  validated_object_hash_present : bool;
  execution_lineage_present : bool;
  stale_reuse : bool
}.

Definition isProofDetached (ev : proof_evidence) : option DetachReason :=
  if negb (continuity_lineage_present ev) then Some missing_continuity_lineage
  else if negb (validated_object_hash_present ev) then Some missing_validated_object_hash
  else if negb (execution_lineage_present ev) then Some missing_execution_lineage
  else if stale_reuse ev then Some stale_proof_reuse
  else None.

Definition appendProofEvent (existing : list ProofEvent) (event : ProofEvent) : list ProofEvent :=
  existing ++ [event].

(** The classification and the reason of detachment; the event lists are passed
    through. *)
Definition classifyProofFinality (ev : proof_evidence) (current : FinalityClassification) :
    FinalityClassification * option DetachReason :=
  match isProofDetached ev with
  | Some stale_proof_reuse => (FSTALE_VISIBLE, Some stale_proof_reuse)
  | Some reason => (FNULL, Some reason)
  | None =>
      if negb (proof_topology_present ev) then (FPARTITION_SUSPENDED, None)
      else (current, None)
  end.

(** * Theorems *)

Definition all_predicates : PredicateSnapshot :=
  mkPredicates true true true true true true true true true true true.

Lemma global_valid_inv p t e o :
  classifyFromPredicates p t e o = GLOBAL_VALID ↔
    t = true ∧ p = all_predicates ∧ e = Some EPOCH_GLOBAL_AUTHORITATIVE
    ∧ o ≠ Some FAMBIGUOUS ∧ o ≠ Some FNULL.
Proof.
  split.
  - unfold classifyFromPredicates. intros H. destruct t; [|done]. cbn [negb] in H.
    case_bool_decide; [done|]. case_bool_decide; [done|].
    destruct (match e with Some s => isEpochBlocking s | None => false end); [done|].
    destruct p as [v a u p r t c q g l x]. cbn in H.
    destruct v, a, u, p, r, t, c; try done. cbn in H.
    destruct q, g, l, x; try done. cbn in H.
    assert (e = Some EPOCH_GLOBAL_AUTHORITATIVE) as -> by (by destruct e as [[]|], o as [[]|]).
    split; [done|]. split; [done|]. split; [done|]. by destruct o as [[]|].
  - intros (-> & -> & -> & Ha & Hn). cbn. by destruct o as [[]|].
Qed.

(** What global validity takes. An object is GLOBAL_VALID exactly when the
    topology is present, all eleven predicates hold, the epoch is globally
    authoritative and no causal override blocks it; with the guard computed
    from a topology snapshot, the snapshot then exists and has observed nodes
    and no stale, partitioned or missing ones. *)
Theorem global_valid_requirements p e o snapshot :
  (∀ t, classifyFromPredicates p t e o = GLOBAL_VALID ↔
     t = true ∧ p = all_predicates ∧ e = Some EPOCH_GLOBAL_AUTHORITATIVE
     ∧ o ≠ Some FAMBIGUOUS ∧ o ≠ Some FNULL)
  ∧ (classifyFromPredicates p (finality_guard (classifyTopologyVisibility snapshot)) e o
       = GLOBAL_VALID →
     ∃ s, snapshot = Some s ∧ observed_nodes s ≠ [] ∧ stale_nodes s = []
       ∧ partitioned_nodes s = [] ∧ missing_nodes s = []).
Proof.
  split; [intros t; apply global_valid_inv|].
  intros (Hg & _)%global_valid_inv. destruct snapshot as [s|]; [|done]. exists s.
  split; [done|]. unfold classifyTopologyVisibility in Hg. revert Hg.
  case_bool_decide; [done|].
  by destruct (observed_nodes s), (stale_nodes s), (partitioned_nodes s), (missing_nodes s).
Qed.

Lemma weight_ones l acc :
  (fold_left (λ sum m, (sum + member_weight m)%Q) (map member_of l) acc
   == acc + inject_Z (Z.of_nat (length l)))%Q.
Proof.
  revert acc. induction l as [|e l IH]; intros acc; cbn [map fold_left length].
  - cbn. ring.
  - rewrite IH. cbn [member_weight member_of]. rewrite Nat2Z.inj_succ, <- Z.add_1_r, inject_Z_plus.
    ring.
Qed.

Lemma agree_filter l h :
  Forall (λ e, object_hash e = h) l →
  List.filter (λ m, String.eqb (attested_hash m) h) (map member_of l) = map member_of l.
Proof. induction 1 as [|e l He _ IH]; cbn; [done|]. by rewrite He, String.eqb_refl, IH. Qed.

Lemma one_hash l h :
  length (dedup [] (map object_hash (h :: l))) ≤ 1 →
  Forall (λ e, object_hash e = object_hash h) (h :: l).
Proof.
  intros Hlen. apply Forall_forall. intros e He.
  assert (object_hash e ∈ dedup [] (map object_hash (h :: l))) as H1.
  { apply elem_of_dedup. split; [|apply not_elem_of_nil].
    apply list_elem_of_In, in_map. by apply list_elem_of_In. }
  assert (object_hash h ∈ dedup [] (map object_hash (h :: l))) as H2.
  { apply elem_of_dedup. split; [left|apply not_elem_of_nil]. }
  destruct (dedup _ _) as [|x [|y d]]; [by apply elem_of_nil in H1| |simpl in Hlen; lia].
  apply list_elem_of_singleton in H1, H2. congruence.
Qed.

Lemma agreed_quorum l h t :
  l ≠ [] → Forall (λ e, object_hash e = h) l →
  (evaluateWeightedQuorum (map member_of l) h t).2 = Qle_bool t 1.
Proof.
  intros Hne Hall. unfold evaluateWeightedQuorum. rewrite agree_filter by done. cbn [snd].
  set (n := inject_Z (Z.of_nat (length l))).
  assert (weight_sum (map member_of l) == n)%Q as Hw
    by (unfold weight_sum; rewrite weight_ones; unfold n; ring).
  assert (0 < n)%Q as Hn.
  { unfold n. change 0%Q with (inject_Z 0). rewrite <- Zlt_Qlt. destruct l; [done|]. simpl. lia. }
  assert (Qle_bool (weight_sum (map member_of l)) 0 = false) as ->.
  { apply not_true_iff_false. rewrite Qle_bool_iff, Hw. by apply Qlt_not_le. }
  cbn [negb andb]. apply eq_true_iff_eq. rewrite !Qle_bool_iff, Hw.
  by rewrite <- (Qmult_le_l t 1 n Hn), Qmult_1_r.
Qed.

Lemma attestations_decided envelopes p t e :
  classifyFromValidatorAttestations envelopes p t e =
    if Qle_bool t 1 then classifyFromValidatorAttestations envelopes p 1 e
    else match classifyFromValidatorAttestations envelopes p t e with c => c end.
Proof.
  destruct (Qle_bool t 1) eqn:Ht; [|done]. unfold classifyFromValidatorAttestations.
  destruct (Nat.eqb _ 0); [done|]. destruct (existsb _ _); [done|].
  destruct (forallb _ _); [done|]. destruct (Nat.ltb 1 _) eqn:Hl; [done|].
  apply Nat.ltb_ge in Hl. destruct (evidence_envelopes envelopes) as [|a [|b l]]; [done..|].
  apply one_hash in Hl. rewrite !agreed_quorum by done. by rewrite Ht.
Qed.

(** The quorum threshold decides nothing. Agreeing validators all count, and
    disagreeing ones are classified before the quorum is computed, so every
    threshold up to 1 gives the same classification. In particular one unsigned
    attestation presented twice passes as a full quorum of any threshold, with
    the four evidence predicates set. *)
Theorem quorum_threshold_irrelevant envelopes p t e v :
  (t <= 1)%Q →
  attestation_type v = EVIDENCE → is_topology_visible v = true → is_epoch_stale v = false →
  classifyFromValidatorAttestations envelopes p t e
    = classifyFromValidatorAttestations envelopes p 1 e
  ∧ classifyFromValidatorAttestations [v; v] p t e
    = classifyFromPredicates (full_predicates p) true e None.
Proof.
  intros Ht%Qle_bool_iff Hty Hvis Hst. split.
  - rewrite attestations_decided. by rewrite Ht.
  - unfold classifyFromValidatorAttestations, evidence_envelopes.
    cbn [length Nat.eqb existsb forallb List.filter].
    rewrite Hst, Hvis, bool_decide_eq_true_2 by done. cbn [negb andb orb map dedup str_in existsb].
    rewrite String.eqb_refl. cbn [orb length Nat.ltb Nat.leb].
    change [member_of v; member_of v] with (map member_of [v; v]).
    rewrite agreed_quorum by first [done|by repeat constructor]. by rewrite Ht.
Qed.

Lemma closure_binding epoch lineage epoch' lineage' :
  closure_hash epoch lineage = closure_hash epoch' lineage' →
  (epoch' = epoch ∧ lineage' = lineage)
  ∨ collision_in [canonicalize (closure_preimage epoch lineage); canonicalize (closure_preimage epoch' lineage')].
Proof.
  intros [E|]%hash_binding; [left|by right].
  pose proof (normalize_get _ _ "partition_epoch" ltac:(discriminate) E) as E1.
  pose proof (normalize_get _ _ "canonical_lineage_hash" ltac:(discriminate) E) as E2.
  change (JNum (NInt epoch) = JNum (NInt epoch')) in E1. change (JStr lineage = JStr lineage') in E2.
  injection E1 as ->. injection E2 as ->. done.
Qed.

(** A partition is admitted only on settled, fresh, bound evidence: the state
    is settled or reconciled, topology and both determinism flags are exactly
    [true], the settlement is inside the freshness window, both lineages are
    equal, and the closure hash is the digest of epoch and lineage; so one
    closure hash admits one epoch and lineage, up to a second text of the same
    digest. *)
Theorem partition_admission date_parse date_now other_number input state :
  classifyPartitionFinalityAdmission date_parse date_now other_number input
    = PartitionAdmitted state →
  (state = "PARTITION_SETTLED" ∨ state = "PARTITION_RECONCILED")
  ∧ get input "topology_visible" = JBool true
  ∧ get input "reconciliation_deterministic" = JBool true
  ∧ get input "reconciliation_ordering_deterministic" = JBool true
  ∧ text (get input "canonical_lineage_hash") = text (get input "partition_lineage_hash")
  ∧ (∃ t, date_parse (text (get input "settlement_observed_at")) = Some t
       ∧ (default date_now (finite_number (get input "now_ms")) - t
          <= default 300000 (finite_number (get input "freshness_window_ms")))%Z)
  ∧ ∃ epoch, finite (to_number other_number (get input "partition_epoch")) = Some epoch
      ∧ text (get input "partition_closure_hash")
        = closure_hash epoch (text (get input "canonical_lineage_hash"))
      ∧ ∀ epoch' lineage', text (get input "partition_closure_hash") = closure_hash epoch' lineage' →
          (epoch' = epoch ∧ lineage' = text (get input "canonical_lineage_hash"))
          ∨ collision_in [canonicalize (closure_preimage epoch (text (get input "canonical_lineage_hash")));
                          canonicalize (closure_preimage epoch' lineage')].
Proof.
  unfold classifyPartitionFinalityAdmission. intros H.
  destruct (_ || _ || _ || _); [done|].
  destruct (finite (to_number _ _)) as [epoch|]; [|done].
  case_bool_decide as Htop; cbn [negb] in H; [|done].
  case_bool_decide as Hord; cbn [negb] in H; [|done].
  case_bool_decide as Hdet; cbn [negb] in H; [|done].
  destruct (date_parse _) as [t|]; [|done].
  destruct (Z.ltb_spec (default 300000%Z (finite_number (get input "freshness_window_ms")))
    (default date_now (finite_number (get input "now_ms")) - t)) as [|Hfresh]; [done|].
  destruct (String.eqb_spec (text (get input "canonical_lineage_hash"))
    (text (get input "partition_lineage_hash"))) as [Hlin|]; cbn [negb] in H; [|done].
  destruct (String.eqb_spec (text (get input "partition_closure_hash"))
    (closure_hash epoch (text (get input "canonical_lineage_hash")))) as [Hclo|];
    cbn [negb] in H; [|done].
  destruct (String.eqb_spec (text (get input "partition_finality_state")) "PARTITION_DRIFT");
    [done|]. destruct (_ || _); [done|]. destruct (String.eqb _ "NULL"); [done|].
  destruct (_ || _) eqn:Hs; [|done]. injection H as <-.
  apply orb_true_iff in Hs. rewrite !String.eqb_eq in Hs.
  split; [done|]. split; [done|]. split; [done|]. split; [done|]. split; [done|].
  split; [by eexists|]. exists epoch. split; [done|]. split; [done|].
  intros epoch' lineage' E. rewrite Hclo in E. by apply closure_binding.
Qed.

(** ** Concrete inputs *)
Definition fixture_attestation : ValidatorAttestationEnvelope :=
  mkAttestation "vae_1" "v1" "e1" "h1" LOCAL_VALID "t1" "" EVIDENCE "now" "" false true.

Lemma quorum_threshold_irrelevant_witness :
  classifyFromValidatorAttestations [fixture_attestation; fixture_attestation] all_predicates
    (9 # 10) (Some EPOCH_GLOBAL_AUTHORITATIVE) = GLOBAL_VALID.
Proof.
  exact (proj2 (quorum_threshold_irrelevant [] all_predicates (9 # 10)
    (Some EPOCH_GLOBAL_AUTHORITATIVE) fixture_attestation ltac:(discriminate)
    eq_refl eq_refl eq_refl)).
Defined.

Definition fixture_partition : jsval :=
  JObj [("partition_finality_state", JStr "PARTITION_SETTLED"); ("partition_epoch", jint 3);
        ("partition_closure_hash", JStr (closure_hash 3 "lin"));
        ("canonical_lineage_hash", JStr "lin"); ("partition_lineage_hash", JStr "lin");
        ("topology_visible", JBool true); ("reconciliation_deterministic", JBool true);
        ("reconciliation_ordering_deterministic", JBool true); ("now_ms", jint 1000);
        ("settlement_observed_at", JStr "t")].

Lemma fixture_partition_admitted :
  classifyPartitionFinalityAdmission (λ _, Some 400%Z) 0 (λ _, NNaN) fixture_partition
  = PartitionAdmitted "PARTITION_SETTLED".
Proof.
  unfold classifyPartitionFinalityAdmission.
  change (text (get fixture_partition "partition_closure_hash")) with (closure_hash 3 "lin").
  assert (is_empty_str (closure_hash 3 "lin") = false) as He.
  { apply String.eqb_neq. intros E. pose proof (hashCanonical_length (closure_preimage 3 "lin")) as Hl.
    unfold closure_hash in E. rewrite E in Hl. discriminate Hl. }
  rewrite He. cbn -[closure_hash]. by rewrite String.eqb_refl.
Qed.

Lemma partition_admission_witness :
  get fixture_partition "topology_visible" = JBool true.
Proof.
  destruct (partition_admission _ _ _ _ _ fixture_partition_admitted) as (_ & H & _). exact H.
Defined.
