(* ===== verification/Causality.v ===== *)
(** Causal order of legitimacy events: [src/lib/causal-clock.ts] and
    [src/lib/causal-legitimacy-clock.ts].

    Lamport-style indices and vector clocks; counters are integers. *)
From Stdlib Require Import ZArith NArith Lia Ascii.
From stdpp Require Import base list strings pretty gmap sets.
From S2P Require Import Prelude JsValue Sha256 Canonical Epoch Finality.

(** * Causal indices *)
Inductive CausalClockObjectType :=
  | session | continuity | authority | aeo | validation | execution | proof.

#[export] Instance clock_object_eq_dec : EqDecision CausalClockObjectType.
Proof. solve_decision. Defined.

(** The position in [CAUSAL_OBJECT_TYPE_ORDER]. *)
Definition CAUSAL_OBJECT_TYPE_ORDER : list CausalClockObjectType :=
  [session; continuity; authority; aeo; validation; execution; proof].

Definition type_rank (t : CausalClockObjectType) : Z :=
  match list_find (λ x, x = t) CAUSAL_OBJECT_TYPE_ORDER with
  | Some (i, _) => Z.of_nat i
  | None => -1
  end.

Record CausalClockEntry := mkEntry {
  object_id : string;
  object_type : CausalClockObjectType;
  causal_index : Z;
  parent_object_id : option string;
  parent_causal_index : option Z;
  lineage_hash : string;
  entry_created_at : string
}.

Definition max_index (l : list Z) (acc : Z) : Z := fold_left Z.max l acc.

Definition assignCausalIndex (prior_events : list CausalClockEntry) : Z :=
  match map causal_index prior_events with
  | [] => 1
  | i :: l => max_index l i + 1
  end.

Definition happensBefore (a b : CausalClockEntry) : bool :=
  if bool_decide (parent_object_id b = Some (object_id a)) then true
  else if match parent_causal_index b with
          | Some p => (causal_index a <=? p)%Z
          | None => false
          end then true
  else (causal_index a <? causal_index b)%Z.

Definition buildCausalClockEntryId (e : CausalClockEntry) : string :=
  "ccl_" +:+ hashCanonical (JObj [("object_id", JStr (object_id e));
    ("causal_index", jint (causal_index e)); ("created_at", JStr (entry_created_at e))]).

(** [new Map(events.map(...)).get(id)]: the last event of that identifier. *)
Definition by_id (events : list CausalClockEntry) (id : string) : option CausalClockEntry :=
  fold_left (λ acc e, if String.eqb (object_id e) id then Some e else acc) events None.

Definition inversion_text (pid : string) (p e : CausalClockEntry) : string :=
  "inversion:" +:+ pid +:+ "(" +:+ pretty (causal_index p) +:+ ")→" +:+ object_id e
    +:+ "(" +:+ pretty (causal_index e) +:+ ")".

Definition detectCausalInversions (events : list CausalClockEntry) : list string :=
  flat_map (λ e,
    match parent_object_id e, parent_causal_index e with
    | Some pid, Some _ =>
        match by_id events pid with
        | Some p => if (causal_index e <=? causal_index p)%Z then [inversion_text pid p e] else []
        | None => []
        end
    | _, _ => []
    end) events.

Definition verifyCausalTypeOrder (events : list CausalClockEntry) : bool :=
  forallb (λ e,
    match parent_object_id e with
    | None => true
    | Some pid =>
        if is_empty_str pid then true
        else
          match by_id events pid with
          | None => true
          | Some p => negb (type_rank (object_type e) <? type_rank (object_type p))%Z
          end
    end) events.

(** * Vector clocks *)
Inductive CausalOrderingResult := BEFORE | AFTER | CONCURRENT | AMBIGUOUS | ORDER_NULL.

#[export] Instance ordering_eq_dec : EqDecision CausalOrderingResult.
Proof. solve_decision. Defined.

Abbreviation vector := (gmap string Z).

Record CausalLegitimacyClock := mkClock {
  clock_id : string;
  clock_epoch_id : string;
  node_id : string;
  clock_vector : vector;
  ambiguity_detected : bool;
  clock_created_at : string
}.

Definition buildCausalLegitimacyClockId (node epoch created_at : string) : string :=
  "clc_" +:+ hashCanonical (JObj [("node_id", JStr node); ("epoch_id", JStr epoch);
    ("created_at", JStr created_at)]).

(** The properties every plain object inherits. *)
Definition inherited_names : list string :=
  ["constructor"; "__proto__"; "hasOwnProperty"; "isPrototypeOf"; "propertyIsEnumerable";
   "toLocaleString"; "toString"; "valueOf"; "__defineGetter__"; "__defineSetter__";
   "__lookupGetter__"; "__lookupSetter__"].

(** [v[n] ?? 0] as a number: an inherited property is a function or an object,
    which compares as NaN. *)
Definition count (v : vector) (n : string) : option Z :=
  match v !! n with
  | Some z => Some z
  | None => if str_in n inherited_names then None else Some 0%Z
  end.

Definition count_lt (x y : option Z) : bool :=
  match x, y with Some a, Some b => (a <? b)%Z | _, _ => false end.

(** The loop, with its two flags. *)
Fixpoint compare_loop (va vb : vector) (nodes : list string) (aLtB bLtA : bool) :
    CausalOrderingResult :=
  match nodes with
  | [] => if aLtB && negb bLtA then BEFORE else if bLtA && negb aLtB then AFTER else CONCURRENT
  | n :: rest =>
      let aLtB' := aLtB || count_lt (count va n) (count vb n) in
      let bLtA' := bLtA || count_lt (count vb n) (count va n) in
      if aLtB' && bLtA' then CONCURRENT else compare_loop va vb rest aLtB' bLtA'
  end.

Definition vectorClockCompare (va vb : vector) : CausalOrderingResult :=
  compare_loop va vb (elements (dom va ∪ dom vb)) false false.

Definition compareCausalClocks (a b : option CausalLegitimacyClock) : CausalOrderingResult :=
  match a, b with
  | Some a, Some b =>
      if ambiguity_detected a || ambiguity_detected b then AMBIGUOUS
      else vectorClockCompare (clock_vector a) (clock_vector b)
  | _, _ => ORDER_NULL
  end.

Definition unordered (r : CausalOrderingResult) : bool :=
  match r with CONCURRENT | AMBIGUOUS => true | _ => false end.

(** The two nested loops over [i < j]. *)
Fixpoint some_pair_unordered (l : list CausalLegitimacyClock) : bool :=
  match l with
  | [] => false
  | a :: l' =>
      existsb (λ b, unordered (compareCausalClocks (Some a) (Some b))) l' || some_pair_unordered l'
  end.

Definition detectCausalAmbiguity (clocks : list (option CausalLegitimacyClock)) : bool :=
  let valid := omap id clocks in
  if existsb ambiguity_detected valid then true else some_pair_unordered valid.

Definition computeHappensBefore (target : CausalLegitimacyClock)
    (candidates : list (option CausalLegitimacyClock)) : list string :=
  if ambiguity_detected target then []
  else
    flat_map (λ c,
      match c with
      | None => []
      | Some c =>
          if String.eqb (clock_id c) (clock_id target) then []
          else if bool_decide (compareCausalClocks (Some c) (Some target) = BEFORE)
               then [clock_id c] else []
      end) candidates.

Definition computeConcurrentLegitimacy (target : CausalLegitimacyClock)
    (candidates : list (option CausalLegitimacyClock)) : list string :=
  let others :=
    List.filter (λ c, negb (String.eqb (clock_id c) (clock_id target))) (omap id candidates) in
  if ambiguity_detected target then map clock_id others
  else
    flat_map (λ c,
      if bool_decide (compareCausalClocks (Some target) (Some c) = CONCURRENT)
      then [clock_id c] else []) others.

Definition causalClockToClassification (ordering : CausalOrderingResult) :
    option FinalityClassification :=
  match ordering with
  | BEFORE | AFTER => None
  | CONCURRENT | AMBIGUOUS => Some FAMBIGUOUS
  | ORDER_NULL => Some FNULL
  end.

Definition classifyCausalLegitimacyClocks (clocks : list (option CausalLegitimacyClock)) :
    option FinalityClassification :=
  match clocks with
  | [] => None
  | _ =>
      if existsb (λ c, match c with None => true | _ => false end) clocks then Some FNULL
      else if detectCausalAmbiguity clocks then Some FAMBIGUOUS
      else None
  end.

Definition buildCausalClockHash (c : CausalLegitimacyClock) : string :=
  hashCanonical (JObj [("clock_id", JStr (clock_id c)); ("epoch_id", JStr (clock_epoch_id c));
    ("node_id", JStr (node_id c));
    ("vector", JObj ((λ kv, (kv.1, jint kv.2)) <$> map_to_list (clock_vector c)));
    ("ambiguity_detected", JBool (ambiguity_detected c));
    ("created_at", JStr (clock_created_at c))]).

(** * Theorems: vector clocks *)
Definition below (va vb : vector) (n : string) : bool := count_lt (count va n) (count vb n).

Definition verdict (lt gt : bool) : CausalOrderingResult :=
  match lt, gt with true, false => BEFORE | false, true => AFTER | _, _ => CONCURRENT end.

Lemma compare_loop_verdict va vb nodes f g :
  f && g = false →
  compare_loop va vb nodes f g =
    verdict (f || existsb (below va vb) nodes) (g || existsb (below vb va) nodes).
Proof.
  revert f g. induction nodes as [|n nodes IH]; intros f g Hfg; simpl.
  - destruct f, g; done.
  - fold (below va vb n) (below vb va n). rewrite !(orb_assoc _ (below _ _ n)).
    destruct ((f || below va vb n) && _) eqn:E.
    + apply andb_true_iff in E as [-> ->]. done.
    + by apply IH.
Qed.

Lemma below_dom va vb n : below va vb n = true → n ∈ elements (dom va ∪ dom vb).
Proof.
  intros Hb. apply elem_of_elements, elem_of_union. rewrite !elem_of_dom.
  destruct (va !! n) as [x|] eqn:Ea; [left; eauto|].
  destruct (vb !! n) as [y|] eqn:Eb; [right; eauto|].
  unfold below, count in Hb. rewrite Ea, Eb in Hb. by destruct (str_in n _).
Qed.

Lemma vector_verdict va vb :
  vectorClockCompare va vb =
    verdict (existsb (below va vb) (elements (dom va ∪ dom vb)))
      (existsb (below vb va) (elements (dom va ∪ dom vb))).
Proof. unfold vectorClockCompare. by rewrite compare_loop_verdict. Qed.

Lemma below_iff va vb :
  existsb (below va vb) (elements (dom va ∪ dom vb)) = true ↔ ∃ n, below va vb n = true.
Proof.
  rewrite existsb_elem. split; [naive_solver|]. intros [n Hn]. exists n.
  split; [by apply below_dom|done].
Qed.

Lemma below_iff' va vb :
  existsb (below va vb) (elements (dom vb ∪ dom va)) = true ↔ ∃ n, below va vb n = true.
Proof.
  rewrite existsb_elem. split; [naive_solver|]. intros [n Hn]. exists n.
  split; [|done]. apply below_dom in Hn. by rewrite (union_comm_L (dom vb)).
Qed.

Lemma compare_before va vb :
  vectorClockCompare va vb = BEFORE ↔ (∃ n, below va vb n = true) ∧ ¬ ∃ n, below vb va n = true.
Proof.
  rewrite vector_verdict, <- below_iff, <- (below_iff' vb va), not_true_iff_false.
  destruct (existsb _ _), (existsb _ _); cbn; naive_solver.
Qed.

Lemma compare_after va vb :
  vectorClockCompare va vb = AFTER ↔ vectorClockCompare vb va = BEFORE.
Proof.
  rewrite compare_before, vector_verdict, <- (below_iff va vb), <- (below_iff' vb va),
    not_true_iff_false.
  destruct (existsb _ _), (existsb _ _); cbn; naive_solver.
Qed.

Lemma vector_cases va vb :
  vectorClockCompare va vb = BEFORE ∨ vectorClockCompare va vb = AFTER
  ∨ vectorClockCompare va vb = CONCURRENT.
Proof. rewrite vector_verdict. destruct (existsb _ _), (existsb _ _); auto. Qed.

(** Node names that no object inherits. *)
Definition named (v : vector) : Prop := ∀ n, n ∈ dom v → n ∉ inherited_names.

Definition ticks (v : vector) (n : string) : Z := default 0%Z (v !! n).

Lemma below_ticks va vb n :
  named va → named vb → below va vb n = true ↔ (ticks va n < ticks vb n)%Z.
Proof.
  intros Ha Hb. unfold below, count, ticks.
  destruct (va !! n) as [x|] eqn:Ea, (vb !! n) as [y|] eqn:Eb; cbn [count_lt default]; [apply Z.ltb_lt| | |].
  - assert (n ∉ inherited_names) as Hn by (apply Ha, elem_of_dom; eauto).
    rewrite <- str_in_elem in Hn. apply not_true_iff_false in Hn. rewrite Hn. apply Z.ltb_lt.
  - assert (n ∉ inherited_names) as Hn by (apply Hb, elem_of_dom; eauto).
    rewrite <- str_in_elem in Hn. apply not_true_iff_false in Hn. rewrite Hn. apply Z.ltb_lt.
  - destruct (str_in n _); cbn; split; (done || lia).
Qed.

Lemma compare_ticks va vb :
  named va → named vb →
  vectorClockCompare va vb = BEFORE ↔
    (∀ n, (ticks va n <= ticks vb n)%Z) ∧ ∃ n, (ticks va n < ticks vb n)%Z.
Proof.
  intros Ha Hb. rewrite compare_before. setoid_rewrite (below_ticks va vb); [|done..].
  setoid_rewrite (below_ticks vb va); [|done..]. split.
  - intros [He Hn]. split; [|done]. intros n. destruct (Z.le_gt_cases (ticks va n) (ticks vb n));
      [done|]. destruct Hn. by exists n.
  - intros [Hle He]. split; [done|]. intros [n Hn]. specialize (Hle n). lia.
Qed.

Lemma compare_unordered va vb :
  (∀ n, below va vb n = false) → (∀ n, below vb va n = false) →
  vectorClockCompare va vb = CONCURRENT.
Proof.
  intros H1 H2. rewrite vector_verdict.
  assert (∀ l, existsb (below va vb) l = false) as -> by (induction l; cbn; [|rewrite H1]; auto).
  assert (∀ l, existsb (below vb va) l = false) as -> by (induction l; cbn; [|rewrite H2]; auto).
  reflexivity.
Qed.

Lemma inherited_unordered z n :
  below ∅ {["constructor" := z]} n = false ∧ below {["constructor" := z]} ∅ n = false.
Proof.
  unfold below, count. rewrite lookup_empty.
  destruct (decide ("constructor" = n)) as [<-|Hne].
  - rewrite lookup_singleton_eq. split; reflexivity.
  - rewrite lookup_singleton_ne by exact Hne. destruct (str_in n inherited_names); split; reflexivity.
Qed.

(** Vector comparison is the causal order. Over node names that no object
    inherits, BEFORE means component-wise at most with one strict component
    (missing nodes count 0), AFTER is its converse, and BEFORE is a strict
    partial order; equal vectors are CONCURRENT. A node named like an inherited
    property has no count where it is absent, so two clocks that differ only
    there are never ordered. *)
Theorem vector_order va vb vc :
  named va → named vb → named vc →
  (vectorClockCompare va vb = BEFORE ↔
     (∀ n, (ticks va n <= ticks vb n)%Z) ∧ ∃ n, (ticks va n < ticks vb n)%Z)
  ∧ (vectorClockCompare va vb = AFTER ↔ vectorClockCompare vb va = BEFORE)
  ∧ (vectorClockCompare va vb = BEFORE → vectorClockCompare vb vc = BEFORE →
     vectorClockCompare va vc = BEFORE)
  ∧ vectorClockCompare va va = CONCURRENT
  ∧ ∀ z, vectorClockCompare ∅ {["constructor" := z]} = CONCURRENT.
Proof.
  intros Ha Hb Hc. split; [by apply compare_ticks|]. split; [apply compare_after|]. split; [|split].
  - rewrite !compare_ticks by done. intros [H1 [n Hn]] [H2 _]. split.
    + intros m. specialize (H1 m). specialize (H2 m). lia.
    + exists n. specialize (H2 n). lia.
  - destruct (vectorClockCompare va va) eqn:E; try done.
    + apply compare_ticks in E as [_ [n Hn]]; [lia|done..].
    + apply compare_after, compare_ticks in E as [_ [n Hn]]; [lia|done..].
    + rewrite vector_verdict in E. by destruct (existsb _ _).
    + rewrite vector_verdict in E. by destruct (existsb _ _).
  - intros z. apply compare_unordered; intros n; apply inherited_unordered.
Qed.

(** * Theorems: unambiguous clocks *)
Lemma pairs_ordered l i j a b :
  some_pair_unordered l = false → i < j → l !! i = Some a → l !! j = Some b →
  unordered (compareCausalClocks (Some a) (Some b)) = false.
Proof.
  revert i j. induction l as [|c l IH]; intros i j Hl Hij Ha Hb; [done|].
  cbn [some_pair_unordered] in Hl. apply orb_false_iff in Hl as [Hc Hl].
  destruct i as [|i], j as [|j]; try lia; simpl in Ha, Hb.
  - injection Ha as ->. rewrite existsb_false in Hc. apply Hc. by eapply list_elem_of_lookup_2.
  - apply (IH i j); [done|lia|done|done].
Qed.

Lemma omap_all_some {X} (l : list (option X)) :
  existsb (λ c, match c with None => true | Some _ => false end) l = false →
  l = Some <$> omap id l.
Proof.
  induction l as [|[x|] l IH]; cbn; [done| |done]. intros H. f_equal. by apply IH.
Qed.

Lemma classify_none clocks :
  classifyCausalLegitimacyClocks clocks = None →
  existsb (λ c, match c with None => true | Some _ => false end) clocks = false
  ∧ detectCausalAmbiguity clocks = false.
Proof.
  destruct clocks as [|c l]; [done|]. unfold classifyCausalLegitimacyClocks.
  destruct (existsb _ _); [done|]. by destruct (detectCausalAmbiguity _).
Qed.

Lemma classified_ordered clocks i j a b :
  classifyCausalLegitimacyClocks clocks = None → i ≠ j →
  clocks !! i = Some (Some a) → clocks !! j = Some (Some b) →
  ambiguity_detected a = false ∧ ambiguity_detected b = false
  ∧ (vectorClockCompare (clock_vector a) (clock_vector b) = BEFORE
     ∨ vectorClockCompare (clock_vector b) (clock_vector a) = BEFORE).
Proof.
  intros [Hsome Hamb]%classify_none Hij Ha Hb. pose proof (omap_all_some _ Hsome) as Hall.
  unfold detectCausalAmbiguity in Hamb. set (l := omap id clocks) in *.
  assert (∀ k x, clocks !! k = Some (Some x) → l !! k = Some x) as Hl.
  { intros k x Hk. rewrite Hall, list_lookup_fmap in Hk. destruct (l !! k); [|done]. simpl in Hk.
    congruence. }
  apply Hl in Ha, Hb. destruct (existsb ambiguity_detected l) eqn:Hx; [done|].
  rewrite existsb_false in Hx.
  pose proof (Hx a ltac:(by eapply list_elem_of_lookup_2)) as Hxa.
  pose proof (Hx b ltac:(by eapply list_elem_of_lookup_2)) as Hxb.
  split; [done|]. split; [done|].
  assert (∀ x y, ambiguity_detected x = false → ambiguity_detected y = false →
    unordered (compareCausalClocks (Some x) (Some y)) = false →
    vectorClockCompare (clock_vector x) (clock_vector y) = BEFORE
    ∨ vectorClockCompare (clock_vector y) (clock_vector x) = BEFORE) as Hord.
  { intros x y Hax Hay. unfold compareCausalClocks. rewrite Hax, Hay. cbn [orb].
    destruct (vector_cases (clock_vector x) (clock_vector y)) as [E|[E|E]]; rewrite E;
      [auto| |done].
    intros _. right. by apply compare_after. }
  destruct (decide (i < j)).
  - apply Hord; [done..|]. by eapply pairs_ordered.
  - destruct (Hord b a) as [|]; [done|done| |by right|by left].
    eapply (pairs_ordered l j i); [done|lia|done|done].
Qed.

(** No override means a total causal history. When the classification of
    some clocks imposes no override, every clock is present and unambiguous, and
    of any two exactly one happened before the other, so each clock is in the
    happens-before list of the other or the other way round, and none is
    concurrent. *)
Theorem unoverridden_history clocks i j a b :
  classifyCausalLegitimacyClocks clocks = None → i ≠ j →
  clocks !! i = Some (Some a) → clocks !! j = Some (Some b) → clock_id a ≠ clock_id b →
  (clock_id a ∈ computeHappensBefore b clocks ∨ clock_id b ∈ computeHappensBefore a clocks)
  ∧ compareCausalClocks (Some a) (Some b) ≠ CONCURRENT
  ∧ ¬ (compareCausalClocks (Some a) (Some b) = BEFORE
       ∧ compareCausalClocks (Some b) (Some a) = BEFORE).
Proof.
  intros Hc Hij Ha Hb Hid.
  destruct (classified_ordered clocks i j a b Hc Hij Ha Hb) as (Haa & Hab & Hord).
  assert (∀ k x y, clocks !! k = Some (Some x) → ambiguity_detected x = false →
    ambiguity_detected y = false → clock_id x ≠ clock_id y →
    vectorClockCompare (clock_vector x) (clock_vector y) = BEFORE →
    clock_id x ∈ computeHappensBefore y clocks) as Hin.
  { intros k x y Hk Hax Hay Hne Hv. unfold computeHappensBefore. rewrite Hay.
    apply list_elem_of_In, in_flat_map. exists (Some x). split.
    { apply list_elem_of_In. by eapply list_elem_of_lookup_2. }
    apply String.eqb_neq in Hne. rewrite Hne. unfold compareCausalClocks. rewrite Hax, Hay.
    cbn [orb]. rewrite bool_decide_eq_true_2 by done. by left. }
  unfold compareCausalClocks. rewrite Haa, Hab. cbn [orb]. split; [|split].
  - destruct Hord; [left|right]; by eapply Hin.
  - destruct Hord as [->|H]; [done|]. apply compare_after in H. by rewrite H.
  - intros [H1 H2]. apply compare_after in H2. congruence.
Qed.

(** * Theorems: causal indices *)

(** A history: each event takes the next index and may name an earlier event as
    its parent, with that event's index. *)
Inductive history : list CausalClockEntry → Prop :=
  | history_nil : history []
  | history_snoc l e :
      history l → causal_index e = assignCausalIndex l →
      (∀ p, p ∈ l → object_id p ≠ object_id e) →
      match parent_object_id e with
      | None => parent_causal_index e = None
      | Some pid => ∃ p, p ∈ l ∧ object_id p = pid
          ∧ parent_causal_index e = Some (causal_index p)
      end →
      history (l ++ [e]).

Lemma max_index_le l acc x : x ∈ l ∨ x = acc → (x <= max_index l acc)%Z.
Proof.
  unfold max_index. revert acc x. induction l as [|y l IH]; intros acc x Hx; cbn.
  - destruct Hx as [[]%elem_of_nil| ->]. lia.
  - assert (x ∈ l ∨ (x <= Z.max acc y)%Z) as [H|H]
      by (destruct Hx as [[->|Hx]%elem_of_cons| ->]; [right; lia|by left|right; lia]).
    + apply IH. by left.
    + etransitivity; [exact H|]. apply IH. by right.
Qed.

Lemma assign_fresh l e : e ∈ l → (causal_index e < assignCausalIndex l)%Z.
Proof.
  unfold assignCausalIndex. intros He.
  assert (causal_index e ∈ map causal_index l) as Hin
    by (apply list_elem_of_In, in_map; by apply list_elem_of_In).
  destruct (map causal_index l) as [|i m]; [by apply elem_of_nil in Hin|].
  apply elem_of_cons in Hin. enough (causal_index e <= max_index m i)%Z by lia.
  apply max_index_le. tauto.
Qed.

(** In a history every parent link points to an event of smaller index. *)
Lemma history_parent l e :
  history l → e ∈ l →
  match parent_object_id e with
  | None => parent_causal_index e = None
  | Some pid => ∃ p, p ∈ l ∧ object_id p = pid
      ∧ parent_causal_index e = Some (causal_index p) ∧ (causal_index p < causal_index e)%Z
  end.
Proof.
  intros Hh. revert e. induction Hh as [|l x Hh IH Hi Hid Hp]; intros e He; [by apply elem_of_nil in He|].
  apply elem_of_app in He as [He|He%list_elem_of_singleton].
  - specialize (IH e He). destruct (parent_object_id e); [|done].
    destruct IH as (p & ? & ? & ? & ?). exists p. split; [apply elem_of_app; by left|done].
  - subst x. destruct (parent_object_id e); [|done]. destruct Hp as (p & Hin & ? & ?).
    exists p. split; [apply elem_of_app; by left|]. split; [done|]. split; [done|].
    rewrite Hi. by apply assign_fresh.
Qed.

Lemma history_ids l a b :
  history l → a ∈ l → b ∈ l → object_id a = object_id b → a = b.
Proof.
  intros Hh. revert a b. induction Hh as [|l x Hh IH _ Hid _]; intros a b; [by rewrite elem_of_nil|].
  rewrite !elem_of_app, !list_elem_of_singleton. intros [Ha| ->] [Hb| ->] E; [by apply IH| | |done].
  - by destruct (Hid a Ha).
  - by destruct (Hid b Hb).
Qed.

Lemma by_id_elem l i p : by_id l i = Some p → p ∈ l ∧ object_id p = i.
Proof.
  unfold by_id. assert (∀ acc, fold_left (λ acc e, if String.eqb (object_id e) i then Some e else acc)
    l acc = Some p → acc = Some p ∨ (p ∈ l ∧ object_id p = i)) as H.
  { induction l as [|e l IH]; intros acc; cbn; [auto|]. intros [Hp|[? ?]]%IH.
    - destruct (String.eqb_spec (object_id e) i); [|auto]. injection Hp as ->.
      right. split; [by apply elem_of_cons; left|done].
    - right. split; [by apply elem_of_cons; right|done]. }
  intros [?|?]%H; done.
Qed.

Lemma no_inversions l : history l → detectCausalInversions l = [].
Proof.
  intros Hh. unfold detectCausalInversions.
  assert (∀ k, k ⊆ l → flat_map (λ e,
    match parent_object_id e, parent_causal_index e with
    | Some pid, Some _ =>
        match by_id l pid with
        | Some p => if (causal_index e <=? causal_index p)%Z then [inversion_text pid p e] else []
        | None => []
        end
    | _, _ => []
    end) k = []) as H; [|by apply H].
  induction k as [|e k IH]; intros Hk; [done|]. cbn [flat_map].
  rewrite IH, app_nil_r by set_solver.
  pose proof (history_parent l e Hh ltac:(set_solver)) as Hp.
  destruct (parent_object_id e) as [pid|]; [|done]. destruct Hp as (p & Hin & Hid & -> & Hlt).
  destruct (by_id l pid) as [q|] eqn:Eq; [|done]. apply by_id_elem in Eq as [Hq Hqid].
  assert (q = p) as -> by (apply (history_ids l); congruence).
  by rewrite (proj2 (Z.leb_gt _ _) Hlt).
Qed.

(** In a history built with [assignCausalIndex] the three clauses of
    happens-before say one thing: [a] happens before [b] exactly if its index is
    smaller. So it is a strict total order on the events, no inversion is
    detected, and every new index exceeds all earlier ones. Outside a history
    the parent clause overrides the indices, and two events that name each other
    as parent each happen before the other. *)
Theorem history_happens_before l a b :
  history l → a ∈ l → b ∈ l →
  (happensBefore a b = true ↔ (causal_index a < causal_index b)%Z)
  ∧ detectCausalInversions l = []
  ∧ (∀ e, e ∈ l → (causal_index e < assignCausalIndex l)%Z)
  ∧ ∀ x y, parent_object_id x = Some (object_id y) → parent_object_id y = Some (object_id x) →
      happensBefore x y = true ∧ happensBefore y x = true.
Proof.
  intros Hh Ha Hb. split; [|split; [by apply no_inversions|split]].
  - pose proof (history_parent l b Hh Hb) as Hp. unfold happensBefore.
    destruct (parent_object_id b) as [pid|].
    + destruct Hp as (p & Hin & Hid & -> & Hlt). case_bool_decide as E.
      * injection E as ->. rewrite (history_ids l a p) by congruence. done.
      * destruct (Z.leb_spec (causal_index a) (causal_index p)); [split; [lia|done]|].
        apply Z.ltb_lt.
    + rewrite Hp, bool_decide_eq_false_2 by done. apply Z.ltb_lt.
  - by apply assign_fresh.
  - intros x y Hx Hy. unfold happensBefore. by rewrite Hx, Hy, !bool_decide_eq_true_2.
Qed.

(** * Witnesses *)
Definition clock_a : CausalLegitimacyClock := mkClock "a" "e" "n1" {["n1" := 1%Z]} false "t".
Definition clock_b : CausalLegitimacyClock :=
  mkClock "b" "e" "n2" {["n1" := 1%Z; "n2" := 1%Z]} false "t".

Lemma named_dec v : forallb (λ n, negb (str_in n inherited_names)) (elements (dom v)) = true → named v.
Proof.
  rewrite forallb_elem. intros H n Hn. apply elem_of_elements, H in Hn.
  intros Hi%str_in_elem. by rewrite Hi in Hn.
Qed.

Lemma vector_order_witness :
  vectorClockCompare (clock_vector clock_a) (clock_vector clock_b) = BEFORE
  ∧ vectorClockCompare (clock_vector clock_a) (clock_vector clock_a) = CONCURRENT.
Proof.
  destruct (vector_order (clock_vector clock_a) (clock_vector clock_b) ∅) as (H & _ & _ & Hr & _);
    [apply named_dec; by vm_compute..|].
  split; [|exact Hr]. by vm_compute.
Defined.

Lemma unoverridden_history_witness :
  clock_id clock_a ∈ computeHappensBefore clock_b [Some clock_a; Some clock_b]
  ∨ clock_id clock_b ∈ computeHappensBefore clock_a [Some clock_a; Some clock_b].
Proof.
  refine (proj1 (unoverridden_history [Some clock_a; Some clock_b] 0 1 clock_a clock_b _ _ _ _ _)).
  all: first [by vm_compute | done].
Defined.

Definition entry_root : CausalClockEntry := mkEntry "s" session 1 None None "h" "t".
Definition entry_child : CausalClockEntry := mkEntry "c" continuity 2 (Some "s") (Some 1%Z) "h" "t".

Lemma history_happens_before_witness : happensBefore entry_root entry_child = true.
Proof.
  refine (proj2 (proj1 (history_happens_before [entry_root; entry_child] entry_root entry_child
    _ _ _)) _); [|by repeat constructor..|done].
  apply (history_snoc [entry_root]); [|done| |].
  - apply (history_snoc []); [constructor|done| |done]. by intros p ?%elem_of_nil.
  - by intros p ->%list_elem_of_singleton.
  - exists entry_root. split; [by constructor|done].
Defined.
