(* ===== verification/ReplayConvergence.v ===== *)
(** Replay convergence across partitions: [src/lib/replay-convergence.ts] and
    [src/lib/distributed-replay-convergence-enforcement.ts].

    The anti-entropy merge of consumption evidence, the classification of a
    nonce over two shards, and the enforcement rules. Causal indices are the
    integers [assignCausalIndex] produces. *)
From Stdlib Require Import ZArith NArith Lia Ascii Sorting.Sorted.
From stdpp Require Import base list strings pretty gmap sorting.
From S2P Require Import Prelude JsValue Sha256 Canonical.

(** * Replay conflicts *)
Inductive ReplayConflictClass :=
  | DUPLICATE_NONCE_OBSERVED
  | PARTITION_REPLAY_DIVERGENCE
  | STALE_PROOF_REUSE
  | DETACHED_REPLAY_LINEAGE
  | REPLAY_CHRONOLOGY_CONFLICT
  | REPLAY_ANTI_ENTROPY_REQUIRED
  | REPLAY_CONVERGENCE_NULL
  | REPLAY_RESURRECTION.

Inductive ReplayConflictClassification :=
  | CONFLICT_NULL | CONFLICT_AMBIGUOUS | CONFLICT_STALE_VISIBLE | CONFLICT_PARTITION_SUSPENDED.

Definition REPLAY_CONFLICT_CLASS_MAP (c : ReplayConflictClass) : ReplayConflictClassification :=
  match c with
  | DUPLICATE_NONCE_OBSERVED => CONFLICT_NULL
  | PARTITION_REPLAY_DIVERGENCE => CONFLICT_PARTITION_SUSPENDED
  | STALE_PROOF_REUSE => CONFLICT_STALE_VISIBLE
  | DETACHED_REPLAY_LINEAGE => CONFLICT_NULL
  | REPLAY_CHRONOLOGY_CONFLICT => CONFLICT_AMBIGUOUS
  | REPLAY_ANTI_ENTROPY_REQUIRED => CONFLICT_PARTITION_SUSPENDED
  | REPLAY_CONVERGENCE_NULL => CONFLICT_NULL
  | REPLAY_RESURRECTION => CONFLICT_NULL
  end.

(** [creates_authority] and [restores_replay] are the constant false. *)
Record ReplayConflictResult := mkConflictResult {
  classification : ReplayConflictClassification;
  conflict_class : ReplayConflictClass;
  consumed_set : list string;
  evidence_refs : list string
}.

Definition classifyReplayConflict (c : ReplayConflictClass) (consumed_nonces refs : list string) :
    ReplayConflictResult :=
  mkConflictResult (REPLAY_CONFLICT_CLASS_MAP c) c consumed_nonces refs.

(** * Consumption evidence *)
Record NonceConsumptionEvidence := mkConsumption {
  invocation_nonce : string;
  decision_id : string;
  consumed_at : string;
  shard_id : string;
  causal_index : Z
}.

#[export] Instance consumption_eq_dec : EqDecision NonceConsumptionEvidence.
Proof. solve_decision. Defined.

Definition buildNonceConsumptionId (nonce decision at_time : string) : string :=
  "nce_" +:+ hashCanonical (JObj [("invocation_nonce", JStr nonce);
    ("decision_id", JStr decision); ("consumed_at", JStr at_time)]).

Definition isNonceConsumedGlobally (nonce : string) (evidence : list NonceConsumptionEvidence) :
    bool := existsb (λ e, String.eqb (invocation_nonce e) nonce) evidence.

Definition hasReplayDivergence (nonce : string) (l r : list NonceConsumptionEvidence) : bool :=
  negb (Bool.eqb (isNonceConsumedGlobally nonce l) (isNonceConsumedGlobally nonce r)).

(** The template literal that identifies an observation. *)
Definition evidence_key (e : NonceConsumptionEvidence) : string :=
  invocation_nonce e +:+ ":" +:+ decision_id e +:+ ":" +:+ shard_id e.

(** The loop over [[...local, ...remote]], with the keys already seen. *)
Fixpoint merge_loop (seen : gset string) (l : list NonceConsumptionEvidence) :
    list NonceConsumptionEvidence :=
  match l with
  | [] => []
  | e :: l' =>
      if decide (evidence_key e ∈ seen) then merge_loop seen l'
      else e :: merge_loop ({[evidence_key e]} ∪ seen) l'
  end.

Definition mergeConsumptionEvidence (l r : list NonceConsumptionEvidence) :
    list NonceConsumptionEvidence := merge_loop ∅ (l ++ r).

Definition mergeConsumedReplayState (partition_sets : list (list NonceConsumptionEvidence)) :
    list NonceConsumptionEvidence :=
  fold_left mergeConsumptionEvidence partition_sets [].

(** The comparator as "not after": [sort] is stable, so the head of the sorted
    list is the first evidence that no other precedes. *)
Definition not_after (a b : NonceConsumptionEvidence) : bool :=
  if (causal_index a =? causal_index b)%Z then str_leb (consumed_at a) (consumed_at b)
  else (causal_index a <? causal_index b)%Z.

Definition resolveReplayConflict (evidence : list NonceConsumptionEvidence) :
    option NonceConsumptionEvidence := head (sort_by not_after evidence).

Inductive ReplayConvergenceState :=
  | REPLAY_SAFE | REPLAY_CONSUMED | REPLAY_DIVERGENT | REPLAY_PARTITION_SUSPENDED | REPLAY_NULL.

#[export] Instance convergence_eq_dec : EqDecision ReplayConvergenceState.
Proof. solve_decision. Defined.

Definition classifyReplayConvergence (nonce : string) (l r : list NonceConsumptionEvidence)
    (topology_present : bool) : ReplayConvergenceState :=
  if negb topology_present then REPLAY_PARTITION_SUSPENDED
  else
    let localConsumed := isNonceConsumedGlobally nonce l in
    let remoteConsumed := isNonceConsumedGlobally nonce r in
    if localConsumed && remoteConsumed then REPLAY_CONSUMED
    else if negb localConsumed && negb remoteConsumed then REPLAY_SAFE
    else if negb (Bool.eqb localConsumed remoteConsumed) then REPLAY_DIVERGENT
    else REPLAY_NULL.

Definition replayStateToUnusedPredicate (state : ReplayConvergenceState) : bool :=
  match state with REPLAY_SAFE => true | _ => false end.

(** * Anti-entropy repair *)
Record AntiEntropyReplayRepairInput := mkRepair {
  repair_nonce : string;
  partition_a_evidence : list NonceConsumptionEvidence;
  partition_b_evidence : list NonceConsumptionEvidence;
  partition_healed : bool
}.

Definition antiEntropyReplayRepair (input : AntiEntropyReplayRepairInput) :
    ReplayConflictResult * bool :=
  let merged :=
    mergeConsumptionEvidence (partition_a_evidence input) (partition_b_evidence input) in
  let nonce_permanently_consumed := isNonceConsumedGlobally (repair_nonce input) merged in
  let c :=
    if nonce_permanently_consumed then
      if partition_healed input then REPLAY_RESURRECTION else PARTITION_REPLAY_DIVERGENCE
    else REPLAY_ANTI_ENTROPY_REQUIRED in
  (mkConflictResult (REPLAY_CONFLICT_CLASS_MAP c) c (map invocation_nonce merged)
     (map (λ e, buildNonceConsumptionId (invocation_nonce e) (decision_id e) (consumed_at e))
        merged),
   nonce_permanently_consumed).

(** * Enforcement *)
Inductive partition_status := PARTITION_HEALED | PARTITION_ACTIVE | PARTITION_UNKNOWN.

(** The causal indices are finite; [Number.isFinite] holds of every integer. *)
Record DistributedReplayEvidenceDomain := mkDomain {
  nonce_lineage : list string;
  proof_ancestry : list string;
  continuity_lineage : list string;
  topology_visible : bool;
  causal_ordering : list Z;
  reconciliation_freshness_ms : Z;
  domain_partition_status : partition_status
}.

Record ExecutionBoundaryReplayCheck := mkBoundary {
  validated_replay_lineage_hash : string;
  executed_replay_lineage_hash : string
}.

Record EnforcementInput := mkEnforcement {
  enforcement_id : string;
  enforced_nonce : string;
  evidence : DistributedReplayEvidenceDomain;
  local_consumed : bool;
  remote_consumed : bool;
  prior_convergence_state : option ReplayConvergenceState;
  execution_boundary_check : option ExecutionBoundaryReplayCheck;
  staleness_threshold_ms : option Z
}.

Inductive boundary_integrity := BOUNDARY_VALID | BOUNDARY_NULL | BOUNDARY_NOT_CHECKED.

#[export] Instance boundary_eq_dec : EqDecision boundary_integrity.
Proof. solve_decision. Defined.

Record EnforcementResult := mkEnforced {
  er_enforcement_id : string;
  er_classification : ReplayConvergenceState;
  compound_predicate_satisfied : bool;
  violated_rules : list string;
  topology_relative_certainty : bool;
  lineage_continuity_satisfied : bool;
  reconciliation_stale : bool;
  execution_boundary_integrity : boundary_integrity
}.

Definition isReplayAmbiguous (l r visible : bool) : bool :=
  if negb visible then false else negb (Bool.eqb l r).

Definition isConsumptionIrreversibilityViolated (prior : option ReplayConvergenceState)
    (l r : bool) : bool :=
  if negb (bool_decide (prior = Some REPLAY_CONSUMED)) then false else negb l || negb r.

Definition isResurrectionAttempt (prior : option ReplayConvergenceState) (l r : bool) : bool :=
  if negb (bool_decide (prior = Some REPLAY_CONSUMED)) then false else negb l && negb r.

Definition hasLineageContinuity (ev : DistributedReplayEvidenceDomain) : bool :=
  Nat.ltb 0 (length (nonce_lineage ev)) && Nat.ltb 0 (length (continuity_lineage ev)).

Definition isCausalOrderingValid (ordering : list Z) : bool :=
  match ordering with [] => false | _ => forallb (λ idx, (0 <=? idx)%Z) ordering end.

Definition checkExecutionBoundaryIntegrity (check : option ExecutionBoundaryReplayCheck) :
    boundary_integrity :=
  match check with
  | None => BOUNDARY_NOT_CHECKED
  | Some c =>
      if is_empty_str (validated_replay_lineage_hash c)
         || is_empty_str (executed_replay_lineage_hash c)
         || negb (String.eqb (validated_replay_lineage_hash c) (executed_replay_lineage_hash c))
      then BOUNDARY_NULL else BOUNDARY_VALID
  end.

Definition deriveClassification (l r visible ambiguous null_violations continuity : bool) :
    ReplayConvergenceState :=
  if null_violations || negb continuity then REPLAY_NULL
  else if negb visible then REPLAY_PARTITION_SUSPENDED
  else if ambiguous then REPLAY_DIVERGENT
  else if l && r then REPLAY_CONSUMED
  else REPLAY_SAFE.

Definition buildEnforcementId (nonce id : string) : string :=
  "drc_" +:+ hashCanonical (JObj [("nonce", JStr nonce); ("enforcement_id", JStr id)]).

Definition rule (violated : bool) (name : string) : list string :=
  if violated then [name] else [].

Definition enforceDistributedReplayConvergence (input : EnforcementInput) : EnforcementResult :=
  let ev := evidence input in
  let l := local_consumed input in
  let r := remote_consumed input in
  let prior := prior_convergence_state input in
  let threshold := default 60000%Z (staleness_threshold_ms input) in
  let lineageContinuity := hasLineageContinuity ev in
  let causalValid := isCausalOrderingValid (causal_ordering ev) in
  let irreversibilityViolated := isConsumptionIrreversibilityViolated prior l r in
  let resurrectionAttempt := isResurrectionAttempt prior l r in
  let topoRelative := topology_visible ev in
  let ambiguous := isReplayAmbiguous l r (topology_visible ev) in
  let reconciliationStale := (threshold <? reconciliation_freshness_ms ev)%Z in
  let boundary := checkExecutionBoundaryIntegrity (execution_boundary_check input) in
  let boundaryNull := bool_decide (boundary = BOUNDARY_NULL) in
  let violatedRules :=
    rule (negb lineageContinuity) "rule_5_detached_lineage"
    ++ rule (negb causalValid) "section_6_invalid_causal_ordering"
    ++ rule irreversibilityViolated "rule_3_consumption_irreversibility"
    ++ rule resurrectionAttempt "rule_4_replay_resurrection"
    ++ rule (negb topoRelative) "rule_2_topology_relative_visibility"
    ++ rule ambiguous "rule_1_replay_ambiguity"
    ++ rule reconciliationStale "stale_reconciliation_evidence"
    ++ rule boundaryNull "section_11_execution_boundary_mutation" in
  let nullViolations :=
    irreversibilityViolated || resurrectionAttempt || negb lineageContinuity || boundaryNull in
  let c := deriveClassification l r (topology_visible ev) ambiguous nullViolations
    lineageContinuity in
  mkEnforced (enforcement_id input) c
    (bool_decide (c = REPLAY_SAFE) && Nat.eqb (length violatedRules) 0)
    (sort_by str_leb violatedRules) topoRelative lineageContinuity reconciliationStale boundary.

(** * Theorems: merging evidence *)
Lemma consumed_elem n l :
  isNonceConsumedGlobally n l = true ↔ ∃ e, e ∈ l ∧ invocation_nonce e = n.
Proof.
  unfold isNonceConsumedGlobally. rewrite existsb_elem. by setoid_rewrite String.eqb_eq.
Qed.

Lemma merge_loop_elem seen l e :
  e ∈ merge_loop seen l → e ∈ l ∧ evidence_key e ∉ seen.
Proof.
  revert seen. induction l as [|x l IH]; intros seen; simpl; [by rewrite elem_of_nil|].
  destruct (decide (evidence_key x ∈ seen)) as [Hin|Hin].
  - intros [? ?]%IH. split; [by right|done].
  - rewrite elem_of_cons. intros [->|[? Hk]%IH]; [by split; [left|]|].
    split; [by right|]. intros Hs. apply Hk. by apply elem_of_union_r.
Qed.

(** Every key is kept. *)
Lemma merge_loop_keys seen l e :
  e ∈ l → evidence_key e ∉ seen → ∃ e', e' ∈ merge_loop seen l ∧ evidence_key e' = evidence_key e.
Proof.
  revert seen. induction l as [|x l IH]; intros seen; simpl; [by rewrite elem_of_nil|].
  rewrite elem_of_cons. intros [->|Hin] Hk.
  - destruct (decide _); [done|]. exists x. split; [left|done].
  - destruct (decide (evidence_key x ∈ seen)); [by apply IH|].
    destruct (decide (evidence_key e = evidence_key x)) as [E|Hne].
    + exists x. split; [left|done].
    + destruct (IH ({[evidence_key x]} ∪ seen)) as (e' & ? & ?); [done| |].
      { rewrite elem_of_union, elem_of_singleton. tauto. }
      exists e'. split; [by right|done].
Qed.

(** A nonce without the separator is determined by its key. *)
Definition plain_nonce (n : string) : bool :=
  str_forall (λ c, negb (Ascii.eqb c ":")) n.

Lemma prefix_unique n m s t :
  plain_nonce n = true → plain_nonce m = true →
  n +:+ String ":" s = m +:+ String ":" t → n = m.
Proof.
  revert m. induction n as [|a n IH]; intros [|b m]; simpl; [done| | |].
  - intros _ [Hb _]%andb_true_iff [= <- _]. done.
  - intros [Ha _]%andb_true_iff _ [= -> _]. done.
  - intros [_ Hn]%andb_true_iff [_ Hm]%andb_true_iff [= -> E]. f_equal. by apply IH.
Qed.

Lemma key_nonce e f :
  plain_nonce (invocation_nonce e) = true → plain_nonce (invocation_nonce f) = true →
  evidence_key e = evidence_key f → invocation_nonce e = invocation_nonce f.
Proof. intros He Hf E. by eapply prefix_unique. Qed.

Definition plain_evidence (l : list NonceConsumptionEvidence) : Prop :=
  Forall (λ e, plain_nonce (invocation_nonce e) = true) l.

Lemma merge_consumed n l r :
  plain_evidence l → plain_evidence r →
  isNonceConsumedGlobally n (mergeConsumptionEvidence l r)
  = isNonceConsumedGlobally n l || isNonceConsumedGlobally n r.
Proof.
  intros Hl Hr. apply eq_true_iff_eq. rewrite orb_true_iff, !consumed_elem.
  unfold mergeConsumptionEvidence. split.
  - intros (e & [He _]%merge_loop_elem & Hn). apply elem_of_app in He as [|]; eauto.
  - intros He. assert (∃ e, e ∈ l ++ r ∧ invocation_nonce e = n) as (e & Hin & Hn)
      by (setoid_rewrite elem_of_app; naive_solver).
    destruct (merge_loop_keys ∅ (l ++ r) e Hin) as (e' & He' & Hk); [apply not_elem_of_empty|].
    exists e'. split; [done|]. rewrite <- Hn.
    assert (plain_evidence (l ++ r)) as Hp by (by apply Forall_app).
    unfold plain_evidence in Hp. rewrite Forall_forall in Hp.
    apply key_nonce; [|by apply Hp|done]. apply Hp. by apply merge_loop_elem in He' as [? _].
Qed.

Lemma merge_plain l r :
  plain_evidence l → plain_evidence r → plain_evidence (mergeConsumptionEvidence l r).
Proof.
  intros Hl Hr. apply Forall_forall. intros e [He _]%merge_loop_elem.
  assert (plain_evidence (l ++ r)) as Hp by (by apply Forall_app).
  unfold plain_evidence in Hp. rewrite Forall_forall in Hp. by apply Hp.
Qed.

Lemma merge_state_consumed n sets acc :
  plain_evidence acc → Forall plain_evidence sets →
  isNonceConsumedGlobally n (fold_left mergeConsumptionEvidence sets acc)
  = isNonceConsumedGlobally n acc || existsb (isNonceConsumedGlobally n) sets.
Proof.
  intros Ha Hs. revert acc Ha. induction Hs as [|l sets Hl _ IH]; intros acc Ha; simpl.
  - by rewrite orb_false_r.
  - rewrite IH by (by apply merge_plain). rewrite merge_consumed by done. by rewrite orb_assoc.
Qed.

(** Anti-entropy never unconsumes. Over evidence whose nonces contain no
    [':'], a nonce is consumed in the merge of two partitions exactly if it is
    consumed in one of them; over any number of partitions, in any order, the
    merged state consumes exactly the nonces some partition consumed; and the
    repair of a nonce reports it permanently consumed exactly then, with a
    classification that is never a clearance. *)
Theorem merge_never_unconsumes n l r sets healed :
  plain_evidence l → plain_evidence r → Forall plain_evidence sets →
  isNonceConsumedGlobally n (mergeConsumptionEvidence l r)
    = isNonceConsumedGlobally n l || isNonceConsumedGlobally n r
  ∧ isNonceConsumedGlobally n (mergeConsumedReplayState sets)
    = existsb (isNonceConsumedGlobally n) sets
  ∧ let '(result, consumed) := antiEntropyReplayRepair (mkRepair n l r healed) in
    consumed = isNonceConsumedGlobally n l || isNonceConsumedGlobally n r
    ∧ (classification result = CONFLICT_NULL ↔ consumed = true ∧ healed = true)
    ∧ (classification result = CONFLICT_PARTITION_SUSPENDED ↔ consumed = false ∨ healed = false).
Proof.
  intros Hl Hr Hs. split; [by apply merge_consumed|]. split.
  - unfold mergeConsumedReplayState. rewrite merge_state_consumed; [done| |done]. constructor.
  - unfold antiEntropyReplayRepair.
    cbn [repair_nonce partition_a_evidence partition_b_evidence partition_healed].
    rewrite merge_consumed by done. split; [done|].
    destruct (_ || _), healed; cbn; naive_solver.
Qed.

(** The deduplication key loses evidence. The key joins nonce, decision and
    shard with [':'] unescaped, so an observation of nonce [n] is dropped when
    the other partition has one of nonce [n:m] with the rest of the key
    shifted; the merge then no longer consumes [n], and the repair reports it
    as not consumed. *)
Theorem merge_drops_consumed_nonce n m d shard t1 t2 c1 c2 healed :
  let a := mkConsumption (n +:+ ":" +:+ m) d t1 shard c1 in
  let b := mkConsumption n (m +:+ ":" +:+ d) t2 shard c2 in
  isNonceConsumedGlobally n [b] = true
  ∧ isNonceConsumedGlobally n (mergeConsumptionEvidence [a] [b]) = false
  ∧ (antiEntropyReplayRepair (mkRepair n [a] [b] healed)).2 = false.
Proof.
  intros a b. assert (evidence_key a = evidence_key b) as Hk.
  { unfold a, b, evidence_key. cbn [invocation_nonce decision_id shard_id].
    by rewrite !str_app_assoc. }
  assert (mergeConsumptionEvidence [a] [b] = [a]) as Hm.
  { unfold mergeConsumptionEvidence. cbn [app merge_loop].
    rewrite decide_False by apply not_elem_of_empty. rewrite decide_True; [done|].
    rewrite Hk. apply elem_of_union_l. by apply elem_of_singleton. }
  assert (isNonceConsumedGlobally n [a] = false) as Hn.
  { cbn [isNonceConsumedGlobally existsb]. rewrite orb_false_r. apply String.eqb_neq.
    unfold a. cbn [invocation_nonce]. intros E. apply (f_equal String.length) in E.
    rewrite !str_app_length in E. cbn in E. lia. }
  split; [|split].
  - unfold isNonceConsumedGlobally, b. cbn. by rewrite String.eqb_refl.
  - by rewrite Hm.
  - unfold antiEntropyReplayRepair. cbn [repair_nonce partition_a_evidence partition_b_evidence snd].
    by rewrite Hm.
Qed.

(** * Theorems: the canonical winner *)
Lemma not_after_total a b : not_after a b = true ∨ not_after b a = true.
Proof.
  unfold not_after. rewrite (Z.eqb_sym (causal_index b)).
  destruct (Z.eqb_spec (causal_index a) (causal_index b)); [apply str_leb_total|].
  rewrite !Z.ltb_lt. lia.
Qed.

Lemma not_after_trans a b c : not_after a b = true → not_after b c = true → not_after a c = true.
Proof.
  unfold not_after.
  destruct (Z.eqb_spec (causal_index a) (causal_index b)) as [Eab|],
    (Z.eqb_spec (causal_index b) (causal_index c)) as [Ebc|],
    (Z.eqb_spec (causal_index a) (causal_index c)); rewrite ?Z.ltb_lt; try lia.
  apply str_leb_trans.
Qed.

Lemma resolve_min evidence w :
  resolveReplayConflict evidence = Some w →
  w ∈ evidence ∧ ∀ e, e ∈ evidence → not_after w e = true.
Proof.
  unfold resolveReplayConflict. intros Hw.
  pose proof (sort_by_sorted not_after not_after_total not_after_trans evidence) as Hs.
  destruct (sort_by not_after evidence) as [|x l] eqn:E; [done|]. injection Hw as ->.
  assert (∀ e, e ∈ evidence ↔ e ∈ w :: l) as Hin
    by (intros e; rewrite <- E; symmetry; apply elem_of_sort_by).
  split; [apply Hin; left|]. intros e He. apply Hin, elem_of_cons in He as [->|He].
  - destruct (not_after_total w w); done.
  - apply StronglySorted_inv in Hs as [_ Hall]. rewrite Forall_forall in Hall. by apply Hall.
Qed.

Lemma not_after_antisym a b :
  not_after a b = true → not_after b a = true →
  causal_index a = causal_index b ∧ consumed_at a = consumed_at b.
Proof.
  unfold not_after. rewrite (Z.eqb_sym (causal_index b)).
  destruct (Z.eqb_spec (causal_index a) (causal_index b)); rewrite ?Z.ltb_lt; [|lia].
  intros. split; [done|]. by apply str_leb_antisymm.
Qed.

(** The winner of a replay conflict is the earliest consumption: some
    winner exists exactly if there is evidence, no evidence precedes it in
    causal index and then in time, and shards that hold the same evidence in
    any order choose winners with the same index and time. *)
Theorem replay_winner_canonical evidence other :
  evidence ≡ₚ other →
  (is_Some (resolveReplayConflict evidence) ↔ evidence ≠ [])
  ∧ ∀ w, resolveReplayConflict evidence = Some w →
      w ∈ evidence ∧ (∀ e, e ∈ evidence → not_after w e = true)
      ∧ ∀ w', resolveReplayConflict other = Some w' →
          causal_index w = causal_index w' ∧ consumed_at w = consumed_at w'.
Proof.
  intros Hp. split.
  - unfold resolveReplayConflict. pose proof (sort_by_length not_after evidence) as Hl.
    destruct evidence as [|x l]; [by split; [intros []|]|].
    destruct (sort_by not_after (x :: l)); [done|]. split; [done|eauto].
  - intros w [Hin Hmin]%resolve_min. split; [done|]. split; [done|].
    intros w' [Hin' Hmin']%resolve_min. rewrite <- Hp in Hin'.
    apply not_after_antisym; [by apply Hmin|]. apply Hmin'. by rewrite <- Hp.
Qed.

(** * Theorems: enforcement *)
Lemma predicate_bool input :
  compound_predicate_satisfied (enforceDistributedReplayConvergence input) =
    hasLineageContinuity (evidence input)
    && isCausalOrderingValid (causal_ordering (evidence input))
    && topology_visible (evidence input)
    && negb (local_consumed input) && negb (remote_consumed input)
    && negb (bool_decide (prior_convergence_state input = Some REPLAY_CONSUMED))
    && negb (default 60000%Z (staleness_threshold_ms input)
             <? reconciliation_freshness_ms (evidence input))%Z
    && negb (bool_decide (checkExecutionBoundaryIntegrity (execution_boundary_check input)
                          = BOUNDARY_NULL)).
Proof.
  unfold enforceDistributedReplayConvergence, isReplayAmbiguous,
    isConsumptionIrreversibilityViolated, isResurrectionAttempt.
  cbn [compound_predicate_satisfied].
  destruct (bool_decide (prior_convergence_state input = _)), (_ <? _)%Z,
    (bool_decide (checkExecutionBoundaryIntegrity _ = _)), (hasLineageContinuity _),
    (isCausalOrderingValid _), (topology_visible _), (local_consumed input),
    (remote_consumed input); reflexivity.
Qed.

(** The compound predicate opens only on a clean, visible, unconsumed nonce:
    it is satisfied exactly when both lineages are present, the causal order is
    non-empty and non-negative, the topology is visible, neither side has
    consumed the nonce, the prior state is not consumed, the reconciliation is
    fresh and the boundary hashes, if checked, are equal. *)
Theorem enforcement_predicate input :
  compound_predicate_satisfied (enforceDistributedReplayConvergence input) = true ↔
  hasLineageContinuity (evidence input) = true
  ∧ isCausalOrderingValid (causal_ordering (evidence input)) = true
  ∧ topology_visible (evidence input) = true
  ∧ local_consumed input = false ∧ remote_consumed input = false
  ∧ prior_convergence_state input ≠ Some REPLAY_CONSUMED
  ∧ (reconciliation_freshness_ms (evidence input)
     <= default 60000%Z (staleness_threshold_ms input))%Z
  ∧ checkExecutionBoundaryIntegrity (execution_boundary_check input) ≠ BOUNDARY_NULL.
Proof.
  rewrite predicate_bool, !andb_true_iff, !negb_true_iff, !bool_decide_eq_false, Z.ltb_ge. tauto.
Qed.

(** A state fed back as the prior state of the next evaluation. *)
Definition next_input (input : EnforcementInput) (state : ReplayConvergenceState) :
    EnforcementInput :=
  mkEnforcement (enforcement_id input) (enforced_nonce input) (evidence input)
    (local_consumed input) (remote_consumed input) (Some state)
    (execution_boundary_check input) (staleness_threshold_ms input).

(** Irreversibility holds for one evaluation and is forgotten by the second.
    After a consumed state no evaluation classifies the nonce safe; but when
    both registries have lost the consumption, the first evaluation answers
    null, and the second one, whose prior state is that null, answers safe with
    the compound predicate satisfied. *)
Theorem consumption_forgotten input :
  (prior_convergence_state input = Some REPLAY_CONSUMED →
   er_classification (enforceDistributedReplayConvergence input) ≠ REPLAY_SAFE)
  ∧ (compound_predicate_satisfied (enforceDistributedReplayConvergence input) = true →
     let first := enforceDistributedReplayConvergence (next_input input REPLAY_CONSUMED) in
     let second := enforceDistributedReplayConvergence
       (next_input input (er_classification first)) in
     er_classification first = REPLAY_NULL ∧ er_classification second = REPLAY_SAFE
     ∧ compound_predicate_satisfied second = true).
Proof.
  split.
  - intros Hp. unfold enforceDistributedReplayConvergence, deriveClassification,
      isConsumptionIrreversibilityViolated, isResurrectionAttempt.
    cbn [er_classification].
    destruct (bool_decide (prior_convergence_state input = _)) eqn:E;
      [|by apply bool_decide_eq_false in E].
    destruct (local_consumed input), (remote_consumed input), (hasLineageContinuity _),
      (bool_decide (_ = BOUNDARY_NULL)), (topology_visible _); done.
  - intros Hc first second.
    assert (er_classification first = REPLAY_NULL) as Hf.
    { rewrite predicate_bool, !andb_true_iff, !negb_true_iff in Hc.
      destruct Hc as [[[[[_ Hl] Hr] _] _] _]. subst first. unfold enforceDistributedReplayConvergence,
        next_input. cbn. by rewrite Hl, Hr. }
    assert (compound_predicate_satisfied second = true) as Hs.
    { subst second. rewrite Hf. rewrite predicate_bool in Hc |- *. unfold next_input. cbn.
      rewrite !andb_true_iff in Hc |- *. tauto. }
    split; [done|]. split; [|done]. clear -Hs.
    unfold second, enforceDistributedReplayConvergence in *.
    cbn [compound_predicate_satisfied er_classification] in *.
    apply andb_true_iff in Hs as [Hs _]. by apply bool_decide_eq_true in Hs.
Qed.

(** ** Concrete evidence *)
Definition fixture_ev1 : NonceConsumptionEvidence := mkConsumption "n1" "d1" "t1" "s1" 2.
Definition fixture_ev2 : NonceConsumptionEvidence := mkConsumption "n2" "d1" "t1" "s2" 1.

Lemma merge_never_unconsumes_witness :
  isNonceConsumedGlobally "n2" (mergeConsumptionEvidence [fixture_ev1] [fixture_ev2]) = true.
Proof.
  rewrite (proj1 (merge_never_unconsumes "n2" [fixture_ev1] [fixture_ev2] [] true
    ltac:(repeat constructor) ltac:(repeat constructor) ltac:(constructor))).
  reflexivity.
Defined.

Lemma replay_winner_canonical_witness :
  ∃ w, resolveReplayConflict [fixture_ev1; fixture_ev2] = Some w
    ∧ not_after w fixture_ev1 = true.
Proof.
  destruct (replay_winner_canonical [fixture_ev1; fixture_ev2] [fixture_ev2; fixture_ev1]
    ltac:(constructor)) as [_ H].
  exists fixture_ev2. split; [reflexivity|].
  destruct (H fixture_ev2 eq_refl) as (_ & Hmin & _). apply Hmin. left.
Defined.

Definition fixture_input : EnforcementInput :=
  mkEnforcement "e" "n1" (mkDomain ["n1"] [] ["c1"] true [1%Z] 0 PARTITION_HEALED) false false
    None None None.

Lemma consumption_forgotten_witness :
  compound_predicate_satisfied (enforceDistributedReplayConvergence
    (next_input fixture_input (er_classification (enforceDistributedReplayConvergence
      (next_input fixture_input REPLAY_CONSUMED))))) = true.
Proof. apply (consumption_forgotten fixture_input). reflexivity. Defined.
