(* ===== verification/Reconciliation.v ===== *)
(** Reconciliation states and revocation liveness:
    [src/lib/reconciliation-state-machine.ts], [src/lib/revocation-liveness.ts].

    [creates_authority], [restores_replay] and [executable] are the constant
    false in every result. *)
From Stdlib Require Import ZArith NArith Lia Ascii.
From stdpp Require Import base list strings gmap relations.
From S2P Require Import Prelude JsValue Sha256 Canonical.

Inductive ReconciliationState :=
  | OBSERVED | PENDING | PARTITIONED | RECONCILING | CONFLICTED | SETTLEMENT_CANDIDATE
  | CONVERGED | FINALIZED | REVOKED | STALE_VISIBLE | RNULL.

#[export] Instance reconciliation_state_eq_dec : EqDecision ReconciliationState.
Proof. solve_decision. Defined.

Definition state_str (s : ReconciliationState) : string :=
  match s with
  | OBSERVED => "OBSERVED" | PENDING => "PENDING" | PARTITIONED => "PARTITIONED"
  | RECONCILING => "RECONCILING" | CONFLICTED => "CONFLICTED"
  | SETTLEMENT_CANDIDATE => "SETTLEMENT_CANDIDATE" | CONVERGED => "CONVERGED"
  | FINALIZED => "FINALIZED" | REVOKED => "REVOKED" | STALE_VISIBLE => "STALE_VISIBLE"
  | RNULL => "NULL"
  end.

Definition TERMINAL_STATES : list ReconciliationState := [RNULL].
Definition DOWNGRADE_ONLY_STATES : list ReconciliationState := [REVOKED].

Definition LEGAL_TRANSITIONS (s : ReconciliationState) : list ReconciliationState :=
  match s with
  | OBSERVED => [PENDING; PARTITIONED; STALE_VISIBLE; RNULL]
  | PENDING => [RECONCILING; PARTITIONED; CONFLICTED; STALE_VISIBLE; RNULL]
  | PARTITIONED => [PENDING; RECONCILING; CONFLICTED; STALE_VISIBLE; RNULL]
  | RECONCILING =>
      [CONFLICTED; SETTLEMENT_CANDIDATE; CONVERGED; STALE_VISIBLE; REVOKED; RNULL]
  | CONFLICTED => [SETTLEMENT_CANDIDATE; STALE_VISIBLE; REVOKED; RNULL]
  | SETTLEMENT_CANDIDATE => [CONVERGED; CONFLICTED; STALE_VISIBLE; REVOKED; RNULL]
  | CONVERGED => [FINALIZED; STALE_VISIBLE; REVOKED; RNULL]
  | FINALIZED => [STALE_VISIBLE; REVOKED; RNULL]
  | REVOKED => [RNULL]
  | STALE_VISIBLE => [RECONCILING; REVOKED; RNULL]
  | RNULL => []
  end.

(** * Events *)
Record ReconciliationEvent := mkEvent {
  event_id : string;
  event_reconciliation_id : string;
  from_state : ReconciliationState;
  to_state : ReconciliationState;
  reason_code : string;
  timestamp_utc : string;
  event_evidence_refs : list string
}.

Definition event_key (id : string) (from to : ReconciliationState) (at_time : string) : jsval :=
  JObj [("reconciliation_id", JStr id); ("from_state", JStr (state_str from));
        ("to_state", JStr (state_str to)); ("timestamp_utc", JStr at_time)].

Definition buildReconciliationDowngradeEventId (id : string) (from to : ReconciliationState)
    (at_time : string) : string := "rde_" +:+ hashCanonical (event_key id from to at_time).

Definition buildReconciliationUpgradeEventId (id : string) (from to : ReconciliationState)
    (at_time : string) : string := "rue_" +:+ hashCanonical (event_key id from to at_time).

Definition appendReconciliationEvent (existing : list ReconciliationEvent)
    (event : ReconciliationEvent) : list ReconciliationEvent := existing ++ [event].

(** * Transitions *)
Inductive TransitionValidation :=
  | TransitionValid
  | TransitionInvalid (reason : string).

Definition validateReconciliationTransition (from to : ReconciliationState) :
    TransitionValidation :=
  if bool_decide (from ∈ TERMINAL_STATES) then
    TransitionInvalid (state_str from +:+ " is a terminal state — no transitions permitted")
  else if bool_decide (from ∈ DOWNGRADE_ONLY_STATES)
          && negb (bool_decide (to ∈ LEGAL_TRANSITIONS from)) then
    TransitionInvalid (state_str from +:+ " is downgrade-only — " +:+ state_str to
      +:+ " is not permitted")
  else if negb (bool_decide (to ∈ LEGAL_TRANSITIONS from)) then
    TransitionInvalid ("transition from " +:+ state_str from +:+ " to " +:+ state_str to
      +:+ " is forbidden")
  else TransitionValid.

Definition is_valid (v : TransitionValidation) : bool :=
  match v with TransitionValid => true | TransitionInvalid _ => false end.

(** The state after, whether the transition was valid, and the reason if not. *)
Definition transitionReconciliationState (from to : ReconciliationState) :
    ReconciliationState * bool * option string :=
  match validateReconciliationTransition from to with
  | TransitionInvalid reason => (RNULL, false, Some reason)
  | TransitionValid => (to, true, None)
  end.

(** * Classification *)
Record ReconciliationStateInput := mkStateInput {
  lineage_stale : bool;
  has_revocation : bool;
  replay_divergent : bool;
  conflict_set_unresolved : bool;
  proof_lineage_detached : bool;
  state_topology_visible : bool;
  epoch_stale : bool;
  epoch_mismatched : bool;
  convergence_evidence_present : bool;
  partition_detected : bool;
  settlement_candidate : bool;
  finalized : bool
}.

Definition reconciliationStateToClassification (s : ReconciliationState) : string :=
  match s with
  | FINALIZED => "FINALIZED_NON_EXECUTABLE"
  | REVOKED => "REVOKED_NON_EXECUTABLE"
  | s => state_str s
  end.

(** The state, its label and the evidence reference (the event lists are
    empty). *)
Definition classifyReconciliationState (input : ReconciliationStateInput) :
    ReconciliationState * string * list string :=
  let '(state, evidence_refs) :=
    if has_revocation input then (REVOKED, ["revocation_evidence"])
    else if replay_divergent input then (RNULL, ["replay_divergence_evidence"])
    else if lineage_stale input then (STALE_VISIBLE, ["stale_lineage_evidence"])
    else if epoch_stale input || epoch_mismatched input then
      (STALE_VISIBLE, ["epoch_mismatch_evidence"])
    else if proof_lineage_detached input then (RNULL, ["detached_proof_evidence"])
    else if partition_detected input || negb (state_topology_visible input) then
      (PARTITIONED, ["partition_evidence"])
    else if conflict_set_unresolved input then (CONFLICTED, ["conflict_set_evidence"])
    else if settlement_candidate input then (SETTLEMENT_CANDIDATE, ["settlement_evidence"])
    else if convergence_evidence_present input then (CONVERGED, ["convergence_evidence"])
    else if finalized input then (FINALIZED, ["finality_evidence"])
    else (PENDING, []) in
  (state, reconciliationStateToClassification state, evidence_refs).

(** * Downgrades *)
Definition propagateRevocationLivenessDowngrade (id : string) (current : ReconciliationState)
    (revocation_evidence_ref at_time : string) (within_sla : bool) :
    ReconciliationState * option ReconciliationEvent :=
  if bool_decide (current = RNULL) then (RNULL, None)
  else
    let target_state := if within_sla then REVOKED else STALE_VISIBLE in
    let effective_state :=
      if is_valid (validateReconciliationTransition current target_state)
      then target_state else REVOKED in
    (effective_state,
     Some (mkEvent (buildReconciliationDowngradeEventId id current effective_state at_time)
       id current effective_state "REVOCATION_LIVENESS_DOWNGRADE" at_time
       [revocation_evidence_ref])).

Definition collapseStaleLineage (id : string) (current : ReconciliationState)
    (lineage_epoch_advanced lineage_renewal_present : bool) (at_time : string)
    (refs : option (list string)) : ReconciliationState * option ReconciliationEvent :=
  if negb (lineage_epoch_advanced && negb lineage_renewal_present) then (current, None)
  else
    (STALE_VISIBLE,
     Some (mkEvent (buildReconciliationDowngradeEventId id current STALE_VISIBLE at_time)
       id current STALE_VISIBLE "STALE_LINEAGE_COLLAPSE" at_time (default [] refs))).

(** * Revocation channels *)
Definition buildRevocationLivenessId (channel_id last_observed_at created_at : string) : string :=
  "rlr_" +:+ hashCanonical (JObj [("channel_id", JStr channel_id);
    ("last_observed_at", JStr last_observed_at); ("created_at", JStr created_at)]).

Section Liveness.
Context (date_parse : string → option Z).

(** [Date.parse] gives [None] for NaN. *)
Definition evaluateLiveness (last_observed_at : string) (max_allowed_silence_ms now_ms : Z) :
    Z * bool :=
  match date_parse last_observed_at with
  | None => ((max_allowed_silence_ms + 1)%Z, false)
  | Some last_ms =>
      let observed_silence_ms := Z.max 0 (now_ms - last_ms) in
      (observed_silence_ms, (observed_silence_ms <=? max_allowed_silence_ms)%Z)
  end.
End Liveness.

(** Over the [within_sla] flags of the records. *)
Definition evaluateLPredicate (records : list bool) : bool :=
  match records with [] => false | _ => forallb id records end.

(** * Theorems *)

(** A requested transition. *)
Definition requested (s t : ReconciliationState) : Prop :=
  ∃ to, (transitionReconciliationState s to).1.1 = t.

Lemma validate_legal from to :
  is_valid (validateReconciliationTransition from to) = bool_decide (to ∈ LEGAL_TRANSITIONS from).
Proof. destruct from, to; reflexivity. Qed.

Lemma transition_result from to :
  transitionReconciliationState from to =
    if bool_decide (to ∈ LEGAL_TRANSITIONS from) then (to, true, None)
    else (RNULL, false, (transitionReconciliationState from to).2).
Proof.
  unfold transitionReconciliationState. rewrite <- validate_legal.
  by destruct (validateReconciliationTransition from to).
Qed.

Lemma requested_inv s t : requested s t → t = RNULL ∨ t ∈ LEGAL_TRANSITIONS s.
Proof.
  intros (to & <-). rewrite transition_result. case_bool_decide; [by right|by left].
Qed.

Lemma requested_revocation_final :
  (∀ s, rtc requested RNULL s → s = RNULL)
  ∧ ∀ s, rtc requested REVOKED s → s = REVOKED ∨ s = RNULL.
Proof.
  assert (∀ s, rtc requested RNULL s → s = RNULL) as Hnull.
  { intros s H. remember RNULL as z eqn:Ez. induction H as [|x y z Hs _ IH]; [done|].
    subst. apply requested_inv in Hs as [->|[]%elem_of_nil]. auto. }
  split; [done|]. intros s H. inversion H as [|x y z Hs Hr]; [by left|right]. subst.
  apply requested_inv in Hs as [->| ->%list_elem_of_singleton]; by apply Hnull.
Qed.

(** One move of a reconciliation: a valid transition, a revocation downgrade or
    a stale-lineage collapse. *)
Inductive move : ReconciliationState → ReconciliationState → Prop :=
  | move_transition s t : (transitionReconciliationState s t).1.2 = true → move s t
  | move_revocation s id ref at_time sla :
      move s (propagateRevocationLivenessDowngrade id s ref at_time sla).1
  | move_collapse s id adv ren at_time refs :
      move s (collapseStaleLineage id s adv ren at_time refs).1.

(** Revocation is final until a stale-lineage collapse. Whatever transitions
    are requested, a revoked reconciliation is only ever revoked or null, and a
    null one stays null. But the collapse writes STALE_VISIBLE over every state,
    the terminal and the downgrade-only ones included, which the transition table
    forbids; from there valid transitions lead a revoked, and even a null,
    reconciliation to FINALIZED. The event it appends records the forbidden
    transition. *)
Theorem revocation_final_until_collapse id at_time refs :
  (∀ s, rtc requested RNULL s → s = RNULL)
  ∧ (∀ s, rtc requested REVOKED s → s = REVOKED ∨ s = RNULL)
  ∧ rtc move REVOKED FINALIZED ∧ rtc move RNULL FINALIZED
  ∧ is_valid (validateReconciliationTransition REVOKED STALE_VISIBLE) = false
  ∧ is_valid (validateReconciliationTransition RNULL STALE_VISIBLE) = false
  ∧ ∀ s, ∃ e, collapseStaleLineage id s true false at_time refs = (STALE_VISIBLE, Some e)
      ∧ from_state e = s ∧ to_state e = STALE_VISIBLE.
Proof.
  assert (∀ s, move s STALE_VISIBLE) as Hc by (intros s; apply (move_collapse s id true false "" None)).
  assert (rtc move STALE_VISIBLE FINALIZED) as Hf.
  { apply rtc_l with RECONCILING; [by apply move_transition|].
    apply rtc_l with CONVERGED; [by apply move_transition|].
    apply rtc_once. by apply move_transition. }
  split; [apply requested_revocation_final|]. split; [apply requested_revocation_final|].
  split; [by eapply rtc_l|]. split; [by eapply rtc_l|]. split; [done|]. split; [done|].
  intros s. eexists. done.
Qed.

(** A revocation downgrade always leaves a state that is revoked, stale or
    null, never one that was not; outside the SLA an already revoked or
    stale reconciliation becomes revoked; and the recorded event leads from the
    current to the new state. *)
Theorem revocation_downgrade_spec id s ref at_time sla :
  let '(t, e) := propagateRevocationLivenessDowngrade id s ref at_time sla in
  (t = RNULL ↔ s = RNULL)
  ∧ (t = STALE_VISIBLE ↔ sla = false ∧ STALE_VISIBLE ∈ LEGAL_TRANSITIONS s)
  ∧ (t = RNULL ∨ t = STALE_VISIBLE ∨ t = REVOKED)
  ∧ match e with
    | None => s = RNULL
    | Some ev => from_state ev = s ∧ to_state ev = t ∧ event_evidence_refs ev = [ref]
    end.
Proof.
  unfold propagateRevocationLivenessDowngrade.
  destruct (decide (s = RNULL)) as [->|Hs].
  - rewrite bool_decide_eq_true_2 by done. repeat split; try done; try by left.
    intros [_ []%elem_of_nil].
  - rewrite bool_decide_eq_false_2 by done. rewrite validate_legal.
    destruct sla; case_bool_decide as Hl; repeat split; naive_solver.
Qed.
