(* ===== verification/ConflictSet.v ===== *)
(** Competing heads and conflict sets: [src/lib/conflict-set.ts].

    Scores, weights and clock indices are only compared with each other; they
    are integers here. [creates_authority] and [restores_replay] are the
    constant false. *)
From Stdlib Require Import ZArith NArith Lia Ascii Sorting.Sorted.
From stdpp Require Import base list strings pretty gmap sorting.
From S2P Require Import Prelude JsValue Sha256 Canonical ContinuityCore.

Inductive ConflictState := CS_OPEN | CS_RESOLVED | CS_SUPERSEDED | CS_NULL.

Inductive CollapseRule :=
  | RECONCILIABILITY | QUORUM_WEIGHT | CAUSAL_CLOCK | LEXICOGRAPHIC | UNRESOLVED_RULE.

Record CompetingHead := mkHead {
  head_hash : string;
  reconciliability_score : Z;
  quorum_weight : Z;
  causal_clock_index : Z
}.

(** The result is one of the strings of the arbitration module; only two are
    told apart. *)
Definition conflictStateFromResult (result : string) : option ConflictState :=
  if String.eqb result "CONFLICT_NONE" then None
  else if String.eqb result "CONFLICT_UNRESOLVABLE" then Some CS_NULL
  else Some CS_OPEN.

Definition buildConflictSetId (lineage_scope competing_heads_json created_at : string) : string :=
  "csr_" +:+ hashCanonical (JObj [("lineage_scope", JStr lineage_scope);
    ("competing_heads_json", JStr competing_heads_json); ("created_at", JStr created_at)]).

(** * Winning head *)

(** The comparator answers a negative number. *)
Definition precedes (a b : CompetingHead) : bool :=
  if negb (Z.eqb (reconciliability_score b) (reconciliability_score a)) then
    (reconciliability_score b - reconciliability_score a <? 0)%Z
  else if negb (Z.eqb (quorum_weight b) (quorum_weight a)) then
    (quorum_weight b - quorum_weight a <? 0)%Z
  else if negb (Z.eqb (causal_clock_index a) (causal_clock_index b)) then
    (causal_clock_index a - causal_clock_index b <? 0)%Z
  else str_ltb (head_hash a) (head_hash b).

(** An element is moved before those it precedes, and only those. *)
Definition head_leb (a b : CompetingHead) : bool := negb (precedes b a).

Definition collapse_rule_of (winner second : CompetingHead) : CollapseRule :=
  if negb (Z.eqb (reconciliability_score winner) (reconciliability_score second))
  then RECONCILIABILITY
  else if negb (Z.eqb (quorum_weight winner) (quorum_weight second)) then QUORUM_WEIGHT
  else if negb (Z.eqb (causal_clock_index winner) (causal_clock_index second)) then CAUSAL_CLOCK
  else LEXICOGRAPHIC.

Definition selectWinningHead (competing_heads : list CompetingHead) :
    option (CompetingHead * CollapseRule) :=
  match competing_heads with
  | [] => None
  | [h] => Some (h, RECONCILIABILITY)
  | _ =>
      match sort_by head_leb competing_heads with
      | winner :: second :: _ => Some (winner, collapse_rule_of winner second)
      | _ => None
      end
  end.

(** * Conflict envelopes *)
Inductive ConflictSettlementState :=
  | DETECTING | CONFLICTED | SETTLEMENT_CANDIDATE | SETTLED | UNSETTLEABLE | SNULL.

#[export] Instance settlement_eq_dec : EqDecision ConflictSettlementState.
Proof. solve_decision. Defined.

Record CompetingRoot := mkRoot {
  root_hash : string;
  root_proof_id : string;
  validator_attestations : list jsval;
  causal_clock : jsval;
  branch_evidence : jsval
}.

Record ConflictSetEnvelope := mkEnvelope {
  conflict_id : string;
  detected_at : string;
  competing_roots : list CompetingRoot;
  winning_root : option string;
  losing_roots : list string;
  settlement_state : ConflictSettlementState;
  settlement_evidence : jsval;
  envelope_epoch_id : string
}.

Inductive UnsettleableReason :=
  | IDENTICAL_CAUSAL_CLOCKS | MISSING_EPOCH | STALE_EPOCH | REPLAY_RESURRECTION_CONFLICT
  | DETACHED_PROOF | TOPOLOGY_AMBIGUITY | MISSING_PROOF_LINEAGE | WOULD_ERASE_EVIDENCE.

Definition unsettleable_str (r : UnsettleableReason) : string :=
  match r with
  | IDENTICAL_CAUSAL_CLOCKS => "IDENTICAL_CAUSAL_CLOCKS" | MISSING_EPOCH => "MISSING_EPOCH"
  | STALE_EPOCH => "STALE_EPOCH"
  | REPLAY_RESURRECTION_CONFLICT => "REPLAY_RESURRECTION_CONFLICT"
  | DETACHED_PROOF => "DETACHED_PROOF" | TOPOLOGY_AMBIGUITY => "TOPOLOGY_AMBIGUITY"
  | MISSING_PROOF_LINEAGE => "MISSING_PROOF_LINEAGE"
  | WOULD_ERASE_EVIDENCE => "WOULD_ERASE_EVIDENCE"
  end.

Definition buildConflictEnvelopeId (hashes : list string) (epoch at_time : string) : string :=
  "cse_" +:+ hashCanonical (JObj
    [("competing_root_hashes", JArr (map JStr (sort_by str_leb hashes)));
     ("epoch_id", JStr epoch); ("detected_at", JStr at_time)]).

Definition detectConflictSet (roots : list CompetingRoot) (epoch at_time : string) :
    ConflictSetEnvelope :=
  mkEnvelope (buildConflictEnvelopeId (map root_hash roots) epoch at_time) at_time roots None []
    match roots with [] => SNULL | [_] => DETECTING | _ => CONFLICTED end (JObj []) epoch.

Definition classifyConflictSet (e : ConflictSetEnvelope) : ConflictSettlementState :=
  settlement_state e.

Definition preserveLosingBranchEvidence (e : ConflictSetEnvelope) : list string := losing_roots e.

Record settlement_options := mkOptions {
  epoch_id_present : bool;
  epoch_stale : bool;
  has_replay_resurrection_conflict : bool;
  topology_ambiguous : bool;
  has_detached_proof : bool;
  has_missing_proof_lineage : bool
}.

(** The text of a clock; [null] and [undefined] have none. *)
Definition clock_text (r : CompetingRoot) : option string :=
  if nullish (causal_clock r) then None else Some (canonicalize (causal_clock r)).

Definition hasIdenticalCausalClocks (roots : list CompetingRoot) : bool :=
  match map clock_text roots with
  | first :: (_ :: _) as clocks => forallb (λ c, bool_decide (c = first)) (first :: clocks)
  | _ => false
  end.

(** [None]: deterministic. *)
Definition isSettlementDeterministic (roots : list CompetingRoot) (opts : settlement_options) :
    option UnsettleableReason :=
  if Nat.ltb (length roots) 2 then Some MISSING_PROOF_LINEAGE
  else if negb (epoch_id_present opts) then Some MISSING_EPOCH
  else if epoch_stale opts then Some STALE_EPOCH
  else if has_replay_resurrection_conflict opts then Some REPLAY_RESURRECTION_CONFLICT
  else if has_detached_proof opts then Some DETACHED_PROOF
  else if topology_ambiguous opts then Some TOPOLOGY_AMBIGUITY
  else if has_missing_proof_lineage opts then Some MISSING_PROOF_LINEAGE
  else if hasIdenticalCausalClocks roots then Some IDENTICAL_CAUSAL_CLOCKS
  else None.

Definition unsettled (e : ConflictSetEnvelope) (ev : jsval) (r : UnsettleableReason) :
    ConflictSetEnvelope :=
  mkEnvelope (conflict_id e) (detected_at e) (competing_roots e) None (losing_roots e)
    UNSETTLEABLE (put ev "unsettleable_reason" (JStr (unsettleable_str r))) (envelope_epoch_id e).

Definition settleConflictSet (e : ConflictSetEnvelope) (winning_root_hash : string) (ev : jsval)
    (opts : settlement_options) : ConflictSetEnvelope :=
  match competing_roots e with
  | [] =>
      mkEnvelope (conflict_id e) (detected_at e) (competing_roots e) None (losing_roots e) SNULL
        ev (envelope_epoch_id e)
  | _ =>
      match isSettlementDeterministic (competing_roots e) opts with
      | Some reason => unsettled e ev reason
      | None =>
          let competing_hashes := map root_hash (competing_roots e) in
          if negb (str_in winning_root_hash competing_hashes) then
            unsettled e ev WOULD_ERASE_EVIDENCE
          else
            let new_losing :=
              filter (λ h, h ≠ winning_root_hash) competing_hashes in
            let all_losing := dedup [] (losing_roots e ++ new_losing) in
            mkEnvelope (conflict_id e) (detected_at e) (competing_roots e)
              (Some winning_root_hash) all_losing SETTLED ev (envelope_epoch_id e)
      end
  end.

(** * Theorems: the winning head *)
Lemma ltb_str_total s t : s ≠ t → str_ltb s t = negb (str_ltb t s).
Proof.
  intros Hne. unfold str_ltb. rewrite negb_involutive.
  destruct (str_leb t s) eqn:E1, (str_leb s t) eqn:E2; try done.
  - by destruct Hne; apply str_leb_antisymm.
  - destruct (str_leb_total s t); congruence.
Qed.

(** The order as a lexicographic comparison. *)
Lemma head_leb_spec a b :
  head_leb a b = true ↔
    (reconciliability_score b < reconciliability_score a)%Z
    ∨ reconciliability_score a = reconciliability_score b
      ∧ ((quorum_weight b < quorum_weight a)%Z
         ∨ quorum_weight a = quorum_weight b
           ∧ ((causal_clock_index a < causal_clock_index b)%Z
              ∨ causal_clock_index a = causal_clock_index b
                ∧ str_leb (head_hash a) (head_hash b) = true)).
Proof.
  unfold head_leb, precedes. rewrite negb_true_iff.
  destruct (Z.eqb_spec (reconciliability_score a) (reconciliability_score b)); simpl.
  2: { rewrite Z.ltb_ge. lia. }
  destruct (Z.eqb_spec (quorum_weight a) (quorum_weight b)); simpl.
  2: { rewrite Z.ltb_ge. lia. }
  destruct (Z.eqb_spec (causal_clock_index b) (causal_clock_index a)); simpl.
  2: { rewrite Z.ltb_ge. lia. }
  unfold str_ltb. rewrite negb_false_iff. intuition lia.
Qed.

Lemma head_leb_total a b : head_leb a b = true ∨ head_leb b a = true.
Proof.
  rewrite !head_leb_spec. pose proof (str_leb_total (head_hash a) (head_hash b)).
  destruct (Z.lt_trichotomy (reconciliability_score a) (reconciliability_score b)) as [|[|]];
    [by auto| |by auto].
  destruct (Z.lt_trichotomy (quorum_weight a) (quorum_weight b)) as [|[|]];
    [by intuition| |by intuition].
  destruct (Z.lt_trichotomy (causal_clock_index a) (causal_clock_index b)) as [|[|]]; intuition.
Qed.

Lemma head_leb_trans a b c : head_leb a b = true → head_leb b c = true → head_leb a c = true.
Proof.
  rewrite !head_leb_spec. intros H1 H2.
  pose proof (str_leb_trans (head_hash a) (head_hash b) (head_hash c)). intuition lia.
Qed.

Lemma head_leb_antisym a b :
  head_leb a b = true → head_leb b a = true → head_hash a = head_hash b.
Proof. rewrite !head_leb_spec. intros H1 H2. apply str_leb_antisymm; intuition lia. Qed.

Lemma sort_heads_unique l l' :
  NoDup (head_hash <$> l) → l ≡ₚ l' → sort_by head_leb l = sort_by head_leb l'.
Proof.
  intros Hnd Hp. apply (sorted_perm_unique head_leb).
  - intros x y Hx Hy H1 H2. rewrite elem_of_sort_by in Hx, Hy.
    apply list_elem_of_lookup in Hx as [i Hi], Hy as [j Hj].
    pose proof (head_leb_antisym _ _ H1 H2) as Eh.
    assert (i = j) as ->; [|congruence].
    eapply (NoDup_lookup (head_hash <$> l)); [done|by rewrite list_lookup_fmap, Hi|].
    by rewrite list_lookup_fmap, Hj, Eh.
  - apply sort_by_sorted; [apply head_leb_total|apply head_leb_trans].
  - apply sort_by_sorted; [apply head_leb_total|apply head_leb_trans].
  - by rewrite !sort_by_perm.
Qed.

Lemma select_sorted l :
  2 ≤ length l →
  selectWinningHead l = match sort_by head_leb l with
    | winner :: second :: _ => Some (winner, collapse_rule_of winner second) | _ => None end.
Proof. destruct l as [|a [|b l]]; simpl; try lia. done. Qed.

Lemma select_best l w r :
  selectWinningHead l = Some (w, r) → w ∈ l ∧ ∀ h, h ∈ l → head_leb w h = true.
Proof.
  destruct l as [|a [|b l]]; [done| |].
  - simpl. intros [= <- <-]. split; [left|]. intros h ->%list_elem_of_singleton.
    destruct (head_leb_total a a); done.
  - rewrite select_sorted by (simpl; lia).
    set (l0 := a :: b :: l).
    pose proof (sort_by_sorted head_leb head_leb_total head_leb_trans l0) as Hs.
    pose proof (λ h, elem_of_sort_by head_leb h l0) as Hin.
    destruct (sort_by head_leb l0) as [|x [|y m]]; [done|done|]. intros [= <- <-].
    split; [apply Hin; left|]. intros h Hh. apply Hin, elem_of_cons in Hh as [->|Hh].
    + destruct (head_leb_total x x); done.
    + apply StronglySorted_inv in Hs as [_ Hall]. rewrite Forall_forall in Hall. by apply Hall.
Qed.

(** The winning head does not depend on the order in which the heads are
    observed: over heads with distinct hashes every permutation selects the same
    winner and reports the same collapse rule; a winner exists exactly if there
    is a head, and no head has a higher score, or an equal one with more weight,
    an earlier clock or a smaller hash. *)
Theorem winner_order_independent heads other :
  NoDup (head_hash <$> heads) → heads ≡ₚ other →
  selectWinningHead heads = selectWinningHead other
  ∧ (is_Some (selectWinningHead heads) ↔ heads ≠ [])
  ∧ ∀ w r, selectWinningHead heads = Some (w, r) →
      w ∈ heads ∧ ∀ h, h ∈ heads → head_leb w h = true.
Proof.
  intros Hnd Hp. pose proof (Permutation_length Hp) as Hlen. split; [|split].
  - destruct heads as [|a [|b l]].
    + apply Permutation_nil_l in Hp. by subst.
    + apply Permutation_singleton_l in Hp. by subst.
    + rewrite !select_sorted by (rewrite <- ?Hlen; simpl; lia).
      by rewrite (sort_heads_unique _ other Hnd Hp).
  - destruct heads as [|a [|b l]]; [by split; [intros []|]|by split; eauto|].
    rewrite select_sorted by (simpl; lia).
    pose proof (sort_by_length head_leb (a :: b :: l)) as Hl.
    destruct (sort_by head_leb _) as [|x [|y m]]; [done..|]. split; [done|eauto].
  - intros w r. apply select_best.
Qed.

(** * Theorems: settlement *)
Lemma settle_cases e w ev opts :
  let s := settleConflictSet e w ev opts in
  (settlement_state s ≠ SETTLED ∧ winning_root s = None ∧ losing_roots s = losing_roots e)
  ∨ settlement_state s = SETTLED ∧ winning_root s = Some w
    ∧ isSettlementDeterministic (competing_roots e) opts = None
    ∧ w ∈ map root_hash (competing_roots e)
    ∧ losing_roots s = dedup [] (losing_roots e
        ++ filter (λ h, h ≠ w) (map root_hash (competing_roots e))).
Proof.
  unfold settleConflictSet. destruct (competing_roots e) as [|r rs] eqn:Er; [by left|].
  destruct (isSettlementDeterministic _ opts); [by left|].
  destruct (str_in w _) eqn:Ew; [|by left]. right. apply str_in_elem in Ew. done.
Qed.

(** Settlement erases nothing. The identity, the competing roots and the
    epoch of the envelope stay, every losing root stays losing, and an envelope
    becomes SETTLED exactly when the evidence is deterministic and the winner
    is one of the roots; every root is then the winner or recorded as losing. *)
Theorem settle_preserves e w ev opts :
  let s := settleConflictSet e w ev opts in
  conflict_id s = conflict_id e ∧ competing_roots s = competing_roots e
  ∧ envelope_epoch_id s = envelope_epoch_id e
  ∧ (∀ h, h ∈ losing_roots e → h ∈ losing_roots s)
  ∧ (settlement_state s = SETTLED ↔
       isSettlementDeterministic (competing_roots e) opts = None
       ∧ w ∈ map root_hash (competing_roots e))
  ∧ (settlement_state s = SETTLED → winning_root s = Some w
       ∧ ∀ r, r ∈ competing_roots e → root_hash r = w ∨ root_hash r ∈ losing_roots s).
Proof.
  intros s. assert (conflict_id s = conflict_id e ∧ competing_roots s = competing_roots e
    ∧ envelope_epoch_id s = envelope_epoch_id e) as (? & ? & ?).
  { subst s. unfold settleConflictSet, unsettled. destruct (competing_roots e) eqn:Er; [done|].
    destruct (isSettlementDeterministic _ opts); [done|]. by destruct (str_in w _). }
  split; [done|]. split; [done|]. split; [done|].
  destruct (settle_cases e w ev opts) as [(Hst & Hw & Hl)|(Hst & Hw & Hd & Hin & Hl)];
    fold s in Hst, Hw, Hl.
  - split; [by rewrite Hl|]. split; [|done]. split; [done|]. intros [Hd Hin].
    destruct Hst. subst s. unfold settleConflictSet.
    destruct (competing_roots e) as [|r rs]; [by apply elem_of_nil in Hin|].
    rewrite Hd. apply str_in_elem in Hin. by rewrite Hin.
  - split; [|split; [done|]].
    + intros h Hh. rewrite Hl. apply elem_of_dedup. rewrite elem_of_app.
      split; [by left|apply not_elem_of_nil].
    + intros _. split; [done|]. intros r Hr. destruct (decide (root_hash r = w)); [by left|right].
      rewrite Hl. apply elem_of_dedup. rewrite elem_of_app, list_elem_of_filter.
      split; [|apply not_elem_of_nil]. right. split; [done|].
      apply list_elem_of_In, in_map. by apply list_elem_of_In.
Qed.

(** A settled conflict can be settled again. Nothing checks the state of the
    envelope, so deterministic evidence for another root replaces the winner,
    and the new winner is still listed among the losing roots. *)
Theorem settle_twice_winner_loses e a b ev opts :
  isSettlementDeterministic (competing_roots e) opts = None →
  a ∈ map root_hash (competing_roots e) → b ∈ map root_hash (competing_roots e) → a ≠ b →
  let s := settleConflictSet (settleConflictSet e a ev opts) b ev opts in
  settlement_state s = SETTLED ∧ winning_root s = Some b ∧ b ∈ losing_roots s
  ∧ a ∈ losing_roots s.
Proof.
  intros Hd Ha Hb Hab s.
  assert (∀ e w, isSettlementDeterministic (competing_roots e) opts = None →
    w ∈ map root_hash (competing_roots e) →
    competing_roots (settleConflictSet e w ev opts) = competing_roots e
    ∧ settlement_state (settleConflictSet e w ev opts) = SETTLED
    ∧ winning_root (settleConflictSet e w ev opts) = Some w
    ∧ losing_roots (settleConflictSet e w ev opts) = dedup [] (losing_roots e
        ++ filter (λ h, h ≠ w) (map root_hash (competing_roots e)))) as Hsettle.
  { intros e0 w Hd0 Hw. unfold settleConflictSet.
    destruct (competing_roots e0) as [|r rs]; [by apply elem_of_nil in Hw|].
    apply str_in_elem in Hw. by rewrite Hd0, Hw. }
  destruct (Hsettle e a Hd Ha) as (Hr1 & _ & _ & Hl1).
  destruct (Hsettle (settleConflictSet e a ev opts) b) as (_ & Hs2 & Hw2 & Hl2); [by rewrite Hr1..|].
  split; [done|]. split; [done|]. subst s. rewrite Hl2, Hl1, Hr1, !elem_of_dedup, !elem_of_app,
    !elem_of_dedup, !elem_of_app, !list_elem_of_filter.
  pose proof (not_elem_of_nil a). pose proof (not_elem_of_nil b).
  assert (b ≠ a) by done. tauto.
Qed.

(** ** Concrete heads and roots *)
Definition fixture_heads : list CompetingHead :=
  [mkHead "h1" 5 2 7; mkHead "h2" 5 3 9; mkHead "h3" 4 9 1].

Lemma winner_order_independent_witness :
  selectWinningHead (reverse fixture_heads) = Some (mkHead "h2" 5 3 9, QUORUM_WEIGHT).
Proof.
  rewrite <- (proj1 (winner_order_independent fixture_heads (reverse fixture_heads)
    ltac:(apply (bool_decide_unpack _); vm_compute; exact I)
    ltac:(symmetry; apply reverse_Permutation))).
  reflexivity.
Defined.

Definition fixture_envelope : ConflictSetEnvelope :=
  detectConflictSet
    [mkRoot "r1" "p1" [] (JStr "c1") JNull; mkRoot "r2" "p2" [] (JStr "c2") JNull] "e1" "t1".

Definition fixture_options : settlement_options :=
  mkOptions true false false false false false.

Lemma settle_twice_winner_loses_witness :
  winning_root (settleConflictSet (settleConflictSet fixture_envelope "r1" JNull fixture_options)
    "r2" JNull fixture_options) = Some "r2"
  ∧ "r2" ∈ losing_roots (settleConflictSet
      (settleConflictSet fixture_envelope "r1" JNull fixture_options) "r2" JNull fixture_options).
Proof.
  destruct (settle_twice_winner_loses fixture_envelope "r1" "r2" JNull fixture_options
    ltac:(vm_compute; reflexivity) ltac:(left) ltac:(right; left) ltac:(discriminate))
    as (_ & Hw & Hl & _).
  split; [exact Hw|exact Hl].
Defined.
