(* ===== verification/JsMap.v ===== *)
(** The [Map] of the language with string keys: an association list in
    insertion order, whose [set] overwrites in place. *)
From stdpp Require Import base list strings gmap.
From S2P Require Import Prelude.

Section JsMap.
Context {A : Type}.

Fixpoint map_get (k : string) (m : list (string * A)) : option A :=
  match m with
  | [] => None
  | (k', v) :: m' => if String.eqb k k' then Some v else map_get k m'
  end.

Fixpoint map_set (k : string) (v : A) (m : list (string * A)) : list (string * A) :=
  match m with
  | [] => [(k, v)]
  | (k', w) :: m' => if String.eqb k k' then (k', v) :: m' else (k', w) :: map_set k v m'
  end.

Lemma map_get_set_eq k v m : map_get k (map_set k v m) = Some v.
Proof.
  induction m as [|[k' w] m IH]; simpl; [by rewrite String.eqb_refl|].
  destruct (String.eqb k k') eqn:E; simpl; by rewrite E.
Qed.

Lemma map_get_set_ne k k' v m : k ≠ k' → map_get k (map_set k' v m) = map_get k m.
Proof.
  intros Hne. induction m as [|[j w] m IH]; simpl.
  - by apply String.eqb_neq in Hne as ->.
  - destruct (String.eqb k' j) eqn:E; simpl; [|by rewrite IH].
    apply String.eqb_eq in E as <-. by apply String.eqb_neq in Hne as ->.
Qed.

Lemma map_get_set k k' v m :
  map_get k (map_set k' v m) = if decide (k = k') then Some v else map_get k m.
Proof. destruct (decide (k = k')) as [->|]; [apply map_get_set_eq|by apply map_get_set_ne]. Qed.

Lemma map_get_elem k v m : map_get k m = Some v → (k, v) ∈ m.
Proof.
  induction m as [|[j w] m IH]; simpl; [done|]. destruct (String.eqb_spec k j) as [->|].
  - intros [= ->]. by left.
  - intros ?%IH. by right.
Qed.

Lemma map_set_keys k v m j : j ∈ (map_set k v m).*1 ↔ j = k ∨ j ∈ m.*1.
Proof.
  induction m as [|[i w] m IH]; csimpl; [set_solver|].
  destruct (String.eqb_spec k i) as [->|]; csimpl; [set_solver|].
  rewrite !elem_of_cons, IH. set_solver.
Qed.

Lemma map_set_NoDup k v m : NoDup m.*1 → NoDup (map_set k v m).*1.
Proof.
  induction m as [|[i w] m IH]; csimpl; [constructor; [set_solver|constructor]|].
  intros [Hi Hnd]%NoDup_cons. destruct (String.eqb_spec k i) as [->|]; csimpl.
  - by constructor.
  - constructor; [|by apply IH]. rewrite map_set_keys. set_solver.
Qed.

Lemma map_get_iff k v m : NoDup m.*1 → map_get k m = Some v ↔ (k, v) ∈ m.
Proof.
  intros Hnd. split; [apply map_get_elem|]. induction m as [|[j w] m IH]; csimpl in *;
    [by intros ?%elem_of_nil|].
  apply NoDup_cons in Hnd as [Hj Hnd]. intros [[= -> ->]|Hin]%elem_of_cons.
  - by rewrite String.eqb_refl.
  - destruct (String.eqb_spec k j) as [->|]; [|by apply IH].
    destruct Hj. by apply (list_elem_of_fmap_2 fst) in Hin.
Qed.

Lemma map_get_None k m : map_get k m = None ↔ k ∉ m.*1.
Proof.
  induction m as [|[j w] m IH]; csimpl; [set_solver|].
  destruct (String.eqb_spec k j) as [->|]; [set_solver|]. rewrite IH. set_solver.
Qed.

(** * A map of objects under a key of their own *)
Context (key : A → string).

Definition map_of (l : list A) : list (string * A) :=
  fold_left (λ m x, map_set (key x) x m) l [].

(** Every entry is filed under its key, and no key occurs twice. *)
Definition indexed (m : list (string * A)) : Prop :=
  NoDup m.*1 ∧ ∀ k v, (k, v) ∈ m → key v = k.

Lemma indexed_set x m : indexed m → indexed (map_set (key x) x m).
Proof.
  intros [Hnd Hk]. split; [by apply map_set_NoDup|]. intros k v Hin.
  apply map_get_iff in Hin; [|by apply map_set_NoDup]. rewrite map_get_set in Hin.
  destruct (decide (k = key x)); [congruence|]. by apply Hk, map_get_elem.
Qed.

Lemma indexed_map_of l : indexed (map_of l).
Proof.
  unfold map_of. assert (indexed []) as H0 by (split; [constructor|by intros ?? ?%elem_of_nil]).
  revert H0. generalize (@nil (string * A)). induction l as [|x l IH]; intros m Hm; [done|].
  by apply IH, indexed_set.
Qed.

Lemma indexed_get m k v : indexed m → map_get k m = Some v → key v = k.
Proof. intros [_ Hk] Hg. by apply Hk, map_get_elem. Qed.

Lemma indexed_value m v : indexed m → v ∈ m.*2 ↔ map_get (key v) m = Some v.
Proof.
  intros [Hnd Hk]. rewrite map_get_iff by done. split.
  - intros ([k w] & -> & Hin)%list_elem_of_fmap. simpl in *. by rewrite (Hk k w).
  - intros Hin. by apply (list_elem_of_fmap_2 snd) in Hin.
Qed.

Lemma indexed_unique m v w : indexed m → v ∈ m.*2 → w ∈ m.*2 → key v = key w → v = w.
Proof. intros Hm Hv Hw E. rewrite indexed_value in Hv, Hw by done. congruence. Qed.

Lemma indexed_keys_NoDup m : indexed m → NoDup (key <$> m.*2).
Proof.
  intros [Hnd Hk]. assert (key <$> m.*2 = m.*1) as ->; [|done].
  clear Hnd. induction m as [|[k v] m IH]; csimpl; [done|]. f_equal.
  - apply Hk. by left.
  - apply IH. intros j w ?. apply Hk. by right.
Qed.

(** Whether the last entry of a list under a key is in the map. *)
Lemma map_of_get l k :
  map_get k (map_of l) = last (filter (λ x, key x = k) l).
Proof.
  induction l as [|x l IH] using rev_ind; [done|].
  unfold map_of in *. rewrite fold_left_app. cbn [fold_left]. rewrite map_get_set, filter_app.
  rewrite filter_cons, filter_nil. destruct (decide (key x = k)) as [E|E].
  - subst k. rewrite decide_True by done. by rewrite last_snoc.
  - rewrite decide_False by congruence. by rewrite app_nil_r.
Qed.

Lemma map_of_nil l : length (map_of l) = 0 ↔ l = [].
Proof.
  split; [|by intros ->]. destruct l as [|x l _] using rev_ind; [done|].
  intros H%nil_length_inv. pose proof (map_of_get (l ++ [x]) (key x)) as Hg.
  rewrite H, filter_app, filter_cons, decide_True, filter_nil, last_snoc in Hg by done. done.
Qed.

Lemma map_of_elem l x : x ∈ (map_of l).*2 → x ∈ l.
Proof.
  intros Hx. apply indexed_value in Hx; [|apply indexed_map_of]. rewrite map_of_get in Hx.
  apply last_Some_elem_of, list_elem_of_filter in Hx. tauto.
Qed.
End JsMap.
