(* ===== verification/LineageGraph.v ===== *)
(** Registry views of lineage entries: what the lineage modules share.

    [src/recursive-revocation-propagation.ts],
    [src/continuity-lineage-closure-hardening.ts] and
    [src/distributed-continuity-lineage-reconciliation.ts] repeat the same
    helpers: they parse untyped registry views, index the entries by identifier
    (the last view wins), and invert the parent references into a map of
    children. [identity_id] is absent from the entries of the first. *)
From Stdlib Require Import ZArith NArith Lia Ascii.
From stdpp Require Import base list strings gmap relations.
From S2P Require Import Prelude JsValue Canonical JsMap.

Record LineageEntry := mkLineageEntry {
  continuity_id : string;
  session_id : string;
  identity_id : option string;
  parent_continuity_id : option string;
  continuity_hash : string;
  status : string;
  revoked_at : option string;
  expires_at : option string
}.

Record RegistryView := mkView {
  node_id : string;
  registry_epoch : string;
  lineage_root_id : string;
  entries : list LineageEntry;
  registry_hash : string
}.

(** * Untyped input *)
Definition FORBIDDEN_FIELDS : list string :=
  ["creates_authority"; "creates_execution"; "creates_proof"; "mutates_registry";
   "authority_grant"; "execution_token"; "proof_signature"; "deployment_trigger";
   "lineage_repair"; "auto_repair"; "majority_as_authority"; "implicit_consensus";
   "auto_consensus"; "registry_mutation"; "break_glass"].

(** [HEX64_RE]. *)
Definition is_hex (a : ascii) : bool :=
  (((48 <=? code a) && (code a <=? 57)) || ((97 <=? code a) && (code a <=? 102)))%N.

Definition valid_sha256 (s : string) : bool := Nat.eqb (String.length s) 64 && str_forall is_hex s.

Definition isValidSha256 (v : jsval) : bool :=
  match v with JStr s => valid_sha256 s | _ => false end.

Definition safeObj (v : jsval) : jsval := if is_record v then v else JObj [].

(** [f in obj]: no forbidden field is inherited. *)
Definition hasForbiddenField (obj : jsval) : bool :=
  existsb (λ f, str_in f (keys obj)) FORBIDDEN_FIELDS.

Definition array_or_empty (v : jsval) : list jsval :=
  match v with JArr l => l | _ => [] end.

(** [v != null ? String(v) : null]. *)
Definition nullable_text (v : jsval) : option string :=
  if nullish v then None else Some (to_string v).

(** [!String(v || '').trim()]. *)
Definition blank (v : jsval) : bool := is_empty_str (js_trim (text v)).

Section Parse.
(** What an entry becomes, [None] when it is skipped. *)
Context (parse_entry : jsval → option LineageEntry).

(** [None]: a forbidden field ends the parse. *)
Fixpoint parse_entries (raw : list jsval) : option (list LineageEntry) :=
  match raw with
  | [] => Some []
  | re :: raw' =>
      let e := safeObj re in
      if hasForbiddenField e then None
      else
        match parse_entry e, parse_entries raw' with
        | _, None => None
        | None, Some l => Some l
        | Some x, Some l => Some (x :: l)
        end
  end.

Fixpoint parse_views (raw : list jsval) : option (list RegistryView) :=
  match raw with
  | [] => Some []
  | rv :: raw' =>
      let v := safeObj rv in
      if hasForbiddenField v then None
      else if blank (get v "node_id") || blank (get v "registry_epoch")
              || blank (get v "lineage_root_id")
              || negb (isValidSha256 (get v "registry_hash")) then parse_views raw'
      else
        match parse_entries (array_or_empty (get v "entries")) with
        | None => None
        | Some es =>
            match parse_views raw' with
            | None => None
            | Some l =>
                Some (mkView (to_string (get v "node_id")) (to_string (get v "registry_epoch"))
                  (to_string (get v "lineage_root_id")) es (to_string (get v "registry_hash")) :: l)
            end
        end
  end.
End Parse.

(** The identifier and the views of an input, or the identifier under which it is
    answered by a null result. *)
Definition read_input (id_key : string) (parse_entry : jsval → option LineageEntry)
    (input : jsval) : string + string * list RegistryView :=
  let safeInput := safeObj input in
  if negb (is_non_blank (get safeInput id_key)) then inl "unknown"
  else
    let id := js_trim (str_or_empty (get safeInput id_key)) in
    if negb (bool_decide (get safeInput "evidence_only" = JBool true))
       || hasForbiddenField safeInput then inl id
    else
      match parse_views parse_entry (array_or_empty (get safeInput "registry_views")) with
      | None | Some [] => inl id
      | Some views => inr (id, views)
      end.

Definition entry_of (id : string) (e : jsval) (identity : option string) : LineageEntry :=
  mkLineageEntry id (text (get e "session_id")) identity
    (nullable_text (get e "parent_continuity_id")) (text (get e "continuity_hash"))
    (text (get e "status")) (nullable_text (get e "revoked_at"))
    (nullable_text (get e "expires_at")).

(** [allEntriesMap]: the last entry of an identifier over all views. *)
Definition allEntriesMap (views : list RegistryView) : list (string * LineageEntry) :=
  map_of continuity_id (flat_map entries views).

(** ** Inputs that are read *)
Section Inputs.
Context (id_key : string) (parse_entry : jsval → option LineageEntry).

(** The views of an input that is not answered by a null result. *)
Definition admitted (input : jsval) (views : list RegistryView) : Prop :=
  is_non_blank (get (safeObj input) id_key) = true
  ∧ get (safeObj input) "evidence_only" = JBool true
  ∧ hasForbiddenField (safeObj input) = false
  ∧ parse_views parse_entry (array_or_empty (get (safeObj input) "registry_views")) = Some views
  ∧ views ≠ [].

(** Some view also has an entry. *)
Definition accepted (input : jsval) (views : list RegistryView) : Prop :=
  admitted input views ∧ flat_map entries views ≠ [].

Lemma admitted_unique input views views' :
  admitted input views → admitted input views' → views = views'.
Proof. unfold admitted. intros (_ & _ & _ & ? & _) (_ & _ & _ & ? & _). congruence. Qed.

Lemma read_input_spec input :
  match read_input id_key parse_entry input with
  | inl _ => ∀ views, ¬ admitted input views
  | inr (_, views) => admitted input views
  end.
Proof.
  unfold read_input, admitted. destruct (is_non_blank _) eqn:E1; cbn [negb]; [|naive_solver].
  destruct (bool_decide _) eqn:E2; [apply bool_decide_eq_true in E2|
    apply bool_decide_eq_false in E2; naive_solver].
  destruct (hasForbiddenField _) eqn:E3; cbn [negb orb]; [naive_solver|].
  destruct (parse_views _ _) as [[|v l]|] eqn:E4; naive_solver.
Qed.

(** Every entry of the views is one that was parsed. *)
Lemma parse_entries_elem raw l e :
  parse_entries parse_entry raw = Some l → e ∈ l → ∃ r, parse_entry r = Some e.
Proof.
  revert l. induction raw as [|r raw IH]; intros l; cbn [parse_entries].
  - intros [= <-] He. by apply elem_of_nil in He.
  - destruct (hasForbiddenField _); [done|].
    destruct (parse_entry (safeObj r)) as [x|] eqn:Ex;
      destruct (parse_entries parse_entry raw) as [l'|]; try done; intros [= <-].
    + intros [->|He]%elem_of_cons; [eauto|by eapply IH].
    + by apply IH.
Qed.

Lemma parse_views_elem raw views e :
  parse_views parse_entry raw = Some views → e ∈ flat_map entries views →
  ∃ r, parse_entry r = Some e.
Proof.
  revert views. induction raw as [|v raw IH]; intros views; cbn [parse_views].
  - intros [= <-] He. by apply elem_of_nil in He.
  - destruct (hasForbiddenField _); [done|]. destruct (_ || _); [by apply IH|].
    destruct (parse_entries _ _) as [es|] eqn:Ees; [|done].
    destruct (parse_views parse_entry raw) as [l|]; [|done]. intros [= <-].
    cbn [flat_map entries]. intros [He|He]%elem_of_app; [by eapply parse_entries_elem|by eapply IH].
Qed.

(** A module that answers an input without entries by a null result as well. *)
Lemma run_accepted {R} (null : string → R) (run : string → list RegistryView → R) input :
  let out :=
    match read_input id_key parse_entry input with
    | inl id => null id
    | inr (id, views) =>
        if Nat.eqb (length (allEntriesMap views)) 0 then null id else run id views
    end in
  (∃ id views, accepted input views ∧ out = run id views)
  ∨ (∃ id, out = null id) ∧ ∀ views, ¬ accepted input views.
Proof.
  cbv zeta. pose proof (read_input_spec input) as H. unfold accepted.
  destruct (read_input _ _ input) as [id|[id views]]; [right; naive_solver|].
  destruct (Nat.eqb_spec (length (allEntriesMap views)) 0) as [E|E].
  - right. split; [eauto|]. intros views' [H' Hne]. rewrite (admitted_unique _ _ _ H' H) in Hne.
    by apply map_of_nil in E.
  - left. exists id, views. split; [|done]. split; [done|]. intros Hn. apply E. by apply map_of_nil.
Qed.
End Inputs.

(** A positive integer option, or the default. *)
Definition positive_or (v : jsval) (d : nat) : nat :=
  match v with JNum (NInt z) => if (0 <? z)%Z then Z.to_nat z else d | _ => d end.

(** * Status *)
Definition isActiveStatus (s : string) : bool := String.eqb s "ACTIVE".

Definition present (o : option string) : bool :=
  match o with Some s => negb (is_empty_str s) | None => false end.

Section Clock.
Context (date_parse : string → option Z) (date_now : Z).

(** [expires_at] has passed. *)
Definition expired (e : LineageEntry) : bool :=
  present (expires_at e) &&
  match date_parse (default EmptyString (expires_at e)) with
  | Some ms => (ms <=? date_now)%Z
  | None => false
  end.

Definition isRevokedOrExpired (e : LineageEntry) : bool :=
  negb (isActiveStatus (status e)) || present (revoked_at e) || expired e.
End Clock.

(** * The graph of parents *)
Section Graph.
(** [String(e.parent_continuity_id || '').trim()]. *)
Definition parent_id (e : LineageEntry) : string := js_trim (default EmptyString (parent_continuity_id e)).

Definition add_child (m : list (string * list string)) (e : LineageEntry) : list (string * list string) :=
  if is_empty_str (parent_id e) then m
  else map_set (parent_id e) (default [] (map_get (parent_id e) m) ++ [continuity_id e]) m.

Definition buildChildrenMap (es : list LineageEntry) : list (string * list string) :=
  fold_left add_child es [].

Definition children (m : list (string * list string)) (id : string) : list string :=
  default [] (map_get id m).

(** [c] names [p] as its parent. *)
Definition child (es : list LineageEntry) (p c : string) : Prop :=
  ∃ e, e ∈ es ∧ continuity_id e = c ∧ parent_id e = p ∧ p ≠ EmptyString.

Lemma children_add m e p :
  children (add_child m e) p =
    children m p ++ (if decide (parent_id e = p ∧ p ≠ EmptyString) then [continuity_id e] else []).
Proof.
  unfold add_child, children, is_empty_str. destruct (String.eqb_spec (parent_id e) EmptyString).
  - rewrite decide_False by naive_solver. by rewrite app_nil_r.
  - rewrite map_get_set. destruct (decide (p = parent_id e)) as [->|Hne].
    + by rewrite decide_True by done.
    + rewrite decide_False by naive_solver. by rewrite app_nil_r.
Qed.

Lemma children_build es p :
  children (buildChildrenMap es) p =
    if decide (p = EmptyString) then []
    else continuity_id <$> filter (λ e, parent_id e = p) es.
Proof.
  unfold buildChildrenMap. induction es as [|e l IH] using rev_ind.
  - by case_decide.
  - rewrite fold_left_app. cbn [fold_left]. rewrite children_add, IH, filter_app, fmap_app,
      filter_cons, filter_nil.
    destruct (decide (p = EmptyString)) as [->|Hp]; [by rewrite decide_False by naive_solver|].
    destruct (decide (parent_id e = p)); [by rewrite decide_True by done|].
    by rewrite decide_False by naive_solver.
Qed.

Lemma elem_of_children es p c :
  c ∈ children (buildChildrenMap es) p ↔ child es p c.
Proof.
  rewrite children_build. unfold child. case_decide as Hp; [set_solver|].
  rewrite list_elem_of_fmap. setoid_rewrite list_elem_of_filter. naive_solver.
Qed.

Lemma child_parent_unique es p q c :
  NoDup (continuity_id <$> es) → child es p c → child es q c → p = q.
Proof.
  intros Hnd (e & He & Ec & Ep & _) (f & Hf & Fc & Fp & _).
  enough (e = f) by congruence.
  apply list_elem_of_lookup in He as [i Hi], Hf as [j Hj].
  assert (i = j) as ->; [|congruence].
  eapply (NoDup_lookup _ i j c Hnd); rewrite list_lookup_fmap.
  - by rewrite Hi, <- Ec.
  - by rewrite Hj, <- Fc.
Qed.

Lemma children_NoDup es p :
  NoDup (continuity_id <$> es) → NoDup (children (buildChildrenMap es) p).
Proof.
  intros Hnd. rewrite children_build. case_decide; [constructor|].
  induction es as [|e l IH]; csimpl in *; [constructor|].
  apply NoDup_cons in Hnd as [He Hnd]. rewrite filter_cons. destruct (decide _); csimpl; [|by apply IH].
  constructor; [|by apply IH]. intros (x & Ex & [_ Hx]%list_elem_of_filter)%list_elem_of_fmap.
  apply He. rewrite Ex. by apply list_elem_of_fmap_2.
Qed.

Lemma child_entry es p c : child es p c → c ∈ continuity_id <$> es.
Proof. intros (e & He & <- & _). by apply list_elem_of_fmap_2. Qed.
End Graph.

(** * Revocation evidence *)
Record RevocationEvidence := mkEvidence {
  revocation_id : string;
  root_continuity_id : string;
  ev_revoked_at : string;
  propagated_ids : list string
}.

(** The identifiers propagated to are read from the given property. *)
Definition parse_evidence (ids_key : string) (rr : jsval) : option RevocationEvidence :=
  let r := safeObj rr in
  if blank (get r "revocation_id") || blank (get r "root_continuity_id")
     || blank (get r "revoked_at") then None
  else
    Some (mkEvidence (to_string (get r "revocation_id")) (to_string (get r "root_continuity_id"))
      (to_string (get r "revoked_at"))
      (omap (λ x, match x with JStr s => if non_blank s then Some s else None | _ => None end)
        (array_or_empty (get r ids_key)))).

(** The record names the identifier as its root or among the propagated. *)
Definition evidence_covers (id : string) (r : RevocationEvidence) : bool :=
  String.eqb (root_continuity_id r) id || str_in id (propagated_ids r).

(** * Agreement of the views *)

(** [hashCounts], in insertion order. *)
Definition hash_counts (views : list RegistryView) : list (string * nat) :=
  fold_left (λ m v,
    map_set (registry_hash v) (S (default 0 (map_get (registry_hash v) m))) m) views [].

(** The first hash of the highest count. *)
Definition top_step (top hc : string * nat) : string * nat :=
  if Nat.ltb top.2 hc.2 then hc else top.

Definition top_hash (counts : list (string * nat)) : string * nat :=
  fold_left top_step counts (EmptyString, 0).

Definition canonical_epoch (views : list RegistryView) (h : string) : option string :=
  option_map registry_epoch (List.find (λ v, String.eqb (registry_hash v) h) views).

Definition occurrences (views : list RegistryView) (h : string) : nat :=
  length (filter (λ v, registry_hash v = h) views).

Lemma hash_counts_get views h :
  map_get h (hash_counts views)
    = if decide (occurrences views h = 0) then None else Some (occurrences views h).
Proof.
  unfold hash_counts, occurrences. induction views as [|v l IH] using rev_ind; [done|].
  rewrite fold_left_app. cbn [fold_left]. rewrite map_get_set, filter_app, length_app,
    filter_cons, filter_nil.
  destruct (decide (h = registry_hash v)) as [->|Hne].
  - rewrite IH. rewrite (decide_True (P := registry_hash v = registry_hash v)) by done. cbn.
    repeat case_decide; try lia; cbn; f_equal; lia.
  - rewrite (decide_False (P := registry_hash v = h)) by done. cbn. rewrite Nat.add_0_r. apply IH.
Qed.

Lemma top_hash_spec counts :
  (∀ h c, (h, c) ∈ counts → c ≤ (top_hash counts).2)
  ∧ (top_hash counts ∈ counts ∨ top_hash counts = (EmptyString, 0)).
Proof.
  unfold top_hash. induction counts as [|[h c] l IH] using rev_ind.
  - split; [set_solver|by right].
  - rewrite fold_left_app. cbn [fold_left].
    generalize dependent (fold_left top_step l (EmptyString, 0)). intros top [Hle Hin].
    unfold top_step. cbn [snd]. destruct (Nat.ltb_spec top.2 c) as [Hlt|Hge]; cbn [snd].
    + split; [|left; set_solver]. intros h' c' [Hx|[= -> ->]%list_elem_of_singleton]%elem_of_app;
        [|done]. apply Hle in Hx. lia.
    + split; [|set_solver]. intros h' c' [Hx|[= -> ->]%list_elem_of_singleton]%elem_of_app;
        [by eapply Hle|done].
Qed.

Lemma occurrences_all views h :
  occurrences views h = length views ↔ ∀ v, v ∈ views → registry_hash v = h.
Proof.
  unfold occurrences. induction views as [|v l IH]; [set_solver|]. rewrite filter_cons.
  pose proof (length_filter (λ v, registry_hash v = h) l).
  destruct (decide (registry_hash v = h)); cbn; [|split; [lia|set_solver]].
  split; [|set_solver]. intros [= E]. set_solver.
Qed.

Lemma hash_counts_occ views h c :
  (h, c) ∈ hash_counts views → c = occurrences views h ∧ c ≠ 0.
Proof.
  assert (NoDup (hash_counts views).*1) as Hnd.
  { unfold hash_counts. assert (NoDup (@nil (string * nat)).*1) as H0 by constructor.
    revert H0. generalize (@nil (string * nat)). clear. induction views as [|v l IH]; intros m Hm;
      cbn; [done|]. by apply IH, map_set_NoDup. }
  intros Hc. apply map_get_iff in Hc; [|done]. rewrite hash_counts_get in Hc.
  case_decide; naive_solver.
Qed.

(** The highest count is the number of views exactly when they all claim the
    same hash. *)
Lemma unanimous views :
  views ≠ [] →
  (top_hash (hash_counts views)).2 = length views ↔
  ∀ v w, v ∈ views → w ∈ views → registry_hash v = registry_hash w.
Proof.
  intros Hne. destruct (top_hash_spec (hash_counts views)) as [Hle Hin].
  assert (∃ v, v ∈ views) as [v0 Hv0] by (destruct views as [|v l]; [done|exists v; by left]).
  split.
  - intros Htop v w Hv Hw. destruct Hin as [Hin|Heq].
    + destruct (top_hash (hash_counts views)) as [h c]. cbn in Htop.
      apply hash_counts_occ in Hin as [-> _]. rewrite occurrences_all in Htop.
      by rewrite (Htop v), (Htop w).
    + rewrite Heq in Htop. destruct views; done.
  - intros Hall. assert (occurrences views (registry_hash v0) = length views) as Hv
      by (apply occurrences_all; intros w Hw; by apply Hall).
    assert (map_get (registry_hash v0) (hash_counts views) = Some (length views)) as Hm.
    { rewrite hash_counts_get, Hv. rewrite decide_False; [done|]. by destruct views. }
    apply map_get_elem, Hle in Hm.
    destruct Hin as [Hin|Heq]; [|rewrite Heq in *; destruct views; cbn in *; [done|lia]].
    destruct (top_hash (hash_counts views)) as [h c]. apply hash_counts_occ in Hin as [-> _].
    cbn in *. unfold occurrences in *.
    pose proof (length_filter (λ v, registry_hash v = h) views). lia.
Qed.

(** * Relations that agree *)
Section Ext.
Context {A : Type} (R Q : relation A) (HRQ : ∀ x y, R x y ↔ Q x y).

Lemma nsteps_ext n x y : nsteps R n x y ↔ nsteps Q n x y.
Proof.
  split; apply (nsteps_congruence id); intros a b ?; by apply HRQ.
Qed.

Lemma tc_ext x y : tc R x y ↔ tc Q x y.
Proof. split; apply (tc_congruence id); intros a b ?; by apply HRQ. Qed.

Lemma rtc_tc x y : rtc R x y → x = y ∨ tc R x y.
Proof. intros [[|n] Hn]%rtc_nsteps; [inversion Hn; auto|right]. apply tc_nsteps. exists (S n). split; [lia|done]. Qed.

(** A cycle can be followed arbitrarily long. *)
Lemma cycle_long x k n : 0 < k → nsteps R k x x → ∃ m, n < m ∧ nsteps R m x x.
Proof.
  intros Hk Hc. induction n as [|n (m & Hm & Hx)]; [by exists k|].
  exists (k + m). split; [lia|]. by eapply nsteps_trans.
Qed.

Lemma rtc_ext x y : rtc R x y ↔ rtc Q x y.
Proof. split; apply (rtc_congruence id); intros a b ?; by apply HRQ. Qed.
End Ext.
