(* ===== verification/Worklist.v ===== *)
(** Worklist searches over a graph given by the children of each node: the three
    queues of the lineage modules, each proved to end and to compute
    reachability. A queue is a list read at the head ([shift]) and extended at
    the end ([push]); the fuel bounds the number of reads. *)
From Stdlib Require Import Lia.
From stdpp Require Import base list strings gmap sets relations.
From S2P Require Import Prelude JsMap.

Section Graph.
Context (kids : string → list string).

Definition edge (p c : string) : Prop := c ∈ kids p.

(** What a closed set of visited nodes contains. *)
Lemma closed_reachable (V : gset string) x y :
  (∀ p c, p ∈ V → edge p c → c ∈ V) → x ∈ V → rtc edge x y → y ∈ V.
Proof. intros Hc Hx. induction 1; eauto. Qed.

Lemma size_visit (U V : gset string) c :
  c ∈ U → c ∉ V → size (U ∖ V) = S (size (U ∖ ({[c]} ∪ V))).
Proof.
  intros HU HV.
  assert (U ∖ V = {[c]} ∪ (U ∖ ({[c]} ∪ V))) as ->.
  { apply set_eq. intros x. destruct (decide (x = c)); set_solver. }
  rewrite size_union by set_solver. by rewrite size_singleton.
Qed.

(** * Depth-bounded descent *)
Record descent := mkDescent {
  found : list string;
  depth_reached : nat;
  cycle : bool;
  exceeded : bool;
  visited : gset string;
  queue : list (string * nat)
}.

Definition visit_child (maxDepth depth : nat) (s : descent) (c : string) : descent :=
  if decide (c ∈ visited s) then
    mkDescent (found s) (depth_reached s) true (exceeded s) (visited s) (queue s)
  else if Nat.ltb maxDepth (depth + 1) then
    mkDescent (found s) (depth_reached s) (cycle s) true (visited s) (queue s)
  else
    mkDescent (found s ++ [c]) (depth_reached s) (cycle s) (exceeded s) ({[c]} ∪ visited s)
      (queue s ++ [(c, (depth + 1)%nat)]).

Fixpoint descend (maxDepth fuel : nat) (s : descent) : option descent :=
  match queue s with
  | [] => Some s
  | (id, depth) :: q =>
      match fuel with
      | O => None
      | S fuel =>
          descend maxDepth fuel
            (fold_left (visit_child maxDepth depth) (kids id)
              (mkDescent (found s) (Nat.max (depth_reached s) depth) (cycle s) (exceeded s)
                (visited s) q))
      end
  end.

Definition descent_start (root : string) : descent :=
  mkDescent [] 0 false false {[root]} [(root, 0)].

Section Bounded.
Context (root : string) (maxDepth : nat) (U : gset string).
Context (Hkids : ∀ p c, edge p c → c ∈ U).
Context (Huniq : ∀ p q c, edge p c → edge q c → p = q).
Context (HNoDup : ∀ p, NoDup (kids p)).

(** The invariant: [seen p c] once the edge from [p] to [c] has been read. *)
Record descent_inv (D : gset string) (seen : string → string → Prop) (s : descent) : Prop := {
  inv_seen : ∀ p c, seen p c → edge p c;
  inv_visited : visited s = ({[root]} ∪ list_to_set (found s));
  inv_NoDup : NoDup (found s) ∧ root ∉ found s;
  inv_queue_NoDup : NoDup (queue s).*1;
  inv_queue : ∀ x d, (x, d) ∈ queue s →
    x ∈ visited s ∧ (x ∉ D) ∧ d ≤ maxDepth ∧ nsteps edge d root x;
  inv_split : ∀ x, x ∈ visited s → x ∈ D ∨ x ∈ (queue s).*1;
  inv_done : D ⊆ visited s;
  inv_found : ∀ x, x ∈ found s →
    (∃ p, seen p x) ∧ ∃ n, 1 ≤ n ≤ maxDepth ∧ nsteps edge n root x;
  inv_cycle : cycle s = true → tc edge root root;
  inv_exceeded : exceeded s = true → ∃ x, nsteps edge (S maxDepth) root x;
  inv_read : ∀ p c, seen p c →
    (c ∈ visited s ∨ exceeded s = true) ∧ (c = root → cycle s = true);
  inv_depth : depth_reached s ≤ maxDepth
}.

Lemma descent_start_inv : descent_inv ∅ (λ _ _, False) (descent_start root).
Proof.
  split; cbn; try done.
  - set_solver.
  - split; [constructor|set_solver].
  - repeat constructor. set_solver.
  - intros x d [= -> ->]%list_elem_of_singleton.
    repeat split; [set_solver|set_solver|lia|constructor].
  - intros x Hx. right. set_solver.
  - intros x Hx. by apply elem_of_nil in Hx.
  - lia.
Qed.

Lemma visit_child_inv D id d l c s :
  id ∈ D → nsteps edge d root id → d ≤ maxDepth →
  edge id c → c ∉ l →
  descent_inv D (λ p x, (p ∈ D ∖ {[id]} ∧ edge p x) ∨ (p = id ∧ x ∈ l ∧ edge p x)) s →
  descent_inv D (λ p x, (p ∈ D ∖ {[id]} ∧ edge p x) ∨ (p = id ∧ x ∈ l ++ [c] ∧ edge p x))
    (visit_child maxDepth d s c).
Proof.
  intros HD Hn Hd Hc Hl [Hs Hv [Hnd Hr] Hqn Hq Hsp Hdn Hf Hcy Hex Hrd Hdp].
  assert (∀ p x, (p ∈ D ∖ {[id]} ∧ edge p x) ∨ (p = id ∧ x ∈ l ++ [c] ∧ edge p x) →
    ((p ∈ D ∖ {[id]} ∧ edge p x) ∨ (p = id ∧ x ∈ l ∧ edge p x)) ∨ (p = id ∧ x = c)) as Hsplit
    by set_solver.
  unfold visit_child. destruct (decide (c ∈ visited s)) as [Hin|Hin];
    [|destruct (Nat.ltb_spec maxDepth (d + 1)) as [Hlt|Hle]].
  - split; cbn; try done; [set_solver| | |].
    + intros x Hx. destruct (Hf x Hx) as [[p ?] ?]. split; [exists p; set_solver|done].
    + intros _. rewrite Hv in Hin. apply elem_of_union in Hin as [->%elem_of_singleton|Hin].
      * apply tc_rtc_l with id; [by eapply rtc_nsteps_2|by apply tc_once].
      * exfalso. apply elem_of_list_to_set in Hin. destruct (Hf c Hin) as [[p Hp] _].
        assert (p = id) as -> by (apply (Huniq p id c); [by apply Hs|done]). set_solver.
    + intros p x [Hx|[-> ->]]%Hsplit; [|by split; [left|]].
      destruct (Hrd p x Hx) as [? _]. by split.
  - split; cbn; try done; [set_solver| | |].
    + intros x Hx. destruct (Hf x Hx) as [[p ?] ?]. split; [exists p; set_solver|done].
    + intros _. exists c. replace maxDepth with d by lia. by eapply nsteps_r.
    + intros p x [Hx|[-> ->]]%Hsplit.
      * destruct (Hrd p x Hx) as [_ ?]. split; [by right|done].
      * split; [by right|]. intros ->. destruct Hin. rewrite Hv. set_solver.
  - assert (nsteps edge (d + 1) root c) as Hn1
      by (rewrite Nat.add_1_r; by eapply nsteps_r).
    assert (c ≠ root) as Hcr by (intros ->; destruct Hin; rewrite Hv; set_solver).
    split; cbn; try done.
    + set_solver.
    + rewrite Hv, list_to_set_app_L. cbn. set_solver.
    + rewrite Hv in Hin. split; [|set_solver]. apply NoDup_app. split; [done|].
      split; [set_solver|]. by apply NoDup_singleton.
    + rewrite fmap_app. apply NoDup_app. split; [done|]. split; [|by apply NoDup_singleton].
      intros x ([x' d'] & -> & Hx)%list_elem_of_fmap. apply Hq in Hx as [Hx _]. set_solver.
    + intros x d' [Hx|[= -> ->]%list_elem_of_singleton]%elem_of_app.
      * apply Hq in Hx as (? & ? & ? & ?). split; [set_solver|done].
      * split; [set_solver|]. split; [|split; [lia|done]]. intros HxD. by apply Hdn in HxD.
    + intros x [->%elem_of_singleton|Hx]%elem_of_union.
      * right. rewrite fmap_app. cbn. set_solver.
      * rewrite fmap_app. destruct (Hsp x Hx); [by left|right; set_solver].
    + set_solver.
    + intros x [Hx| ->%list_elem_of_singleton]%elem_of_app.
      * destruct (Hf x Hx) as [[p ?] ?]. split; [exists p; set_solver|done].
      * split; [exists id; right; split; [done|split; [set_solver|done]]|].
        exists (d + 1). split; [lia|done].
    + intros p x [Hx|[-> ->]]%Hsplit.
      * destruct (Hrd p x Hx) as [[?|?] ?]; (split; [|done]); [left; set_solver|by right].
      * split; [left; set_solver|done].
Qed.

Lemma visit_child_mono d s c : visited s ⊆ visited (visit_child maxDepth d s c).
Proof. unfold visit_child. repeat case_match; cbn; set_solver. Qed.

Lemma scan_inv D id d l1 l2 s :
  id ∈ D → nsteps edge d root id → d ≤ maxDepth → kids id = l1 ++ l2 →
  descent_inv D (λ p x, (p ∈ D ∖ {[id]} ∧ edge p x) ∨ (p = id ∧ x ∈ l1 ∧ edge p x)) s →
  descent_inv D (λ p x, (p ∈ D ∖ {[id]} ∧ edge p x) ∨ (p = id ∧ x ∈ kids id ∧ edge p x))
    (fold_left (visit_child maxDepth d) l2 s).
Proof.
  intros HD Hn Hd. revert l1 s. induction l2 as [|c l2 IH]; intros l1 s Hk Hinv; cbn.
  - by rewrite app_nil_r in Hk; rewrite Hk.
  - apply (IH (l1 ++ [c])); [by rewrite <- app_assoc|].
    apply visit_child_inv; [done..| | |done].
    + unfold edge. rewrite Hk. set_solver.
    + pose proof (HNoDup id) as Hnd. rewrite Hk in Hnd. apply NoDup_app in Hnd as (_ & Hx & _).
      intros Hc. destruct (Hx c Hc). by left.
Qed.

Lemma inv_equiv D seen seen' s :
  (∀ p c, seen p c ↔ seen' p c) → descent_inv D seen s → descent_inv D seen' s.
Proof.
  intros E [Hs Hv Hnd Hqn Hq Hsp Hdn Hf Hcy Hex Hrd Hdp]. split; try done.
  - intros p c Hp. apply Hs. by apply (E p c).
  - intros x Hx. destruct (Hf x Hx) as [[p Hp] ?]. split; [exists p; by apply (E p x)|done].
  - intros p c Hp. apply (Hrd p c). by apply (E p c).
Qed.

(** One read of the queue. *)
Lemma read_inv D id d q s :
  queue s = (id, d) :: q →
  descent_inv D (λ p x, p ∈ D ∧ edge p x) s →
  descent_inv ({[id]} ∪ D) (λ p x, p ∈ {[id]} ∪ D ∧ edge p x)
    (fold_left (visit_child maxDepth d) (kids id)
      (mkDescent (found s) (Nat.max (depth_reached s) d) (cycle s) (exceeded s) (visited s) q)).
Proof.
  intros Eq [Hs Hv Hnd Hqn Hq Hsp Hdn Hf Hcy Hex Hrd Hdp].
  rewrite Eq in *. destruct (Hq id d ltac:(by left)) as (Hvi & HnD & Hle & Hn).
  csimpl in Hqn. apply NoDup_cons in Hqn as [Hidq Hqn].
  eapply inv_equiv; [|apply (scan_inv _ id d [] (kids id)); [set_solver|done|done|done|]].
  { intros p x. unfold edge. destruct (decide (p = id)); set_solver. }
  split; cbn; try done.
  - intros p x [[_ ?]|(_ & Hx & _)]; [done|by apply elem_of_nil in Hx].
  - intros x d' Hx. destruct (Hq x d' ltac:(by right)) as (? & ? & ? & ?).
    split; [done|]. split; [|done].
    assert (x ≠ id); [|set_solver]. intros ->. apply Hidq. by apply (list_elem_of_fmap_2 fst) in Hx.
  - intros x [Hx|Hx]%Hsp; [set_solver|]. csimpl in Hx. set_solver.
  - set_solver.
  - intros x Hx. destruct (Hf x Hx) as [[p [Hp He]] ?]. split; [exists p; left; set_solver|done].
  - intros p x [[Hp He]|(_ & Hx & _)]; [|by apply elem_of_nil in Hx]. apply (Hrd p x). set_solver.
  - lia.
Qed.

Lemma descend_inv fuel D s s' :
  descent_inv D (λ p x, p ∈ D ∧ edge p x) s → descend maxDepth fuel s = Some s' →
  ∃ D', descent_inv D' (λ p x, p ∈ D' ∧ edge p x) s' ∧ queue s' = [].
Proof.
  revert D s. induction fuel as [|fuel IH]; intros D s Hinv; cbn [descend];
    destruct (queue s) as [|[id d] q] eqn:Eq; try done; [naive_solver..|].
  intros Hd. eapply IH; [|exact Hd]. by apply read_inv.
Qed.

(** ** What the search finds *)

(** With one parent per node, two ways down to a node differ by a cycle. *)
Lemma path_length n m x :
  nsteps edge n root x → nsteps edge m root x → n < m → nsteps edge (m - n) root root.
Proof.
  revert m x. induction n as [|n IH]; intros m x Hn Hm Hlt.
  - inversion Hn; subst. by rewrite Nat.sub_0_r.
  - destruct m as [|m]; [lia|]. apply nsteps_inv_r in Hn as (p & Hn & Hp).
    apply nsteps_inv_r in Hm as (q & Hm & Hq). rewrite (Huniq p q x Hp Hq) in *.
    replace (S m - S n) with (m - n) by lia. apply (IH m q); [done|done|lia].
Qed.

Lemma nsteps_prefix n m x : nsteps edge n root x → m ≤ n → ∃ y, nsteps edge m root y.
Proof.
  intros Hn Hm. replace n with (m + (n - m)) in Hn by lia.
  apply nsteps_add_inv in Hn as (y & ? & ?). eauto.
Qed.

Lemma cycle_pumps n : tc edge root root → ∃ m x, n < m ∧ nsteps edge m root x.
Proof.
  intros (k & Hk & Hc)%tc_nsteps. induction n as [|n (m & x & Hlt & Hx)].
  - exists k, root. split; [lia|done].
  - destruct (nsteps_prefix m (S n) x Hx) as [y Hy]; [lia|].
    exists (k + S n), y. split; [lia|]. by eapply nsteps_trans.
Qed.

Lemma descent_closed s :
  (∃ D, descent_inv D (λ p x, p ∈ D ∧ edge p x) s) → queue s = [] → exceeded s = false →
  (∀ x, rtc edge root x → x ∈ visited s)
  ∧ (tc edge root root → cycle s = true).
Proof.
  intros [D Hinv] Hq Hex. assert (∀ x, x ∈ visited s → x ∈ D) as HD.
  { intros x [?|Hx]%(inv_split _ _ _ Hinv); [done|]. rewrite Hq in Hx. by apply elem_of_nil in Hx. }
  assert (∀ x, rtc edge root x → x ∈ visited s) as Hr.
  { intros x. apply closed_reachable.
    - intros p c Hp Hc. destruct (inv_read _ _ _ Hinv p c) as [[?|?] _]; [by auto|done|congruence].
    - rewrite (inv_visited _ _ _ Hinv). set_solver. }
  split; [done|]. intros Ht. apply tc_nsteps in Ht as ([|n] & Hn & Ht); [lia|].
  apply nsteps_inv_r in Ht as (p & Hp%rtc_nsteps_2 & He).
  by apply (inv_read _ _ _ Hinv p root); auto.
Qed.

(** The descent without a failure finds exactly the proper descendants, and the
    root is none of them; it has no failure exactly when no path from the root
    is longer than the bound. *)
Lemma descent_spec s :
  (∃ D, descent_inv D (λ p x, p ∈ D ∧ edge p x) s) → queue s = [] →
  let ok := negb (cycle s) && negb (exceeded s) in
  (ok = true → (∀ x, x ∈ found s ↔ tc edge root x) ∧ ¬ tc edge root root)
  ∧ (ok = true ↔ ∀ n x, nsteps edge n root x → n ≤ maxDepth).
Proof.
  intros HD Hq. cbn zeta. pose proof HD as [D Hinv].
  assert (negb (cycle s) && negb (exceeded s) = true →
    (∀ x, x ∈ found s ↔ tc edge root x) ∧ ¬ tc edge root root) as Hok.
  { intros [Hc%negb_true_iff He%negb_true_iff]%andb_true_iff.
    destruct (descent_closed s HD Hq He) as [Hr Ht].
    assert (¬ tc edge root root) as Hn by (intros H%Ht; congruence).
    split; [|done]. intros x. split.
    - intros (_ & n & Hle & Hx)%(inv_found _ _ _ Hinv).
      apply tc_nsteps. exists n. split; [lia|done].
    - intros Hx. pose proof (Hr x (tc_rtc _ _ Hx)) as Hv.
      rewrite (inv_visited _ _ _ Hinv) in Hv. apply elem_of_union in Hv as [->%elem_of_singleton|Hv];
        [done|by apply elem_of_list_to_set in Hv]. }
  split; [done|]. split.
  - intros Hk n x Hn. destruct (Hok Hk) as [Hf Ht].
    destruct (decide (n ≤ maxDepth)) as [|Hgt]; [done|exfalso].
    destruct (nsteps_prefix n (S maxDepth) x Hn) as [y Hy]; [lia|].
    assert (tc edge root y) as Hty by (apply tc_nsteps; exists (S maxDepth); split; [lia|done]).
    apply Hf in Hty. apply (inv_found _ _ _ Hinv) in Hty as (_ & m & Hm & Hmy).
    apply Ht, tc_nsteps. exists (S maxDepth - m). split; [lia|].
    by apply (path_length m (S maxDepth) y); [done|done|lia].
  - intros Hall. apply andb_true_iff. split; apply negb_true_iff, not_true_iff_false.
    + intros Hc%(inv_cycle _ _ _ Hinv). destruct (cycle_pumps maxDepth Hc) as (m & x & Hlt & Hx).
      apply Hall in Hx. lia.
    + intros He%(inv_exceeded _ _ _ Hinv). destruct He as [x Hx]. apply Hall in Hx. lia.
Qed.

(** ** The search ends *)
Definition pending (s : descent) : nat := size (U ∖ visited s) + length (queue s).

Lemma visit_child_pending d s c :
  c ∈ U → pending (visit_child maxDepth d s c) = pending s.
Proof.
  intros Hc. unfold visit_child, pending. destruct (decide _) as [Hin|Hin]; [done|].
  case_match; [done|]. cbn. rewrite length_app, (size_visit U (visited s) c) by done. cbn. lia.
Qed.

Lemma scan_pending d l s :
  (∀ c, c ∈ l → c ∈ U) → pending (fold_left (visit_child maxDepth d) l s) = pending s.
Proof.
  revert s. induction l as [|c l IH]; intros s Hl; cbn; [done|].
  rewrite IH by set_solver. apply visit_child_pending. set_solver.
Qed.

Lemma descend_ends fuel s : pending s ≤ fuel → is_Some (descend maxDepth fuel s).
Proof.
  revert s. induction fuel as [|fuel IH]; intros s Hf; cbn [descend];
    destruct (queue s) as [|[id d] q] eqn:Eq; try by eexists.
  - unfold pending in Hf. rewrite Eq in Hf. cbn in Hf. lia.
  - apply IH. rewrite scan_pending by (intros c; apply (Hkids id)).
    unfold pending in *. rewrite Eq in Hf. cbn in *. lia.
Qed.

(** The descent ends, finds nodes of [U] at most once each and not the root,
    within the bound; a reported cycle is one through the root. *)
Lemma descent_result fuel :
  S (size U) ≤ fuel →
  ∃ s, descend maxDepth fuel (descent_start root) = Some s
    ∧ NoDup (found s) ∧ (∀ x, x ∈ found s → x ∈ U)
    ∧ depth_reached s ≤ maxDepth
    ∧ (cycle s = true → tc edge root root)
    ∧ (∀ x, x ∈ found s → tc edge root x)
    ∧ let ok := negb (cycle s) && negb (exceeded s) in
      (ok = true → (∀ x, x ∈ found s ↔ tc edge root x) ∧ ¬ tc edge root root)
      ∧ (ok = true ↔ ∀ n x, nsteps edge n root x → n ≤ maxDepth).
Proof.
  intros Hf. destruct (descend_ends fuel (descent_start root)) as [s Hs].
  { unfold pending. cbn. enough (size (U ∖ {[root]}) ≤ size U) by lia.
    apply subseteq_size. set_solver. }
  exists s. split; [done|].
  destruct (descend_inv fuel ∅ (descent_start root) s) as (D & HD & Hq); [|done|].
  { eapply inv_equiv; [|apply descent_start_inv]. set_solver. }
  assert (∀ x, x ∈ found s → tc edge root x) as Htc.
  { intros x (_ & n & Hle & Hx)%(inv_found _ _ _ HD). apply tc_nsteps. exists n. split; [lia|done]. }
  split; [apply HD|]. split.
  { intros x (n & Hn & Hx)%Htc%tc_nsteps. destruct n as [|n]; [lia|].
    apply nsteps_inv_r in Hx as (p & _ & Hp). by eapply Hkids. }
  split; [apply HD|]. split; [apply HD|]. split; [done|]. apply descent_spec; eauto.
Qed.
End Bounded.

(** * Search, collecting what a predicate keeps *)
Record search := mkSearch {
  kept : list string;
  marked : gset string;
  todo : list string
}.

Definition search_child (keep : string → bool) (s : search) (c : string) : search :=
  if decide (c ∈ marked s) then s
  else mkSearch (if keep c then kept s ++ [c] else kept s) ({[c]} ∪ marked s) (todo s ++ [c]).

Fixpoint search_loop (keep : string → bool) (fuel : nat) (s : search) : option search :=
  match todo s with
  | [] => Some s
  | id :: q =>
      match fuel with
      | O => None
      | S fuel =>
          search_loop keep fuel
            (fold_left (search_child keep) (kids id) (mkSearch (kept s) (marked s) q))
      end
  end.

Definition search_start (root : string) : search := mkSearch [] {[root]} [root].

Section Search.
Context (keep : string → bool) (root : string).

(** [open] holds of the nodes whose children may not be marked yet. *)
Record search_inv (open : string → Prop) (s : search) : Prop := {
  srch_root : root ∈ marked s;
  srch_reach : ∀ x, x ∈ marked s → rtc edge root x;
  srch_kept : ∀ x, x ∈ kept s ↔ x ∈ marked s ∧ x ≠ root ∧ keep x = true;
  srch_NoDup : NoDup (kept s);
  srch_todo : ∀ x, x ∈ todo s → x ∈ marked s;
  srch_closed : ∀ x, x ∈ marked s → x ∈ todo s ∨ open x ∨ ∀ c, edge x c → c ∈ marked s
}.

Lemma search_child_inv open id c s :
  rtc edge root id → edge id c → search_inv open s →
  search_inv open (search_child keep s c) ∧ c ∈ marked (search_child keep s c)
  ∧ marked s ⊆ marked (search_child keep s c).
Proof.
  intros Hid Hc Hs. pose proof Hs as [Hr Hre Hk Hnd Ht Hcl]. unfold search_child.
  destruct (decide (c ∈ marked s)) as [Hin|Hin]; [done|].
  assert (c ∉ kept s) as Hck by (rewrite Hk; tauto).
  split; [|cbn; set_solver]. split; cbn.
  - set_solver.
  - intros x [->%elem_of_singleton|Hx]%elem_of_union; [by eapply rtc_r|by auto].
  - intros x. destruct (decide (x = c)) as [->|Hne].
    + assert (c ≠ root) by (intros ->; done). destruct (keep c); set_solver.
    + specialize (Hk x). destruct (keep c); set_solver.
  - destruct (keep c); [|done]. apply NoDup_app. split; [done|].
    split; [set_solver|apply NoDup_singleton].
  - set_solver.
  - intros x [->%elem_of_singleton|Hx]%elem_of_union; [set_solver|].
    destruct (Hcl x Hx) as [?|[?|?]]; set_solver.
Qed.

Lemma search_scan_inv open id l s :
  rtc edge root id → (∀ c, c ∈ l → edge id c) → search_inv open s →
  search_inv open (fold_left (search_child keep) l s)
  ∧ (∀ c, c ∈ l → c ∈ marked (fold_left (search_child keep) l s))
  ∧ marked s ⊆ marked (fold_left (search_child keep) l s).
Proof.
  intros Hid. revert s. induction l as [|c l IH]; intros s Hl Hs; cbn; [set_solver|].
  destruct (search_child_inv open id c s) as (Hs1 & Hc1 & Hm1); [done|set_solver|done|].
  destruct (IH (search_child keep s c)) as (Hs2 & Hc2 & Hm2); [set_solver|done|]. set_solver.
Qed.

Lemma search_loop_inv fuel s s' :
  search_inv (λ _, False) s → search_loop keep fuel s = Some s' →
  search_inv (λ _, False) s' ∧ todo s' = [].
Proof.
  revert s. induction fuel as [|fuel IH]; intros s Hs; cbn [search_loop];
    destruct (todo s) as [|id q] eqn:Eq; try done; [naive_solver..|].
  apply IH. pose proof Hs as [Hr Hre Hk Hnd Ht Hcl]. rewrite Eq in *.
  assert (rtc edge root id) as Hid by (apply Hre, Ht; by left).
  destruct (search_scan_inv (eq id) id (kids id) (mkSearch (kept s) (marked s) q))
    as ([Hr' Hre' Hk' Hnd' Ht' Hcl'] & Hc & Hm); [done|done| |].
  - split; cbn; try done; [set_solver|].
    intros x [[->|?]%elem_of_cons|[[]|?]]%Hcl; auto.
  - split; try done. intros x [?|[<-|?]]%Hcl'; auto.
Qed.

Lemma search_start_inv : search_inv (λ _, False) (search_start root).
Proof.
  split; cbn; [set_solver| |set_solver|constructor|set_solver|set_solver].
  by intros x ->%elem_of_singleton.
Qed.

(** The search ends, and keeps exactly the kept nodes reachable from the root,
    each once, the root excepted. *)
Lemma search_spec fuel (U : gset string) :
  (∀ p c, edge p c → c ∈ U) → S (size U) ≤ fuel →
  ∃ s, search_loop keep fuel (search_start root) = Some s
    ∧ NoDup (kept s)
    ∧ ∀ x, x ∈ kept s ↔ rtc edge root x ∧ x ≠ root ∧ keep x = true.
Proof.
  intros HU Hfuel.
  assert (∀ l s, (∀ c, c ∈ l → c ∈ U) →
    size (U ∖ marked (fold_left (search_child keep) l s))
      + length (todo (fold_left (search_child keep) l s))
    = size (U ∖ marked s) + length (todo s)) as Hscan.
  { induction l as [|c l IH]; intros s Hl; cbn; [done|]. rewrite IH by set_solver.
    unfold search_child. destruct (decide _); [done|]. cbn.
    rewrite length_app, (size_visit U (marked s) c) by set_solver. cbn. lia. }
  assert (∀ f s, size (U ∖ marked s) + length (todo s) ≤ f →
    is_Some (search_loop keep f s)) as Hends.
  { induction f as [|f IH]; intros s Hf; cbn [search_loop];
      destruct (todo s) as [|id q] eqn:Eq; try by eexists.
    - cbn in Hf. lia.
    - apply IH. rewrite Hscan by (intros c; apply (HU id)). cbn in *. lia. }
  destruct (Hends fuel (search_start root)) as [s Hs].
  { cbn. enough (size (U ∖ {[root]}) ≤ size U) by lia. apply subseteq_size. set_solver. }
  exists s. split; [done|].
  destruct (search_loop_inv _ _ _ search_start_inv Hs) as [[Hr Hre Hk Hnd Ht Hcl] Hq].
  split; [done|]. intros x. rewrite Hk. split; [naive_solver|]. intros (Hx & ? & ?).
  split; [|done]. revert Hx. apply closed_reachable; [|done].
  intros p c Hp Hc. destruct (Hcl p Hp) as [Hin|[[]|?]]; [|by auto].
  rewrite Hq in Hin. by apply elem_of_nil in Hin.
Qed.
End Search.
End Graph.

(** * Collecting a subtree

    Nodes are marked when they are read, so a node can be queued more than once;
    the fuel bounds the reads by the number of edges. *)
Section Collect.
Context (m : list (string * list string)) (HNoDup : NoDup m.*1).

Definition kids_of (id : string) : list string := default [] (map_get id m).

Fixpoint collect (fuel : nat) (visited : gset string) (result queue : list string) :
    option (list string) :=
  match queue with
  | [] => Some result
  | id :: q =>
      match fuel with
      | O => None
      | S fuel =>
          if decide (id ∈ visited) then collect fuel visited result q
          else collect fuel ({[id]} ∪ visited) (result ++ [id]) (q ++ kids_of id)
      end
  end.

(** The children of the nodes that are still to be read. *)
Definition unread (V : gset string) : nat :=
  sum_list_with (λ kl, if decide (kl.1 ∈ V) then 0 else length kl.2) m.

Lemma unread_visit V id : id ∉ V → unread V = length (kids_of id) + unread ({[id]} ∪ V).
Proof.
  intros HV. unfold unread, kids_of. induction m as [|[k l] m' IH]; csimpl in *; [done|].
  apply NoDup_cons in HNoDup as [Hk Hnd]. specialize (IH Hnd).
  destruct (String.eqb_spec id k) as [->|Hne]; cbn.
  - rewrite (decide_False (P := k ∈ V)) by done. rewrite (decide_True (P := k ∈ {[k]} ∪ V)) by set_solver.
    assert (map_get k m' = None) as E by (by apply map_get_None). rewrite E in IH. cbn in *. lia.
  - destruct (decide (k ∈ V)).
    + rewrite decide_True by set_solver. done.
    + rewrite decide_False by set_solver. lia.
Qed.

Lemma collect_ends fuel V result queue :
  length queue + unread V ≤ fuel → is_Some (collect fuel V result queue).
Proof.
  revert V result queue. induction fuel as [|fuel IH]; intros V result queue Hf; cbn [collect];
    destruct queue as [|id q]; try by eexists.
  - cbn in Hf. lia.
  - cbn in Hf. destruct (decide (id ∈ V)); apply IH; [lia|].
    rewrite (unread_visit V id) in Hf by done. rewrite length_app. lia.
Qed.

Lemma collect_inv fuel V result queue root result' :
  (∀ x, x ∈ V ↔ x ∈ result) → NoDup result →
  (∀ x, x ∈ result ∨ x ∈ queue → rtc (edge kids_of) root x) →
  (∀ p c, p ∈ result → edge kids_of p c → c ∈ result ∨ c ∈ queue) →
  (root ∈ result ∨ root ∈ queue) →
  collect fuel V result queue = Some result' →
  NoDup result' ∧ ∀ x, x ∈ result' ↔ rtc (edge kids_of) root x.
Proof.
  revert V result queue. induction fuel as [|fuel IH]; intros V result queue HV Hnd Hr Hc Hroot;
    cbn [collect]; destruct queue as [|id q]; try done.
  1,2: intros [= <-]; split; [done|]; intros x; split; [by auto|]; intros Hx;
    assert (x ∈ (list_to_set result : gset string)) as Hin by
      (eapply (closed_reachable kids_of _ root x); [|set_solver|done];
       intros p c Hp Hpc; specialize (Hc p c); set_solver); set_solver.
  destruct (decide (id ∈ V)) as [Hin|Hin].
  - apply IH; [done|done|set_solver| |set_solver].
    intros p c Hp Hpc. destruct (Hc p c Hp Hpc); set_solver.
  - apply IH.
    + set_solver.
    + apply NoDup_app. split; [done|]. split; [set_solver|apply NoDup_singleton].
    + intros x Hx. assert (rtc (edge kids_of) root id) by (apply Hr; set_solver).
      destruct (decide (x ∈ kids_of id)); [by eapply rtc_r|]. apply Hr. set_solver.
    + intros p c Hp Hpc. destruct (decide (p = id)) as [->|]; [unfold edge in Hpc; set_solver|].
      destruct (Hc p c); set_solver.
    + set_solver.
Qed.

(** The collection ends with exactly the nodes reachable from the start. *)
Lemma collect_spec fuel root :
  S (unread ∅) ≤ fuel →
  ∃ result, collect fuel ∅ [] [root] = Some result
    ∧ NoDup result ∧ ∀ x, x ∈ result ↔ rtc (edge kids_of) root x.
Proof.
  intros Hf. destruct (collect_ends fuel ∅ [] [root]) as [result Hr]; [cbn; lia|].
  exists result. split; [done|]. eapply collect_inv; [| | | | |exact Hr].
  - set_solver.
  - constructor.
  - intros x [Hx|Hx]; [by apply elem_of_nil in Hx|]. by apply list_elem_of_singleton in Hx as ->.
  - intros p c Hp. by apply elem_of_nil in Hp.
  - right. by left.
Qed.
End Collect.
