(* ===== verification/RevocationPropagation.v ===== *)
(** Recursive revocation propagation:
    [src/recursive-revocation-propagation.ts].

    Descendants of revoked roots are found by a depth-bounded breadth-first
    search, stale descendants by an unbounded one, revoked ancestors by walking
    up. The clock is read once per run and [localeCompare] is a parameter. *)
From Stdlib Require Import ZArith NArith Lia Ascii.
From stdpp Require Import base list strings pretty gmap sets relations.
From S2P Require Import Prelude JsValue Sha256 Canonical JsMap LineageGraph Worklist.

Inductive RevocationPropagationResult :=
  | PROPAGATION_COMPLETE | PROPAGATION_INCOMPLETE | PROPAGATION_COLLAPSED | PROPAGATION_STALE
  | PROPAGATION_CONVERGENCE_FAILED | PROPAGATION_NULL.

Inductive RevocationDescendantFailure := CYCLE_DETECTED | DEPTH_EXCEEDED.

Definition failure_str (f : RevocationDescendantFailure) : string :=
  match f with CYCLE_DETECTED => "cycle_detected" | DEPTH_EXCEEDED => "depth_exceeded" end.

Inductive RevocationDriftClass :=
  | DESCENDANT_PROPAGATION_INCOMPLETE | STALE_LINEAGE_RESURRECTION
  | PROOF_REVOCATION_BARRIER_VIOLATED | REPLAY_REVOCATION_BARRIER_VIOLATED
  | ANCESTOR_REVOCATION_UNRESOLVED | DISTRIBUTED_REVOCATION_DRIFT | REVOCATION_LINEAGE_CYCLE
  | REVOCATION_DEPTH_EXCEEDED | REVOCATION_CONVERGENCE_MISSING.

#[export] Instance drift_class_eq_dec : EqDecision RevocationDriftClass.
Proof. solve_decision. Defined.

Definition drift_str (c : RevocationDriftClass) : string :=
  match c with
  | DESCENDANT_PROPAGATION_INCOMPLETE => "descendant_propagation_incomplete"
  | STALE_LINEAGE_RESURRECTION => "stale_lineage_resurrection"
  | PROOF_REVOCATION_BARRIER_VIOLATED => "proof_revocation_barrier_violated"
  | REPLAY_REVOCATION_BARRIER_VIOLATED => "replay_revocation_barrier_violated"
  | ANCESTOR_REVOCATION_UNRESOLVED => "ancestor_revocation_unresolved"
  | DISTRIBUTED_REVOCATION_DRIFT => "distributed_revocation_drift"
  | REVOCATION_LINEAGE_CYCLE => "revocation_lineage_cycle"
  | REVOCATION_DEPTH_EXCEEDED => "revocation_depth_exceeded"
  | REVOCATION_CONVERGENCE_MISSING => "revocation_convergence_missing"
  end.

Inductive RevocationRepairClass :=
  | PROPAGATE_REVOCATION_TO_DESCENDANTS | INVALIDATE_STALE_REPLAY | INVALIDATE_PROOF_CONTINUITY
  | RECONCILE_REVOCATION_VIEWS | REVOCATION_PERMANENTLY_INVALID.

Inductive RevocationConvergenceResult :=
  | CONVERGENCE_REACHED | CONVERGENCE_PARTIAL | CONVERGENCE_FAILED | CONVERGENCE_NULL.

#[export] Instance convergence_eq_dec : EqDecision RevocationConvergenceResult.
Proof. solve_decision. Defined.

Definition convergence_str (r : RevocationConvergenceResult) : string :=
  match r with
  | CONVERGENCE_REACHED => "CONVERGENCE_REACHED" | CONVERGENCE_PARTIAL => "CONVERGENCE_PARTIAL"
  | CONVERGENCE_FAILED => "CONVERGENCE_FAILED" | CONVERGENCE_NULL => "NULL"
  end.

(** * Records *)
Record RevocationProofRecord := mkProofRecord {
  pr_proof_id : string; pr_continuity_id : string; pr_proof_hash : string; pr_lineage_hash : string
}.

Record RevocationReplayRecord := mkReplayRecord {
  rp_replay_id : string; rp_continuity_id : string; rp_continuity_hash : string;
  rp_lineage_hash : string
}.

Record RevocationDescendantResult := mkDescendants {
  traversal_id : string;
  dr_root : string;
  descendant_ids : list string;
  descendant_count : nat;
  dr_depth : nat;
  dr_ok : bool;
  failure_reason : option RevocationDescendantFailure;
  topology_hash : string
}.

Record StaleLineageCollapse := mkCollapse {
  collapse_id : string; revoked_root_id : string; active_descendant_ids : list string;
  collapse_hash : string
}.

Record RevocationChronologyEntry := mkChronology {
  sequence_index : nat; ch_revocation_id : string; ch_root : string; ch_revoked_at : string;
  chronology_hash : string
}.

Record RevocationAncestryAudit := mkAudit {
  ra_id : string; ra_continuity_id : string; ancestor_revoked : bool;
  revoked_ancestor_id : option string; ancestry_chain : list string; ancestry_hash : string
}.

Record ReplayRevocationEligibility := mkReplayEligibility {
  re_replay_id : string; re_continuity_id : string; eligible : bool;
  ineligibility_reason : option string
}.

Record ProofContinuityValidation := mkProofValidation {
  pv_proof_id : string; pv_continuity_id : string; pv_valid : bool;
  invalidity_reason : option string; pv_proof_hash : string
}.

Record DistributedRevocationConvergence := mkConvergence {
  convergence_id : string;
  convergence_result : RevocationConvergenceResult;
  converged_count : nat;
  diverged_count : nat;
  dc_epoch : option string;
  dc_hash : option string;
  dc_topology_hash : string
}.

Inductive severity := fatal | degraded | observation.

Record RevocationDriftObservation := mkObservation {
  observation_id : string; drift_class : RevocationDriftClass;
  affected_continuity_id : option string; obs_severity : severity; obs_detail : string
}.

Record RevocationRepairDiagnostic := mkDiagnostic {
  diagnostic_id : string; dg_affected : option string; repair_class : RevocationRepairClass;
  repairable : bool; dg_detail : string
}.

Record RevocationPropagationAuditSurface := mkSurface {
  audit_id : string; su_propagation_id : string; su_topology_hash : string;
  total_entry_count : nat; revoked_count : nat; propagation_complete : bool; drift_count : nat;
  su_convergence : RevocationConvergenceResult
}.

Record RevocationLineagePropagation := mkPropagation {
  propagation_id : string;
  propagation_result : RevocationPropagationResult;
  revocation_topology_hash : string;
  entry_count : nat;
  descendant_traversal_results : list RevocationDescendantResult;
  incomplete_propagations : list string;
  stale_lineage_collapses : list StaleLineageCollapse;
  chronology : list RevocationChronologyEntry;
  ancestry_audits : list RevocationAncestryAudit;
  replay_eligibility : list ReplayRevocationEligibility;
  proof_continuity_validations : list ProofContinuityValidation;
  convergence : DistributedRevocationConvergence;
  drift_observations : list RevocationDriftObservation;
  repair_diagnostics : list RevocationRepairDiagnostic;
  audit_surface : RevocationPropagationAuditSurface
}.

Definition SYSTEM_MAX_DESCENT_DEPTH : nat := 32.

Abbreviation index := (list (string * LineageEntry)).
Definition strs (l : list string) : jsval := JArr (map JStr l).
Definition jnat (n : nat) : jsval := jint (Z.of_nat n).

(** ACTIVE and not marked as revoked. *)
Definition live (e : LineageEntry) : bool :=
  isActiveStatus (status e) && negb (present (revoked_at e)).

Section Revocation.
Context (date_parse : string → option Z) (date_now : Z).
Context (locale_leb : string → string → bool).

Abbreviation isRevocationBarriered := (isRevokedOrExpired date_parse date_now).

Definition computeRevocationTopologyHash (es : list LineageEntry) : string :=
  hashCanonical (JArr (map (λ e, JObj
    [("continuity_hash", JStr (continuity_hash e)); ("continuity_id", JStr (continuity_id e));
     ("parent_continuity_id", opt_str (parent_continuity_id e));
     ("revoked_at", opt_str (revoked_at e)); ("status", JStr (status e))])
    (sort_by (λ a b, locale_leb (continuity_id a) (continuity_id b)) es))).

(** * Descendants *)

(** The final state of the queue; the fuel is enough ([descent_ends]). *)
Definition descendants (rootId : string) (idx : index) (maxDepth : nat) : descent :=
  default (descent_start rootId)
    (descend (children (buildChildrenMap idx.*2)) maxDepth (S (length idx))
      (descent_start rootId)).

Definition traverseDescendantRevocation (rootId : string) (idx : index) (maxDepth : nat) :
    RevocationDescendantResult :=
  let s := descendants rootId idx maxDepth in
  let failureReason :=
    if cycle s then Some CYCLE_DETECTED else if exceeded s then Some DEPTH_EXCEEDED else None in
  let topologyPayload := JObj
    [("depth_reached", jnat (depth_reached s));
     ("descendant_ids", strs (sort_by str_leb (found s)));
     ("failure_reason", opt_str (option_map failure_str failureReason));
     ("root_continuity_id", JStr rootId)] in
  mkDescendants
    (hashCanonical (JObj [("root", JStr rootId); ("topology", topologyPayload)]))
    rootId (found s) (length (found s)) (depth_reached s)
    (match failureReason with None => true | Some _ => false end) failureReason
    (hashCanonical topologyPayload).

(** The identifiers in the order they are first met, with those met. *)
Definition incomplete_step (idx : index) (acc : list string * list string) (id : string) :
    list string * list string :=
  let '(seen, incomplete) := acc in
  if str_in id seen then acc
  else
    (id :: seen,
     match map_get id idx with
     | None => incomplete
     | Some e => if live e then incomplete ++ [id] else incomplete
     end).

Definition verifyRevocationPropagationCompleteness (results : list RevocationDescendantResult)
    (records : list RevocationEvidence) (idx : index) : list string :=
  let revokedRoots := map root_continuity_id records in
  (fold_left (λ acc r,
    if str_in (dr_root r) revokedRoots
    then fold_left (incomplete_step idx) (descendant_ids r) acc else acc) results ([], [])).2.

(** * Stale lineage *)
Definition active_below (rootId : string) (es : list LineageEntry) (idx : index) : list string :=
  kept (default (search_start rootId)
    (search_loop (children (buildChildrenMap es))
      (λ id, match map_get id idx with Some e => live e | None => false end)
      (S (length es)) (search_start rootId))).

Definition collapse_of (rootId : string) (active : list string) : StaleLineageCollapse :=
  let collapsePayload := JObj
    [("active_descendant_ids", strs (sort_by str_leb active)); ("revoked_root_id", JStr rootId)] in
  mkCollapse (hashCanonical (JObj [("collapse", collapsePayload)])) rootId
    (sort_by str_leb active) (hashCanonical collapsePayload).

Definition enforceStaleLineageCollapse (es : list LineageEntry) (idx : index) :
    list StaleLineageCollapse :=
  omap (λ rootId,
    match active_below rootId es idx with
    | [] => None
    | active => Some (collapse_of rootId active)
    end)
    (dedup [] (continuity_id <$> filter (λ e, isRevocationBarriered e = true) es)).

(** * Chronology *)
Definition chronology_leb (a b : RevocationEvidence) : bool :=
  if str_ltb (ev_revoked_at a) (ev_revoked_at b) then true
  else if str_ltb (ev_revoked_at b) (ev_revoked_at a) then false
  else locale_leb (revocation_id a) (revocation_id b).

Definition reconstructRevocationChronology (records : list RevocationEvidence) :
    list RevocationChronologyEntry :=
  imap (λ i r,
    mkChronology i (revocation_id r) (root_continuity_id r) (ev_revoked_at r)
      (hashCanonical (JObj [("revocation_id", JStr (revocation_id r));
        ("revoked_at", JStr (ev_revoked_at r));
        ("root_continuity_id", JStr (root_continuity_id r)); ("sequence_index", jnat i)])))
    (sort_by chronology_leb records).

(** * Ancestry *)

(** The chain so far also is the set of visited identifiers. The result is the
    chain and the revoked ancestor it ends in, if any. *)
Fixpoint audit_loop (idx : index) (maxDepth fuel : nat) (current : string) (chain : list string) :
    list string * option string :=
  match fuel with
  | O => (chain, None)
  | S fuel =>
      if str_in current chain then (chain, None)
      else
        let chain := chain ++ [current] in
        if Nat.ltb maxDepth (length chain) then (chain, None)
        else
          match map_get current idx with
          | None => (chain, None)
          | Some node =>
              let parentId := parent_id node in
              if is_empty_str parentId then (chain, None)
              else
                if match map_get parentId idx with
                   | Some p => isRevocationBarriered p
                   | None => false
                   end
                then (chain ++ [parentId], Some parentId)
                else audit_loop idx maxDepth fuel parentId chain
          end
  end.

Definition auditRevocationAncestry (id : string) (idx : index) (maxDepth : nat) :
    RevocationAncestryAudit :=
  let '(chain, revokedAncestorId) := audit_loop idx maxDepth (S (S (length idx))) id [] in
  let ancestorRevoked := bool_decide (is_Some revokedAncestorId) in
  let auditPayload := JObj
    [("ancestor_revoked", JBool ancestorRevoked); ("ancestry_chain", strs chain);
     ("continuity_id", JStr id); ("revoked_ancestor_id", opt_str revokedAncestorId)] in
  mkAudit (hashCanonical (JObj [("audit", auditPayload)])) id ancestorRevoked revokedAncestorId
    chain (hashCanonical auditPayload).

(** * Replays and proofs *)
Definition validateRevokedReplayIneligibility (replay : RevocationReplayRecord) (idx : index)
    (records : list RevocationEvidence) : bool * option string :=
  match map_get (rp_continuity_id replay) idx with
  | None => (false, Some "continuity_not_found")
  | Some entry =>
      if isRevocationBarriered entry then (false, Some "continuity_revoked_or_non_active")
      else if existsb (evidence_covers (rp_continuity_id replay)) records then
        (false, Some "revocation_cascade_detected")
      else if valid_sha256 (continuity_hash entry) && valid_sha256 (rp_continuity_hash replay)
              && negb (String.eqb (continuity_hash entry) (rp_continuity_hash replay)) then
        (false, Some "continuity_hash_mismatch")
      else (true, None)
  end.

Definition validateRevokedProofContinuity (proof : RevocationProofRecord) (idx : index)
    (records : list RevocationEvidence) : bool * option string :=
  match map_get (pr_continuity_id proof) idx with
  | None => (false, Some "proof_continuity_not_found")
  | Some entry =>
      if isRevocationBarriered entry then (false, Some "proof_continuity_revoked")
      else if existsb (evidence_covers (pr_continuity_id proof)) records then
        (false, Some "proof_continuity_in_revocation_cascade")
      else (true, None)
  end.

(** * Convergence *)
Definition null_convergence (propagationId : string) : DistributedRevocationConvergence :=
  mkConvergence
    (hashCanonical (JObj [("null_convergence", JBool true);
      ("propagation_id", JStr propagationId)]))
    CONVERGENCE_NULL 0 0 None None
    (hashCanonical (JObj [("null", JBool true); ("propagation_id", JStr propagationId)])).

Definition verifyDistributedRevocationConvergence (views : list RegistryView)
    (propagationId : string) : DistributedRevocationConvergence :=
  match views with
  | [] => null_convergence propagationId
  | _ =>
      let '(topHash, topCount) := top_hash (hash_counts views) in
      let canonicalEpoch := canonical_epoch views topHash in
      let topology := computeRevocationTopologyHash (allEntriesMap views).*2 in
      let divergedCount := (length views - topCount)%nat in
      let result :=
        if Nat.eqb topCount (length views) then CONVERGENCE_REACHED
        else if Nat.ltb (length views) (2 * topCount) then CONVERGENCE_PARTIAL
        else CONVERGENCE_FAILED in
      let convergencePayload := JObj
        [("canonical_epoch", opt_str canonicalEpoch);
         ("canonical_revocation_hash", JStr topHash);
         ("convergence_result", JStr (convergence_str result));
         ("converged_count", jnat topCount); ("diverged_count", jnat divergedCount);
         ("propagation_id", JStr propagationId); ("revocation_topology_hash", JStr topology)] in
      mkConvergence (hashCanonical convergencePayload) result topCount divergedCount
        canonicalEpoch (Some topHash) topology
  end.

(** * Drift *)

(** The observations before they are numbered: class, identifier, detail. *)
Abbreviation draft := (RevocationDriftClass * option string * string)%type.

Definition traversal_drift (r : RevocationDescendantResult) : option draft :=
  match failure_reason r with
  | None => None
  | Some f =>
      Some (match f with
            | CYCLE_DETECTED => REVOCATION_LINEAGE_CYCLE
            | DEPTH_EXCEEDED => REVOCATION_DEPTH_EXCEEDED
            end, Some (dr_root r),
        "revocation traversal failed for root " +:+ dr_root r +:+ ": " +:+ failure_str f
          +:+ " at depth " +:+ pretty (dr_depth r))
  end.

Definition incomplete_drift (id : string) : draft :=
  (DESCENDANT_PROPAGATION_INCOMPLETE, Some id,
   "continuity_id " +:+ id
     +:+ " is a descendant of a revoked root but remains ACTIVE; propagation is incomplete").

Definition collapse_drift (c : StaleLineageCollapse) : draft :=
  (STALE_LINEAGE_RESURRECTION, Some (revoked_root_id c),
   "revoked root " +:+ revoked_root_id c +:+ " has " +:+ pretty (length (active_descendant_ids c))
     +:+ " active descendant(s); stale lineage collapse required").

Definition ancestry_drift (a : RevocationAncestryAudit) : option draft :=
  match revoked_ancestor_id a with
  | None => None
  | Some r =>
      Some (ANCESTOR_REVOCATION_UNRESOLVED, Some (ra_continuity_id a),
        "continuity_id " +:+ ra_continuity_id a +:+ " has revoked ancestor " +:+ r
          +:+ "; lineage legitimacy is invalidated")
  end.

Definition replay_drift (e : ReplayRevocationEligibility) : option draft :=
  if eligible e then None
  else
    Some (REPLAY_REVOCATION_BARRIER_VIOLATED, Some (re_continuity_id e),
      "replay_id " +:+ re_replay_id e +:+ " is ineligible for continuity_id "
        +:+ re_continuity_id e +:+ ": " +:+ default "null" (ineligibility_reason e)).

Definition proof_drift (v : ProofContinuityValidation) : option draft :=
  if pv_valid v then None
  else
    Some (PROOF_REVOCATION_BARRIER_VIOLATED, Some (pv_continuity_id v),
      "proof_id " +:+ pv_proof_id v +:+ " has invalid continuity for continuity_id "
        +:+ pv_continuity_id v +:+ ": " +:+ default "null" (invalidity_reason v)).

Definition convergence_drift (c : DistributedRevocationConvergence) : list draft :=
  match convergence_result c with
  | CONVERGENCE_REACHED | CONVERGENCE_NULL => []
  | r =>
      [(DISTRIBUTED_REVOCATION_DRIFT, None,
        "distributed revocation convergence failed (" +:+ convergence_str r +:+ "): "
          +:+ pretty (converged_count c) +:+ " converged, " +:+ pretty (diverged_count c)
          +:+ " diverged")]
  end.

Definition classifyRevocationDrift (results : list RevocationDescendantResult)
    (incompleteIds : list string) (collapses : list StaleLineageCollapse)
    (audits : list RevocationAncestryAudit) (replays : list ReplayRevocationEligibility)
    (proofs : list ProofContinuityValidation) (c : DistributedRevocationConvergence)
    (propagationId : string) : list RevocationDriftObservation :=
  imap (λ i '(cls, affected, detail),
    mkObservation (hashCanonical (JObj [("obs_index", jnat i);
      ("propagation_id", JStr propagationId)])) cls affected fatal detail)
    (omap traversal_drift results ++ map incomplete_drift incompleteIds
     ++ map collapse_drift collapses ++ omap ancestry_drift audits ++ omap replay_drift replays
     ++ omap proof_drift proofs ++ convergence_drift c).

(** * Repair *)
Definition affected_text (o : RevocationDriftObservation) : string :=
  default "null" (affected_continuity_id o).

Definition repairs_of (sel : RevocationDriftClass → bool) (cls : RevocationRepairClass) (ok : bool)
    (affected : RevocationDriftObservation → option string)
    (detail : RevocationDriftObservation → string) (obs : list RevocationDriftObservation) :
    list (option string * RevocationRepairClass * bool * string) :=
  map (λ o, (affected o, cls, ok, detail o)) (List.filter (λ o, sel (drift_class o)) obs).

Definition computeRevocationRepairDiagnostics (obs : list RevocationDriftObservation)
    (incompleteIds : list string) (collapses : list StaleLineageCollapse)
    (propagationId : string) : list RevocationRepairDiagnostic :=
  imap (λ i '(affected, cls, ok, detail),
    mkDiagnostic (hashCanonical (JObj [("diag_index", jnat i);
      ("propagation_id", JStr propagationId)])) affected cls ok detail)
    (repairs_of (λ c, bool_decide (c = REVOCATION_LINEAGE_CYCLE ∨ c = REVOCATION_DEPTH_EXCEEDED))
       REVOCATION_PERMANENTLY_INVALID false affected_continuity_id
       (λ o, "revocation traversal failure (" +:+ drift_str (drift_class o) +:+ ") for "
          +:+ affected_text o +:+ "; lineage is permanently invalid") obs
     ++ map (λ id, (Some id, PROPAGATE_REVOCATION_TO_DESCENDANTS, true,
          "continuity_id " +:+ id
            +:+ " must receive revocation propagation from its revoked ancestor")) incompleteIds
     ++ map (λ c, (Some (revoked_root_id c), PROPAGATE_REVOCATION_TO_DESCENDANTS, true,
          "revoked root " +:+ revoked_root_id c +:+ " has "
            +:+ pretty (length (active_descendant_ids c))
            +:+ " active descendant(s) that require collapse")) collapses
     ++ repairs_of (λ c, bool_decide (c = REPLAY_REVOCATION_BARRIER_VIOLATED))
          INVALIDATE_STALE_REPLAY false affected_continuity_id
          (λ o, "replay for continuity_id " +:+ affected_text o
             +:+ " must be invalidated; revocation barrier was violated") obs
     ++ repairs_of (λ c, bool_decide (c = PROOF_REVOCATION_BARRIER_VIOLATED))
          INVALIDATE_PROOF_CONTINUITY false affected_continuity_id
          (λ o, "proof for continuity_id " +:+ affected_text o
             +:+ " must be invalidated; revocation barrier was violated") obs
     ++ repairs_of (λ c, bool_decide (c = DISTRIBUTED_REVOCATION_DRIFT))
          RECONCILE_REVOCATION_VIEWS true (λ _, None)
          (λ _, "distributed revocation views are divergent; "
             +:+ "reconcile registry views to reach convergence") obs).

Definition buildRevocationPropagationAuditSurface (propagationId topology : string)
    (total revoked : nat) (complete : bool) (drift : nat) (r : RevocationConvergenceResult) :
    RevocationPropagationAuditSurface :=
  mkSurface
    (hashCanonical (JObj
      [("convergence_result", JStr (convergence_str r)); ("drift_count", jnat drift);
       ("propagation_complete", JBool complete); ("propagation_id", JStr propagationId);
       ("revocation_topology_hash", JStr topology); ("revoked_count", jnat revoked);
       ("total_entry_count", jnat total)]))
    propagationId topology total revoked complete drift r.

(** * The propagation *)
Definition buildNullPropagation (propagationId : string) : RevocationLineagePropagation :=
  let nullHash := hashCanonical (JObj [("null", JBool true);
    ("propagation_id", JStr propagationId)]) in
  mkPropagation propagationId PROPAGATION_NULL nullHash 0 [] [] [] [] [] [] []
    (null_convergence propagationId) [] []
    (buildRevocationPropagationAuditSurface propagationId nullHash 0 0 false 0 CONVERGENCE_NULL).

(** The identifier is trimmed; an entry without one is skipped. *)
Definition parse_entry (e : jsval) : option LineageEntry :=
  let id := js_trim (text (get e "continuity_id")) in
  if is_empty_str id then None else Some (entry_of id e None).

Definition proof_validation (idx : index) (records : list RevocationEvidence) (rp : jsval) :
    option ProofContinuityValidation :=
  let p := safeObj rp in
  let proofId := js_trim (text (get p "proof_id")) in
  let continuityId := js_trim (text (get p "continuity_id")) in
  if is_empty_str proofId || is_empty_str continuityId then None
  else
    let record := mkProofRecord proofId continuityId (text (get p "proof_hash"))
      (text (get p "lineage_hash")) in
    let '(valid, reason) := validateRevokedProofContinuity record idx records in
    Some (mkProofValidation proofId continuityId valid reason (pr_proof_hash record)).

Definition replay_validation (idx : index) (records : list RevocationEvidence) (rr : jsval) :
    option ReplayRevocationEligibility :=
  let r := safeObj rr in
  let replayId := js_trim (text (get r "replay_id")) in
  let continuityId := js_trim (text (get r "continuity_id")) in
  if is_empty_str replayId || is_empty_str continuityId then None
  else
    let record := mkReplayRecord replayId continuityId (text (get r "continuity_hash"))
      (text (get r "lineage_hash")) in
    let '(ok, reason) := validateRevokedReplayIneligibility record idx records in
    Some (mkReplayEligibility replayId continuityId ok reason).

Definition failed_with (f : RevocationDescendantFailure) (r : RevocationDescendantResult) : bool :=
  match failure_reason r, f with
  | Some CYCLE_DETECTED, CYCLE_DETECTED | Some DEPTH_EXCEEDED, DEPTH_EXCEEDED => true
  | _, _ => false
  end.

Definition overall_result (results : list RevocationDescendantResult) (incompleteIds : list string)
    (collapses : list StaleLineageCollapse) (views : list RegistryView)
    (c : DistributedRevocationConvergence) : RevocationPropagationResult :=
  if existsb (failed_with CYCLE_DETECTED) results || existsb (failed_with DEPTH_EXCEEDED) results
  then PROPAGATION_COLLAPSED
  else if negb (Nat.eqb (length incompleteIds) 0) then PROPAGATION_INCOMPLETE
  else if Nat.ltb 0 (length collapses) then PROPAGATION_STALE
  else if Nat.ltb 1 (length views)
          && negb (bool_decide (convergence_result c = CONVERGENCE_REACHED))
  then PROPAGATION_CONVERGENCE_FAILED
  else PROPAGATION_COMPLETE.

(** The roots: barriered entries first, then the roots of the records. *)
Definition revoked_roots (es : list LineageEntry) (records : list RevocationEvidence) :
    list string :=
  dedup [] ((continuity_id <$> filter (λ e, isRevocationBarriered e = true) es)
    ++ map root_continuity_id records).

(** What is computed once the views are parsed. *)
Definition propagate_views (propagationId : string) (safeInput : jsval)
    (views : list RegistryView) : RevocationLineagePropagation :=
  let idx := allEntriesMap views in
  let allEntries := idx.*2 in
  let topology := computeRevocationTopologyHash allEntries in
  let maxDescentDepth := positive_or (get safeInput "max_descent_depth") SYSTEM_MAX_DESCENT_DEPTH in
  let records :=
    omap (parse_evidence "propagated_ids") (array_or_empty (get safeInput "revocation_records")) in
  let roots := revoked_roots allEntries records in
  let results := map (λ r, traverseDescendantRevocation r idx maxDescentDepth) roots in
  let incompleteIds := verifyRevocationPropagationCompleteness results records idx in
  let propagationComplete := Nat.eqb (length incompleteIds) 0 in
  let collapses := enforceStaleLineageCollapse allEntries idx in
  let audits :=
    map (λ e, auditRevocationAncestry (continuity_id e) idx maxDescentDepth) allEntries in
  let proofs := omap (proof_validation idx records) (array_or_empty (get safeInput "proof_records")) in
  let replays :=
    omap (replay_validation idx records) (array_or_empty (get safeInput "replay_records")) in
  let c := verifyDistributedRevocationConvergence views propagationId in
  let drift :=
    classifyRevocationDrift results incompleteIds collapses audits replays proofs c propagationId in
  mkPropagation propagationId (overall_result results incompleteIds collapses views c) topology
    (length allEntries) results incompleteIds collapses
    (reconstructRevocationChronology records) audits replays proofs c drift
    (computeRevocationRepairDiagnostics drift incompleteIds collapses propagationId)
    (buildRevocationPropagationAuditSurface propagationId topology (length allEntries)
      (length roots) propagationComplete (length drift) (convergence_result c)).

Definition propagateRevocationLineage (input : jsval) : RevocationLineagePropagation :=
  match read_input "propagation_id" parse_entry input with
  | inl propagationId => buildNullPropagation propagationId
  | inr (propagationId, views) =>
      if Nat.eqb (length (allEntriesMap views)) 0 then buildNullPropagation propagationId
      else propagate_views propagationId (safeObj input) views
  end.
End Revocation.

(** * Theorems: the searches *)
Section Searches.
Context (idx : index) (Hidx : indexed continuity_id idx).

Abbreviation es := (idx.*2).
Abbreviation kids := (children (buildChildrenMap es)).

Definition ids : gset string := list_to_set (continuity_id <$> es).

Lemma edge_child p c : edge kids p c ↔ child es p c.
Proof. apply elem_of_children. Qed.

Lemma edge_ids p c : edge kids p c → c ∈ ids.
Proof. intros Hc%edge_child. apply elem_of_list_to_set. by eapply child_entry. Qed.

Lemma ids_NoDup : NoDup (continuity_id <$> es).
Proof. by apply indexed_keys_NoDup. Qed.

Lemma edge_unique p q c : edge kids p c → edge kids q c → p = q.
Proof. rewrite !edge_child. apply child_parent_unique, ids_NoDup. Qed.

Lemma kids_NoDup p : NoDup (kids p).
Proof. apply children_NoDup, ids_NoDup. Qed.

Lemma size_ids : size ids ≤ length idx.
Proof.
  unfold ids. rewrite size_list_to_set by apply ids_NoDup. by rewrite !length_fmap.
Qed.

Lemma descendants_result root maxDepth :
  let s := descendants root idx maxDepth in
  NoDup (found s) ∧ (∀ x, x ∈ found s → x ∈ ids) ∧ depth_reached s ≤ maxDepth
  ∧ (cycle s = true → tc (child es) root root)
  ∧ (∀ x, x ∈ found s → tc (child es) root x)
  ∧ let ok := negb (cycle s) && negb (exceeded s) in
    (ok = true → (∀ x, x ∈ found s ↔ tc (child es) root x) ∧ ¬ tc (child es) root root)
    ∧ (ok = true ↔ ∀ n x, nsteps (child es) n root x → n ≤ maxDepth).
Proof.
  cbn zeta. unfold descendants.
  destruct (descent_result kids root maxDepth ids edge_ids edge_unique kids_NoDup (S (length idx)))
    as (s & -> & Hnd & Hin & Hd & Hc & Hf & Hok & Hn); [pose proof size_ids; lia|]. cbn.
  setoid_rewrite (tc_ext _ _ edge_child) in Hf. setoid_rewrite (tc_ext _ _ edge_child) in Hok.
  setoid_rewrite (nsteps_ext _ _ edge_child) in Hn.
  rewrite (tc_ext _ _ edge_child) in Hc. done.
Qed.

Lemma active_below_spec keep root :
  ∃ s, search_loop kids keep (S (length es)) (search_start root) = Some s
    ∧ NoDup (kept s)
    ∧ ∀ x, x ∈ kept s ↔ rtc (child es) root x ∧ x ≠ root ∧ keep x = true.
Proof.
  destruct (search_spec kids keep root (S (length es)) ids edge_ids) as (s & Hs & Hnd & Hk).
  { rewrite length_fmap. pose proof size_ids. lia. }
  exists s. split; [done|]. split; [done|]. intros x. rewrite Hk.
  by rewrite (rtc_ext _ _ edge_child).
Qed.
End Searches.

(** C34. The traversal of descendants ends and is exact. With fuel for the number
    of entries the queue is emptied; the identifiers found are distinct proper
    descendants of the root, no more than there are entries, no deeper than the
    bound; a reported cycle passes through the root. The traversal succeeds
    exactly when no path from the root is longer than the bound, and then it has
    found every descendant. *)
Theorem traversal_exact root idx maxDepth :
  indexed continuity_id idx →
  let r := traverseDescendantRevocation root idx maxDepth in
  is_Some (descend (children (buildChildrenMap idx.*2)) maxDepth (S (length idx))
    (descent_start root))
  ∧ NoDup (descendant_ids r) ∧ (∀ x, x ∈ descendant_ids r → tc (child idx.*2) root x)
  ∧ descendant_count r ≤ length idx ∧ dr_depth r ≤ maxDepth
  ∧ (failure_reason r = Some CYCLE_DETECTED → tc (child idx.*2) root root)
  ∧ (dr_ok r = true ↔ ∀ n x, nsteps (child idx.*2) n root x → n ≤ maxDepth)
  ∧ (dr_ok r = true → ∀ x, x ∈ descendant_ids r ↔ tc (child idx.*2) root x).
Proof.
  intros Hidx. cbn zeta.
  destruct (descendants_result idx Hidx root maxDepth) as (Hnd & Hin & Hd & Hc & Hf & Hok & Hn).
  assert (dr_ok (traverseDescendantRevocation root idx maxDepth)
    = negb (cycle (descendants root idx maxDepth)) && negb (exceeded (descendants root idx maxDepth)))
    as Eok by (cbn; by destruct (cycle _), (exceeded _)).
  split.
  { destruct (descent_result (children (buildChildrenMap idx.*2)) root maxDepth (ids idx)
      (edge_ids idx) (edge_unique idx Hidx) (kids_NoDup idx Hidx) (S (length idx)))
      as (s & -> & _); [pose proof (size_ids idx Hidx); lia|by eexists]. }
  split; [done|]. split; [done|]. split.
  { cbn. rewrite <- (size_list_to_set (C := gset string)) by done.
    etransitivity; [|apply (size_ids idx Hidx)]. apply subseteq_size. intros x Hx.
    apply Hin. by apply elem_of_list_to_set in Hx. }
  split; [done|]. split; [|split].
  - cbn. intros Hfr. apply Hc. by destruct (cycle _); [|destruct (exceeded _)].
  - by rewrite Eok.
  - rewrite Eok. intros H. by apply Hok.
Qed.

(** * Theorems: completeness *)
Lemma incomplete_fold idx l seen inc :
  (∀ x, x ∈ inc ↔ x ∈ seen ∧ ∃ e, map_get x idx = Some e ∧ live e = true) →
  let '(seen', inc') := fold_left (incomplete_step idx) l (seen, inc) in
  (∀ x, x ∈ inc' ↔ x ∈ seen' ∧ ∃ e, map_get x idx = Some e ∧ live e = true)
  ∧ ∀ x, x ∈ seen' ↔ x ∈ seen ∨ x ∈ l.
Proof.
  revert seen inc. induction l as [|i l IH]; intros seen inc Hinc; cbn [fold_left]; [set_solver|].
  unfold incomplete_step at 2. destruct (str_in i seen) eqn:Ei.
  - apply str_in_elem in Ei. specialize (IH seen inc Hinc).
    destruct (fold_left _ _ _) as [seen' inc']. destruct IH as [H1 H2]. split; [done|].
    intros x. rewrite H2. set_solver.
  - assert (i ∉ seen) as Hi by (rewrite <- str_in_elem; congruence).
    specialize (IH (i :: seen) (match map_get i idx with
      | None => inc | Some e => if live e then inc ++ [i] else inc end)).
    destruct (fold_left _ _ _) as [seen' inc']. destruct IH as [H1 H2].
    + intros x. specialize (Hinc x).
      destruct (decide (x = i)) as [->|Hne].
      * destruct (map_get i idx) as [e|] eqn:Ee; [destruct (live e) eqn:El|].
        -- split; [|intros _; apply elem_of_app; right; by left].
           intros _. split; [by left|eauto].
        -- split; [intros ?%Hinc; naive_solver|]. intros (_ & e' & [= <-] & ?). congruence.
        -- split; [intros ?%Hinc; naive_solver|]. by intros (_ & e' & ? & _).
      * rewrite elem_of_cons. assert (x ∈ (match map_get i idx with
          | None => inc | Some e => if live e then inc ++ [i] else inc end) ↔ x ∈ inc) as ->.
        { destruct (map_get i idx) as [e|]; [destruct (live e)|]; set_solver. }
        rewrite Hinc. naive_solver.
    + split; [done|]. intros x. rewrite H2. set_solver.
Qed.

Lemma incomplete_spec results records idx x :
  x ∈ verifyRevocationPropagationCompleteness results records idx ↔
  (∃ e, map_get x idx = Some e ∧ live e = true)
  ∧ ∃ r, r ∈ results ∧ x ∈ descendant_ids r ∧ dr_root r ∈ map root_continuity_id records.
Proof.
  unfold verifyRevocationPropagationCompleteness.
  set (step := λ acc r, if str_in (dr_root r) (map root_continuity_id records)
    then fold_left (incomplete_step idx) (descendant_ids r) acc else acc).
  set (inv := λ acc : list string * list string,
    ∀ x, x ∈ acc.2 ↔ x ∈ acc.1 ∧ ∃ e, map_get x idx = Some e ∧ live e = true).
  assert (∀ acc r, inv acc → inv (step acc r) ∧ ∀ x, x ∈ (step acc r).1 ↔
    x ∈ acc.1 ∨ (x ∈ descendant_ids r ∧ dr_root r ∈ map root_continuity_id records)) as Hstep.
  { intros [seen inc] r Hacc. unfold step. destruct (str_in (dr_root r) _) eqn:Er.
    - apply str_in_elem in Er. pose proof (incomplete_fold idx (descendant_ids r) seen inc Hacc).
      destruct (fold_left _ _ _) as [seen' inc']. destruct H as [H1 H2].
      split; [done|]. intros y. cbn. rewrite H2. tauto.
    - assert (dr_root r ∉ map root_continuity_id records) by (rewrite <- str_in_elem; congruence).
      split; [done|]. tauto. }
  assert (∀ rs acc, inv acc → inv (fold_left step rs acc)
    ∧ ∀ x, x ∈ (fold_left step rs acc).1 ↔ x ∈ acc.1 ∨
         ∃ r, r ∈ rs ∧ x ∈ descendant_ids r ∧ dr_root r ∈ map root_continuity_id records) as H.
  { induction rs as [|r rs IH]; intros acc Hacc; cbn [fold_left].
    - split; [done|]. set_solver.
    - destruct (Hstep acc r Hacc) as [H1 H2]. destruct (IH (step acc r) H1) as [H3 H4].
      split; [done|]. intros y. rewrite H4, H2. set_solver. }
  destruct (H results ([], [])) as [H1 H2]; [intros y; cbn; set_solver|].
  rewrite (H1 x), H2. cbn. set_solver.
Qed.

(** [x] is live and lies below [a]. *)
Definition live_below (idx : index) (a x : string) : Prop :=
  rtc (child idx.*2) a x ∧ x ≠ a ∧ ∃ e, map_get x idx = Some e ∧ live e = true.

Lemma elem_active_below idx a x :
  indexed continuity_id idx → x ∈ active_below a idx.*2 idx ↔ live_below idx a x.
Proof.
  intros Hidx. unfold active_below, live_below.
  destruct (active_below_spec idx Hidx
    (λ id, match map_get id idx with Some e => live e | None => false end) a) as (s & -> & _ & Hk).
  cbn. rewrite Hk. destruct (map_get x idx); naive_solver.
Qed.

Section Complete.
Context (date_parse : string → option Z) (date_now : Z).

Abbreviation barriered := (isRevokedOrExpired date_parse date_now).

(** An identifier whose own entry is revoked or expired. *)
Definition barrier (idx : index) (a : string) : Prop :=
  ∃ e, map_get a idx = Some e ∧ barriered e = true.

Lemma barrier_elem idx a :
  indexed continuity_id idx →
  a ∈ continuity_id <$> filter (λ e, barriered e = true) idx.*2 ↔ barrier idx a.
Proof.
  intros Hidx. unfold barrier. rewrite list_elem_of_fmap. setoid_rewrite list_elem_of_filter. split.
  - intros (e & -> & Hb & He). exists e. split; [|done]. by apply (indexed_value continuity_id).
  - intros (e & He & Hb). exists e. pose proof (indexed_get _ _ _ _ Hidx He) as <-.
    split; [done|]. split; [done|]. by apply (indexed_value continuity_id).
Qed.

Lemma collapse_elem idx c :
  indexed continuity_id idx →
  c ∈ enforceStaleLineageCollapse date_parse date_now idx.*2 idx ↔
  ∃ a, barrier idx a ∧ active_below a idx.*2 idx ≠ []
    ∧ c = collapse_of a (active_below a idx.*2 idx).
Proof.
  intros Hidx. unfold enforceStaleLineageCollapse. rewrite list_elem_of_omap.
  setoid_rewrite elem_of_dedup. setoid_rewrite barrier_elem; [|done]. split.
  - intros (a & [Ha _] & Hc). exists a. destruct (active_below a idx.*2 idx); naive_solver.
  - intros (a & Ha & Hne & ->). exists a. split; [set_solver|].
    by destruct (active_below a idx.*2 idx).
Qed.

Lemma no_collapse idx :
  indexed continuity_id idx →
  enforceStaleLineageCollapse date_parse date_now idx.*2 idx = [] ↔
  ∀ a x, barrier idx a → ¬ live_below idx a x.
Proof.
  intros Hidx. split.
  - intros Hc a x Ha Hx. apply (elem_active_below idx a x Hidx) in Hx.
    assert (collapse_of a (active_below a idx.*2 idx)
      ∈ enforceStaleLineageCollapse date_parse date_now idx.*2 idx) as Hin.
    { apply collapse_elem; [done|]. exists a. split; [done|]. split; [|done].
      intros E. rewrite E in Hx. by apply elem_of_nil in Hx. }
    rewrite Hc in Hin. by apply elem_of_nil in Hin.
  - intros Hno. destruct (enforceStaleLineageCollapse _ _ _ _) as [|c l] eqn:E; [done|].
    assert (c ∈ enforceStaleLineageCollapse date_parse date_now idx.*2 idx) as Hin
      by (rewrite E; by left).
    apply collapse_elem in Hin as (a & Ha & Hne & _); [|done].
    destruct (active_below a idx.*2 idx) as [|x m] eqn:Em; [done|]. destruct (Hno a x Ha).
    apply elem_active_below; [done|]. rewrite Em. by left.
Qed.

Lemma roots_elem idx records a :
  indexed continuity_id idx →
  a ∈ revoked_roots date_parse date_now idx.*2 records
    ↔ barrier idx a ∨ a ∈ map root_continuity_id records.
Proof.
  intros Hidx. unfold revoked_roots. rewrite elem_of_dedup, elem_of_app, barrier_elem by done.
  set_solver.
Qed.

Lemma failures_ok r :
  failed_with CYCLE_DETECTED r || failed_with DEPTH_EXCEEDED r = false ↔
  failure_reason r = None.
Proof. unfold failed_with. by destruct (failure_reason r) as [[]|]. Qed.

Lemma no_failures results :
  existsb (failed_with CYCLE_DETECTED) results || existsb (failed_with DEPTH_EXCEEDED) results
    = false ↔ ∀ r, r ∈ results → failure_reason r = None.
Proof.
  rewrite orb_false_iff, !existsb_false. setoid_rewrite <- failures_ok.
  setoid_rewrite orb_false_iff. naive_solver.
Qed.

Lemma traversal_ok_reason root idx n :
  failure_reason (traverseDescendantRevocation root idx n) = None ↔
  dr_ok (traverseDescendantRevocation root idx n) = true.
Proof.
  unfold traverseDescendantRevocation. cbv zeta. cbn [failure_reason dr_ok].
  by destruct (cycle (descendants root idx n)), (exceeded (descendants root idx n)).
Qed.

Lemma overall_complete results incompleteIds collapses views c :
  overall_result results incompleteIds collapses views c = PROPAGATION_COMPLETE ↔
  (∀ r, r ∈ results → failure_reason r = None) ∧ incompleteIds = [] ∧ collapses = []
  ∧ (length views ≤ 1 ∨ convergence_result c = CONVERGENCE_REACHED).
Proof.
  unfold overall_result. rewrite <- no_failures.
  destruct (existsb _ results || existsb _ results); [naive_solver|].
  destruct incompleteIds; cbn [length Nat.eqb negb]; [|naive_solver].
  destruct collapses as [|c0 l]; [change (Nat.ltb 0 (length [])) with false|
    change (Nat.ltb 0 (length (c0 :: l))) with true; naive_solver].
  destruct (Nat.ltb_spec 1 (length views)); cbn [andb].
  - destruct (decide (convergence_result c = CONVERGENCE_REACHED)) as [E|E];
      [rewrite bool_decide_eq_true_2 by done|rewrite bool_decide_eq_false_2 by done]; cbn [negb].
    + split; intros _; [|done]. repeat (split; [done|]). by right.
    + split; [intros [=]|]. intros (_ & _ & _ & [?|?]); [lia|done].
  - split; [|done]. intros _. split; [done|]. split; [done|]. split; [done|]. left. lia.
Qed.

(** * Theorems: ancestry *)
Section Ancestry.
Context (idx : index) (Hidx : indexed continuity_id idx) (id : string).

Abbreviation up := (λ n a, nsteps (child idx.*2) n a id).

Lemma up_step n a b : child idx.*2 b a → up n a → up (S n) b.
Proof. intros Hc Hn. by econstructor. Qed.

Lemma up_inv n b : up (S n) b → ∃ a, child idx.*2 b a ∧ up n a.
Proof. inversion 1; subst. eauto. Qed.

Lemma up_unique n a b : up n a → up n b → a = b.
Proof.
  revert a b. induction n as [|n IH]; intros a b Ha Hb.
  - inversion Ha; inversion Hb; congruence.
  - apply up_inv in Ha as (a' & Ha & Hna), Hb as (b' & Hb & Hnb).
    rewrite (IH a' b') in Ha by done. eapply child_parent_unique; [|done|done].
    by apply indexed_keys_NoDup.
Qed.

Lemma child_parent p c :
  child idx.*2 p c ↔ ∃ e, map_get c idx = Some e ∧ parent_id e = p ∧ p ≠ EmptyString.
Proof.
  unfold child. split.
  - intros (e & He & <- & ? & ?). exists e. split; [|done]. by apply (indexed_value continuity_id).
  - intros (e & He & ? & ?). exists e. pose proof (indexed_get _ _ _ _ Hidx He) as <-.
    split; [|done]. by apply (indexed_value continuity_id).
Qed.

(** Walking past an identifier already met only meets others again. *)
Lemma up_returns j k a n b :
  j < k → up j a → up k a → 1 ≤ n → up n b → ∃ i, 1 ≤ i ≤ k ∧ up i b.
Proof.
  intros Hjk Hj Hk. revert b. induction n as [|n IH]; intros b Hn Hb; [lia|].
  destruct (decide (S n ≤ k)) as [|Hgt]; [exists (S n); split; [lia|done]|].
  apply up_inv in Hb as (a' & Hc & Hb). destruct (IH a') as (i & Hi & Ha'); [lia|done|].
  destruct (decide (i = k)) as [->|].
  - exists (S j). split; [lia|]. rewrite (up_unique k a' a) in Hc by done. by eapply up_step.
  - exists (S i). split; [lia|]. by eapply up_step.
Qed.

Lemma up_cut k a n b :
  up k a → (∀ p, ¬ child idx.*2 p a) → up n b → n ≤ k.
Proof.
  intros Hk Hno Hn. destruct (decide (n ≤ k)) as [|Hgt]; [done|exfalso].
  revert b Hn. induction n as [|n IH]; intros b Hn; [lia|].
  apply up_inv in Hn as (a' & Hc & Hn). destruct (decide (n = k)) as [->|].
  - apply (Hno b). by rewrite (up_unique k a a').
  - eapply IH; [lia|done].
Qed.

Lemma audit_loop_spec maxDepth fuel current chain :
  up (length chain) current →
  (∀ x, x ∈ chain ↔ ∃ n, n < length chain ∧ up n x) → NoDup chain →
  (∀ x, x ∈ chain → x ∈ continuity_id <$> idx.*2) →
  (∀ n a, 1 ≤ n ≤ length chain → up n a → ¬ barrier idx a) →
  S (S (length idx)) ≤ fuel + length chain →
  match (audit_loop date_parse date_now idx maxDepth fuel current chain).2 with
  | Some a => ∃ n, 1 ≤ n ≤ maxDepth ∧ up n a ∧ barrier idx a
  | None => ∀ n a, 1 ≤ n ≤ maxDepth → up n a → ¬ barrier idx a
  end.
Proof.
  revert current chain. induction fuel as [|fuel IH]; intros current chain Hcur Hch Hnd Hin Hb Hf.
  { assert (length chain ≤ length idx); [|lia].
    rewrite <- (size_list_to_set (C := gset string)) by done.
    etransitivity; [|apply (size_ids idx Hidx)]. apply subseteq_size. intros x Hx.
    apply elem_of_list_to_set. apply elem_of_list_to_set in Hx. by apply Hin. }
  cbn [audit_loop]. destruct (str_in current chain) eqn:Ec.
  { apply str_in_elem, Hch in Ec as (j & Hj & Hjc). intros n a Hn Ha.
    destruct (up_returns j (length chain) current n a) as (i & Hi & Hia); [done..|lia|done|].
    by apply (Hb i). }
  assert (current ∉ chain) as Hnew by (rewrite <- str_in_elem; congruence).
  assert (length (chain ++ [current]) = S (length chain)) as Elen by (rewrite length_app; cbn; lia).
  rewrite Elen. destruct (Nat.ltb_spec maxDepth (S (length chain))) as [Hlt|Hge].
  { intros n a Hn. apply Hb. lia. }
  assert (∀ n a, (∀ p, ¬ child idx.*2 p current) → 1 ≤ n ≤ maxDepth → up n a → ¬ barrier idx a)
    as Hend.
  { intros n a Hno Hn Ha. apply (Hb n a); [|done]. split; [lia|]. by eapply up_cut. }
  destruct (map_get current idx) as [node|] eqn:En.
  2:{ intros n a. apply Hend. intros p (e & He & _)%child_parent. congruence. }
  unfold is_empty_str. destruct (String.eqb_spec (parent_id node) EmptyString) as [Ep|Ep].
  { intros n a. apply Hend. intros p (e & He & Hp & Hne)%child_parent. congruence. }
  assert (child idx.*2 (parent_id node) current) as Hc by (apply child_parent; eauto).
  pose proof (up_step _ _ _ Hc Hcur) as Hup.
  destruct (match map_get (parent_id node) idx with Some p => _ | None => false end) eqn:Eb.
  { cbn. exists (S (length chain)). split; [lia|]. split; [done|].
    destruct (map_get (parent_id node) idx) as [p|] eqn:Ep'; [|done]. by exists p. }
  apply IH.
  - by rewrite Elen.
  - intros x. rewrite elem_of_app, list_elem_of_singleton, Hch, Elen. split.
    + intros [(n & ? & ?)| ->]; [exists n; split; [lia|done]|exists (length chain); split; [lia|done]].
    + intros (n & Hn & Hx). destruct (decide (n = length chain)) as [->|];
        [right; by apply (up_unique (length chain))|left; exists n; split; [lia|done]].
  - apply NoDup_app. split; [done|]. split; [|apply NoDup_singleton].
    intros x Hx ->%list_elem_of_singleton. done.
  - intros x [Hx| ->%list_elem_of_singleton]%elem_of_app; [by apply Hin|].
    by eapply child_entry.
  - rewrite Elen. intros n a Hn Ha. destruct (decide (n = S (length chain))) as [->|];
      [|apply (Hb n); [lia|done]].
    rewrite (up_unique _ _ _ Ha Hup). intros (p & Hp & Hbp). rewrite Hp in Eb. congruence.
  - rewrite Elen. lia.
Qed.
End Ancestry.

Lemma audit_spec idx id maxDepth :
  indexed continuity_id idx →
  ancestor_revoked (auditRevocationAncestry date_parse date_now id idx maxDepth) = true ↔
  ∃ n a, 1 ≤ n ≤ maxDepth ∧ nsteps (child idx.*2) n a id ∧ barrier idx a.
Proof.
  intros Hidx. unfold auditRevocationAncestry.
  pose proof (audit_loop_spec idx Hidx id maxDepth (S (S (length idx))) id []) as H.
  destruct (audit_loop _ _ _ _ _ _ _) as [chain o]. cbn [ancestor_revoked].
  rewrite bool_decide_eq_true. cbn [snd length] in H.
  assert (match o with
    | Some a => ∃ n, 1 ≤ n ≤ maxDepth ∧ nsteps (child idx.*2) n a id ∧ barrier idx a
    | None => ∀ n a, 1 ≤ n ≤ maxDepth → nsteps (child idx.*2) n a id → ¬ barrier idx a
    end) as Ho.
  { apply H; [constructor| |constructor|set_solver|lia|lia].
    intros x. split; [by intros ?%elem_of_nil|]. intros (n & ? & _). lia. }
  destruct o as [a|].
  - split; [|eauto]. destruct Ho as (n & ?). eauto.
  - split; [by intros [? ?]|]. intros (n & a & Hn & Ha & Hb). by destruct (Ho n a Hn Ha).
Qed.

(** Walking up and searching down agree. For a live entry above which no path
    is longer than the bound, the audit of its ancestry reports a revoked ancestor
    exactly when some revoked or expired root lists it among the active
    descendants to collapse. *)
Theorem audit_agrees_with_collapse idx e maxDepth :
  indexed continuity_id idx → e ∈ idx.*2 → live e = true →
  (∀ n a, nsteps (child idx.*2) n a (continuity_id e) → n ≤ maxDepth) →
  ancestor_revoked (auditRevocationAncestry date_parse date_now (continuity_id e) idx maxDepth)
    = true ↔
  ∃ c, c ∈ enforceStaleLineageCollapse date_parse date_now idx.*2 idx
    ∧ continuity_id e ∈ active_descendant_ids c.
Proof.
  intros Hidx He Hl Hlen. rewrite audit_spec by done. split.
  - intros (n & a & Hn & Ha & Hb). exists (collapse_of a (active_below a idx.*2 idx)).
    assert (continuity_id e ∈ active_below a idx.*2 idx) as Hin.
    { apply elem_active_below; [done|]. split; [by eapply rtc_nsteps_2|]. split.
      - intros E. rewrite <- E in Ha.
        destruct (cycle_long (child idx.*2) (continuity_id e) n maxDepth) as (m & Hm & Hx);
          [lia|done|]. apply Hlen in Hx. lia.
      - exists e. split; [|done]. by apply (indexed_value continuity_id). }
    split.
    + apply collapse_elem; [done|]. exists a. split; [done|]. split; [|done].
      intros E. rewrite E in Hin. by apply elem_of_nil in Hin.
    + cbn. by apply elem_of_sort_by.
  - intros (c & (a & Hb & _ & ->)%collapse_elem & Hin); [|done].
    cbn in Hin. apply elem_of_sort_by, elem_active_below in Hin as (Hr & Hne & _); [|done].
    apply rtc_nsteps in Hr as [n Hn]. exists n, a. split; [|done]. split; [|by eapply Hlen].
    destruct n; [inversion Hn; congruence|lia].
Qed.
(** * Theorems: the propagation *)
Context (locale_leb : string → string → bool).

Lemma converged views pid :
  views ≠ [] →
  convergence_result (verifyDistributedRevocationConvergence locale_leb views pid)
    = CONVERGENCE_REACHED ↔
  ∀ v w, v ∈ views → w ∈ views → registry_hash v = registry_hash w.
Proof.
  intros Hne. rewrite <- unanimous by done. unfold verifyDistributedRevocationConvergence.
  destruct views as [|v l] eqn:E; [done|]. rewrite <- E.
  destruct (top_hash (hash_counts views)) as [h n]. cbn [convergence_result snd].
  destruct (Nat.eqb_spec n (length views)) as [->|Hn]; [done|].
  destruct (Nat.ltb _ _); naive_solver.
Qed.

Lemma all_entries_indexed views : indexed continuity_id (allEntriesMap views).
Proof. apply indexed_map_of. Qed.

Abbreviation accepted := (LineageGraph.accepted "propagation_id" parse_entry).

Definition records_of (input : jsval) : list RevocationEvidence :=
  omap (parse_evidence "propagated_ids")
    (array_or_empty (get (safeObj input) "revocation_records")).

Abbreviation propagate := (propagateRevocationLineage date_parse date_now locale_leb).

(** What a complete propagation certifies. The result is
    PROPAGATION_COMPLETE exactly when the input is accepted, no path below a
    revoked or expired entry or below the root of a revocation record is longer
    than the bound, no live entry lies below any of them, and several views claim
    one registry hash. *)
Theorem complete_iff input :
  propagation_result (propagate input) = PROPAGATION_COMPLETE ↔
  ∃ views, accepted input views ∧
    let idx := allEntriesMap views in
    let depth := positive_or (get (safeObj input) "max_descent_depth") SYSTEM_MAX_DESCENT_DEPTH in
    (∀ a, barrier idx a ∨ a ∈ map root_continuity_id (records_of input) →
       (∀ n x, nsteps (child idx.*2) n a x → n ≤ depth) ∧ ∀ x, ¬ live_below idx a x)
    ∧ (length views ≤ 1 ∨ ∀ v w, v ∈ views → w ∈ views → registry_hash v = registry_hash w).
Proof.
  assert (∀ views, accepted input views →
    ∀ pid, propagation_result (propagate_views date_parse date_now locale_leb pid
      (safeObj input) views) = PROPAGATION_COMPLETE ↔
    let idx := allEntriesMap views in
    let depth := positive_or (get (safeObj input) "max_descent_depth") SYSTEM_MAX_DESCENT_DEPTH in
    (∀ a, barrier idx a ∨ a ∈ map root_continuity_id (records_of input) →
       (∀ n x, nsteps (child idx.*2) n a x → n ≤ depth) ∧ ∀ x, ¬ live_below idx a x)
    ∧ (length views ≤ 1 ∨ ∀ v w, v ∈ views → w ∈ views → registry_hash v = registry_hash w)) as H.
  { intros views ((_ & _ & _ & _ & Hne) & _) pid. cbn zeta. unfold propagate_views. cbn [propagation_result].
    pose proof (all_entries_indexed views) as Hidx. fold (records_of input).
    set (idx := allEntriesMap views) in *. set (depth := positive_or _ _).
    rewrite overall_complete, converged by done.
    assert (∀ a, barrier idx a ∨ a ∈ map root_continuity_id (records_of input) ↔
      a ∈ revoked_roots date_parse date_now idx.*2 (records_of input)) as Hroots
      by (intros a; by rewrite roots_elem).
    split.
    - intros (Hf & Hi & Hc & Hv). split; [|done]. intros a Ha.
      assert (dr_ok (traverseDescendantRevocation a idx depth) = true) as Hok.
      { apply traversal_ok_reason, Hf, elem_of_map. exists a. by rewrite <- Hroots. }
      destruct (traversal_exact a idx depth Hidx) as (_ & _ & _ & _ & _ & _ & Hn & Hall).
      split; [by apply Hn|]. intros x Hx. destruct Ha as [Ha|Ha]; [by eapply no_collapse|].
      destruct Hx as (Hr & Hne' & He). apply elem_of_nil with (x := x). rewrite <- Hi.
      apply incomplete_spec. split; [done|]. exists (traverseDescendantRevocation a idx depth).
      split; [|split; [|done]].
      + apply elem_of_map. exists a. rewrite <- Hroots. auto.
      + apply Hall; [done|]. apply rtc_tc in Hr as [->|?]; done.
    - intros [Hall Hv]. split; [|split; [|split; [|done]]].
      + intros r (a & Ha & ->)%elem_of_map.
        apply traversal_ok_reason.
        destruct (traversal_exact a idx depth Hidx) as (_ & _ & _ & _ & _ & _ & Hn & _).
        by apply Hn, Hall, Hroots.
      + destruct (verifyRevocationPropagationCompleteness _ _ _) as [|x l] eqn:E; [done|exfalso].
        assert (x ∈ x :: l) as Hx by left. rewrite <- E in Hx.
        apply incomplete_spec in Hx as (He & r & (a & Ha & ->)%elem_of_map & Hx & Hr).
        apply Hroots in Ha. destruct (Hall a Ha) as [Hn Hl].
        destruct (traversal_exact a idx depth Hidx) as (_ & _ & Hd & _ & _ & _ & Hok & _).
        apply (Hl x). apply Hd in Hx. split; [by apply tc_rtc|]. split; [|done].
        intros ->. apply tc_nsteps in Hx as (k & Hk & Hx).
        destruct (cycle_long (child idx.*2) a k depth Hk Hx) as (m & Hm & Hlong).
        apply Hn in Hlong. lia.
      + apply no_collapse; [done|]. intros a x Ha. apply Hall. by left. }
  destruct (run_accepted "propagation_id" parse_entry buildNullPropagation
    (λ pid, propagate_views date_parse date_now locale_leb pid (safeObj input)) input)
    as [(pid & views & Ha & Hout)|[[pid Hout] Hno]];
    unfold propagateRevocationLineage; rewrite Hout.
  - rewrite (H views Ha pid). split; [eauto|]. intros (views' & Ha' & Hspec).
    by rewrite (admitted_unique _ _ _ _ _ (proj1 Ha) (proj1 Ha')).
  - split; [done|]. intros (views & Ha & _). by destruct (Hno views).
Qed.

End Complete.

(** * What a complete propagation does not certify *)
Definition hash64 : string := "0000000000000000000000000000000000000000000000000000000000000000".

(** One entry without a parent, with its status and its time of revocation. *)
Definition raw_entry (id st : string) (revoked : jsval) : jsval :=
  JObj [("continuity_id", JStr id); ("status", JStr st); ("revoked_at", revoked)].

Definition raw_view (entries : list jsval) : jsval :=
  JObj [("node_id", JStr "n"); ("registry_epoch", JStr "e"); ("lineage_root_id", JStr "r");
        ("registry_hash", JStr hash64); ("entries", JArr entries)].

Definition raw_input (views records : list jsval) : jsval :=
  JObj [("propagation_id", JStr "p"); ("evidence_only", JBool true);
        ("registry_views", JArr views); ("revocation_records", JArr records)].

Definition raw_record (root : string) : jsval :=
  JObj [("revocation_id", JStr "rev"); ("root_continuity_id", JStr root);
        ("revoked_at", JStr "2026-01-01")].

(** A complete propagation overlooks two kinds of revocation. The root that
    a revocation record names may itself still be active: only its descendants
    are examined. And a revocation that one view reports is lost when a later
    view still lists the entry as active, although both claim one registry hash;
    in the opposite order the same views report it. Neither leaves any drift
    observation. *)
Theorem complete_overlooks date_parse date_now locale_leb :
  let run := propagateRevocationLineage date_parse date_now locale_leb in
  let active := raw_view [raw_entry "a" "ACTIVE" JNull] in
  let revoked := raw_view [raw_entry "a" "REVOKED" (JStr "2026-01-01")] in
  (let out := run (raw_input [active] [raw_record "a"]) in
   propagation_result out = PROPAGATION_COMPLETE ∧ drift_observations out = []
   ∧ entry_count out = 1)
  ∧ (let out := run (raw_input [revoked; active] []) in
     propagation_result out = PROPAGATION_COMPLETE ∧ drift_observations out = []
     ∧ descendant_traversal_results out = [])
  ∧ length (descendant_traversal_results (run (raw_input [active; revoked] []))) = 1.
Proof. cbv zeta. repeat split. Qed.

(** * Witnesses *)
Definition fixture_entry (id : string) (parent : option string) (st : string) : LineageEntry :=
  mkLineageEntry id "s" None parent "h" st None None.

Definition fixture_parent : LineageEntry := fixture_entry "a" None "REVOKED".
Definition fixture_child : LineageEntry := fixture_entry "b" (Some "a") "ACTIVE".
Definition fixture_idx : index := map_of continuity_id [fixture_parent; fixture_child].

Lemma fixture_edge p c : child fixture_idx.*2 p c → p = "a" ∧ c = "b".
Proof.
  intros (e & He & <- & Hp & Hne). cbn in He.
  apply elem_of_cons in He as [->|He]; [by destruct Hne|].
  apply list_elem_of_singleton in He as ->. split; [by rewrite <- Hp|done].
Qed.

Lemma fixture_short n a x : nsteps (child fixture_idx.*2) n a x → n ≤ 1.
Proof.
  intros Hn. inversion Hn as [|m ? y ? H1 H2]; subst; [lia|].
  inversion H2 as [|m' ? z ? H3 H4]; subst; [lia|].
  apply fixture_edge in H1 as [_ ->], H3 as [? _]. done.
Qed.

Lemma traversal_exact_witness :
  "b" ∈ descendant_ids (traverseDescendantRevocation "a" fixture_idx 32).
Proof.
  apply (traversal_exact "a" fixture_idx 32).
  - apply indexed_map_of.
  - apply (traversal_exact "a" fixture_idx 32); [apply indexed_map_of|].
    intros n x Hn. apply fixture_short in Hn. lia.
  - apply tc_once. exists fixture_child. split; [right; by left|done].
Defined.

Lemma audit_agrees_with_collapse_witness :
  ∃ c, c ∈ enforceStaleLineageCollapse (λ _, None) 0 fixture_idx.*2 fixture_idx
    ∧ "b" ∈ active_descendant_ids c.
Proof.
  apply (audit_agrees_with_collapse (λ _, None) 0 fixture_idx fixture_child 32).
  - apply indexed_map_of.
  - right. by left.
  - reflexivity.
  - intros n a Hn. apply fixture_short in Hn. lia.
  - reflexivity.
Defined.
