(* ===== verification/Ancestry.v ===== *)
(** Walking up from an entry: the loop that the lineage modules share.

    The two ancestry traversals mark what they have met, stop at a cycle, at a
    bound on the depth, or where there is no parent to go to. Here is that loop
    over any partial function [up], and what it decides. *)
From Stdlib Require Import Lia.
From stdpp Require Import base list strings gmap sets relations.
From S2P Require Import Prelude.

Inductive climb_end := Cycle | TooDeep | Top.

Section Climb.
Context (up : string → option string).

(** The chain met so far, in order, also is the set of those visited. *)
Fixpoint climb (maxDepth fuel : nat) (current : string) (chain : list string) :
    option (list string * climb_end) :=
  match fuel with
  | O => None
  | S fuel =>
      if str_in current chain then Some (chain, Cycle)
      else if Nat.ltb maxDepth (length (chain ++ [current])) then
        Some (chain ++ [current], TooDeep)
      else
        match up current with
        | None => Some (chain ++ [current], Top)
        | Some p => climb maxDepth fuel p (chain ++ [current])
        end
  end.

Definition upR (x y : string) : Prop := up x = Some y.

Lemma upR_unique n x y z : nsteps upR n x y → nsteps upR n x z → y = z.
Proof.
  intros H. revert z. induction H as [|n x y w Hxy _ IH]; intros z Hz; inversion Hz; subst; [done|].
  apply IH. unfold upR in *. by simplify_eq.
Qed.

(** The steps below a given number exist as well. *)
Lemma upR_prefix n m x z : nsteps upR n x z → m ≤ n → ∃ y, nsteps upR m x y.
Proof.
  intros Hn Hm. replace n with (m + (n - m)) in Hn by lia.
  apply nsteps_add_inv in Hn as (y & Hy & _). eauto.
Qed.

Lemma upR_top n m x r y :
  nsteps upR n x r → up r = None → nsteps upR m x y → m ≤ n.
Proof.
  intros Hr Hno Hy. destruct (decide (m ≤ n)) as [|Hgt]; [done|exfalso].
  destruct (upR_prefix m (S n) x y Hy) as [z Hz]; [lia|].
  apply nsteps_inv_r in Hz as (r' & Hr' & Hz). rewrite (upR_unique _ _ _ _ Hr' Hr) in Hz.
  unfold upR in Hz. congruence.
Qed.

(** Once the walk has come back, it never ends. *)
Lemma upR_cycle j k x y n :
  j < k → nsteps upR j x y → nsteps upR k x y → ∃ z, nsteps upR n x z.
Proof.
  intros Hjk Hj Hk. induction (lt_wf n) as [n _ IH].
  destruct (decide (n ≤ k)) as [|Hgt]; [by eapply upR_prefix|].
  destruct (IH (j + (n - k))) as [z Hz]; [lia|].
  apply nsteps_add_inv in Hz as (y' & Hy' & Hz). rewrite (upR_unique _ _ _ _ Hy' Hj) in Hz.
  exists z. replace n with (k + (n - k)) by lia. by eapply nsteps_trans.
Qed.

(** [chain] lists the first steps of the walk from [start]. *)
Definition follows (start : string) (chain : list string) : Prop :=
  ∀ i x, chain !! i = Some x → nsteps upR i start x.

Definition climb_outcome (start : string) (maxDepth : nat) (chain : list string) (e : climb_end) :
    Prop :=
  NoDup chain ∧ head chain = Some start ∧ follows start chain ∧
  match e with
  | Cycle => length chain ≤ maxDepth ∧ ∃ y, y ∈ chain ∧ nsteps upR (length chain) start y
  | TooDeep => length chain = S maxDepth
  | Top => length chain ≤ maxDepth ∧ ∃ r, last chain = Some r ∧ up r = None
  end.

Lemma follows_snoc start chain x :
  follows start chain → nsteps upR (length chain) start x → follows start (chain ++ [x]).
Proof.
  intros Hf Hx i y [Hi|[Hi Hy]]%lookup_app_Some; [by apply Hf|].
  apply list_lookup_singleton_Some in Hy as [? ->].
  by replace i with (length chain) by lia.
Qed.

Lemma head_snoc {A} (l : list A) x y : head l = Some y → head (l ++ [x]) = Some y.
Proof. by destruct l. Qed.

Lemma climb_spec (U : gset string) start maxDepth fuel current chain :
  (∀ x p, up x = Some p → x ∈ U) →
  NoDup chain → (∀ x, x ∈ chain → x ∈ U) → (chain = [] ∨ head chain = Some start) →
  length chain ≤ maxDepth →
  follows start chain → nsteps upR (length chain) start current →
  S (S (size U)) ≤ fuel + length chain →
  ∃ chain' e, climb maxDepth fuel current chain = Some (chain', e)
    ∧ climb_outcome start maxDepth chain' e.
Proof.
  intros HU. revert current chain.
  induction fuel as [|fuel IH]; intros current chain Hnd Hin Hhd Hlen Hf Hc Hfuel.
  { assert (length chain ≤ size U); [|lia].
    rewrite <- (size_list_to_set (C := gset string)) by done. apply subseteq_size. set_solver. }
  cbn [climb]. destruct (str_in current chain) eqn:Ec.
  { apply str_in_elem in Ec. exists chain, Cycle. split; [done|].
    split; [done|]. split; [destruct Hhd as [->|]; [by apply elem_of_nil in Ec|done]|].
    split; [done|]. eauto. }
  assert (current ∉ chain) as Hnew by (rewrite <- str_in_elem; congruence).
  assert (length (chain ++ [current]) = S (length chain)) as El by (rewrite length_app; cbn; lia).
  assert (NoDup (chain ++ [current])) as Hnd'.
  { apply NoDup_app. split; [done|]. split; [|apply NoDup_singleton]. set_solver. }
  assert (head (chain ++ [current]) = Some start) as Hhd'.
  { destruct Hhd as [->|]; [|by apply head_snoc]. cbn in Hc. inversion Hc. done. }
  pose proof (follows_snoc _ _ _ Hf Hc) as Hf'.
  destruct (Nat.ltb_spec maxDepth (length (chain ++ [current]))) as [Hlt|Hge].
  { eexists _, TooDeep. split; [done|]. repeat (split; [done|]). lia. }
  destruct (up current) as [p|] eqn:Eu.
  - apply IH; try done; [|by right| |lia].
    + intros x [?| ->%list_elem_of_singleton]%elem_of_app; eauto.
    + rewrite El. eapply nsteps_r; [done|]. done.
  - eexists _, Top. split; [done|]. repeat (split; [done|]). exists current.
    by rewrite last_snoc.
Qed.

(** Fuel for every identifier with a parent and one more is enough. *)
Lemma climb_result (U : gset string) start maxDepth fuel :
  (∀ x p, up x = Some p → x ∈ U) → S (S (size U)) ≤ fuel →
  ∃ chain e, climb maxDepth fuel start [] = Some (chain, e)
    ∧ climb_outcome start maxDepth chain e.
Proof.
  intros HU Hf. apply (climb_spec U); try done; [constructor|set_solver|by left|cbn; lia| |lia].
  constructor.
Qed.

Lemma climb_last start maxDepth chain e :
  climb_outcome start maxDepth chain e →
  ∃ n r, length chain = S n ∧ last chain = Some r ∧ nsteps upR n start r.
Proof.
  intros (_ & Hhd & Hf & _). destruct chain as [|r chain _] using rev_ind; [done|].
  exists (length chain), r. split; [rewrite length_app; cbn; lia|]. rewrite last_snoc.
  split; [done|]. apply Hf. by rewrite list_lookup_middle.
Qed.

(** The walk succeeds exactly when it gets to the top within the bound. *)
Lemma climb_top_iff start maxDepth chain e n r :
  climb_outcome start maxDepth chain e →
  (e = Top ∧ length chain = S n ∧ last chain = Some r) ↔
  (n < maxDepth ∧ nsteps upR n start r ∧ up r = None).
Proof.
  intros Ho. destruct (climb_last _ _ _ _ Ho) as (m & r0 & Em & Er & Hm).
  destruct Ho as (Hnd & Hhd & Hf & He). split.
  - intros (-> & En & Er'). destruct He as (Hle & r' & Er'' & Hu). simplify_eq.
    split; [lia|]. rewrite Em in En. by injection En as ->.
  - intros (Hlt & Hr & Hno). destruct e.
    + destruct He as (Hle & y & Hy & Hk). apply list_elem_of_lookup in Hy as [i Hi].
      destruct (upR_cycle i (length chain) start y (S n)) as [z Hz]; [|by apply Hf|done|].
      { by apply lookup_lt_Some in Hi. }
      pose proof (upR_top _ _ _ _ _ Hr Hno Hz). lia.
    + pose proof (upR_top _ _ _ _ _ Hr Hno Hm). lia.
    + destruct He as (Hle & r' & Er' & Hu). simplify_eq.
      pose proof (upR_top _ _ _ _ _ Hr Hno Hm). pose proof (upR_top _ _ _ _ _ Hm Hu Hr).
      assert (n = m) as -> by lia. by rewrite (upR_unique _ _ _ _ Hr Hm).
Qed.

Lemma climb_top start maxDepth chain e :
  climb_outcome start maxDepth chain e →
  e = Top ↔ ∃ n r, n < maxDepth ∧ nsteps upR n start r ∧ up r = None.
Proof.
  intros Ho. destruct (climb_last _ _ _ _ Ho) as (m & r0 & Em & Er & Hm). split.
  - intros ->. exists m, r0. by apply (climb_top_iff start maxDepth chain Top).
  - intros (n & r & H). by apply (climb_top_iff start maxDepth chain e n r).
Qed.
End Climb.
