(* ===== verification/ContinuityClosure.v ===== *)
(** Closure of the distributed continuity lineage:
    [src/continuity-lineage-closure-hardening.ts].

    The ancestry of every entry is walked up to a root, entries whose parent is
    missing are collapsed with all that lies below them, and the hashes that the
    views claim for an entry are compared. The clock is read once per run and
    [localeCompare] is a parameter. *)
From Stdlib Require Import ZArith NArith Lia Ascii Sorted.
From stdpp Require Import base list strings pretty gmap sets relations.
From S2P Require Import Prelude JsValue Sha256 Canonical JsMap LineageGraph Worklist Ancestry.
From S2P Require Import RevocationPropagation.

Inductive ContinuityClosureResult :=
  | CLOSURE_VERIFIED | CLOSURE_BROKEN_ORPHAN | CLOSURE_BROKEN_DETACHED | CLOSURE_BROKEN_CYCLE
  | CLOSURE_BROKEN_DEPTH | CLOSURE_PARTIAL_VISIBILITY | CLOSURE_NULL.

Inductive AncestryFailureReason :=
  | ANCESTRY_CYCLE_DETECTED | ANCESTRY_DEPTH_EXCEEDED | DETACHED_LINEAGE | REVOKED_ANCESTOR
  | EXPIRED_ANCESTOR.

#[export] Instance ancestry_failure_eq_dec : EqDecision AncestryFailureReason.
Proof. solve_decision. Defined.

Definition reason_str (r : AncestryFailureReason) : string :=
  match r with
  | ANCESTRY_CYCLE_DETECTED => "cycle_detected"
  | ANCESTRY_DEPTH_EXCEEDED => "depth_exceeded"
  | DETACHED_LINEAGE => "detached_lineage"
  | REVOKED_ANCESTOR => "revoked_ancestor"
  | EXPIRED_ANCESTOR => "expired_ancestor"
  end.

Inductive ClosureDriftClass :=
  | DETACHED_CONTINUITY | ORPHANED_SUBTREE | ANCESTRY_CYCLE | ANCESTRY_DEPTH | FRESHNESS_CHAIN_VIOLATION
  | LINEAGE_EQUIVALENCE_DRIFT | PARTIAL_VISIBILITY_COLLAPSE | REVOKED_ANCESTOR_PROPAGATION
  | RECONSTRUCTION_FAILURE | CROSS_REGISTRY_HASH_DIVERGENCE.

Inductive RepairClass :=
  | FETCH_MISSING_ANCESTOR | LINEAGE_PERMANENTLY_INVALID | REDUCE_ANCESTRY_DEPTH
  | REVOKE_EXPIRED_CHAIN | RECONCILE_REGISTRY_VIEWS.

Definition repair_str (c : RepairClass) : string :=
  match c with
  | FETCH_MISSING_ANCESTOR => "fetch_missing_ancestor"
  | LINEAGE_PERMANENTLY_INVALID => "lineage_permanently_invalid"
  | REDUCE_ANCESTRY_DEPTH => "reduce_ancestry_depth"
  | REVOKE_EXPIRED_CHAIN => "revoke_expired_chain"
  | RECONCILE_REGISTRY_VIEWS => "reconcile_registry_views"
  end.

(** * Records *)
Record AncestryTraversalResult := mkTraversal {
  at_traversal_id : string;
  start_continuity_id : string;
  at_ok : bool;
  at_failure_reason : option AncestryFailureReason;
  at_depth : nat;
  at_root : option string;
  at_chain : list string;
  at_hash : string
}.

Record CollapsedSubtree := mkSubtree {
  subtree_id : string;
  orphan_root_id : string;
  missing_parent_id : string;
  affected_ids : list string;
  subtree_hash : string
}.

Record LineageEquivalenceAudit := mkEquivalenceAudit {
  ea_audit_id : string;
  equivalent : bool;
  total_entries : nat;
  reference_topology_hash : option string;
  divergent_entry_ids : list string;
  divergent_count : nat
}.

Record LineageRepairDiagnostic := mkRepair {
  lr_diagnostic_id : string;
  lr_affected : string;
  lr_class : RepairClass;
  lr_repairable : bool;
  lr_detail : string
}.

Record LineageReconstructionValidation := mkReconstruction {
  validation_id : string;
  rv_continuity_id : string;
  reconstructable : bool;
  reconstruction_hash : option string;
  expected_hash : string;
  rv_failure_reason : option string
}.

Record LineageDriftClassification := mkClassification {
  classification_id : string;
  cl_drift_class : ClosureDriftClass;
  cl_affected : option string;
  cl_severity : severity;
  cl_detail : string
}.

Record ContinuityLineageClosureVerification := mkClosure {
  closure_id : string;
  closure_result : ContinuityClosureResult;
  lineage_topology_hash : string;
  cv_entry_count : nat;
  traversal_results : list AncestryTraversalResult;
  detached_ids : list string;
  collapsed_subtrees : list CollapsedSubtree;
  equivalence_audit : LineageEquivalenceAudit;
  cv_repair_diagnostics : list LineageRepairDiagnostic;
  reconstruction_validations : list LineageReconstructionValidation;
  drift_classifications : list LineageDriftClassification
}.

Definition SYSTEM_MAX_ANCESTRY_DEPTH : nat := 32.

Section Closure.
Context (date_parse : string → option Z) (date_now : Z).
Context (locale_leb : string → string → bool).

Abbreviation isRevokedOrExpired := (LineageGraph.isRevokedOrExpired date_parse date_now).

Definition isExpiredOnly (e : LineageEntry) : bool :=
  if negb (isActiveStatus (status e)) || present (revoked_at e) then false
  else expired date_parse date_now e.

(** The queue is emptied within the fuel, one read for every child not yet read
    ([collect_spec]). *)
Definition collectSubtree (startId : string) (childrenMap : list (string * list string)) :
    list string :=
  default [] (collect childrenMap (S (unread childrenMap ∅)) ∅ [] [startId]).

Definition computeClosureTopologyHash (es : list LineageEntry) : string :=
  hashCanonical (JArr (map (λ e, JObj
    [("continuity_hash", JStr (continuity_hash e)); ("continuity_id", JStr (continuity_id e));
     ("identity_id", opt_str (identity_id e));
     ("parent_continuity_id", opt_str (parent_continuity_id e));
     ("session_id", JStr (session_id e)); ("status", JStr (status e))])
    (sort_by (λ a b, locale_leb (continuity_id a) (continuity_id b)) es))).

(** * Traversal *)

(** The chain and the failure, [None] once the walk is complete. The chain so far
    also is the set of visited identifiers. *)
Fixpoint ancestry_loop (idx : index) (maxDepth fuel : nat) (current : string)
    (chain : list string) : option (list string * option AncestryFailureReason) :=
  match fuel with
  | O => None
  | S fuel =>
      if str_in current chain then Some (chain, Some ANCESTRY_CYCLE_DETECTED)
      else
        let chain := chain ++ [current] in
        if Nat.ltb maxDepth (length chain) then Some (chain, Some ANCESTRY_DEPTH_EXCEEDED)
        else
          match map_get current idx with
          | None => Some (chain, if Nat.ltb 1 (length chain) then Some DETACHED_LINEAGE else None)
          | Some node =>
              if isRevokedOrExpired node then
                Some (chain, Some (if isExpiredOnly node then EXPIRED_ANCESTOR else REVOKED_ANCESTOR))
              else
                let parentId := parent_id node in
                if is_empty_str parentId then Some (chain, None)
                else ancestry_loop idx maxDepth fuel parentId chain
          end
  end.

(** [outcome] in the payload of the traversal identifier. *)
Definition outcome_str (r : option AncestryFailureReason) : string :=
  match r with
  | None => "ok"
  | Some ANCESTRY_CYCLE_DETECTED => "cycle"
  | Some ANCESTRY_DEPTH_EXCEEDED => "depth"
  | Some DETACHED_LINEAGE => "detached"
  | Some r => reason_str r
  end.

Definition traversal_result (startId : string) (chain : list string)
    (reason : option AncestryFailureReason) : AncestryTraversalResult :=
  mkTraversal
    (hashCanonical (JObj [("outcome", JStr (outcome_str reason)); ("start", JStr startId);
      ("chain", strs chain)]))
    startId (match reason with None => true | Some _ => false end) reason (length chain)
    (match reason with None => last chain | Some _ => None end) chain
    (hashCanonical (JObj [("chain", strs chain);
      match reason with
      | None => ("ok", JBool true)
      | Some r => ("failure", JStr (reason_str r))
      end])).

(** An empty start identifier is not walked from. *)
Definition traverseContinuityAncestry (startId : string) (idx : index) (maxDepth : nat) :
    AncestryTraversalResult :=
  let '(chain, reason) :=
    if is_empty_str startId then ([], None)
    else default ([], None) (ancestry_loop idx maxDepth (S (S (length idx))) startId []) in
  traversal_result startId chain reason.

Definition failed_for (f : AncestryFailureReason) (r : AncestryTraversalResult) : bool :=
  bool_decide (at_failure_reason r = Some f).

Definition detectDetachedContinuities (rs : list AncestryTraversalResult) : list string :=
  map start_continuity_id
    (List.filter (λ r, negb (at_ok r) && failed_for DETACHED_LINEAGE r) rs).

(** * Freshness *)
Definition stale_within (horizon : Z) (e : LineageEntry) : bool :=
  present (expires_at e) &&
  match date_parse (default EmptyString (expires_at e)) with
  | Some ms => (0 <? ms)%Z && (ms - date_now <? horizon)%Z
  | None => false
  end.

Definition enforceLineageFreshnessBarrier (chain : list string) (idx : index)
    (freshnessHorizonMs : Z) : bool * list string :=
  let staleIds := List.filter (λ id,
    match map_get id idx with
    | None => false
    | Some node => stale_within freshnessHorizonMs node
    end) chain in
  (Nat.eqb (length staleIds) 0, staleIds).

(** * Orphans *)
Definition subtree_of (id parentId : string) (affected : list string) : CollapsedSubtree :=
  let subtreePayload := JObj
    [("affected_ids", strs (sort_by str_leb affected)); ("missing_parent_id", JStr parentId);
     ("orphan_root_id", JStr id)] in
  mkSubtree (hashCanonical (JObj [("subtree", subtreePayload)])) id parentId
    (sort_by str_leb affected) (hashCanonical subtreePayload).

Definition collapseOrphanedSubtrees (es : list LineageEntry) (idx : index) :
    list CollapsedSubtree :=
  let childrenMap := buildChildrenMap es in
  omap (λ e,
    let parentId := parent_id e in
    if is_empty_str parentId || bool_decide (is_Some (map_get parentId idx)) then None
    else
      Some (subtree_of (continuity_id e) parentId (collectSubtree (continuity_id e) childrenMap)))
    es.

(** * Equivalence of the views *)
Definition add_hash (h : string) (hs : list string) : list string :=
  if str_in h hs then hs else hs ++ [h].

(** [hashSetByEntryId]. *)
Definition hash_sets (es : list LineageEntry) : list (string * list string) :=
  fold_left (λ m e,
    if is_empty_str (continuity_id e) then m
    else
      map_set (continuity_id e)
        (add_hash (continuity_hash e) (default [] (map_get (continuity_id e) m))) m) es [].

Definition auditLineageEquivalence (views : list RegistryView) : LineageEquivalenceAudit :=
  let sets := hash_sets (flat_map entries views) in
  let divergentIds :=
    map fst (List.filter (λ kh : string * list string, Nat.ltb 1 (length kh.2)) sets) in
  let equiv := Nat.eqb (length divergentIds) 0 in
  let reference := option_map registry_hash (head views) in
  mkEquivalenceAudit
    (hashCanonical (JObj
      [("divergent_count", jnat (length divergentIds));
       ("divergent_entry_ids", strs (sort_by str_leb divergentIds));
       ("equivalent", JBool equiv); ("reference_topology_hash", opt_str reference);
       ("total_entries", jnat (length sets))]))
    equiv (length sets) reference (sort_by str_leb divergentIds) (length divergentIds).

(** * Repair *)
Definition repair_of (r : AncestryTraversalResult) : RepairClass * bool * string :=
  let who := "continuity_id " +:+ start_continuity_id r in
  let depth := pretty (at_depth r) in
  match at_failure_reason r with
  | Some DETACHED_LINEAGE =>
      (FETCH_MISSING_ANCESTOR, true,
       who +:+ " has a detached ancestry chain at depth " +:+ depth
         +:+ "; fetch missing ancestor from other registry views")
  | Some ANCESTRY_CYCLE_DETECTED =>
      (LINEAGE_PERMANENTLY_INVALID, false,
       who +:+ " has a cycle in its ancestry chain at depth " +:+ depth
         +:+ "; lineage is permanently invalid")
  | Some ANCESTRY_DEPTH_EXCEEDED =>
      (REDUCE_ANCESTRY_DEPTH, true,
       who +:+ " ancestry depth " +:+ depth
         +:+ " exceeds configured maximum; reduce ancestry depth or increase the depth limit")
  | Some EXPIRED_ANCESTOR =>
      (REVOKE_EXPIRED_CHAIN, false,
       who +:+ " has an expired ancestor at depth " +:+ depth
         +:+ "; lineage requires a fresh continuity chain")
  | Some REVOKED_ANCESTOR =>
      (LINEAGE_PERMANENTLY_INVALID, false,
       who +:+ " has a revoked ancestor at depth " +:+ depth +:+ "; lineage is permanently invalid")
  | None =>
      (LINEAGE_PERMANENTLY_INVALID, false, who +:+ " has an unresolvable ancestry failure")
  end.

Definition traversal_repair (r : AncestryTraversalResult) (diagIndex : nat) :
    LineageRepairDiagnostic :=
  let '(cls, ok, detail) := repair_of r in
  mkRepair
    (hashCanonical (JObj [("affected_continuity_id", JStr (start_continuity_id r));
      ("index", jnat diagIndex); ("repair_class", JStr (repair_str cls))]))
    (start_continuity_id r) cls ok detail.

Definition subtree_repair (s : CollapsedSubtree) (diagIndex : nat) : LineageRepairDiagnostic :=
  mkRepair
    (hashCanonical (JObj [("index", jnat diagIndex);
      ("repair_class", JStr (repair_str FETCH_MISSING_ANCESTOR));
      ("subtree_id", JStr (subtree_id s))]))
    (orphan_root_id s) FETCH_MISSING_ANCESTOR true
    ("orphaned subtree rooted at " +:+ orphan_root_id s +:+ " references missing parent "
       +:+ missing_parent_id s +:+ "; affects " +:+ pretty (length (affected_ids s))
       +:+ " entries").

Definition computeLineageRepairDiagnostics (rs : list AncestryTraversalResult)
    (subtrees : list CollapsedSubtree) : list LineageRepairDiagnostic :=
  imap (λ i d, d i)
    (map traversal_repair (List.filter (λ r, negb (at_ok r)) rs) ++ map subtree_repair subtrees).

(** * Reconstruction *)
Definition reconstruction_of (byStart : list (string * AncestryTraversalResult)) (i : nat)
    (e : LineageEntry) : LineageReconstructionValidation :=
  let id := continuity_id e in
  let validationId := hashCanonical (JObj [("entry_id", JStr id); ("val_index", jnat i)]) in
  let failed reason :=
    mkReconstruction validationId id false None (continuity_hash e) (Some reason) in
  match map_get id byStart with
  | None => failed "no_traversal_result"
  | Some t =>
      if negb (at_ok t) then
        failed (default "no_traversal_result" (option_map reason_str (at_failure_reason t)))
      else
        mkReconstruction validationId id true
          (Some (hashCanonical (JObj [("ancestry_chain", strs (at_chain t));
            ("session_id", JStr (session_id e)); ("start_continuity_id", JStr id)])))
          (continuity_hash e) None
  end.

Definition validateLineageReconstructability (es : list LineageEntry)
    (rs : list AncestryTraversalResult) : list LineageReconstructionValidation :=
  imap (reconstruction_of (map_of start_continuity_id rs)) es.

(** * Drift *)
Definition drift_of (r : option AncestryFailureReason) : ClosureDriftClass * severity :=
  match r with
  | Some ANCESTRY_CYCLE_DETECTED => (ANCESTRY_CYCLE, fatal)
  | Some ANCESTRY_DEPTH_EXCEEDED => (ANCESTRY_DEPTH, fatal)
  | Some DETACHED_LINEAGE => (DETACHED_CONTINUITY, fatal)
  | Some REVOKED_ANCESTOR => (REVOKED_ANCESTOR_PROPAGATION, fatal)
  | Some EXPIRED_ANCESTOR => (FRESHNESS_CHAIN_VIOLATION, degraded)
  | None => (DETACHED_CONTINUITY, fatal)
  end.

Definition classifyLineageDrift (rs : list AncestryTraversalResult)
    (subtrees : list CollapsedSubtree) (audit : LineageEquivalenceAudit)
    (freshnessViolationIds : list string) (closureId : string) :
    list LineageDriftClassification :=
  imap (λ i '(cls, affected, sev, detail),
    mkClassification (hashCanonical (JObj [("class_index", jnat i);
      ("closure_id", JStr closureId)])) cls affected sev detail)
    (map (λ r,
        ((drift_of (at_failure_reason r)).1, Some (start_continuity_id r), (drift_of (at_failure_reason r)).2,
         "ancestry traversal failed: "
           +:+ default "null" (option_map reason_str (at_failure_reason r)) +:+ " at depth "
           +:+ pretty (at_depth r) +:+ " for continuity_id " +:+ start_continuity_id r))
       (List.filter (λ r, negb (at_ok r)) rs)
     ++ map (λ s, (ORPHANED_SUBTREE, Some (orphan_root_id s), fatal,
         "orphaned subtree: " +:+ pretty (length (affected_ids s))
           +:+ " entries cannot reach a valid root (missing parent " +:+ missing_parent_id s
           +:+ ")")) subtrees
     ++ (if equivalent audit then []
         else [(CROSS_REGISTRY_HASH_DIVERGENCE, None, fatal,
           pretty (divergent_count audit)
             +:+ " continuity entries have divergent hashes across registry views")])
     ++ map (λ id, (FRESHNESS_CHAIN_VIOLATION, Some id, degraded,
         "continuity_id " +:+ id +:+ " violates the freshness barrier in its ancestry chain"))
         (dedup [] freshnessViolationIds)).

(** * The verification *)
Definition buildNullClosure (closureId : string) : ContinuityLineageClosureVerification :=
  mkClosure closureId CLOSURE_NULL
    (hashCanonical (JObj [("closure_id", JStr closureId); ("null", JBool true)])) 0 [] [] []
    (mkEquivalenceAudit
      (hashCanonical (JObj [("closure_id", JStr closureId); ("null_audit", JBool true)]))
      false 0 None [] 0)
    [] [] [].

(** The identifier is trimmed; an entry without one is skipped. *)
Definition parse_entry (e : jsval) : option LineageEntry :=
  let id := js_trim (text (get e "continuity_id")) in
  if is_empty_str id then None
  else Some (entry_of id e (nullable_text (get e "identity_id"))).

(** A positive horizon, or none. *)
Definition horizon_of (v : jsval) : option Z :=
  match v with JNum (NInt z) => if (0 <? z)%Z then Some z else None | _ => None end.

Definition freshness_violations (rs : list AncestryTraversalResult) (idx : index)
    (freshnessHorizonMs : option Z) : list string :=
  match freshnessHorizonMs with
  | None => []
  | Some h =>
      dedup [] (flat_map (λ t,
        if at_ok t then (enforceLineageFreshnessBarrier (at_chain t) idx h).2 else []) rs)
  end.

Definition closure_result_of (rs : list AncestryTraversalResult) (detached : list string)
    (subtrees : list CollapsedSubtree) (audit : LineageEquivalenceAudit)
    (views : list RegistryView) : ContinuityClosureResult :=
  if existsb (failed_for ANCESTRY_CYCLE_DETECTED) rs then CLOSURE_BROKEN_CYCLE
  else if existsb (failed_for ANCESTRY_DEPTH_EXCEEDED) rs then CLOSURE_BROKEN_DEPTH
  else if Nat.ltb 0 (length detached) then CLOSURE_BROKEN_DETACHED
  else if Nat.ltb 0 (length subtrees) then CLOSURE_BROKEN_ORPHAN
  else if negb (equivalent audit) && Nat.ltb 1 (length views) then CLOSURE_PARTIAL_VISIBILITY
  else CLOSURE_VERIFIED.

(** What is computed once the views are parsed. *)
Definition verify_views (closureId : string) (safeInput : jsval) (views : list RegistryView) :
    ContinuityLineageClosureVerification :=
  let idx := allEntriesMap views in
  let allEntries := idx.*2 in
  let maxDepth := positive_or (get safeInput "max_ancestry_depth") SYSTEM_MAX_ANCESTRY_DEPTH in
  let results :=
    map (λ e, traverseContinuityAncestry (continuity_id e) idx maxDepth) allEntries in
  let detachedIds := detectDetachedContinuities results in
  let subtrees := collapseOrphanedSubtrees allEntries idx in
  let audit := auditLineageEquivalence views in
  let violations :=
    freshness_violations results idx (horizon_of (get safeInput "freshness_horizon_ms")) in
  mkClosure closureId (closure_result_of results detachedIds subtrees audit views)
    (computeClosureTopologyHash allEntries) (length allEntries) results detachedIds subtrees audit
    (computeLineageRepairDiagnostics results subtrees)
    (validateLineageReconstructability allEntries results)
    (classifyLineageDrift results subtrees audit violations closureId).

Definition verifyDistributedContinuityLineageClosure (input : jsval) :
    ContinuityLineageClosureVerification :=
  match read_input "closure_id" parse_entry input with
  | inl closureId => buildNullClosure closureId
  | inr (closureId, views) =>
      if Nat.eqb (length (allEntriesMap views)) 0 then buildNullClosure closureId
      else verify_views closureId (safeObj input) views
  end.
End Closure.

(** * Theorems: the traversal *)
Section Traversal.
Context (date_parse : string → option Z) (date_now : Z).

Abbreviation barriered := (LineageGraph.isRevokedOrExpired date_parse date_now).
Abbreviation traverse := (traverseContinuityAncestry date_parse date_now).

(** Where the walk goes from an identifier: to the parent that its entry names,
    unless the entry is revoked or expired. *)
Definition ancestry_up (idx : index) (x : string) : option string :=
  match map_get x idx with
  | None => None
  | Some e => if barriered e || is_empty_str (parent_id e) then None else Some (parent_id e)
  end.

Abbreviation climbs idx := (nsteps (upR (ancestry_up idx))).

(** What a walk that ended at the top reports. *)
Definition top_reason (idx : index) (chain : list string) (r : string) :
    option AncestryFailureReason :=
  match map_get r idx with
  | None => if Nat.ltb 1 (length chain) then Some DETACHED_LINEAGE else None
  | Some e =>
      if barriered e then
        Some (if isExpiredOnly date_parse date_now e then EXPIRED_ANCESTOR else REVOKED_ANCESTOR)
      else None
  end.

Definition end_reason (idx : index) (chain : list string) (e : climb_end) :
    option AncestryFailureReason :=
  match e with
  | Cycle => Some ANCESTRY_CYCLE_DETECTED
  | TooDeep => Some ANCESTRY_DEPTH_EXCEEDED
  | Top => top_reason idx chain (default EmptyString (last chain))
  end.

Lemma ancestry_loop_climb idx maxDepth fuel current chain :
  ancestry_loop date_parse date_now idx maxDepth fuel current chain
  = (λ ce, (ce.1, end_reason idx ce.1 ce.2)) <$>
      climb (ancestry_up idx) maxDepth fuel current chain.
Proof.
  revert current chain. induction fuel as [|fuel IH]; intros current chain; [done|].
  cbn [ancestry_loop climb]. destruct (str_in current chain); [done|].
  destruct (Nat.ltb maxDepth _); [done|].
  unfold ancestry_up at 1. destruct (map_get current idx) as [e|] eqn:Ee.
  - destruct (barriered e) eqn:Eb; cbn [orb].
    + cbn. by rewrite last_snoc; cbn; unfold top_reason; rewrite Ee, Eb.
    + destruct (is_empty_str (parent_id e)); [|apply IH].
      cbn. by rewrite last_snoc; cbn; unfold top_reason; rewrite Ee, Eb.
  - cbn. by rewrite last_snoc; cbn; unfold top_reason; rewrite Ee.
Qed.

Definition keys_of (idx : index) : gset string := list_to_set idx.*1.

Lemma ancestry_up_key idx x p : ancestry_up idx x = Some p → x ∈ keys_of idx.
Proof.
  unfold ancestry_up, keys_of. destruct (map_get x idx) as [e|] eqn:Ee; [intros _|done].
  apply elem_of_list_to_set. apply map_get_elem in Ee. by apply (list_elem_of_fmap_2 fst) in Ee.
Qed.

Lemma size_keys idx : size (keys_of idx) ≤ length idx.
Proof.
  unfold keys_of. rewrite <- (length_fmap fst idx). generalize (idx.*1). intros l.
  induction l as [|x l IH]; [done|]. rewrite list_to_set_cons.
  rewrite size_union_alt, size_singleton. cbn.
  assert (size (list_to_set l ∖ {[x]} : gset string) ≤ size (list_to_set l : gset string))
    by (apply subseteq_size; set_solver). lia.
Qed.

(** The traversal is the climb, and the fuel is enough. *)
Lemma traverse_climb idx start maxDepth :
  start ≠ EmptyString →
  ∃ chain e, climb_outcome (ancestry_up idx) start maxDepth chain e
    ∧ traverse start idx maxDepth = traversal_result start chain (end_reason idx chain e).
Proof.
  intros Hne. unfold traverseContinuityAncestry, is_empty_str.
  destruct (String.eqb_spec start EmptyString) as [|_]; [done|].
  destruct (climb_result (ancestry_up idx) (keys_of idx) start maxDepth (S (S (length idx))))
    as (chain & e & Hc & Ho); [apply ancestry_up_key|pose proof (size_keys idx); lia|].
  exists chain, e. split; [done|]. by rewrite ancestry_loop_climb, Hc.
Qed.

(** The walk cannot go on from an entry that is revoked or expired, or has no
    parent. *)
Definition settled (idx : index) (a : string) : Prop :=
  ∃ e, map_get a idx = Some e ∧ (barriered e = true ∨ parent_id e = EmptyString).

Lemma up_none idx a : ancestry_up idx a = None ↔ map_get a idx = None ∨ settled idx a.
Proof.
  unfold ancestry_up, settled, is_empty_str. destruct (map_get a idx) as [e|]; [|naive_solver].
  destruct (barriered e) eqn:Eb, (String.eqb_spec (parent_id e) EmptyString) as [Ep|Ep]; cbn;
    (split; [try done; intros _; right; eauto|intros [?|(e' & [= <-] & [?|?])]; try done; congruence]).
Qed.

Lemma top_reason_cases idx chain r :
  top_reason idx chain r ≠ Some ANCESTRY_CYCLE_DETECTED
  ∧ top_reason idx chain r ≠ Some ANCESTRY_DEPTH_EXCEEDED
  ∧ (top_reason idx chain r = Some DETACHED_LINEAGE ↔
       map_get r idx = None ∧ 1 < length chain).
Proof.
  unfold top_reason. destruct (map_get r idx) as [e|].
  - destruct (barriered e), (isExpiredOnly date_parse date_now e); naive_solver.
  - destruct (Nat.ltb_spec 1 (length chain)); split_and!; try done; split; try done.
    intros [_ ?]. lia.
Qed.

(** The ancestry traversal decides the walk up the lineage. It ends, with a
    chain of distinct identifiers that follows the parents from the start. Its
    failure is a cycle or the depth exactly when no end of the walk lies within
    the bound: a reported cycle is one, and the depth is reported after that many
    steps. Otherwise the walk ends at an identifier [n] steps up, and the outcome
    is told by its entry: none at all is a detached lineage unless the walk has
    just started, a revoked or expired one fails for that reason, and any other
    is a root and the traversal succeeds. *)
Theorem traversal_decides idx start maxDepth :
  start ≠ EmptyString →
  let r := traverse start idx maxDepth in
  NoDup (at_chain r) ∧ follows (ancestry_up idx) start (at_chain r)
  ∧ at_depth r = length (at_chain r) ∧ at_depth r ≤ S maxDepth
  ∧ ((at_failure_reason r = Some ANCESTRY_CYCLE_DETECTED
      ∨ at_failure_reason r = Some ANCESTRY_DEPTH_EXCEEDED) ↔
     ¬ ∃ n a, n < maxDepth ∧ climbs idx n start a ∧ ancestry_up idx a = None)
  ∧ (at_failure_reason r = Some ANCESTRY_CYCLE_DETECTED →
     ∃ j k a, j < k ∧ climbs idx j start a ∧ climbs idx k start a)
  ∧ (at_failure_reason r = Some ANCESTRY_DEPTH_EXCEEDED → ∃ a, climbs idx maxDepth start a)
  ∧ ∀ n a, n < maxDepth → climbs idx n start a → ancestry_up idx a = None →
      at_depth r = S n ∧ last (at_chain r) = Some a
      ∧ at_failure_reason r =
          match map_get a idx with
          | None => if Nat.ltb 0 n then Some DETACHED_LINEAGE else None
          | Some e =>
              if barriered e then
                Some (if isExpiredOnly date_parse date_now e then EXPIRED_ANCESTOR
                      else REVOKED_ANCESTOR)
              else None
          end.
Proof.
  intros Hne. cbn zeta. destruct (traverse_climb idx start maxDepth Hne) as (chain & e & Ho & ->).
  cbn. pose proof (climb_top _ _ _ _ _ Ho) as Htop. pose proof Ho as (Hnd & _ & Hf & He).
  split; [done|]. split; [done|]. split; [done|].
  split; [destruct e; [lia|lia|destruct He as [? _]; lia]|].
  split; [|split; [|split]].
  - rewrite <- Htop. destruct e; cbn; [naive_solver..|].
    destruct (top_reason_cases idx chain (default EmptyString (last chain))) as (? & ? & _).
    naive_solver.
  - destruct e; cbn; [intros _|done|by intros ?%top_reason_cases].
    destruct He as (_ & y & [i Hi]%list_elem_of_lookup & Hy). exists i, (length chain), y.
    split; [by eapply lookup_lt_Some|]. split; [by apply Hf|done].
  - destruct e; cbn; [done|intros _|by intros ?%top_reason_cases].
    destruct (climb_last _ _ _ _ _ Ho) as (n & r & En & _ & Hn).
    exists r. by replace maxDepth with n by lia.
  - intros n a Hn Ha Hno.
    destruct (proj2 (climb_top_iff _ _ _ _ _ n a Ho)) as (-> & El & Ea); [done|].
    split; [done|]. split; [done|]. cbn. rewrite Ea. cbn. unfold top_reason. rewrite El.
    by destruct n.
Qed.
End Traversal.

(** * Theorems: orphans *)
Lemma buildChildrenMap_NoDup es : NoDup (buildChildrenMap es).*1.
Proof.
  unfold buildChildrenMap. induction es as [|e l IH] using rev_ind; [constructor|].
  rewrite fold_left_app. cbn [fold_left]. unfold add_child at 1.
  destruct (is_empty_str _); [done|]. by apply map_set_NoDup.
Qed.

Lemma collectSubtree_spec es root :
  NoDup (collectSubtree root (buildChildrenMap es))
  ∧ ∀ x, x ∈ collectSubtree root (buildChildrenMap es) ↔ rtc (child es) root x.
Proof.
  unfold collectSubtree.
  destruct (collect_spec _ (buildChildrenMap_NoDup es) _ root (le_n _)) as (l & -> & Hnd & Hl).
  split; [done|]. intros x. cbn. rewrite Hl. apply rtc_ext. intros p c. apply elem_of_children.
Qed.

Lemma collapsed_elem es idx s :
  s ∈ collapseOrphanedSubtrees es idx ↔
  ∃ e, e ∈ es ∧ parent_id e ≠ EmptyString ∧ map_get (parent_id e) idx = None
    ∧ s = subtree_of (continuity_id e) (parent_id e)
            (collectSubtree (continuity_id e) (buildChildrenMap es)).
Proof.
  unfold collapseOrphanedSubtrees. rewrite list_elem_of_omap.
  split; intros (e & He & H); exists e; (split; [done|]).
  - unfold is_empty_str in H. destruct (String.eqb_spec (parent_id e) EmptyString); [done|].
    destruct (map_get (parent_id e) idx) eqn:Ep; [done|]. cbn in H. by injection H as <-.
  - destruct H as (Hp & -> & ->). unfold is_empty_str.
    by destruct (String.eqb_spec (parent_id e) EmptyString).
Qed.

(** The collapsed subtrees are exactly the orphans, each with everything below
    it. There is one for each entry that names a parent the registries do not
    hold, and it lists, sorted and once each, the identifiers reachable from the
    orphan through the children, whatever cycles they contain. *)
Theorem subtrees_exact es idx :
  (∀ e, e ∈ es → parent_id e ≠ EmptyString → map_get (parent_id e) idx = None →
    ∃ s, s ∈ collapseOrphanedSubtrees es idx ∧ orphan_root_id s = continuity_id e
      ∧ missing_parent_id s = parent_id e)
  ∧ ∀ s, s ∈ collapseOrphanedSubtrees es idx →
      (∃ e, e ∈ es ∧ orphan_root_id s = continuity_id e ∧ missing_parent_id s = parent_id e
        ∧ parent_id e ≠ EmptyString ∧ map_get (parent_id e) idx = None)
      ∧ NoDup (affected_ids s) ∧ StronglySorted (leR str_leb) (affected_ids s)
      ∧ ∀ x, x ∈ affected_ids s ↔ rtc (child es) (orphan_root_id s) x.
Proof.
  split.
  - intros e He Hp Hm. eexists. split; [apply collapsed_elem; eauto|done].
  - intros s (e & He & Hp & Hm & ->)%collapsed_elem. cbn.
    destruct (collectSubtree_spec es (continuity_id e)) as [Hnd Hx].
    split; [eauto 6|]. split; [by rewrite sort_by_perm|]. split.
    + apply sort_by_sorted; auto with js. intros ?? ? ?. by eapply str_leb_trans.
    + intros x. by rewrite elem_of_sort_by.
Qed.

(** * Theorems: equivalence *)
Section HashSets.
Lemma add_hash_elem h hs x : x ∈ add_hash h hs ↔ x ∈ hs ∨ x = h.
Proof.
  unfold add_hash. destruct (str_in h hs) eqn:E; [|set_solver].
  apply str_in_elem in E. set_solver.
Qed.

Lemma add_hash_NoDup h hs : NoDup hs → NoDup (add_hash h hs).
Proof.
  unfold add_hash. destruct (str_in h hs) eqn:E; [done|]. intros Hnd.
  assert (h ∉ hs) by (rewrite <- str_in_elem; congruence).
  apply NoDup_app. split; [done|]. split; [set_solver|apply NoDup_singleton].
Qed.

Lemma hash_sets_spec es :
  NoDup (hash_sets es).*1
  ∧ (∀ k, NoDup (default [] (map_get k (hash_sets es))))
  ∧ ∀ k h, h ∈ default [] (map_get k (hash_sets es)) ↔
      ∃ e, e ∈ es ∧ continuity_id e = k ∧ k ≠ EmptyString ∧ continuity_hash e = h.
Proof.
  unfold hash_sets. induction es as [|e l (IH1 & IH2 & IH3)] using rev_ind.
  { split; [constructor|]. split; [constructor|]. intros k h. cbn. set_solver. }
  rewrite fold_left_app. cbn [fold_left]. set (m := fold_left _ l []) in *.
  unfold is_empty_str. destruct (String.eqb_spec (continuity_id e) EmptyString) as [E|E].
  { split; [done|]. split; [done|]. intros k h. rewrite IH3. split.
    - intros (x & Hx & ?). exists x. set_solver.
    - intros (x & [Hx| ->%list_elem_of_singleton]%elem_of_app & ?); [by exists x|naive_solver]. }
  split; [by apply map_set_NoDup|]. split.
  - intros k. rewrite map_get_set. destruct (decide _); [by apply add_hash_NoDup|done].
  - intros k h. rewrite map_get_set. destruct (decide (k = continuity_id e)) as [->|Hne].
    + cbn. rewrite add_hash_elem, IH3. split.
      * intros [(x & Hx & ?)| ->]; [exists x|exists e]; set_solver.
      * intros (x & [Hx| ->%list_elem_of_singleton]%elem_of_app & ? & ? & <-); [left; by exists x|].
        by right.
    + rewrite IH3. split.
      * intros (x & Hx & ?). exists x. set_solver.
      * intros (x & [Hx| ->%list_elem_of_singleton]%elem_of_app & ?); [by exists x|naive_solver].
Qed.

Lemma equivalent_iff views :
  equivalent (auditLineageEquivalence views) = true ↔
  ∀ e f, e ∈ flat_map entries views → f ∈ flat_map entries views →
    continuity_id e = continuity_id f → continuity_id e ≠ EmptyString →
    continuity_hash e = continuity_hash f.
Proof.
  unfold auditLineageEquivalence. cbn [equivalent].
  destruct (hash_sets_spec (flat_map entries views)) as (Hnd & Hnds & Hh).
  set (sets := hash_sets (flat_map entries views)) in *.
  rewrite Nat.eqb_eq, length_map. split.
  - intros Hl e f He Hf Ee Hne.
    assert (continuity_hash e ∈ default [] (map_get (continuity_id e) sets)) as H1
      by (apply Hh; eauto).
    assert (continuity_hash f ∈ default [] (map_get (continuity_id e) sets)) as H2
      by (apply Hh; exists f; auto).
    destruct (map_get (continuity_id e) sets) as [hs|] eqn:Eg; [|by apply elem_of_nil in H1].
    cbn in H1, H2. apply map_get_elem in Eg. apply nil_length_inv in Hl.
    assert (length hs ≤ 1) as Hle.
    { destruct (Nat.ltb 1 (length hs)) eqn:Elt; [|by apply Nat.ltb_ge in Elt].
      assert ((continuity_id e, hs) ∈
        List.filter (λ kh : string * list string, Nat.ltb 1 (length kh.2)) sets) as Hin.
      { apply list_elem_of_In, List.filter_In. split; [by apply list_elem_of_In|done]. }
      rewrite Hl in Hin. by apply elem_of_nil in Hin. }
    destruct hs as [|h [|h' hs]]; cbn in Hle; [by apply elem_of_nil in H1| |lia].
    apply list_elem_of_singleton in H1, H2. congruence.
  - intros Hall. destruct (List.filter _ sets) as [|[k hs] l] eqn:Ef; [done|exfalso].
    assert (In (k, hs) ((k, hs) :: l)) as Hin by (by left). rewrite <- Ef in Hin.
    apply List.filter_In in Hin as [Hin Hlt]. apply Nat.ltb_lt in Hlt. cbn in Hlt.
    apply list_elem_of_In, map_get_iff in Hin; [|done].
    pose proof (Hnds k) as Hk. specialize (Hh k). rewrite Hin in Hk, Hh. cbn in Hk, Hh.
    destruct hs as [|h [|h' hs]]; cbn in Hlt; [lia|lia|].
    apply NoDup_cons in Hk as [Hni _]. apply Hni.
    destruct (proj1 (Hh h)) as (e & He & Ee & Hne & <-); [by left|].
    destruct (proj1 (Hh h')) as (f & Hf & Ff & _ & <-); [right; by left|].
    rewrite (Hall e f) by congruence. by left.
Qed.
End HashSets.

(** * Theorems: the verdict *)
Section Verdict.
Context (date_parse : string → option Z) (date_now : Z).
Context (locale_leb : string → string → bool).

Abbreviation barriered := (LineageGraph.isRevokedOrExpired date_parse date_now).
Abbreviation traverse := (traverseContinuityAncestry date_parse date_now).
Abbreviation up := (ancestry_up date_parse date_now).
Abbreviation verify := (verifyDistributedContinuityLineageClosure date_parse date_now locale_leb).
Abbreviation accepted := (LineageGraph.accepted "closure_id" parse_entry).

Lemma no_failure f rs :
  existsb (failed_for f) rs = false ↔ ∀ r, r ∈ rs → at_failure_reason r ≠ Some f.
Proof.
  rewrite existsb_false. unfold failed_for. by setoid_rewrite bool_decide_eq_false.
Qed.

Lemma no_detached rs :
  (∀ r, r ∈ rs → at_ok r = bool_decide (at_failure_reason r = None)) →
  (∀ x, x ∉ detectDetachedContinuities rs) ↔
  ∀ r, r ∈ rs → at_failure_reason r ≠ Some DETACHED_LINEAGE.
Proof.
  intros Hok. unfold detectDetachedContinuities. split.
  - intros H r Hr Hf. apply (H (start_continuity_id r)), elem_of_map. exists r. split; [|done].
    apply list_elem_of_In, List.filter_In. split; [by apply list_elem_of_In|].
    unfold failed_for. by rewrite Hok, Hf.
  - intros H x (r & Hr & _)%elem_of_map. apply list_elem_of_In, List.filter_In in Hr as [Hr Hf].
    apply list_elem_of_In in Hr. apply andb_true_iff in Hf as [_ Hf]. unfold failed_for in Hf.
    apply bool_decide_eq_true in Hf. by apply (H r Hr).
Qed.

Lemma traverse_ok start idx n :
  at_ok (traverse start idx n)
  = bool_decide (at_failure_reason (traverse start idx n) = None).
Proof.
  unfold traverseContinuityAncestry. destruct (if is_empty_str start then _ else _) as [c o].
  cbn. by destruct o.
Qed.

Lemma none_or_elem {A} (l : list A) : Nat.ltb 0 (length l) = false ↔ ∀ x, x ∉ l.
Proof.
  destruct l as [|x l]; [|change (Nat.ltb 0 _) with true; split; [done|]].
  - split; [|done]. intros _ x Hx. by apply elem_of_nil in Hx.
  - intros H. destruct (H x). by left.
Qed.

Lemma verified_steps rs detached subtrees audit views :
  closure_result_of rs detached subtrees audit views = CLOSURE_VERIFIED ↔
  (∀ r, r ∈ rs → at_failure_reason r ≠ Some ANCESTRY_CYCLE_DETECTED)
  ∧ (∀ r, r ∈ rs → at_failure_reason r ≠ Some ANCESTRY_DEPTH_EXCEEDED)
  ∧ (∀ x, x ∉ detached) ∧ (∀ s, s ∉ subtrees)
  ∧ (length views ≤ 1 ∨ equivalent audit = true).
Proof.
  unfold closure_result_of. rewrite <- !no_failure, <- !none_or_elem.
  do 2 (destruct (existsb _ rs); [naive_solver|]).
  do 2 (destruct (Nat.ltb 0 _); [naive_solver|]).
  destruct (equivalent audit); cbn [negb andb]; [naive_solver|].
  destruct (Nat.ltb_spec 1 (length views)) as [Hv|Hv].
  - split; [done|]. intros (_ & _ & _ & _ & [?|?]); [lia|done].
  - naive_solver.
Qed.

Lemma orphans_none idx :
  (∀ s, s ∉ collapseOrphanedSubtrees idx.*2 idx) ↔
  ∀ e, e ∈ idx.*2 → parent_id e = EmptyString ∨ is_Some (map_get (parent_id e) idx).
Proof.
  split.
  - intros Hno e He. destruct (decide (parent_id e = EmptyString)); [by left|right].
    destruct (map_get (parent_id e) idx) as [p|] eqn:Ep; [by eexists|].
    edestruct Hno. apply collapsed_elem. eauto.
  - intros Hall s (e & He & Hp & Hm & _)%collapsed_elem. destruct (Hall e He) as [?|[p ?]];
      congruence.
Qed.

(** A walk from an entry that ends without detachment ends at an entry. *)
Lemma settled_iff idx start n :
  start ≠ EmptyString → is_Some (map_get start idx) →
  (at_failure_reason (traverse start idx n) ≠ Some ANCESTRY_CYCLE_DETECTED
   ∧ at_failure_reason (traverse start idx n) ≠ Some ANCESTRY_DEPTH_EXCEEDED
   ∧ at_failure_reason (traverse start idx n) ≠ Some DETACHED_LINEAGE) ↔
  ∃ k a, k < n ∧ nsteps (upR (up idx)) k start a ∧ settled date_parse date_now idx a.
Proof.
  intros Hne Hin. destruct (traverse_climb date_parse date_now idx start n Hne)
    as (chain & e & Ho & ->). cbn [at_failure_reason traversal_result].
  pose proof (climb_top _ _ _ _ _ Ho) as Htop.
  destruct (climb_last _ _ _ _ _ Ho) as (m & r & Em & Er & Hm).
  assert (e = Top → at_failure_reason (traversal_result start chain
      (end_reason date_parse date_now idx chain e)) ≠ Some DETACHED_LINEAGE ↔
    settled date_parse date_now idx r) as Hd.
  { intros ->. cbn. rewrite Er. cbn.
    destruct (top_reason_cases date_parse date_now idx chain r) as (_ & _ & ->).
    destruct Ho as (_ & _ & _ & _ & r' & Er' & Hu). rewrite Er in Er'. injection Er' as <-.
    apply up_none in Hu as [Hr|Hr]; [|destruct Hr as (x & Hx & ?); rewrite Hx; split;
      [intros _; by exists x|by intros _ [? _]]].
    rewrite Hr. split; [|intros (x & ? & _); congruence]. intros Hl. exfalso. apply Hl.
    split; [done|]. destruct m as [|m]; [|lia]. inversion Hm; subst. by rewrite Hr in Hin; destruct Hin. }
  split.
  - intros (H1 & H2 & H3). destruct e; cbn in *; [done|done|].
    exists m, r. apply (climb_top_iff _ _ _ _ _ m r) in Ho as [Ho _].
    destruct Ho as (? & ? & ?); [done|]. split; [done|]. split; [done|]. by apply Hd.
  - intros (k & a & Hk & Ha & Hs).
    assert (up idx a = None) as Hu by (apply up_none; by right).
    destruct (proj2 (climb_top_iff _ _ _ _ _ k a Ho)) as (-> & _ & El); [done|].
    assert (r = a) as -> by congruence. cbn. rewrite Er. cbn.
    destruct (top_reason_cases date_parse date_now idx chain a) as (? & ? & _).
    split; [done|]. split; [done|]. specialize (Hd eq_refl). cbn in Hd. rewrite Er in Hd.
    by apply Hd.
Qed.

Lemma accepted_id input views e :
  accepted input views → e ∈ flat_map entries views → continuity_id e ≠ EmptyString.
Proof.
  intros [(_ & _ & _ & Hp & _) _] He. destruct (parse_views_elem _ _ _ _ Hp He) as [r Hr].
  unfold parse_entry, is_empty_str in Hr.
  by destruct (String.eqb_spec (js_trim (text (get r "continuity_id"))) EmptyString); simplify_eq.
Qed.

(** What a verified closure certifies. The result is CLOSURE_VERIFIED exactly
    when the input is accepted, the ancestry of every entry gets within the depth
    bound to an entry where it ends (a root, or a revoked or expired ancestor),
    every parent that an entry names is held by some registry, and several views
    never claim two hashes for one identifier. *)
Theorem closure_verified_iff input :
  closure_result (verify input) = CLOSURE_VERIFIED ↔
  ∃ views, accepted input views ∧
    let idx := allEntriesMap views in
    let depth := positive_or (get (safeObj input) "max_ancestry_depth") SYSTEM_MAX_ANCESTRY_DEPTH in
    (∀ e, e ∈ idx.*2 → ∃ k a, k < depth ∧ nsteps (upR (up idx)) k (continuity_id e) a
       ∧ settled date_parse date_now idx a)
    ∧ (∀ e, e ∈ idx.*2 → parent_id e = EmptyString ∨ is_Some (map_get (parent_id e) idx))
    ∧ (length views ≤ 1 ∨ ∀ e f, e ∈ flat_map entries views → f ∈ flat_map entries views →
         continuity_id e = continuity_id f → continuity_hash e = continuity_hash f).
Proof.
  unfold verifyDistributedContinuityLineageClosure.
  destruct (run_accepted "closure_id" parse_entry buildNullClosure
    (λ cid, verify_views date_parse date_now locale_leb cid (safeObj input)) input)
    as [(cid & views & Ha & ->)|[[cid ->] Hno]];
    [|split; [done|]; intros (views & Ha & _); by destruct (Hno views)].
  transitivity (let idx := allEntriesMap views in
    let depth := positive_or (get (safeObj input) "max_ancestry_depth") SYSTEM_MAX_ANCESTRY_DEPTH in
    (∀ e, e ∈ idx.*2 → ∃ k a, k < depth ∧ nsteps (upR (up idx)) k (continuity_id e) a
       ∧ settled date_parse date_now idx a)
    ∧ (∀ e, e ∈ idx.*2 → parent_id e = EmptyString ∨ is_Some (map_get (parent_id e) idx))
    ∧ (length views ≤ 1 ∨ ∀ e f, e ∈ flat_map entries views → f ∈ flat_map entries views →
         continuity_id e = continuity_id f → continuity_hash e = continuity_hash f)).
  2:{ split; [eauto|]. intros (views' & Ha' & H).
      by rewrite (admitted_unique _ _ _ _ _ (proj1 Ha) (proj1 Ha')). }
  cbv zeta. unfold verify_views. cbn [closure_result]. rewrite verified_steps, equivalent_iff.
  set (idx := allEntriesMap views). set (depth := positive_or _ _). rewrite orphans_none.
  assert (∀ e, e ∈ idx.*2 → continuity_id e ≠ EmptyString ∧ is_Some (map_get (continuity_id e) idx))
    as Hid.
  { intros e He. split; [eapply accepted_id; [done|by apply (map_of_elem continuity_id)]|].
    exists e. apply (indexed_value continuity_id); [apply indexed_map_of|done]. }
  assert ((∀ e, e ∈ idx.*2 → ∃ k a, k < depth ∧ nsteps (upR (up idx)) k (continuity_id e) a
       ∧ settled date_parse date_now idx a) ↔
    ∀ e, e ∈ idx.*2 → let r := at_failure_reason (traverse (continuity_id e) idx depth) in
      r ≠ Some ANCESTRY_CYCLE_DETECTED ∧ r ≠ Some ANCESTRY_DEPTH_EXCEEDED
      ∧ r ≠ Some DETACHED_LINEAGE) as ->.
  { split; intros H e He; cbv zeta; apply (settled_iff idx (continuity_id e) depth);
      try apply (Hid e He); by apply H. }
  assert (∀ P : LineageEntry → LineageEntry → Prop,
    (∀ e f, e ∈ flat_map entries views → f ∈ flat_map entries views →
       continuity_id e = continuity_id f → continuity_id e ≠ EmptyString → P e f) ↔
    (∀ e f, e ∈ flat_map entries views → f ∈ flat_map entries views →
       continuity_id e = continuity_id f → P e f)) as ->.
  { intros P. split; [|naive_solver]. intros H e f He Hf E. apply H; try done.
    by eapply accepted_id. }
  rewrite no_detached by (intros r (x & _ & ->)%elem_of_map; apply traverse_ok).
  split.
  - intros (H1 & H2 & H3 & H4 & H5). split; [|done]. intros e He.
    split_and!; [apply H1|apply H2|apply H3]; apply elem_of_map; eauto.
  - intros (H1 & H4 & H5).
    do 3 (split; [intros r (e & He & ->)%elem_of_map; by apply H1|]). done.
Qed.
End Verdict.

(** * Theorems: agreement with the revocation propagation *)
Section Agreement.
Context (date_parse : string → option Z) (date_now : Z).

Abbreviation barriered := (LineageGraph.isRevokedOrExpired date_parse date_now).
Abbreviation traverse := (traverseContinuityAncestry date_parse date_now).
Abbreviation up := (ancestry_up date_parse date_now).
Abbreviation barrier := (RevocationPropagation.barrier date_parse date_now).

Lemma up_child idx x y : indexed continuity_id idx → up idx x = Some y → child idx.*2 y x.
Proof.
  intros Hidx. unfold ancestry_up, is_empty_str. destruct (map_get x idx) as [e|] eqn:Ee; [|done].
  destruct (barriered e); [done|]. cbn.
  destruct (String.eqb_spec (parent_id e) EmptyString) as [|Hp]; [done|]. intros [= <-].
  apply child_parent; eauto.
Qed.

Lemma climbs_below idx n x a :
  indexed continuity_id idx → nsteps (upR (up idx)) n x a → nsteps (child idx.*2) n a x.
Proof.
  intros Hidx. induction 1 as [|n x y z Hxy _ IH]; [constructor|].
  eapply nsteps_r; [done|]. by apply up_child.
Qed.

(** Below a barriered entry, a walk that ends has met one. *)
Lemma climb_below_barrier idx n k x a r :
  indexed continuity_id idx → nsteps (child idx.*2) k a x → barrier idx a →
  nsteps (upR (up idx)) n x r → up idx r = None → barrier idx r.
Proof.
  intros Hidx. revert k x. induction n as [|n IH]; intros k x Hk Ha Hn Hr.
  - inversion Hn; subst. destruct k as [|k]; [by inversion Hk; subst|].
    apply nsteps_inv_r in Hk as (p & _ & Hp).
    apply (child_parent idx Hidx) in Hp as (e & He & Ep & Hne).
    apply up_none in Hr as [?|(e' & He' & [Hb|?])]; [congruence|by exists e'|congruence].
  - inversion Hn as [|? ? y ? Hxy Hy]; subst. destruct k as [|k].
    + inversion Hk; subst. destruct Ha as (e & He & Hb). unfold upR, ancestry_up in Hxy.
      by rewrite He, Hb in Hxy.
    + apply nsteps_inv_r in Hk as (p & Hk & Hp). unfold upR in Hxy.
      apply (up_child _ _ _ Hidx) in Hxy.
      assert (p = y) as -> by (eapply child_parent_unique; [by apply indexed_keys_NoDup|done|done]).
      by eapply IH.
Qed.

(** The closure and the revocation propagation agree on revoked lineage. For
    an entry that is itself neither revoked nor expired and whose ancestry
    traversal meets no cycle and does not exceed the depth, the traversal fails
    for a revoked or expired ancestor exactly when the propagation collapses the
    entry as an active descendant of a revoked root. *)
Theorem traversal_agrees_with_collapse idx e maxDepth :
  indexed continuity_id idx → e ∈ idx.*2 → continuity_id e ≠ EmptyString →
  barriered e = false →
  let reason := at_failure_reason (traverse (continuity_id e) idx maxDepth) in
  reason ≠ Some ANCESTRY_CYCLE_DETECTED → reason ≠ Some ANCESTRY_DEPTH_EXCEEDED →
  (reason = Some REVOKED_ANCESTOR ∨ reason = Some EXPIRED_ANCESTOR) ↔
  ∃ c, c ∈ enforceStaleLineageCollapse date_parse date_now idx.*2 idx
    ∧ continuity_id e ∈ active_descendant_ids c.
Proof.
  intros Hidx He Hne Hbe. cbv zeta.
  assert (map_get (continuity_id e) idx = Some e) as Hget by (by apply (indexed_value continuity_id)).
  destruct (traverse_climb date_parse date_now idx (continuity_id e) maxDepth Hne)
    as (chain & ce & Ho & ->). cbn. intros Hc Hd. destruct ce; cbn in *; [done|done|].
  destruct (climb_last _ _ _ _ _ Ho) as (n & r & En & Er & Hn). rewrite Er in *. cbn in *.
  destruct Ho as (_ & _ & _ & _ & r' & Er' & Hu). rewrite Er in Er'. injection Er' as <-.
  assert ((top_reason date_parse date_now idx chain r = Some REVOKED_ANCESTOR
     ∨ top_reason date_parse date_now idx chain r = Some EXPIRED_ANCESTOR) ↔ barrier idx r) as ->.
  { unfold top_reason, RevocationPropagation.barrier. destruct (map_get r idx) as [x|].
    - destruct (barriered x) eqn:Ex.
      + split; [eauto|]. destruct (isExpiredOnly _ _ _); auto.
      + split; [by intros [?|?]|]. intros (? & [= <-] & ?). congruence.
    - split; [|by intros (? & ? & _)]. destruct (Nat.ltb _ _); by intros [?|?]. }
  assert (live e = true) as Hl.
  { unfold live. unfold LineageGraph.isRevokedOrExpired in Hbe.
    destruct (isActiveStatus (status e)), (present (revoked_at e)); done. }
  split.
  - intros Hb. exists (collapse_of r (active_below r idx.*2 idx)).
    assert (continuity_id e ∈ active_below r idx.*2 idx) as Hin.
    { apply elem_active_below; [done|]. split; [|split; [|eauto]].
      - eapply rtc_nsteps_2. by apply climbs_below.
      - intros E. destruct Hb as (x & Hx & Hb). rewrite <- E, Hget in Hx. congruence. }
    split; [|cbn; by apply elem_of_sort_by]. apply collapse_elem; [done|]. exists r.
    split; [done|]. split; [|done]. intros E. rewrite E in Hin. by apply elem_of_nil in Hin.
  - intros (c & (a & Ha & _ & ->)%collapse_elem & Hin); [|done]. cbn in Hin.
    apply elem_of_sort_by, elem_active_below in Hin as (Hr & _ & _); [|done].
    apply rtc_nsteps in Hr as [k Hk]. by eapply climb_below_barrier.
Qed.
End Agreement.

(** * What a verified closure does not certify *)
Definition raw_closure (views : list jsval) (horizon : jsval) : jsval :=
  JObj [("closure_id", JStr "c"); ("evidence_only", JBool true); ("registry_views", JArr views);
        ("freshness_horizon_ms", horizon)].

(** A closure is verified although its lineage is revoked or stale. An entry
    that is REVOKED yields a fatal drift classification, and the result still is
    CLOSURE_VERIFIED. So does an entry that expires within the freshness horizon,
    whose violation is only classified. *)
Theorem verified_despite_failures locale_leb :
  let date_parse := λ _ : string, Some 500%Z in
  (let out := verifyDistributedContinuityLineageClosure date_parse 0 locale_leb
     (raw_closure [raw_view [raw_entry "a" "REVOKED" JNull]] JNull) in
   closure_result out = CLOSURE_VERIFIED
   ∧ map at_failure_reason (traversal_results out) = [Some REVOKED_ANCESTOR]
   ∧ map cl_severity (drift_classifications out) = [fatal])
  ∧ (let out := verifyDistributedContinuityLineageClosure date_parse 0 locale_leb
       (raw_closure [raw_view [JObj [("continuity_id", JStr "a"); ("status", JStr "ACTIVE");
          ("expires_at", JStr "t")]]] (jint 1000)) in
     closure_result out = CLOSURE_VERIFIED
     ∧ map cl_drift_class (drift_classifications out) = [FRESHNESS_CHAIN_VIOLATION]).
Proof.
  cbv zeta. repeat split.
Qed.

(** * Witnesses *)
Lemma traversal_decides_witness :
  at_failure_reason (traverseContinuityAncestry (λ _, None) 0 "b" fixture_idx 32)
    = Some REVOKED_ANCESTOR.
Proof.
  destruct (traversal_decides (λ _, None) 0 fixture_idx "b" 32) as (_ & _ & _ & _ & _ & _ & _ & H);
    [done|].
  destruct (H 1 "a") as (_ & _ & Hr); [lia| |reflexivity|exact Hr].
  apply nsteps_once. reflexivity.
Defined.

Lemma traversal_agrees_with_collapse_witness :
  ∃ c, c ∈ enforceStaleLineageCollapse (λ _, None) 0 fixture_idx.*2 fixture_idx
    ∧ "b" ∈ active_descendant_ids c.
Proof.
  apply (traversal_agrees_with_collapse (λ _, None) 0 fixture_idx fixture_child 32).
  - apply indexed_map_of.
  - right. by left.
  - done.
  - reflexivity.
  - by vm_compute.
  - by vm_compute.
  - left. reflexivity.
Defined.
