(* ===== verification/LineageReconciliation.v ===== *)
(** Reconciliation of the continuity lineage across registries:
    [src/distributed-continuity-lineage-reconciliation.ts].

    Identifiers are kept as they are here, and trimmed only where parents are
    looked up. The clock is read once per run and [localeCompare] is a
    parameter. *)
From Stdlib Require Import ZArith NArith Lia Ascii.
From stdpp Require Import base list strings pretty gmap sets relations.
From S2P Require Import Prelude JsValue Sha256 Canonical JsMap LineageGraph Worklist Ancestry.
From S2P Require Import RevocationPropagation ContinuityClosure.

Inductive ContinuityLineageReconciliationOutcome :=
  | LINEAGE_RECONCILED | LINEAGE_DIVERGED | LINEAGE_ORPHANED | LINEAGE_REVOKED | LINEAGE_STALE
  | LINEAGE_COLLAPSED | LINEAGE_NULL.

Inductive ContinuityLineageDriftClass :=
  | ORPHAN_LINEAGE_DETECTED | DETACHED_REPLAY_DETECTED | REPLAY_STALE_RESURRECTION
  | REVOCATION_PROPAGATION_INCOMPLETE | DISTRIBUTED_LINEAGE_DRIFT | REPLAY_LINEAGE_MISMATCH
  | LINEAGE_HASH_MISMATCH | LINEAGE_CYCLE_DETECTED | LINEAGE_DEPTH_EXCEEDED
  | FRESHNESS_BARRIER_VIOLATED | REVOCATION_AMBIGUITY_DETECTED | BOUNDARY_VIOLATION_DETECTED.

#[export] Instance lineage_drift_eq_dec : EqDecision ContinuityLineageDriftClass.
Proof. solve_decision. Defined.

Inductive ContinuityConvergenceResult := VIEWS_REACHED | VIEWS_DIVERGED | VIEWS_COLLAPSED.

Record LineageConvergence := mkLineageConvergence {
  lc_result : ContinuityConvergenceResult;
  lc_converged_count : nat;
  lc_diverged_count : nat;
  lc_epoch : option string;
  lc_hash : option string
}.

Record ContinuityLineageDriftObservation := mkDrift {
  ld_observation_id : string;
  ld_class : ContinuityLineageDriftClass;
  ld_affected : option string;
  ld_detail : string
}.

Record ContinuityLineageAuditSurface := mkLineageSurface {
  ls_audit_id : string;
  ls_topology_hash : string;
  ls_participant_count : nat;
  ls_converged_count : nat;
  ls_orphaned_count : nat;
  ls_revocation_complete : bool;
  ls_drift_count : nat
}.

Record DistributedContinuityLineageReconciliation := mkLineageReconciliation {
  lr_reconciliation_id : string;
  reconciliation_result : ContinuityLineageReconciliationOutcome;
  lr_topology_hash : string;
  participant_count : nat;
  lr_converged_count : nat;
  lr_diverged_count : nat;
  orphaned_ids : list string;
  revocation_propagation_complete : bool;
  lr_replay_eligibility : list ReplayRevocationEligibility;
  lr_drift : list ContinuityLineageDriftObservation;
  lr_surface : ContinuityLineageAuditSurface
}.

Record AncestryTraversal := mkAncestryTraversal {
  tr_ok : bool;
  cycle_detected : bool;
  depth_exceeded : bool;
  tr_depth : nat
}.

Section Lineage.
Context (date_parse : string → option Z) (date_now : Z).
Context (locale_leb : string → string → bool).

Abbreviation isRevokedOrExpired := (LineageGraph.isRevokedOrExpired date_parse date_now).

(** The same text as [computeClosureTopologyHash]. *)
Definition computeContinuityLineageTopologyHash (es : list LineageEntry) : string :=
  computeClosureTopologyHash locale_leb es.

Definition computeRegistryViewConvergenceHash (v : RegistryView) : string :=
  hashCanonical (JObj
    [("entries_topology_hash", JStr (computeContinuityLineageTopologyHash (entries v)));
     ("lineage_root_id", JStr (lineage_root_id v)); ("node_id", JStr (node_id v));
     ("registry_epoch", JStr (registry_epoch v))]).

(** * Orphans *)
Definition detectOrphanedContinuityLineage (es : list LineageEntry) : list string :=
  let ids := List.filter (λ i, negb (is_empty_str i)) (map (λ e, js_trim (continuity_id e)) es) in
  map continuity_id
    (List.filter (λ e, negb (is_empty_str (parent_id e)) && negb (str_in (parent_id e) ids)) es).

(** * Ancestry *)
Fixpoint lineage_loop (idx : index) (maxDepth fuel : nat) (current : string)
    (visited : list string) : option AncestryTraversal :=
  match fuel with
  | O => None
  | S fuel =>
      if str_in current visited then Some (mkAncestryTraversal false true false (length visited))
      else
        let visited := visited ++ [current] in
        if Nat.ltb maxDepth (length visited) then
          Some (mkAncestryTraversal false false true (length visited))
        else
          match map_get current idx with
          | None => Some (mkAncestryTraversal true false false (length visited))
          | Some node =>
              if is_empty_str (parent_id node) then
                Some (mkAncestryTraversal true false false (length visited))
              else lineage_loop idx maxDepth fuel (parent_id node) visited
          end
  end.

(** [depth] is the number of identifiers visited. *)
Definition traverseAncestry (startId : string) (idx : index) (maxDepth : nat) : AncestryTraversal :=
  if is_empty_str startId then mkAncestryTraversal true false false 0
  else
    default (mkAncestryTraversal true false false 0)
      (lineage_loop idx maxDepth (S (S (length idx))) startId []).

(** * Replays *)
Definition verifyReplayLineageEligibility (replay : RevocationReplayRecord) (idx : index)
    (evidence : list RevocationEvidence) : bool * option string :=
  match map_get (rp_continuity_id replay) idx with
  | None => (false, Some "detached_replay_no_continuity_entry")
  | Some entry =>
      if isRevokedOrExpired entry then (false, Some "replay_continuity_revoked_or_expired")
      else if valid_sha256 (continuity_hash entry) && valid_sha256 (rp_continuity_hash replay)
              && negb (String.eqb (continuity_hash entry) (rp_continuity_hash replay)) then
        (false, Some "replay_continuity_hash_mismatch")
      else if existsb (evidence_covers (rp_continuity_id replay)) evidence then
        (false, Some "replay_revocation_cascade_detected")
      else (true, None)
  end.

(** * Revocation *)
Definition should_be_revoked (rev : RevocationEvidence) : list string :=
  root_continuity_id rev :: propagated_ids rev.

Definition missing_below (idx : index) (rev : RevocationEvidence) : list string :=
  omap (λ '(id, entry),
    if negb (is_empty_str (parent_id entry)) && str_in (parent_id entry) (should_be_revoked rev)
       && negb (str_in id (should_be_revoked rev)) && isActiveStatus (status entry)
    then Some id else None) idx.

(** The identifiers that miss the revocation; complete when there are none. *)
Definition missing_propagations (evidence : list RevocationEvidence) (idx : index) : list string :=
  flat_map (missing_below idx) evidence.

(** * Convergence *)
Definition evaluateContinuityLineageConvergence (views : list RegistryView) : LineageConvergence :=
  match views with
  | [] => mkLineageConvergence VIEWS_COLLAPSED 0 0 None None
  | _ =>
      let '(topHash, topCount) := top_hash (hash_counts views) in
      let canonicalEpoch := canonical_epoch views topHash in
      if Nat.eqb topCount (length views) then
        mkLineageConvergence VIEWS_REACHED topCount 0 canonicalEpoch (Some topHash)
      else
        mkLineageConvergence VIEWS_DIVERGED topCount (length views - topCount) canonicalEpoch
          (Some topHash)
  end.

(** * Freshness *)
Definition checkFreshnessBarrier (es : list LineageEntry) (horizon : Z) : list string :=
  map continuity_id (List.filter (stale_within date_parse date_now horizon) es).

(** * Result *)
Definition buildContinuityLineageAuditSurface (reconciliationId topology : string)
    (participants converged : nat) (orphaned : list string) (complete : bool) (drift : nat) :
    ContinuityLineageAuditSurface :=
  mkLineageSurface
    (hashCanonical (JObj
      [("converged_count", jnat converged); ("drift_count", jnat drift);
       ("lineage_topology_hash", JStr topology); ("orphaned_count", jnat (length orphaned));
       ("participant_count", jnat participants); ("reconciliation_id", JStr reconciliationId);
       ("revocation_complete", JBool complete)]))
    topology participants converged (length orphaned) complete drift.

Definition buildNullReconciliation (reconciliationId : string) :
    DistributedContinuityLineageReconciliation :=
  let nullHash := hashCanonical (JObj [("null", JBool true);
    ("reconciliation_id", JStr reconciliationId)]) in
  mkLineageReconciliation reconciliationId LINEAGE_NULL nullHash 0 0 0 [] false [] []
    (buildContinuityLineageAuditSurface reconciliationId nullHash 0 0 [] false 0).

(** The identifier is kept as it is; an entry with a blank one is skipped. *)
Definition parse_entry (e : jsval) : option LineageEntry :=
  if blank (get e "continuity_id") then None
  else Some (entry_of (to_string (get e "continuity_id")) e (nullable_text (get e "identity_id"))).

(** An observation before it is numbered: class, identifier, detail. *)
Abbreviation lineage_draft := (ContinuityLineageDriftClass * option string * string)%type.

Definition orphan_drift (oid : string) : lineage_draft :=
  (ORPHAN_LINEAGE_DETECTED, Some oid,
   "continuity_id " +:+ oid +:+ " references a parent not found in any registry view").

Definition ancestry_drift (idx : index) (maxDepth : nat) (e : LineageEntry) :
    option lineage_draft :=
  let id := continuity_id e in
  let r := traverseAncestry id idx maxDepth in
  if tr_ok r then None
  else
    Some (if cycle_detected r then
      (LINEAGE_CYCLE_DETECTED, Some id,
       "ancestry cycle detected at depth " +:+ pretty (tr_depth r) +:+ " for continuity_id " +:+ id)
    else
      (LINEAGE_DEPTH_EXCEEDED, Some id,
       "ancestry depth " +:+ pretty (tr_depth r) +:+ " exceeded maximum " +:+ pretty maxDepth
         +:+ " for continuity_id " +:+ id)).

Definition freshness_drift (horizon : Z) (sid : string) : lineage_draft :=
  (FRESHNESS_BARRIER_VIOLATED, Some sid,
   "continuity_id " +:+ sid +:+ " violates freshness barrier of " +:+ to_string (jint horizon)
     +:+ "ms").

Definition missing_drift (mid : string) : lineage_draft :=
  (REVOCATION_PROPAGATION_INCOMPLETE, Some mid,
   "continuity_id " +:+ mid +:+ " should be revoked by cascade but remains ACTIVE").

Definition replay_drift_class (reason : string) : ContinuityLineageDriftClass :=
  if String.eqb reason "detached_replay_no_continuity_entry" then DETACHED_REPLAY_DETECTED
  else if String.eqb reason "replay_continuity_revoked_or_expired" then REPLAY_STALE_RESURRECTION
  else if String.eqb reason "replay_revocation_cascade_detected" then
    REVOCATION_PROPAGATION_INCOMPLETE
  else REPLAY_LINEAGE_MISMATCH.

Definition lineage_replay_drift (r : ReplayRevocationEligibility) : option lineage_draft :=
  if eligible r then None
  else
    let reason := default "null" (ineligibility_reason r) in
    Some (replay_drift_class reason, Some (re_continuity_id r),
      "replay_id " +:+ re_replay_id r +:+ " ineligible: " +:+ reason).

Definition replay_entry (idx : index) (evidence : list RevocationEvidence) (rr : jsval) :
    option ReplayRevocationEligibility :=
  let r := safeObj rr in
  let replayId := js_trim (text (get r "replay_id")) in
  let continuityId := js_trim (text (get r "continuity_id")) in
  if is_empty_str replayId || is_empty_str continuityId then None
  else
    let record := mkReplayRecord replayId continuityId (text (get r "continuity_hash"))
      (text (get r "lineage_hash")) in
    let '(ok, reason) := verifyReplayLineageEligibility record idx evidence in
    Some (mkReplayEligibility replayId continuityId ok reason).

Definition drift_in (cs : list ContinuityLineageDriftClass) (d : lineage_draft) : bool :=
  bool_decide (d.1.1 ∈ cs).

Definition outcome_of (orphaned missing : list string) (drift : list lineage_draft)
    (c : LineageConvergence) : ContinuityLineageReconciliationOutcome :=
  if Nat.ltb 0 (length orphaned) then LINEAGE_ORPHANED
  else if existsb (drift_in [LINEAGE_CYCLE_DETECTED; LINEAGE_DEPTH_EXCEEDED]) drift then
    LINEAGE_COLLAPSED
  else if Nat.ltb 0 (length missing) then LINEAGE_REVOKED
  else
    match lc_result c with
    | VIEWS_DIVERGED | VIEWS_COLLAPSED => LINEAGE_DIVERGED
    | VIEWS_REACHED =>
        if existsb (drift_in [REPLAY_STALE_RESURRECTION; FRESHNESS_BARRIER_VIOLATED]) drift
        then LINEAGE_STALE else LINEAGE_RECONCILED
    end.

(** What is computed once the views are parsed. *)
Definition reconcile_views (reconciliationId : string) (safeInput : jsval)
    (views : list RegistryView) : DistributedContinuityLineageReconciliation :=
  let idx := allEntriesMap views in
  let allEntries := idx.*2 in
  let topology := computeContinuityLineageTopologyHash allEntries in
  let maxDepth := positive_or (get safeInput "max_ancestry_depth") SYSTEM_MAX_ANCESTRY_DEPTH in
  let orphanedIds := detectOrphanedContinuityLineage allEntries in
  let evidence :=
    omap (parse_evidence "propagated_to_ids")
      (array_or_empty (get safeInput "revocation_evidence")) in
  let missing := missing_propagations evidence idx in
  let replays := omap (replay_entry idx evidence) (array_or_empty (get safeInput "replay_records")) in
  let c := evaluateContinuityLineageConvergence views in
  let drift :=
    map orphan_drift orphanedIds
    ++ omap (ancestry_drift idx maxDepth) allEntries
    ++ match horizon_of (get safeInput "freshness_horizon_ms") with
       | None => []
       | Some h => map (freshness_drift h) (checkFreshnessBarrier allEntries h)
       end
    ++ map missing_drift missing ++ omap lineage_replay_drift replays in
  let outcome := outcome_of orphanedIds missing drift c in
  let observed :=
    drift ++ match outcome with
      | LINEAGE_DIVERGED =>
          [(DISTRIBUTED_LINEAGE_DRIFT, None,
            "distributed registry views diverged: " +:+ pretty (lc_converged_count c)
              +:+ " converged, " +:+ pretty (lc_diverged_count c) +:+ " diverged")]
      | _ => []
      end in
  let complete := Nat.eqb (length missing) 0 in
  mkLineageReconciliation reconciliationId outcome topology (length views) (lc_converged_count c)
    (lc_diverged_count c) orphanedIds complete replays
    (imap (λ i '(cls, affected, detail),
      mkDrift (reconciliationId +:+ "-obs-" +:+ pretty i) cls affected detail) observed)
    (buildContinuityLineageAuditSurface reconciliationId topology (length views)
      (lc_converged_count c) orphanedIds complete (length observed)).

Definition reconcileDistributedContinuityLineage (input : jsval) :
    DistributedContinuityLineageReconciliation :=
  match read_input "reconciliation_id" parse_entry input with
  | inl reconciliationId => buildNullReconciliation reconciliationId
  | inr (reconciliationId, views) => reconcile_views reconciliationId (safeObj input) views
  end.
End Lineage.

(** * Theorems: ancestry *)

(** Where the walk goes: to the parent of the entry, whatever its status. *)
Definition lineage_up (idx : index) (x : string) : option string :=
  match map_get x idx with
  | None => None
  | Some e => if is_empty_str (parent_id e) then None else Some (parent_id e)
  end.

Definition traversal_of (chain : list string) (e : climb_end) : AncestryTraversal :=
  mkAncestryTraversal (match e with Top => true | _ => false end)
    (match e with Cycle => true | _ => false end) (match e with TooDeep => true | _ => false end)
    (length chain).

Lemma lineage_loop_climb idx maxDepth fuel current visited :
  lineage_loop idx maxDepth fuel current visited
  = (λ ce, traversal_of ce.1 ce.2) <$> climb (lineage_up idx) maxDepth fuel current visited.
Proof.
  revert current visited. induction fuel as [|fuel IH]; intros current visited; [done|].
  cbn [lineage_loop climb]. destruct (str_in current visited); [done|].
  destruct (Nat.ltb maxDepth _); [done|]. unfold lineage_up at 1.
  destruct (map_get current idx) as [e|]; [|done].
  destruct (is_empty_str (parent_id e)); [done|apply IH].
Qed.

Lemma traverse_lineage idx start maxDepth :
  start ≠ EmptyString →
  ∃ chain e, climb_outcome (lineage_up idx) start maxDepth chain e
    ∧ traverseAncestry start idx maxDepth = traversal_of chain e.
Proof.
  intros Hne. unfold traverseAncestry, is_empty_str.
  destruct (String.eqb_spec start EmptyString) as [|_]; [done|].
  destruct (climb_result (lineage_up idx) (keys_of idx) start maxDepth (S (S (length idx))))
    as (chain & e & Hc & Ho).
  - intros x p. unfold lineage_up, keys_of. destruct (map_get x idx) as [e|] eqn:Ee; [intros _|done].
    apply elem_of_list_to_set. apply map_get_elem in Ee. by apply (list_elem_of_fmap_2 fst) in Ee.
  - pose proof (size_keys idx). lia.
  - exists chain, e. split; [done|]. by rewrite lineage_loop_climb, Hc.
Qed.

Lemma traverse_lineage_ok idx start maxDepth :
  start ≠ EmptyString →
  tr_ok (traverseAncestry start idx maxDepth) = true ↔
  ∃ n a, n < maxDepth ∧ nsteps (upR (lineage_up idx)) n start a ∧ lineage_up idx a = None.
Proof.
  intros Hne. destruct (traverse_lineage idx start maxDepth Hne) as (chain & e & Ho & ->).
  rewrite <- (climb_top _ _ _ _ _ Ho). by destruct e.
Qed.

(** * Theorems: the checks *)
Lemma empty_iff {A} (l : list A) : Nat.ltb 0 (length l) = false ↔ l = [].
Proof. by destruct l. Qed.

Lemma filter_none {A} (f : A → bool) l : List.filter f l = [] ↔ ∀ x, x ∈ l → f x = false.
Proof.
  induction l as [|x l IH]; cbn; [split; [intros _ x Hx; by apply elem_of_nil in Hx|done]|].
  destruct (f x) eqn:Ex.
  - split; [done|]. intros H. specialize (H x). rewrite H in Ex; [done|by left].
  - rewrite IH. split; [|intros H y Hy; apply H; by right].
    intros H y [->|Hy]%elem_of_cons; auto.
Qed.

Lemma no_orphans es :
  detectOrphanedContinuityLineage es = [] ↔
  ∀ e, e ∈ es → parent_id e = EmptyString ∨ ∃ f, f ∈ es ∧ js_trim (continuity_id f) = parent_id e.
Proof.
  unfold detectOrphanedContinuityLineage. rewrite map_nil, filter_none.
  split; intros H e He; specialize (H e He).
  - unfold is_empty_str at 1 in H. destruct (String.eqb_spec (parent_id e) EmptyString); [by left|].
    right. cbn in H. apply negb_false_iff, str_in_elem, list_elem_of_In, List.filter_In in H as [H _].
    apply list_elem_of_In, elem_of_map in H as (f & ? & ?). eauto.
  - unfold is_empty_str at 1. destruct (String.eqb_spec (parent_id e) EmptyString) as [|Hp]; [done|].
    cbn. apply negb_false_iff, str_in_elem, list_elem_of_In, List.filter_In.
    destruct H as [?|(f & Hf & Ef)]; [done|]. split.
    + apply list_elem_of_In, elem_of_map. eauto.
    + apply negb_true_iff. by apply String.eqb_neq.
Qed.

Lemma no_missing evidence idx :
  indexed continuity_id idx →
  missing_propagations evidence idx = [] ↔
  ∀ rev e, rev ∈ evidence → e ∈ idx.*2 → parent_id e ≠ EmptyString →
    parent_id e ∈ should_be_revoked rev → isActiveStatus (status e) = true →
    continuity_id e ∈ should_be_revoked rev.
Proof.
  intros Hidx. unfold missing_propagations. split.
  - intros Hno rev e Hrev He Hp Hin Hact.
    destruct (str_in (continuity_id e) (should_be_revoked rev)) eqn:Es; [by apply str_in_elem|].
    assert (continuity_id e ∈ flat_map (missing_below idx) evidence) as Hx.
    { apply list_elem_of_In, List.in_flat_map. exists rev. split; [by apply list_elem_of_In|].
      apply list_elem_of_In, list_elem_of_omap. exists (continuity_id e, e). split.
      - apply map_get_elem. by apply (indexed_value continuity_id).
      - apply str_in_elem in Hin. rewrite Hin, Es, Hact. unfold is_empty_str.
        by apply String.eqb_neq in Hp as ->. }
    rewrite Hno in Hx. by apply elem_of_nil in Hx.
  - intros H. destruct (flat_map _ _) as [|x l] eqn:E; [done|exfalso].
    assert (In x (flat_map (missing_below idx) evidence)) as Hx by (rewrite E; by left).
    apply List.in_flat_map in Hx as (rev & Hrev & Hx). apply list_elem_of_In in Hrev, Hx.
    apply list_elem_of_omap in Hx as ([id e] & He & Hx).
    destruct (_ && _) eqn:Eb in Hx; [|done]. injection Hx as ->.
    apply andb_true_iff in Eb as [[[Hp Hin]%andb_true_iff Hout]%andb_true_iff Hact].
    destruct Hidx as [_ Hk]. pose proof (Hk _ _ He) as Ex. subst x.
    apply negb_true_iff in Hp, Hout. apply String.eqb_neq in Hp. apply str_in_elem in Hin.
    assert (continuity_id e ∈ should_be_revoked rev) as Hc.
    { apply (H rev e); try done. by apply (list_elem_of_fmap_2 snd) in He. }
    apply str_in_elem in Hc. congruence.
Qed.

Lemma no_drift cs l : existsb (drift_in cs) l = false ↔ ∀ d, d ∈ l → d.1.1 ∉ cs.
Proof. rewrite existsb_false. unfold drift_in. by setoid_rewrite bool_decide_eq_false. Qed.

(** * Theorems: the outcome *)
Section Outcome.
Context (date_parse : string → option Z) (date_now : Z).
Context (locale_leb : string → string → bool).

Abbreviation reconcile := (reconcileDistributedContinuityLineage date_parse date_now locale_leb).
Abbreviation barrier := (RevocationPropagation.barrier date_parse date_now).

Lemma reconciled_steps orphaned missing drift c :
  outcome_of orphaned missing drift c = LINEAGE_RECONCILED ↔
  orphaned = [] ∧ missing = [] ∧ lc_result c = VIEWS_REACHED
  ∧ ∀ d, d ∈ drift → d.1.1 ∉ [LINEAGE_CYCLE_DETECTED; LINEAGE_DEPTH_EXCEEDED;
      REPLAY_STALE_RESURRECTION; FRESHNESS_BARRIER_VIOLATED].
Proof.
  assert ((∀ d, d ∈ drift → d.1.1 ∉ [LINEAGE_CYCLE_DETECTED; LINEAGE_DEPTH_EXCEEDED;
      REPLAY_STALE_RESURRECTION; FRESHNESS_BARRIER_VIOLATED]) ↔
    existsb (drift_in [LINEAGE_CYCLE_DETECTED; LINEAGE_DEPTH_EXCEEDED]) drift = false
    ∧ existsb (drift_in [REPLAY_STALE_RESURRECTION; FRESHNESS_BARRIER_VIOLATED]) drift = false)
    as ->.
  { rewrite !no_drift. split.
    - intros H. split; intros d Hd; specialize (H d Hd); set_solver.
    - intros [H1 H2] d Hd. specialize (H1 d Hd). specialize (H2 d Hd). set_solver. }
  unfold outcome_of. rewrite <- !empty_iff.
  destruct (Nat.ltb 0 (length orphaned)); [naive_solver|].
  destruct (existsb _ drift); [naive_solver|]. destruct (Nat.ltb 0 (length missing)); [naive_solver|].
  destruct (lc_result c); [|naive_solver..]. destruct (existsb _ drift); naive_solver.
Qed.

Lemma views_reached views :
  views ≠ [] →
  lc_result (evaluateContinuityLineageConvergence views) = VIEWS_REACHED ↔
  ∀ v w, v ∈ views → w ∈ views → registry_hash v = registry_hash w.
Proof.
  intros Hne. rewrite <- unanimous by done. unfold evaluateContinuityLineageConvergence.
  destruct views as [|v l] eqn:E; [done|]. rewrite <- E.
  destruct (top_hash (hash_counts views)) as [h n].
  by destruct (Nat.eqb_spec n (length views)) as [->|Hn].
Qed.

Lemma ancestry_drift_class idx depth e d :
  ancestry_drift idx depth e = Some d →
  d.1.1 ∈ [LINEAGE_CYCLE_DETECTED; LINEAGE_DEPTH_EXCEEDED].
Proof.
  unfold ancestry_drift. destruct (tr_ok _); [done|]. intros [= <-].
  destruct (cycle_detected _); set_solver.
Qed.

Lemma ancestry_drift_none idx depth e :
  ancestry_drift idx depth e = None ↔ tr_ok (traverseAncestry (continuity_id e) idx depth) = true.
Proof. unfold ancestry_drift. by destruct (tr_ok _). Qed.

(** A replay is observed as a resurrection exactly when its entry is barriered. *)
Lemma replay_stale idx evidence raw r :
  replay_entry date_parse date_now idx evidence raw = Some r →
  (∃ d, lineage_replay_drift r = Some d ∧ d.1.1 = REPLAY_STALE_RESURRECTION)
    ↔ barrier idx (re_continuity_id r).
Proof.
  unfold replay_entry, verifyReplayLineageEligibility, RevocationPropagation.barrier.
  destruct (_ || _); [done|]. cbn [rp_continuity_id rp_continuity_hash].
  destruct (map_get _ idx) as [x|] eqn:Ex;
    [destruct (LineageGraph.isRevokedOrExpired _ _ x) eqn:Eb;
      [|destruct (_ && _); [|destruct (existsb _ _)]]|];
    intros [= <-]; unfold lineage_replay_drift; cbn; rewrite Ex.
  - naive_solver.
  - split; [by intros (d & [= <-] & ?)|intros (? & [= <-] & ?); congruence].
  - split; [by intros (d & [= <-] & ?)|intros (? & [= <-] & ?); congruence].
  - split; [by intros (d & ? & ?)|intros (? & [= <-] & ?); congruence].
  - split; [by intros (d & [= <-] & ?)|by intros (? & ? & _)].
Qed.

Lemma replay_class_cases r d :
  lineage_replay_drift r = Some d →
  d.1.1 ∉ [LINEAGE_CYCLE_DETECTED; LINEAGE_DEPTH_EXCEEDED; FRESHNESS_BARRIER_VIOLATED].
Proof.
  unfold lineage_replay_drift. destruct (eligible r); [done|]. intros [= <-]. cbn.
  unfold replay_drift_class. repeat destruct (String.eqb _ _); set_solver.
Qed.

Definition evidence_of (input : jsval) : list RevocationEvidence :=
  omap (parse_evidence "propagated_to_ids")
    (array_or_empty (get (safeObj input) "revocation_evidence")).

Lemma admitted_id input views e :
  admitted "reconciliation_id" parse_entry input views → e ∈ flat_map entries views →
  continuity_id e ≠ EmptyString.
Proof.
  intros (_ & _ & _ & Hp & _) He. destruct (parse_views_elem _ _ _ _ Hp He) as [r Hr].
  unfold parse_entry, blank in Hr. unfold text, js_or in Hr.
  destruct (is_empty_str _) eqn:E in Hr; [done|]. injection Hr as <-. cbn. intros Ht.
  destruct (truthy (get r "continuity_id")); [by rewrite Ht in E|done].
Qed.

(** The drift of a run, without that of the revocations, holds none of the
    observations that prevent a reconciled outcome. *)
Lemma quiet_drift idx depth (horizon : option Z) (raws : list jsval) evidence missing :
  (∀ d, d ∈ omap (ancestry_drift idx depth) idx.*2
      ++ match horizon with
         | None => []
         | Some h => map (freshness_drift h) (checkFreshnessBarrier date_parse date_now idx.*2 h)
         end
      ++ map missing_drift missing
      ++ omap lineage_replay_drift
           (omap (replay_entry date_parse date_now idx evidence) raws) →
    d.1.1 ∉ [LINEAGE_CYCLE_DETECTED; LINEAGE_DEPTH_EXCEEDED; REPLAY_STALE_RESURRECTION;
      FRESHNESS_BARRIER_VIOLATED]) ↔
  (∀ e, e ∈ idx.*2 → tr_ok (traverseAncestry (continuity_id e) idx depth) = true)
  ∧ (∀ h e, horizon = Some h → e ∈ idx.*2 → stale_within date_parse date_now h e = false)
  ∧ (∀ raw r, raw ∈ raws → replay_entry date_parse date_now idx evidence raw = Some r →
       ¬ barrier idx (re_continuity_id r)).
Proof.
  setoid_rewrite elem_of_app. setoid_rewrite elem_of_app. setoid_rewrite elem_of_app. split.
  - intros H. split; [|split].
    + intros e He. apply ancestry_drift_none. destruct (ancestry_drift idx depth e) as [d|] eqn:Ed;
        [exfalso|done]. pose proof (ancestry_drift_class _ _ _ _ Ed).
      apply (H d); [|set_solver]. left. apply list_elem_of_omap. eauto.
    + intros h e -> He. destruct (stale_within _ _ h e) eqn:Es; [exfalso|done].
      apply (H (freshness_drift h (continuity_id e))); [|set_solver]. right. left.
      apply elem_of_map. eexists. split; [|done]. apply elem_of_map. exists e. split; [|done].
      apply list_elem_of_In, List.filter_In. split; [by apply list_elem_of_In|done].
    + intros raw r Hraw Hr Hb. apply (replay_stale idx evidence raw r Hr) in Hb as (d & Hd & Ed).
      apply (H d); [|rewrite Ed; set_solver]. do 3 right. apply list_elem_of_omap. exists r.
      split; [|done]. apply list_elem_of_omap. eauto.
  - intros (H1 & H2 & H3) d [Hd|[Hd|[Hd|Hd]]].
    + apply list_elem_of_omap in Hd as (e & He & Hd). apply H1, (ancestry_drift_none idx) in He.
      congruence.
    + destruct horizon as [h|]; [|by apply elem_of_nil in Hd].
      apply elem_of_map in Hd as (s & (e & He & ->)%elem_of_map & ->).
      apply list_elem_of_In, List.filter_In in He as [He Hs]. apply list_elem_of_In in He.
      rewrite (H2 h e) in Hs by done. done.
    + apply elem_of_map in Hd as (m & _ & ->). cbn. set_solver.
    + apply list_elem_of_omap in Hd as (r & (raw & Hraw & Hr)%list_elem_of_omap & Hd).
      pose proof (replay_class_cases _ _ Hd) as Hc.
      assert (d.1.1 ≠ REPLAY_STALE_RESURRECTION) as Hns.
      { intros E. apply (H3 raw r Hraw Hr), (replay_stale idx evidence raw r Hr). eauto. }
      set_solver.
Qed.

(** What a reconciled lineage certifies. The outcome is LINEAGE_RECONCILED
    exactly when the input is accepted and: the parent that an entry names is
    the trimmed identifier of some entry; the walk up from every entry ends within
    the depth bound; every active entry whose parent is named by a revocation is
    named by it too; all views claim one registry hash; no entry expires within
    the freshness horizon, when there is one; and no replay record names a
    revoked or expired entry. *)
Theorem lineage_reconciled_iff input :
  reconciliation_result (reconcile input) = LINEAGE_RECONCILED ↔
  ∃ views, admitted "reconciliation_id" parse_entry input views ∧
    let idx := allEntriesMap views in
    let depth := positive_or (get (safeObj input) "max_ancestry_depth") SYSTEM_MAX_ANCESTRY_DEPTH in
    (∀ e, e ∈ idx.*2 →
       parent_id e = EmptyString ∨ ∃ f, f ∈ idx.*2 ∧ js_trim (continuity_id f) = parent_id e)
    ∧ (∀ e, e ∈ idx.*2 → ∃ n a, n < depth
         ∧ nsteps (upR (lineage_up idx)) n (continuity_id e) a ∧ lineage_up idx a = None)
    ∧ (∀ rev e, rev ∈ evidence_of input → e ∈ idx.*2 → parent_id e ≠ EmptyString →
         parent_id e ∈ should_be_revoked rev → isActiveStatus (status e) = true →
         continuity_id e ∈ should_be_revoked rev)
    ∧ (∀ v w, v ∈ views → w ∈ views → registry_hash v = registry_hash w)
    ∧ (∀ h e, horizon_of (get (safeObj input) "freshness_horizon_ms") = Some h → e ∈ idx.*2 →
         stale_within date_parse date_now h e = false)
    ∧ (∀ raw r, raw ∈ array_or_empty (get (safeObj input) "replay_records") →
         replay_entry date_parse date_now idx (evidence_of input) raw = Some r →
         ¬ barrier idx (re_continuity_id r)).
Proof.
  unfold reconcileDistributedContinuityLineage.
  pose proof (read_input_spec "reconciliation_id" parse_entry input) as Hin.
  destruct (read_input _ _ input) as [rid|[rid views]];
    [split; [done|]; intros (views & Ha & _); by destruct (Hin views)|].
  assert (∀ Q : list RegistryView → Prop,
    (∃ views, admitted "reconciliation_id" parse_entry input views ∧ Q views) ↔ Q views) as ->.
  { intros Q. split; [|eauto]. intros (views' & Ha & HQ).
    by rewrite (admitted_unique _ _ _ _ _ Hin Ha). }
  cbv zeta. unfold reconcile_views. cbn [reconciliation_result].
  fold (evidence_of input). set (idx := allEntriesMap views). set (depth := positive_or _ _).
  rewrite reconciled_steps, views_reached, no_orphans, no_missing
    by (first [apply indexed_map_of | apply Hin]).
  assert ((∀ e, e ∈ idx.*2 → ∃ n a, n < depth
      ∧ nsteps (upR (lineage_up idx)) n (continuity_id e) a ∧ lineage_up idx a = None) ↔
    ∀ e, e ∈ idx.*2 → tr_ok (traverseAncestry (continuity_id e) idx depth) = true) as ->.
  { split; intros H e He; apply traverse_lineage_ok; try by apply H.
    all: by eapply admitted_id, (map_of_elem continuity_id). }
  pose proof (quiet_drift idx depth (horizon_of (get (safeObj input) "freshness_horizon_ms"))
    (array_or_empty (get (safeObj input) "replay_records")) (evidence_of input)
    (missing_propagations (evidence_of input) idx)) as Hq.
  split.
  - intros (H1 & H2 & H3 & H4). apply no_orphans in H1 as E1. rewrite E1 in H4.
    apply Hq in H4 as (? & ? & ?). done.
  - intros (H1 & H2 & H3 & H4 & H5 & H6). apply no_orphans in H1 as E1. rewrite E1.
    split; [done|]. split; [done|]. split; [done|]. by apply Hq.
Qed.
End Outcome.

(** * What a reconciled lineage does not certify *)
Definition raw_child (id parent st : string) : jsval :=
  JObj [("continuity_id", JStr id); ("status", JStr st); ("parent_continuity_id", JStr parent)].

Definition raw_reconciliation (views evidence replays : list jsval) : jsval :=
  JObj [("reconciliation_id", JStr "r"); ("evidence_only", JBool true);
        ("registry_views", JArr views); ("revocation_evidence", JArr evidence);
        ("replay_records", JArr replays)].

Definition raw_replay (id : string) : jsval :=
  JObj [("replay_id", JStr "p"); ("continuity_id", JStr id)].

(** A reconciled lineage overlooks three kinds of drift. A revocation is
    followed one level down only: an active grandchild of the revoked root is not
    missed when the child in between is revoked already, although the propagation
    collapses it. A replay of an entry that no registry holds is ineligible and
    observed, and the lineage still is reconciled. And an identifier that is
    padded with white space counts as the parent of its children, while walks and
    replays, which look up the trimmed text, do not find it. *)
Theorem reconciled_overlooks locale_leb :
  let run := reconcileDistributedContinuityLineage (λ _, None) 0 locale_leb in
  (let views :=
     [raw_view [raw_entry "a" "REVOKED" JNull; raw_child "b" "a" "REVOKED"; raw_child "c" "b" "ACTIVE"]] in
   let out := run (raw_reconciliation views [raw_record "a"] []) in
   reconciliation_result out = LINEAGE_RECONCILED ∧ revocation_propagation_complete out = true
   ∧ lr_drift out = []
   ∧ ∃ l, parse_views parse_entry views = Some l
     ∧ map active_descendant_ids
         (enforceStaleLineageCollapse (λ _, None) 0 (allEntriesMap l).*2 (allEntriesMap l))
       = [["c"]; ["c"]])
  ∧ (let out := run (raw_reconciliation [raw_view [raw_entry "a" "ACTIVE" JNull]] [] [raw_replay "b"]) in
     reconciliation_result out = LINEAGE_RECONCILED
     ∧ map ineligibility_reason (lr_replay_eligibility out)
       = [Some "detached_replay_no_continuity_entry"])
  ∧ (let out := run (raw_reconciliation
       [raw_view [raw_entry " a" "ACTIVE" JNull; raw_child "b" "a" "ACTIVE"]] [] [raw_replay " a"]) in
     reconciliation_result out = LINEAGE_RECONCILED ∧ orphaned_ids out = []
     ∧ map ineligibility_reason (lr_replay_eligibility out)
       = [Some "detached_replay_no_continuity_entry"]).
Proof.
  cbv zeta. split; [|by repeat split].
  split; [reflexivity|]. split; [reflexivity|]. split; [reflexivity|].
  eexists. split; [reflexivity|]. by vm_compute.
Qed.
