(* ===== verification/AgentToolGateway.v ===== *)
(** The agent tool gateway: [src/lib/agent-tool-gateway.ts], with the predicate
    registry it resolves against, [src/lib/predicate-registry.ts].

    Artifacts are run-time values: every function that receives one checks it
    field by field, so a forged artifact is a value like any other, and a
    refusal is [null]. The rows that the database answers a query with, the
    lower-case mapping of Unicode and [JSON.parse] are parameters. *)
From Stdlib Require Import ZArith NArith Lia Ascii.
From stdpp Require Import base list strings sets.
From S2P Require Import Prelude JsValue Sha256 Canonical JsMap.

(** * Text *)

(** [v.trim()] when it is a string that is not blank. *)
Definition nonEmptyText (v : jsval) : option string :=
  match v with
  | JStr s => let t := js_trim s in if is_empty_str t then None else Some t
  | _ => None
  end.

(** [/P(\d+)/]: the digits that follow, if any. *)
Fixpoint leading_digits (acc : option Z) (s : string) : option Z :=
  match s with
  | EmptyString => acc
  | String c s' =>
      if ((48 <=? code c) && (code c <=? 57))%N
      then leading_digits (Some (10 * default 0 acc + (Z.of_N (code c) - 48))%Z) s' else acc
  end.

Fixpoint riskLevel (s : string) : Z :=
  match s with
  | EmptyString => (-1)%Z
  | String c s' =>
      match (if Ascii.eqb c "P" then leading_digits None s' else None) with
      | Some z => z
      | None => riskLevel s'
      end
  end.

(** [s.replace(/[-\s]/g, '_')]. *)
Fixpoint underscored (s : string) : string :=
  match s with
  | EmptyString => EmptyString
  | String a s1 =>
      if Ascii.eqb a "-" || ws1 a then String "_" (underscored s1)
      else
        match s1 with
        | EmptyString => s
        | String b s2 =>
            if ws2 a b then String "_" (underscored s2)
            else
              match s2 with
              | EmptyString => String a (underscored s1)
              | String c s3 =>
                  if ws3 a b c then String "_" (underscored s3) else String a (underscored s1)
              end
        end
  end.

(** [\w]. *)
Definition word_char (a : ascii) : bool :=
  let n := code a in
  ((48 <=? n) && (n <=? 57) || (65 <=? n) && (n <=? 90) || (97 <=? n) && (n <=? 122) || (n =? 95))%N.

Definition word_ends (s : string) : bool :=
  match s with EmptyString => true | String c _ => negb (word_char c) end.

(** [/\bw\b/] for a word [w]; [inside]: the character before is one of a word. *)
Fixpoint word_in (w : string) (inside : bool) (s : string) : bool :=
  (negb inside && starts_with w s
   && word_ends (String.substring (String.length w) (String.length s) s))
  || match s with
     | EmptyString => false
     | String c s' => word_in w (word_char c) s'
     end.

(** [{ ...v }] of a record. *)
Definition spread (v : jsval) : jsval := JObj (props v).

(** [Array.isArray(q) ? q : q.results ?? []]. *)
Definition rows_of (q : jsval) : list jsval :=
  match q with
  | JArr l => l
  | _ => match get q "results" with JArr l => l | _ => [] end
  end.

(** * Classification of tools *)
Inductive GatewayToolSystem :=
  | Filesystem | Github | Shell | CiCd | HttpApi | Database | Deploy | ReadOnly.

Inductive GatewayRiskClass := P0 | P1 | P2 | P3.

#[export] Instance risk_class_eq_dec : EqDecision GatewayRiskClass.
Proof. solve_decision. Defined.

Definition system_str (s : GatewayToolSystem) : string :=
  match s with
  | Filesystem => "filesystem" | Github => "github" | Shell => "shell" | CiCd => "ci_cd"
  | HttpApi => "http_api" | Database => "database" | Deploy => "deploy" | ReadOnly => "read_only"
  end.

Definition risk_str (r : GatewayRiskClass) : string :=
  match r with P0 => "P0" | P1 => "P1" | P2 => "P2" | P3 => "P3" end.

Definition GATEWAY_TOOL_RISK_TABLE : list (string * (GatewayToolSystem * GatewayRiskClass)) :=
  [("read_file", (Filesystem, P0)); ("list_directory", (Filesystem, P0));
   ("search_files", (Filesystem, P0)); ("get_file_contents", (Github, P0));
   ("list_issues", (Github, P0)); ("list_pull_requests", (Github, P0));
   ("search_code", (Github, P0)); ("comment_issue", (Github, P2)); ("http_get", (HttpApi, P0));
   ("db_read", (Database, P0)); ("http_post", (HttpApi, P1)); ("http_put", (HttpApi, P1));
   ("http_patch", (HttpApi, P1)); ("http_delete", (HttpApi, P1)); ("create_issue", (Github, P2));
   ("create_pull_request", (Github, P2)); ("merge_pull_request", (Github, P2));
   ("push_files", (Github, P2)); ("write_file", (Filesystem, P2)); ("delete_file", (Filesystem, P2));
   ("create_directory", (Filesystem, P2)); ("db_write", (Database, P3));
   ("db_delete", (Database, P3)); ("db_mutate", (Database, P3)); ("terminal_command", (Shell, P3));
   ("shell_exec", (Shell, P3)); ("run_command", (Shell, P3)); ("workflow_dispatch", (CiCd, P3));
   ("trigger_build", (CiCd, P3)); ("deploy_action", (Deploy, P3)); ("deploy_workflow", (Deploy, P3))].

Definition any_prefix (ps : list string) (s : string) : bool := existsb (λ p, starts_with p s) ps.
Definition any_part (ps : list string) (s : string) : bool := existsb (λ p, includes p s) ps.

Definition READ_PREFIXES : list string :=
  ["get_"; "list_"; "search_"; "fetch_"; "query_"; "describe_"; "inspect_"; "view_"; "show_"].

Section Lower.
Context (to_lower : string → string).

Definition normalized_name (toolName : string) : string := underscored (to_lower toolName).

Definition classifyGatewayToolSurface (toolName : string) : GatewayToolSystem * GatewayRiskClass :=
  let normalized := normalized_name toolName in
  match map_get normalized GATEWAY_TOOL_RISK_TABLE with
  | Some tableEntry => tableEntry
  | None =>
      if word_in "read" false normalized || any_prefix READ_PREFIXES normalized then (ReadOnly, P0)
      else if any_part ["deploy"; "release"; "publish"; "ship"] normalized then (Deploy, P3)
      else if any_part ["shell"; "exec"; "run_"; "command"; "terminal"] normalized then (Shell, P3)
      else if any_part ["workflow"; "dispatch"; "pipeline"; "ci_"; "cd_"] normalized then (CiCd, P3)
      else if any_part ["db_"; "database"; "sql"; "_table"; "_row"] normalized then (Database, P2)
      else if any_part ["github"; "_pr_"; "_merge_"; "_branch"; "_commit"; "_issue"] normalized then
        (Github, P2)
      else if any_part ["write_"; "delete_"; "create_"; "update_"; "patch_"; "put_"] normalized then
        (Filesystem, P2)
      else (HttpApi, P1)
  end.

(** * Interception *)
Definition formObservationArtifact (input : jsval) : jsval :=
  let tool_name := to_string (get input "tool_name") in
  let '(system, risk_class) := classifyGatewayToolSurface tool_name in
  JObj
    [("observation_id", JStr ("obs:gateway:" +:+ tool_name +:+ ":" +:+ to_string (get input "agent_id")
        +:+ ":" +:+ to_string (get input "observed_at")));
     ("agent_id", get input "agent_id"); ("session_id", get input "session_id");
     ("framework", JStr "langchain"); ("tool_name", get input "tool_name");
     ("tool_input", spread (get input "tool_input")); ("tool_system", JStr (system_str system));
     ("risk_class", JStr (risk_str risk_class)); ("observed_at", get input "observed_at");
     ("non_operative", JBool true); ("creates_authority", JBool false);
     ("creates_execution_eligibility", JBool false)].

Definition formCIPProposal (observation : jsval) (observation_hash : string)
    (intent scope constraints : jsval) : jsval :=
  let requires_authority_binding := negb (bool_decide (get observation "risk_class" = JStr "P0")) in
  JObj
    [("cip_id", JStr ("cip:" +:+ to_string (get observation "observation_id") +:+ ":"
        +:+ observation_hash));
     ("observation_id", get observation "observation_id");
     ("observation_hash", JStr observation_hash); ("agent_id", get observation "agent_id");
     ("session_id", get observation "session_id"); ("framework", JStr "langchain");
     ("tool_name", get observation "tool_name"); ("tool_system", get observation "tool_system");
     ("risk_class", get observation "risk_class"); ("intent", intent); ("scope", spread scope);
     ("constraints", spread constraints); ("proposal_space", JStr "populated");
     ("authority_space", JStr "not_populated"); ("execution_space", JStr "not_populated");
     ("requires_authority_binding", JBool requires_authority_binding);
     ("proposed_at", get observation "observed_at"); ("non_operative", JBool true)].

Definition formGovernanceProposal (cip : jsval) : jsval :=
  JObj
    [("proposal_id", JStr ("proposal:" +:+ to_string (get cip "cip_id")));
     ("proposal_class", JStr "GOVERNANCE_PROPOSAL"); ("cip_id", get cip "cip_id");
     ("observation_id", get cip "observation_id"); ("observation_hash", get cip "observation_hash");
     ("agent_id", get cip "agent_id"); ("session_id", get cip "session_id");
     ("framework", JStr "langchain"); ("tool_name", get cip "tool_name");
     ("tool_system", get cip "tool_system"); ("risk_class", get cip "risk_class");
     ("intent", get cip "intent"); ("scope", get cip "scope"); ("constraints", get cip "constraints");
     ("requires_authority_binding", get cip "requires_authority_binding");
     ("proposal_status", JStr "PENDING_AUTHORITY_REVIEW"); ("created_at", get cip "proposed_at");
     ("non_operative", JBool true); ("creates_atao", JBool false); ("creates_aeo", JBool false)].

Inductive GatewayInterceptOutcome :=
  | INTERCEPTED (observation : jsval) (observation_hash : string) (cip proposal : jsval)
  | NotIntercepted (reason : string).

Definition interceptToolCall (input : jsval) : GatewayInterceptOutcome :=
  if negb (is_non_empty (get input "tool_name")) then NotIntercepted "missing_tool_name"
  else if negb (truthy (get input "agent_id")) || negb (truthy (get input "session_id")) then
    NotIntercepted "missing_agent_context"
  else if negb (truthy (get input "intent")) then NotIntercepted "missing_intent"
  else
    let observation := formObservationArtifact (JObj
      [("agent_id", get input "agent_id"); ("session_id", get input "session_id");
       ("tool_name", get input "tool_name"); ("tool_input", get input "tool_input");
       ("observed_at", get input "timestamp")]) in
    let observation_hash := hashCanonical observation in
    let cip := formCIPProposal observation observation_hash (get input "intent")
      (get input "scope") (get input "constraints") in
    INTERCEPTED observation observation_hash cip (formGovernanceProposal cip).
End Lower.

(** * Template and predicate registries *)
Section Registries.
(** The rows of the query of a registry for the given key, and [JSON.parse]. *)
Context (json_parse : string → option jsval).

Definition parseJsonArray (raw : jsval) : list string :=
  match raw with
  | JStr s =>
      match json_parse s with
      | Some (JArr l) => map to_string l
      | _ => []
      end
  | _ => []
  end.

Inductive AEOTemplateSelectResult :=
  | VALID_TEMPLATE (template : jsval)
  | NoTemplate (reason : string).

(** [row]: the first row, [null] when there is none. *)
Definition selectAEOTemplate (row : string → jsval) (surface_type risk_class : string) :
    AEOTemplateSelectResult :=
  let row := row surface_type in
  let strs k := JArr (map JStr (parseJsonArray (get row k))) in
  if negb (truthy row) then NoTemplate "TEMPLATE_NOT_FOUND"
  else if negb (String.eqb (text (get row "status")) "ACTIVE") then NoTemplate "SCHEMA_INACTIVE"
  else if negb (String.eqb (text (get row "surface_type")) surface_type) then
    NoTemplate "TEMPLATE_SURFACE_MISMATCH"
  else if (riskLevel risk_class <? riskLevel (text (get row "risk_floor")))%Z then
    NoTemplate "RISK_FLOOR_VIOLATION"
  else
    VALID_TEMPLATE (JObj
      [("template_id", JStr (text (get row "template_id")));
       ("schema_version", JStr (text (get row "schema_version")));
       ("surface_type", JStr (text (get row "surface_type"))); ("status", JStr "ACTIVE");
       ("risk_floor", JStr (text (get row "risk_floor")));
       ("required_scope_fields", strs "required_scope_fields");
       ("required_target_fields", strs "required_target_fields");
       ("required_validation_fields", strs "required_validation_fields");
       ("required_finality_fields", strs "required_finality_fields");
       ("predicate_set", strs "predicate_set");
       ("failure_result", JStr (to_string (js_or (get row "failure_result") (JStr "NULL"))));
       ("created_at", JStr (text (get row "created_at")))]).

(** The texts of some fields of a row, when all of them are there. *)
Fixpoint texts (row : jsval) (ks : list string) : option (list (string * jsval)) :=
  match ks with
  | [] => Some []
  | k :: ks' =>
      match nonEmptyText (get row k), texts row ks' with
      | Some t, Some l => Some ((k, JStr t) :: l)
      | _, _ => None
      end
  end.

Definition TEMPLATE_FIELDS : list string :=
  ["template_id"; "schema_version"; "surface_type"; "risk_floor"; "predicate_set_id";
   "predicate_hash"; "lineage_version"].

Definition resolveAgentToolTemplate (query : string → jsval) (surface_type : jsval) : jsval :=
  match nonEmptyText surface_type with
  | None => JNull
  | Some requestedSurfaceType =>
      match rows_of (query requestedSurfaceType) with
      | [row] =>
          if negb (bool_decide (nonEmptyText (get row "status") = Some "ACTIVE")) then JNull
          else if negb (bool_decide (nonEmptyText (get row "surface_type")
                          = Some requestedSurfaceType)) then JNull
          else
            match texts row TEMPLATE_FIELDS with
            | None => JNull
            | Some fields => JObj fields
            end
      | _ => JNull
      end
  end.

Definition parsePredicateIds (v : jsval) : option (list jsval) :=
  match nonEmptyText v with
  | None => None
  | Some raw =>
      match json_parse raw with
      | Some (JArr l) =>
          let ids := map nonEmptyText l in
          if existsb (λ i, bool_decide (i = None)) ids then None
          else Some (omap (option_map JStr) ids)
      | _ => None
      end
  end.

Definition parseSideEffectsAllowed (v : jsval) : jsval :=
  match v with
  | JStr s =>
      if String.eqb (js_trim s) "false" then JBool false
      else if String.eqb (js_trim s) "true" then JBool true else v
  | _ => v
  end.

Definition resolvePredicateDefinition (query : string → jsval) (predicate_set_id : jsval) : jsval :=
  match nonEmptyText predicate_set_id with
  | None => JNull
  | Some requestedPredicateSetId =>
      match rows_of (query requestedPredicateSetId) with
      | [row] =>
          if negb (bool_decide (nonEmptyText (get row "status") = Some "ACTIVE")) then JNull
          else if negb (bool_decide (nonEmptyText (get row "predicate_set_id")
                          = Some requestedPredicateSetId)) then JNull
          else
            match nonEmptyText (get row "predicate_hash"), nonEmptyText (get row "lineage_version"),
              parsePredicateIds (get row "predicate_ids") with
            | Some predicateHash, Some lineageVersion, Some predicateIds =>
                JObj [("predicate_set_id", JStr requestedPredicateSetId);
                      ("predicate_hash", JStr predicateHash);
                      ("lineage_version", JStr lineageVersion);
                      ("predicate_ids", JArr predicateIds);
                      ("side_effects_allowed",
                       parseSideEffectsAllowed (get row "side_effects_allowed"))]
            | _, _, _ => JNull
            end
      | _ => JNull
      end
  end.
End Registries.

(** The purity gate: [None] is the fixed violation. *)
Definition validatePredicateDefinitionPurity {T} (predicate_definition : jsval)
    (continueValidation : jsval → T) : option T :=
  if negb (truthy predicate_definition)
     || negb (bool_decide (get predicate_definition "side_effects_allowed" = JBool false)) then None
  else
    Some (continueValidation
      (JObj (assoc_set "side_effects_allowed" (JBool false) (props predicate_definition)))).

(** * Binding, contract, envelope, outcome, proof *)
Definition non_blanks (v : jsval) (ks : list string) : bool :=
  forallb (λ k, is_non_blank (get v k)) ks.

(** The object with some properties of a value, in the given order. *)
Definition pick (v : jsval) (ks : list string) : jsval := JObj (map (λ k, (k, get v k)) ks).

Definition BINDING_FIELDS : list string :=
  ["template_id"; "schema_version"; "predicate_set_id"; "predicate_hash"; "lineage_version"].

Definition createValidatorBinding (template_id schema_version predicate_set_id predicate_hash
    lineage_version : jsval) : jsval :=
  let binding := JObj
    [("template_id", template_id); ("schema_version", schema_version);
     ("predicate_set_id", predicate_set_id); ("predicate_hash", predicate_hash);
     ("lineage_version", lineage_version)] in
  if negb (non_blanks binding BINDING_FIELDS) then JNull else binding.

Definition createPredicateVerificationContract (binding predicate : jsval) : jsval :=
  if negb (truthy binding) || negb (truthy predicate) then JNull
  else if negb (bool_decide (get predicate "side_effects_allowed" = JBool false)) then JNull
  else if negb (non_blanks binding BINDING_FIELDS) then JNull
  else if negb (bool_decide (get binding "predicate_set_id" = get predicate "predicate_set_id"))
  then JNull
  else if negb (bool_decide (get binding "predicate_hash" = get predicate "predicate_hash"))
  then JNull
  else if negb (bool_decide (get binding "lineage_version" = get predicate "lineage_version"))
  then JNull
  else
    let contract_id := hashCanonical (pick binding BINDING_FIELDS) in
    JObj (("contract_id", JStr contract_id) :: map (λ k, (k, get binding k)) BINDING_FIELDS).

Definition ENVELOPE_FIELDS : list string :=
  ["contract_id"; "template_id"; "predicate_set_id"; "predicate_hash"; "lineage_version"].

Definition createOmegaValidatorInputEnvelope (contract : jsval) : jsval :=
  if negb (truthy contract) then JNull
  else if negb (non_blanks contract ("contract_id" :: BINDING_FIELDS)) then JNull
  else
    let recomputedContractId := hashCanonical (pick contract BINDING_FIELDS) in
    if negb (bool_decide (JStr recomputedContractId = get contract "contract_id")) then JNull
    else
      let envelope_id := hashCanonical (pick contract ENVELOPE_FIELDS) in
      JObj (("envelope_id", JStr envelope_id) :: map (λ k, (k, get contract k)) ENVELOPE_FIELDS).

Definition OMEGA_CONDITION_KEYS : list string :=
  ["valid"; "authorized"; "unused"; "policy_valid"; "replay_safe"; "topology_visible";
   "reconcilable"].

Inductive OmegaValidatorResult := OMEGA_VALID | OMEGA_NULL.

Definition omega_str (r : OmegaValidatorResult) : string :=
  match r with OMEGA_VALID => "VALID" | OMEGA_NULL => "NULL" end.

Definition checkOmegaValidatorBoundary (conditions : jsval) : OmegaValidatorResult :=
  if truthy (get conditions "valid") && truthy (get conditions "authorized")
     && truthy (get conditions "unused") && truthy (get conditions "policy_valid")
     && truthy (get conditions "replay_safe") && truthy (get conditions "topology_visible")
     && truthy (get conditions "reconcilable")
  then OMEGA_VALID else OMEGA_NULL.

Definition is_bool_val (v : jsval) : bool := match v with JBool _ => true | _ => false end.

(** [typeof v === 'object' && v]: the keys that are read of an array are absent. *)
Definition boolean_conditions (conditions : jsval) : bool :=
  (is_record conditions || is_array conditions)
  && forallb (λ k, is_bool_val (get conditions k)) OMEGA_CONDITION_KEYS.

Definition evaluateOmegaValidator (envelope context : jsval) : jsval :=
  if negb (truthy envelope) then JNull
  else if negb (non_blanks envelope ("envelope_id" :: ENVELOPE_FIELDS)) then JNull
  else
    let recomputedEnvelopeId := hashCanonical (pick envelope ENVELOPE_FIELDS) in
    if negb (bool_decide (JStr recomputedEnvelopeId = get envelope "envelope_id")) then JNull
    else if negb (truthy context) then JNull
    else
      let conditions := get context "conditions" in
      if negb (boolean_conditions conditions) then JNull
      else
        let result := JStr (omega_str (checkOmegaValidatorBoundary conditions)) in
        let frozenConditions := pick conditions OMEGA_CONDITION_KEYS in
        let fields := [("envelope_id", get envelope "envelope_id");
          ("contract_id", get envelope "contract_id");
          ("predicate_hash", get envelope "predicate_hash");
          ("lineage_version", get envelope "lineage_version"); ("result", result);
          ("conditions", frozenConditions)] in
        JObj (("outcome_id", JStr (hashCanonical (JObj fields))) :: fields).

Definition OUTCOME_FIELDS : list string :=
  ["envelope_id"; "contract_id"; "predicate_hash"; "lineage_version"; "result"; "conditions"].

Definition PROOF_FIELDS : list string :=
  ["outcome_id"; "envelope_id"; "contract_id"; "predicate_hash"; "lineage_version"].

Definition captureExecutionBoundaryProof (outcome : jsval) : jsval :=
  if negb (truthy outcome) then JNull
  else if negb (bool_decide (get outcome "result" = JStr "VALID")) then JNull
  else if negb (non_blanks outcome PROOF_FIELDS) then JNull
  else if negb (boolean_conditions (get outcome "conditions")) then JNull
  else
    let recomputedOutcomeId := hashCanonical (pick outcome OUTCOME_FIELDS) in
    if negb (bool_decide (JStr recomputedOutcomeId = get outcome "outcome_id")) then JNull
    else
      let fields := map (λ k, (k, get outcome k)) PROOF_FIELDS ++ [("creates_authority", JBool false)] in
      JObj (("proof_id", JStr (hashCanonical (JObj fields))) :: fields).

(** * Theorems: from registries to proof *)

(** The artifacts in the order in which they are formed. *)
Definition contract_of (template predicate : jsval) : jsval :=
  createPredicateVerificationContract
    (createValidatorBinding (get template "template_id") (get template "schema_version")
      (get template "predicate_set_id") (get template "predicate_hash")
      (get template "lineage_version"))
    predicate.

Definition outcome_of_contract (contract context : jsval) : jsval :=
  evaluateOmegaValidator (createOmegaValidatorInputEnvelope contract) context.

Definition proof_of (template predicate context : jsval) : jsval :=
  captureExecutionBoundaryProof (outcome_of_contract (contract_of template predicate) context).

Lemma hash_non_blank v : non_blank (hashCanonical v) = true.
Proof.
  Transparent hashCanonical. unfold hashCanonical. Opaque hashCanonical.
  destruct (sha256Hex_shape (canonicalize v)) as [Hl Hh].
  destruct (sha256Hex (canonicalize v)) as [|c s]; [done|]. cbn in Hh.
  apply andb_true_iff in Hh as [Hc _]. apply visible_non_blank. unfold is_hex in Hc. unfold visible.
  rewrite orb_true_iff, !andb_true_iff, !N.leb_le in Hc. rewrite andb_true_iff, !N.leb_le. lia.
Qed.

(** What the registries and the evaluation context have to say for a proof. *)
Definition bindable (template predicate : jsval) : Prop :=
  (∀ k, k ∈ BINDING_FIELDS → is_non_blank (get template k) = true)
  ∧ get predicate "side_effects_allowed" = JBool false
  ∧ ∀ k, k ∈ ["predicate_set_id"; "predicate_hash"; "lineage_version"] →
      get predicate k = get template k.

Definition all_conditions (context : jsval) : Prop :=
  ∀ k, k ∈ OMEGA_CONDITION_KEYS → get (get context "conditions") k = JBool true.

Definition contract_form (template : jsval) : jsval :=
  JObj (("contract_id", JStr (hashCanonical (pick template BINDING_FIELDS)))
    :: map (λ k, (k, get template k)) BINDING_FIELDS).

(** What the identifiers of a contract and of a proof are digests of. *)
Definition binding_texts (template proof : jsval) : list string :=
  [canonicalize (pick template BINDING_FIELDS);
   canonicalize (JObj (map (λ k, (k, get proof k)) PROOF_FIELDS ++ [("creates_authority", JBool false)]))].

Lemma non_blanks_iff v ks :
  non_blanks v ks = true ↔ ∀ k, k ∈ ks → is_non_blank (get v k) = true.
Proof. apply forallb_elem. Qed.

Lemma get_truthy v k b : get v k = JBool b → truthy v = true.
Proof. by destruct v. Qed.

Lemma contract_cases template predicate :
  (bindable template predicate ∧ contract_of template predicate = contract_form template)
  ∨ (¬ bindable template predicate ∧ contract_of template predicate = JNull).
Proof.
  unfold contract_of, createValidatorBinding, createPredicateVerificationContract, bindable.
  rewrite <- non_blanks_iff.
  set (binding := JObj _). change (non_blanks binding BINDING_FIELDS) with
    (non_blanks template BINDING_FIELDS).
  destruct (non_blanks template BINDING_FIELDS) eqn:Enb; cbn [negb]; [|right; naive_solver].
  cbn [truthy binding negb orb].
  destruct (truthy predicate) eqn:Et; cbn [negb].
  2:{ right. split; [|done]. intros (_ & H & _). apply get_truthy in H. congruence. }
  destruct (bool_decide (get predicate _ = JBool false)) eqn:Ese;
    [apply bool_decide_eq_true in Ese|apply bool_decide_eq_false in Ese; right; naive_solver].
  cbn [negb]. change (non_blanks binding BINDING_FIELDS) with (non_blanks template BINDING_FIELDS).
  rewrite Enb. cbn [negb].
  repeat match goal with
  | |- context [bool_decide (get binding ?k = ?w)] =>
      let E := fresh "E" in
      destruct (bool_decide (get binding k = w)) eqn:E;
      [apply bool_decide_eq_true in E; change (get binding k) with (get template k) in E; cbn [negb]
      |apply bool_decide_eq_false in E; change (get binding k) with (get template k) in E;
       right; split; [intros (_ & _ & H); apply E; symmetry; apply H; set_solver|done]]
  end.
  left. split; [|done]. split; [done|]. split; [done|].
  intros k Hk. repeat (apply elem_of_cons in Hk as [->|Hk]; [done|]). by apply elem_of_nil in Hk.
Qed.

(** The form of the later artifacts of a contract. *)
Definition envelope_form (contract : jsval) : jsval :=
  JObj (("envelope_id", JStr (hashCanonical (pick contract ENVELOPE_FIELDS)))
    :: map (λ k, (k, get contract k)) ENVELOPE_FIELDS).

Lemma form_non_blanks template :
  non_blanks template BINDING_FIELDS = true →
  non_blanks (contract_form template) ("contract_id" :: BINDING_FIELDS) = true.
Proof.
  intros H. change (is_non_blank (JStr (hashCanonical (pick template BINDING_FIELDS)))
    && non_blanks template BINDING_FIELDS = true).
  rewrite H. cbn [is_non_blank]. by rewrite hash_non_blank.
Qed.

Lemma envelope_of_form template :
  non_blanks template BINDING_FIELDS = true →
  createOmegaValidatorInputEnvelope (contract_form template) = envelope_form (contract_form template)
  ∧ non_blanks (envelope_form (contract_form template)) ("envelope_id" :: ENVELOPE_FIELDS) = true.
Proof.
  intros H. pose proof (form_non_blanks template H) as Hf. split.
  - unfold createOmegaValidatorInputEnvelope. rewrite Hf. cbn [truthy contract_form negb].
    rewrite bool_decide_eq_true_2 by reflexivity. done.
  - apply non_blanks_iff. intros k Hk. rewrite non_blanks_iff in Hf.
    repeat (apply elem_of_cons in Hk as [->|Hk];
      [first [apply hash_non_blank | apply Hf; set_solver]|]). by apply elem_of_nil in Hk.
Qed.

Definition outcome_fields (envelope conditions : jsval) : list (string * jsval) :=
  [("envelope_id", get envelope "envelope_id"); ("contract_id", get envelope "contract_id");
   ("predicate_hash", get envelope "predicate_hash");
   ("lineage_version", get envelope "lineage_version");
   ("result", JStr (omega_str (checkOmegaValidatorBoundary conditions)));
   ("conditions", pick conditions OMEGA_CONDITION_KEYS)].

Definition outcome_form (envelope conditions : jsval) : jsval :=
  JObj (("outcome_id", JStr (hashCanonical (JObj (outcome_fields envelope conditions))))
    :: outcome_fields envelope conditions).

Lemma outcome_cases template context :
  non_blanks template BINDING_FIELDS = true →
  let envelope := envelope_form (contract_form template) in
  outcome_of_contract (contract_form template) context
  = if truthy context && boolean_conditions (get context "conditions")
    then outcome_form envelope (get context "conditions") else JNull.
Proof.
  intros H. cbv zeta. unfold outcome_of_contract. destruct (envelope_of_form template H) as [-> He].
  unfold evaluateOmegaValidator. rewrite He. cbn [truthy envelope_form negb].
  rewrite bool_decide_eq_true_2 by reflexivity. cbn [negb].
  destruct (truthy context); [|done]. cbn [negb andb].
  by destruct (boolean_conditions (get context "conditions")).
Qed.

Lemma conditions_valid conditions :
  boolean_conditions conditions = true →
  checkOmegaValidatorBoundary conditions = OMEGA_VALID ↔
  ∀ k, k ∈ OMEGA_CONDITION_KEYS → get conditions k = JBool true.
Proof.
  intros [_ Hb]%andb_true_iff. rewrite forallb_elem in Hb.
  assert (∀ k, k ∈ OMEGA_CONDITION_KEYS → truthy (get conditions k) = true ↔ get conditions k = JBool true)
    as Ht.
  { intros k Hk. specialize (Hb k Hk). destruct (get conditions k) as [| |[]| | | |]; done. }
  transitivity (∀ k, k ∈ OMEGA_CONDITION_KEYS → truthy (get conditions k) = true).
  - rewrite <- forallb_elem. unfold checkOmegaValidatorBoundary.
    change (forallb (λ k, truthy (get conditions k)) OMEGA_CONDITION_KEYS) with
      (truthy (get conditions "valid") && (truthy (get conditions "authorized")
       && (truthy (get conditions "unused") && (truthy (get conditions "policy_valid")
       && (truthy (get conditions "replay_safe") && (truthy (get conditions "topology_visible")
       && (truthy (get conditions "reconcilable") && true))))))).
    rewrite andb_true_r, !andb_assoc. by destruct (_ && _).
  - split; intros H k Hk; apply Ht; auto.
Qed.

Lemma conditions_true conditions :
  (∀ k, k ∈ OMEGA_CONDITION_KEYS → get conditions k = JBool true) →
  boolean_conditions conditions = true.
Proof.
  intros H. apply andb_true_iff. split.
  - specialize (H "valid"). destruct conditions; try done; exfalso; by discriminate H; set_solver.
  - apply forallb_elem. intros k Hk. by rewrite H.
Qed.

Definition proof_form (outcome : jsval) : jsval :=
  let fields := map (λ k, (k, get outcome k)) PROOF_FIELDS ++ [("creates_authority", JBool false)] in
  JObj (("proof_id", JStr (hashCanonical (JObj fields))) :: fields).

Lemma picked_boolean conditions :
  boolean_conditions conditions = true →
  boolean_conditions (pick conditions OMEGA_CONDITION_KEYS) = true.
Proof. intros [_ H]%andb_true_iff. by apply andb_true_iff. Qed.

Lemma capture_form template conditions :
  non_blanks template BINDING_FIELDS = true → boolean_conditions conditions = true →
  let outcome := outcome_form (envelope_form (contract_form template)) conditions in
  captureExecutionBoundaryProof outcome
  = match checkOmegaValidatorBoundary conditions with
    | OMEGA_VALID => proof_form outcome
    | OMEGA_NULL => JNull
    end.
Proof.
  intros Ht Hc. cbv zeta. set (outcome := outcome_form _ _).
  assert (non_blanks outcome PROOF_FIELDS = true) as Hn.
  { pose proof (envelope_of_form template Ht) as [_ He]. rewrite non_blanks_iff in He |- *.
    intros k Hk. repeat (apply elem_of_cons in Hk as [->|Hk];
      [first [apply hash_non_blank | apply He; set_solver]|]). by apply elem_of_nil in Hk. }
  unfold captureExecutionBoundaryProof. rewrite Hn.
  change (get outcome "conditions") with (pick conditions OMEGA_CONDITION_KEYS).
  rewrite picked_boolean by done.
  change (get outcome "result") with (JStr (omega_str (checkOmegaValidatorBoundary conditions))).
  cbn [truthy outcome outcome_form negb].
  destruct (checkOmegaValidatorBoundary conditions) eqn:Ec; [|done].
  rewrite bool_decide_eq_true_2 by done. cbn [negb].
  by rewrite bool_decide_eq_true_2 by reflexivity.
Qed.

Lemma proof_formed template predicate context :
  proof_of template predicate context ≠ JNull ↔
  bindable template predicate ∧ all_conditions context.
Proof.
  unfold proof_of. destruct (contract_cases template predicate) as [[Hb ->]|[Hb ->]];
    [|by split; [|intros [? _]]].
  pose proof Hb as [Ht _]. apply non_blanks_iff in Ht. rewrite outcome_cases by done.
  destruct (truthy context && boolean_conditions (get context "conditions")) eqn:Ec.
  - apply andb_true_iff in Ec as [_ Ec]. rewrite capture_form by done.
    unfold all_conditions. rewrite <- conditions_valid by done.
    destruct (checkOmegaValidatorBoundary _); [done|]. by split; [|intros [_ ?]].
  - split; [done|]. intros [_ Hall].
    pose proof (conditions_true _ Hall) as Hbool. rewrite Hbool, andb_true_r in Ec.
    specialize (Hall "valid"). destruct context; try done; discriminate Hall; set_solver.
Qed.

(** ** Binding *)
Lemma pick_binding v w ks :
  hashCanonical (pick v ks) = hashCanonical (pick w ks) →
  (∀ k, k ∈ ks → k ≠ proto_key ∧ is_non_blank (get v k) = true) →
  (∀ k, k ∈ ks → get w k = get v k)
  ∨ collision_in [canonicalize (pick v ks); canonicalize (pick w ks)].
Proof.
  intros E Hks. apply hash_binding in E as [E|?]; [left|by right]. intros k Hk.
  assert (∀ u, get (pick u ks) k = get u k) as Hp.
  { intros u. unfold pick. cbn. clear -Hk. induction ks as [|j ks IH]; [by apply elem_of_nil in Hk|].
    cbn. destruct (String.eqb_spec k j) as [->|]; [done|]. apply IH. set_solver. }
  destruct (Hks k Hk) as [Hpr Hn]. rewrite <- (Hp v), <- (Hp w). apply rigid_get; [done| |done].
  rewrite Hp. by apply is_non_blank_inv in Hn as (s & -> & _).
Qed.

Lemma proof_form_of template predicate context :
  proof_of template predicate context ≠ JNull →
  non_blanks template BINDING_FIELDS = true
  ∧ ∃ conditions, proof_of template predicate context
      = proof_form (outcome_form (envelope_form (contract_form template)) conditions).
Proof.
  unfold proof_of. destruct (contract_cases template predicate) as [[[Ht _] ->]|[_ ->]]; [|done].
  apply non_blanks_iff in Ht. rewrite outcome_cases by done.
  destruct (_ && _) eqn:Ec; [|done]. apply andb_true_iff in Ec as [_ Ec].
  rewrite capture_form by done. destruct (checkOmegaValidatorBoundary _); [|done]. eauto.
Qed.

(** A proof is formed by nothing less than everything. From a template and a
    predicate definition, the binding, contract, envelope, outcome and proof that
    follow from one another end in a proof exactly when the five identities of the
    template are not blank, the predicate is declared free of side effects and
    agrees with the template on its identity, and all seven conditions of the
    context are the boolean true. The proof then names the template's predicate
    and lineage, and grants no authority. *)
Theorem proof_iff template predicate context :
  let proof := proof_of template predicate context in
  (proof ≠ JNull ↔ bindable template predicate ∧ all_conditions context)
  ∧ (proof ≠ JNull → get proof "creates_authority" = JBool false
       ∧ get proof "predicate_hash" = get template "predicate_hash"
       ∧ get proof "lineage_version" = get template "lineage_version").
Proof.
  cbv zeta. split; [apply proof_formed|]. by intros (_ & c & ->)%proof_form_of.
Qed.

(** A proof identifies what it proves. Two runs whose proofs carry the same
    identifier were made from templates with the same identifier, schema version,
    predicate set, predicate hash and lineage version, or among the texts they
    were identified by (the templates' bound fields, the proofs' own fields) two have
    one digest. *)
Theorem proof_binds_template template predicate context template' predicate' context' :
  let proof := proof_of template predicate context in
  let proof' := proof_of template' predicate' context' in
  proof ≠ JNull → proof' ≠ JNull → get proof "proof_id" = get proof' "proof_id" →
  (∀ k, k ∈ BINDING_FIELDS → get template' k = get template k)
  ∨ collision_in (binding_texts template proof ++ binding_texts template' proof').
Proof.
  cbv zeta. intros (Ht & c & ->)%proof_form_of (Ht' & c' & ->)%proof_form_of E.
  cbn [get proof_form assoc] in E. rewrite String.eqb_refl in E. cbn [default] in E.
  injection E as E. apply hash_binding in E as [E|Hc].
  2:{ right. eapply collision_in_mono; [exact Hc|]. intros t Ht0. right.
      apply elem_of_cons in Ht0 as [->|Ht0]; [by left|].
      apply list_elem_of_singleton in Ht0 as ->. by right; right; left. }
  apply (normalize_get _ _ "contract_id") in E; [|done].
  cbn in E. injection E as E. apply pick_binding in E.
  { destruct E as [E|Hc]; [by left|right]. unfold binding_texts. collide. }
  rewrite non_blanks_iff in Ht. intros k Hk. split; [|by apply Ht].
  repeat (apply elem_of_cons in Hk as [->|Hk]; [done|]). by apply elem_of_nil in Hk.
Qed.

(** * What the chain of hashes does not protect *)

(** An outcome that claims to be VALID, with its own identifier. *)
Definition forged_outcome (envelope_id contract_id predicate_hash lineage_version : string)
    (conditions : jsval) : jsval :=
  let fields := [("envelope_id", JStr envelope_id); ("contract_id", JStr contract_id);
    ("predicate_hash", JStr predicate_hash); ("lineage_version", JStr lineage_version);
    ("result", JStr "VALID"); ("conditions", conditions)] in
  JObj (("outcome_id", JStr (hashCanonical (JObj fields))) :: fields).

(** A proof is captured of any outcome that claims to be VALID. The recorded
    conditions only have to be booleans: an outcome with all of them false, whose
    identifier is the digest of its own fields, yields a proof, for any envelope,
    contract, predicate and lineage that it names. *)
Theorem forged_outcome_proved e c p l b :
  non_blank e = true → non_blank c = true → non_blank p = true → non_blank l = true →
  let conditions := JObj (map (λ k, (k, JBool b)) OMEGA_CONDITION_KEYS) in
  captureExecutionBoundaryProof (forged_outcome e c p l conditions) ≠ JNull.
Proof.
  intros He Hc Hp Hl. cbv zeta. set (outcome := forged_outcome _ _ _ _ _).
  assert (non_blanks outcome PROOF_FIELDS = true) as Hn.
  { apply non_blanks_iff. intros k Hk.
    apply elem_of_cons in Hk as [->|Hk]; [apply hash_non_blank|].
    apply elem_of_cons in Hk as [->|Hk]; [exact He|].
    apply elem_of_cons in Hk as [->|Hk]; [exact Hc|].
    apply elem_of_cons in Hk as [->|Hk]; [exact Hp|].
    apply list_elem_of_singleton in Hk as ->. exact Hl. }
  unfold captureExecutionBoundaryProof. rewrite Hn.
  cbn [truthy outcome forged_outcome negb].
  rewrite bool_decide_eq_true_2 by done. cbn [negb].
  match goal with |- context [boolean_conditions ?x] => change (boolean_conditions x) with true end.
  cbn [negb]. by rewrite bool_decide_eq_true_2 by reflexivity.
Qed.

(** * Theorems: interception *)
Section Interception.
Context (to_lower : string → string).

Lemma intercepted_fields input observation hash cip proposal :
  interceptToolCall to_lower input = INTERCEPTED observation hash cip proposal →
  hash = hashCanonical observation
  ∧ get cip "authority_space" = JStr "not_populated"
  ∧ get cip "execution_space" = JStr "not_populated"
  ∧ get proposal "observation_hash" = JStr hash
  ∧ get proposal "creates_atao" = JBool false ∧ get proposal "creates_aeo" = JBool false
  ∧ get proposal "requires_authority_binding"
    = JBool (negb (bool_decide
        ((classifyGatewayToolSurface to_lower (to_string (get input "tool_name"))).2 = P0))).
Proof.
  unfold interceptToolCall. do 4 (destruct (negb _); [done|]).
  intros [= <- <- <- <-]. repeat (split; [reflexivity|]).
  unfold formObservationArtifact.
  change (get (JObj _) "tool_name") with (get input "tool_name").
  destruct (classifyGatewayToolSurface to_lower (to_string (get input "tool_name"))) as [sys risk].
  by destruct risk.
Qed.

(** The risk of an unlisted tool is read off the beginning of its name. Every
    intercepted call names no authority and creates none; but if the normalized
    name of the tool starts with a word of reading and is not in the table, the
    call counts as read-only and its proposal asks for no authority binding,
    whatever follows: [get_and_delete_repository], [fetch_then_deploy]. *)
Theorem read_prefix_needs_no_authority input observation hash cip proposal prefix rest :
  interceptToolCall to_lower input = INTERCEPTED observation hash cip proposal →
  prefix ∈ READ_PREFIXES →
  normalized_name to_lower (to_string (get input "tool_name")) = prefix +:+ rest →
  map_get (prefix +:+ rest) GATEWAY_TOOL_RISK_TABLE = None →
  get observation "risk_class" = JStr "P0"
  ∧ get proposal "requires_authority_binding" = JBool false.
Proof.
  intros Hi Hp Hn Ht. pose proof (intercepted_fields _ _ _ _ _ Hi) as (_ & _ & _ & _ & _ & _ & ->).
  assert (classifyGatewayToolSurface to_lower (to_string (get input "tool_name")) = (ReadOnly, P0))
    as Hc.
  { unfold classifyGatewayToolSurface. rewrite Hn, Ht.
    assert (any_prefix READ_PREFIXES (prefix +:+ rest) = true) as ->; [|by rewrite orb_true_r].
    apply existsb_elem. exists prefix. split; [done|]. clear. induction prefix as [|c p IH]; [done|].
    cbn. rewrite IH. by rewrite Ascii.eqb_refl. }
  split; [|by rewrite Hc]. revert Hi. unfold interceptToolCall.
  do 4 (destruct (negb _); [done|]). intros [= <- _ _ _].
  unfold formObservationArtifact. change (get (JObj _) "tool_name") with (get input "tool_name").
  by rewrite Hc.
Qed.
End Interception.

(** * Witnesses *)
Definition fixture_template : jsval :=
  JObj [("template_id", JStr "t"); ("schema_version", JStr "1"); ("predicate_set_id", JStr "p");
        ("predicate_hash", JStr "h"); ("lineage_version", JStr "l")].

Definition fixture_predicate : jsval :=
  JObj [("predicate_set_id", JStr "p"); ("predicate_hash", JStr "h"); ("lineage_version", JStr "l");
        ("side_effects_allowed", JBool false)].

Definition fixture_context : jsval :=
  JObj [("conditions", JObj (map (λ k, (k, JBool true)) OMEGA_CONDITION_KEYS))].

Lemma fixture_proof : proof_of fixture_template fixture_predicate fixture_context ≠ JNull.
Proof.
  apply proof_formed. split.
  - split; [|split; [done|]].
    + apply non_blanks_iff. reflexivity.
    + intros k Hk. repeat (apply elem_of_cons in Hk as [->|Hk]; [done|]). by apply elem_of_nil in Hk.
  - intros k Hk. repeat (apply elem_of_cons in Hk as [->|Hk]; [done|]). by apply elem_of_nil in Hk.
Qed.

Lemma proof_binds_template_witness :
  (∀ k, k ∈ BINDING_FIELDS → get fixture_template k = get fixture_template k)
  ∨ let proof := proof_of fixture_template fixture_predicate fixture_context in
    collision_in (binding_texts fixture_template proof ++ binding_texts fixture_template proof).
Proof.
  apply (proof_binds_template fixture_template fixture_predicate fixture_context
    fixture_template fixture_predicate fixture_context); [apply fixture_proof..|reflexivity].
Defined.

Lemma forged_outcome_proved_witness :
  captureExecutionBoundaryProof (forged_outcome "e" "c" "p" "l"
    (JObj (map (λ k, (k, JBool false)) OMEGA_CONDITION_KEYS))) ≠ JNull.
Proof. by apply (forged_outcome_proved "e" "c" "p" "l" false). Defined.

Definition fixture_call : jsval :=
  JObj [("agent_id", JStr "a"); ("session_id", JStr "s");
        ("tool_name", JStr "get-and-delete_repository"); ("tool_input", JObj []);
        ("intent", JStr "i"); ("scope", JObj []); ("constraints", JObj []);
        ("timestamp", JStr "t")].

Lemma read_prefix_needs_no_authority_witness :
  match interceptToolCall (λ s, s) fixture_call with
  | INTERCEPTED observation _ _ proposal =>
      get observation "risk_class" = JStr "P0"
      ∧ get proposal "requires_authority_binding" = JBool false
  | NotIntercepted _ => False
  end.
Proof.
  destruct (interceptToolCall (λ s, s) fixture_call) as [o h c p|r] eqn:E; [|discriminate E].
  apply (read_prefix_needs_no_authority (λ s, s) fixture_call o h c p "get_" "and_delete_repository").
  - exact E.
  - left.
  - reflexivity.
  - reflexivity.
Defined.
