(* ===== verification/ConflictArbitration.v ===== *)
(** Arbitration of legitimacy conflicts: [src/legitimacy-conflict-arbitration.ts].

    Artifacts are run-time values, classifications are records. *)
From Stdlib Require Import ZArith NArith Lia Ascii Sorted.
From stdpp Require Import base list strings sets.
From S2P Require Import Prelude JsValue Sha256 Canonical LineageGraph.

Inductive LegitimacyConflictResult :=
  | CONFLICT_NONE | CONFLICT_OBSERVED | CONFLICT_REQUIRES_RECONCILIATION
  | CONFLICT_REQUIRES_HUMAN_REVIEW | CONFLICT_UNRESOLVABLE | CONFLICT_NULL.

#[export] Instance conflict_result_eq_dec : EqDecision LegitimacyConflictResult.
Proof. solve_decision. Defined.

Definition conflict_str (r : LegitimacyConflictResult) : string :=
  match r with
  | CONFLICT_NONE => "CONFLICT_NONE"
  | CONFLICT_OBSERVED => "CONFLICT_OBSERVED"
  | CONFLICT_REQUIRES_RECONCILIATION => "CONFLICT_REQUIRES_RECONCILIATION"
  | CONFLICT_REQUIRES_HUMAN_REVIEW => "CONFLICT_REQUIRES_HUMAN_REVIEW"
  | CONFLICT_UNRESOLVABLE => "CONFLICT_UNRESOLVABLE"
  | CONFLICT_NULL => "NULL"
  end.

Inductive ConflictSeverityLevel := LOW | MEDIUM | HIGH | CRITICAL.

Definition severity_str (s : ConflictSeverityLevel) : string :=
  match s with LOW => "LOW" | MEDIUM => "MEDIUM" | HIGH => "HIGH" | CRITICAL => "CRITICAL" end.

(** The classes of conflict that the code assigns, by their text after the common
    prefix. *)
Definition conflict_class (s : string) : string := "legitimacy_conflict_" +:+ s.

(** * Hashes *)
Definition array_items (v : jsval) : list jsval := match v with JArr l => l | _ => [] end.

Definition item_text (v : jsval) : string := match v with JStr s => s | _ => canonicalize v end.

Definition sortedArrayValues (l : list jsval) : list string := sort_by str_leb (map item_text l).

Definition omit (ks : list string) (v : jsval) : list (string * jsval) :=
  List.filter (λ kv : string * jsval, negb (str_in kv.1 ks)) (props v).

(** [sort()] without a comparator compares the texts of the items. *)
Definition plain_sorted (x : jsval) : jsval :=
  match x with JArr l => JArr (sort_by (λ a b, str_leb (to_string a) (to_string b)) l) | _ => x end.

Definition values_sorted (x : jsval) : jsval :=
  match x with JArr l => JArr (map JStr (sortedArrayValues l)) | _ => x end.

Definition SORTED_FIELDS : list (string * (jsval → jsval)) :=
  [("arbitration_classes", plain_sorted); ("surfaces", values_sorted);
   ("lineage_inputs", values_sorted); ("proof_inputs", values_sorted);
   ("causal_inputs", values_sorted)].

(** [{ ...rest, k: sorted(rest.k), ... }]. *)
Definition with_sorted (ks : list (string * (jsval → jsval))) (rest : list (string * jsval)) :
    jsval :=
  JObj (fold_left (λ ps kf, assoc_set kf.1 (kf.2 (get (JObj rest) kf.1)) ps) ks rest).

Definition computeLegitimacyConflictHash (fields : jsval) : string :=
  hashCanonical (with_sorted SORTED_FIELDS (omit ["conflict_hash"] fields)).

Definition computeArbitrationHash (fields : jsval) : string :=
  hashCanonical (with_sorted SORTED_FIELDS (omit ["conflict_hash"; "arbitration_hash"] fields)).

(** * Boundary *)

(** [k in obj] and [obj.k === true]. *)
Definition has_key (k : string) (obj : jsval) : bool := str_in k (keys obj).
Definition is_true (k : string) (obj : jsval) : bool := bool_decide (get obj k = JBool true).

(** The class of the first check that an object meets. *)
Fixpoint first_class (checks : list ((jsval → bool) * string)) (obj : jsval) : option string :=
  match checks with
  | [] => None
  | (p, c) :: checks' => if p obj then Some c else first_class checks' obj
  end.

Definition CONFLICT_BOUNDARY : list ((jsval → bool) * string) :=
  [(has_key "implicit_priority", conflict_class "implicit_priority_forbidden");
   (is_true "creates_authority", conflict_class "authority_attempt");
   (is_true "creates_execution", conflict_class "execution_attempt");
   (is_true "creates_proof", conflict_class "proof_attempt");
   (is_true "mutates_registry", conflict_class "registry_mutation");
   (has_key "registry_mutation", conflict_class "registry_mutation");
   (has_key "authority_grant", conflict_class "boundary_violation");
   (has_key "execution_token", conflict_class "boundary_violation");
   (has_key "proof_signature", conflict_class "boundary_violation");
   (has_key "deployment_trigger", conflict_class "boundary_violation");
   (has_key "lineage_repair", conflict_class "boundary_violation");
   (has_key "auto_resolve", conflict_class "boundary_violation");
   (has_key "automatic_repair", conflict_class "boundary_violation");
   (has_key "stale_state_preferred", conflict_class "boundary_violation");
   (has_key "break_glass", conflict_class "break_glass_normalization");
   (has_key "is_break_glass", conflict_class "break_glass_normalization");
   (has_key "break_glass_normalized", conflict_class "break_glass_normalization")].

Definition validateConflictBoundary (input : jsval) : option string :=
  if is_record input then first_class CONFLICT_BOUNDARY input else None.

(** * Classification *)
Record Classification := mkConflict {
  arbitration_result : LegitimacyConflictResult;
  arbitration_classes : list string;
  cf_severity : ConflictSeverityLevel;
  reconciliation_required : bool;
  human_review_required : bool;
  topology_conflict_detected : bool;
  replay_sensitive : bool
}.

Definition buildClassificationRecord (r : LegitimacyConflictResult) (classes : list string)
    (s : ConflictSeverityLevel) (reconcile review topology replay : bool) : Classification :=
  mkConflict r (sort_by str_leb classes) s reconcile review topology replay.

Definition null_conflict (class : string) : Classification :=
  buildClassificationRecord CONFLICT_NULL [conflict_class class] CRITICAL false false false false.

Definition CONDITIONS : list (string * string) :=
  [("topology_drift_detected", "topology_drift"); ("lineage_divergence_detected", "lineage_divergence");
   ("proof_divergence_detected", "proof_divergence");
   ("registry_divergence_detected", "registry_divergence");
   ("replay_ambiguity_detected", "replay_ambiguity");
   ("causal_ambiguity_detected", "causal_ambiguity")].

Definition condition_classes (obj : jsval) : list string :=
  map (λ kc : string * string, conflict_class kc.2)
    (List.filter (λ kc : string * string, is_true kc.1 obj) CONDITIONS).

Definition reconstructable (obj : jsval) : bool :=
  negb (bool_decide (get obj "topology_reconstructable" = JBool false)).

(** The rules, in order: result, severity, reconciliation and review required. *)
Definition arbitration_rule (obj : jsval) :
    LegitimacyConflictResult * ConflictSeverityLevel * bool * bool * string :=
  if negb (reconstructable obj) then
    (CONFLICT_UNRESOLVABLE, CRITICAL, true, true, conflict_class "unresolvable")
  else if is_true "replay_ambiguity_detected" obj || is_true "causal_ambiguity_detected" obj then
    (CONFLICT_REQUIRES_HUMAN_REVIEW, HIGH, false, true, conflict_class "human_review_required")
  else if is_true "topology_drift_detected" obj || is_true "lineage_divergence_detected" obj then
    (CONFLICT_REQUIRES_RECONCILIATION, HIGH, true, false, conflict_class "reconciliation_required")
  else if is_true "proof_divergence_detected" obj || is_true "registry_divergence_detected" obj then
    (CONFLICT_OBSERVED, MEDIUM, false, false, conflict_class "observed")
  else (CONFLICT_NONE, LOW, false, false, conflict_class "none").

Definition classifyLegitimacyConflict (input : jsval) : Classification :=
  if negb (is_record input) then null_conflict "boundary_violation"
  else
    match validateConflictBoundary input with
    | Some violation =>
        buildClassificationRecord CONFLICT_NULL [violation] CRITICAL false false false false
    | None =>
        if negb (is_non_empty (get input "conflict_id"))
           || negb (is_non_empty (get input "conflict_type")) then
          null_conflict "boundary_violation"
        else if nullish (get input "lineage_inputs") then null_conflict "missing_lineage"
        else if negb (nullish (get input "conflict_hash"))
                && negb (isValidSha256 (get input "conflict_hash")) then
          null_conflict "hash_invalid"
        else
          let '(r, s, reconcile, review, class) := arbitration_rule input in
          buildClassificationRecord r
            (sort_by str_leb (dedup [] (class :: condition_classes input))) s reconcile review
            (is_true "topology_drift_detected" input || negb (reconstructable input))
            (is_true "replay_ambiguity_detected" input)
    end.

(** * Arbitration *)
Definition string_items (l : list string) : jsval := JArr (map JStr l).

Definition arbitrateLegitimacyConflict (input : jsval) : jsval :=
  let obj := safeObj input in
  let sorted k := string_items (sortedArrayValues (array_items (get obj k))) in
  let c := classifyLegitimacyConflict input in
  let fields :=
    [("artifact", JStr "LEGITIMACY_CONFLICT_ARBITRATION"); ("evidence_only", JBool true);
     ("creates_authority", JBool false); ("creates_execution", JBool false);
     ("creates_proof", JBool false); ("mutates_registry", JBool false);
     ("conflict_id", JStr (str_or_empty (get obj "conflict_id")));
     ("conflict_type", JStr (str_or_empty (get obj "conflict_type")));
     ("severity", JStr (severity_str (cf_severity c))); ("surfaces", sorted "surfaces");
     ("lineage_inputs", sorted "lineage_inputs"); ("proof_inputs", sorted "proof_inputs");
     ("causal_inputs", sorted "causal_inputs");
     ("arbitration_result", JStr (conflict_str (arbitration_result c)));
     ("arbitration_classes", string_items (sort_by str_leb (arbitration_classes c)));
     ("reconciliation_required", JBool (reconciliation_required c));
     ("human_review_required", JBool (human_review_required c));
     ("topology_conflict_detected", JBool (topology_conflict_detected c));
     ("replay_sensitive", JBool (replay_sensitive c)); ("conflict_hash_alg", JStr "sha256")] in
  JObj (fields ++ [("conflict_hash", JStr (computeLegitimacyConflictHash (JObj fields)))]).

(** * Telemetry *)
Definition one_if (b : bool) : Z := if b then 1%Z else 0%Z.

Definition CONFLICT_VIOLATION_KEYS : list string :=
  ["authority_grant"; "execution_token"; "proof_signature"; "registry_mutation"; "deployment_trigger";
   "lineage_repair"; "implicit_priority"; "auto_resolve"; "automatic_repair"; "stale_state_preferred";
   "break_glass"; "is_break_glass"; "break_glass_normalized"].

Definition violates (cobj : jsval) : bool :=
  existsb (λ k, is_true k cobj)
    ["creates_authority"; "creates_execution"; "creates_proof"; "mutates_registry"]
  || existsb (λ k, has_key k cobj) CONFLICT_VIOLATION_KEYS.

(** The metrics by name; the artifact around them is constant. *)
Definition readConflictTelemetry (arbitration conflicts : jsval) : list (string * Z) :=
  let arb := safeObj arbitration in
  let is_arb := bool_decide (get arb "artifact" = JStr "LEGITIMACY_CONFLICT_ARBITRATION") in
  let result r := one_if (is_arb && bool_decide (get arb "arbitration_result" = JStr (conflict_str r))) in
  let class c := one_if (is_arb && bool_decide (JStr (conflict_class c)
    ∈ array_items (get arb "arbitration_classes"))) in
  [("conflict_none_total", result CONFLICT_NONE);
   ("conflict_observed_total", result CONFLICT_OBSERVED);
   ("conflict_reconciliation_required_total", result CONFLICT_REQUIRES_RECONCILIATION);
   ("conflict_human_review_required_total", result CONFLICT_REQUIRES_HUMAN_REVIEW);
   ("conflict_unresolvable_total", result CONFLICT_UNRESOLVABLE);
   ("lineage_divergence_total", class "lineage_divergence");
   ("replay_ambiguity_total", class "replay_ambiguity");
   ("topology_conflict_total", one_if (is_arb && is_true "topology_conflict_detected" arb));
   ("boundary_violation_total",
    Z.of_nat (length (List.filter (λ c, violates (safeObj c)) (array_items conflicts))))].

(** * Theorems *)
Lemma sort_str_perm l l' : l ≡ₚ l' → sort_by str_leb l = sort_by str_leb l'.
Proof.
  intros Hl. apply (sorted_perm_unique str_leb); auto with js.
  - apply sort_by_sorted; eauto with js.
  - apply sort_by_sorted; eauto with js.
  - by rewrite !sort_by_perm.
Qed.

Lemma sortedArrayValues_perm l l' : l ≡ₚ l' → sortedArrayValues l = sortedArrayValues l'.
Proof. intros Hl. by apply sort_str_perm, Permutation_map. Qed.

Definition INPUT_ARRAYS : list string := ["surfaces"; "lineage_inputs"; "proof_inputs"; "causal_inputs"].

(** The same conflict with its input arrays in another order. *)
Record reordered (input input' : jsval) : Prop := {
  reordered_record : is_record input = is_record input';
  reordered_keys : ∀ k, has_key k input = has_key k input';
  reordered_get : ∀ k, k ∉ INPUT_ARRAYS → get input k = get input' k;
  reordered_items : ∀ k, k ∈ INPUT_ARRAYS →
    nullish (get input k) = nullish (get input' k)
    ∧ array_items (get input k) ≡ₚ array_items (get input' k)
}.

Section Reordered.
Context (input input' : jsval) (Hr : reordered input input').

Lemma reordered_is_true k : k ∉ INPUT_ARRAYS → is_true k input = is_true k input'.
Proof. intros Hk. unfold is_true. by rewrite (reordered_get _ _ Hr). Qed.

Lemma first_class_ext checks :
  Forall (λ pc, pc.1 input = pc.1 input') checks →
  first_class checks input = first_class checks input'.
Proof. induction 1 as [|[p c] l Hp _ IH]; cbn; [done|]. cbn in Hp. by rewrite Hp, IH. Qed.

Lemma reordered_boundary : validateConflictBoundary input = validateConflictBoundary input'.
Proof.
  unfold validateConflictBoundary. rewrite (reordered_record _ _ Hr).
  destruct (is_record input'); [|done]. apply first_class_ext.
  repeat (constructor; [first [apply (reordered_keys _ _ Hr) | apply reordered_is_true; set_solver]|]).
  constructor.
Qed.

Lemma reordered_conditions : condition_classes input = condition_classes input'.
Proof.
  unfold condition_classes. f_equal. cbn.
  by rewrite !reordered_is_true by set_solver.
Qed.

Lemma reordered_rule : arbitration_rule input = arbitration_rule input'.
Proof.
  unfold arbitration_rule, reconstructable. rewrite (reordered_get _ _ Hr) by set_solver.
  by rewrite !reordered_is_true by set_solver.
Qed.

Lemma reordered_classification :
  classifyLegitimacyConflict input = classifyLegitimacyConflict input'.
Proof.
  unfold classifyLegitimacyConflict. rewrite (reordered_record _ _ Hr), reordered_boundary.
  rewrite !(reordered_get _ _ Hr "conflict_id"), !(reordered_get _ _ Hr "conflict_type"),
    !(reordered_get _ _ Hr "conflict_hash") by set_solver.
  rewrite (proj1 (reordered_items _ _ Hr "lineage_inputs" ltac:(set_solver))).
  rewrite reordered_rule, reordered_conditions. unfold reconstructable.
  rewrite (reordered_get _ _ Hr "topology_reconstructable") by set_solver.
  by rewrite !reordered_is_true by set_solver.
Qed.

Lemma get_safeObj v k : get (safeObj v) k = get v k.
Proof. unfold safeObj. by destruct v. Qed.

(** The arbitration does not depend on the order of its evidence. Two inputs
    that differ only in the order of their surfaces, lineage, proof and causal
    inputs are arbitrated by the same artifact, with the same result, classes and
    conflict hash. *)
Theorem arbitration_order_independent :
  arbitrateLegitimacyConflict input = arbitrateLegitimacyConflict input'.
Proof.
  unfold arbitrateLegitimacyConflict. rewrite reordered_classification.
  rewrite !get_safeObj, !(reordered_get _ _ Hr "conflict_id"),
    !(reordered_get _ _ Hr "conflict_type") by set_solver.
  by rewrite !(sortedArrayValues_perm (array_items (get input _)) (array_items (get input' _)))
    by (apply (reordered_items _ _ Hr); set_solver).
Qed.
End Reordered.

(** * Witness *)
Definition fixture_conflict (surfaces : list string) : jsval :=
  JObj [("conflict_id", JStr "c"); ("conflict_type", JStr "t"); ("lineage_inputs", JArr []);
        ("surfaces", string_items surfaces)].

Lemma arbitration_order_independent_witness :
  arbitrateLegitimacyConflict (fixture_conflict ["a"; "b"])
  = arbitrateLegitimacyConflict (fixture_conflict ["b"; "a"]).
Proof.
  apply arbitration_order_independent. split.
  - reflexivity.
  - reflexivity.
  - intros k Hk. unfold fixture_conflict, get, assoc.
    destruct (String.eqb k "conflict_id"); [done|]. destruct (String.eqb k "conflict_type"); [done|].
    destruct (String.eqb k "lineage_inputs"); [done|].
    destruct (String.eqb_spec k "surfaces") as [->|]; [|done]. destruct Hk. left.
  - intros k [->|[->|[->|[->|[]%elem_of_nil]%elem_of_cons]%elem_of_cons]%elem_of_cons]%elem_of_cons;
      (split; [done|]); try done. apply perm_swap.
Defined.
