(* ===== verification/TopologyConvergence.v ===== *)
(** Distributed topology convergence and quorum:
    [src/distributed-topology-convergence.ts].

    Participant views and the convergence artifact are run-time values. Sets of
    identities compare objects by reference in the language; two views are taken
    not to share an object. *)
From Stdlib Require Import ZArith NArith Lia Ascii Sorted.
From stdpp Require Import base list strings sets.
From S2P Require Import Prelude JsValue Sha256 Canonical LineageGraph ConflictArbitration.

Inductive DistributedTopologyResult :=
  | TOPOLOGY_CONVERGED | TOPOLOGY_DIVERGED | QUORUM_COLLAPSED | CONFLICT_ESCALATED | TOPOLOGY_NULL.

Definition topology_str (r : DistributedTopologyResult) : string :=
  match r with
  | TOPOLOGY_CONVERGED => "TOPOLOGY_CONVERGED"
  | TOPOLOGY_DIVERGED => "TOPOLOGY_DIVERGED"
  | QUORUM_COLLAPSED => "QUORUM_COLLAPSED"
  | CONFLICT_ESCALATED => "CONFLICT_ESCALATED"
  | TOPOLOGY_NULL => "NULL"
  end.

Inductive QuorumLegitimacyResult := SATISFIED | NOT_SATISFIED | COLLAPSED | QUORUM_NULL.

#[export] Instance quorum_result_eq_dec : EqDecision QuorumLegitimacyResult.
Proof. solve_decision. Defined.

Definition quorum_str (r : QuorumLegitimacyResult) : string :=
  match r with
  | SATISFIED => "QUORUM_SATISFIED"
  | NOT_SATISFIED => "QUORUM_NOT_SATISFIED"
  | COLLAPSED => "QUORUM_COLLAPSED"
  | QUORUM_NULL => "NULL"
  end.

Definition PARTICIPANT_CURRENT : string := "PARTICIPANT_CURRENT".
Definition PARTICIPANT_STALE : string := "PARTICIPANT_STALE".
Definition PARTICIPANT_DIVERGENT : string := "PARTICIPANT_DIVERGENT".
Definition PARTICIPANT_UNTRUSTED : string := "PARTICIPANT_UNTRUSTED".
Definition PARTICIPANT_NULL : string := "PARTICIPANT_NULL".

Definition KNOWN_PARTICIPANT_STATES : list string :=
  [PARTICIPANT_CURRENT; PARTICIPANT_STALE; PARTICIPANT_DIVERGENT; PARTICIPANT_UNTRUSTED;
   PARTICIPANT_NULL].

(** * Boundary *)
Definition TOPOLOGY_BOUNDARY : list ((jsval → bool) * string) :=
  [(is_true "creates_authority", "topology_authority_attempt");
   (is_true "creates_execution", "topology_execution_attempt");
   (is_true "creates_proof", "topology_proof_attempt");
   (is_true "mutates_registry", "topology_registry_mutation");
   (has_key "registry_mutation", "topology_registry_mutation");
   (has_key "authority_grant", "topology_authority_attempt");
   (has_key "execution_token", "topology_execution_attempt");
   (has_key "proof_signature", "topology_proof_attempt");
   (has_key "deployment_trigger", "topology_boundary_violation");
   (has_key "lineage_repair", "topology_boundary_violation");
   (has_key "implicit_consensus", "topology_implicit_consensus_forbidden");
   (has_key "auto_consensus", "topology_implicit_consensus_forbidden");
   (has_key "auto_repair", "topology_boundary_violation");
   (has_key "majority_as_authority", "topology_authority_attempt");
   (has_key "stale_state_preferred", "topology_boundary_violation");
   (has_key "break_glass", "topology_break_glass_normalization");
   (has_key "is_break_glass", "topology_break_glass_normalization");
   (has_key "break_glass_normalized", "topology_break_glass_normalization")].

Definition detectBoundaryViolation (obj : jsval) : option string := first_class TOPOLOGY_BOUNDARY obj.

Definition validateDistributedTopologyBoundary (input : jsval) : option string :=
  if is_record input then detectBoundaryViolation input else None.

(** * Hashes *)
Definition computeTopologyParticipantHash (fields : jsval) : string :=
  hashCanonical (JObj (omit ["participant_hash"] fields)).

Definition computeDistributedTopologyHash (fields : jsval) : string :=
  hashCanonical (with_sorted
    [("convergence_classes", plain_sorted); ("participant_hashes", plain_sorted);
     ("surface_graph_hashes", plain_sorted)]
    (omit ["distributed_topology_hash"] fields)).

(** * Participants *)
Definition string_or_null (v : jsval) : jsval := match v with JStr _ => v | _ => JNull end.

Definition evidence_fields (artifact : string) : list (string * jsval) :=
  [("artifact", JStr artifact); ("evidence_only", JBool true); ("creates_authority", JBool false);
   ("creates_execution", JBool false); ("creates_proof", JBool false);
   ("mutates_registry", JBool false)].

Definition participant_fields (id epoch surface arbitration state observed : jsval) :
    list (string * jsval) :=
  evidence_fields "TOPOLOGY_PARTICIPANT_VIEW"
  ++ [("participant_id", id); ("topology_epoch", epoch); ("surface_graph_hash", surface);
      ("arbitration_hash", arbitration); ("participant_state", state); ("observed_at", observed);
      ("participant_hash_alg", JStr "sha256")].

Definition buildNullParticipantView (obj : jsval) : jsval :=
  JObj (participant_fields (string_or_null (get obj "participant_id"))
    (string_or_null (get obj "topology_epoch")) JNull JNull (JStr PARTICIPANT_NULL)
    (string_or_null (get obj "observed_at")) ++ [("participant_hash", JNull)]).

Definition buildTopologyParticipantView (input : jsval) : jsval :=
  let obj := safeObj input in
  let surface := string_or_null (get obj "surface_graph_hash") in
  let arbitration := string_or_null (get obj "arbitration_hash") in
  let state := str_or_empty (get obj "participant_state") in
  if bool_decide (is_Some (detectBoundaryViolation obj)) then buildNullParticipantView obj
  else if negb (is_non_empty (get obj "participant_id"))
          || negb (is_non_empty (get obj "topology_epoch"))
          || negb (is_non_empty (get obj "observed_at")) then buildNullParticipantView obj
  else if negb (isValidSha256 surface) then buildNullParticipantView obj
  else if negb (nullish arbitration) && negb (isValidSha256 arbitration) then
    buildNullParticipantView obj
  else if is_empty_str state || negb (str_in state KNOWN_PARTICIPANT_STATES)
          || String.eqb state PARTICIPANT_NULL then buildNullParticipantView obj
  else
    let fields := participant_fields (get obj "participant_id") (get obj "topology_epoch") surface
      arbitration (JStr state) (get obj "observed_at") in
    JObj (fields ++ [("participant_hash", JStr (computeTopologyParticipantHash (JObj fields)))]).

(** * Quorum *)
Record QuorumAssessment := mkQuorum {
  quorum_result : QuorumLegitimacyResult;
  q_participant_count : nat;
  q_current_count : nat;
  q_stale_count : nat;
  q_divergent_count : nat;
  q_untrusted_count : nat;
  q_threshold : nat
}.

Definition in_state (s : string) (v : jsval) : bool :=
  bool_decide (get (safeObj v) "participant_state" = JStr s).

Definition count_state (s : string) (views : list jsval) : nat :=
  length (List.filter (in_state s) views).

(** A positive integer, or zero. *)
Definition threshold_of (v : jsval) : nat := positive_or v 0.

Definition evaluateTopologyQuorum (views quorum_threshold : jsval) : QuorumAssessment :=
  let threshold := threshold_of quorum_threshold in
  let vs := array_items views in
  if Nat.eqb (length vs) 0 || Nat.eqb threshold 0 then
    mkQuorum COLLAPSED (length vs) 0 0 0 0 threshold
  else
    let current := count_state PARTICIPANT_CURRENT vs in
    let stale := count_state PARTICIPANT_STALE vs in
    let divergent := count_state PARTICIPANT_DIVERGENT vs in
    let untrusted := count_state PARTICIPANT_UNTRUSTED vs in
    let result :=
      if Nat.leb threshold current then SATISFIED
      else if Nat.eqb (current + stale + divergent + untrusted) 0 then COLLAPSED
      else NOT_SATISFIED in
    mkQuorum result (length vs) current stale divergent untrusted threshold.

(** * Output *)
Definition unique_sorted (l : list string) : jsval := string_items (sort_by str_leb (dedup [] l)).

Definition convergence_fields (r : DistributedTopologyResult) (q : QuorumLegitimacyResult)
    (classes : list string) (counts : list nat) (threshold : nat) (epoch : jsval)
    (surfaces participants : jsval) : list (string * jsval) :=
  let count i := jint (Z.of_nat (nth i counts 0)) in
  evidence_fields "DISTRIBUTED_TOPOLOGY_CONVERGENCE"
  ++ [("convergence_result", JStr (topology_str r)); ("quorum_result", JStr (quorum_str q));
      ("convergence_classes", unique_sorted classes); ("participant_count", count 0);
      ("current_count", count 1); ("stale_count", count 2); ("divergent_count", count 3);
      ("untrusted_count", count 4); ("quorum_threshold", jint (Z.of_nat threshold));
      ("topology_epoch", epoch); ("surface_graph_hashes", surfaces);
      ("participant_hashes", participants); ("distributed_topology_hash_alg", JStr "sha256")].

Definition with_topology_hash (fields : list (string * jsval)) : jsval :=
  JObj (fields
    ++ [("distributed_topology_hash", JStr (computeDistributedTopologyHash (JObj fields)))]).

(** The valid digests among a property of the views. *)
Definition view_hashes (k : string) (views : list jsval) : list string :=
  map str_or_empty (List.filter isValidSha256 (map (λ v, get v k) views)).

Definition buildConvergenceOutput (r : DistributedTopologyResult) (q : QuorumLegitimacyResult)
    (classes : list string) (views : list jsval) (threshold : nat) (epoch : jsval) : jsval :=
  with_topology_hash (convergence_fields r q classes
    [length views; count_state PARTICIPANT_CURRENT views; count_state PARTICIPANT_STALE views;
     count_state PARTICIPANT_DIVERGENT views; count_state PARTICIPANT_UNTRUSTED views]
    threshold epoch (unique_sorted (view_hashes "surface_graph_hash" views))
    (unique_sorted (view_hashes "participant_hash" views))).

Definition buildNullConvergence (class : string) (threshold : nat) : jsval :=
  with_topology_hash (convergence_fields TOPOLOGY_NULL QUORUM_NULL [class] [] threshold JNull
    (JArr []) (JArr [])).

(** * Convergence *)

(** What a view is rejected for. *)
Definition view_rejection (v : jsval) : option string :=
  match detectBoundaryViolation v with
  | Some c => Some c
  | None =>
      if negb (bool_decide (get v "artifact" = JStr "TOPOLOGY_PARTICIPANT_VIEW")) then
        Some "topology_boundary_violation"
      else if negb (is_true "evidence_only" v) then Some "topology_boundary_violation"
      else if bool_decide (get v "participant_state" = JStr PARTICIPANT_NULL) then
        Some "topology_boundary_violation"
      else if negb (isValidSha256 (get v "participant_hash")) then Some "topology_hash_invalid"
      else if negb (bool_decide (JStr (computeTopologyParticipantHash v)
                      = get v "participant_hash")) then Some "topology_hash_mismatch"
      else if negb (isValidSha256 (get v "surface_graph_hash")) then Some "topology_hash_invalid"
      else None
  end.

Fixpoint first_rejection (views : list jsval) : option string :=
  match views with
  | [] => None
  | v :: views' =>
      match view_rejection v with
      | Some c => Some c
      | None => first_rejection views'
      end
  end.

(** [Set.add]: an object is its own only equal. *)
Definition set_add (acc : list jsval) (v : jsval) : list jsval :=
  if negb (is_record v || is_array v) && bool_decide (v ∈ acc) then acc else acc ++ [v].

Definition value_set (l : list jsval) : list jsval := fold_left set_add l [].

Definition state_classes (views : list jsval) : list string :=
  (if Nat.ltb 0 (count_state PARTICIPANT_STALE views) then ["topology_participant_stale"] else [])
  ++ (if Nat.ltb 0 (count_state PARTICIPANT_DIVERGENT views)
      then ["topology_participant_divergent"] else [])
  ++ (if Nat.ltb 0 (count_state PARTICIPANT_UNTRUSTED views)
      then ["topology_participant_untrusted"] else []).

(** Once the views are valid and no conflict is escalated. *)
Definition converge_views (views : list jsval) (threshold : nat) : jsval :=
  let q := evaluateTopologyQuorum (JArr views) (jint (Z.of_nat threshold)) in
  match quorum_result q with
  | SATISFIED =>
      let currentViews := List.filter (in_state PARTICIPANT_CURRENT) views in
      let uniqueEpochs := value_set (map (λ v, get v "topology_epoch") currentViews) in
      let uniqueHashes := value_set (map (λ v, get v "surface_graph_hash") currentViews) in
      let hasEpochMismatch := Nat.ltb 1 (length uniqueEpochs) in
      let hasHashMismatch := Nat.ltb 1 (length uniqueHashes) in
      if hasEpochMismatch || hasHashMismatch then
        buildConvergenceOutput TOPOLOGY_DIVERGED SATISFIED
          (["distributed_topology_diverged"; "quorum_satisfied"; "topology_split_brain_detected"]
           ++ (if hasEpochMismatch then ["topology_epoch_mismatch"] else [])
           ++ (if hasHashMismatch then ["topology_hash_mismatch"] else []) ++ state_classes views)
          views threshold JNull
      else
        buildConvergenceOutput TOPOLOGY_CONVERGED SATISFIED
          (["distributed_topology_converged"; "quorum_satisfied"] ++ state_classes views) views
          threshold (match uniqueEpochs with [e] => e | _ => JNull end)
  | r =>
      buildConvergenceOutput QUORUM_COLLAPSED r
        ("quorum_collapsed"
         :: (if bool_decide (r = NOT_SATISFIED) then "quorum_not_satisfied" else "quorum_collapsed")
         :: state_classes views)
        views threshold JNull
  end.

Definition escalates (arb : jsval) : bool :=
  bool_decide (get arb "arbitration_result" = JStr (conflict_str CONFLICT_REQUIRES_HUMAN_REVIEW))
  || bool_decide (get arb "arbitration_result" = JStr (conflict_str CONFLICT_UNRESOLVABLE)).

Definition evaluateDistributedTopologyConvergence (input : jsval) : jsval :=
  let obj := safeObj input in
  match detectBoundaryViolation obj with
  | Some violation => buildNullConvergence violation 0
  | None =>
      let threshold := threshold_of (get obj "quorum_threshold") in
      if Nat.eqb threshold 0 then buildNullConvergence "topology_quorum_threshold_missing" 0
      else
        let rawViews := array_items (get obj "participant_views") in
        if Nat.eqb (length rawViews) 0 then
          buildNullConvergence "topology_boundary_violation" threshold
        else
          let views := map safeObj rawViews in
          match first_rejection views with
          | Some c => buildNullConvergence c threshold
          | None =>
              let arb := safeObj (get obj "arbitration_evidence") in
              match (if nullish (get obj "arbitration_evidence") then None
                     else detectBoundaryViolation arb) with
              | Some c => buildNullConvergence c threshold
              | None =>
                  if negb (nullish (get obj "arbitration_evidence")) && escalates arb then
                    buildConvergenceOutput CONFLICT_ESCALATED QUORUM_NULL
                      ["conflict_escalated"; "topology_conflict_unresolved"] views threshold JNull
                  else converge_views views threshold
              end
          end
  end.

(** * Telemetry *)

(** The metrics by name; the artifact around them is constant. *)
Definition no_metrics : list (string * jsval) :=
  map (λ k, (k, jint 0))
    ["topology_converged_total"; "topology_diverged_total"; "quorum_satisfied_total";
     "quorum_not_satisfied_total"; "quorum_collapsed_total"; "conflict_escalated_total";
     "participant_stale_total"; "participant_divergent_total"; "participant_untrusted_total";
     "split_brain_detected_total"].

Definition number_or_zero (v : jsval) : jsval := match v with JNum _ => v | _ => jint 0 end.

Definition readDistributedTopologyTelemetry (convergence : jsval) : list (string * jsval) :=
  let obj := safeObj convergence in
  if negb (bool_decide (get obj "artifact" = JStr "DISTRIBUTED_TOPOLOGY_CONVERGENCE")) then no_metrics
  else if has_key "distributed_topology_hash" obj
          && negb (isValidSha256 (get obj "distributed_topology_hash")) then no_metrics
  else
    let result r := jint (one_if (bool_decide (get obj "convergence_result" = JStr (topology_str r)))) in
    let quorum r := jint (one_if (bool_decide (get obj "quorum_result" = JStr (quorum_str r)))) in
    [("topology_converged_total", result TOPOLOGY_CONVERGED);
     ("topology_diverged_total", result TOPOLOGY_DIVERGED);
     ("quorum_satisfied_total", quorum SATISFIED); ("quorum_not_satisfied_total", quorum NOT_SATISFIED);
     ("quorum_collapsed_total", result QUORUM_COLLAPSED);
     ("conflict_escalated_total", result CONFLICT_ESCALATED);
     ("participant_stale_total", number_or_zero (get obj "stale_count"));
     ("participant_divergent_total", number_or_zero (get obj "divergent_count"));
     ("participant_untrusted_total", number_or_zero (get obj "untrusted_count"));
     ("split_brain_detected_total", jint (one_if
        (bool_decide (JStr "topology_split_brain_detected"
           ∈ array_items (get obj "convergence_classes")))))].

(** * Theorems: sets of values *)
Definition primitive (v : jsval) : bool := negb (is_record v || is_array v).

(** At most one value, as a set counts them. *)
Definition agree (l : list jsval) : Prop :=
  length l ≤ 1 ∨ ∀ x y, x ∈ l → y ∈ l → x = y ∧ primitive x = true.

Lemma set_add_grows acc v : length acc ≤ length (set_add acc v).
Proof. unfold set_add. destruct (_ && _); [done|]. rewrite length_app. lia. Qed.

Lemma fold_set_add_grows l acc : length acc ≤ length (fold_left set_add l acc).
Proof.
  revert acc. induction l as [|x l IH]; intros acc; cbn; [done|].
  etransitivity; [apply set_add_grows|apply IH].
Qed.

Lemma value_set_one x l :
  length (fold_left set_add l [x]) ≤ 1 ↔ ∀ y, y ∈ l → y = x ∧ primitive x = true.
Proof.
  induction l as [|y l IH]; cbn; [split; [intros _ y Hy; by apply elem_of_nil in Hy|done]|].
  destruct (primitive y && bool_decide (y ∈ [x])) eqn:E.
  - unfold set_add at 2. unfold primitive in E. rewrite E. rewrite IH.
    apply andb_true_iff in E as [Hp Hx]. apply bool_decide_eq_true, list_elem_of_singleton in Hx as ->.
    split; [|intros H z Hz; apply H; by right]. intros H z [->|Hz]%elem_of_cons; auto.
  - unfold set_add at 2. unfold primitive in E. rewrite E. split.
    + intros Hl. pose proof (fold_set_add_grows l ([x] ++ [y])) as Hg. cbn in Hg, Hl. lia.
    + intros H. destruct (H y) as [-> Hp]; [by left|]. unfold primitive in Hp. rewrite Hp in E.
      cbn in E. rewrite bool_decide_eq_true_2 in E by (by left). done.
Qed.

Lemma value_set_agree l : length (value_set l) ≤ 1 ↔ agree l.
Proof.
  unfold value_set, agree. destruct l as [|x l]; [split; [by left|cbn; lia]|].
  cbn [fold_left]. change (set_add [] x) with
    (if primitive x && bool_decide (x ∈ []) then [] else [x]).
  rewrite bool_decide_eq_false_2 by (by intros ?%elem_of_nil). rewrite andb_false_r, value_set_one.
  split.
  - intros H. destruct l as [|y l]; [left; cbn; lia|right].
    assert (primitive x = true) as Hp by (apply (H y); by left).
    intros a b Ha Hb. apply elem_of_cons in Ha as [->|Ha]; apply elem_of_cons in Hb as [->|Hb];
      repeat match goal with H1 : ?z ∈ _ :: l |- _ => apply H in H1 as [-> _] end; done.
  - intros [Hl|H] y Hy.
    + destruct l as [|z l]; [by apply elem_of_nil in Hy|cbn in Hl; lia].
    + destruct (H x y) as [-> Hp]; [by left|by right|done].
Qed.

Lemma value_set_agreed l x :
  agree l → x ∈ l → value_set l = [x].
Proof.
  intros Ha Hx. pose proof (proj2 (value_set_agree l) Ha) as Hl. unfold value_set in *.
  destruct l as [|y l]; [by apply elem_of_nil in Hx|]. cbn [fold_left] in *.
  assert (set_add [] y = [y]) as E.
  { unfold set_add. rewrite bool_decide_eq_false_2 by (by intros ?%elem_of_nil). by rewrite andb_false_r. }
  rewrite E in *. pose proof (proj1 (value_set_one y l) Hl) as H.
  assert (x = y) as -> by (apply elem_of_cons in Hx as [?|Hx]; [done|by apply H]).
  clear -H. induction l as [|z l IH]; [done|]. cbn. destruct (H z) as [-> Hp]; [by left|].
  unfold set_add at 2. unfold primitive in Hp. rewrite Hp, bool_decide_eq_true_2 by (by left). cbn.
  apply IH. intros w Hw. apply H. by right.
Qed.

Lemma agree_perm l l' : l ≡ₚ l' → agree l → agree l'.
Proof.
  intros Hp [Hl|H]; [left; by rewrite <- Hp|right]. intros x y Hx Hy.
  apply H; by rewrite Hp.
Qed.

Lemma value_set_perm l l' :
  l ≡ₚ l' → length (value_set l) ≤ 1 → value_set l = value_set l'.
Proof.
  intros Hp Ha%value_set_agree. destruct l as [|x l].
  - by apply Permutation_nil in Hp as ->.
  - rewrite (value_set_agreed _ x Ha) by (by left).
    rewrite (value_set_agreed l' x); [done|by eapply agree_perm|]. rewrite <- Hp. by left.
Qed.

(** * Theorems: convergence *)
Lemma in_state_safe s v : in_state s v = bool_decide (get v "participant_state" = JStr s).
Proof. unfold in_state. by rewrite get_safeObj. Qed.

Lemma quorum_satisfied views t :
  0 < t →
  quorum_result (evaluateTopologyQuorum (JArr views) (jint (Z.of_nat t))) = SATISFIED ↔
  t ≤ count_state PARTICIPANT_CURRENT views.
Proof.
  intros Ht. unfold evaluateTopologyQuorum, threshold_of, positive_or. cbn [array_items jint].
  assert ((0 <? Z.of_nat t)%Z = true) as -> by (apply Z.ltb_lt; lia). rewrite Nat2Z.id.
  destruct (Nat.eqb_spec t 0) as [|_]; [lia|]. rewrite orb_false_r.
  destruct views as [|v l]; cbn [length Nat.eqb].
  - cbn. split; [done|lia].
  - cbn [quorum_result]. destruct (Nat.leb_spec t (count_state PARTICIPANT_CURRENT (v :: l))).
    + done.
    + destruct (Nat.eqb _ 0); (split; [done|lia]).
Qed.

Definition current_of (k : string) (views : list jsval) : list jsval :=
  map (λ v, get v k) (List.filter (in_state PARTICIPANT_CURRENT) views).

Definition result_of (out : jsval) (r : DistributedTopologyResult) : Prop :=
  get out "convergence_result" = JStr (topology_str r).

Lemma output_result r q classes views t epoch r' :
  result_of (buildConvergenceOutput r q classes views t epoch) r' ↔ r = r'.
Proof.
  unfold result_of. change (get (buildConvergenceOutput r q classes views t epoch) "convergence_result")
    with (JStr (topology_str r)). by destruct r, r'.
Qed.

Lemma null_result class t r : result_of (buildNullConvergence class t) r ↔ r = TOPOLOGY_NULL.
Proof.
  unfold result_of. change (get (buildNullConvergence class t) "convergence_result")
    with (JStr (topology_str TOPOLOGY_NULL)). by destruct r.
Qed.

Lemma converge_views_result views t :
  0 < t →
  result_of (converge_views views t) TOPOLOGY_CONVERGED ↔
  t ≤ count_state PARTICIPANT_CURRENT views
  ∧ agree (current_of "topology_epoch" views) ∧ agree (current_of "surface_graph_hash" views).
Proof.
  intros Ht. rewrite <- (quorum_satisfied views t) by done. rewrite <- !value_set_agree.
  unfold converge_views. cbv zeta. fold (current_of "topology_epoch" views).
  fold (current_of "surface_graph_hash" views).
  destruct (quorum_result _); [|rewrite output_result; naive_solver..].
  destruct (Nat.ltb_spec 1 (length (value_set (current_of "topology_epoch" views)))) as [He|He].
  - cbn [orb]. rewrite output_result. split; [done|lia].
  - destruct (Nat.ltb_spec 1 (length (value_set (current_of "surface_graph_hash" views)))) as [Hh|Hh];
      cbn [orb]; rewrite output_result; (split; [|lia || done]); [done|]. done.
Qed.

Lemma first_rejection_none views :
  first_rejection views = None ↔ ∀ v, v ∈ views → view_rejection v = None.
Proof.
  induction views as [|v l IH]; cbn; [split; [intros _ v Hv; by apply elem_of_nil in Hv|done]|].
  destruct (view_rejection v) eqn:E.
  - split; [done|]. intros H. specialize (H v). rewrite H in E; [done|by left].
  - rewrite IH. split; [|intros H w Hw; apply H; by right].
    intros H w [->|Hw]%elem_of_cons; auto.
Qed.

(** The views of an input, and its threshold. *)
Definition views_of (input : jsval) : list jsval :=
  map safeObj (array_items (get input "participant_views")).

Definition quorum_of (input : jsval) : nat := threshold_of (get input "quorum_threshold").

Definition arbitration_of (input : jsval) : jsval := safeObj (get input "arbitration_evidence").

(** The evidence of arbitration is absent, or clean and does not escalate. *)
Definition unescalated (input : jsval) : Prop :=
  nullish (get input "arbitration_evidence") = true
  ∨ detectBoundaryViolation (arbitration_of input) = None
    ∧ escalates (arbitration_of input) = false.

(** What a converged topology certifies. The result is TOPOLOGY_CONVERGED
    exactly when the input crosses no boundary, its threshold is a positive
    integer, every participant view is accepted (an evidence artifact in a known
    state whose hash is that of its own fields), no arbitration escalates, as many
    views as the threshold asks for are current, and the current ones agree on
    one epoch and one surface graph. *)
Theorem converged_iff input :
  result_of (evaluateDistributedTopologyConvergence input) TOPOLOGY_CONVERGED ↔
  detectBoundaryViolation (safeObj input) = None ∧ 0 < quorum_of input
  ∧ (∀ v, v ∈ views_of input → view_rejection v = None)
  ∧ unescalated input
  ∧ quorum_of input ≤ count_state PARTICIPANT_CURRENT (views_of input)
  ∧ agree (current_of "topology_epoch" (views_of input))
  ∧ agree (current_of "surface_graph_hash" (views_of input)).
Proof.
  unfold evaluateDistributedTopologyConvergence. cbv zeta. rewrite !get_safeObj.
  fold (quorum_of input) (views_of input) (arbitration_of input). unfold unescalated.
  destruct (detectBoundaryViolation (safeObj input)); [rewrite null_result; naive_solver|].
  destruct (Nat.eqb_spec (quorum_of input) 0) as [E0|E0]; [rewrite null_result; split; [done|lia]|].
  destruct (Nat.eqb_spec (length (array_items (get input "participant_views"))) 0) as [E|E].
  { rewrite null_result. split; [done|]. intros (_ & _ & _ & _ & Hq & _).
    unfold views_of in Hq. apply nil_length_inv in E. rewrite E in Hq. cbn in Hq. lia. }
  rewrite <- first_rejection_none.
  destruct (first_rejection (views_of input)); [rewrite null_result; naive_solver|].
  destruct (nullish (get input "arbitration_evidence")); cbn [negb andb].
  - rewrite converge_views_result by lia. split; [|naive_solver].
    intros (? & ? & ?). split_and!; try done; [lia|by left].
  - destruct (detectBoundaryViolation (arbitration_of input)); [rewrite null_result; naive_solver|].
    destruct (escalates (arbitration_of input)); [rewrite output_result; naive_solver|].
    rewrite converge_views_result by lia. split; [|naive_solver].
    intros (? & ? & ?). split_and!; try done; [lia|by right].
Qed.

(** * Theorems: order and arbitration *)
Lemma count_state_perm s views views' :
  views ≡ₚ views' → count_state s views = count_state s views'.
Proof.
  intros Hp. unfold count_state. induction Hp as [|x l l' Hp IH|x y l|l l' l'' _ IH1 _ IH2]; cbn.
  - done.
  - destruct (in_state s x); cbn; congruence.
  - by destruct (in_state s x), (in_state s y).
  - congruence.
Qed.

Lemma list_filter_perm {A} (f : A → bool) l l' : l ≡ₚ l' → List.filter f l ≡ₚ List.filter f l'.
Proof.
  induction 1 as [|x l l' Hp IH|x y l|l l' l'' _ IH1 _ IH2]; cbn.
  - done.
  - destruct (f x); by rewrite ?IH.
  - destruct (f x), (f y); try done. apply perm_swap.
  - by transitivity (List.filter f l').
Qed.

Lemma unique_sorted_perm l l' : l ≡ₚ l' → unique_sorted l = unique_sorted l'.
Proof.
  intros Hp. unfold unique_sorted. f_equal. apply sort_str_perm.
  apply NoDup_Permutation; [apply NoDup_dedup..|]. intros x. rewrite !elem_of_dedup, Hp. done.
Qed.

Lemma view_hashes_perm k views views' :
  views ≡ₚ views' → view_hashes k views ≡ₚ view_hashes k views'.
Proof. intros Hp. unfold view_hashes. by apply Permutation_map, list_filter_perm, Permutation_map. Qed.

Lemma output_perm r q classes views views' t epoch :
  views ≡ₚ views' →
  buildConvergenceOutput r q classes views t epoch = buildConvergenceOutput r q classes views' t epoch.
Proof.
  intros Hp. unfold buildConvergenceOutput. rewrite !(count_state_perm _ views views' Hp).
  rewrite !(unique_sorted_perm _ _ (view_hashes_perm _ _ _ Hp)). by rewrite (Permutation_length Hp).
Qed.

Lemma current_perm k views views' :
  views ≡ₚ views' → current_of k views ≡ₚ current_of k views'.
Proof. intros Hp. unfold current_of. by apply Permutation_map, list_filter_perm. Qed.

Lemma quorum_perm views views' t :
  views ≡ₚ views' →
  evaluateTopologyQuorum (JArr views) t = evaluateTopologyQuorum (JArr views') t.
Proof.
  intros Hp. unfold evaluateTopologyQuorum. cbn [array_items].
  by rewrite !(count_state_perm _ views views' Hp), (Permutation_length Hp).
Qed.

Lemma converge_views_perm views views' t :
  views ≡ₚ views' → converge_views views t = converge_views views' t.
Proof.
  intros Hp. unfold converge_views. cbv zeta.
  fold (current_of "topology_epoch" views) (current_of "topology_epoch" views').
  fold (current_of "surface_graph_hash" views) (current_of "surface_graph_hash" views').
  assert (state_classes views = state_classes views') as Hs
    by (unfold state_classes; by rewrite !(count_state_perm _ views views' Hp)).
  assert (∀ k, Nat.ltb 1 (length (value_set (current_of k views)))
    = Nat.ltb 1 (length (value_set (current_of k views')))) as Hl.
  { intros k. pose proof (current_perm k views views' Hp) as Hk. apply eq_iff_eq_true.
    rewrite !Nat.ltb_lt, !Nat.lt_nge, !value_set_agree. by split; intros H ?; apply H; eapply agree_perm. }
  rewrite (quorum_perm views views') by done. rewrite !Hs, !Hl.
  destruct (quorum_result _); [|by apply output_perm..].
  destruct (Nat.ltb 1 (length (value_set (current_of "topology_epoch" views')))) eqn:E;
    [by apply output_perm|].
  cbn [orb].
  destruct (Nat.ltb 1 (length (value_set (current_of "surface_graph_hash" views'))));
    [by apply output_perm|].
  rewrite <- Hl in E. apply Nat.ltb_ge in E.
  rewrite (value_set_perm (current_of "topology_epoch" views)
    (current_of "topology_epoch" views') (current_perm _ _ _ Hp) E). by apply output_perm.
Qed.

(** An input from its parts. *)
Definition topology_input (threshold : nat) (views : list jsval) (evidence : jsval) : jsval :=
  JObj [("quorum_threshold", jint (Z.of_nat threshold)); ("participant_views", JArr views);
        ("arbitration_evidence", evidence)].

Lemma evaluate_topology_input t views evidence :
  evaluateDistributedTopologyConvergence (topology_input t views evidence)
  = if Nat.eqb t 0 then buildNullConvergence "topology_quorum_threshold_missing" 0
    else if Nat.eqb (length views) 0 then buildNullConvergence "topology_boundary_violation" t
    else
      match first_rejection (map safeObj views) with
      | Some c => buildNullConvergence c t
      | None =>
          match (if nullish evidence then None else detectBoundaryViolation (safeObj evidence)) with
          | Some c => buildNullConvergence c t
          | None =>
              if negb (nullish evidence) && escalates (safeObj evidence) then
                buildConvergenceOutput CONFLICT_ESCALATED QUORUM_NULL
                  ["conflict_escalated"; "topology_conflict_unresolved"] (map safeObj views) t JNull
              else converge_views (map safeObj views) t
          end
      end.
Proof.
  unfold evaluateDistributedTopologyConvergence.
  change (safeObj (topology_input t views evidence)) with (topology_input t views evidence).
  change (detectBoundaryViolation (topology_input t views evidence)) with (@None string).
  change (get (topology_input t views evidence) "quorum_threshold") with (jint (Z.of_nat t)).
  change (get (topology_input t views evidence) "participant_views") with (JArr views).
  change (get (topology_input t views evidence) "arbitration_evidence") with evidence.
  cbv zeta. cbn [array_items].
  assert (threshold_of (jint (Z.of_nat t)) = t) as ->; [|done].
  unfold threshold_of, positive_or, jint. destruct (Z.ltb_spec 0 (Z.of_nat t)); lia.
Qed.

(** The convergence does not depend on the order of the participants. When
    every view is accepted, presenting them in another order yields the same
    artifact, with the same result, counts, hashes and digest. *)
Theorem convergence_order_independent t views views' evidence :
  views ≡ₚ views' → (∀ v, v ∈ views → view_rejection (safeObj v) = None) →
  evaluateDistributedTopologyConvergence (topology_input t views evidence)
  = evaluateDistributedTopologyConvergence (topology_input t views' evidence).
Proof.
  intros Hp Hv. rewrite !evaluate_topology_input.
  assert (first_rejection (map safeObj views) = None) as ->.
  { apply first_rejection_none. intros v (w & Hw & ->)%elem_of_map. by apply Hv. }
  assert (first_rejection (map safeObj views') = None) as ->.
  { apply first_rejection_none. intros v (w & Hw & ->)%elem_of_map. apply Hv. by rewrite Hp. }
  assert (map safeObj views ≡ₚ map safeObj views') as Hm by (by apply Permutation_map).
  rewrite (Permutation_length Hp), (converge_views_perm _ _ t Hm).
  destruct (Nat.eqb t 0); [reflexivity|]. destruct (Nat.eqb (length views') 0); [reflexivity|].
  destruct (if nullish evidence then None else _); [reflexivity|].
  destruct (negb (nullish evidence) && _); [|reflexivity]. apply output_perm, Hm.
Qed.

(** How an arbitration enters the convergence. The artifact of an arbitrated
    conflict prevents convergence when the conflict is unresolvable or requires
    human review: the result is CONFLICT_ESCALATED, or NULL for other reasons. In
    every other case it has no influence, so that a conflict whose arbitration
    was refused (NULL) counts like no conflict at all. *)
Theorem arbitration_composes t views conflict :
  let evidence := arbitrateLegitimacyConflict conflict in
  let out := evaluateDistributedTopologyConvergence (topology_input t views evidence) in
  match arbitration_result (classifyLegitimacyConflict conflict) with
  | CONFLICT_UNRESOLVABLE | CONFLICT_REQUIRES_HUMAN_REVIEW =>
      result_of out CONFLICT_ESCALATED ∨ result_of out TOPOLOGY_NULL
  | _ => out = evaluateDistributedTopologyConvergence (topology_input t views JNull)
  end.
Proof.
  cbv zeta. rewrite !evaluate_topology_input. set (evidence := arbitrateLegitimacyConflict conflict).
  change (nullish evidence) with false. change (nullish JNull) with true. cbn [negb andb].
  change (safeObj evidence) with evidence.
  change (detectBoundaryViolation evidence) with (@None string).
  assert (escalates evidence
    = match arbitration_result (classifyLegitimacyConflict conflict) with
      | CONFLICT_UNRESOLVABLE | CONFLICT_REQUIRES_HUMAN_REVIEW => true | _ => false end) as ->.
  { unfold escalates. change (get evidence "arbitration_result") with
      (JStr (conflict_str (arbitration_result (classifyLegitimacyConflict conflict)))).
    by destruct (arbitration_result (classifyLegitimacyConflict conflict)). }
  destruct (arbitration_result (classifyLegitimacyConflict conflict)); try done.
  all: destruct (Nat.eqb t 0); [right; by apply null_result|].
  all: destruct (Nat.eqb (length views) 0); [right; by apply null_result|].
  all: destruct (first_rejection _); [right; by apply null_result|].
  all: left; by apply output_result.
Qed.

(** * Theorems: participants *)
Lemma hash_valid_sha256 v : valid_sha256 (hashCanonical v) = true.
Proof.
  Transparent hashCanonical. unfold hashCanonical. Opaque hashCanonical.
  destruct (sha256Hex_shape (canonicalize v)) as [Hl Hh]. unfold valid_sha256. rewrite Hl.
  exact Hh.
Qed.

(** A view with the fields of a participant and the hash of them. *)
Definition participant_form (id epoch surface arbitration observed : jsval) (state : string) : jsval :=
  let fields := participant_fields id epoch surface arbitration (JStr state) observed in
  JObj (fields ++ [("participant_hash", JStr (computeTopologyParticipantHash (JObj fields)))]).

Lemma form_accepted id epoch surface arbitration observed state :
  isValidSha256 surface = true → state ≠ PARTICIPANT_NULL →
  view_rejection (participant_form id epoch surface arbitration observed state) = None.
Proof.
  intros Hs Hn. set (v := participant_form _ _ _ _ _ _). unfold view_rejection.
  change (detectBoundaryViolation v) with (@None string).
  change (get v "artifact") with (JStr "TOPOLOGY_PARTICIPANT_VIEW").
  rewrite bool_decide_eq_true_2 by done. change (is_true "evidence_only" v) with true.
  change (get v "participant_state") with (JStr state). cbn [negb].
  rewrite bool_decide_eq_false_2 by congruence.
  change (get v "participant_hash") with (JStr (computeTopologyParticipantHash v)).
  change (isValidSha256 (JStr (computeTopologyParticipantHash v))) with
    (valid_sha256 (computeTopologyParticipantHash v)).
  unfold computeTopologyParticipantHash at 1. rewrite hash_valid_sha256. cbn [negb].
  rewrite bool_decide_eq_true_2 by done. change (get v "surface_graph_hash") with surface.
  by rewrite Hs.
Qed.

(** C39. Every participant view that is built is accepted. Whatever the input, a view
    that is not the null view carries the identity, epoch and state of the input
    and the hash of its own fields, and the convergence does not reject it. *)
Theorem built_view_accepted input :
  let v := buildTopologyParticipantView input in
  get v "participant_state" ≠ JStr PARTICIPANT_NULL →
  view_rejection v = None
  ∧ get v "participant_id" = get input "participant_id"
  ∧ get v "topology_epoch" = get input "topology_epoch"
  ∧ get v "surface_graph_hash" = get input "surface_graph_hash"
  ∧ get v "participant_state" = get input "participant_state".
Proof.
  cbv zeta. unfold buildTopologyParticipantView. cbv zeta. rewrite !get_safeObj.
  destruct (bool_decide _); [done|]. destruct (_ || _ || _); [done|].
  destruct (isValidSha256 (string_or_null (get input "surface_graph_hash"))) eqn:Es; cbn [negb];
    [|done].
  destruct (_ && _); [done|].
  destruct (is_empty_str (str_or_empty (get input "participant_state"))) eqn:Ee; cbn [orb]; [done|].
  destruct (str_in _ _); cbn [negb orb]; [|done].
  destruct (String.eqb_spec (str_or_empty (get input "participant_state")) PARTICIPANT_NULL) as [|Hn];
    [done|]. intros _.
  fold (participant_form (get input "participant_id") (get input "topology_epoch")
    (string_or_null (get input "surface_graph_hash")) (string_or_null (get input "arbitration_hash"))
    (get input "observed_at") (str_or_empty (get input "participant_state"))).
  split; [by apply form_accepted|]. split; [reflexivity|]. split; [reflexivity|]. split.
  - change (string_or_null (get input "surface_graph_hash") = get input "surface_graph_hash").
    by destruct (get input "surface_graph_hash").
  - change (JStr (str_or_empty (get input "participant_state")) = get input "participant_state").
    by destruct (get input "participant_state").
Qed.

(** * What a converged topology does not certify *)
Lemma count_replicate s n v :
  in_state s v = true → count_state s (replicate n v) = n.
Proof. intros Hv. unfold count_state. induction n as [|n IH]; cbn; [done|]. by rewrite Hv; cbn; rewrite IH. Qed.

(** A quorum counts views, not participants. One current view, presented as
    often as the threshold asks for, converges for every threshold: the
    participants are not required to be distinct. *)
Theorem quorum_counts_duplicates n id epoch surface arbitration observed :
  isValidSha256 surface = true → primitive epoch = true →
  let v := participant_form id epoch surface arbitration observed PARTICIPANT_CURRENT in
  result_of (evaluateDistributedTopologyConvergence (topology_input (S n) (replicate (S n) v) JNull))
    TOPOLOGY_CONVERGED.
Proof.
  intros Hs He. cbv zeta. set (v := participant_form _ _ _ _ _ _).
  rewrite evaluate_topology_input. rewrite length_replicate. cbn [Nat.eqb nullish negb andb].
  assert (map safeObj (replicate (S n) v) = replicate (S n) v) as ->.
  { generalize (S n). intros m. induction m as [|m IH]; cbn; [done|]. by rewrite IH. }
  assert (first_rejection (replicate (S n) v) = None) as ->.
  { apply first_rejection_none. intros w [-> _]%elem_of_replicate. by apply form_accepted. }
  apply converge_views_result; [lia|]. rewrite count_replicate by done. split; [done|].
  assert (∀ k, primitive (get v k) = true → agree (current_of k (replicate (S n) v))) as Ha.
  { intros k Hk. right. intros x y (a & Hx & ->)%elem_of_map (b & Hy & ->)%elem_of_map.
    apply list_elem_of_In, List.filter_In in Hx as [Hx _], Hy as [Hy _].
    apply list_elem_of_In, elem_of_replicate in Hx as [-> _], Hy as [-> _]. done. }
  split; apply Ha; [exact He|]. change (get v "surface_graph_hash") with surface.
  by destruct surface.
Qed.

(** The telemetry trusts the form of the digest. An artifact whose digest is
    any text of 64 hexadecimal digits, or that has none, is counted as converged
    whatever its fields say, although a tampered artifact is said to yield no
    signal. *)
Theorem telemetry_trusts_form (rest : list (string * jsval)) :
  let artifact := [("artifact", JStr "DISTRIBUTED_TOPOLOGY_CONVERGENCE");
    ("convergence_result", JStr "TOPOLOGY_CONVERGED")] in
  let digest := ("distributed_topology_hash",
    JStr "0000000000000000000000000000000000000000000000000000000000000000") in
  assoc "topology_converged_total"
    (readDistributedTopologyTelemetry (JObj (artifact ++ digest :: rest))) = Some (jint 1)
  ∧ assoc "topology_converged_total" (readDistributedTopologyTelemetry (JObj artifact))
    = Some (jint 1).
Proof. by split. Qed.

(** * Witnesses *)
Definition fixture_surface : jsval :=
  JStr "0000000000000000000000000000000000000000000000000000000000000000".

Definition fixture_view (id : string) : jsval :=
  participant_form (JStr id) (JStr "e") fixture_surface JNull (JStr "t") PARTICIPANT_CURRENT.

Lemma quorum_counts_duplicates_witness :
  result_of (evaluateDistributedTopologyConvergence
    (topology_input 3 (replicate 3 (fixture_view "p")) JNull)) TOPOLOGY_CONVERGED.
Proof. apply (quorum_counts_duplicates 2 (JStr "p") (JStr "e") fixture_surface JNull (JStr "t")); reflexivity. Defined.

Lemma convergence_order_independent_witness :
  evaluateDistributedTopologyConvergence (topology_input 2 [fixture_view "p"; fixture_view "q"] JNull)
  = evaluateDistributedTopologyConvergence (topology_input 2 [fixture_view "q"; fixture_view "p"] JNull).
Proof.
  apply convergence_order_independent; [apply perm_swap|].
  intros v [->|[->|[]%elem_of_nil]%elem_of_cons]%elem_of_cons; by apply form_accepted.
Defined.

Lemma built_view_accepted_witness :
  view_rejection (buildTopologyParticipantView (fixture_view "p")) = None.
Proof. apply (built_view_accepted (fixture_view "p")). discriminate. Defined.
