(* ===== verification/Json.v ===== *)
(** JSON text: [JSON.stringify], and a reader against which the modules that
    parse are evaluated.

    [JSON.parse] is a parameter of the modules that use it. This reader is one
    value of that parameter: it reads back every text that [json_stringify] or
    [canonicalize] writes. It reads integers only, and no white space. *)
From Stdlib Require Import ZArith NArith Lia Ascii.
From stdpp Require Import base list strings pretty.
From S2P Require Import Prelude JsValue Canonical.

(** [JSON.stringify(v)]: properties in their own order, those that are undefined
    left out. *)
Definition is_defined (v : jsval) : bool := match v with JUndef => false | _ => true end.

Fixpoint json_stringify (v : jsval) : string :=
  match v with
  | JArr l =>
      "[" +:+ str_concat "," ((fix go (l : list jsval) : list string :=
        match l with [] => [] | x :: l' => json_stringify x :: go l' end) l) +:+ "]"
  | JObj ps =>
      "{" +:+ str_concat "," ((fix go (ps : list (string * jsval)) : list string :=
        match ps with
        | [] => []
        | (k, x) :: ps' =>
            if is_defined x then (json_quote k +:+ ":" +:+ json_stringify x) :: go ps' else go ps'
        end) ps) +:+ "}"
  | JBool true => "true"
  | JBool false => "false"
  | JNum (NInt z) => pretty z
  | JStr s => json_quote s
  | _ => "null"
  end.

(** What survives the text: no [undefined], finite numbers. *)
Inductive json_plain : jsval → Prop :=
  | plain_null : json_plain JNull
  | plain_bool b : json_plain (JBool b)
  | plain_int z : json_plain (JNum (NInt z))
  | plain_str s : json_plain (JStr s)
  | plain_arr l : Forall json_plain l → json_plain (JArr l)
  | plain_obj ps : Forall (λ kv, json_plain kv.2) ps → json_plain (JObj ps).

Definition json_member (kv : string * jsval) : string :=
  json_quote kv.1 +:+ ":" +:+ json_stringify kv.2.

Lemma stringify_obj ps :
  json_stringify (JObj ps)
  = "{" +:+ str_concat "," (map json_member (List.filter (λ kv : string * jsval, is_defined kv.2) ps)) +:+ "}".
Proof.
  simpl. do 3 f_equal. induction ps as [|[k x] ps IH]; [done|].
  simpl. destruct (is_defined x); simpl; by rewrite IH.
Qed.

Lemma stringify_arr l :
  json_stringify (JArr l) = "[" +:+ str_concat "," (map json_stringify l) +:+ "]".
Proof. reflexivity. Qed.

Lemma plain_defined ps :
  Forall (λ kv, json_plain kv.2) ps → List.filter (λ kv : string * jsval, is_defined kv.2) ps = ps.
Proof. induction 1 as [|[k x] ps Hx _ IH]; [done|]. simpl in *. rewrite IH. by destruct Hx. Qed.

Lemma stringify_plain_obj ps :
  json_plain (JObj ps) → json_stringify (JObj ps) = "{" +:+ str_concat "," (map json_member ps) +:+ "}".
Proof. inversion 1; subst. by rewrite stringify_obj, plain_defined. Qed.

Lemma normal_plain v : normal v → json_plain v.
Proof.
  induction v as [| |b|m|s|l IH|ps IH] using jsval_nested_ind; inversion 1; subst; constructor.
  - rewrite Forall_forall in *. eauto.
  - rewrite Forall_forall in *. eauto.
Qed.

(** A canonical text is the text of its normal value. *)
Lemma canon_stringify v : normal v → canon_text v = json_stringify v.
Proof.
  induction v as [| |b|m|s|l IH|ps IH] using jsval_nested_ind; intros Hv; inversion Hv; subst; try done.
  - rewrite canon_text_arr, stringify_arr. do 3 f_equal. apply map_ext_Forall.
    rewrite Forall_forall in *. eauto.
  - rewrite canon_text_obj_normal, stringify_plain_obj by (done || by apply normal_plain).
    do 3 f_equal. apply map_ext_Forall. rewrite Forall_forall in *. intros [k x] Hx.
    unfold member_text, json_member. cbn [fst snd]. by rewrite (IH _ Hx (H1 _ Hx) : canon_text x = json_stringify x).
Qed.

(** The first character tells that a value follows. *)
Lemma plain_opens v : json_plain v → ∃ a s, json_stringify v = String a s ∧ closer a = false.
Proof.
  destruct 1 as [|[]|z|s|l _|ps _]; try (eexists _, _; split; [reflexivity|reflexivity]).
  destruct (pretty_Z_head z) as (a & s & E & Ha). exists a, s. split; [exact E|].
  by apply num_char_not_closer.
Qed.

Definition comma : ascii := ascii_of_N 44.
Definition colon : ascii := ascii_of_N 58.

(** The characters of a string literal, after its opening quote. *)
Fixpoint read_string (fuel : nat) (s : string) : option (string * string) :=
  match fuel, s with
  | S n, String c r =>
      if Ascii.eqb c dquote then Some (EmptyString, r)
      else
        match unescape s with
        | None => None
        | Some (a, r') =>
            match read_string n r' with
            | Some (t, rest) => Some (String a t, rest)
            | None => None
            end
        end
  | _, _ => None
  end.

(** The longest prefix of number characters. *)
Fixpoint span_number (s : string) : string * string :=
  match s with
  | String c r =>
      if num_char c then let '(d, rest) := span_number r in (String c d, rest)
      else (EmptyString, s)
  | EmptyString => (EmptyString, EmptyString)
  end.

Definition read_integer (s : string) : option (Z * string) :=
  let '(d, rest) := span_number s in
  match d with
  | EmptyString => None
  | String c d' =>
      if Ascii.eqb c "-" then
        match digits_value 0 d' with
        | Some z => if is_empty_str d' then None else Some ((- z)%Z, rest)
        | None => None
        end
      else match digits_value 0 d with Some z => Some (z, rest) | None => None end
  end.

Fixpoint strip_prefix (p s : string) : option string :=
  match p, s with
  | EmptyString, _ => Some s
  | String a p', String c s' => if Ascii.eqb a c then strip_prefix p' s' else None
  | _, _ => None
  end.

(** A value, the rest of a non-empty array or object. *)
Fixpoint read_value (fuel : nat) (s : string) {struct fuel} : option (jsval * string) :=
  match fuel with
  | O => None
  | S n =>
      match s with
      | EmptyString => None
      | String c r =>
          if Ascii.eqb c dquote then
            match read_string (String.length s) r with
            | Some (t, rest) => Some (JStr t, rest)
            | None => None
            end
          else if Ascii.eqb c "[" then
            match r with
            | String c' r' =>
                if Ascii.eqb c' "]" then Some (JArr [], r')
                else match read_items n r with
                     | Some (l, rest) => Some (JArr l, rest)
                     | None => None
                     end
            | EmptyString => None
            end
          else if Ascii.eqb c "{" then
            match r with
            | String c' r' =>
                if Ascii.eqb c' "}" then Some (JObj [], r')
                else match read_members n r with
                     | Some (l, rest) => Some (JObj l, rest)
                     | None => None
                     end
            | EmptyString => None
            end
          else if Ascii.eqb c "n" then option_map (pair JNull) (strip_prefix "null" s)
          else if Ascii.eqb c "t" then option_map (pair (JBool true)) (strip_prefix "true" s)
          else if Ascii.eqb c "f" then option_map (pair (JBool false)) (strip_prefix "false" s)
          else option_map (λ zr, (JNum (NInt zr.1), zr.2)) (read_integer s)
      end
  end
with read_items (fuel : nat) (s : string) {struct fuel} : option (list jsval * string) :=
  match fuel with
  | O => None
  | S n =>
      match read_value n s with
      | Some (v, String c r) =>
          if Ascii.eqb c "]" then Some ([v], r)
          else if Ascii.eqb c comma then
            match read_items n r with Some (l, rest) => Some (v :: l, rest) | None => None end
          else None
      | _ => None
      end
  end
with read_members (fuel : nat) (s : string) {struct fuel} :
    option (list (string * jsval) * string) :=
  match fuel with
  | O => None
  | S n =>
      match s with
      | String q r =>
          if negb (Ascii.eqb q dquote) then None
          else
            match read_string (String.length r) r with
            | Some (k, String c r') =>
                if negb (Ascii.eqb c colon) then None
                else
                  match read_value n r' with
                  | Some (v, String c' r'') =>
                      if Ascii.eqb c' "}" then Some ([(k, v)], r'')
                      else if Ascii.eqb c' comma then
                        match read_members n r'' with
                        | Some (l, rest) => Some ((k, v) :: l, rest)
                        | None => None
                        end
                      else None
                  | _ => None
                  end
            | _ => None
            end
      | EmptyString => None
      end
  end.

(** Each level consumes a character, so the length is enough fuel. *)
Definition parse (s : string) : option jsval :=
  match read_value (S (String.length s)) s with
  | Some (v, EmptyString) => Some v
  | _ => None
  end.

(** * Round trip *)
Lemma str_length_app s t : String.length (s +:+ t) = (String.length s + String.length t)%nat.
Proof. induction s as [|a s IH]; simpl; [done|]. by rewrite IH. Qed.

Lemma json_char_ne a : json_char a ≠ EmptyString.
Proof. destruct a as [[] [] [] [] [] [] [] []]; discriminate. Qed.

Lemma read_string_body s r n :
  (String.length s < n)%nat → read_string n (json_body s +:+ r) = Some (s, r).
Proof.
  revert n. induction s as [|a s IH]; intros [|n] Hn; simpl in Hn; try lia.
  - reflexivity.
  - change (json_body (String a s)) with (json_char a +:+ json_body s).
    rewrite str_app_assoc.
    destruct (json_char a +:+ (json_body s +:+ r)) as [|c t] eqn:E.
    { pose proof (json_char_ne a). by destruct (json_char a). }
    cbn [read_string]. destruct (Ascii.eqb_spec c dquote) as [->|].
    { exfalso. by eapply json_char_not_quote. }
    rewrite <- E, unescape_json_char, IH by lia. reflexivity.
Qed.

Lemma json_body_length s : (String.length s < String.length (json_body s))%nat.
Proof.
  induction s as [|a s IH]; [simpl; lia|].
  change (json_body (String a s)) with (json_char a +:+ json_body s).
  rewrite str_length_app. pose proof (json_char_ne a).
  destruct (json_char a); [done|]. simpl. lia.
Qed.

(** A literal read within its text's length. *)
Lemma read_literal s r n :
  (String.length (json_body s) <= n)%nat → read_string n (json_body s +:+ r) = Some (s, r).
Proof. intros Hn. apply read_string_body. pose proof (json_body_length s). lia. Qed.

Lemma delim_not_num r : delim r → span_number r = (EmptyString, r).
Proof.
  destruct r as [|a r]; [done|]. simpl. intros Ha. destruct (num_char a) eqn:E; [|done].
  apply num_char_not_closer in E. congruence.
Qed.

Lemma span_number_all s r :
  str_forall num_char s = true → delim r → span_number (s +:+ r) = (s, r).
Proof.
  induction s as [|a s IH]; simpl; [intros _; apply delim_not_num|].
  intros [-> Hs]%andb_true_iff Hr. by rewrite (IH Hs Hr).
Qed.

(** ** Integers *)
Lemma digit_char x :
  (x < 10)%N →
  ((48 <=? code (pretty_N_char x)) && (code (pretty_N_char x) <=? 57))%N = true
  ∧ Z.of_N (code (pretty_N_char x)) = (48 + Z.of_N x)%Z.
Proof.
  intros Hx.
  assert (x = 0 ∨ x = 1 ∨ x = 2 ∨ x = 3 ∨ x = 4 ∨ x = 5 ∨ x = 6 ∨ x = 7 ∨ x = 8 ∨ x = 9)%N
    as Hd by lia.
  by destruct Hd as [->|[->|[->|[->|[->|[->|[->|[->|[->| ->]]]]]]]]].
Qed.

Lemma digits_go x s : digits_value 0 (pretty_N_go x s) = digits_value (Z.of_N x) s.
Proof.
  revert s. induction (N.lt_wf_0 x) as [x _ IH]; intros s.
  assert (x = 0 ∨ 0 < x)%N as [->|?] by lia; [done|].
  rewrite pretty_N_go_step by done. rewrite IH by (by apply N.div_lt).
  destruct (digit_char (x `mod` 10)) as [Hd Hz]; [by apply N.mod_lt|].
  cbn [digits_value]. rewrite Hd, Hz. f_equal.
  pose proof (N.div_mod x 10). lia.
Qed.

Lemma digits_pretty (x : N) : digits_value 0 (pretty x) = Some (Z.of_N x).
Proof.
  unfold pretty, pretty_N. case_decide as H; [by subst|]. rewrite digits_go. done.
Qed.

Lemma pretty_N_head (x : N) :
  ∃ a s, pretty x = String a s ∧ Ascii.eqb a "-" = false.
Proof.
  pose proof (digits_pretty x) as H. destruct (pretty x) as [|a s] eqn:E.
  - unfold pretty, pretty_N in E. case_decide as Hx; [done|].
    rewrite pretty_N_go_step in E by lia.
    pose proof (pretty_N_go_length (x `div` 10) (String (pretty_N_char (x `mod` 10)) "")) as L.
    rewrite E in L. simpl in L. lia.
  - exists a, s. split; [done|]. destruct (Ascii.eqb_spec a "-") as [->|]; [|done].
    simpl in H. discriminate.
Qed.

Lemma read_integer_pretty (z : Z) r : delim r → read_integer (pretty z +:+ r) = Some (z, r).
Proof.
  intros Hr. unfold read_integer.
  rewrite span_number_all by (apply pretty_Z_all || done).
  destruct z as [|p|p]; [done| |].
  - change (pretty (Z.pos p)) with (pretty (N.pos p)).
    destruct (pretty_N_head (N.pos p)) as (a & s & E & Ha).
    pose proof (digits_pretty (N.pos p)) as H. rewrite E in *. rewrite Ha, H. done.
  - change (pretty (Z.neg p)) with (String "-" (pretty (N.pos p))). cbn beta iota.
    rewrite Ascii.eqb_refl, digits_pretty.
    destruct (pretty_N_head (N.pos p)) as (a & s & -> & _). done.
Qed.

(** ** Values *)
Definition reads (v : jsval) : Prop :=
  ∀ n r, delim r → (String.length (json_stringify v) < n)%nat →
    read_value n (json_stringify v +:+ r) = Some (v, r).

Local Abbreviation items_tail := (tail_text json_stringify "]").
Local Abbreviation members_tail := (tail_text json_member "}").

Lemma read_items_text x l n r :
  Forall reads (x :: l) →
  (String.length (json_stringify x +:+ items_tail l EmptyString) < n)%nat →
  read_items n (json_stringify x +:+ items_tail l r) = Some (x :: l, r).
Proof.
  revert x n. induction l as [|y l IH]; intros x [|n] [Hx Hl]%Forall_cons Hn;
    rewrite str_length_app in Hn; cbn [tail_text] in Hn |- *; try lia;
    cbn [read_items]; rewrite Hx by (done || simpl in Hn; lia).
  - done.
  - cbn [String.append]. cbn [Ascii.eqb]. rewrite IH by (done || simpl in Hn; lia). done.
Qed.

Lemma json_member_cons k x r :
  json_member (k, x) +:+ r = String dquote (json_body k +:+ String colon (json_stringify x +:+ r)).
Proof. unfold json_member, json_quote; simpl. by rewrite !str_app_assoc. Qed.

Lemma json_member_length k x :
  String.length (json_member (k, x))
  = (2 + String.length (json_body k) + String.length (json_stringify x))%nat.
Proof. unfold json_member, json_quote; simpl. rewrite !str_length_app. simpl. lia. Qed.

Lemma read_members_text kv l n r :
  Forall (λ kv, reads kv.2) (kv :: l) →
  (String.length (json_member kv +:+ members_tail l EmptyString) < n)%nat →
  read_members n (json_member kv +:+ members_tail l r) = Some (kv :: l, r).
Proof.
  revert kv n. induction l as [|[k' y] l IH]; intros [k x] [|n] [Hx Hl]%Forall_cons Hn; try lia;
    cbn [fst snd] in *; rewrite str_length_app, json_member_length in Hn;
    rewrite json_member_cons; cbn [read_members tail_text] in Hn |- *;
    rewrite !Ascii.eqb_refl; cbn [negb];
    (rewrite read_literal by (rewrite str_length_app; lia));
    rewrite Ascii.eqb_refl; cbn [negb]; (rewrite Hx by (done || simpl in Hn; lia)).
  - done.
  - cbn [String.append]. cbn [Ascii.eqb]. rewrite IH by (done || cbn [String.append String.length] in Hn; lia). done.
Qed.

Lemma closer_ne a b : closer a = false → closer b = true → Ascii.eqb a b = false.
Proof. intros Ha Hb. destruct (Ascii.eqb_spec a b) as [->|]; congruence. Qed.

Lemma str_app_nil_r s : s +:+ EmptyString = s.
Proof. induction s as [|a s IH]; simpl; congruence. Qed.

Lemma read_stringify v : json_plain v → reads v.
Proof.
  induction v as [| |b|m|s|l IH|ps IH] using jsval_nested_ind; intros Hv [|n] r Hr Hn; try lia;
    inversion Hv; subst.
  - done.
  - by destruct b.
  - destruct (pretty_Z_head z) as (a & t & E & Ha). pose proof (read_integer_pretty z r Hr) as R.
    cbn [json_stringify] in *. rewrite E in R |- *. cbn [String.append read_value] in R |- *.
    unfold num_char in Ha. rewrite R.
    assert (Ascii.eqb a dquote = false ∧ Ascii.eqb a "[" = false ∧ Ascii.eqb a "{" = false
      ∧ Ascii.eqb a "n" = false ∧ Ascii.eqb a "t" = false ∧ Ascii.eqb a "f" = false)
      as (-> & -> & -> & -> & -> & ->); [|done].
    clear - Ha. destruct a as [[] [] [] [] [] [] [] []]; try discriminate; auto 10.
  - cbn [json_stringify]. unfold json_quote. cbn [String.append read_value].
    rewrite Ascii.eqb_refl, read_literal; [done|]. cbn. rewrite str_length_app. lia.
  - rewrite stringify_arr in *. rewrite !str_app_assoc. cbn [String.append read_value] in *.
    destruct l as [|x l]; [done|].
    change ("]" +:+ r) with (String "]" r). rewrite (str_concat_tail json_stringify).
    assert (Forall reads (x :: l)) as Hl.
    { rewrite Forall_forall in IH, H0 |- *. eauto. }
    rewrite (read_items_text x l n r) by (done || (rewrite <- (str_concat_tail json_stringify); simpl in *; lia)).
    apply Forall_cons in H0 as [Hx _].
    destruct (plain_opens x Hx) as (a & t & E & Ha). rewrite E. cbn [String.append].
    by rewrite (closer_ne a "]" Ha eq_refl).
  - rewrite stringify_plain_obj in * by done. rewrite !str_app_assoc.
    cbn [String.append read_value] in *. destruct ps as [|[k x] ps]; [done|].
    change ("}" +:+ r) with (String "}" r). rewrite (str_concat_tail json_member).
    assert (Forall (λ kv, reads kv.2) ((k, x) :: ps)) as Hps.
    { rewrite Forall_forall in IH, H0 |- *. eauto. }
    rewrite (read_members_text (k, x) ps n r)
      by (done || (rewrite <- (str_concat_tail json_member); simpl in *; lia)).
    rewrite json_member_cons. done.
Qed.

(** Written and read back. *)
Lemma parse_stringify v : json_plain v → parse (json_stringify v) = Some v.
Proof.
  intros Hv. unfold parse.
  pose proof (read_stringify v Hv (S (String.length (json_stringify v))) EmptyString I ltac:(lia)) as H.
  rewrite str_app_nil_r in H. by rewrite H.
Qed.

Lemma parse_canonicalize v : parse (canonicalize v) = Some (normalize v).
Proof.
  unfold canonicalize. rewrite canon_stringify by apply normalize_normal.
  apply parse_stringify, normal_plain, normalize_normal.
Qed.

(** * One line

    [JSON.stringify] without an indent writes no line break. *)
Definition line_feed : ascii := ascii_of_N 10.

Definition one_line (s : string) : bool := str_forall (λ a, negb (Ascii.eqb a line_feed)) s.

Lemma one_line_app s t : one_line (s +:+ t) = one_line s && one_line t.
Proof. apply str_forall_app. Qed.

Lemma one_line_concat sep l :
  one_line sep = true → Forall (λ s, one_line s = true) l → one_line (str_concat sep l) = true.
Proof.
  intros Hsep. induction 1 as [|s l Hs Hl IH]; [done|]. destruct l as [|t l]; [done|].
  change (one_line (s +:+ sep +:+ str_concat sep (t :: l)) = true).
  by rewrite !one_line_app, Hs, Hsep, IH.
Qed.

Lemma one_line_char a : one_line (json_char a) = true.
Proof. destruct a as [[] [] [] [] [] [] [] []]; reflexivity. Qed.

Lemma one_line_quote s : one_line (json_quote s) = true.
Proof.
  change (one_line (json_body s) = true). induction s as [|a s IH]; [done|].
  change (one_line (json_char a +:+ json_body s) = true). by rewrite one_line_app, one_line_char.
Qed.

Lemma one_line_weaken P s :
  (∀ a, P a = true → a ≠ line_feed) → str_forall P s = true → one_line s = true.
Proof.
  intros HP. induction s as [|a s IH]; [done|]. simpl. intros [Ha Hs]%andb_true_iff.
  apply andb_true_iff. split; [|by apply IH]. by apply negb_true_iff, Ascii.eqb_neq, HP.
Qed.

Lemma stringify_one_line v : one_line (json_stringify v) = true.
Proof.
  induction v as [| |[]|n|s|l IH|ps IH] using jsval_nested_ind; try done.
  - destruct n as [z| |]; try done. eapply one_line_weaken, pretty_Z_all. by intros a Ha ->.
  - apply one_line_quote.
  - rewrite stringify_arr, !one_line_app. apply andb_true_iff; split; [done|].
    apply andb_true_iff; split; [|done]. apply one_line_concat; [done|]. by apply Forall_map.
  - rewrite stringify_obj, !one_line_app. apply andb_true_iff; split; [done|].
    apply andb_true_iff; split; [|done]. apply one_line_concat; [done|]. apply Forall_map.
    apply Forall_forall. intros kv Hkv. rewrite Forall_forall in IH. unfold json_member.
    rewrite !one_line_app, one_line_quote, IH; [done|].
    apply list_elem_of_In, filter_In in Hkv as [Hkv _]. by apply list_elem_of_In.
Qed.
