(* ===== verification/WorkerValues.v ===== *)
(** The worker's values: the pure helpers of [src/index.ts].

    What the platform supplies ([JSON.parse], dates, case mapping, the locale's
    order, random identifiers, HMAC and base64) is the class [Platform]; a
    request body is a run-time value. Property names are taken not to be array
    indices, which an object would list first. *)
From Stdlib Require Import ZArith NArith Lia Ascii.
From stdpp Require Import base list strings pretty.
From S2P Require Import Prelude JsValue Sha256 Canonical.

(** [None] of [json_parse], [date_parse] and [atob] is an exception, [NaN] and
    an exception. Byte strings are strings of bytes. *)
Class Platform := mkPlatform {
  json_parse : string → option jsval;
  date_parse : string → option Z;
  to_iso : Z → string;
  other_number : string → jsnum;
  to_upper : string → string;
  to_lower : string → string;
  locale_leb : string → string → bool;
  random_uuid : nat → string;
  hmacSha256 : string → string → string;
  atob : string → option string;
  text_decode : string → string
}.

(** * Constants *)
Definition GOVERNED_WORKFLOW : string := "governed-deploy.yml".
Definition PROVENANCE_PAYLOAD_TYPE : string :=
  "application/vnd.mindshift.cryptographic-provenance.v1+json".
Definition SESSION_TTL_MS : Z := 3600000.
Definition VALIDATION_FRESHNESS_WINDOW_MS : Z := 300000.
Definition PROOF_FRESHNESS_WINDOW_MS : Z := 600000.
Definition SYSTEM_MAX_CONTINUITY_DEPTH : nat := 32.

(** * Canonical values

    [normalizeCanonicalValue] and [canonicalize] of the worker are, word for
    word, [normalize] and [canonicalize] of [src/canonical.js]. *)
Definition normalizeCanonicalValue (v : jsval) : jsval := normalize v.

Definition canonicalRecord (v : jsval) : jsval :=
  match normalizeCanonicalValue v with JObj ps => JObj ps | _ => JObj [] end.

Definition REQUIRED_AEO_KEYS : list string := ["intent"; "scope"; "validation"; "target"; "finality"].

Record CanonicalAEO := mkAEO {
  a_intent : string;
  a_scope : jsval;
  a_validation : jsval;
  a_target : jsval;
  a_finality : jsval
}.

Definition aeo_js (a : CanonicalAEO) : jsval :=
  JObj [("intent", JStr (a_intent a)); ("scope", a_scope a); ("validation", a_validation a);
        ("target", a_target a); ("finality", a_finality a)].

Definition toCanonicalAeo (input : jsval) : option CanonicalAEO :=
  if negb (is_record input) then None
  else if negb (Nat.eqb (length (sorted_keys input)) (length REQUIRED_AEO_KEYS)) then None
  else if negb (String.eqb (str_concat "|" (sorted_keys input))
                  (str_concat "|" (sort_by str_leb REQUIRED_AEO_KEYS))) then None
  else if is_empty_str (text (get input "intent")) then None
  else Some (mkAEO (text (get input "intent")) (canonicalRecord (get input "scope"))
    (canonicalRecord (get input "validation")) (canonicalRecord (get input "target"))
    (canonicalRecord (get input "finality"))).

(** [sha256Hex(canonicalize(aeo))]. *)
Definition aeo_hash (a : CanonicalAEO) : string := hashCanonical (aeo_js a).

(** * Origin of a lineage stage *)
Inductive LineageStage := stage_compile | stage_validate | stage_execute | stage_proof.

Definition stage_str (s : LineageStage) : string :=
  match s with
  | stage_compile => "compile" | stage_validate => "validate"
  | stage_execute => "execute" | stage_proof => "proof"
  end.

(** [JSON.stringify] of four string properties, in this order. *)
Definition canonicalLineageHash (stage : LineageStage) (decision_id object_hash parent_hash : string) :
    string :=
  "{" +:+ json_quote "lineage_stage" +:+ ":" +:+ json_quote (stage_str stage)
  +:+ "," +:+ json_quote "decision_id" +:+ ":" +:+ json_quote decision_id
  +:+ "," +:+ json_quote "validated_object_hash" +:+ ":" +:+ json_quote object_hash
  +:+ "," +:+ json_quote "parent_hash" +:+ ":" +:+ json_quote parent_hash +:+ "}".

(** [None] is [{ ok: true }]. *)
Definition verifyLineageOrigin (stage : LineageStage) (decision_id object_hash lineage_stage
    lineage_origin_hash parent_hash expected_parent : string) : option string :=
  let '(orphan, invalid) :=
    match stage with
    | stage_validate => ("orphan_validation_lineage", "invalid_compile_lineage")
    | stage_execute => ("orphan_execution_lineage", "invalid_validation_lineage")
    | _ => ("orphan_proof_lineage", "invalid_execution_lineage")
    end in
  if negb (String.eqb lineage_stage (stage_str stage)) then Some "lineage_stage_mismatch"
  else if is_empty_str expected_parent then Some orphan
  else if is_empty_str parent_hash || negb (String.eqb parent_hash expected_parent)
  then Some invalid
  else if negb (String.eqb lineage_origin_hash
                  (canonicalLineageHash stage decision_id object_hash parent_hash))
  then Some "lineage_origin_mismatch"
  else None.

(** * Policy classes *)
Inductive PolicyClass := TOOL_RUNTIME_MUTATION | TOOL_RECONCILIATION_READONLY | TOOL_UNKNOWN.

Definition policy_str (c : PolicyClass) : string :=
  match c with
  | TOOL_RUNTIME_MUTATION => "TOOL_RUNTIME_MUTATION"
  | TOOL_RECONCILIATION_READONLY => "TOOL_RECONCILIATION_READONLY"
  | TOOL_UNKNOWN => "TOOL_UNKNOWN"
  end.

Definition tool_classes (c : PolicyClass) : list string :=
  match c with
  | TOOL_RUNTIME_MUTATION => ["deploy_runtime"; "runtime_mutation"; "state_mutation"]
  | TOOL_RECONCILIATION_READONLY => ["reconciliation_readonly"; "observability_readonly"]
  | TOOL_UNKNOWN => []
  end.

(** The registry's entry of a known class. *)
Definition POLICY_REGISTRY (c : PolicyClass) : jsval :=
  let strs l := JArr (map JStr l) in
  match c with
  | TOOL_RUNTIME_MUTATION =>
      JObj [("policy_class", JStr (policy_str c)); ("tool_classes", strs (tool_classes c));
        ("authority_predicates", strs ["authority_active"; "continuity_identity_match";
           "compiled_hash_match"; "delegated_authority_lineage_valid"]);
        ("replay_policy", JStr "nonce_required_single_use");
        ("topology_visibility_required", JBool true);
        ("proof_requirements", strs ["lineage_origin_hash"; "proof_required_true";
           "validated_object_equals_executed_object"])]
  | TOOL_RECONCILIATION_READONLY =>
      JObj [("policy_class", JStr (policy_str c)); ("tool_classes", strs (tool_classes c));
        ("authority_predicates", strs ["read_only_surface"; "remote_authority_denied"]);
        ("replay_policy", JStr "evidence_only_no_mutation");
        ("topology_visibility_required", JBool false);
        ("proof_requirements", strs ["evidence_only_true"])]
  | TOOL_UNKNOWN => JUndef
  end.

Definition classifyToolSurface (target : jsval) : string * PolicyClass :=
  let surface := to_string (js_or (get target "tool_surface") (js_or (get target "execution_surface")
    (js_or (get target "surface") (JStr "deploy_runtime")))) in
  if str_in surface (tool_classes TOOL_RUNTIME_MUTATION) then (surface, TOOL_RUNTIME_MUTATION)
  else if str_in surface (tool_classes TOOL_RECONCILIATION_READONLY)
  then (surface, TOOL_RECONCILIATION_READONLY)
  else (surface, TOOL_UNKNOWN).

Definition policyClassDigest (c : PolicyClass) : string :=
  match c with TOOL_UNKNOWN => EmptyString | _ => hashCanonical (POLICY_REGISTRY c) end.

(** * Deployment *)
Record deploy_target := mkTarget { dt_repo : string; dt_branch : string; dt_workflow : string }.

Definition canonicalDeployTarget (input : jsval) : deploy_target :=
  mkTarget (text (js_or (get input "repo") (get input "repository"))) (text (get input "branch"))
    (to_string (js_or (get input "workflow") (JStr GOVERNED_WORKFLOW))).

Record DeploymentProvenance := mkProvenance {
  pv_repository : string;
  pv_branch : string;
  pv_pull_request_id : string;
  pv_merge_commit_sha : string;
  pv_source_tree_hash : string;
  pv_workflow_run_id : string;
  pv_workflow_sha : string
}.

Definition deploymentProvenanceFrom (input : jsval) : DeploymentProvenance :=
  mkProvenance (text (js_or (get input "repository") (get input "repo"))) (text (get input "branch"))
    (text (js_or (get input "pull_request_id") (get input "pull_request_number")))
    (text (js_or (get input "merge_commit_sha") (get input "commit_sha")))
    (text (get input "source_tree_hash"))
    (text (js_or (get input "workflow_run_id") (get input "run_id")))
    (text (js_or (get input "workflow_sha") (get input "commit_sha"))).

(** [Object.entries] of a provenance. *)
Definition provenance_entries (p : DeploymentProvenance) : list (string * string) :=
  [("repository", pv_repository p); ("branch", pv_branch p);
   ("pull_request_id", pv_pull_request_id p); ("merge_commit_sha", pv_merge_commit_sha p);
   ("source_tree_hash", pv_source_tree_hash p); ("workflow_run_id", pv_workflow_run_id p);
   ("workflow_sha", pv_workflow_sha p)].

Definition missing_of (entries : list (string * string)) : list string :=
  map fst (List.filter (λ kv, is_empty_str kv.2) entries).

Definition missingDeploymentProvenance (p : DeploymentProvenance) : list string :=
  missing_of (provenance_entries p).

Record ExecutionSnapshotInput := mkSnapshotInput {
  sn_repository_tree_hash : string;
  sn_workflow_hash : string;
  sn_topology_hash : string;
  sn_governance_hash : string;
  sn_runtime_surface_hash : string;
  sn_schema_set_hash : string;
  sn_workflow_identity : string;
  sn_replay_epoch : string
}.

Definition executionSnapshotFrom (input : jsval) : ExecutionSnapshotInput :=
  let snapshot := js_or (get input "execution_snapshot") (js_or input (JObj [])) in
  let field k := text (get snapshot k) in
  mkSnapshotInput (field "repository_tree_hash") (field "workflow_hash") (field "topology_hash")
    (field "governance_hash") (field "runtime_surface_hash") (field "schema_set_hash")
    (text (js_or (get snapshot "workflow_identity") (get snapshot "workflow_path")))
    (field "replay_epoch").

Definition snapshot_entries (s : ExecutionSnapshotInput) : list (string * string) :=
  [("repository_tree_hash", sn_repository_tree_hash s); ("workflow_hash", sn_workflow_hash s);
   ("topology_hash", sn_topology_hash s); ("governance_hash", sn_governance_hash s);
   ("runtime_surface_hash", sn_runtime_surface_hash s); ("schema_set_hash", sn_schema_set_hash s);
   ("workflow_identity", sn_workflow_identity s); ("replay_epoch", sn_replay_epoch s)].

Definition missingExecutionSnapshotFields (s : ExecutionSnapshotInput) : list string :=
  missing_of (snapshot_entries s).

Definition preoGovernanceEnabled (constraints : jsval) (target : deploy_target) : bool :=
  let is_true v := bool_decide (v = JBool true) in
  let record_or_empty v := if is_record v then v else JObj [] in
  let governance := record_or_empty (get constraints "governance") in
  let preo := record_or_empty (get constraints "preo") in
  if negb (String.eqb (dt_workflow target) GOVERNED_WORKFLOW) then false
  else is_true (get constraints "require_preo_lineage")
    || is_true (get governance "require_preo_lineage")
    || is_true (get preo "required") || is_true (get preo "require_lineage").

(** * Governed candidates *)
Record GovernCandidate := mkCandidate {
  gc_intent : string;
  gc_scope : jsval;
  gc_target : jsval;
  gc_finality : jsval
}.

Definition candidate_js (c : GovernCandidate) : jsval :=
  JObj [("intent", JStr (gc_intent c)); ("scope", gc_scope c); ("target", gc_target c);
        ("finality", gc_finality c)].

Definition GOVERN_ALLOWED_KEYS : list string :=
  ["intent"; "scope"; "target"; "finality"; "policy_class"; "policy_digest";
   "topology_attestation_hash"; "topology_epoch"; "topology_observed_at";
   "topology_visibility_state"].

Definition parseGovernCandidate (input : jsval) : GovernCandidate + string :=
  if negb (is_record input) then inr "invalid_candidate"
  else if existsb (λ k, negb (str_in k GOVERN_ALLOWED_KEYS)) (keys input)
  then inr "strict_mode_extra_top_level_field"
  else if negb (is_non_empty (get input "intent")) then inr "missing_intent"
  else if negb (is_record (get input "scope")) then inr "missing_scope"
  else if negb (is_record (get input "target")) then inr "missing_target"
  else if negb (is_record (get input "finality")) then inr "missing_finality"
  else inl (mkCandidate (str_or_empty (get input "intent")) (get input "scope")
         (get input "target") (get input "finality")).

Definition canonicalGovernProjectionFromCandidate (c : GovernCandidate) : GovernCandidate :=
  mkCandidate (gc_intent c) (canonicalRecord (gc_scope c)) (canonicalRecord (gc_target c))
    (canonicalRecord (gc_finality c)).

Definition canonicalGovernProjectionFromAeo (a : CanonicalAEO) : GovernCandidate :=
  mkCandidate (a_intent a) (canonicalRecord (a_scope a)) (canonicalRecord (a_target a))
    (canonicalRecord (a_finality a)).

Definition computeGovernProjectionHash (p : GovernCandidate) : string :=
  hashCanonical (candidate_js (canonicalGovernProjectionFromCandidate p)).

(** [/^[a-f0-9]{64}$/i]. *)
Definition is_hex_char (a : ascii) : bool :=
  let n := code a in
  ((48 <=? n) && (n <=? 57) || (97 <=? n) && (n <=? 102) || (65 <=? n) && (n <=? 70))%N.

Definition is_hex64 (s : string) : bool := Nat.eqb (String.length s) 64 && str_forall is_hex_char s.

Definition resolveGovernPolicyPredicate (input : jsval) : string * string :=
  if negb (is_record input) then (EmptyString, EmptyString)
  else (js_trim (text (get input "policy_class")), js_trim (text (get input "policy_digest"))).

(** The reason of a refusal. *)
Definition validateGovernPolicyPredicate (policy_class policy_digest : string) : option string :=
  if is_empty_str policy_class then Some "policy_class_missing"
  else if is_empty_str policy_digest then Some "policy_digest_missing"
  else if negb (str_in policy_class ["TOOL_RUNTIME_MUTATION"; "TOOL_RECONCILIATION_READONLY"])
  then Some "policy_class_invalid"
  else if negb (is_hex64 policy_digest) then Some "policy_digest_mismatch"
  else None.

Definition resolveGovernTopologyPredicate (input : jsval) : string :=
  if negb (is_record input) then EmptyString
  else js_trim (text (get input "topology_attestation_hash")).

Section Platform.
Context `{!Platform}.

Definition validateGovernTopologyPredicate (attestation : string) : option string :=
  if is_empty_str attestation then Some "topology_attestation_missing"
  else if String.eqb (to_lower attestation) "stale" then Some "topology_attestation_stale"
  else if String.eqb (to_lower attestation) "ambiguous" then Some "topology_attestation_ambiguous"
  else if negb (is_hex64 attestation) then Some "topology_unreconcilable"
  else None.

Definition isOpenClawOriginPayload (payload : jsval) : bool :=
  let origin := to_lower (text (js_or (get payload "origin") (js_or (get payload "authority_origin")
    (get payload "lineage_origin")))) in
  let nonceDomain := to_lower (text (get payload "nonce_domain")) in
  String.eqb origin "openclaw" || String.eqb nonceDomain "openclaw"
  || starts_with "openclaw-" nonceDomain.

(** * Dates *)
Definition isExpired (expires_at : string) (nowMs : Z) : bool :=
  match date_parse expires_at with None => true | Some t => (t <=? nowMs)%Z end.

Definition isFresh (created_at : string) (windowMs nowMs : Z) : bool :=
  match date_parse created_at with None => false | Some t => (nowMs - t <=? windowMs)%Z end.

(** [Date.parse(a) > Date.parse(b)], false when either is [NaN]. *)
Definition date_after (a b : string) : bool :=
  match date_parse a, date_parse b with Some x, Some y => (y <? x)%Z | _, _ => false end.

(** * Delegation and continuity *)
Definition parseCanonicalRecordJson (value : string) : jsval :=
  match json_parse (if is_empty_str value then "{}" else value) with
  | Some v => canonicalRecord v
  | None => JObj []
  end.

(** [Object.prototype.hasOwnProperty.call(v, k)]. *)
Definition has_own (k : string) (v : jsval) : bool := str_in k (keys v).

(** Every property of the child is one of the parent, with the same canonical text. *)
Definition scope_entries_within (parentScope : jsval) (entries : list (string * jsval)) : bool :=
  forallb (λ kv, has_own kv.1 parentScope
    && String.eqb (canonicalize (get parentScope kv.1)) (canonicalize kv.2)) entries.

Definition delegationScopeIsSubset (parentScopeInput childScopeInput : jsval) : bool :=
  scope_entries_within (canonicalRecord parentScopeInput) (props (canonicalRecord childScopeInput)).

(** [v.map(String)]. *)
Definition strings_of (v : jsval) : list string :=
  match v with JArr l => map to_string l | _ => [] end.

Definition continuityHashMaterial (input : jsval) : jsval :=
  let revocation := if is_record (get input "revocation") then get input "revocation" else JObj [] in
  JObj [("actor_chain", JArr (map JStr (strings_of (get input "actor_chain"))));
    ("authority_chain", JArr (map JStr (strings_of (get input "authority_chain"))));
    ("constraints", canonicalRecord (get input "constraints"));
    ("continuity_id", JStr (text (get input "continuity_id")));
    ("expires_at", JStr (text (get input "expires_at")));
    ("identity_id", JStr (text (get input "identity_id")));
    ("issued_at", JStr (text (get input "issued_at")));
    ("parent_continuity_id",
      if truthy (get input "parent_continuity_id")
      then JStr (to_string (get input "parent_continuity_id")) else JNull);
    ("revocation", JObj [("revoked_at", js_coalesce (get revocation "revoked_at") JNull);
      ("status", JStr (to_string (js_or (get revocation "status") (JStr "ACTIVE"))))]);
    ("scope", canonicalRecord (get input "scope"));
    ("session_id", JStr (text (get input "session_id")))].

Definition continuityHash (input : jsval) : string := hashCanonical (continuityHashMaterial input).

(** [Number(v?.constraints?.max_depth)], when finite. *)
Definition configured_max_depth (canonical : jsval) : option Z :=
  finite (to_number other_number (get (get canonical "constraints") "max_depth")).

(** A configured bound that [n] exceeds. *)
Definition exceeds_configured (canonical : jsval) (n : nat) : bool :=
  match configured_max_depth canonical with
  | Some d => (0 <=? d)%Z && (d <? Z.of_nat n)%Z
  | None => false
  end.
End Platform.

(** * Rejection telemetry *)
Definition installBaseTelemetryTypeFromRejection (reason event_type : string) : string :=
  if str_in reason ["replay_detected"; "nonce_used"; "proof_replay"]
     || String.eqb event_type "REPLAY_BLOCKED" then "replay_rejected"
  else if str_in reason ["hash_mismatch"; "execution_hash_mismatch";
            "execution_snapshot_hash_mismatch"]
          || String.eqb event_type "HASH_MISMATCH" then "hash_mismatch_rejected"
  else if String.eqb reason "authority_expired" then "expired_authority_rejected"
  else if String.eqb reason "policy_violation" then "policy_violation_rejected"
  else if String.eqb reason "continuity_expired" then "continuity_expiry_rejected"
  else if String.eqb reason "stale_lineage" then "stale_lineage_rejected"
  else if str_in reason ["invalid_continuity"; "continuity_hash_mismatch"]
  then "continuity_rejected"
  else if includes "lineage" reason then "orphaned_lineage_observed"
  else "invalid_execution_blocked".
