(* ===== verification/WorkerTables.v ===== *)
(** The worker's tables: the D1 registries that the lifecycle routes of
    [src/index.ts] read and write.

    A table is the list of its rows in insertion order, which is the order in
    which a query without [ORDER BY] meets them. A column that can be [NULL] and
    is told apart from the empty text is an [option]; one that is only read
    through [String(x || "")] holds the empty text for [NULL]. *)
From Stdlib Require Import ZArith NArith Lia Ascii.
From stdpp Require Import base list strings pretty.
From S2P Require Import Prelude JsValue WorkerValues.

(** * Rows *)
Record SessionRow := mkSession {
  se_id : string;
  se_identity : string;
  se_owner : string;
  se_trust_tier : string;
  se_status : string;
  se_created_at : string;
  se_expires_at : string
}.

Record ContinuityRow := mkContinuity {
  co_id : string;
  co_identity : string;
  co_session : string;
  co_parent : option string;
  co_hash : string;
  co_canonical : string;
  co_status : string;
  co_issued_at : string;
  co_expires_at : string;
  co_revoked_at : option string
}.

Record AuthorityRow := mkAuthority {
  au_id : string;
  au_decision : string;
  au_identity : string;
  au_session : string;
  au_continuity : string;
  au_owner : string;
  au_intent : string;
  au_scope : string;
  au_constraints : string;
  au_expiry : string;
  au_status : string;
  au_created_at : string;
  au_delegated : string;
  au_parent : string;
  au_depth : string;
  au_scope_subset : string;
  au_delegation_expiry : string;
  au_lineage_hash : string;
  au_root_hash : string;
  au_replay_chain : string;
  au_envelope : string
}.

Record AeoRow := mkAeoRow {
  ao_id : string;
  ao_authority : string;
  ao_decision : string;
  ao_continuity : string;
  ao_canonical : string;
  ao_hash : string;
  ao_projection_hash : string;
  ao_status : string;
  ao_created_at : string;
  ao_workflow_hash : string;
  ao_delegated : string;
  ao_lineage_hash : string;
  ao_root_hash : string;
  ao_replay_chain : string;
  ao_envelope : string
}.

Record ValidationRow := mkValidation {
  va_id : string;
  va_session : string;
  va_continuity : string;
  va_decision : string;
  va_hash : string;
  va_nonce : string;
  va_environment : string;
  va_result : string;
  va_reason : option string;
  va_status : string;
  va_created_at : string;
  va_delegated : string;
  va_replay_chain : string;
  va_parent_hash : string;
  va_workflow_hash : string;
  va_stage : string;
  va_origin_hash : string
}.

Record InvocationRow := mkInvocation {
  in_decision : string;
  in_hash : string;
  in_nonce : string;
  in_continuity : string;
  in_status : string;
  in_created_at : string
}.

Record ExecutionRow := mkExecution {
  ex_id : string;
  ex_session : string;
  ex_decision : string;
  ex_hash : string;
  ex_nonce : string;
  ex_status : string;
  ex_created_at : string;
  ex_continuity : string;
  ex_provenance : DeploymentProvenance;
  ex_workflow_integrity : string;
  ex_delegated : string;
  ex_replay_chain : string;
  ex_lineage_hash : string;
  ex_root_hash : string;
  ex_parent_hash : string;
  ex_stage : string;
  ex_origin_hash : string
}.

Record ProofRow := mkProof {
  pf_id : string;
  pf_identity : string;
  pf_session : string;
  pf_continuity : string;
  pf_continuity_hash : string;
  pf_execution : string;
  pf_decision : string;
  pf_hash : string;
  pf_decision_hash : string;
  pf_authority_lineage : string;
  pf_execution_lineage : string;
  pf_surface : string;
  pf_run_id : string;
  pf_commit_sha : string;
  pf_workflow : string;
  pf_environment : string;
  pf_created_at : string;
  pf_provenance : DeploymentProvenance;
  pf_workflow_integrity : string;
  pf_delegated : string;
  pf_replay_chain : string;
  pf_lineage_hash : string;
  pf_root_hash : string;
  pf_parent_hash : string;
  pf_stage : string;
  pf_origin_hash : string
}.

Record SnapshotRow := mkSnapshotRow {
  sp_id : string;
  sp_decision : string;
  sp_continuity : string;
  sp_authority : string;
  sp_snapshot : ExecutionSnapshotInput;
  sp_hash : string;
  sp_nonce : string;
  sp_status : string;
  sp_execution : string;
  sp_proof : option string;
  sp_created_at : string
}.

Record PreoRow := mkPreo {
  po_id : string;
  po_decision : string;
  po_authority : string;
  po_continuity : string;
  po_reviewed_hash : string;
  po_reviewed_tree_hash : string;
  po_merge_commit_sha : string;
  po_canonical : string;
  po_status : string;
  po_created_at : string
}.

Record AttestationRow := mkAttestationRow {
  at_id : string;
  at_envelope_hash : string;
  at_payload_hash : string;
  at_payload_type : string;
  at_signer : string;
  at_decision : string;
  at_hash : string;
  at_workflow_run : string;
  at_workflow_sha : string;
  at_aeo_hash : string;
  at_log_id : string;
  at_integrated_time : string;
  at_status : string;
  at_created_at : string
}.

Record DelegationRow := mkDelegation {
  dl_id : string;
  dl_object_type : string;
  dl_delegated : string;
  dl_parent : string;
  dl_authority : option string;
  dl_decision : option string;
  dl_continuity : option string;
  dl_depth : string;
  dl_scope_subset : string;
  dl_expiry : string;
  dl_lineage_hash : string;
  dl_root_hash : string;
  dl_replay_chain : string;
  dl_canonical : string;
  dl_exact_hash : string;
  dl_projection_status : string;
  dl_revocation_reason : option string;
  dl_created_at : string
}.

Record EnvelopeRow := mkEnvelope {
  el_id : string;
  el_candidate_hash : string;
  el_nonce_binding : string;
  el_policy_digest : string;
  el_topology_digest : string;
  el_lineage_pointers : string;
  el_timestamp : string;
  el_non_operative : string;
  el_descriptor : string;
  el_created_at : string
}.

Record GovernEnvelopeRow := mkGovernEnvelope {
  ge_id : string;
  ge_hash : string;
  ge_candidate_hash : string;
  ge_candidate_canonical : string;
  ge_projection_hash : string;
  ge_nonce : string;
  ge_nonce_domain : string;
  ge_policy_class : string;
  ge_policy_digest : string;
  ge_topology_attestation : string;
  ge_status : string;
  ge_reason : string;
  ge_created_at : string
}.

Record GovernNonceRow := mkGovernNonce {
  gn_nonce : string;
  gn_domain : string;
  gn_candidate_hash : string;
  gn_created_at : string
}.

Record GovernEvidenceRow := mkGovernEvidence {
  gv_id : string;
  gv_candidate_hash : string;
  gv_nonce : string;
  gv_result : string;
  gv_reason : option string;
  gv_created_at : string
}.

Record AtaoRow := mkAtaoRow {
  ta_id : string;
  ta_hash : string;
  ta_candidate_hash : string;
  ta_envelope : string;
  ta_nonce : string;
  ta_nonce_domain : string;
  ta_agent : string;
  ta_session : string;
  ta_risk_class : string;
  ta_action : string;
  ta_scope : string;
  ta_created_at : string
}.

Record OutboxRow := mkOutbox {
  ob_id : string;
  ob_proof : string;
  ob_decision : string;
  ob_execution : string;
  ob_hash : string;
  ob_event : string;
  ob_payload : string;
  ob_status : string;
  ob_created_at : string
}.

Record EpochRow := mkEpochRow {
  ep_id : string;
  ep_scope : string;
  ep_topology_epoch : option Z;
  ep_lineage_parent : string;
  ep_created_at : string
}.

Record TopologyRow := mkTopologyRow {
  tp_snapshot_id : string;
  tp_hash : string;
  tp_evidence_only : string;
  tp_replay_neutral : string;
  tp_executable : string;
  tp_deployment_capable : string;
  tp_creates_authority : string;
  tp_created_at : string
}.

(** The three append-only logs; their JSON payloads are not modelled. *)
Inductive log_row :=
  | ObservabilityRow (event : string) (decision authority execution proof : option string)
      (severity created_at : string)
  | InstallBaseRow (event : string) (decision authority execution proof : option string)
      (origin_hash : option string) (origin_match created_at : string)
  | DriftRow (drift_class severity : string) (decision execution : option string)
      (created_at : string).

(** The tables, each in insertion order, the clock and the number of random
    identifiers drawn so far. *)
Record world := mkWorld {
  sessions : list SessionRow;
  continuities : list ContinuityRow;
  authorities : list AuthorityRow;
  aeos : list AeoRow;
  validations : list ValidationRow;
  invocations : list InvocationRow;
  executions : list ExecutionRow;
  proofs : list ProofRow;
  snapshots : list SnapshotRow;
  preos : list PreoRow;
  attestations : list AttestationRow;
  delegations : list DelegationRow;
  envelopes : list EnvelopeRow;
  govern_envelopes : list GovernEnvelopeRow;
  govern_nonces : list GovernNonceRow;
  govern_evidence : list GovernEvidenceRow;
  ataos : list AtaoRow;
  outbox : list OutboxRow;
  epochs : list EpochRow;
  topologies : list TopologyRow;
  logs : list log_row;
  clock : Z;
  drawn : nat
}.

Definition empty_world (now : Z) : world :=
  mkWorld [] [] [] [] [] [] [] [] [] [] [] [] [] [] [] [] [] [] [] [] [] now 0.

Definition set_sessions (x : list SessionRow) (s : world) : world :=
  mkWorld x (continuities s) (authorities s) (aeos s) (validations s) (invocations s)
    (executions s) (proofs s) (snapshots s) (preos s) (attestations s) (delegations s)
    (envelopes s) (govern_envelopes s) (govern_nonces s) (govern_evidence s) (ataos s)
    (outbox s) (epochs s) (topologies s) (logs s) (clock s) (drawn s).
Definition set_continuities (x : list ContinuityRow) (s : world) : world :=
  mkWorld (sessions s) x (authorities s) (aeos s) (validations s) (invocations s) (executions s)
    (proofs s) (snapshots s) (preos s) (attestations s) (delegations s) (envelopes s)
    (govern_envelopes s) (govern_nonces s) (govern_evidence s) (ataos s) (outbox s) (epochs s)
    (topologies s) (logs s) (clock s) (drawn s).
Definition set_authorities (x : list AuthorityRow) (s : world) : world :=
  mkWorld (sessions s) (continuities s) x (aeos s) (validations s) (invocations s)
    (executions s) (proofs s) (snapshots s) (preos s) (attestations s) (delegations s)
    (envelopes s) (govern_envelopes s) (govern_nonces s) (govern_evidence s) (ataos s)
    (outbox s) (epochs s) (topologies s) (logs s) (clock s) (drawn s).
Definition set_aeos (x : list AeoRow) (s : world) : world :=
  mkWorld (sessions s) (continuities s) (authorities s) x (validations s) (invocations s)
    (executions s) (proofs s) (snapshots s) (preos s) (attestations s) (delegations s)
    (envelopes s) (govern_envelopes s) (govern_nonces s) (govern_evidence s) (ataos s)
    (outbox s) (epochs s) (topologies s) (logs s) (clock s) (drawn s).
Definition set_validations (x : list ValidationRow) (s : world) : world :=
  mkWorld (sessions s) (continuities s) (authorities s) (aeos s) x (invocations s)
    (executions s) (proofs s) (snapshots s) (preos s) (attestations s) (delegations s)
    (envelopes s) (govern_envelopes s) (govern_nonces s) (govern_evidence s) (ataos s)
    (outbox s) (epochs s) (topologies s) (logs s) (clock s) (drawn s).
Definition set_invocations (x : list InvocationRow) (s : world) : world :=
  mkWorld (sessions s) (continuities s) (authorities s) (aeos s) (validations s) x
    (executions s) (proofs s) (snapshots s) (preos s) (attestations s) (delegations s)
    (envelopes s) (govern_envelopes s) (govern_nonces s) (govern_evidence s) (ataos s)
    (outbox s) (epochs s) (topologies s) (logs s) (clock s) (drawn s).
Definition set_executions (x : list ExecutionRow) (s : world) : world :=
  mkWorld (sessions s) (continuities s) (authorities s) (aeos s) (validations s) (invocations s)
    x (proofs s) (snapshots s) (preos s) (attestations s) (delegations s) (envelopes s)
    (govern_envelopes s) (govern_nonces s) (govern_evidence s) (ataos s) (outbox s) (epochs s)
    (topologies s) (logs s) (clock s) (drawn s).
Definition set_proofs (x : list ProofRow) (s : world) : world :=
  mkWorld (sessions s) (continuities s) (authorities s) (aeos s) (validations s) (invocations s)
    (executions s) x (snapshots s) (preos s) (attestations s) (delegations s) (envelopes s)
    (govern_envelopes s) (govern_nonces s) (govern_evidence s) (ataos s) (outbox s) (epochs s)
    (topologies s) (logs s) (clock s) (drawn s).
Definition set_snapshots (x : list SnapshotRow) (s : world) : world :=
  mkWorld (sessions s) (continuities s) (authorities s) (aeos s) (validations s) (invocations s)
    (executions s) (proofs s) x (preos s) (attestations s) (delegations s) (envelopes s)
    (govern_envelopes s) (govern_nonces s) (govern_evidence s) (ataos s) (outbox s) (epochs s)
    (topologies s) (logs s) (clock s) (drawn s).
Definition set_preos (x : list PreoRow) (s : world) : world :=
  mkWorld (sessions s) (continuities s) (authorities s) (aeos s) (validations s) (invocations s)
    (executions s) (proofs s) (snapshots s) x (attestations s) (delegations s) (envelopes s)
    (govern_envelopes s) (govern_nonces s) (govern_evidence s) (ataos s) (outbox s) (epochs s)
    (topologies s) (logs s) (clock s) (drawn s).
Definition set_attestations (x : list AttestationRow) (s : world) : world :=
  mkWorld (sessions s) (continuities s) (authorities s) (aeos s) (validations s) (invocations s)
    (executions s) (proofs s) (snapshots s) (preos s) x (delegations s) (envelopes s)
    (govern_envelopes s) (govern_nonces s) (govern_evidence s) (ataos s) (outbox s) (epochs s)
    (topologies s) (logs s) (clock s) (drawn s).
Definition set_delegations (x : list DelegationRow) (s : world) : world :=
  mkWorld (sessions s) (continuities s) (authorities s) (aeos s) (validations s) (invocations s)
    (executions s) (proofs s) (snapshots s) (preos s) (attestations s) x (envelopes s)
    (govern_envelopes s) (govern_nonces s) (govern_evidence s) (ataos s) (outbox s) (epochs s)
    (topologies s) (logs s) (clock s) (drawn s).
Definition set_envelopes (x : list EnvelopeRow) (s : world) : world :=
  mkWorld (sessions s) (continuities s) (authorities s) (aeos s) (validations s) (invocations s)
    (executions s) (proofs s) (snapshots s) (preos s) (attestations s) (delegations s) x
    (govern_envelopes s) (govern_nonces s) (govern_evidence s) (ataos s) (outbox s) (epochs s)
    (topologies s) (logs s) (clock s) (drawn s).
Definition set_govern_envelopes (x : list GovernEnvelopeRow) (s : world) : world :=
  mkWorld (sessions s) (continuities s) (authorities s) (aeos s) (validations s) (invocations s)
    (executions s) (proofs s) (snapshots s) (preos s) (attestations s) (delegations s)
    (envelopes s) x (govern_nonces s) (govern_evidence s) (ataos s) (outbox s) (epochs s)
    (topologies s) (logs s) (clock s) (drawn s).
Definition set_govern_nonces (x : list GovernNonceRow) (s : world) : world :=
  mkWorld (sessions s) (continuities s) (authorities s) (aeos s) (validations s) (invocations s)
    (executions s) (proofs s) (snapshots s) (preos s) (attestations s) (delegations s)
    (envelopes s) (govern_envelopes s) x (govern_evidence s) (ataos s) (outbox s) (epochs s)
    (topologies s) (logs s) (clock s) (drawn s).
Definition set_govern_evidence (x : list GovernEvidenceRow) (s : world) : world :=
  mkWorld (sessions s) (continuities s) (authorities s) (aeos s) (validations s) (invocations s)
    (executions s) (proofs s) (snapshots s) (preos s) (attestations s) (delegations s)
    (envelopes s) (govern_envelopes s) (govern_nonces s) x (ataos s) (outbox s) (epochs s)
    (topologies s) (logs s) (clock s) (drawn s).
Definition set_ataos (x : list AtaoRow) (s : world) : world :=
  mkWorld (sessions s) (continuities s) (authorities s) (aeos s) (validations s) (invocations s)
    (executions s) (proofs s) (snapshots s) (preos s) (attestations s) (delegations s)
    (envelopes s) (govern_envelopes s) (govern_nonces s) (govern_evidence s) x (outbox s)
    (epochs s) (topologies s) (logs s) (clock s) (drawn s).
Definition set_outbox (x : list OutboxRow) (s : world) : world :=
  mkWorld (sessions s) (continuities s) (authorities s) (aeos s) (validations s) (invocations s)
    (executions s) (proofs s) (snapshots s) (preos s) (attestations s) (delegations s)
    (envelopes s) (govern_envelopes s) (govern_nonces s) (govern_evidence s) (ataos s) x
    (epochs s) (topologies s) (logs s) (clock s) (drawn s).
Definition set_logs (x : list log_row) (s : world) : world :=
  mkWorld (sessions s) (continuities s) (authorities s) (aeos s) (validations s) (invocations s)
    (executions s) (proofs s) (snapshots s) (preos s) (attestations s) (delegations s)
    (envelopes s) (govern_envelopes s) (govern_nonces s) (govern_evidence s) (ataos s)
    (outbox s) (epochs s) (topologies s) x (clock s) (drawn s).
Definition set_clock (x : Z) (s : world) : world :=
  mkWorld (sessions s) (continuities s) (authorities s) (aeos s) (validations s) (invocations s)
    (executions s) (proofs s) (snapshots s) (preos s) (attestations s) (delegations s)
    (envelopes s) (govern_envelopes s) (govern_nonces s) (govern_evidence s) (ataos s)
    (outbox s) (epochs s) (topologies s) (logs s) x (drawn s).
Definition set_drawn (x : nat) (s : world) : world :=
  mkWorld (sessions s) (continuities s) (authorities s) (aeos s) (validations s) (invocations s)
    (executions s) (proofs s) (snapshots s) (preos s) (attestations s) (delegations s)
    (envelopes s) (govern_envelopes s) (govern_nonces s) (govern_evidence s) (ataos s)
    (outbox s) (epochs s) (topologies s) (logs s) (clock s) x.

(** * Rows that change *)
Definition with_session_status (st : string) (r : SessionRow) : SessionRow :=
  mkSession (se_id r) (se_identity r) (se_owner r) (se_trust_tier r) st (se_created_at r)
    (se_expires_at r).

Definition with_continuity_status (st : string) (revoked : option string) (r : ContinuityRow) :
    ContinuityRow :=
  mkContinuity (co_id r) (co_identity r) (co_session r) (co_parent r) (co_hash r) (co_canonical r)
    st (co_issued_at r) (co_expires_at r) revoked.

Definition with_authority_status (st : string) (r : AuthorityRow) : AuthorityRow :=
  mkAuthority (au_id r) (au_decision r) (au_identity r) (au_session r) (au_continuity r)
    (au_owner r) (au_intent r) (au_scope r) (au_constraints r) (au_expiry r) st (au_created_at r)
    (au_delegated r) (au_parent r) (au_depth r) (au_scope_subset r) (au_delegation_expiry r)
    (au_lineage_hash r) (au_root_hash r) (au_replay_chain r) (au_envelope r).

Definition invalidated (reason : string) (r : ValidationRow) : ValidationRow :=
  mkValidation (va_id r) (va_session r) (va_continuity r) (va_decision r) (va_hash r) (va_nonce r)
    (va_environment r) "INVALID" (Some reason) "REVOKED" (va_created_at r) (va_delegated r)
    (va_replay_chain r) (va_parent_hash r) (va_workflow_hash r) (va_stage r) (va_origin_hash r).

Definition with_invocation_status (st : string) (r : InvocationRow) : InvocationRow :=
  mkInvocation (in_decision r) (in_hash r) (in_nonce r) (in_continuity r) st (in_created_at r).

Definition proven_snapshot (proof_id : string) (r : SnapshotRow) : SnapshotRow :=
  mkSnapshotRow (sp_id r) (sp_decision r) (sp_continuity r) (sp_authority r) (sp_snapshot r)
    (sp_hash r) (sp_nonce r) "PROVEN" (sp_execution r) (Some proof_id) (sp_created_at r).

Definition operative_envelope (r : EnvelopeRow) : EnvelopeRow :=
  mkEnvelope (el_id r) (el_candidate_hash r) (el_nonce_binding r) (el_policy_digest r)
    (el_topology_digest r) (el_lineage_pointers r) (el_timestamp r) "false" (el_descriptor r)
    (el_created_at r).
