(* ===== verification/WorkerSql.v ===== *)
(** The SQL statements of the worker's lifecycle routes, each under the name of
    what it does.

    A statement acts on the world and answers. [UPDATE t SET f WHERE p] is
    [update p f]; an insert that a key forbids changes nothing and answers
    [false], which the caller of a plain [INSERT] sees as an exception. Texts are
    compared byte by byte, as SQLite does. *)
From Stdlib Require Import ZArith NArith Lia Ascii.
From stdpp Require Import base list strings pretty.
From S2P Require Import Prelude JsValue WorkerValues WorkerTables.

Definition sql (X : Type) : Type := world → world * X.

(** Performing an operation is applying it. *)
Definition perform (X : Type) (e : sql X) (s : world) : world * X := e s.

Definition select {X} (f : world → X) : sql X := λ s, (s, f s).

Definition update {R} (p : R → bool) (f : R → R) (rows : list R) : list R :=
  map (λ r, if p r then f r else r) rows.

(** The row is appended unless one that is there clashes with it. *)
Definition append_unless {R} (clash : R → R → bool) (row : R) (rows : list R) : list R * bool :=
  if existsb (clash row) rows then (rows, false) else (rows ++ [row], true).

Definition sql_eqb (a b : string) : bool := String.eqb a b.
Definition sql_ltb (a b : string) : bool := String.ltb a b.

(** [(x IS NULL OR x = '')]. *)
Definition null_or_empty (x : option string) : bool :=
  match x with None => true | Some t => is_empty_str t end.

(** ** Clock and random identifiers *)
Definition now_ms : sql Z := select clock.

Definition draw `{!Platform} : sql string := λ s, (set_drawn (S (drawn s)) s, random_uuid (drawn s)).

(** Time passes. *)
Definition tick (ms : N) : sql unit := λ s, (set_clock (clock s + Z.of_N ms) s, tt).

Definition append_log (row : log_row) : sql unit := λ s, (set_logs (logs s ++ [row]) s, tt).

(** ** Sessions *)
Definition insert_session (row : SessionRow) : sql bool := λ s,
  let '(rows, ok) := append_unless (λ a b, sql_eqb (se_id a) (se_id b)) row (sessions s) in
  (set_sessions rows s, ok).

Definition find_session (id : string) (s : world) : option SessionRow :=
  List.find (λ r, sql_eqb (se_id r) id) (sessions s).

Definition select_session (id : string) : sql (option SessionRow) := select (find_session id).

Definition expire_session (id : string) : sql unit := λ s,
  (set_sessions (update (λ r, sql_eqb (se_id r) id && sql_eqb (se_status r) "ACTIVE")
     (with_session_status "EXPIRED") (sessions s)) s, tt).

(** ** Continuities *)
Definition insert_continuity (row : ContinuityRow) : sql bool := λ s,
  let '(rows, ok) := append_unless
    (λ a b, sql_eqb (co_id a) (co_id b) || sql_eqb (co_hash a) (co_hash b)) row (continuities s) in
  (set_continuities rows s, ok).

Definition find_continuity (id : string) (s : world) : option ContinuityRow :=
  List.find (λ r, sql_eqb (co_id r) id) (continuities s).

Definition select_continuity (id : string) : sql (option ContinuityRow) :=
  select (find_continuity id).

Definition live_at (now : string) (c : ContinuityRow) : bool :=
  sql_eqb (co_status c) "ACTIVE" && null_or_empty (co_revoked_at c)
  && sql_ltb now (co_expires_at c).

Definition live_child (now : string) (c child : ContinuityRow) : bool :=
  match co_parent child with Some p => sql_eqb p (co_id c) | None => false end
  && sql_eqb (co_session child) (co_session c) && sql_eqb (co_identity child) (co_identity c)
  && live_at now child.

(** [ORDER BY issued_at DESC, continuity_id DESC]. *)
Definition later_first (a b : ContinuityRow) : bool :=
  if String.eqb (co_issued_at a) (co_issued_at b) then String.leb (co_id b) (co_id a)
  else String.leb (co_issued_at b) (co_issued_at a).

Definition select_current_identity (session identity now : string) :
    sql (option (string * string)) :=
  select (λ s, head (map (λ c, (co_id c, co_identity c)) (sort_by later_first
    (List.filter (λ c, sql_eqb (co_session c) session && sql_eqb (co_identity c) identity
       && live_at now c && negb (existsb (live_child now c) (continuities s)))
       (continuities s))))).

(** The recursive query [lineage]: the row and, level by level, its children. *)
Definition children_of (level : list string) (s : world) : list string :=
  map co_id (List.filter (λ c, match co_parent c with
    | Some p => str_in p level | None => false end) (continuities s)).

Fixpoint lineage_levels (fuel : nat) (level : list string) (s : world) : list string :=
  match fuel with
  | O => []
  | S n => match level with [] => [] | _ => level ++ lineage_levels n (children_of level s) s end
  end.

Definition lineage_of (root : string) (s : world) : list string :=
  lineage_levels (S (length (continuities s)))
    (map co_id (List.filter (λ c, sql_eqb (co_id c) root) (continuities s))) s.

Definition revoked_when_null (now : string) (c : ContinuityRow) : option string :=
  match co_revoked_at c with Some t => Some t | None => Some now end.

Definition invalidate_continuities (root status now : string) : sql unit := λ s,
  let ids := lineage_of root s in
  (set_continuities (update
     (λ c, str_in (co_id c) ids && str_in (co_status c) ["ACTIVE"; "RESERVED"; "EXECUTED"; "CONSUMED"])
     (λ c, with_continuity_status status (revoked_when_null now c) c) (continuities s)) s, tt).

Definition revoke_session_continuities (session now : string) : sql unit := λ s,
  (set_continuities (update (λ c, sql_eqb (co_session c) session && sql_eqb (co_status c) "ACTIVE")
     (λ c, with_continuity_status "REVOKED" (revoked_when_null now c) c) (continuities s)) s, tt).

(** ** Authorities *)
Definition insert_authority (row : AuthorityRow) : sql bool := λ s,
  let '(rows, ok) := append_unless
    (λ a b, sql_eqb (au_id a) (au_id b) || sql_eqb (au_decision a) (au_decision b)) row
    (authorities s) in
  (set_authorities rows s, ok).

Definition find_authority (decision : string) (s : world) : option AuthorityRow :=
  List.find (λ r, sql_eqb (au_decision r) decision) (authorities s).

Definition select_authority (decision : string) : sql (option AuthorityRow) :=
  select (find_authority decision).

Definition select_authority_by_id (id : string) : sql (option AuthorityRow) :=
  select (λ s, List.find (λ r, sql_eqb (au_id r) id) (authorities s)).

Definition update_authorities (p : world → AuthorityRow → bool) (st : string) : sql unit := λ s,
  (set_authorities (update (p s) (with_authority_status st) (authorities s)) s, tt).

Definition revoke_lineage_authorities (root : string) : sql unit :=
  update_authorities (λ s a, str_in (au_continuity a) (lineage_of root s)
    && str_in (au_status a) ["ACTIVE"; "VALIDATED"; "RESERVED"; "EXECUTED"]) "REVOKED".

Definition revoke_session_authorities (session : string) : sql unit :=
  update_authorities (λ _ a, sql_eqb (au_session a) session
    && str_in (au_status a) ["ACTIVE"; "VALIDATED"; "RESERVED"]) "REVOKED".

Definition reserve_authority (decision : string) : sql unit :=
  update_authorities (λ _ a, sql_eqb (au_decision a) decision
    && str_in (au_status a) ["ACTIVE"; "VALIDATED"; "RESERVED"]) "RESERVED".

(** The update of [/execute] asks nothing of the status. *)
Definition mark_authority_executed (decision : string) : sql unit :=
  update_authorities (λ _ a, sql_eqb (au_decision a) decision) "EXECUTED".

Definition select_lineage_delegations (root : string) : sql (list (string * string)) :=
  select (λ s, map (λ a, (au_delegated a, au_lineage_hash a))
    (List.filter (λ a, str_in (au_continuity a) (lineage_of root s)
       && negb (is_empty_str (au_delegated a))) (authorities s))).

(** ** Compiled objects *)
Definition insert_aeo (row : AeoRow) : sql bool := λ s,
  let '(rows, ok) := append_unless (λ a b, sql_eqb (ao_id a) (ao_id b)) row (aeos s) in
  (set_aeos rows s, ok).

(** [ORDER BY created_at ASC, id ASC]. *)
Definition earlier_first {R} (created id : R → string) (a b : R) : bool :=
  if String.eqb (created a) (created b) then String.leb (id a) (id b)
  else String.leb (created a) (created b).

Definition select_aeos (decision : string) : sql (list AeoRow) :=
  select (λ s, sort_by (earlier_first ao_created_at ao_id)
    (List.filter (λ r, sql_eqb (ao_decision r) decision) (aeos s))).

Definition compiled_as (decision hash : string) (r : AeoRow) : bool :=
  sql_eqb (ao_decision r) decision && sql_eqb (ao_hash r) hash && sql_eqb (ao_status r) "COMPILED".

Definition select_compiled (decision hash : string) : sql (option AeoRow) :=
  select (λ s, List.find (compiled_as decision hash) (aeos s)).

Definition select_compiled_anywhere (hash : string) : sql (option AeoRow) :=
  select (λ s, List.find (λ r, sql_eqb (ao_hash r) hash && sql_eqb (ao_status r) "COMPILED") (aeos s)).

(** ** Validations *)
Definition insert_validation (row : ValidationRow) : sql bool := λ s,
  let '(rows, ok) := append_unless (λ a b, sql_eqb (va_id a) (va_id b)) row (validations s) in
  (set_validations rows s, ok).

Definition valid_for (decision hash nonce : string) (v : ValidationRow) : bool :=
  sql_eqb (va_decision v) decision && sql_eqb (va_hash v) hash && sql_eqb (va_nonce v) nonce
  && sql_eqb (va_status v) "VALID" && sql_eqb (va_result v) "VALID".

Definition select_validation (decision hash nonce : string) : sql (option ValidationRow) :=
  select (λ s, List.find (valid_for decision hash nonce) (validations s)).

Definition invalidate_validations (p : world → ValidationRow → bool) (reason : string) : sql unit :=
  λ s, (set_validations (update (λ v, p s v && sql_eqb (va_status v) "VALID") (invalidated reason)
          (validations s)) s, tt).

(** ** Invocations *)
Definition same_invocation (decision hash nonce : string) (i : InvocationRow) : bool :=
  sql_eqb (in_decision i) decision && sql_eqb (in_hash i) hash && sql_eqb (in_nonce i) nonce.

Definition insert_invocation (row : InvocationRow) : sql bool := λ s,
  let '(rows, ok) := append_unless
    (λ a, same_invocation (in_decision a) (in_hash a) (in_nonce a)) row (invocations s) in
  (set_invocations rows s, ok).

Definition select_invocation (decision hash nonce : string) : sql (option InvocationRow) :=
  select (λ s, List.find (same_invocation decision hash nonce) (invocations s)).

Definition select_nonce_anywhere (nonce : string) : sql bool :=
  select (λ s, existsb (λ i, sql_eqb (in_nonce i) nonce) (invocations s)).

Definition revoke_invocations (p : world → InvocationRow → bool) : sql unit := λ s,
  (set_invocations (update (λ i, p s i && sql_eqb (in_status i) "RESERVED")
     (with_invocation_status "REVOKED") (invocations s)) s, tt).

(** [continuity_id IN (SELECT continuity_id FROM continuity_registry WHERE session_id=?1)]. *)
Definition of_session (session : string) (s : world) (i : InvocationRow) : bool :=
  str_in (in_continuity i)
    (map co_id (List.filter (λ c, sql_eqb (co_session c) session) (continuities s))).

Definition mark_invocation_executed (decision hash nonce : string) : sql unit := λ s,
  (set_invocations (update (same_invocation decision hash nonce)
     (with_invocation_status "EXECUTED") (invocations s)) s, tt).

(** ** Executions *)
Definition same_run (a b : ExecutionRow) : bool :=
  sql_eqb (ex_id a) (ex_id b)
  || sql_eqb (ex_decision a) (ex_decision b) && sql_eqb (ex_hash a) (ex_hash b)
  || sql_eqb (pv_workflow_run_id (ex_provenance a)) (pv_workflow_run_id (ex_provenance b)).

(** The four [EXISTS] of the insert: its revocation closure barrier. *)
Definition may_execute (now : string) (row : ExecutionRow) (s : world) : bool :=
  existsb (λ c, sql_eqb (co_id c) (ex_continuity row) && sql_eqb (co_status c) "ACTIVE"
    && match co_revoked_at c with None => true | Some _ => false end
    && sql_ltb now (co_expires_at c)) (continuities s)
  && existsb (λ a, sql_eqb (au_decision a) (ex_decision row)
    && sql_eqb (au_session a) (ex_session row) && sql_eqb (au_continuity a) (ex_continuity row)
    && str_in (au_status a) ["RESERVED"; "VALIDATED"]) (authorities s)
  && existsb (λ v, valid_for (ex_decision row) (ex_hash row) (ex_nonce row) v
    && sql_eqb (va_session v) (ex_session row) && sql_eqb (va_continuity v) (ex_continuity row))
    (validations s)
  && existsb (λ i, same_invocation (ex_decision row) (ex_hash row) (ex_nonce row) i
    && sql_eqb (in_continuity i) (ex_continuity row) && sql_eqb (in_status i) "RESERVED")
    (invocations s).

(** The number of changes; [None] is a violated constraint. *)
Definition insert_execution (row : ExecutionRow) : sql (option nat) := λ s,
  if may_execute (ex_created_at row) row s then
    let '(rows, ok) := append_unless same_run row (executions s) in
    (set_executions rows s, if ok then Some 1 else None)
  else (s, Some 0).

Definition select_execution_of (decision hash : string) : sql (option ExecutionRow) :=
  select (λ s, List.find (λ r, sql_eqb (ex_decision r) decision && sql_eqb (ex_hash r) hash)
    (executions s)).

Definition select_execution_by_id (id : string) : sql (option ExecutionRow) :=
  select (λ s, List.find (λ r, sql_eqb (ex_id r) id) (executions s)).

Definition select_delegated_execution (delegated replay_chain : string) : sql bool :=
  select (λ s, existsb (λ r, sql_eqb (ex_delegated r) delegated
    || sql_eqb (ex_replay_chain r) replay_chain) (executions s)).

(** ** Execution snapshots *)
Definition insert_snapshot (row : SnapshotRow) : sql unit := λ s,
  (set_snapshots (append_unless (λ a b, sql_eqb (sp_id a) (sp_id b)
     || sql_eqb (sp_decision a) (sp_decision b) && sql_eqb (sp_hash a) (sp_hash b)
        && sql_eqb (sp_nonce a) (sp_nonce b)
     || sql_eqb (sp_execution a) (sp_execution b)) row (snapshots s)).1 s, tt).

(** [ORDER BY created_at DESC LIMIT 1]; the triple is a key, so at most one row fits. *)
Definition select_executed_snapshot (execution decision hash nonce : string) :
    sql (option SnapshotRow) :=
  select (λ s, List.find (λ r, sql_eqb (sp_execution r) execution
    && sql_eqb (sp_decision r) decision && sql_eqb (sp_hash r) hash
    && sql_eqb (sp_nonce r) nonce && sql_eqb (sp_status r) "EXECUTED") (snapshots s)).

Definition mark_snapshot_proven (execution proof : string) : sql unit := λ s,
  (set_snapshots (update (λ r, sql_eqb (sp_execution r) execution
     && sql_eqb (sp_status r) "EXECUTED") (proven_snapshot proof) (snapshots s)) s, tt).

(** ** Proofs *)
Definition select_first_proof (decision hash : string) : sql (option ProofRow) :=
  select (λ s, head (sort_by (earlier_first pf_created_at pf_id)
    (List.filter (λ p, sql_eqb (pf_decision p) decision && sql_eqb (pf_hash p) hash) (proofs s)))).

Definition join_nonce (execution nonce : string) (s : world) : bool :=
  existsb (λ e, sql_eqb (ex_id e) execution && sql_eqb (ex_nonce e) nonce) (executions s).

(** [... LIMIT 3]. *)
Definition select_existing_proofs (decision_hash execution decision hash nonce : string) :
    sql (list ProofRow) :=
  select (λ s, take 3 (sort_by (earlier_first pf_created_at pf_id)
    (List.filter (λ p, sql_eqb (pf_decision_hash p) decision_hash
       && sql_eqb (pf_execution p) execution && sql_eqb (pf_decision p) decision
       && sql_eqb (pf_hash p) hash && join_nonce (pf_execution p) nonce s) (proofs s)))).

(** The four reads of one batch. *)
Record proof_reads := mkReads {
  rd_execution : option ExecutionRow;
  rd_session : option SessionRow;
  rd_authority : option AuthorityRow;
  rd_validation : option ValidationRow
}.

(** [ORDER BY created_at DESC LIMIT 1]. *)
Definition latest_validation (l : list ValidationRow) : option ValidationRow :=
  head (sort_by (λ a b, String.leb (va_created_at b) (va_created_at a)) l).

Definition select_proof_reads (execution decision hash nonce session now : string) :
    sql proof_reads :=
  select (λ s, mkReads
    (List.find (λ e, sql_eqb (ex_id e) execution && sql_eqb (ex_decision e) decision
       && sql_eqb (ex_hash e) hash && sql_eqb (ex_nonce e) nonce
       && sql_eqb (ex_status e) "EXECUTED") (executions s))
    (List.find (λ r, sql_eqb (se_id r) session && sql_eqb (se_status r) "ACTIVE"
       && sql_ltb now (se_expires_at r)) (sessions s))
    (find_authority decision s)
    (latest_validation (List.filter (λ v, valid_for decision hash nonce v
       && sql_eqb (va_session v) session) (validations s)))).

(** The parameters of the transaction that ends [/proof]. *)
Record proof_commit := mkCommit {
  pc_proof : string;
  pc_session : string;
  pc_execution : string;
  pc_decision : string;
  pc_hash : string;
  pc_nonce : string;
  pc_continuity : string;
  pc_decision_hash : string;
  pc_authority_lineage : string;
  pc_execution_lineage : string;
  pc_surface : string;
  pc_workflow : string;
  pc_environment : string;
  pc_now : string;
  pc_provenance : DeploymentProvenance;
  pc_workflow_integrity : string;
  pc_parent_hash : string;
  pc_origin_hash : string;
  pc_outbox : string;
  pc_outbox_payload : string;
  pc_attestation : option AttestationRow
}.

(** [decision_id || char(31) || validated_object_hash]. *)
Definition unit_separator : string := String (ascii_of_N 31) EmptyString.

Definition proof_decision_hash (decision hash : string) : string :=
  decision +:+ unit_separator +:+ hash.

(** The rows the insert selects from: the authority, its session, its continuity. *)
Definition proof_source (pc : proof_commit) (s : world) :
    option (AuthorityRow * SessionRow * ContinuityRow) :=
  match List.find (λ a, sql_eqb (au_decision a) (pc_decision pc)
          && sql_eqb (au_session a) (pc_session pc) && sql_eqb (au_status a) "EXECUTED"
          && sql_eqb (au_continuity a) (pc_continuity pc)) (authorities s) with
  | None => None
  | Some a =>
      match List.find (λ r, sql_eqb (se_id r) (au_session a) && sql_eqb (se_status r) "ACTIVE"
              && sql_ltb (pc_now pc) (se_expires_at r)) (sessions s),
            List.find (λ c, sql_eqb (co_id c) (au_continuity a) && sql_eqb (co_status c) "ACTIVE"
              && sql_ltb (pc_now pc) (co_expires_at c)) (continuities s) with
      | Some r, Some c =>
          if existsb (λ e, sql_eqb (ex_id e) (pc_execution pc)
               && sql_eqb (ex_decision e) (pc_decision pc) && sql_eqb (ex_hash e) (pc_hash pc)
               && sql_eqb (ex_nonce e) (pc_nonce pc) && sql_eqb (ex_session e) (pc_session pc)
               && sql_eqb (ex_continuity e) (au_continuity a)
               && sql_eqb (ex_status e) "EXECUTED") (executions s)
             && existsb (λ v, valid_for (pc_decision pc) (pc_hash pc) (pc_nonce pc) v
               && sql_eqb (va_session v) (pc_session pc)
               && sql_eqb (va_continuity v) (au_continuity a)) (validations s)
          then Some (a, r, c) else None
      | _, _ => None
      end
  end.

Definition proof_row (pc : proof_commit) (a : AuthorityRow) (r : SessionRow) (c : ContinuityRow) :
    ProofRow :=
  mkProof (pc_proof pc) (se_identity r) (pc_session pc) (au_continuity a) (co_hash c)
    (pc_execution pc) (pc_decision pc) (pc_hash pc) (pc_decision_hash pc)
    (pc_authority_lineage pc) (pc_execution_lineage pc) (pc_surface pc)
    (pv_workflow_run_id (pc_provenance pc)) (pv_workflow_sha (pc_provenance pc))
    (pc_workflow pc) (pc_environment pc) (pc_now pc) (pc_provenance pc)
    (pc_workflow_integrity pc) (au_delegated a) (au_replay_chain a) (au_lineage_hash a)
    (au_root_hash a) (pc_parent_hash pc) "proof" (pc_origin_hash pc).

Definition same_proof (a b : ProofRow) : bool :=
  sql_eqb (pf_id a) (pf_id b)
  || sql_eqb (pf_decision a) (pf_decision b) && sql_eqb (pf_hash a) (pf_hash b)
  || sql_eqb (pv_workflow_run_id (pf_provenance a)) (pv_workflow_run_id (pf_provenance b))
  || sql_eqb (pf_decision_hash a) (pf_decision_hash b).

(** The rows of [proof_registry p JOIN execution_registry e] for the new proof. *)
Definition proof_is_joined (pc : proof_commit) (s : world) : bool :=
  existsb (λ p, sql_eqb (pf_id p) (pc_proof pc) && sql_eqb (pf_decision p) (pc_decision pc)
    && sql_eqb (pf_hash p) (pc_hash pc) && join_nonce (pf_execution p) (pc_nonce pc) s) (proofs s).

Definition consumable (pc : proof_commit) (s : world) (a : AuthorityRow) : bool :=
  sql_eqb (au_decision a) (pc_decision pc) && sql_eqb (au_session a) (pc_session pc)
  && sql_eqb (au_status a) "EXECUTED" && sql_eqb (au_continuity a) (pc_continuity pc)
  && proof_is_joined pc s.

Definition outbox_row (pc : proof_commit) : OutboxRow :=
  mkOutbox (pc_outbox pc) (pc_proof pc) (pc_decision pc) (pc_execution pc) (pc_hash pc)
    "LEGITIMACY_PROOF_PERSISTED" (pc_outbox_payload pc) "PENDING" (pc_now pc).

Definition same_attestation (a b : AttestationRow) : bool :=
  sql_eqb (at_id a) (at_id b) || sql_eqb (at_envelope_hash a) (at_envelope_hash b)
  || sql_eqb (at_workflow_run a) (at_workflow_run b)
  || sql_eqb (at_decision a) (at_decision b) && sql_eqb (at_hash a) (at_hash b).

(** The first three statements: proof inserted, authority consumed, outbox queued. *)
Definition proof_statements (pc : proof_commit) (s : world) : world * (nat * nat * nat) :=
  let '(s1, inserted) :=
    match proof_source pc s with
    | None => (s, 0)
    | Some (a, r, c) =>
        let '(rows, ok) := append_unless same_proof (proof_row pc a r c) (proofs s) in
        (set_proofs rows s, if ok then 1 else 0)
    end in
  let consumed := length (List.filter (consumable pc s1) (authorities s1)) in
  let s2 := set_authorities (update (consumable pc s1) (with_authority_status "CONSUMED")
              (authorities s1)) s1 in
  let '(s3, queued) :=
    if existsb (λ p, sql_eqb (pf_execution p) (pc_execution pc) && sql_eqb (pf_id p) (pc_proof pc)
         && sql_eqb (pf_decision p) (pc_decision pc) && sql_eqb (pf_hash p) (pc_hash pc)
         && join_nonce (pf_execution p) (pc_nonce pc) s2) (proofs s2) then
      let '(rows, ok) := append_unless (λ a b, sql_eqb (ob_id a) (ob_id b)
            || sql_eqb (ob_proof a) (ob_proof b)) (outbox_row pc) (outbox s2) in
      (set_outbox rows s2, if ok then 1 else 0)
    else (s2, 0) in
  (s3, (inserted, consumed, queued)).

(** The batch is one transaction: an exception undoes it. The trigger on the
    decision hash and the plain insert of the attestation can raise one. *)
Definition commit_proof (pc : proof_commit) : sql (option (nat * nat * nat)) := λ s,
  if match proof_source pc s with Some _ => true | None => false end
     && negb (sql_eqb (pc_decision_hash pc) (proof_decision_hash (pc_decision pc) (pc_hash pc)))
  then (s, None)
  else
    let '(s3, counts) := proof_statements pc s in
    match pc_attestation pc with
    | None => (s3, Some counts)
    | Some row =>
        let '(rows, ok) := append_unless same_attestation row (attestations s3) in
        if ok then (set_attestations rows s3, Some counts) else (s, None)
    end.

(** ** Attestations *)
Definition select_attestation_replay (envelope_hash workflow_run decision hash : string) : sql bool :=
  select (λ s, existsb (λ a, sql_eqb (at_envelope_hash a) envelope_hash
    || sql_eqb (at_workflow_run a) workflow_run
    || sql_eqb (at_decision a) decision && sql_eqb (at_hash a) hash) (attestations s)).

(** ** Reviewed objects *)
Definition insert_preo (row : PreoRow) : sql bool := λ s,
  let '(rows, ok) := append_unless (λ a b, sql_eqb (po_id a) (po_id b)
     || sql_eqb (po_decision a) (po_decision b)
        && sql_eqb (po_reviewed_hash a) (po_reviewed_hash b)) row (preos s) in
  (set_preos rows s, ok).

Definition select_preos (decision : string) : sql (list PreoRow) :=
  select (λ s, sort_by (earlier_first po_created_at po_id)
    (List.filter (λ p, sql_eqb (po_decision p) decision && sql_eqb (po_status p) "PREO_VALID")
       (preos s))).

(** ** Delegations *)
Definition insert_delegation (row : DelegationRow) : sql bool := λ s,
  let '(rows, ok) := append_unless (λ a b, sql_eqb (dl_id a) (dl_id b)
     || sql_eqb (dl_exact_hash a) (dl_exact_hash b)) row (delegations s) in
  (set_delegations rows s, ok).

(** [ORDER BY created_at ASC LIMIT 1]. *)
Definition select_delegation (delegated : string) : sql (option DelegationRow) :=
  select (λ s, head (sort_by (λ a b, String.leb (dl_created_at a) (dl_created_at b))
    (List.filter (λ d, sql_eqb (dl_delegated d) delegated
       && sql_eqb (dl_object_type d) "DelegatedAuthorityObject") (delegations s)))).

Definition select_delegation_revoked (delegated : string) : sql bool :=
  select (λ s, existsb (λ d, sql_eqb (dl_delegated d) delegated
    && sql_eqb (dl_object_type d) "DelegatedRevocationProjection"
    && str_in (dl_projection_status d) ["REVOKED"; "EXPIRED"]) (delegations s)).

(** ** Governed envelopes *)
Definition insert_envelope (row : EnvelopeRow) : sql bool := λ s,
  let '(rows, ok) := append_unless (λ a b, sql_eqb (el_id a) (el_id b)
     || sql_eqb (el_nonce_binding a) (el_nonce_binding b)) row (envelopes s) in
  (set_envelopes rows s, ok).

Definition select_envelope (id : string) : sql (option EnvelopeRow) :=
  select (λ s, List.find (λ r, sql_eqb (el_id r) id) (envelopes s)).

Definition mark_envelope_operative (id : string) : sql unit := λ s,
  (set_envelopes (update (λ r, sql_eqb (el_id r) id) operative_envelope (envelopes s)) s, tt).

Definition insert_govern_envelope (row : GovernEnvelopeRow) : sql bool := λ s,
  let '(rows, ok) := append_unless (λ a b, sql_eqb (ge_id a) (ge_id b)) row (govern_envelopes s) in
  (set_govern_envelopes rows s, ok).

(** [ORDER BY created_at DESC LIMIT 2]. *)
Definition select_govern_envelopes (p : GovernEnvelopeRow → bool) : sql (list GovernEnvelopeRow) :=
  select (λ s, take 2 (sort_by (λ a b, String.leb (ge_created_at b) (ge_created_at a))
    (List.filter p (govern_envelopes s)))).

Definition same_nonce (a b : GovernNonceRow) : bool :=
  sql_eqb (gn_nonce a) (gn_nonce b) && sql_eqb (gn_domain a) (gn_domain b).

Definition select_govern_nonce (nonce domain : string) : sql (option GovernNonceRow) :=
  select (λ s, List.find (λ r, sql_eqb (gn_nonce r) nonce && sql_eqb (gn_domain r) domain)
    (govern_nonces s)).

Definition insert_govern_nonce (row : GovernNonceRow) : sql bool := λ s,
  let '(rows, ok) := append_unless same_nonce row (govern_nonces s) in
  (set_govern_nonces rows s, ok).

Definition insert_govern_evidence (row : GovernEvidenceRow) : sql bool := λ s,
  let '(rows, ok) := append_unless (λ a b, sql_eqb (gv_id a) (gv_id b)) row (govern_evidence s) in
  (set_govern_evidence rows s, ok).

Definition insert_atao (row : AtaoRow) : sql bool := λ s,
  let '(rows, ok) := append_unless (λ a b, sql_eqb (ta_id a) (ta_id b)
     || sql_eqb (ta_hash a) (ta_hash b)
     || sql_eqb (ta_candidate_hash a) (ta_candidate_hash b) && sql_eqb (ta_nonce a) (ta_nonce b)
        && sql_eqb (ta_nonce_domain a) (ta_nonce_domain b)) row (ataos s) in
  (set_ataos rows s, ok).

(** ** Epochs and topology: read, never written by the lifecycle routes *)

(** [ORDER BY created_at DESC, epoch_id DESC LIMIT 2], of which the first is used. *)
Definition select_head_epoch (scope : string) : sql (option EpochRow) :=
  select (λ s, head (sort_by (λ a b, earlier_first ep_created_at ep_id b a)
    (List.filter (λ e, sql_eqb (ep_scope e) scope) (epochs s)))).

Definition select_topology : sql (option TopologyRow) :=
  select (λ s, head (sort_by (λ a b, earlier_first tp_created_at tp_snapshot_id b a)
    (List.filter (λ t, sql_eqb (tp_evidence_only t) "true" && sql_eqb (tp_replay_neutral t) "true"
       && sql_eqb (tp_executable t) "false" && sql_eqb (tp_deployment_capable t) "false"
       && sql_eqb (tp_creates_authority t) "false") (topologies s)))).
