(* ===== verification/WorkerLineage.v ===== *)
(** Sessions and continuities of the worker: the helpers of [src/index.ts] that
    decide whether a lineage is alive, and the cascades that end one.

    A handler is a program of statements that can answer early ([Answer], the
    [return] of a response) or throw. *)
From Stdlib Require Import ZArith NArith Lia Ascii.
From stdpp Require Import base list strings pretty.
From S2P Require Import Prelude JsValue Sha256 Canonical Effects WorkerValues WorkerTables WorkerSql.

(** * Handlers *)
Record response := mkResponse { rs_status : Z; rs_body : jsval }.

Inductive flow (A : Type) :=
  | Go (a : A)
  | Answer (r : response)
  | Throws.
Arguments Go {A} a.
Arguments Answer {A} r.
Arguments Throws {A}.

Definition eff (A : Type) : Type := prog sql (flow A).

Definition ret {A} (a : A) : eff A := Ret (Go a).
Definition throw {A} : eff A := Ret Throws.
Definition answer {A} (r : response) : eff A := Ret (Answer r).

Definition ebind {A B} (m : eff A) (f : A → eff B) : eff B :=
  bind m (λ o, match o with Go a => f a | Answer r => Ret (Answer r) | Throws => Ret Throws end).

Definition exec {X} (e : sql X) : eff X := Await e (λ x, Ret (Go x)).

(** [try { m } catch { h }]. *)
Definition attempt {A} (m h : eff A) : eff A :=
  bind m (λ o, match o with Throws => h | _ => Ret o end).

Declare Scope eff_scope.
Delimit Scope eff_scope with eff.
Notation "'let!' x := m 'in' f" := (ebind m (λ x, f))
  (at level 10, x pattern, m at level 100, f at level 200) : eff_scope.
Local Open Scope eff_scope.

(** A plain insert throws on a constraint. *)
Definition insert (e : sql bool) : eff unit :=
  let! ok := exec e in if ok : bool then ret tt else throw.

(** Reading a property of [null] or [undefined]. *)
Definition need_object (v : jsval) : eff unit := if nullish v then throw else ret tt.

Definition json (fields : list (string * jsval)) : response := mkResponse 200 (JObj fields).

Definition non_empty (s : string) : option string := if is_empty_str s then None else Some s.

Section Worker.
Context `{!Platform}.

(** [new Date().toISOString()]. *)
Definition now_iso : eff string := let! t := exec now_ms in ret (to_iso t).

Definition randomUUID : eff string := exec draw.

(** * Telemetry *)
Record trace := mkTrace {
  tr_event : string;
  tr_decision : string;
  tr_authority : string;
  tr_execution : string;
  tr_proof : string;
  tr_severity : string;
  tr_drift : string
}.

Definition emitTelemetry (event decision authority execution proof severity : string) : eff unit :=
  let! created_at := now_iso in
  exec (append_log (ObservabilityRow event (non_empty decision) (non_empty authority)
    (non_empty execution) (non_empty proof) severity created_at)).

Definition emitInstallBaseTelemetryEvidence (event decision authority execution proof
    origin_hash origin_match : string) : eff unit :=
  let! created_at := now_iso in
  exec (append_log (InstallBaseRow event (non_empty decision) (non_empty authority)
    (non_empty execution) (non_empty proof) (non_empty origin_hash) origin_match created_at)).

Definition recordDrift (drift_class severity decision execution : string) : eff unit :=
  let! created_at := now_iso in
  exec (append_log (DriftRow drift_class severity (non_empty decision) (non_empty execution)
    created_at)).

Definition rejectWithTelemetry {A} (fields : list (string * jsval)) (reason : string) (t : trace) :
    eff A :=
  let! _ := emitTelemetry (tr_event t) (tr_decision t) (tr_authority t) (tr_execution t)
    (tr_proof t) (tr_severity t) in
  let! _ := emitInstallBaseTelemetryEvidence
    (installBaseTelemetryTypeFromRejection reason (tr_event t)) (tr_decision t) (tr_authority t)
    (tr_execution t) (tr_proof t) EmptyString "UNKNOWN" in
  let! _ := recordDrift (tr_drift t) (tr_severity t) (tr_decision t) (tr_execution t) in
  answer (json fields).

(** * Cascades *)
Definition projection_js (delegated lineage_hash status reason : string) : jsval :=
  JObj [("object_type", JStr "DelegatedRevocationProjection");
    ("delegated_authority_id", JStr delegated); ("delegation_lineage_hash", JStr lineage_hash);
    ("projection_status", JStr status); ("revocation_reason", JStr reason);
    ("evidence_only", JBool true); ("replay_neutral", JBool true)].

Definition appendDelegatedRevocationProjection (delegated lineage_hash status reason
    created_at : string) : eff unit :=
  let projection := projection_js delegated lineage_hash status reason in
  let! registry_id := randomUUID in
  let! _ := exec (insert_delegation (mkDelegation registry_id "DelegatedRevocationProjection"
    delegated EmptyString None None None "0" "{}" EmptyString lineage_hash EmptyString EmptyString
    (canonicalize projection) (hashCanonical projection) status (Some reason) created_at)) in
  ret tt.

Fixpoint append_projections (rows : list (string * string)) (status reason at_time : string) :
    eff unit :=
  match rows with
  | [] => ret tt
  | (delegated, lineage_hash) :: rows' =>
      let! _ := appendDelegatedRevocationProjection delegated lineage_hash status reason at_time in
      append_projections rows' status reason at_time
  end.

Definition invalidateContinuityLineage (continuity_id status reason invalidated_at : string) :
    eff unit :=
  if is_empty_str continuity_id then ret tt
  else
    let! _ := exec (invalidate_continuities continuity_id status invalidated_at) in
    let! _ := exec (revoke_lineage_authorities continuity_id) in
    let! _ := exec (invalidate_validations
      (λ s v, str_in (va_continuity v) (lineage_of continuity_id s)) reason) in
    let! _ := exec (revoke_invocations
      (λ s i, str_in (in_continuity i) (lineage_of continuity_id s))) in
    let! rows := exec (select_lineage_delegations continuity_id) in
    append_projections rows status reason invalidated_at.

Definition cascadeRevocation (continuity_id : string) : eff unit :=
  let! revoked_at := now_iso in
  invalidateContinuityLineage continuity_id "REVOKED" "continuity_revoked" revoked_at.

Definition cascadeExpiration (continuity_id expired_at : string) : eff unit :=
  invalidateContinuityLineage continuity_id "EXPIRED" "continuity_expired" expired_at.

Definition cascadeSessionRevocation (session_id : string) : eff unit :=
  let! now := now_iso in
  let! _ := exec (revoke_session_continuities session_id now) in
  let! _ := exec (revoke_session_authorities session_id) in
  let! _ := exec (invalidate_validations (λ _ v, sql_eqb (va_session v) session_id)
    "session_revoked") in
  exec (revoke_invocations (of_session session_id)).

(** * Live sessions and lineages *)
Definition activeSession (session_id : string) : eff (option SessionRow) :=
  if is_empty_str session_id then ret None
  else
    let! found := exec (select_session session_id) in
    match found with
    | None => ret None
    | Some session =>
        if negb (String.eqb (se_status session) "ACTIVE") then ret None
        else
          let! now := exec now_ms in
          if isExpired (se_expires_at session) now then
            let! _ := exec (expire_session session_id) in
            let! _ := cascadeSessionRevocation session_id in
            ret None
          else ret (Some session)
    end.

(** A row of the ancestry with its parsed text. *)
Definition ancestor : Type := ContinuityRow * jsval.

Definition row_parent (c : ContinuityRow) : string := default EmptyString (co_parent c).

Definition canonical_parent (canonical : jsval) : string :=
  if truthy (get canonical "parent_continuity_id")
  then to_string (get canonical "parent_continuity_id") else EmptyString.

(** [canonical.authority_chain.map(String).includes(decision_id)]. *)
Definition chain_includes (decision_id : string) (canonical : jsval) : bool :=
  is_array (get canonical "authority_chain")
  && str_in decision_id (strings_of (get canonical "authority_chain")).

Definition end_lineage {A} (cascade : eff unit) : eff (option A) :=
  let! _ := cascade in ret None.

Section Resolve.
Context (continuity_id decision_id : string) (session : SessionRow) (now : string).

(** Lines 3391-3421: the row named [current], alive with its session. *)
Definition live_row (current : string) : eff (option ContinuityRow) :=
  let! found := exec (select_continuity current) in
  match found with
  | None => end_lineage (cascadeRevocation continuity_id)
  | Some row =>
      if negb (String.eqb (co_status row) "ACTIVE")
      then end_lineage (cascadeRevocation current)
      else
        let! owner := exec (select_session (co_session row)) in
        match owner with
        | None => end_lineage (cascadeRevocation current)
        | Some owner =>
            let! t := exec now_ms in
            if negb (String.eqb (se_status owner) "ACTIVE") || isExpired (se_expires_at owner) t
            then end_lineage (cascadeExpiration current now)
            else
              let! t' := exec now_ms in
              if isExpired (co_expires_at row) t'
              then end_lineage (cascadeExpiration current now)
              else if negb (String.eqb (co_session row) (se_id session)) then ret None
              else if negb (String.eqb (co_identity row) (se_identity session)) then ret None
              else ret (Some row)
        end
  end.

(** Lines 3423-3436: its stored text, when it is what the row claims. *)
Definition authentic_text (current : string) (row : ContinuityRow) : eff (option jsval) :=
  match json_parse (if is_empty_str (co_canonical row) then "{}" else co_canonical row) with
  | None => ret None
  | Some canonical =>
      let actualHash := continuityHash canonical in
      if negb (String.eqb actualHash (co_hash row)) then ret None
      else if nullish canonical then throw
      else if negb (String.eqb actualHash (text (get canonical "continuity_hash"))) then ret None
      else if negb (String.eqb (text (get canonical "continuity_id")) (co_id row)) then ret None
      else if negb (String.eqb (canonical_parent canonical) (row_parent row)) then ret None
      else if String.eqb (canonical_parent canonical) current
      then end_lineage (cascadeRevocation continuity_id)
      else ret (Some canonical)
  end.

(** The loop. [requested] is the first row, once read. *)
Fixpoint climb (fuel : nat) (visited : list string) (ancestry : list ancestor)
    (requested : option ancestor) (current : string) :
    eff (option (ancestor * list ancestor)) :=
  match fuel with
  | O => ret None
  | S n =>
      if is_empty_str current then
        ret (match last ancestry, requested with
             | Some root, Some r => if is_empty_str (row_parent root.1) then Some (r, ancestry) else None
             | _, _ => None
             end)
      else if str_in current visited then end_lineage (cascadeRevocation continuity_id)
      else
        let! live := live_row current in
        match live with
        | None => ret None
        | Some row =>
            let! text := authentic_text current row in
            match text with
            | None => ret None
            | Some canonical =>
                let here := String.eqb current continuity_id in
                if here && negb (is_empty_str decision_id) && negb (chain_includes decision_id canonical)
                then ret None
                else
                  let requested := if here then Some (row, canonical) else requested in
                  let ancestry := ancestry ++ [(row, canonical)] in
                  if Nat.ltb SYSTEM_MAX_CONTINUITY_DEPTH (length ancestry)
                  then end_lineage (cascadeRevocation continuity_id)
                  else if match requested with
                          | Some r => exceeds_configured r.2 (length ancestry)
                          | None => false
                          end
                  then end_lineage (cascadeRevocation continuity_id)
                  else climb n (current :: visited) ancestry requested (canonical_parent canonical)
            end
        end
  end.
End Resolve.

(** The 33rd row ends the loop, so 34 rounds are always enough. An absent
    [decision_id] is the empty text. *)
Definition resolveContinuityLineage (continuity_id : string) (session : SessionRow)
    (decision_id : string) : eff (option (ancestor * list ancestor)) :=
  if is_empty_str continuity_id then ret None
  else
    let! now := now_iso in
    climb continuity_id decision_id session now (SYSTEM_MAX_CONTINUITY_DEPTH + 2) [] [] None
      continuity_id.

Definition activeContinuity (continuity_id : string) (session : SessionRow) (decision_id : string) :
    eff (option (ancestor * list ancestor)) :=
  resolveContinuityLineage continuity_id session decision_id.

Definition continuityIsRevokedOrAmbiguous (continuity_id : string) : eff bool :=
  if is_empty_str continuity_id then ret true
  else
    let! found := exec (select_continuity continuity_id) in
    match found with
    | None => ret true
    | Some row =>
        let! owner := exec (select_session (co_session row)) in
        match owner with
        | None => ret true
        | Some session =>
            if negb (String.eqb (se_identity session) (co_identity row))
               || negb (String.eqb (se_status session) "ACTIVE") then ret true
            else
              let! t := exec now_ms in
              if isExpired (se_expires_at session) t then ret true
              else
                let! lineage := resolveContinuityLineage continuity_id session EmptyString in
                ret (match lineage with None => true | Some _ => false end)
        end
    end.

(** [(continuity_id, identity_id)] of the session's current continuity. *)
Definition resolveCurrentContinuityIdentity (session : SessionRow) :
    eff (option (string * string)) :=
  if is_empty_str (se_id session) || is_empty_str (se_identity session) then ret None
  else
    let! now := now_iso in
    exec (select_current_identity (se_id session) (se_identity session) now).
End Worker.
