(* ===== verification/WorkerEvidence.v ===== *)
(** Evidence a worker request must bring: topology epochs
    ([src/lib/topology-epoch.ts]), governed envelopes, delegated authority,
    reviewed objects, deployment provenance and its DSSE attestation
    ([src/index.ts]). *)
From Stdlib Require Import ZArith NArith Lia Ascii.
From stdpp Require Import base list strings pretty.
From S2P Require Import Prelude JsValue Sha256 Canonical Effects JsMap WorkerValues WorkerTables.
From S2P Require Import WorkerSql WorkerLineage.

Local Open Scope eff_scope.

(** The answer of a check: what it found, or the reason of a refusal. *)
Definition verdict (A : Type) : Type := (A + string)%type.

(** * Bytes and signatures *)
Definition dsseLengthPrefixed (value : string) : string :=
  pretty (N.of_nat (String.length value)) +:+ " " +:+ value.

Definition dssePreAuthenticationEncoding (payloadType payload : string) : string :=
  "DSSEv1 " +:+ dsseLengthPrefixed payloadType +:+ dsseLengthPrefixed payload.

(** [a[i] || 0]. *)
Definition byte_at (s : string) (i : nat) : N :=
  match String.get i s with Some c => code c | None => 0%N end.

Definition constantTimeEqual (a b : string) : bool :=
  let start := N.lxor (N.of_nat (String.length a)) (N.of_nat (String.length b)) in
  let max := Nat.max (String.length a) (String.length b) in
  N.eqb (fold_left (λ diff i, N.lor diff (N.lxor (byte_at a i) (byte_at b i))) (seq 0 max) start) 0.

Definition envelopeFromInput (input : jsval) : option jsval :=
  if is_record (get input "dsse_envelope") then Some (get input "dsse_envelope")
  else if is_record (get input "envelope") then Some (get input "envelope")
  else if is_record (get input "attestation") then Some (get input "attestation")
  else if is_record (get input "provenance_attestation")
  then Some (get input "provenance_attestation")
  else None.

Record DsseContext := mkDsse {
  ds_decision : string;
  ds_hash : string;
  ds_workflow_run_id : string;
  ds_workflow_sha : string;
  ds_aeo_hash : string;
  ds_signer : string;
  ds_secret : string
}.

Record ValidatedDsse := mkValidatedDsse {
  vd_envelope_hash : string;
  vd_payload_hash : string;
  vd_log_id : string;
  vd_integrated_time : string
}.

Definition canonicalProvenancePayload (c : DsseContext) (log_id integrated_time : string)
    (federation : jsval) : jsval :=
  canonicalRecord (JObj [("canonical_aeo_hash", JStr (ds_aeo_hash c));
    ("decision_id", JStr (ds_decision c));
    ("federation", if is_record federation then canonicalRecord federation else JNull);
    ("signer_identity", JStr (ds_signer c));
    ("transparency_integrated_time", JStr integrated_time);
    ("transparency_log_id", JStr log_id);
    ("validated_object_hash", JStr (ds_hash c));
    ("workflow_run_id", JStr (ds_workflow_run_id c));
    ("workflow_sha", JStr (ds_workflow_sha c))]).

(** A federation that claims ambiguity, remote legitimacy or local authority. *)
Definition federation_claims (federation : jsval) : bool :=
  existsb (λ k, String.eqb (text (get federation k)) "true"
    || bool_decide (get federation k = JBool true))
    ["ambiguous_lineage"; "remote_legitimacy"; "local_authority"].

(** The payload says what the request says. *)
Definition payload_matches (payload : jsval) (c : DsseContext) : bool :=
  String.eqb (text (get payload "signer_identity")) (ds_signer c)
  && String.eqb (text (get payload "decision_id")) (ds_decision c)
  && String.eqb (text (get payload "validated_object_hash")) (ds_hash c)
  && String.eqb (text (get payload "workflow_run_id")) (ds_workflow_run_id c)
  && String.eqb (text (get payload "workflow_sha")) (ds_workflow_sha c)
  && String.eqb (text (get payload "canonical_aeo_hash")) (ds_aeo_hash c).

Section Worker.
Context `{!Platform}.

Definition first_signature (envelope : jsval) (signer : string) : option jsval :=
  List.find (λ sg, is_record sg
    && String.eqb (text (js_or (get sg "keyid") (get sg "signer_identity"))) signer)
    (match get envelope "signatures" with JArr l => l | _ => [] end).

Definition signature_valid (envelope : jsval) (payloadBytes : string) (c : DsseContext) : bool :=
  match first_signature envelope (ds_signer c) with
  | None => false
  | Some matching =>
      match atob (text (js_or (get matching "sig") (get matching "signature"))) with
      | None => false
      | Some provided =>
          constantTimeEqual provided (hmacSha256 (ds_secret c)
            (dssePreAuthenticationEncoding PROVENANCE_PAYLOAD_TYPE payloadBytes))
      end
  end.

Definition validateDsseProvenanceEnvelope (envelope : jsval) (c : DsseContext) :
    option ValidatedDsse :=
  if is_empty_str (ds_secret c) then None
  else if negb (is_record envelope) then None
  else if negb (String.eqb (text (js_or (get envelope "payloadType") (get envelope "payload_type")))
                  PROVENANCE_PAYLOAD_TYPE) then None
  else
    match atob (text (get envelope "payload")) with
    | None => None
    | Some payloadBytes =>
        let payloadJson := text_decode payloadBytes in
        match json_parse payloadJson with
        | None => None
        | Some payload =>
            if negb (is_record payload) then None
            else
              let transparency := if is_record (get envelope "transparency")
                then get envelope "transparency" else JObj [] in
              let log_id := text (js_or (get payload "transparency_log_id")
                (js_or (get transparency "log_id") (get envelope "transparency_log_id"))) in
              let integrated_time := text (js_or (get payload "transparency_integrated_time")
                (js_or (get transparency "integrated_time")
                   (get envelope "transparency_integrated_time"))) in
              let federation := if is_record (get payload "federation")
                then get payload "federation" else JNull in
              let canonicalPayloadString :=
                canonicalize (canonicalProvenancePayload c log_id integrated_time federation) in
              if is_empty_str log_id || is_empty_str integrated_time then None
              else if negb (payload_matches payload c) then None
              else if federation_claims federation then None
              else if negb (String.eqb payloadJson canonicalPayloadString) then None
              else if negb (signature_valid envelope payloadBytes c) then None
              else Some (mkValidatedDsse (hashCanonical envelope)
                     (sha256Hex canonicalPayloadString) log_id integrated_time)
        end
    end.

(** The reason and the drift class of a refusal. *)
Definition validateRequestProvenanceAttestation (input : jsval) (c : DsseContext) :
    eff (option ValidatedDsse + string * string) :=
  match envelopeFromInput input with
  | None => ret (inl None)
  | Some envelope =>
      match validateDsseProvenanceEnvelope envelope c with
      | None => ret (inr ("invalid_provenance_attestation", "attestation_drift"))
      | Some a =>
          let! replay := exec (select_attestation_replay (vd_envelope_hash a)
            (ds_workflow_run_id c) (ds_decision c) (ds_hash c)) in
          ret (if replay : bool then inr ("replayed_attestation", "replay_drift")
               else inl (Some a))
      end
  end.

(** * Topology epochs *)
Definition epoch_ordering (scope : string) (epoch : Z) (parent nonce : string) : string :=
  hashCanonical (JObj [("scope", JStr scope); ("topology_epoch", jint epoch);
    ("epoch_lineage_parent", JStr parent); ("epoch_nonce", JStr nonce)]).

Definition classifyTopologyEpochAdmission (topology_epoch epoch_lineage_parent epoch_nonce
    topology_visibility_state scope : jsval) : eff (verdict string) :=
  let epochParent := text epoch_lineage_parent in
  let epochNonce := text epoch_nonce in
  let topologyVisibility := to_upper (text topology_visibility_state) in
  let scope := to_string (js_or scope (JStr "GLOBAL")) in
  match finite (to_number other_number topology_epoch) with
  | None => ret (inr "missing_topology_epoch")
  | Some topologyEpoch =>
      if is_empty_str epochParent then ret (inr "missing_epoch_lineage_parent")
      else if is_empty_str epochNonce then ret (inr "epoch_ambiguity")
      else if negb (is_empty_str topologyVisibility) && negb (String.eqb topologyVisibility "VISIBLE")
      then ret (inr "topology_visibility_loss")
      else
        let! nonceReplay := exec (select_nonce_anywhere epochNonce) in
        if nonceReplay : bool then ret (inr "duplicate_epoch_nonce_replay")
        else
          let! head := exec (select_head_epoch scope) in
          match head with
          | None =>
              ret (if Z.eqb topologyEpoch 0
                   then inl (epoch_ordering scope topologyEpoch epochParent epochNonce)
                   else inr "non_canonical_epoch_jump")
          | Some h =>
              let currentEpoch := default 0%Z (ep_topology_epoch h) in
              ret (if (topologyEpoch <=? currentEpoch)%Z then inr "stale_epoch"
                   else if negb (Z.eqb topologyEpoch (currentEpoch + 1))
                   then inr "non_canonical_epoch_jump"
                   else if negb (String.eqb epochParent (ep_lineage_parent h))
                   then inr "forked_epoch_parent"
                   else inl (epoch_ordering scope topologyEpoch epochParent epochNonce))
          end
  end.

Definition enforceTopologyEpochAdmission (payload : jsval) : eff (verdict string) :=
  classifyTopologyEpochAdmission (get payload "topology_epoch")
    (get payload "epoch_lineage_parent") (get payload "epoch_nonce")
    (get payload "topology_visibility_state")
    (js_or (get payload "epoch_scope") (JStr "GLOBAL")).

(** * Governed envelopes *)
Definition resolvePersistedGovernedEnvelopeId (decision_id : string) : eff string :=
  if is_empty_str decision_id then ret EmptyString
  else
    let! found := exec (select_authority decision_id) in
    ret (match found with Some a => au_envelope a | None => EmptyString end).

(** [None] when no envelope is required, else the persisted identifier. *)
Definition requiresGovernEnvelopeLineage (decision_id : string) (payload : jsval) :
    eff (option string) :=
  let! persisted := resolvePersistedGovernedEnvelopeId decision_id in
  ret (if negb (is_empty_str persisted) then Some persisted
       else if isOpenClawOriginPayload payload then Some EmptyString
       else None).

Definition govern_envelope_hash_of (r : GovernEnvelopeRow) : string :=
  hashCanonical (JObj [("candidate_hash", JStr (ge_candidate_hash r)); ("nonce", JStr (ge_nonce r));
    ("nonce_domain", JStr (ge_nonce_domain r)); ("route", JStr "/govern");
    ("status", JStr (ge_status r))]).

Definition envelope_key (r : GovernEnvelopeRow) : string := ge_id r +:+ ":" +:+ ge_hash r.

(** The four reasons: missing, ambiguous, invalid status, hash mismatch. *)
Record govern_reasons := mkReasons {
  gr_missing : string; gr_ambiguous : string; gr_status : string; gr_hash : string
}.

(** The envelope's identifier, hash and projection hash. *)
Definition resolveGovernEnvelopeLineage (payload : jsval) (reasons : govern_reasons)
    (persisted : string) : eff (verdict (string * string * string)) :=
  let id := text (get payload "govern_envelope_id") in
  let hash := text (get payload "govern_envelope_hash") in
  if negb (is_empty_str persisted) && negb (is_empty_str id) && negb (String.eqb id persisted)
  then ret (inr (gr_ambiguous reasons))
  else
    let effective := if is_empty_str persisted then id else persisted in
    if is_empty_str effective && is_empty_str hash then ret (inr (gr_missing reasons))
    else
      let! byId := (if is_empty_str effective then ret []
        else exec (select_govern_envelopes (λ r, sql_eqb (ge_id r) effective))) in
      let! byHash := (if is_empty_str hash then ret []
        else exec (select_govern_envelopes (λ r, sql_eqb (ge_hash r) hash))) in
      let unique := fold_left (λ m r, map_set (envelope_key r) r m) (byId ++ byHash) [] in
      match unique with
      | [(_, record)] =>
          let recomputedHash := govern_envelope_hash_of record in
          ret (if negb (String.eqb (ge_status record) "VALID_CANDIDATE")
               then inr (gr_status reasons)
               else if negb (String.eqb (ge_hash record) recomputedHash) then inr (gr_hash reasons)
               else if negb (is_empty_str hash) && negb (String.eqb hash (ge_hash record))
               then inr (gr_hash reasons)
               else inl (ge_id record, ge_hash record, ge_projection_hash record))
      | _ => ret (inr (gr_ambiguous reasons))
      end.

Definition verifyGovernedToolEnvelopeLinkage (decision_id route : string) : eff (verdict string) :=
  let! found := exec (select_authority decision_id) in
  let envelope_id := match found with Some a => au_envelope a | None => EmptyString end in
  if is_empty_str envelope_id then ret (inr "governed_tool_envelope_missing")
  else
    let! envelope := exec (select_envelope envelope_id) in
    ret (match envelope with
         | None => inr "governed_tool_envelope_missing"
         | Some e =>
             if negb (String.eqb (el_non_operative e) "false") && negb (String.eqb route "/govern")
             then inr "governed_tool_envelope_non_operative" else inl envelope_id
         end).

(** Present, snapshot identifier, hash. *)
Definition deriveValidateTopologyEvidence : eff (bool * string * string) :=
  let! row := exec select_topology in
  let id := match row with Some t => tp_snapshot_id t | None => EmptyString end in
  let hash := match row with Some t => tp_hash t | None => EmptyString end in
  ret (negb (is_empty_str id) && negb (is_empty_str hash), id, hash).

(** * Delegated authority *)
Record DelegatedAuthorityObject := mkDelegated {
  dg_delegated : string;
  dg_parent : string;
  dg_authority : string;
  dg_decision : string;
  dg_continuity : string;
  dg_depth : jsnum;
  dg_scope_subset : jsval;
  dg_expiry : string;
  dg_lineage_hash : string;
  dg_root_hash : string;
  dg_replay_chain : string
}.

Definition or_else (a b : string) : string := if is_empty_str a then b else a.

(** [Number(x || 0)] of a text column. *)
Definition depth_of (depth : string) : jsnum :=
  if is_empty_str depth then NInt 0 else str_to_number other_number depth.

Definition delegationFieldsFromAuthority (a : AuthorityRow) : option DelegatedAuthorityObject :=
  if is_empty_str (au_delegated a) then None
  else Some (mkDelegated (au_delegated a) (au_parent a) (au_id a) (au_decision a) (au_continuity a)
    (depth_of (au_depth a)) (parseCanonicalRecordJson (or_else (au_scope_subset a) (au_scope a)))
    (or_else (au_delegation_expiry a) (au_expiry a)) (au_lineage_hash a) (au_root_hash a)
    (au_replay_chain a)).

Definition delegation_root (parent : AuthorityRow) : string :=
  or_else (au_root_hash parent)
    (hashCanonical (JObj [("root_authority_id", JStr (au_id parent));
       ("decision_id", JStr (au_decision parent))])).

Definition delegation_lineage (d : DelegatedAuthorityObject) (parent_lineage_hash : string) : string :=
  hashCanonical (JObj [("delegated_authority_id", JStr (dg_delegated d));
    ("parent_authority_id", JStr (dg_parent d)); ("authority_id", JStr (dg_authority d));
    ("decision_id", JStr (dg_decision d)); ("delegation_depth", JNum (dg_depth d));
    ("delegation_scope_subset", dg_scope_subset d); ("delegation_expiry", JStr (dg_expiry d));
    ("parent_lineage_hash", JStr parent_lineage_hash);
    ("delegation_root_hash", JStr (dg_root_hash d))]).

Definition delegation_replay (delegated lineage_hash decision : string) : string :=
  hashCanonical (JObj [("delegated_authority_id", JStr delegated);
    ("delegation_lineage_hash", JStr lineage_hash); ("decision_id", JStr decision);
    ("validated_object_hash", JStr EmptyString)]).

(** The compiled scope names the delegation. *)
Definition scope_names_delegation (scope : jsval) (d : DelegatedAuthorityObject) : bool :=
  String.eqb (text (get scope "delegated_authority_id")) (dg_delegated d)
  && String.eqb (text (get scope "parent_authority_id")) (dg_parent d)
  && String.eqb (text (get scope "delegation_lineage_hash")) (dg_lineage_hash d).

(** The checks on the delegation and its parent, before the registry is read. *)
Definition delegation_refusal (d : DelegatedAuthorityObject) (parent : AuthorityRow)
    (compiled : CanonicalAEO) : option (string * string) :=
  let parentRoot := delegation_root parent in
  if str_in (au_status parent) ["REVOKED"; "CONSUMED"]
  then Some ("parent_authority_unusable", "delegated_revocation_failure")
  else if date_after (dg_expiry d) (or_else (au_delegation_expiry parent) (au_expiry parent))
  then Some ("delegation_expiry_exceeds_parent", "delegated_lineage_drift")
  else if negb (delegationScopeIsSubset
                  (parseCanonicalRecordJson (or_else (au_scope_subset parent) (au_scope parent)))
                  (dg_scope_subset d))
  then Some ("delegated_scope_expansion", "delegated_scope_expansion")
  else if negb (String.eqb (dg_root_hash d) parentRoot)
  then Some ("delegation_root_divergence", "delegation_root_divergence")
  else if negb (String.eqb
                  (delegation_lineage d (or_else (au_lineage_hash parent) parentRoot))
                  (dg_lineage_hash d))
  then Some ("delegation_lineage_corruption", "delegated_lineage_drift")
  else if negb (String.eqb (delegation_replay (dg_delegated d) (dg_lineage_hash d) (dg_decision d))
                  (dg_replay_chain d))
  then Some ("delegated_replay_chain_corruption", "delegated_replay_resurrection")
  else if negb (scope_names_delegation (canonicalRecord (a_scope compiled)) d)
  then Some ("delegated_exact_object_drift", "delegated_exact_object_drift")
  else None.

(** The reason and the drift class of a refusal; every caller passes a compiled
    object. *)
Definition validateDelegatedAuthorityLineage (authority : AuthorityRow) (compiled : CanonicalAEO) :
    eff (option (string * string)) :=
  match delegationFieldsFromAuthority authority with
  | None => ret None
  | Some d =>
      if is_empty_str (dg_parent d) || is_empty_str (dg_lineage_hash d)
         || is_empty_str (dg_root_hash d) || is_empty_str (dg_replay_chain d)
      then ret (Some ("delegated_lineage_corrupt", "delegated_lineage_drift"))
      else
        let! now := exec now_ms in
        if isExpired (dg_expiry d) now
        then ret (Some ("delegated_authority_expired", "delegated_revocation_failure"))
        else
          let! parent := exec (select_authority_by_id (dg_parent d)) in
          match parent with
          | None => ret (Some ("orphaned_delegation", "orphaned_delegated_execution"))
          | Some parent =>
              match delegation_refusal d parent compiled with
              | Some refusal => ret (Some refusal)
              | None =>
                  let! object := exec (select_delegation (dg_delegated d)) in
                  match object with
                  | None => ret (Some ("orphaned_delegation", "orphaned_delegated_execution"))
                  | Some o =>
                      if negb (String.eqb (sha256Hex (dl_canonical o)) (dl_exact_hash o))
                      then ret (Some ("delegated_exact_object_drift", "delegated_exact_object_drift"))
                      else
                        let! revoked := exec (select_delegation_revoked (dg_delegated d)) in
                        if revoked : bool
                        then ret (Some ("delegated_authority_revoked", "delegated_revocation_failure"))
                        else
                          let! replay := exec (select_delegated_execution (dg_delegated d)
                            (dg_replay_chain d)) in
                          ret (if replay : bool
                               then Some ("replayed_delegated_authority", "delegated_replay_resurrection")
                               else None)
                  end
              end
          end
  end.

(** The object's JSON, without and with its type. *)
Definition delegated_fields (d : DelegatedAuthorityObject) : list (string * jsval) :=
  [("delegated_authority_id", JStr (dg_delegated d)); ("parent_authority_id", JStr (dg_parent d));
   ("authority_id", JStr (dg_authority d)); ("decision_id", JStr (dg_decision d));
   ("continuity_id", JStr (dg_continuity d)); ("delegation_depth", JNum (dg_depth d));
   ("delegation_scope_subset", dg_scope_subset d); ("delegation_expiry", JStr (dg_expiry d));
   ("delegation_lineage_hash", JStr (dg_lineage_hash d));
   ("delegation_root_hash", JStr (dg_root_hash d));
   ("delegated_replay_chain_hash", JStr (dg_replay_chain d))].

Definition delegated_js (d : DelegatedAuthorityObject) : jsval :=
  JObj (("object_type", JStr "DelegatedAuthorityObject") :: delegated_fields d).

Definition delegatedExactObjectHash (d : DelegatedAuthorityObject) : string :=
  hashCanonical (delegated_js d).

Definition appendDelegatedAuthorityObject (d : DelegatedAuthorityObject) (created_at : string) :
    eff unit :=
  let! registry_id := randomUUID in
  insert (insert_delegation (mkDelegation registry_id "DelegatedAuthorityObject" (dg_delegated d)
    (dg_parent d) (Some (dg_authority d)) (Some (dg_decision d)) (Some (dg_continuity d))
    (num_to_string (dg_depth d)) (canonicalize (dg_scope_subset d)) (dg_expiry d)
    (dg_lineage_hash d) (dg_root_hash d) (dg_replay_chain d) (canonicalize (delegated_js d))
    (delegatedExactObjectHash d) "ACTIVE" None created_at)).

(** [Number(parent.delegation_depth || 0) + 1], refused above the bound. *)
Definition next_depth (depth : string) : jsnum :=
  match depth_of depth with NInt z => NInt (z + 1) | n => n end.

Definition too_deep (depth : jsnum) : bool :=
  match depth with
  | NInt z => (Z.of_nat SYSTEM_MAX_CONTINUITY_DEPTH <? z)%Z
  | NInf false => true
  | _ => false
  end.

Definition with_hashes (d : DelegatedAuthorityObject) (parent : AuthorityRow) :
    DelegatedAuthorityObject :=
  let root := delegation_root parent in
  let rooted := mkDelegated (dg_delegated d) (dg_parent d) (dg_authority d) (dg_decision d)
    (dg_continuity d) (dg_depth d) (dg_scope_subset d) (dg_expiry d) EmptyString root EmptyString in
  let lineage := delegation_lineage rooted (or_else (au_lineage_hash parent) root) in
  mkDelegated (dg_delegated d) (dg_parent d) (dg_authority d) (dg_decision d) (dg_continuity d)
    (dg_depth d) (dg_scope_subset d) (dg_expiry d) lineage root
    (delegation_replay (dg_delegated d) lineage (dg_decision d)).

(** The four fields of the base record it reads. *)
Definition buildDelegatedAuthorityForIssuance (input : jsval)
    (base_authority base_decision base_continuity base_expiry : string) :
    eff (option DelegatedAuthorityObject + string * string) :=
  let parent_authority_id := text (js_or (get input "parent_authority_id")
    (get (get input "delegation") "parent_authority_id")) in
  if is_empty_str parent_authority_id then ret (inl None)
  else
    let! parent := exec (select_authority_by_id parent_authority_id) in
    match parent with
    | None => ret (inr ("orphaned_delegation", "orphaned_delegated_execution"))
    | Some parent =>
        let subset := canonicalRecord (js_or (get input "delegation_scope_subset")
          (js_or (get input "scope") (JObj []))) in
        let expiry := text (js_or (get input "delegation_expiry")
          (js_or (get input "expiry") (JStr base_expiry))) in
        let depth := next_depth (au_depth parent) in
        if negb (str_in (au_status parent) ["ACTIVE"; "VALIDATED"; "RESERVED"])
        then ret (inr ("parent_authority_unusable", "delegated_revocation_failure"))
        else if negb (delegationScopeIsSubset
                  (parseCanonicalRecordJson (or_else (au_scope_subset parent) (au_scope parent))) subset)
        then ret (inr ("delegated_scope_expansion", "delegated_scope_expansion"))
        else
          let! now := exec now_ms in
          if isExpired expiry now
          then ret (inr ("delegated_authority_expired", "delegated_revocation_failure"))
          else if date_after expiry (or_else (au_delegation_expiry parent) (au_expiry parent))
          then ret (inr ("delegation_expiry_exceeds_parent", "delegated_lineage_drift"))
          else if too_deep depth
          then ret (inr ("recursive_delegation_instability", "recursive_delegation_instability"))
          else
            let! delegated_authority_id :=
              (if truthy (get input "delegated_authority_id")
               then ret (to_string (get input "delegated_authority_id")) else randomUUID) in
            ret (inl (Some (with_hashes (mkDelegated delegated_authority_id parent_authority_id
              base_authority base_decision base_continuity depth subset expiry EmptyString
              EmptyString EmptyString) parent)))
    end.

(** * Reviewed objects *)
Inductive preo_status := preo_ok | missing_preo | preo_hash_mismatch.

#[export] Instance preo_status_eq_dec : EqDecision preo_status.
Proof. solve_decision. Defined.

Definition preo_str (p : preo_status) : string :=
  match p with
  | preo_ok => "OK" | missing_preo => "missing_preo" | preo_hash_mismatch => "preo_hash_mismatch"
  end.

(** The reviewed row and its parsed text agree with the object and the authority. *)
Definition preo_matches (object_hash : string) (authority : AuthorityRow) (p : PreoRow) :
    option jsval :=
  if negb (String.eqb (po_authority p) (au_id authority)) then None
  else if negb (String.eqb (po_continuity p) (au_continuity authority)) then None
  else
    match json_parse (if is_empty_str (po_canonical p) then "{}" else po_canonical p) with
    | Some c =>
        if is_record c && String.eqb (text (get c "reviewed_hash")) object_hash
           && String.eqb (text (get c "reviewed_tree_hash")) (po_reviewed_tree_hash p)
           && String.eqb (text (get c "merge_commit_sha")) (po_merge_commit_sha p)
        then Some c else None
    | None => None
    end.

(** The table exists: [ensureSchema] creates it before any route runs. *)
Definition deploymentPreoLineage (decision_id object_hash : string) (authority : AuthorityRow)
    (required : bool) : eff (preo_status * option (PreoRow * jsval)) :=
  let! preos := exec (select_preos decision_id) in
  match preos with
  | [] => ret (if required then missing_preo else preo_ok, None)
  | _ =>
      match List.find (λ p, String.eqb (po_reviewed_hash p) object_hash) preos with
      | None => ret (preo_hash_mismatch, None)
      | Some p =>
          ret (match preo_matches object_hash authority p with
               | None => (preo_hash_mismatch, None)
               | Some c => (preo_ok, Some (p, c))
               end)
      end
  end.

Definition validatePreoLineage (decision_id object_hash : string) (authority : AuthorityRow)
    (required : bool) : eff preo_status :=
  let! result := deploymentPreoLineage decision_id object_hash authority required in
  ret result.1.

(** * Deployment provenance *)

(** [Object.keys(provenance)] compared with the executed row. *)
Definition provenance_differs (execution : option ExecutionRow) (p : DeploymentProvenance) : bool :=
  match execution with
  | None => false
  | Some e => negb (forallb (λ kv, String.eqb kv.1.2 kv.2.2)
      (zip (provenance_entries (ex_provenance e)) (provenance_entries p)))
  end.

(** The checks against a reviewed object. *)
Definition review_refusal (p : DeploymentProvenance) (preo : PreoRow) (canonicalPreo : jsval)
    (execution : option ExecutionRow) : option (string * string) :=
  let pull_request := text (get canonicalPreo "pull_request_id") in
  if is_empty_str (po_reviewed_tree_hash preo) || is_empty_str (po_merge_commit_sha preo)
  then Some ("reviewed_provenance_missing", "provenance_drift")
  else if negb (String.eqb (pv_source_tree_hash p) (po_reviewed_tree_hash preo))
          || negb (String.eqb (text (get canonicalPreo "reviewed_tree_hash"))
                     (po_reviewed_tree_hash preo))
  then Some ("reviewed_tree_mismatch", "workflow_source_drift")
  else if negb (String.eqb (pv_merge_commit_sha p) (po_merge_commit_sha preo))
  then Some ("merge_sha_mismatch", "provenance_drift")
  else if negb (String.eqb (pv_workflow_sha p) (po_merge_commit_sha preo))
  then Some ("workflow_sha_mismatch", "workflow_source_drift")
  else if negb (is_empty_str pull_request) && negb (String.eqb (pv_pull_request_id p) pull_request)
  then Some ("pull_request_lineage_mismatch", "branch_lineage_drift")
  else if provenance_differs execution p then Some ("provenance_drift", "provenance_drift")
  else None.

(** The reason and the drift class of a refusal. *)
Definition validateDeploymentProvenance (decision_id object_hash : string)
    (authority : AuthorityRow) (compiled : CanonicalAEO) (p : DeploymentProvenance)
    (execution : option ExecutionRow) : eff (option (string * string)) :=
  let target := canonicalDeployTarget (a_target compiled) in
  match missingDeploymentProvenance p with
  | _ :: _ => ret (Some ("workflow_provenance_missing", "provenance_drift"))
  | [] =>
      if negb (String.eqb (pv_repository p) (dt_repo target))
         || negb (String.eqb (pv_branch p) (dt_branch target))
      then ret (Some ("branch_lineage_mismatch", "branch_lineage_drift"))
      else
        let required := preoGovernanceEnabled (parseCanonicalRecordJson (au_constraints authority))
          target in
        let! preo := deploymentPreoLineage decision_id object_hash authority required in
        match preo with
        | (preo_ok, found) =>
            if negb required then
              ret (if provenance_differs execution p
                   then Some ("provenance_drift", "provenance_drift") else None)
            else
              ret (match found with
                   | None => Some ("missing_preo", "provenance_drift")
                   | Some (row, canonicalPreo) => review_refusal p row canonicalPreo execution
                   end)
        | (status, _) => ret (Some (preo_str status, "provenance_drift"))
        end
  end.
End Worker.
