(* ===== verification/WorkerIssuance.v ===== *)
(** The routes of [src/index.ts] that issue: [/session], [/continuity] and
    [/govern]. *)
From Stdlib Require Import ZArith NArith Lia Ascii.
From stdpp Require Import base list strings pretty.
From S2P Require Import Prelude JsValue Sha256 Canonical Effects WorkerValues WorkerTables.
From S2P Require Import WorkerSql WorkerLineage WorkerEvidence.

Local Open Scope eff_scope.

(** A body that is not JSON is [None]; an absent header is the empty text. *)
Record request := mkRequest {
  rq_body : option jsval;
  rq_header : string → string
}.

(** [body(request)]. *)
Definition body (r : request) : jsval := default (JObj []) (rq_body r).

(** An array, or the given one. *)
Definition array_or (v : jsval) (l : list string) : jsval :=
  if is_array v then v else JArr (map JStr l).

Section Worker.
Context `{!Platform}.

(** * /session *)
Definition session_route (rq : request) : eff response :=
  let b := body rq in
  let! _ := need_object b in
  let identity_id := text (get b "identity_id") in
  if is_empty_str identity_id
  then ret (mkResponse 400 (JObj [("status", JStr "NULL"); ("reason", JStr "missing_identity_id")]))
  else
    let! t := exec now_ms in
    let expires_at := to_string (js_or (get b "expires_at") (JStr (to_iso (t + SESSION_TTL_MS)))) in
    let! now := exec now_ms in
    if isExpired expires_at now
    then ret (mkResponse 400
           (JObj [("status", JStr "NULL"); ("reason", JStr "invalid_session_expiry")]))
    else
      let! session_id := randomUUID in
      let! created_at := now_iso in
      let! _ := insert (insert_session (mkSession session_id identity_id "human-origin" "T0" "ACTIVE"
        created_at expires_at)) in
      let! _ := attempt (emitTelemetry "SESSION_CREATED" EmptyString EmptyString EmptyString
        EmptyString "INFO") (ret tt) in
      ret (json [("status", JStr "SESSION_ACTIVE"); ("session_id", JStr session_id);
        ("identity_id", JStr identity_id); ("created_at", JStr created_at);
        ("expires_at", JStr expires_at)]).

(** * /continuity *)
Definition deny_lineage {A} (reason event drift : string) (decision : string) (severity : string) :
    eff A :=
  rejectWithTelemetry [("status", JStr "NULL"); ("reason", JStr reason)] reason
    (mkTrace event decision EmptyString EmptyString EmptyString severity drift).

Definition deny_continuity {A} (reason : string) : eff A :=
  deny_lineage reason "VALIDATION_REJECTED" "authority_drift" EmptyString "HIGH".

(** The checks on the parent: alive, not too deep, not narrower than the child. *)
Definition check_parent (session : SessionRow) (parent_id : string) (requestedScope : jsval) :
    eff unit :=
  let! parent := activeContinuity parent_id session EmptyString in
  match parent with
  | None => deny_continuity "invalid_parent_continuity"
  | Some ((row, canonical), ancestry) =>
      let prospectiveDepth := S (length ancestry) in
      let parentScope := if is_record (get canonical "scope")
        then canonicalRecord (get canonical "scope") else JObj [] in
      if Nat.ltb SYSTEM_MAX_CONTINUITY_DEPTH prospectiveDepth
      then deny_continuity "continuity_depth_exceeded"
      else if exceeds_configured canonical prospectiveDepth
      then deny_continuity "continuity_depth_exceeded"
      else if negb (scope_entries_within parentScope (props (canonicalRecord requestedScope)))
      then deny_continuity "scope_expansion_detected"
      else ret tt
  end.

(** The continuity of a request: its hash material. *)
Definition continuity_of (b : jsval) (session : SessionRow) (continuity_id parent_id issued_at
    expires_at : string) (requestedScope : jsval) : jsval :=
  continuityHashMaterial (JObj [("continuity_id", JStr continuity_id);
    ("identity_id", JStr (se_identity session)); ("session_id", JStr (text (get b "session_id")));
    ("parent_continuity_id", if is_empty_str parent_id then JNull else JStr parent_id);
    ("authority_chain", array_or (get b "authority_chain") []);
    ("actor_chain", array_or (get b "actor_chain") ["human"; "agent"]);
    ("scope", requestedScope);
    ("constraints", js_or (get b "constraints")
       (JObj [("max_depth", jint 3); ("delegation_allowed", JBool false)]));
    ("revocation", js_or (get b "revocation")
       (JObj [("status", JStr "ACTIVE"); ("revoked_at", JNull)]));
    ("issued_at", JStr issued_at); ("expires_at", JStr expires_at)]).

Definition continuity_route (rq : request) : eff response :=
  let b := body rq in
  let! _ := need_object b in
  let session_id := text (get b "session_id") in
  let! session := activeSession session_id in
  match session with
  | None => deny_continuity "invalid_session"
  | Some session =>
      let! continuity_id := (if truthy (get b "continuity_id")
        then ret (to_string (get b "continuity_id")) else randomUUID) in
      let! issued_at := (if truthy (get b "issued_at")
        then ret (to_string (get b "issued_at")) else now_iso) in
      let expires_at := to_string (js_or (get b "expires_at") (JStr (se_expires_at session))) in
      let! now := exec now_ms in
      if isExpired expires_at now then deny_continuity "expired_continuity"
      else
        let parent_id := text (get b "parent_continuity_id") in
        let requestedScope := if is_record (get b "scope") then canonicalRecord (get b "scope")
          else JObj [("environment", JStr "production")] in
        if String.eqb parent_id continuity_id then deny_continuity "continuity_cycle_detected"
        else
          let! _ := (if is_empty_str parent_id then ret tt
            else check_parent session parent_id requestedScope) in
          let material := continuity_of b session continuity_id parent_id issued_at expires_at
            requestedScope in
          let hash := continuityHash material in
          let continuity := JObj (props material ++ [("continuity_hash", JStr hash)]) in
          if negb (String.eqb (to_string (get (get continuity "revocation") "status")) "ACTIVE")
          then deny_continuity "revoked_continuity"
          else
            let! _ := insert (insert_continuity (mkContinuity continuity_id (se_identity session)
              session_id (non_empty parent_id) hash (canonicalize continuity) "ACTIVE" issued_at
              expires_at None)) in
            let! _ := emitTelemetry "CONTINUITY_CREATED" EmptyString EmptyString EmptyString
              EmptyString "INFO" in
            ret (json [("status", JStr "CONTINUITY_ACTIVE"); ("continuity_id", JStr continuity_id);
              ("continuity_hash", JStr hash); ("continuity", continuity)])
  end.

(** * /govern *)
Definition normalizeATAORiskClass (value : jsval) : string :=
  let risk := to_upper (to_string (js_or value (JStr "P2"))) in
  if str_in risk ["P0"; "P1"; "P2"; "P3"] then risk else "P2".

Definition header_or (rq : request) (name : string) (alternatives : list jsval) (fallback : string) :
    string :=
  to_string (js_or (JStr (rq_header rq name))
    (fold_right js_or (JStr fallback) alternatives)).

Definition buildAgentToolCallATAOMaterial (rq : request) (c : GovernCandidate)
    (candidate_hash nonce nonce_domain timestamp : string) : jsval :=
  let b := match rq_body rq with Some v => if is_record v then v else JObj [] | None => JObj [] end in
  let scope := canonicalRecord (gc_scope c) in
  let target := canonicalRecord (gc_target c) in
  let parameters :=
    if is_record (get target "parameters") then canonicalRecord (get target "parameters")
    else if is_record (get target "tool_parameters")
    then canonicalRecord (get target "tool_parameters")
    else canonicalRecord target in
  JObj [("atao_id", JStr ("atao:" +:+ candidate_hash +:+ ":" +:+ nonce_domain +:+ ":" +:+ nonce));
    ("agent_id", JStr (header_or rq "X-Agent-ID" [get target "agent_id"; get scope "agent_id"]
       "unknown-agent"));
    ("session_id", JStr (header_or rq "X-Session-ID"
       [get scope "session_id"; get target "session_id"; get b "session_id"] "unknown-session"));
    ("intent", JStr (gc_intent c));
    ("proposed_action", JObj [
       ("system", JStr (to_string (fold_right js_or (JStr "agent_tool")
          [get target "system"; get target "tool_system"; get target "execution_surface";
           get target "tool_surface"; get target "surface"])));
       ("action", JStr (to_string (fold_right js_or (JStr (gc_intent c))
          [get target "action"; get target "tool_action"])));
       ("parameters", parameters)]);
    ("scope", scope);
    ("risk_class", JStr (normalizeATAORiskClass (js_or (get target "risk_class")
       (js_or (get scope "risk_class") (get b "risk_class")))));
    ("timestamp", JStr timestamp)].

(** The captured object's identifier and hash. *)
Definition captureAgentToolCallATAO (rq : request) (c : GovernCandidate)
    (candidate_hash nonce nonce_domain envelope_id timestamp : string) : eff (string * string) :=
  let atao := buildAgentToolCallATAOMaterial rq c candidate_hash nonce nonce_domain timestamp in
  let field k := str_or_empty (get atao k) in
  let! _ := exec (insert_atao (mkAtaoRow (field "atao_id") (hashCanonical atao) candidate_hash
    envelope_id nonce nonce_domain (field "agent_id") (field "session_id") (field "risk_class")
    (canonicalize (get atao "proposed_action")) (canonicalize (get atao "scope")) timestamp)) in
  ret (field "atao_id", hashCanonical atao).

Definition empty_candidate : GovernCandidate := mkCandidate EmptyString (JObj []) (JObj []) (JObj []).

(** Lines 8093-8114: the reason of a refusal decided from the request alone. *)
Definition govern_refusal (parsed : GovernCandidate + string) (b : jsval) (nonce : string) :
    option string :=
  let '(policy_class, policy_digest) := resolveGovernPolicyPredicate b in
  if is_empty_str nonce then Some "missing_nonce"
  else match parsed with
       | inr _ => Some "malformed_candidate"
       | inl _ =>
           match validateGovernPolicyPredicate policy_class policy_digest with
           | Some reason => Some reason
           | None => validateGovernTopologyPredicate (resolveGovernTopologyPredicate b)
           end
       end.

(** Lines 8123-8139: the nonce is bound to the candidate, once. *)
Definition bind_govern_nonce (nonce nonce_domain candidate_hash timestamp : string) :
    eff (option string) :=
  let! existing := exec (select_govern_nonce nonce nonce_domain) in
  match existing with
  | Some row =>
      ret (Some (if negb (String.eqb (gn_candidate_hash row) candidate_hash)
                 then "nonce_rebinding" else "nonce_replay"))
  | None =>
      let! ok := exec (insert_govern_nonce (mkGovernNonce nonce nonce_domain candidate_hash
        timestamp)) in
      ret (if ok : bool then None else Some "nonce_replay")
  end.

Definition govern_result (refusal : option string) : string :=
  match refusal with None => "VALID_CANDIDATE" | Some _ => "NULL" end.

(** The envelope whose digest is its identifier. *)
Definition governed_envelope (c : GovernCandidate) (b : jsval) (candidate_hash nonce timestamp : string) :
    jsval :=
  JObj [("candidate_hash", JStr candidate_hash); ("nonce_binding", JStr nonce);
    ("policy_digest", JStr (hashCanonical (JObj [("intent", JStr (gc_intent c));
       ("finality", gc_finality c)])));
    ("topology_digest", JStr (hashCanonical (JObj [("scope", gc_scope c); ("target", gc_target c);
       ("route", JStr "/govern")])));
    ("lineage_pointers", JObj [("decision_id", JStr (text (get b "decision_id")));
       ("continuity_id", JStr (text (get b "continuity_id")))]);
    ("timestamp", JStr timestamp); ("non_operative", JBool true);
    ("tool_surface_descriptor", JObj [("route", JStr "/govern");
       ("workflow", JStr GOVERNED_WORKFLOW); ("executable", JBool false)])].

Definition govern_route (rq : request) : eff response :=
  let b := default JNull (rq_body rq) in
  let nonce := rq_header rq "X-Nonce" in
  let nonce_domain := to_string (js_or (JStr (rq_header rq "X-Nonce-Domain")) (JStr "openclaw")) in
  let parsed := parseGovernCandidate b in
  let candidate := match parsed with inl c => c | inr _ => empty_candidate end in
  let '(policy_class, policy_digest) := resolveGovernPolicyPredicate b in
  let attestation := resolveGovernTopologyPredicate b in
  let candidate_hash := hashCanonical (candidate_js candidate) in
  let projection_hash :=
    computeGovernProjectionHash (canonicalGovernProjectionFromCandidate candidate) in
  let! timestamp := now_iso in
  let! refusal :=
    (match govern_refusal parsed b nonce with
     | Some reason => ret (Some reason)
     | None => bind_govern_nonce nonce nonce_domain candidate_hash timestamp
     end) in
  let result := govern_result refusal in
  let reason := default EmptyString refusal in
  let evidence_id := hashCanonical (JObj [("candidate_hash", JStr candidate_hash);
    ("nonce", JStr nonce); ("nonce_domain", JStr nonce_domain); ("timestamp", JStr timestamp);
    ("result", JStr result); ("reason", JStr reason)]) in
  let! _ := exec (insert_govern_evidence (mkGovernEvidence evidence_id candidate_hash nonce result
    refusal timestamp)) in
  let envelope := governed_envelope candidate b candidate_hash nonce timestamp in
  let envelope_id := hashCanonical envelope in
  let! _ := exec (insert_envelope (mkEnvelope envelope_id candidate_hash nonce
    (str_or_empty (get envelope "policy_digest")) (str_or_empty (get envelope "topology_digest"))
    (canonicalize (get envelope "lineage_pointers")) timestamp "true"
    (canonicalize (get envelope "tool_surface_descriptor")) timestamp)) in
  let! atao :=
    (match parsed with
     | inl _ =>
         let! captured := captureAgentToolCallATAO rq candidate candidate_hash nonce nonce_domain
           envelope_id timestamp in ret (Some captured)
     | inr _ => ret None
     end) in
  let stored_reason := default "valid_candidate" refusal in
  let envelope_hash := hashCanonical (JObj [("candidate_hash", JStr candidate_hash);
    ("nonce", JStr nonce); ("nonce_domain", JStr nonce_domain); ("route", JStr "/govern");
    ("status", JStr result)]) in
  let! persisted := exec (insert_govern_envelope (mkGovernEnvelope envelope_id envelope_hash
    candidate_hash (canonicalize (candidate_js candidate)) projection_hash nonce nonce_domain
    policy_class policy_digest attestation result stored_reason timestamp)) in
  let refusal := if persisted : bool then refusal else Some "envelope_persist_failed" in
  let! _ := attempt (emitTelemetry
    (match refusal with None => "VALIDATION_GRANTED" | Some _ => "VALIDATION_REJECTED" end)
    EmptyString EmptyString EmptyString EmptyString
    (match refusal with None => "INFO" | Some _ => "WARN" end)) (ret tt) in
  let atao_id := opt_str (option_map fst atao) in
  let atao_hash := opt_str (option_map snd atao) in
  ret (json [("status", JStr (govern_result refusal));
    ("reason", JStr (default "valid_candidate" refusal)); ("envelope_id", JStr envelope_id);
    ("envelope_hash", JStr envelope_hash); ("nonce_domain", JStr nonce_domain);
    ("atao_id", atao_id); ("atao_hash", atao_hash);
    ("evidence", JObj ([("candidate_hash", JStr candidate_hash); ("nonce", JStr nonce);
       ("nonce_domain", JStr nonce_domain); ("timestamp", JStr timestamp);
       ("result", JStr (govern_result refusal))]
       ++ match atao with
          | Some (i, h) => [("atao_id", JStr i); ("atao_hash", JStr h)] | None => [] end
       ++ match refusal with Some r => [("reason", JStr r)] | None => [] end))]).
End Worker.
