(* ===== verification/WorkerAuthority.v ===== *)
(** The routes of [src/index.ts] that bind an authority to an object:
    [/authority], [/preo] and [/compile]. *)
From Stdlib Require Import ZArith NArith Lia Ascii.
From stdpp Require Import base list strings pretty.
From S2P Require Import Prelude JsValue Sha256 Canonical Json Effects WorkerValues WorkerTables.
From S2P Require Import WorkerSql WorkerLineage WorkerEvidence WorkerIssuance.

Local Open Scope eff_scope.

(** [JSON.parse(String(x || "{}"))]. *)
Definition stored_json (x : string) : string := if is_empty_str x then "{}" else x.

(** Columns of two tables, as [ensureSchema] creates them. *)
Definition columns_of (table : string) : list string :=
  if String.eqb table "authority_registry" then
    ["authority_id"; "decision_id"; "session_id"; "owner"; "intent"; "scope"; "constraints";
     "expiry"; "status"; "created_at"; "continuity_id"; "identity_id"; "delegated_authority_id";
     "parent_authority_id"; "delegation_depth"; "delegation_scope_subset"; "delegation_expiry";
     "delegation_lineage_hash"; "delegation_root_hash"; "delegated_replay_chain_hash";
     "governed_tool_envelope_id"]
  else if String.eqb table "aeo_registry" then
    ["aeo_id"; "authority_id"; "decision_id"; "canonical_aeo"; "validated_object_hash";
     "govern_projection_hash"; "status"; "created_at"; "continuity_id"; "workflow_integrity_hash";
     "delegated_authority_id"; "delegation_lineage_hash"; "delegation_root_hash";
     "delegated_replay_chain_hash"; "lineage_stage"; "lineage_origin_hash";
     "governed_tool_envelope_id"]
  else [].

Definition hasColumn (table column : string) : eff bool :=
  exec (select (λ _, str_in column (columns_of table))).

Definition authority_js (a : AuthorityRow) : jsval :=
  JObj ([("authority_id", JStr (au_id a)); ("decision_id", JStr (au_decision a));
    ("identity_id", JStr (au_identity a)); ("session_id", JStr (au_session a));
    ("continuity_id", JStr (au_continuity a)); ("owner", JStr (au_owner a));
    ("intent", JStr (au_intent a)); ("scope", JStr (au_scope a));
    ("constraints", JStr (au_constraints a)); ("expiry", JStr (au_expiry a));
    ("status", JStr (au_status a)); ("created_at", JStr (au_created_at a))]
   ++ if is_empty_str (au_delegated a) then [] else
      [("delegated_authority_id", JStr (au_delegated a));
       ("parent_authority_id", JStr (au_parent a)); ("delegation_depth", JStr (au_depth a));
       ("delegation_scope_subset", JStr (au_scope_subset a));
       ("delegation_expiry", JStr (au_delegation_expiry a));
       ("delegation_lineage_hash", JStr (au_lineage_hash a));
       ("delegation_root_hash", JStr (au_root_hash a));
       ("delegated_replay_chain_hash", JStr (au_replay_chain a))]).

(** [{ ...baseScope, delegated_authority_id, ... }]. *)
Definition delegated_scope (baseScope : jsval) (d : DelegatedAuthorityObject) : jsval :=
  JObj (fold_left (λ ps kv, assoc_set kv.1 kv.2 ps)
    [("delegated_authority_id", JStr (dg_delegated d)); ("parent_authority_id", JStr (dg_parent d));
     ("delegation_depth", JStr (num_to_string (dg_depth d)));
     ("delegation_scope_subset", dg_scope_subset d); ("delegation_expiry", JStr (dg_expiry d));
     ("delegation_lineage_hash", JStr (dg_lineage_hash d));
     ("delegation_root_hash", JStr (dg_root_hash d));
     ("delegated_replay_chain_hash", JStr (dg_replay_chain d))] (props baseScope)).

Section Worker.
Context `{!Platform}.

(** * /authority *)
Definition deny_epoch {A} (reason : string) : eff A :=
  rejectWithTelemetry [("status", JStr "NULL"); ("result", JStr "INVALID"); ("reason", JStr reason)]
    reason (mkTrace "VALIDATION_REJECTED" EmptyString EmptyString EmptyString EmptyString "HIGH"
      "topology_drift").

Definition admit_epoch (b : jsval) : eff string :=
  let! admission := enforceTopologyEpochAdmission b in
  match admission with inl hash => ret hash | inr reason => deny_epoch reason end.

(** The row of lines 7975-7987. *)
Definition authority_row (b : jsval) (session : SessionRow) (authority_id decision_id continuity_id
    envelope_id expiry created_at : string) (delegated : option DelegatedAuthorityObject) :
    AuthorityRow :=
  let baseScope := canonicalRecord (js_or (get b "scope") (JObj [])) in
  let part (f : DelegatedAuthorityObject → string) :=
    match delegated with Some d => f d | None => EmptyString end in
  mkAuthority authority_id decision_id (se_identity session) (text (get b "session_id"))
    continuity_id (to_string (js_or (get b "owner") (JStr "unknown")))
    (to_string (js_or (get b "intent") (JStr "deploy_production")))
    (match delegated with
     | None => json_stringify baseScope
     | Some d => canonicalize (delegated_scope baseScope d)
     end)
    (json_stringify (js_or (get b "constraints") (JObj []))) expiry "ACTIVE" created_at
    (part dg_delegated) (part dg_parent) (part (λ d, num_to_string (dg_depth d)))
    (part (λ d, canonicalize (dg_scope_subset d))) (part dg_expiry) (part dg_lineage_hash)
    (part dg_root_hash) (part dg_replay_chain) envelope_id.

Definition authority_route (rq : request) : eff response :=
  let b := body rq in
  let! _ := need_object b in
  let session_id := text (get b "session_id") in
  let! session := activeSession session_id in
  match session with
  | None => deny_continuity "invalid_session"
  | Some session =>
      let! decision_id := (if truthy (get b "decision_id")
        then ret (to_string (get b "decision_id")) else randomUUID) in
      let deny {A} reason severity : eff A :=
        deny_lineage reason "VALIDATION_REJECTED" "authority_drift" decision_id severity in
      let envelope_id := text (get b "governed_tool_envelope_id") in
      let continuity_id := text (get b "continuity_id") in
      if is_empty_str envelope_id then deny "governed_tool_envelope_missing" "HIGH"
      else if is_empty_str continuity_id then deny "missing_continuity_id" "HIGH"
      else
        let! continuity := activeContinuity continuity_id session decision_id in
        match continuity with
        | None => deny "invalid_continuity" "HIGH"
        | Some _ =>
            let! current := resolveCurrentContinuityIdentity session in
            match current with
            | None => deny "missing_continuity_identity" "CRITICAL"
            | Some (current_id, current_identity) =>
                if negb (String.eqb current_identity (se_identity session))
                   || negb (String.eqb current_id continuity_id)
                then deny "continuity_identity_mismatch" "CRITICAL"
                else
                  let! _ := admit_epoch b in
                  let! authority_id := randomUUID in
                  let! t := exec now_ms in
                  let expiry := to_string (js_or (get b "expiry") (JStr (to_iso (t + 3600000)))) in
                  let! created_at := now_iso in
                  let! built := buildDelegatedAuthorityForIssuance b authority_id decision_id
                    continuity_id expiry in
                  match built with
                  | inr (reason, drift) =>
                      deny_lineage reason "VALIDATION_REJECTED" drift decision_id "HIGH"
                  | inl delegated =>
                      let row := authority_row b session authority_id decision_id continuity_id
                        envelope_id expiry created_at delegated in
                      let! _ := insert (insert_authority row) in
                      let! _ := exec (mark_envelope_operative envelope_id) in
                      let! _ := (match delegated with
                        | Some d => appendDelegatedAuthorityObject d created_at
                        | None => ret tt
                        end) in
                      let! _ := emitTelemetry "AUTHORITY_CREATED" decision_id authority_id
                        EmptyString EmptyString "INFO" in
                      ret (mkResponse 200 (authority_js row))
                  end
            end
        end
  end.

(** * Refusals that name their route *)
Definition deny_route {A} (route reason event severity drift decision authority : string) : eff A :=
  rejectWithTelemetry [("status", JStr "NULL"); ("route", JStr route); ("reason", JStr reason)]
    reason (mkTrace event decision authority EmptyString EmptyString severity drift).

(** * /preo *)
Definition preo_route (rq : request) : eff response :=
  let b := body rq in
  let! _ := need_object b in
  let decision_id := text (get b "decision_id") in
  let reviewed_hash := text (js_or (get b "reviewed_hash") (get b "validated_object_hash")) in
  let reviewed_tree_hash := text (js_or (get b "reviewed_tree_hash") (get b "source_tree_hash")) in
  let merge_commit_sha := text (get b "merge_commit_sha") in
  let pull_request_id := text (js_or (get b "pull_request_id") (get b "pull_request_number")) in
  let deny {A} reason event severity drift : eff A :=
    deny_route "/preo" reason event severity drift decision_id EmptyString in
  if is_empty_str decision_id
  then deny "missing_decision_id" "VALIDATION_REJECTED" "WARN" "registry_drift"
  else if is_empty_str reviewed_hash
  then deny "missing_reviewed_hash" "HASH_MISMATCH" "HIGH" "hash_drift"
  else if is_empty_str reviewed_tree_hash
  then deny "missing_reviewed_tree_hash" "VALIDATION_REJECTED" "HIGH" "provenance_drift"
  else if is_empty_str merge_commit_sha
  then deny "missing_merge_commit_sha" "VALIDATION_REJECTED" "HIGH" "provenance_drift"
  else if is_empty_str pull_request_id
  then deny "missing_pull_request_id" "VALIDATION_REJECTED" "HIGH" "branch_lineage_drift"
  else if truthy (get b "validated_object_hash")
          && negb (String.eqb (to_string (get b "validated_object_hash")) reviewed_hash)
  then deny "preo_hash_mismatch" "HASH_MISMATCH" "HIGH" "hash_drift"
  else
    let! found := exec (select_authority decision_id) in
    match found with
    | None => deny "authority_missing" "VALIDATION_REJECTED" "HIGH" "authority_drift"
    | Some authority =>
        let deny {A} reason event drift : eff A :=
          deny_route "/preo" reason event "HIGH" drift decision_id (au_id authority) in
        if negb (str_in (au_status authority) ["ACTIVE"; "VALIDATED"; "RESERVED"])
        then deny "authority_unusable" "VALIDATION_REJECTED" "authority_drift"
        else
          let! session := activeSession (au_session authority) in
          match session with
          | None => deny "invalid_session" "VALIDATION_REJECTED" "authority_drift"
          | Some session =>
              let! continuity := activeContinuity (au_continuity authority) session decision_id in
              match continuity with
              | None => deny "invalid_continuity" "VALIDATION_REJECTED" "authority_drift"
              | Some _ =>
                  let! created_at := now_iso in
                  let canonical_preo := canonicalize (JObj [("decision_id", JStr decision_id);
                    ("authority_id", JStr (au_id authority));
                    ("continuity_id", JStr (au_continuity authority));
                    ("reviewed_hash", JStr reviewed_hash);
                    ("reviewed_tree_hash", JStr reviewed_tree_hash);
                    ("merge_commit_sha", JStr merge_commit_sha);
                    ("pull_request_id", JStr pull_request_id);
                    ("evidence", canonicalRecord (get b "evidence"));
                    ("status", JStr "PREO_VALID")]) in
                  let! preo_id := (if truthy (get b "preo_id") then ret (to_string (get b "preo_id"))
                    else randomUUID) in
                  let! ok := exec (insert_preo (mkPreo preo_id decision_id (au_id authority)
                    (au_continuity authority) reviewed_hash reviewed_tree_hash merge_commit_sha
                    canonical_preo "PREO_VALID" created_at)) in
                  if negb ok then deny "preo_replay" "REPLAY_BLOCKED" "replay_drift"
                  else
                    let! _ := emitTelemetry "VALIDATION_GRANTED" decision_id (au_id authority)
                      EmptyString EmptyString "INFO" in
                    ret (json [("status", JStr "PREO_VALID"); ("decision_id", JStr decision_id);
                      ("preo_id", JStr preo_id); ("reviewed_hash", JStr reviewed_hash);
                      ("reviewed_tree_hash", JStr reviewed_tree_hash);
                      ("merge_commit_sha", JStr merge_commit_sha);
                      ("pull_request_id", JStr pull_request_id)])
              end
          end
    end.

(** * /compile *)
Definition snapshot_js (s : ExecutionSnapshotInput) : list (string * jsval) :=
  map (λ kv, (kv.1, JStr kv.2)) (snapshot_entries s).

(** [sha256Hex(canonicalize({ decision_id, validated_object_hash, ...snapshot }))]. *)
Definition execution_snapshot_hash (decision_id object_hash : string) (s : ExecutionSnapshotInput) :
    string :=
  hashCanonical (JObj ([("decision_id", JStr decision_id);
    ("validated_object_hash", JStr object_hash)] ++ snapshot_js s)).

Definition target_js (t : deploy_target) : jsval :=
  JObj [("repo", JStr (dt_repo t)); ("branch", JStr (dt_branch t));
        ("workflow", JStr (dt_workflow t))].

(** The object of an authority, from its stored scope and constraints. *)
Definition compiled_object (authority : AuthorityRow) (scope : jsval) (target : deploy_target) :
    option CanonicalAEO :=
  toCanonicalAeo (JObj [("intent", JStr (au_intent authority)); ("scope", scope);
    ("validation", JObj [("workflow", JStr GOVERNED_WORKFLOW)]); ("target", target_js target);
    ("finality", JObj [("proof_required", JBool true)])]).

Definition compiled_answer (decision_id hash snapshot_hash : string) (canonical_aeo : jsval) :
    response :=
  json [("status", JStr "COMPILED"); ("decision_id", JStr decision_id);
    ("validated_object_hash", JStr hash); ("validated_execution_snapshot", JStr snapshot_hash);
    ("canonical_aeo", canonical_aeo)].

(** A status that forbids compiling: its reason. *)
Definition compile_status_refusal (status : string) : option string :=
  if String.eqb status "REVOKED" then Some "authority_revoked"
  else if String.eqb status "CONSUMED" then Some "authority_consumed"
  else if negb (String.eqb status "ACTIVE") then Some "authority_not_active"
  else None.

Section Compile.
Context (decision_id : string) (snapshot : ExecutionSnapshotInput) (authority : AuthorityRow).

Definition deny_compile {A} (reason event severity drift authority_id : string) : eff A :=
  deny_route "/compile" reason event severity drift decision_id authority_id.

Definition check_preo (hash : string) (required : bool) : eff unit :=
  let! status := validatePreoLineage decision_id hash authority required in
  match status with
  | preo_ok => ret tt
  | preo_hash_mismatch =>
      deny_compile (preo_str status) "HASH_MISMATCH" "HIGH" "hash_drift" (au_id authority)
  | missing_preo =>
      deny_compile (preo_str status) "VALIDATION_REJECTED" "HIGH" "registry_drift" (au_id authority)
  end.

(** Lines 8036-8055: the object was compiled before. *)
Definition reuse_compiled (first : AeoRow) (rows : list AeoRow) (required : bool) : eff response :=
  let canonicalAeo := default JNull (json_parse (stored_json (ao_canonical first))) in
  let storedHash := ao_hash first in
  let recomputedHash := hashCanonical canonicalAeo in
  let conflicting := existsb (λ r, negb (String.eqb (ao_hash r) storedHash)
    || negb (String.eqb (ao_canonical r) (ao_canonical first))) rows in
  if negb (truthy canonicalAeo) || is_empty_str storedHash
     || negb (String.eqb recomputedHash storedHash) || conflicting
  then deny_compile "compiled_aeo_hash_mismatch" "HASH_MISMATCH" "HIGH" "hash_drift" EmptyString
  else
    let! _ := check_preo storedHash required in
    let! _ := emitTelemetry "AEO_COMPILED" decision_id (ao_authority first) EmptyString EmptyString
      "INFO" in
    ret (compiled_answer decision_id storedHash
      (execution_snapshot_hash decision_id storedHash snapshot) canonicalAeo).

(** Lines 8057-8070. *)
Definition compile_new (target : deploy_target) (required : bool) : eff response :=
  match json_parse (stored_json (au_scope authority)) with
  | None => throw
  | Some scope =>
      match compiled_object authority scope target with
      | None => deny_compile "invalid_canonical_aeo" "VALIDATION_REJECTED" "HIGH" "registry_drift"
                  (au_id authority)
      | Some aeo =>
          let text := canonicalize (aeo_js aeo) in
          let hash := sha256Hex text in
          let! _ := check_preo hash required in
          let! aeo_id := randomUUID in
          let! created_at := now_iso in
          let! _ := insert (insert_aeo (mkAeoRow aeo_id (au_id authority) decision_id
            (au_continuity authority) text hash
            (computeGovernProjectionHash (canonicalGovernProjectionFromAeo aeo)) "COMPILED"
            created_at (sn_workflow_hash snapshot) (au_delegated authority)
            (au_lineage_hash authority) (au_root_hash authority) (au_replay_chain authority)
            (au_envelope authority))) in
          let! _ := emitTelemetry "AEO_COMPILED" decision_id (au_id authority) EmptyString
            EmptyString "INFO" in
          match json_parse text with
          | None => throw
          | Some parsed =>
              ret (compiled_answer decision_id hash
                (execution_snapshot_hash decision_id hash snapshot) parsed)
          end
      end
  end.
End Compile.

Definition compile_with (decision_id : string) (snapshot : ExecutionSnapshotInput)
    (authority : AuthorityRow) : eff response :=
  let deny {A} reason : eff A :=
    deny_compile decision_id reason "VALIDATION_REJECTED" "HIGH" "authority_drift"
      (au_id authority) in
  let! now := exec now_ms in
  if isExpired (au_expiry authority) now then deny "authority_expired"
  else
    match compile_status_refusal (au_status authority) with
    | Some reason => deny reason
    | None =>
        let! session := activeSession (au_session authority) in
        match session with
        | None => deny "invalid_session"
        | Some session =>
            let! continuity := activeContinuity (au_continuity authority) session decision_id in
            match continuity with
            | None => deny "invalid_continuity"
            | Some _ =>
                match json_parse (stored_json (au_constraints authority)) with
                | None => throw
                | Some constraints =>
                    let target := canonicalDeployTarget constraints in
                    if negb (String.eqb (dt_workflow target) GOVERNED_WORKFLOW)
                    then deny_compile decision_id "workflow_mismatch" "VALIDATION_REJECTED" "HIGH"
                           "registry_drift" (au_id authority)
                    else
                      let! _ := need_object constraints in
                      let required := preoGovernanceEnabled constraints target in
                      let! rows := exec (select_aeos decision_id) in
                      match rows with
                      | first :: _ => reuse_compiled decision_id snapshot authority first rows required
                      | [] => compile_new decision_id snapshot authority target required
                      end
                end
            end
        end
    end.

Definition compile_body (rq : request) : eff response :=
  let b := body rq in
  let! _ := admit_epoch b in
  let decision_id := text (get b "decision_id") in
  let deny {A} reason severity drift : eff A :=
    deny_compile decision_id reason "VALIDATION_REJECTED" severity drift EmptyString in
  let! link := verifyGovernedToolEnvelopeLinkage decision_id "/compile" in
  match link with
  | inr reason => deny reason "HIGH" "authority_drift"
  | inl _ =>
      let snapshot := executionSnapshotFrom b in
      if is_empty_str decision_id then deny "missing_decision_id" "WARN" "registry_drift"
      else
        match missingExecutionSnapshotFields snapshot with
        | _ :: _ => deny "execution_snapshot_missing_fields" "HIGH" "workflow_source_drift"
        | [] =>
            let! has_status := hasColumn "authority_registry" "status" in
            let! has_decision := hasColumn "authority_registry" "decision_id" in
            if negb has_status || negb has_decision
            then deny "schema_incompatible_authority_registry" "CRITICAL" "registry_drift"
            else
              let! has_hash := hasColumn "aeo_registry" "validated_object_hash" in
              if negb has_hash
              then deny "schema_incompatible_aeo_registry" "CRITICAL" "registry_drift"
              else
                let! found := exec (select_authority decision_id) in
                match found with
                | None => deny "authority_missing" "HIGH" "authority_drift"
                | Some authority => compile_with decision_id snapshot authority
                end
        end
  end.

(** The message of the exception is left out of the answer. *)
Definition compile_route (rq : request) : eff response :=
  attempt (compile_body rq)
    (let! _ := recordDrift "registry_drift" "CRITICAL" EmptyString EmptyString in
     ret (json [("status", JStr "FAILED"); ("route", JStr "/compile");
       ("reason", JStr "compile_exception")])).
End Worker.
