(* ===== verification/WorkerExecution.v ===== *)
(** The routes of [src/index.ts] that act on a compiled object: [/validate] and
    [/execute]. *)
From Stdlib Require Import ZArith NArith Lia Ascii.
From stdpp Require Import base list strings pretty.
From S2P Require Import Prelude JsValue Sha256 Canonical Effects Epoch Finality WorkerValues.
From S2P Require Import WorkerTables WorkerSql WorkerLineage WorkerEvidence WorkerIssuance.
From S2P Require Import WorkerAuthority.

Local Open Scope eff_scope.

Definition refusal_str (r : partition_refusal) : string :=
  match r with
  | missing_partition_metadata => "missing_partition_metadata"
  | ambiguous_partition_ordering => "ambiguous_partition_ordering"
  | finality_hash_drift => "finality_hash_drift"
  | reconciliation_ambiguity => "reconciliation_ambiguity"
  | detached_lineage => "detached_lineage"
  | partition_visibility_loss => "partition_visibility_loss"
  | stale_partition_settlement_evidence => "stale_partition_settlement_evidence"
  | non_deterministic_partition_reconciliation => "non_deterministic_partition_reconciliation"
  | partition_unsettled => "partition_unsettled"
  | partition_drift => "partition_drift"
  end.

(** The input built from a body. *)
Definition partition_input (b : jsval) : jsval :=
  JObj [("partition_finality_state", get b "partition_finality_state");
    ("partition_epoch", get b "partition_epoch");
    ("partition_closure_hash", get b "partition_closure_hash");
    ("canonical_lineage_hash", get b "canonical_lineage_hash");
    ("partition_lineage_hash", get b "partition_lineage_hash");
    ("topology_visible", get b "topology_visible");
    ("reconciliation_deterministic", get b "reconciliation_deterministic");
    ("reconciliation_ordering_deterministic", get b "reconciliation_ordering_deterministic");
    ("settlement_observed_at", get b "partition_settlement_observed_at");
    ("freshness_window_ms", jint VALIDATION_FRESHNESS_WINDOW_MS)].

Section Worker.
Context `{!Platform}.

(** A refusal of [/validate], [/execute] or [/proof]. *)
Definition deny_invalid {A} (reason event severity drift decision authority execution proof : string) :
    eff A :=
  rejectWithTelemetry [("status", JStr "NULL"); ("result", JStr "INVALID"); ("reason", JStr reason)]
    reason (mkTrace event decision authority execution proof severity drift).

Definition partition_admission (b : jsval) : eff (option string) :=
  let! now := exec now_ms in
  ret (match classifyPartitionFinalityAdmission date_parse now other_number (partition_input b) with
       | PartitionAdmitted _ => None
       | PartitionRefused r => Some (refusal_str r)
       end).

(** [toCanonicalAeo(JSON.parse(text || "{}"))]. *)
Definition stored_aeo (text : string) : option CanonicalAEO :=
  match json_parse (stored_json text) with Some v => toCanonicalAeo v | None => None end.

(** * /validate *)
Section Validate.
Context (decision_id object_hash invocation_nonce session_id : string).

Definition deny_validate {A} (reason event severity drift authority : string) : eff A :=
  deny_invalid reason event severity drift decision_id authority EmptyString EmptyString.

Definition deny_authority {A} (reason severity drift authority : string) : eff A :=
  deny_validate reason "VALIDATION_REJECTED" severity drift authority.

(** Lines 8176-8186. *)
Definition validate_envelope (b : jsval) : eff (option (string * string * string)) :=
  let! required := requiresGovernEnvelopeLineage decision_id b in
  match required with
  | None => ret None
  | Some persisted =>
      let! lineage := resolveGovernEnvelopeLineage b
        (mkReasons "govern_envelope_missing" "govern_envelope_ambiguous"
           "govern_envelope_invalid_status" "govern_envelope_hash_mismatch") persisted in
      match lineage with
      | inr reason => deny_authority reason "HIGH" "hash_drift" EmptyString
      | inl govern =>
          if is_empty_str persisted then ret (Some govern)
          else
            let! link := verifyGovernedToolEnvelopeLinkage decision_id "/validate" in
            match link with
            | inr reason => deny_authority reason "HIGH" "authority_drift" EmptyString
            | inl _ => ret (Some govern)
            end
      end
  end.

(** Lines 8187-8204: the authority, alive, of this session and this continuity. *)
Definition validate_authority : eff AuthorityRow :=
  let! found := exec (select_authority decision_id) in
  match found with
  | None => deny_authority "authority_missing" "HIGH" "authority_drift" EmptyString
  | Some authority =>
      let deny {A} reason severity : eff A :=
        deny_authority reason severity "authority_drift" (au_id authority) in
      let! now := exec now_ms in
      if isExpired (au_expiry authority) now then deny "authority_expired" "HIGH"
      else if String.eqb (au_status authority) "REVOKED" then deny "authority_revoked" "HIGH"
      else if negb (str_in (au_status authority) ["ACTIVE"; "VALIDATED"; "RESERVED"])
      then deny "authority_unusable" "HIGH"
      else
        let! session := activeSession session_id in
        match session with
        | None => deny "invalid_session" "HIGH"
        | Some session =>
            if negb (String.eqb (au_session authority) session_id)
            then deny "session_lineage_mismatch" "HIGH"
            else
              let! continuity := activeContinuity (au_continuity authority) session decision_id in
              match continuity with
              | None => deny "invalid_continuity" "HIGH"
              | Some _ =>
                  let! current := resolveCurrentContinuityIdentity session in
                  match current with
                  | None => deny "missing_continuity_identity" "CRITICAL"
                  | Some (current_id, current_identity) =>
                      if negb (String.eqb current_identity (se_identity session))
                         || negb (String.eqb current_id (au_continuity authority))
                      then deny "continuity_identity_mismatch" "CRITICAL"
                      else if negb (String.eqb (au_identity authority) (se_identity session))
                      then deny "identity_lineage_mismatch" "HIGH"
                      else ret authority
                  end
              end
        end
  end.

(** The row says what the authority says (lines 8222-8224). *)
Definition compiled_by (compiled : AeoRow) (authority : AuthorityRow) : bool :=
  String.eqb (ao_authority compiled) (au_id authority)
  && String.eqb (ao_continuity compiled) (au_continuity authority)
  && String.eqb (ao_delegated compiled) (au_delegated authority)
  && String.eqb (ao_replay_chain compiled) (au_replay_chain authority).

(** Lines 8205-8224: the compiled row and its object, whose digest is the hash. *)
Definition validate_compiled (authority : AuthorityRow) : eff (AeoRow * CanonicalAEO) :=
  let! found := exec (select_compiled decision_id object_hash) in
  let policy := (classifyToolSurface (JObj [("execution_surface", JStr "deploy_runtime")])).2 in
  if is_empty_str (policyClassDigest policy)
  then deny_authority "policy_class_invalid" "HIGH" "registry_drift" (au_id authority)
  else
    match found with
    | None =>
        let! other := exec (select_compiled_anywhere object_hash) in
        match other with
        | Some _ => deny_authority "lineage_mismatch" "HIGH" "hash_drift" (au_id authority)
        | None => deny_validate "hash_mismatch" "HASH_MISMATCH" "HIGH" "hash_drift" (au_id authority)
        end
    | Some compiled =>
        match stored_aeo (ao_canonical compiled) with
        | None => deny_validate "hash_mismatch" "HASH_MISMATCH" "HIGH" "hash_drift" (au_id authority)
        | Some aeo =>
            if negb (String.eqb (aeo_hash aeo) object_hash)
               || negb (String.eqb (aeo_hash aeo) (ao_hash compiled))
               || negb (String.eqb (ao_canonical compiled) (canonicalize (aeo_js aeo)))
            then deny_validate "hash_mismatch" "HASH_MISMATCH" "HIGH" "hash_drift" (au_id authority)
            else if negb (compiled_by compiled authority)
            then deny_authority "lineage_mismatch" "HIGH" "hash_drift" (au_id authority)
            else ret (compiled, aeo)
        end
    end.

(** A delegated refusal's event. *)
Definition delegated_event (drift : string) : string :=
  if String.eqb drift "delegated_replay_resurrection" then "REPLAY_BLOCKED" else "VALIDATION_REJECTED".

(** [String(target.k) !== constraints.k], for the three of them. *)
Definition target_is (target : jsval) (t : deploy_target) : bool :=
  String.eqb (to_string (get target "repo")) (dt_repo t)
  && String.eqb (to_string (get target "branch")) (dt_branch t)
  && String.eqb (to_string (get target "workflow")) (dt_workflow t).

(** Lines 8225-8234: the object is within its authority. *)
Definition validate_object (authority : AuthorityRow) (aeo : CanonicalAEO) : eff unit :=
  let deny {A} reason : eff A := deny_authority reason "HIGH" "registry_drift" (au_id authority) in
  let! delegated := validateDelegatedAuthorityLineage authority aeo in
  match delegated with
  | Some (reason, drift) =>
      deny_validate reason (delegated_event drift) "HIGH" drift (au_id authority)
  | None =>
      match json_parse (stored_json (au_scope authority)) with
      | None => throw
      | Some scope =>
          if negb (String.eqb (canonicalize (canonicalRecord scope))
                     (canonicalize (canonicalRecord (a_scope aeo))))
          then deny "scope_constraints_mismatch"
          else if negb (bool_decide (get (a_finality aeo) "proof_required" = JBool true))
          then deny "proof_requirement_missing"
          else
            match json_parse (au_constraints authority) with
            | None => throw
            | Some constraints =>
                if negb (target_is (a_target aeo) (canonicalDeployTarget constraints))
                then deny "scope_constraints_mismatch"
                else if negb (bool_decide (get (a_target aeo) "workflow" = JStr GOVERNED_WORKFLOW))
                then deny "workflow_mismatch"
                else ret tt
            end
      end
  end.

Definition validation_row (authority : AuthorityRow) (compiled : AeoRow)
    (id environment created_at parent_hash origin_hash : string) : ValidationRow :=
  mkValidation id session_id (au_continuity authority) decision_id object_hash invocation_nonce
    environment "VALID" None "VALID" created_at (au_delegated authority)
    (au_replay_chain authority) parent_hash (ao_workflow_hash compiled) "validate" origin_hash.

(** Lines 8235-8244: the nonce is reserved, the validation recorded, the
    authority reserved. Answers the origin hash. *)
Definition validate_commit (authority : AuthorityRow) (compiled : AeoRow) (aeo : CanonicalAEO)
    (environment : string) : eff string :=
  let! reserved_at := now_iso in
  let! ok := exec (insert_invocation (mkInvocation decision_id object_hash invocation_nonce
    (au_continuity authority) "RESERVED" reserved_at)) in
  if negb ok
  then deny_validate "nonce_used" "REPLAY_BLOCKED" "HIGH" "replay_drift" (au_id authority)
  else
    let parent_hash := sha256Hex (canonicalize (aeo_js aeo)) in
    let origin_hash := canonicalLineageHash stage_validate decision_id object_hash parent_hash in
    match verifyLineageOrigin stage_validate decision_id object_hash "validate" origin_hash
            parent_hash parent_hash with
    | Some reason => deny_authority reason "HIGH" "hash_drift" (au_id authority)
    | None =>
        let! id := randomUUID in
        let! created_at := now_iso in
        let! _ := insert (insert_validation (validation_row authority compiled id environment
          created_at parent_hash origin_hash)) in
        let! _ := exec (reserve_authority decision_id) in
        let! _ := emitTelemetry "VALIDATION_GRANTED" decision_id (au_id authority) EmptyString
          EmptyString "INFO" in
        let! _ := emitInstallBaseTelemetryEvidence "validated_execution" decision_id
          (au_id authority) EmptyString EmptyString origin_hash "MATCH" in
        ret origin_hash
    end.

(** The eleven predicates of the answer. *)
Definition validate_predicates (topology_present local_lineage_present : bool) : PredicateSnapshot :=
  mkPredicates true true true true true topology_present true false false local_lineage_present false.

Definition predicates_js (p : PredicateSnapshot) : jsval :=
  JObj [("V", JBool (V p)); ("A", JBool (A p)); ("U", JBool (U p)); ("P", JBool (P p));
    ("R", JBool (R p)); ("T", JBool (T p)); ("C", JBool (C p)); ("Q", JBool (Q p));
    ("G", JBool (G p)); ("L", JBool (L p)); ("X", JBool (X p))].

Definition valid_answer (govern : option (string * string * string)) (topology : bool * string * string) :
    response :=
  let '(present, snapshot_id, hash) := topology in
  let lineage := negb (is_empty_str session_id) && negb (is_empty_str object_hash)
    && negb (is_empty_str invocation_nonce) in
  let snapshot := validate_predicates present lineage in
  json ([("status", JStr "VALID"); ("result", JStr "VALID"); ("session_id", JStr session_id);
    ("validated_object_hash", JStr object_hash); ("invocation_nonce", JStr invocation_nonce)]
    ++ match govern with
       | Some (id, h, projection) =>
           [("ok", JBool true); ("govern_envelope_id", JStr id); ("govern_envelope_hash", JStr h);
            ("govern_projection_hash", JStr projection)]
       | None => []
       end
    ++ [("policy_class", JStr (policy_str TOOL_RUNTIME_MUTATION));
    ("policy_class_digest", JStr (policyClassDigest TOOL_RUNTIME_MUTATION));
    ("policy_predicate_outcomes", JObj [("authority_active", JBool true);
       ("continuity_identity_match", JBool true); ("compiled_hash_match", JBool true);
       ("delegated_authority_lineage_valid", JBool true); ("topology_visible", JBool present)]);
    ("denial_reason", JNull);
    ("classification_evidence", JObj [
       ("classification", JStr (finality_str (classifyFromPredicates snapshot present None None)));
       ("predicate_snapshot", predicates_js snapshot); ("topology_present", JBool present);
       ("topology_snapshot_id", JStr snapshot_id); ("topology_hash", JStr hash);
       ("local_lineage_present", JBool lineage); ("distributed_quorum_present", JBool false);
       ("global_consensus_present", JBool false); ("cryptographic_integrity_present", JBool false)])]).

Definition validate_body (b : jsval) : eff response :=
  let! govern := validate_envelope b in
  if is_empty_str decision_id
  then deny_authority "missing_decision_id" "WARN" "hash_drift" EmptyString
  else if is_empty_str object_hash
  then deny_validate "missing_validated_object_hash" "HASH_MISMATCH" "HIGH" "hash_drift" EmptyString
  else if is_empty_str invocation_nonce
  then deny_authority "missing_invocation_nonce" "WARN" "replay_drift" EmptyString
  else
    let! authority := validate_authority in
    let! found := validate_compiled authority in
    let '(compiled, aeo) := found in
    let! _ := validate_object authority aeo in
    let! _ := validate_commit authority compiled aeo (text (get b "environment")) in
    let! topology := deriveValidateTopologyEvidence in
    ret (valid_answer govern topology).
End Validate.

Definition validate_route (rq : request) : eff response :=
  let b := body rq in
  let! _ := admit_epoch b in
  validate_body (text (get b "decision_id")) (text (get b "validated_object_hash"))
    (text (get b "invocation_nonce")) (text (get b "session_id")) b.

(** * /execute *)
Section Execute.
Context (decision_id object_hash invocation_nonce session_id : string).

Definition deny_execute {A} (reason event severity drift authority execution proof : string) : eff A :=
  deny_invalid reason event severity drift decision_id authority execution proof.

Definition deny_hash {A} (authority : string) : eff A :=
  deny_execute "hash_mismatch" "HASH_MISMATCH" "HIGH" "hash_drift" authority EmptyString EmptyString.

Definition deny_execution {A} (reason severity drift authority : string) : eff A :=
  deny_execute reason "VALIDATION_REJECTED" severity drift authority EmptyString EmptyString.

Definition deny_replay {A} (reason drift authority execution proof : string) : eff A :=
  deny_execute reason "REPLAY_BLOCKED" "HIGH" drift authority execution proof.

(** Lines 8260-8278: the request itself. *)
Definition execute_admission (b : jsval) : eff unit :=
  let! link := verifyGovernedToolEnvelopeLinkage decision_id "/execute" in
  match link with
  | inr reason => deny_execution reason "HIGH" "authority_drift" EmptyString
  | inl _ =>
      let! _ := emitTelemetry "EXECUTION_STARTED" decision_id EmptyString EmptyString EmptyString
        "INFO" in
      if is_empty_str decision_id
      then deny_execution "missing_decision_id" "WARN" "execution_drift" EmptyString
      else if is_empty_str object_hash
      then deny_execute "missing_validated_object_hash" "HASH_MISMATCH" "HIGH" "hash_drift"
             EmptyString EmptyString EmptyString
      else if is_empty_str invocation_nonce
      then deny_replay "missing_invocation_nonce" "replay_drift" EmptyString EmptyString EmptyString
      else
        let! refused := partition_admission b in
        match refused with
        | Some reason => deny_execution reason "HIGH" "execution_drift" EmptyString
        | None => ret tt
        end
  end.

(** Lines 8279-8289: the validation, fresh and of this session; its nonce
    reserved; no proof yet. *)
Definition execute_validation : eff (ValidationRow * SessionRow) :=
  let! found := exec (select_validation decision_id object_hash invocation_nonce) in
  match found with
  | None => deny_hash EmptyString
  | Some validation =>
      let! now := exec now_ms in
      if negb (isFresh (va_created_at validation) VALIDATION_FRESHNESS_WINDOW_MS now)
      then deny_execution "stale_validation" "HIGH" "execution_drift" EmptyString
      else if negb (String.eqb (va_decision validation) decision_id) then deny_hash EmptyString
      else if negb (String.eqb (va_hash validation) object_hash) then deny_hash EmptyString
      else
        let! session := activeSession session_id in
        match session with
        | None => deny_execution "invalid_session" "HIGH" "execution_drift" EmptyString
        | Some session =>
            if negb (String.eqb (va_session validation) session_id) then deny_hash EmptyString
            else
              let! inv := exec (select_invocation decision_id object_hash invocation_nonce) in
              if negb (match inv with
                       | Some i => String.eqb (in_status i) "RESERVED" | None => false end)
              then deny_replay "nonce_not_reserved" "replay_drift" EmptyString EmptyString EmptyString
              else
                let! proof := exec (select_first_proof decision_id object_hash) in
                match proof with
                | Some p => deny_replay "proof_replay" "replay_drift" EmptyString EmptyString (pf_id p)
                | None => ret (validation, session)
                end
        end
  end.

(** Lines 8290-8304: the authority is reserved, unexpired, and that of the
    validation. *)
Definition execute_authority (validation : ValidationRow) (session : SessionRow)
    (snapshot : ExecutionSnapshotInput) : eff AuthorityRow :=
  let! found := exec (select_authority decision_id) in
  match found with
  | None => deny_replay "authority_not_reserved" "authority_drift" EmptyString EmptyString EmptyString
  | Some authority =>
      let deny {A} reason severity drift : eff A :=
        deny_execution reason severity drift (au_id authority) in
      if negb (str_in (au_status authority) ["RESERVED"; "VALIDATED"])
      then deny_replay "authority_not_reserved" "authority_drift" (au_id authority) EmptyString
             EmptyString
      else
        let! _ := emitInstallBaseTelemetryEvidence "governed_execution_attempted" decision_id
          (au_id authority) EmptyString EmptyString EmptyString "UNKNOWN" in
        let! now := exec now_ms in
        if isExpired (au_expiry authority) now then deny "authority_expired" "HIGH" "authority_drift"
        else
          match missingExecutionSnapshotFields snapshot with
          | _ :: _ => deny_execution "execution_snapshot_missing_fields" "HIGH"
                        "workflow_source_drift" EmptyString
          | [] =>
              if negb (String.eqb (au_session authority) session_id)
              then deny "session_lineage_mismatch" "HIGH" "authority_drift"
              else
                let! continuity := activeContinuity (au_continuity authority) session decision_id in
                match continuity with
                | None => deny "invalid_continuity" "HIGH" "execution_drift"
                | Some _ =>
                    let! current := resolveCurrentContinuityIdentity session in
                    match current with
                    | None => deny "missing_continuity_identity" "CRITICAL" "execution_drift"
                    | Some (current_id, current_identity) =>
                        if negb (String.eqb current_identity (se_identity session))
                           || negb (String.eqb current_id (au_continuity authority))
                        then deny "continuity_identity_mismatch" "CRITICAL" "execution_drift"
                        else if negb (String.eqb (va_continuity validation) (au_continuity authority))
                        then deny_hash (au_id authority)
                        else if negb (String.eqb (va_delegated validation) (au_delegated authority))
                             || negb (String.eqb (va_replay_chain validation)
                                        (au_replay_chain authority))
                        then deny_hash (au_id authority)
                        else ret authority
                    end
                end
          end
  end.

(** The digest that names a validation. *)
Definition validation_digest (validation : ValidationRow) : string :=
  hashCanonical (JObj [("validation_id", JStr (va_id validation)); ("decision_id", JStr decision_id);
    ("validated_object_hash", JStr object_hash); ("invocation_nonce", JStr invocation_nonce)]).

(** Lines 8305-8328: not executed before; the compiled object is the validated
    one and names its compilation. *)
Definition execute_object (validation : ValidationRow) (authority : AuthorityRow) :
    eff CanonicalAEO :=
  let expected := validation_digest validation in
  match verifyLineageOrigin stage_execute decision_id object_hash "execute"
          (canonicalLineageHash stage_execute decision_id object_hash expected) expected expected with
  | Some reason => deny_execution reason "HIGH" "execution_drift" EmptyString
  | None =>
      let! replay := exec (select_execution_of decision_id object_hash) in
      match replay with
      | Some e => deny_replay "replay_detected" "replay_drift" (au_id authority) (ex_id e) EmptyString
      | None =>
          let! found := exec (select_compiled decision_id object_hash) in
          match found with
          | None => deny_hash (au_id authority)
          | Some compiled =>
              match stored_aeo (ao_canonical compiled) with
              | None => deny_hash (au_id authority)
              | Some aeo =>
                  if negb (String.eqb (aeo_hash aeo) object_hash)
                     || negb (String.eqb (aeo_hash aeo) (ao_hash compiled))
                  then deny_hash (au_id authority)
                  else if negb (is_empty_str (ao_projection_hash compiled))
                       && negb (String.eqb (ao_projection_hash compiled)
                                  (computeGovernProjectionHash (canonicalGovernProjectionFromAeo aeo)))
                  then deny_execute "projection_hash_drift" "HASH_MISMATCH" "HIGH" "hash_drift"
                         (au_id authority) EmptyString EmptyString
                  else if negb (String.eqb (va_hash validation) (aeo_hash aeo))
                  then deny_hash (au_id authority)
                  else if negb (String.eqb (ao_continuity compiled) (au_continuity authority))
                  then deny_execution "lineage_mismatch" "HIGH" "execution_drift" (au_id authority)
                  else if negb (String.eqb (ao_status compiled) "COMPILED")
                  then deny_execution "policy_invalid" "HIGH" "execution_drift" (au_id authority)
                  else
                    match verifyLineageOrigin stage_validate decision_id object_hash
                            (va_stage validation) (va_origin_hash validation)
                            (va_parent_hash validation) (aeo_hash aeo) with
                    | Some reason => deny_execution reason "HIGH" "execution_drift" EmptyString
                    | None => ret aeo
                    end
              end
          end
      end
  end.

(** A provenance refusal's event. *)
Definition provenance_event (drift : string) : string :=
  if String.eqb drift "workflow_source_drift" then "HASH_MISMATCH" else "VALIDATION_REJECTED".

Definition attestation_event (drift : string) : string :=
  if String.eqb drift "replay_drift" then "REPLAY_BLOCKED" else "VALIDATION_REJECTED".

Definition dsse_context (secret : string) (authority : AuthorityRow) (p : DeploymentProvenance)
    (aeo : CanonicalAEO) : DsseContext :=
  mkDsse decision_id object_hash (pv_workflow_run_id p) (pv_workflow_sha p) (aeo_hash aeo)
    (au_identity authority) secret.

(** Lines 8329-8344: delegation, provenance, attestation and workflow integrity. *)
Definition execute_provenance (secret : string) (b : jsval) (validation : ValidationRow)
    (authority : AuthorityRow) (aeo : CanonicalAEO) (p : DeploymentProvenance)
    (snapshot : ExecutionSnapshotInput) : eff unit :=
  let deny_drift {A} reason drift : eff A :=
    deny_execute reason "HASH_MISMATCH" "CRITICAL" drift (au_id authority) EmptyString EmptyString in
  let! delegated := validateDelegatedAuthorityLineage authority aeo in
  match delegated with
  | Some (reason, drift) =>
      deny_execute reason (delegated_event drift) "HIGH" drift (au_id authority) EmptyString
        EmptyString
  | None =>
      let! refused := validateDeploymentProvenance decision_id object_hash authority aeo p None in
      match refused with
      | Some (reason, drift) =>
          deny_execute reason (provenance_event drift) "HIGH" drift (au_id authority) EmptyString
            EmptyString
      | None =>
          let! attested := validateRequestProvenanceAttestation b
            (dsse_context secret authority p aeo) in
          match attested with
          | inr (reason, drift) =>
              deny_execute reason (attestation_event drift) "HIGH" drift (au_id authority)
                EmptyString EmptyString
          | inl _ =>
              if is_empty_str (va_workflow_hash validation)
              then deny_drift "workflow_integrity_drift" "workflow_source_drift"
              else if negb (String.eqb (sn_workflow_hash snapshot) (va_workflow_hash validation))
              then deny_drift "workflow_integrity_drift" "workflow_source_drift"
              else if negb (String.eqb (pv_source_tree_hash p) (sn_repository_tree_hash snapshot))
                   || negb (String.eqb (pv_workflow_sha p) (sn_workflow_hash snapshot))
              then deny_drift "execution_snapshot_hash_mismatch" "hash_drift"
              else ret tt
          end
      end
  end.

Definition execution_row (validation : ValidationRow) (authority : AuthorityRow)
    (p : DeploymentProvenance) (id now : string) : ExecutionRow :=
  let parent_hash := validation_digest validation in
  mkExecution id (au_session authority) decision_id object_hash invocation_nonce "EXECUTED" now
    (au_continuity authority) p (va_workflow_hash validation) (au_delegated authority)
    (au_replay_chain authority) (au_lineage_hash authority) (au_root_hash authority) parent_hash
    "execute" (canonicalLineageHash stage_execute decision_id object_hash parent_hash).

(** Lines 8345-8366: the execution is recorded, then its invocation, snapshot and
    authority are marked. *)
Definition execute_commit (validation : ValidationRow) (authority : AuthorityRow)
    (p : DeploymentProvenance) (snapshot : ExecutionSnapshotInput) : eff response :=
  let! execution_id := randomUUID in
  let! now := now_iso in
  let! written := exec (insert_execution (execution_row validation authority p execution_id now)) in
  match written with
  | None => deny_replay "replayed_provenance" "replay_drift" (au_id authority) execution_id EmptyString
  | Some 1 =>
      let! _ := exec (mark_invocation_executed decision_id object_hash invocation_nonce) in
      let! snapshot_id := randomUUID in
      let! snapshot_at := now_iso in
      let! _ := exec (insert_snapshot (mkSnapshotRow snapshot_id decision_id
        (au_continuity authority) (au_id authority) snapshot object_hash invocation_nonce "EXECUTED"
        execution_id None snapshot_at)) in
      let! _ := exec (mark_authority_executed decision_id) in
      let! _ := emitTelemetry "EXECUTION_COMPLETED" decision_id (au_id authority) execution_id
        EmptyString "INFO" in
      let! _ := emitInstallBaseTelemetryEvidence "governed_execution_completed" decision_id
        (au_id authority) execution_id EmptyString EmptyString "UNKNOWN" in
      let! _ := emitInstallBaseTelemetryEvidence "execution_surface_observed" decision_id
        (au_id authority) execution_id EmptyString EmptyString "UNKNOWN" in
      ret (json [("status", JStr "EXECUTED"); ("session_id", JStr session_id);
        ("execution_id", JStr execution_id)])
  | Some _ => deny_execution "revoked_continuity" "CRITICAL" "execution_drift" (au_id authority)
  end.

Definition execute_body (secret : string) (b : jsval) : eff response :=
  let p := deploymentProvenanceFrom b in
  let snapshot := executionSnapshotFrom b in
  let! _ := execute_admission b in
  let! found := execute_validation in
  let '(validation, session) := found in
  let! authority := execute_authority validation session snapshot in
  let! aeo := execute_object validation authority in
  let! _ := execute_provenance secret b validation authority aeo p snapshot in
  execute_commit validation authority p snapshot.
End Execute.

Definition execute_route (secret : string) (rq : request) : eff response :=
  let b := body rq in
  let! _ := admit_epoch b in
  execute_body (text (get b "decision_id")) (text (get b "validated_object_hash"))
    (text (get b "invocation_nonce")) (text (get b "session_id")) secret b.
End Worker.
