(* ===== verification/WorkerProof.v ===== *)
(** The last route of the lifecycle, [/proof] of [src/index.ts], and the router
    that chooses among the lifecycle routes. *)
From Stdlib Require Import ZArith NArith Lia Ascii.
From stdpp Require Import base list strings pretty.
From S2P Require Import Prelude JsValue Sha256 Canonical Effects WorkerValues.
From S2P Require Import WorkerTables WorkerSql WorkerLineage WorkerEvidence WorkerIssuance.
From S2P Require Import WorkerAuthority WorkerExecution.

Local Open Scope eff_scope.

Section Worker.
Context `{!Platform}.

(** * Earlier proofs of the same execution *)
Definition provenance_js (p : DeploymentProvenance) : list (string * jsval) :=
  map (λ kv, (kv.1, JStr kv.2)) (provenance_entries p).

Definition proofLineageMaterial (r : ProofRow) : jsval :=
  canonicalRecord (JObj ([("proof_id", JStr (pf_id r)); ("session_id", JStr (pf_session r));
    ("execution_id", JStr (pf_execution r)); ("decision_id", JStr (pf_decision r));
    ("validated_object_hash", JStr (pf_hash r)); ("surface", JStr (pf_surface r));
    ("run_id", JStr (pf_run_id r)); ("commit_sha", JStr (pf_commit_sha r));
    ("workflow", JStr (pf_workflow r)); ("environment", JStr (pf_environment r));
    ("created_at", JStr (pf_created_at r)); ("continuity_id", JStr (pf_continuity r));
    ("continuity_hash", JStr (pf_continuity_hash r)); ("identity_id", JStr (pf_identity r));
    ("authority_lineage", JStr (pf_authority_lineage r));
    ("execution_lineage", JStr (pf_execution_lineage r))] ++ provenance_js (pf_provenance r))).

(** [a.localeCompare(b)] as "not after", and its ties. *)
Definition lex_leb (a b : string) (next : bool) : bool :=
  if locale_leb a b && locale_leb b a then next else locale_leb a b.

Definition proof_leb (a b : ProofRow) : bool :=
  lex_leb (pf_created_at a) (pf_created_at b)
    (lex_leb (canonicalize (proofLineageMaterial a)) (canonicalize (proofLineageMaterial b))
       (locale_leb (pf_id a) (pf_id b))).

Definition sortProofLineageRows (rows : list ProofRow) : list ProofRow := sort_by proof_leb rows.

Definition proofExecutionLineageMatches (p : ProofRow) (e : ExecutionRow) : bool :=
  match json_parse (stored_json (pf_execution_lineage p)) with
  | None => false
  | Some lineage =>
      let says k v := String.eqb (text (get lineage k)) v in
      String.eqb (ex_status e) "EXECUTED" && negb (is_empty_str (ex_continuity e))
      && String.eqb (pf_continuity p) (ex_continuity e)
      && String.eqb (pf_execution p) (ex_id e) && String.eqb (pf_decision p) (ex_decision e)
      && String.eqb (pf_hash p) (ex_hash e)
      && says "execution_id" (ex_id e) && says "decision_id" (ex_decision e)
      && says "validated_object_hash" (ex_hash e) && says "execution_status" (ex_status e)
      && says "invocation_nonce" (ex_nonce e)
      && says "delegation_lineage_hash" (ex_lineage_hash e)
      && says "delegation_root_hash" (ex_root_hash e)
  end.

Inductive proof_resolution :=
  | ProofNone
  | ProofSelected (p : ProofRow)
  | ProofAmbiguous.

(** The resolution and the candidates. *)
Definition resolveCanonicalProofEvidence (rows : list ProofRow) (e : ExecutionRow) :
    proof_resolution * list ProofRow :=
  let candidates := sortProofLineageRows rows in
  (match candidates, List.filter (λ p, proofExecutionLineageMatches p e) candidates with
   | [], _ => ProofNone
   | [_], [p] => ProofSelected p
   | _, _ => ProofAmbiguous
   end, candidates).

(** * Lineage texts *)
Definition continuity_js (c : ContinuityRow) (canonical : jsval) : jsval :=
  JObj [("continuity_id", JStr (co_id c)); ("identity_id", JStr (co_identity c));
    ("session_id", JStr (co_session c)); ("parent_continuity_id", opt_str (co_parent c));
    ("continuity_hash", JStr (co_hash c)); ("canonical_continuity", JStr (co_canonical c));
    ("status", JStr (co_status c)); ("issued_at", JStr (co_issued_at c));
    ("expires_at", JStr (co_expires_at c)); ("revoked_at", opt_str (co_revoked_at c));
    ("canonical", canonical)].

Definition ancestry_js (l : list ancestor) : jsval :=
  JArr (map (λ a, continuity_js a.1 a.2) l).

Definition snapshot_row_js (r : SnapshotRow) : jsval :=
  JObj ([("snapshot_id", JStr (sp_id r)); ("decision_id", JStr (sp_decision r));
    ("continuity_id", JStr (sp_continuity r)); ("authority_id", JStr (sp_authority r))]
    ++ snapshot_js (sp_snapshot r)
    ++ [("validated_object_hash", JStr (sp_hash r)); ("invocation_nonce", JStr (sp_nonce r));
    ("status", JStr (sp_status r)); ("execution_id", JStr (sp_execution r));
    ("proof_id", opt_str (sp_proof r)); ("created_at", JStr (sp_created_at r))]).

Section Proof.
Context (execution_id decision_id object_hash invocation_nonce session_id : string).

Definition deny_proof {A} (reason event severity drift authority proof : string) : eff A :=
  deny_invalid reason event severity drift decision_id authority execution_id proof.

Definition deny_proof_lineage {A} (reason severity drift authority : string) : eff A :=
  deny_proof reason "VALIDATION_REJECTED" severity drift authority EmptyString.

(** Lines 8374-8385. *)
Definition proof_envelope (b : jsval) : eff (option (string * string * string)) :=
  let! required := requiresGovernEnvelopeLineage decision_id b in
  match required with
  | None => ret None
  | Some persisted =>
      let! lineage := resolveGovernEnvelopeLineage b
        (mkReasons "govern_ancestry_missing" "govern_ancestry_ambiguous"
           "govern_envelope_invalid_status" "govern_ancestry_hash_mismatch") persisted in
      match lineage with
      | inr reason => deny_proof_lineage reason "HIGH" "proof_drift" EmptyString
      | inl govern =>
          if is_empty_str persisted then ret (Some govern)
          else
            let! link := verifyGovernedToolEnvelopeLinkage decision_id "/proof" in
            match link with
            | inr reason =>
                deny_invalid reason "VALIDATION_REJECTED" "HIGH" "authority_drift" decision_id
                  EmptyString EmptyString EmptyString
            | inl _ => ret (Some govern)
            end
      end
  end.

(** Lines 8386-8411: the request itself, its partition, its fresh validation and
    its executed snapshot. *)
Definition proof_admission (b : jsval) : eff SnapshotRow :=
  if is_empty_str execution_id
  then deny_proof_lineage "missing_execution_id" "WARN" "proof_drift" EmptyString
  else if is_empty_str decision_id
  then deny_proof_lineage "missing_decision_id" "WARN" "proof_drift" EmptyString
  else if is_empty_str object_hash
  then deny_proof_lineage "missing_validated_object_hash" "WARN" "proof_drift" EmptyString
  else if is_empty_str invocation_nonce
  then deny_proof "missing_invocation_nonce" "REPLAY_BLOCKED" "HIGH" "replay_drift" EmptyString
         EmptyString
  else
    let! refused := partition_admission b in
    match refused with
    | Some reason => deny_proof_lineage reason "HIGH" "proof_drift" EmptyString
    | None =>
        let! early := exec (select_validation decision_id object_hash invocation_nonce) in
        let! now := exec now_ms in
        if match early with
           | Some v => negb (isFresh (va_created_at v) VALIDATION_FRESHNESS_WINDOW_MS now)
           | None => false
           end
        then deny_proof_lineage "stale_validation" "HIGH" "proof_drift" EmptyString
        else
          let! snapshot := exec (select_executed_snapshot execution_id decision_id object_hash
            invocation_nonce) in
          match snapshot with
          | None => deny_proof_lineage "missing_execution_snapshot" "CRITICAL" "proof_drift" EmptyString
          | Some snapshot => ret snapshot
          end
    end.

(** Lines 8433-8438: why there is no such execution. *)
Definition deny_missing_execution {A} : eff A :=
  let! found := exec (select_execution_by_id execution_id) in
  match found with
  | Some e =>
      if negb (String.eqb (ex_decision e) decision_id)
      then deny_proof_lineage "execution_decision_mismatch" "HIGH" "proof_drift" EmptyString
      else if negb (String.eqb (ex_hash e) object_hash)
      then deny_proof "execution_hash_mismatch" "HASH_MISMATCH" "HIGH" "proof_drift" EmptyString
             EmptyString
      else if negb (String.eqb (ex_nonce e) invocation_nonce)
      then deny_proof "invocation_lineage_mismatch" "REPLAY_BLOCKED" "HIGH" "replay_drift"
             EmptyString EmptyString
      else deny_proof_lineage "execution_missing" "HIGH" "proof_drift" EmptyString
  | None => deny_proof_lineage "execution_missing" "HIGH" "proof_drift" EmptyString
  end.

(** [Object.hasOwn(b, "continuity_id")] with a non-empty text. *)
Definition claims_continuity (b : jsval) (continuity : string) : bool :=
  has_own "continuity_id" b && negb (is_empty_str (text (get b "continuity_id")))
  && negb (String.eqb (text (get b "continuity_id")) continuity).

(** Lines 8419-8462: the four rows agree with each other and with the request. *)
Definition proof_rows (b : jsval) (created_at : string) :
    eff (ExecutionRow * SessionRow * AuthorityRow * ValidationRow) :=
  let! rows := exec (select_proof_reads execution_id decision_id object_hash invocation_nonce
    session_id created_at) in
  match rd_execution rows with
  | None => deny_missing_execution
  | Some execution =>
      match rd_session rows with
      | None => deny_proof_lineage "invalid_session" "HIGH" "proof_drift" EmptyString
      | Some session =>
          if negb (String.eqb (ex_session execution) session_id)
          then deny_proof_lineage "session_lineage_mismatch" "HIGH" "proof_drift" EmptyString
          else if claims_continuity b (ex_continuity execution)
          then deny_proof_lineage "continuity_lineage_mismatch" "HIGH" "proof_drift" EmptyString
          else if negb (String.eqb (ex_nonce execution) invocation_nonce)
          then deny_proof "invocation_lineage_mismatch" "REPLAY_BLOCKED" "HIGH" "replay_drift"
                 EmptyString EmptyString
          else
            match rd_authority rows with
            | None => deny_proof "authority_not_executed" "REPLAY_BLOCKED" "HIGH" "authority_drift"
                        EmptyString EmptyString
            | Some authority =>
                let deny {A} reason drift : eff A :=
                  deny_proof_lineage reason "HIGH" drift (au_id authority) in
                if negb (String.eqb (au_session authority) session_id)
                then deny "session_lineage_mismatch" "authority_drift"
                else if negb (String.eqb (au_continuity authority) (ex_continuity execution))
                then deny "continuity_lineage_mismatch" "proof_drift"
                else
                  match rd_validation rows with
                  | None => deny "continuity_lineage_mismatch" "proof_drift"
                  | Some validation =>
                      let! now := exec now_ms in
                      if negb (String.eqb (va_continuity validation) (ex_continuity execution))
                      then deny "continuity_lineage_mismatch" "proof_drift"
                      else if negb (isFresh (va_created_at validation)
                                      VALIDATION_FRESHNESS_WINDOW_MS now)
                      then deny "stale_validation" "proof_drift"
                      else if negb (isFresh (ex_created_at execution) PROOF_FRESHNESS_WINDOW_MS now)
                      then deny "proof_freshness_expired" "proof_drift"
                      else if negb (String.eqb (ex_hash execution) object_hash)
                           || negb (String.eqb (va_hash validation) object_hash)
                      then deny_proof "hash_mismatch" "HASH_MISMATCH" "CRITICAL" "hash_drift"
                             EmptyString EmptyString
                      else
                        match verifyLineageOrigin stage_execute decision_id object_hash
                                (ex_stage execution) (ex_origin_hash execution)
                                (ex_parent_hash execution)
                                (validation_digest decision_id object_hash invocation_nonce validation)
                        with
                        | Some reason => deny_proof_lineage reason "HIGH" "proof_drift" EmptyString
                        | None =>
                            if negb (String.eqb (au_status authority) "EXECUTED")
                            then deny_proof "authority_not_executed" "REPLAY_BLOCKED" "HIGH"
                                   "authority_drift" (au_id authority) EmptyString
                            else ret (execution, session, authority, validation)
                        end
                  end
            end
      end
  end.

(** Lines 8463-8481: the continuity lives and there is no earlier proof. The
    constant replay evidence is left out of the answer. *)
Definition proof_uniqueness (execution : ExecutionRow) (authority : AuthorityRow) : eff unit :=
  let! revoked := continuityIsRevokedOrAmbiguous (ex_continuity execution) in
  if revoked : bool
  then deny_proof_lineage "revoked_continuity" "CRITICAL" "proof_drift" (au_id authority)
  else
    let! existing := exec (select_existing_proofs (proof_decision_hash decision_id object_hash)
      execution_id decision_id object_hash invocation_nonce) in
    match resolveCanonicalProofEvidence existing execution with
    | (ProofAmbiguous, _) =>
        deny_proof "proof_lineage_ambiguous" "REPLAY_BLOCKED" "CRITICAL" "proof_lineage_drift"
          EmptyString EmptyString
    | (ProofSelected p, _) =>
        let! _ := emitTelemetry "REPLAY_BLOCKED" decision_id EmptyString execution_id (pf_id p)
          "HIGH" in
        let! _ := recordDrift "replay_drift" "HIGH" decision_id execution_id in
        answer (json [("status", JStr "NULL"); ("result", JStr "INVALID");
          ("reason", JStr "proof_replay"); ("proof_id", JStr (pf_id p))])
    | (ProofNone, _) => ret tt
    end.

(** Lines 8482-8494: the continuity is alive and current. *)
Definition proof_continuity (execution : ExecutionRow) (session : SessionRow)
    (authority : AuthorityRow) : eff (list ancestor) :=
  let deny {A} reason severity : eff A :=
    deny_proof_lineage reason severity "proof_drift" (au_id authority) in
  let! continuity := activeContinuity (ex_continuity execution) session decision_id in
  match continuity with
  | None => deny "invalid_continuity" "HIGH"
  | Some (_, ancestry) =>
      let! current := resolveCurrentContinuityIdentity session in
      match current with
      | None => deny "missing_continuity_identity" "CRITICAL"
      | Some (current_id, current_identity) =>
          if negb (String.eqb current_identity (se_identity session))
             || negb (String.eqb current_id (ex_continuity execution))
          then deny "continuity_identity_mismatch" "CRITICAL"
          else ret ancestry
      end
  end.

(** Lines 8486-8490: the compiled object still has the hash. *)
Definition proof_compiled (authority : AuthorityRow) : eff (AeoRow * CanonicalAEO) :=
  let deny {A} : eff A :=
    deny_proof "hash_mismatch" "HASH_MISMATCH" "HIGH" "hash_drift" (au_id authority) EmptyString in
  let! found := exec (select_compiled decision_id object_hash) in
  match found with
  | None => deny
  | Some compiled =>
      match stored_aeo (ao_canonical compiled) with
      | None => deny
      | Some aeo =>
          if negb (String.eqb (aeo_hash aeo) object_hash)
             || negb (String.eqb (aeo_hash aeo) (ao_hash compiled))
          then deny else ret (compiled, aeo)
      end
  end.

(** Lines 8491-8505: delegation (a replay of this very execution aside),
    provenance and attestation. *)
Definition proof_provenance (secret : string) (b : jsval) (execution : ExecutionRow)
    (authority : AuthorityRow) (aeo : CanonicalAEO) (p : DeploymentProvenance) :
    eff (option ValidatedDsse) :=
  let deny {A} reason event drift : eff A :=
    deny_proof reason event "HIGH" drift (au_id authority) EmptyString in
  let! delegated := validateDelegatedAuthorityLineage authority aeo in
  let! _ := (match delegated with
    | Some (reason, drift) =>
        if String.eqb reason "replayed_delegated_authority" then ret tt
        else deny reason "VALIDATION_REJECTED" drift
    | None => ret tt
    end) in
  let! refused := validateDeploymentProvenance decision_id object_hash authority aeo p
    (Some execution) in
  match refused with
  | Some (reason, drift) => deny reason (provenance_event drift) drift
  | None =>
      let! attested := validateRequestProvenanceAttestation b
        (dsse_context decision_id object_hash secret authority p aeo) in
      match attested with
      | inr (reason, drift) => deny reason (attestation_event drift) drift
      | inl found => ret found
      end
  end.

(** Lines 8507-8556: the two lineage texts. *)
Definition lineage_common (authority : AuthorityRow) (execution : ExecutionRow)
    (ancestry : list ancestor) (p : DeploymentProvenance) : list (string * jsval) :=
  [("identity_id", JStr (au_identity authority)); ("session_id", JStr session_id);
   ("continuity_id", JStr (ex_continuity execution));
   ("continuity_ancestry", ancestry_js ancestry); ("authority_id", JStr (au_id authority));
   ("decision_id", JStr decision_id); ("validated_object_hash", JStr object_hash)]
  ++ provenance_js p.

Definition authority_lineage_text (authority : AuthorityRow) (execution : ExecutionRow)
    (validation : ValidationRow) (ancestry : list ancestor) (p : DeploymentProvenance)
    (govern : option (string * string * string)) : string :=
  canonicalize (JObj (lineage_common authority execution ancestry p
    ++ [("validation_id", JStr (va_id validation)); ("validation_status", JStr (va_status validation));
    ("delegated_authority_id", JStr (au_delegated authority));
    ("parent_authority_id", JStr (au_parent authority));
    ("delegation_lineage_hash", JStr (au_lineage_hash authority));
    ("delegation_root_hash", JStr (au_root_hash authority));
    ("delegated_replay_chain_hash", JStr (au_replay_chain authority));
    ("govern_envelope_id", JStr (match govern with Some (i, _, _) => i | None => EmptyString end));
    ("govern_envelope_hash",
       JStr (match govern with Some (_, h, _) => h | None => EmptyString end))])).

Definition execution_lineage_text (authority : AuthorityRow) (execution : ExecutionRow)
    (compiled : AeoRow) (ancestry : list ancestor) (p : DeploymentProvenance) : string :=
  canonicalize (JObj (lineage_common authority execution ancestry p
    ++ [("govern_projection_hash", JStr (ao_projection_hash compiled));
    ("execution_id", JStr execution_id); ("invocation_nonce", JStr (ex_nonce execution));
    ("execution_status", JStr (ex_status execution));
    ("delegated_authority_id", JStr (ex_delegated execution));
    ("delegation_lineage_hash", JStr (ex_lineage_hash execution));
    ("delegation_root_hash", JStr (ex_root_hash execution));
    ("delegated_replay_chain_hash", JStr (ex_replay_chain execution))])).

Definition execution_digest (nonce : string) : string :=
  hashCanonical (JObj [("execution_id", JStr execution_id); ("decision_id", JStr decision_id);
    ("validated_object_hash", JStr object_hash); ("invocation_nonce", JStr nonce)]).

Definition execution_closure_hash (snapshot : SnapshotRow) : string :=
  hashCanonical (JObj [("execution_id", JStr execution_id); ("decision_id", JStr decision_id);
    ("validated_object_hash", JStr object_hash); ("invocation_nonce", JStr invocation_nonce);
    ("execution_snapshot_hash", JStr (hashCanonical (snapshot_row_js snapshot)));
    ("workflow_identity", JStr (sn_workflow_identity (sp_snapshot snapshot)))]).

Definition outbox_payload (proof_id closure_hash : string) : string :=
  canonicalize (JObj [("proof_id", JStr proof_id); ("decision_id", JStr decision_id);
    ("execution_id", JStr execution_id); ("validated_object_hash", JStr object_hash);
    ("invocation_nonce", JStr invocation_nonce); ("route", JStr "/proof");
    ("lineage_stage", JStr "proof"); ("execution_closure_hash", JStr closure_hash)]).

Definition attestation_row (id now : string) (authority : AuthorityRow) (p : DeploymentProvenance)
    (aeo : CanonicalAEO) (v : ValidatedDsse) : AttestationRow :=
  mkAttestationRow id (vd_envelope_hash v) (vd_payload_hash v) PROVENANCE_PAYLOAD_TYPE
    (au_identity authority) decision_id object_hash (pv_workflow_run_id p) (pv_workflow_sha p)
    (aeo_hash aeo) (vd_log_id v) (vd_integrated_time v) "VALIDATED" now.

(** The workflow hash is the one that was validated and executed. *)
Definition workflow_drifts (snapshot : SnapshotRow) (validation : ValidationRow)
    (execution : ExecutionRow) : bool :=
  let hash := sn_workflow_hash (sp_snapshot snapshot) in
  is_empty_str (va_workflow_hash validation) || is_empty_str (ex_workflow_integrity execution)
  || negb (String.eqb hash (va_workflow_hash validation))
  || negb (String.eqb hash (ex_workflow_integrity execution)).

Definition proven_answer (proof_id : string) (authority : AuthorityRow) (execution : ExecutionRow)
    (p : DeploymentProvenance) : response :=
  json [("status", JStr "PROVEN"); ("result", JStr "OK"); ("proof_id", JStr proof_id);
    ("proof", JObj ([("proof_id", JStr proof_id); ("identity_id", JStr (au_identity authority));
       ("session_id", JStr session_id); ("continuity_id", JStr (au_continuity authority));
       ("execution_id", JStr execution_id); ("decision_id", JStr decision_id);
       ("validated_object_hash", JStr object_hash)] ++ provenance_js p))].

(** Lines 8560-8591: the proof, the consumption of the authority and the outbox
    row in one transaction, and what its counts mean. *)
Definition proof_commit_step (pc : proof_commit) (authority : AuthorityRow)
    (execution : ExecutionRow) : eff response :=
  let proof_id := pc_proof pc in
  let! counts := exec (commit_proof pc) in
  let replay {A} : eff A :=
    deny_proof "proof_replay" "REPLAY_BLOCKED" "HIGH" "replay_drift" EmptyString proof_id in
  match counts with
  | None => replay
  | Some (inserted, consumed, queued) =>
      if Nat.eqb inserted 0 then replay
      else
        let! _ := exec (mark_snapshot_proven execution_id proof_id) in
        if negb (Nat.eqb inserted 1) || negb (Nat.eqb consumed 1)
        then deny_proof "authority_consumption_failed" "VALIDATION_REJECTED" "CRITICAL"
               "authority_drift" (au_id authority) proof_id
        else if negb (Nat.eqb queued 1)
        then deny_proof "proof_outbox_enqueue_failed" "VALIDATION_REJECTED" "CRITICAL"
               "proof_drift" EmptyString proof_id
        else
          let! _ := emitTelemetry "PROOF_PERSISTED" decision_id (au_id authority) execution_id
            proof_id "INFO" in
          let! _ := emitInstallBaseTelemetryEvidence "proof_generated" decision_id (au_id authority)
            execution_id proof_id EmptyString "UNKNOWN" in
          let! _ := emitTelemetry "AUTHORITY_CONSUMED" decision_id (au_id authority) execution_id
            proof_id "INFO" in
          ret (proven_answer proof_id authority execution (pc_provenance pc))
  end.

(** The whole handler, once the request is admitted. *)
Definition proof_body (secret : string) (b : jsval) : eff response :=
  let p := deploymentProvenanceFrom b in
  let! govern := proof_envelope b in
  let! _ := need_object b in
  let! snapshot := proof_admission b in
  let! proof_id := randomUUID in
  let! created_at := now_iso in
  let! rows := proof_rows b created_at in
  let '(execution, session, authority, validation) := rows in
  let! _ := proof_uniqueness execution authority in
  let! ancestry := proof_continuity execution session authority in
  let! object := proof_compiled authority in
  let '(compiled, aeo) := object in
  let! attested := proof_provenance secret b execution authority aeo p in
  let parent_hash := execution_digest (ex_nonce execution) in
  let origin_hash := canonicalLineageHash stage_proof decision_id object_hash parent_hash in
  if workflow_drifts snapshot validation execution
  then deny_proof "workflow_integrity_drift" "HASH_MISMATCH" "CRITICAL" "workflow_source_drift"
         EmptyString EmptyString
  else
    match verifyLineageOrigin stage_proof decision_id object_hash "proof" origin_hash parent_hash
            parent_hash with
    | Some reason => deny_proof_lineage reason "HIGH" "proof_drift" EmptyString
    | None =>
        let! outbox_id := randomUUID in
        let! attestation :=
          (match attested with
           | None => ret None
           | Some v =>
               let! id := randomUUID in
               ret (Some (attestation_row id created_at authority p aeo v))
           end) in
        proof_commit_step (mkCommit proof_id session_id execution_id decision_id object_hash
          invocation_nonce (ex_continuity execution) (proof_decision_hash decision_id object_hash)
          (authority_lineage_text authority execution validation ancestry p govern)
          (execution_lineage_text authority execution compiled ancestry p)
          (text (get b "surface")) (to_string (js_or (get b "workflow") (JStr GOVERNED_WORKFLOW)))
          (text (get b "environment")) created_at p (ex_workflow_integrity execution) parent_hash
          origin_hash outbox_id
          (outbox_payload proof_id (execution_closure_hash snapshot)) attestation)
          authority execution
    end.
End Proof.

Definition proof_route (secret : string) (rq : request) : eff response :=
  let b := body rq in
  let! _ := need_object b in
  proof_body (text (get b "execution_id")) (text (get b "decision_id"))
    (text (get b "validated_object_hash")) (text (get b "invocation_nonce"))
    (text (get b "session_id")) secret b.

(** * The router *)
Inductive route :=
  | R_session | R_continuity | R_govern | R_authority | R_preo | R_compile | R_validate
  | R_execute | R_proof.

Definition handler (secret : string) (r : route) (rq : request) : eff response :=
  match r with
  | R_session => session_route rq
  | R_continuity => continuity_route rq
  | R_govern => govern_route rq
  | R_authority => authority_route rq
  | R_preo => preo_route rq
  | R_compile => compile_route rq
  | R_validate => validate_route rq
  | R_execute => execute_route secret rq
  | R_proof => proof_route secret rq
  end.

Definition runtime_exception : response :=
  mkResponse 500 (JObj [("status", JStr "NULL"); ("reason", JStr "runtime_exception")]).

Definition unauthorized : response :=
  mkResponse 403 (JObj [("status", JStr "NULL"); ("reason", JStr "unauthorized")]).

(** The part of [fetch] around a handler: the key, the early answers, and the
    [catch] of any exception. *)
Definition authorized (api_key : string) (rq : request) : bool :=
  negb (is_empty_str api_key) && String.eqb (rq_header rq "X-API-Key") api_key.

Definition serve (api_key secret : string) (r : route) (rq : request) : prog sql response :=
  if negb (authorized api_key rq) then Ret unauthorized
  else
    bind (handler secret r rq) (λ o,
      Ret (match o with Go a => a | Answer a => a | Throws => runtime_exception end)).
End Worker.
