(* ===== verification/WorkerInvariant.v ===== *)
(** What the worker's tables always satisfy, and how they may change.

    [lawful_world] is the invariant of the tables; [grows] is what any statement
    of any request may do to them: rows are never removed, what a row is about
    never changes, and a continuity that has ended has no further execution or
    proof. *)
From Stdlib Require Import ZArith NArith Lia Ascii.
From stdpp Require Import base list strings pretty.
From S2P Require Import Prelude JsValue Sha256 Canonical Effects WorkerValues WorkerTables.
From S2P Require Import WorkerSql WorkerLineage WorkerEvidence WorkerIssuance WorkerAuthority.
From S2P Require Import WorkerExecution WorkerProof.

(** * What a row is about *)
Definition session_key (r : SessionRow) := (se_id r, se_identity r, se_expires_at r).

Definition continuity_key (c : ContinuityRow) :=
  (co_id c, co_identity c, co_session c, co_parent c, co_hash c, co_canonical c, co_expires_at c).

Definition authority_key (a : AuthorityRow) :=
  (au_id a, au_decision a, au_identity a, au_session a, au_continuity a, au_scope a,
   au_constraints a, au_expiry a, au_intent a).

Definition validation_key (v : ValidationRow) :=
  (va_id v, va_session v, va_continuity v, va_decision v, va_hash v, va_nonce v, va_created_at v,
   va_stage v, va_parent_hash v, va_origin_hash v).

Definition invocation_key (i : InvocationRow) := (in_decision i, in_hash i, in_nonce i, in_continuity i).

(** * Ended lineages *)
Definition ended (id : string) (s : world) : Prop :=
  ∃ c, c ∈ continuities s ∧ co_id c = id ∧ co_status c ≠ "ACTIVE".

Definition closed (id : string) (s : world) : Prop :=
  ∃ r, r ∈ sessions s ∧ se_id r = id ∧ se_status r ≠ "ACTIVE".

Definition runs_of (id : string) (s : world) : list ExecutionRow :=
  List.filter (λ e, String.eqb (ex_continuity e) id) (executions s).

Definition proofs_of (id : string) (s : world) : list ProofRow :=
  List.filter (λ p, String.eqb (pf_continuity p) id) (proofs s).

Definition session_proofs (id : string) (s : world) : list ProofRow :=
  List.filter (λ p, String.eqb (pf_session p) id) (proofs s).

(** * Change *)
Record grows (s s' : world) : Prop := mkGrows {
  g_sessions : map session_key (sessions s) `prefix_of` map session_key (sessions s');
  g_continuities : map continuity_key (continuities s) `prefix_of` map continuity_key (continuities s');
  g_authorities : map authority_key (authorities s) `prefix_of` map authority_key (authorities s');
  g_aeos : aeos s `prefix_of` aeos s';
  g_ataos : ataos s `prefix_of` ataos s';
  g_validations : map validation_key (validations s) `prefix_of` map validation_key (validations s');
  g_invocations : map invocation_key (invocations s) `prefix_of` map invocation_key (invocations s');
  g_executions : executions s `prefix_of` executions s';
  g_proofs : proofs s `prefix_of` proofs s';
  g_outbox : outbox s `prefix_of` outbox s';
  g_preos : preos s `prefix_of` preos s';
  g_govern_nonces : govern_nonces s `prefix_of` govern_nonces s';
  g_govern_envelopes : govern_envelopes s `prefix_of` govern_envelopes s';
  g_ended : ∀ id, ended id s → ended id s' ∧ runs_of id s' = runs_of id s ∧ proofs_of id s' = proofs_of id s;
  g_closed : ∀ id, closed id s → closed id s' ∧ session_proofs id s' = session_proofs id s;
  g_clock : (clock s <= clock s')%Z
}.

#[export] Instance grows_preorder : PreOrder grows.
Proof.
  split.
  - intros s. split; auto; reflexivity || lia.
  - intros s1 s2 s3 H1 H2. destruct H1, H2. split; try (etrans; eassumption).
    + intros id Hid. destruct (g_ended0 id Hid) as (H & E1 & E2). destruct (g_ended1 id H) as (? & -> & ->). auto.
    + intros id Hid. destruct (g_closed0 id Hid) as (H & E1). destruct (g_closed1 id H) as (? & ->).
      auto.
Qed.

(** * Lineages of continuities *)

(** [n] rows from [id] up to a root. *)
Inductive depth_in (cs : list ContinuityRow) : string → nat → Prop :=
  | depth_root c : c ∈ cs → row_parent c = EmptyString → depth_in cs (co_id c) 1
  | depth_child c n :
      c ∈ cs → row_parent c ≠ EmptyString → depth_in cs (row_parent c) n →
      depth_in cs (co_id c) (S n).

Section Worker.
Context {platform : Platform}.

Definition row_scope (c : ContinuityRow) : jsval :=
  match json_parse (stored_json (co_canonical c)) with
  | Some v => if is_record (get v "scope") then canonicalRecord (get v "scope") else JObj []
  | None => JObj []
  end.

(** A child is of its parent's session and identity, and not wider. *)
Definition inherits (parent child : ContinuityRow) : Prop :=
  co_session child = co_session parent ∧ co_identity child = co_identity parent
  ∧ scope_entries_within (row_scope parent) (props (row_scope child)) = true.

(** A parent was there before its child. *)
Definition placed (cs : list ContinuityRow) : Prop :=
  ∀ j c id, cs !! j = Some c → co_parent c = Some id →
    ∃ i p, (i < j)%nat ∧ cs !! i = Some p ∧ co_id p = id ∧ inherits p c.

Definition shallow (cs : list ContinuityRow) : Prop :=
  ∀ c, c ∈ cs → ∃ n, (n <= SYSTEM_MAX_CONTINUITY_DEPTH)%nat ∧ depth_in cs (co_id c) n.

(** * Grounds *)

(** The object whose digest a validation names was compiled for its decision, in
    its continuity, and that is one. *)
Definition compiled_for (decision hash continuity : string) (s : world) : Prop :=
  ∃ o aeo, o ∈ aeos s ∧ ao_decision o = decision ∧ ao_hash o = hash
    ∧ stored_aeo (ao_canonical o) = Some aeo ∧ ao_canonical o = canonicalize (aeo_js aeo)
    ∧ aeo_hash aeo = hash ∧ ao_continuity o = continuity ∧ continuity ≠ EmptyString.

Definition validated (e : ExecutionRow) (s : world) : Prop :=
  ∃ v, v ∈ validations s ∧ va_decision v = ex_decision e ∧ va_hash v = ex_hash e
    ∧ va_nonce v = ex_nonce e ∧ va_session v = ex_session e ∧ va_continuity v = ex_continuity e.

Definition invoked (e : ExecutionRow) (s : world) : Prop :=
  ∃ i, i ∈ invocations s ∧ in_decision i = ex_decision e ∧ in_hash i = ex_hash e
    ∧ in_nonce i = ex_nonce e ∧ in_continuity i = ex_continuity e.

Definition authorized_by (e : ExecutionRow) (s : world) : Prop :=
  ∃ a, a ∈ authorities s ∧ au_decision a = ex_decision e ∧ au_session a = ex_session e
    ∧ au_continuity a = ex_continuity e.

Definition continued (e : ExecutionRow) (s : world) : Prop :=
  ∃ c, c ∈ continuities s ∧ co_id c = ex_continuity e.

Definition executed (p : ProofRow) (s : world) : Prop :=
  ∃ e, e ∈ executions s ∧ ex_id e = pf_execution p ∧ ex_decision e = pf_decision p
    ∧ ex_hash e = pf_hash p ∧ ex_session e = pf_session p ∧ ex_continuity e = pf_continuity p.

(** ** What single rows say *)
Definition has_session (id : string) (s : world) : Prop := ∃ r, r ∈ sessions s ∧ se_id r = id.

(** Compiled for the authority it names, of that authority's decision. *)
Definition object_ok (o : AeoRow) (s : world) : Prop :=
  (∃ a, a ∈ authorities s ∧ au_id a = ao_authority o ∧ au_decision a = ao_decision o)
  ∧ ao_status o = "COMPILED" ∧ ao_canonical o ≠ EmptyString.

Definition rooted (c : ContinuityRow) (s : world) : Prop :=
  has_session (co_session c) s ∧ co_hash c ≠ EmptyString.

Definition evidenced (c : ContinuityRow) : Prop := co_status c = "REVOKED" → co_revoked_at c ≠ None.

Definition proof_ok (p : ProofRow) (s : world) : Prop :=
  has_session (pf_session p) s
  ∧ pf_decision_hash p = proof_decision_hash (pf_decision p) (pf_hash p).

(** A validation's origin is the text of its own columns. *)
Definition origin_ok (v : ValidationRow) : Prop :=
  va_origin_hash v
  = canonicalLineageHash stage_validate (va_decision v) (va_hash v) (va_parent_hash v).

(** An execution's parent is a digest, and its origin the text of its own columns. *)
Definition run_ok (e : ExecutionRow) : Prop :=
  ex_status e = "EXECUTED" ∧ (∃ x, ex_parent_hash e = hashCanonical x)
  ∧ ex_origin_hash e = canonicalLineageHash stage_execute (ex_decision e) (ex_hash e) (ex_parent_hash e).

Definition proof_run (p : ProofRow) : string := pv_workflow_run_id (pf_provenance p).

Record sealed (s : world) : Prop := mkSealed {
  k_authority_ids : NoDup (map au_id (authorities s));
  k_objects : ∀ o, o ∈ aeos s → object_ok o s;
  k_rooted : ∀ c, c ∈ continuities s → rooted c s;
  k_evidence : ∀ c, c ∈ continuities s → evidenced c;
  k_origins : ∀ v, v ∈ validations s → origin_ok v;
  k_runs : ∀ e, e ∈ executions s → run_ok e;
  k_proofs : ∀ p, p ∈ proofs s → proof_ok p s;
  k_proof_runs : NoDup (map proof_run (proofs s))
}.

(** * Invariant *)
Record lawful_world (s : world) : Prop := mkLawful {
  i_continuity_ids : NoDup (map co_id (continuities s));
  i_session_ids : NoDup (map se_id (sessions s));
  i_decisions : NoDup (map au_decision (authorities s));
  i_placed : placed (continuities s);
  i_shallow : shallow (continuities s);
  i_validations : ∀ v, v ∈ validations s →
    compiled_for (va_decision v) (va_hash v) (va_continuity v) s;
  i_executions : ∀ e, e ∈ executions s →
    validated e s ∧ invoked e s ∧ authorized_by e s ∧ continued e s;
  i_proofs : ∀ p, p ∈ proofs s → executed p s;
  i_one_run : NoDup (map (λ e, (ex_decision e, ex_hash e)) (executions s));
  i_workflow_runs : NoDup (map (λ e, pv_workflow_run_id (ex_provenance e)) (executions s));
  i_one_proof : NoDup (map (λ p, (pf_decision p, pf_hash p)) (proofs s));
  i_sealed : sealed s
}.

Lemma empty_lawful now : lawful_world (empty_world now).
Proof.
  split; try apply NoDup_nil_2; simpl.
  - intros j c id E. by rewrite lookup_nil in E.
  - by intros c ?%elem_of_nil.
  - by intros c ?%elem_of_nil.
  - by intros c ?%elem_of_nil.
  - by intros c ?%elem_of_nil.
  - split; try apply NoDup_nil_2; by intros c ?%elem_of_nil.
Qed.

(** * Single steps *)
Definition advance (s s' : world) : Prop := lawful_world s' ∧ grows s s'.

(** A statement that keeps the invariant and changes only what may change. *)
Definition lawful (X : Type) (e : sql X) : Prop := ∀ s, lawful_world s → advance s (e s).1.

Lemma map_update {R K} (key : R → K) p f rows :
  (∀ r, key (f r) = key r) → map key (update p f rows) = map key rows.
Proof.
  intros Hf. unfold update. rewrite map_map. apply map_ext. intros r. by destruct (p r).
Qed.

Lemma elem_of_update {R} (p : R → bool) f rows r :
  r ∈ update p f rows → ∃ r0, r0 ∈ rows ∧ r = if p r0 then f r0 else r0.
Proof. intros (r0 & -> & Hr)%list_elem_of_fmap. eauto. Qed.

Lemma key_elem {R K} (key : R → K) rows rows' r :
  map key rows `prefix_of` map key rows' → r ∈ rows → ∃ r', r' ∈ rows' ∧ key r' = key r.
Proof.
  intros [ks E] Hr. assert (key r ∈ map key rows') as H.
  { rewrite E. apply elem_of_app. left. by apply list_elem_of_fmap_2. }
  apply list_elem_of_fmap in H as (r' & -> & ?). eauto.
Qed.

Lemma key_lookup {R K} (key : R → K) rows rows' j r :
  map key rows `prefix_of` map key rows' → rows !! j = Some r →
  ∃ r', rows' !! j = Some r' ∧ key r' = key r.
Proof.
  intros Hp Hr. assert (map key rows' !! j = Some (key r)) as H.
  { eapply prefix_lookup_Some; [|done]. rewrite list_lookup_fmap. by rewrite Hr. }
  rewrite list_lookup_fmap in H. destruct (rows' !! j) as [r'|]; simplify_eq/=. eauto.
Qed.

Lemma prefix_elem {R} (l k : list R) r : l `prefix_of` k → r ∈ l → r ∈ k.
Proof. intros [m ->] ?. apply elem_of_app. auto. Qed.

(** ** What grows keeps *)
Lemma compiled_for_grows d h c s s' :
  aeos s `prefix_of` aeos s' → compiled_for d h c s → compiled_for d h c s'.
Proof.
  intros Hg (o & aeo & Ho & H). exists o, aeo. split; [by eapply prefix_elem|done].
Qed.

Ltac follow_key Hg Hin :=
  let r' := fresh "r'" in let Hr' := fresh "Hr'" in let E := fresh "E" in
  destruct (key_elem _ _ _ _ Hg Hin) as (r' & Hr' & E); exists r';
  cbv [session_key continuity_key authority_key validation_key invocation_key] in E;
  split; [exact Hr'|]; simplify_eq; repeat split; congruence.

Lemma validated_grows e s s' : grows s s' → validated e s → validated e s'.
Proof. intros Hg (v & Hv & ? & ? & ? & ? & ?). follow_key (g_validations _ _ Hg) Hv. Qed.

Lemma invoked_grows e s s' : grows s s' → invoked e s → invoked e s'.
Proof. intros Hg (v & Hv & ? & ? & ? & ?). follow_key (g_invocations _ _ Hg) Hv. Qed.

Lemma authorized_grows e s s' : grows s s' → authorized_by e s → authorized_by e s'.
Proof. intros Hg (v & Hv & ? & ? & ?). follow_key (g_authorities _ _ Hg) Hv. Qed.

Lemma continued_grows e s s' : grows s s' → continued e s → continued e s'.
Proof. intros Hg (v & Hv & ?). follow_key (g_continuities _ _ Hg) Hv. Qed.

Lemma executed_grows p s s' : grows s s' → executed p s → executed p s'.
Proof. intros Hg (e & He & ?). exists e. split; [|done]. by eapply prefix_elem; [apply Hg|]. Qed.

Lemma has_session_grows id s s' : grows s s' → has_session id s → has_session id s'.
Proof. intros Hg (r & Hr & ?). follow_key (g_sessions _ _ Hg) Hr. Qed.

Lemma object_grows o s s' : grows s s' → object_ok o s → object_ok o s'.
Proof. intros Hg [(a & Ha & ? & ?) ?]. split; [|done]. follow_key (g_authorities _ _ Hg) Ha. Qed.

(** A step leaves the rows as they should be when the rows it adds are. *)
Lemma sealed_step s s' :
  sealed s → grows s s' →
  NoDup (map au_id (authorities s')) →
  (∀ o, o ∈ aeos s' → o ∈ aeos s ∨ object_ok o s') →
  (∀ c, c ∈ continuities s' →
     (∃ c0, c0 ∈ continuities s ∧ continuity_key c0 = continuity_key c) ∨ rooted c s') →
  (∀ c, c ∈ continuities s' → evidenced c) →
  (∀ v, v ∈ validations s' →
     (∃ v0, v0 ∈ validations s ∧ validation_key v0 = validation_key v) ∨ origin_ok v) →
  (∀ e, e ∈ executions s' → e ∈ executions s ∨ run_ok e) →
  (∀ p, p ∈ proofs s' → p ∈ proofs s ∨ proof_ok p s') →
  NoDup (map proof_run (proofs s')) →
  sealed s'.
Proof.
  intros Hs Hg Ha Ho Hc Hev Hv He Hp Hr. split; auto.
  - intros o [Hin|]%Ho; [|done]. eapply object_grows; [done|]. by apply Hs.
  - intros c [(c0 & Hin & E)|]%Hc; [|done]. destruct (k_rooted _ Hs c0 Hin) as [H1 H2].
    unfold continuity_key in E. injection E as _ _ E3 _ E5 _ _. split; [|congruence].
    rewrite <- E3. by eapply has_session_grows.
  - intros v [(v0 & Hin & E)|]%Hv; [|done]. pose proof (k_origins _ Hs v0 Hin) as H.
    unfold origin_ok, validation_key in *. injection E as _ _ _ <- <- _ _ _ <- <-. exact H.
  - intros e [Hin|]%He; [|done]. by apply Hs.
  - intros p [Hin|]%Hp; [|done]. destruct (k_proofs _ Hs p Hin) as [H1 H2].
    split; [by eapply has_session_grows|done].
Qed.

(** ** Lineages under growth *)
Lemma depth_in_grows cs cs' id n :
  map continuity_key cs `prefix_of` map continuity_key cs' → depth_in cs id n → depth_in cs' id n.
Proof.
  intros Hk. induction 1 as [c Hc Hp|c n Hc Hp _ IH];
    destruct (key_elem _ _ _ _ Hk Hc) as (c' & Hc' & E); unfold continuity_key in E;
    injection E as E1 _ _ E4 _ _ _; rewrite <- E1.
  - apply depth_root; [done|]. unfold row_parent in *. by rewrite E4.
  - assert (row_parent c' = row_parent c) as E by (unfold row_parent; by rewrite E4).
    apply depth_child; [done|congruence|]. by rewrite E.
Qed.

Lemma inherits_key p p' c c' :
  continuity_key p = continuity_key p' → continuity_key c = continuity_key c' →
  inherits p c → inherits p' c'.
Proof.
  unfold inherits, row_scope, continuity_key. intros E1 E2.
  injection E1 as _ -> -> _ _ -> _. by injection E2 as _ -> -> _ _ -> _.
Qed.

Lemma placed_keys cs cs' :
  map continuity_key cs = map continuity_key cs' → placed cs → placed cs'.
Proof.
  intros Hk Hp j c' id Hc' Hr.
  destruct (key_lookup continuity_key cs' cs j c') as (c & Hc & Ec); [by rewrite Hk|done|].
  destruct (Hp j c id Hc) as (i & p & Hi & Hpi & Hid & Hin).
  { unfold continuity_key in Ec. congruence. }
  destruct (key_lookup continuity_key cs cs' i p) as (p' & Hp' & Ep); [by rewrite Hk|done|].
  exists i, p'. split; [done|]. split; [done|]. split.
  - unfold continuity_key in Ep. congruence.
  - eapply inherits_key; [symmetry; exact Ep|exact Ec|done].
Qed.

Lemma shallow_keys cs cs' :
  map continuity_key cs = map continuity_key cs' → shallow cs → shallow cs'.
Proof.
  intros Hk Hs c' Hc'.
  destruct (key_elem continuity_key cs' cs c') as (c & Hc & Ec); [by rewrite Hk|done|].
  destruct (Hs c Hc) as (n & Hn & Hd). exists n. split; [done|].
  replace (co_id c') with (co_id c) by (unfold continuity_key in Ec; congruence).
  eapply depth_in_grows; [|done]. by rewrite Hk.
Qed.

(** ** A step table by table *)
Lemma advance_intro s s' :
  lawful_world s → grows s s' →
  NoDup (map co_id (continuities s')) → NoDup (map se_id (sessions s')) →
  NoDup (map au_decision (authorities s')) →
  placed (continuities s') → shallow (continuities s') →
  (∀ v, v ∈ validations s' →
     (∃ v0, v0 ∈ validations s ∧ validation_key v0 = validation_key v)
     ∨ compiled_for (va_decision v) (va_hash v) (va_continuity v) s') →
  (∀ e, e ∈ executions s' → e ∈ executions s ∨
     validated e s' ∧ invoked e s' ∧ authorized_by e s' ∧ continued e s') →
  (∀ p, p ∈ proofs s' → p ∈ proofs s ∨ executed p s') →
  NoDup (map (λ e, (ex_decision e, ex_hash e)) (executions s')) →
  NoDup (map (λ e, pv_workflow_run_id (ex_provenance e)) (executions s')) →
  NoDup (map (λ p, (pf_decision p, pf_hash p)) (proofs s')) →
  (grows s s' → sealed s') →
  advance s s'.
Proof.
  intros Hs Hg ????? Hv He Hp ????. split; [|done]. split; auto.
  - intros v [(v0 & Hv0 & E)|]%Hv; [|done].
    replace (va_decision v) with (va_decision v0) by (unfold validation_key in E; congruence).
    replace (va_hash v) with (va_hash v0) by (unfold validation_key in E; congruence).
    replace (va_continuity v) with (va_continuity v0) by (unfold validation_key in E; congruence).
    apply (compiled_for_grows _ _ _ s); [apply (g_aeos _ _ Hg)|]. by apply (i_validations _ Hs).
  - intros e [Hin|]%He; [|done]. destruct (i_executions _ Hs e Hin) as (? & ? & ? & ?).
    eauto 10 using validated_grows, invoked_grows, authorized_grows, continued_grows.
  - intros p [Hin|]%Hp; [|done]. eapply executed_grows; [done|]. by apply Hs.
Qed.

End Worker.

(** The fields of the invariant that a step leaves as they are. *)
Ltac unchanged Hs :=
  simpl; first [apply (i_continuity_ids _ Hs) | apply (i_session_ids _ Hs) | apply (i_decisions _ Hs)
    | apply (i_placed _ Hs) | apply (i_shallow _ Hs) | apply (i_one_run _ Hs)
    | apply (i_workflow_runs _ Hs) | apply (i_one_proof _ Hs) | by eauto].

(** The rows of the tables that a step leaves as they are. *)
Ltac still_sealed Hs := let Hg := fresh "Hg" in
  intros Hg; apply (sealed_step _ _ (i_sealed _ Hs) Hg); simpl;
  try first [apply (k_authority_ids _ (i_sealed _ Hs)) | apply (k_proof_runs _ (i_sealed _ Hs))
    | apply (k_evidence _ (i_sealed _ Hs)) | by eauto | by left | by intros ? ?; left; eexists].

Ltac step_of Hs :=
  apply advance_intro; try unchanged Hs; last (still_sealed Hs); split; simpl; auto; lia.

Section Worker.
Context {platform : Platform}.

Lemma advance_quiet s s' :
  lawful_world s →
  sessions s' = sessions s → continuities s' = continuities s → authorities s' = authorities s →
  aeos s' = aeos s → validations s' = validations s → invocations s' = invocations s →
  executions s' = executions s → proofs s' = proofs s → outbox s' = outbox s →
  ataos s `prefix_of` ataos s' → preos s `prefix_of` preos s' →
  govern_nonces s `prefix_of` govern_nonces s' →
  govern_envelopes s `prefix_of` govern_envelopes s' → (clock s <= clock s')%Z → advance s s'.
Proof.
  intros Hs E1 E2 E3 E4 E5 E6 E7 E8 E9 Ht Hp Hn He Hc.
  apply advance_intro; rewrite ?E1, ?E2, ?E3, ?E5, ?E7, ?E8; try unchanged Hs.
  2: { intros Hg. apply (sealed_step _ _ (i_sealed _ Hs) Hg);
    rewrite ?E2, ?E3, ?E4, ?E5, ?E7, ?E8; try apply (i_sealed _ Hs); eauto. }
  split; rewrite ?E1, ?E2, ?E3, ?E4, ?E5, ?E6, ?E7, ?E8, ?E9; auto;
    unfold ended, closed, runs_of, proofs_of, session_proofs; by rewrite ?E1, ?E2, ?E7, ?E8.
Qed.

Lemma advance_sessions s rows :
  lawful_world s → map session_key (sessions s) `prefix_of` map session_key rows →
  NoDup (map se_id rows) →
  (∀ id, closed id s → closed id (set_sessions rows s)) →
  advance s (set_sessions rows s).
Proof. intros Hs Hk Hd Hc. step_of Hs. Qed.

Lemma advance_continuities s rows :
  lawful_world s → map continuity_key (continuities s) `prefix_of` map continuity_key rows →
  NoDup (map co_id rows) → placed rows → shallow rows →
  (∀ id, ended id s → ended id (set_continuities rows s)) →
  (∀ c, c ∈ rows →
     (∃ c0, c0 ∈ continuities s ∧ continuity_key c0 = continuity_key c) ∨ rooted c s) →
  (∀ c, c ∈ rows → evidenced c) →
  advance s (set_continuities rows s).
Proof. intros Hs Hk ??? Hc ??. step_of Hs. Qed.

Lemma advance_authorities s rows :
  lawful_world s → map authority_key (authorities s) `prefix_of` map authority_key rows →
  NoDup (map au_decision rows) → NoDup (map au_id rows) → advance s (set_authorities rows s).
Proof. intros Hs Hk ??. step_of Hs. Qed.

Lemma advance_aeos s rows :
  lawful_world s → aeos s `prefix_of` rows →
  (∀ o, o ∈ rows → o ∈ aeos s ∨ object_ok o s) → advance s (set_aeos rows s).
Proof. intros Hs Hk ?. step_of Hs. Qed.

Lemma advance_validations s rows :
  lawful_world s → map validation_key (validations s) `prefix_of` map validation_key rows →
  (∀ v, v ∈ rows → (∃ v0, v0 ∈ validations s ∧ validation_key v0 = validation_key v)
     ∨ compiled_for (va_decision v) (va_hash v) (va_continuity v) s ∧ origin_ok v) →
  advance s (set_validations rows s).
Proof.
  intros Hs Hk Hv.
  assert (∀ v, v ∈ rows → (∃ v0, v0 ∈ validations s ∧ validation_key v0 = validation_key v)
     ∨ compiled_for (va_decision v) (va_hash v) (va_continuity v) s) as Hc by (intros v [?|[? _]]%Hv; auto).
  assert (∀ v, v ∈ rows → (∃ v0, v0 ∈ validations s ∧ validation_key v0 = validation_key v)
     ∨ origin_ok v) as Ho by (intros v [?|[_ ?]]%Hv; auto).
  step_of Hs.
Qed.

Lemma advance_invocations s rows :
  lawful_world s → map invocation_key (invocations s) `prefix_of` map invocation_key rows →
  advance s (set_invocations rows s).
Proof. intros Hs Hk. step_of Hs. Qed.

Lemma advance_outbox s rows :
  lawful_world s → outbox s `prefix_of` rows → advance s (set_outbox rows s).
Proof. intros Hs Hk. step_of Hs. Qed.
End Worker.
