(* ===== verification/WorkerLawful.v ===== *)
(** Every statement of the worker's lifecycle keeps the tables' invariant and
    only grows them. Two inserts ask for more, which their handlers check: a
    continuity's parent, and a validation's compiled object. *)
From Stdlib Require Import ZArith NArith Lia Ascii.
From stdpp Require Import base list strings pretty.
From S2P Require Import Prelude JsValue Sha256 Canonical Effects WorkerValues WorkerTables.
From S2P Require Import WorkerSql WorkerLineage WorkerEvidence WorkerIssuance WorkerAuthority.
From S2P Require Import WorkerExecution WorkerProof WorkerInvariant.

Create HintDb lawful.

(** * Tables *)
Lemma update_keys {R K} (key : R → K) p f rows :
  (∀ r, key (f r) = key r) → map key rows `prefix_of` map key (update p f rows).
Proof. intros Hf. by rewrite map_update. Qed.

Lemma update_elem {R} (p : R → bool) f rows r :
  r ∈ rows → (if p r then f r else r) ∈ update p f rows.
Proof. apply (list_elem_of_fmap_2 (λ r, if p r then f r else r)). Qed.

Lemma append_cases {R} (clash : R → R → bool) row rows :
  (append_unless clash row rows = (rows, false) ∧ ∃ r, r ∈ rows ∧ clash row r = true)
  ∨ (append_unless clash row rows = (rows ++ [row], true) ∧ ∀ r, r ∈ rows → clash row r = false).
Proof.
  unfold append_unless. destruct (existsb (clash row) rows) eqn:E; [left|right]; (split; [done|]).
  - apply existsb_exists in E as (r & Hr & Hc). exists r. by rewrite list_elem_of_In.
  - intros r Hr. destruct (clash row r) eqn:Hc; [|done].
    assert (existsb (clash row) rows = true) as H; [|congruence].
    apply existsb_exists. exists r. by rewrite <- list_elem_of_In.
Qed.

Lemma append_prefix {R} (clash : R → R → bool) row rows :
  rows `prefix_of` (append_unless clash row rows).1.
Proof.
  destruct (append_cases clash row rows) as [[-> _]|[-> _]]; simpl; [done|]. by eexists.
Qed.

Lemma append_keys {R K} (key : R → K) clash row rows :
  map key rows `prefix_of` map key (append_unless clash row rows).1.
Proof. destruct (append_prefix clash row rows) as [l ->]. rewrite map_app. by eexists. Qed.

Lemma append_elem {R} (clash : R → R → bool) row rows r :
  r ∈ (append_unless clash row rows).1 → r ∈ rows ∨ r = row.
Proof.
  destruct (append_cases clash row rows) as [[-> _]|[-> _]]; simpl; [auto|].
  rewrite elem_of_app, list_elem_of_singleton. auto.
Qed.

Lemma NoDup_snoc {A} (l : list A) x : x ∉ l → NoDup l → NoDup (l ++ [x]).
Proof.
  intros Hx Hl. apply NoDup_app. split; [done|]. split.
  - intros y Hy ->%list_elem_of_singleton. done.
  - apply NoDup_singleton.
Qed.

Lemma append_nodup {R K} (key : R → K) clash row rows :
  (∀ r, clash row r = false → key r ≠ key row) → NoDup (map key rows) →
  NoDup (map key (append_unless clash row rows).1).
Proof.
  intros Hk Hn. destruct (append_cases clash row rows) as [[-> _]|[-> Hf]]; simpl; [done|].
  rewrite map_app. apply NoDup_snoc; [|done].
  intros (r & E & Hr)%list_elem_of_fmap. by apply (Hk r); [apply Hf|].
Qed.

Lemma sql_eqb_false a b : sql_eqb a b = false → b ≠ a.
Proof. unfold sql_eqb. intros H ->. by rewrite String.eqb_refl in H. Qed.

Lemma sql_eqb_true a b : sql_eqb a b = true → a = b.
Proof. apply String.eqb_eq. Qed.

Ltac sql_facts := repeat match goal with
  | H : _ && _ = true |- _ => apply andb_true_iff in H as [? ?]
  | H : sql_eqb _ _ = true |- _ => apply sql_eqb_true in H
  | H : valid_for _ _ _ _ = true |- _ => unfold valid_for in H
  | H : same_invocation _ _ _ _ = true |- _ => unfold same_invocation in H
  end.

Section Worker.
Context {platform : Platform}.

(** Writing the result of [append_unless] back to its table. *)
Ltac appended := match goal with
  | |- context [let '(_, _) := append_unless ?c ?r ?l in _] =>
      let E := fresh "E" in
      pose proof (eq_refl (append_unless c r l).1) as E;
      destruct (append_unless c r l) as [rows ok] eqn:Happ; clear E; simpl;
      change rows with (rows, ok).1; rewrite <- Happ
  end.

Lemma lawful_select {A} (f : world → A) : lawful A (select f).
Proof. intros s Hs. by split. Qed.

Lemma lawful_tick ms : lawful unit (tick ms).
Proof. intros s Hs. apply advance_quiet; simpl; auto. lia. Qed.

Lemma lawful_log row : lawful unit (append_log row).
Proof. intros s Hs. by apply advance_quiet. Qed.

Lemma lawful_draw : lawful string draw.
Proof. intros s Hs. by apply advance_quiet. Qed.

Lemma lawful_insert_session row : lawful bool (insert_session row).
Proof.
  intros s Hs. unfold insert_session. appended. apply advance_sessions; [done|apply append_keys| |].
  - apply append_nodup; [|apply Hs]. intros r H. by apply sql_eqb_false in H.
  - intros id (r & Hr & H). exists r. split; [|done]. eapply prefix_elem; [apply append_prefix|done].
Qed.

Lemma lawful_expire_session id : lawful unit (expire_session id).
Proof.
  intros s Hs. apply advance_sessions; [done|by apply update_keys| |].
  - rewrite map_update by done. apply Hs.
  - intros i (r & Hr & Hi & Hst). eexists. split; [by apply update_elem|]. by destruct (_ && _).
Qed.

(** ** Continuities *)
Lemma advance_continuity_update s p f :
  (∀ c, continuity_key (f c) = continuity_key c) → (∀ c, co_status (f c) ≠ "ACTIVE") →
  (∀ c, evidenced (f c)) →
  lawful_world s → advance s (set_continuities (update p f (continuities s)) s).
Proof.
  intros Hk Hf He Hs.
  assert (map continuity_key (continuities s) = map continuity_key (update p f (continuities s)))
    as E by (by rewrite map_update).
  apply advance_continuities; [done|by rewrite E| | | | | |].
  - rewrite map_update; [apply Hs|]. intros c. specialize (Hk c). unfold continuity_key in Hk. congruence.
  - eapply placed_keys; [exact E|apply Hs].
  - eapply shallow_keys; [exact E|apply Hs].
  - intros i (c & Hc & Hi & Hst). eexists. split; [by apply update_elem|].
    specialize (Hk c). unfold continuity_key in Hk. destruct (p c); [|done].
    split; [congruence|apply Hf].
  - intros c (c0 & Hc & ->)%elem_of_update. left. exists c0. split; [done|]. by destruct (p c0).
  - intros c (c0 & Hc & ->)%elem_of_update. destruct (p c0); [done|].
    by apply (k_evidence _ (i_sealed _ Hs)).
Qed.

Lemma revoked_when_null_some now c : revoked_when_null now c ≠ None.
Proof. unfold revoked_when_null. by destruct (co_revoked_at c). Qed.

Lemma evidenced_status st now c :
  evidenced (with_continuity_status st (revoked_when_null now c) c).
Proof. intros _. apply revoked_when_null_some. Qed.

Lemma lawful_invalidate_continuities root status now :
  status ≠ "ACTIVE" → lawful unit (invalidate_continuities root status now).
Proof.
  intros Hst s Hs. apply advance_continuity_update; [done|done| |done]. intros. apply evidenced_status.
Qed.

Lemma lawful_revoke_session_continuities session now :
  lawful unit (revoke_session_continuities session now).
Proof.
  intros s Hs. apply advance_continuity_update; [done|done| |done]. intros. apply evidenced_status.
Qed.

(** What its handler checks before a continuity is inserted. *)
Definition may_insert (row : ContinuityRow) (s : world) : Prop :=
  rooted row s ∧ co_status row = "ACTIVE" ∧
  (co_parent row = None
  ∨ ∃ p n, p ∈ continuities s ∧ co_parent row = Some (co_id p) ∧ co_id p ≠ EmptyString
      ∧ inherits p row ∧ depth_in (continuities s) (co_id p) n ∧ (n < SYSTEM_MAX_CONTINUITY_DEPTH)%nat).

Lemma advance_insert_continuity row s :
  lawful_world s → may_insert row s → advance s (insert_continuity row s).1.
Proof.
  intros Hs (Hroot & Hact & Hrow). unfold insert_continuity.
  destruct (append_cases (λ a b, sql_eqb (co_id a) (co_id b) || sql_eqb (co_hash a) (co_hash b))
    row (continuities s)) as [[E _]|[E Hf]]; rewrite E; simpl.
  { by apply advance_quiet. }
  assert (map continuity_key (continuities s)
    `prefix_of` map continuity_key (continuities s ++ [row])) as Hk
    by (rewrite map_app; by eexists).
  apply advance_continuities; [done|done| | | | | |].
  - rewrite map_app. apply NoDup_snoc; [|apply Hs]. intros (c & Hc & Hin)%list_elem_of_fmap.
    apply Hf, orb_false_iff in Hin as [Hid%sql_eqb_false _]. done.
  - intros j c id Hj Hp. apply lookup_app_Some in Hj as [Hj|[Hlen Hj]].
    + destruct (i_placed _ Hs j c id Hj Hp) as (i & p & Hi & Hpi & ?).
      exists i, p. split; [done|]. split; [by apply lookup_app_l_Some|done].
    + apply list_lookup_singleton_Some in Hj as [Hj <-].
      destruct Hrow as [?|(p & n & Hin & Hid & _ & Hinh & _)]; [congruence|].
      apply list_elem_of_lookup_1 in Hin as [i Hi]. exists i, p.
      pose proof (lookup_lt_Some _ _ _ Hi). split; [lia|].
      split; [by apply lookup_app_l_Some|]. split; [congruence|done].
  - intros c [Hc| ->%list_elem_of_singleton]%elem_of_app.
    + destruct (i_shallow _ Hs c Hc) as (n & Hn & Hd). exists n. split; [done|].
      by eapply depth_in_grows.
    + assert (row ∈ continuities s ++ [row]) by (rewrite elem_of_app, list_elem_of_singleton; auto).
      destruct Hrow as [Hr|(p & n & Hin & Hid & Hne & Hinh & Hd & Hn)].
      * exists 1%nat. split; [unfold SYSTEM_MAX_CONTINUITY_DEPTH; lia|]. apply depth_root; [done|].
        unfold row_parent. by rewrite Hr.
      * assert (row_parent row = co_id p) as Hp by (unfold row_parent; by rewrite Hid).
        exists (S n). split; [lia|]. apply depth_child; [done|congruence|]. rewrite Hp.
        by eapply depth_in_grows.
  - intros id (c & Hc & H). exists c. split; [|done]. simpl. apply elem_of_app. auto.
  - intros c [Hc| ->%list_elem_of_singleton]%elem_of_app; [left; by exists c|by right].
  - intros c [Hc| ->%list_elem_of_singleton]%elem_of_app.
    + by apply (k_evidence _ (i_sealed _ Hs)).
    + intros E1. congruence.
Qed.

(** ** Authorities *)
Lemma lawful_insert_authority row : lawful bool (insert_authority row).
Proof.
  intros s Hs. unfold insert_authority. appended. apply advance_authorities; [done|apply append_keys| |].
  - apply append_nodup; [|apply Hs]. by intros r [_ H%sql_eqb_false]%orb_false_iff.
  - apply append_nodup; [|apply (i_sealed _ Hs)]. by intros r [H%sql_eqb_false _]%orb_false_iff.
Qed.

Lemma lawful_update_authorities p status : lawful unit (update_authorities p status).
Proof.
  intros s Hs. apply advance_authorities; [done|by apply update_keys| |];
    rewrite map_update by done; [apply Hs|apply (i_sealed _ Hs)].
Qed.

(** ** Objects, validations, invocations *)
Lemma advance_insert_aeo row s :
  lawful_world s → object_ok row s → advance s (insert_aeo row s).1.
Proof.
  intros Hs Ho. unfold insert_aeo. appended. apply advance_aeos; [done|apply append_prefix|].
  intros o [?| ->]%append_elem; [by left|by right].
Qed.

Lemma advance_insert_validation row s :
  lawful_world s → compiled_for (va_decision row) (va_hash row) (va_continuity row) s → origin_ok row →
  advance s (insert_validation row s).1.
Proof.
  intros Hs Hc Ho. unfold insert_validation. appended. apply advance_validations; [done|apply append_keys|].
  intros v [Hv| ->]%append_elem; [|by right]. left. by exists v.
Qed.

Lemma lawful_invalidate_validations p reason : lawful unit (invalidate_validations p reason).
Proof.
  intros s Hs. apply advance_validations; [done|by apply update_keys|].
  intros v (v0 & Hv0 & ->)%elem_of_update. left. exists v0. split; [done|]. by destruct (_ && _).
Qed.

Lemma lawful_insert_invocation row : lawful bool (insert_invocation row).
Proof. intros s Hs. unfold insert_invocation. appended. apply advance_invocations; [done|apply append_keys]. Qed.

Lemma lawful_revoke_invocations p : lawful unit (revoke_invocations p).
Proof. intros s Hs. apply advance_invocations; [done|by apply update_keys]. Qed.

Lemma lawful_mark_invocation d h n : lawful unit (mark_invocation_executed d h n).
Proof. intros s Hs. apply advance_invocations; [done|by apply update_keys]. Qed.

(** ** Executions *)
Lemma key_unique {R K} (key : R → K) rows a b :
  NoDup (map key rows) → a ∈ rows → b ∈ rows → key a = key b → a = b.
Proof.
  intros Hn [i Hi]%list_elem_of_lookup_1 [j Hj]%list_elem_of_lookup_1 E.
  assert (i = j) as <-; [|congruence].
  eapply (NoDup_lookup (map key rows) i j (key a)); [done| |];
    rewrite list_lookup_fmap; [by rewrite Hi|rewrite Hj; simpl; congruence].
Qed.

Lemma find_elem {R} (p : R → bool) rows r : List.find p rows = Some r → r ∈ rows ∧ p r = true.
Proof. intros [Hr Hp]%find_some. by rewrite list_elem_of_In. Qed.

(** An active continuity has not ended. *)
Lemma active_not_ended s c id :
  lawful_world s → c ∈ continuities s → co_id c = id → co_status c = "ACTIVE" → ¬ ended id s.
Proof.
  intros Hs Hc <- Hst (c' & Hc' & Hid & Hst'). assert (c' = c) as ->; [|done].
  eapply (key_unique co_id); [apply Hs|done..].
Qed.

Lemma active_not_closed s r id :
  lawful_world s → r ∈ sessions s → se_id r = id → se_status r = "ACTIVE" → ¬ closed id s.
Proof.
  intros Hs Hr <- Hst (r' & Hr' & Hid & Hst'). assert (r' = r) as ->; [|done].
  eapply (key_unique se_id); [apply Hs|done..].
Qed.

Lemma may_execute_grounds now row s :
  may_execute now row s = true →
  validated row s ∧ invoked row s ∧ authorized_by row s
  ∧ ∃ c, c ∈ continuities s ∧ co_id c = ex_continuity row ∧ co_status c = "ACTIVE".
Proof.
  unfold may_execute. intros [[[Hc Ha]%andb_true_iff Hv]%andb_true_iff Hi]%andb_true_iff.
  apply existsb_elem in Hc as (c & Hc & ?), Ha as (a & Ha & ?), Hv as (v & Hv & ?), Hi as (i & Hi & ?).
  sql_facts. split; [by exists v|]. split; [by exists i|]. split; [by exists a|]. by exists c.
Qed.

Lemma filter_snoc_false {R} (p : R → bool) l x : p x = false → List.filter p (l ++ [x]) = List.filter p l.
Proof. intros Hx. rewrite List.filter_app. simpl. by rewrite Hx, app_nil_r. Qed.

Lemma same_run_false row e :
  same_run row e = false →
  (ex_decision e, ex_hash e) ≠ (ex_decision row, ex_hash row)
  ∧ pv_workflow_run_id (ex_provenance e) ≠ pv_workflow_run_id (ex_provenance row).
Proof.
  unfold same_run. intros [[_ H]%orb_false_iff H2%sql_eqb_false]%orb_false_iff.
  split; [|done]. intros [= E1 E2]. rewrite E1, E2 in H. unfold sql_eqb in H.
  by rewrite !String.eqb_refl in H.
Qed.

Lemma lawful_insert_execution row :
  run_ok row → lawful (option nat) (insert_execution row).
Proof.
  intros Hdone s Hs. unfold insert_execution.
  destruct (may_execute _ row s) eqn:Hmay; [|by apply advance_quiet].
  destruct (append_cases same_run row (executions s)) as [[E _]|[E Hf]]; rewrite E; simpl.
  { by apply advance_quiet. }
  destruct (may_execute_grounds _ _ _ Hmay) as (Hv & Hi & Ha & c & Hc & Hid & Hst).
  assert (grows s (set_executions (executions s ++ [row]) s)) as Hg.
  { split; simpl; auto; try reflexivity; [by eexists|].
    intros id He. split; [done|]. split; [|done]. unfold runs_of. simpl.
    apply filter_snoc_false. destruct (String.eqb_spec (ex_continuity row) id) as [<-|]; [|done].
    by destruct (active_not_ended s c (ex_continuity row)). }
  apply advance_intro; simpl; try unchanged Hs.
  - intros e [?| ->%list_elem_of_singleton]%elem_of_app; [by left|right].
    split; [by eapply validated_grows|]. split; [by eapply invoked_grows|].
    split; [by eapply authorized_grows|]. eapply continued_grows; [done|]. by exists c.
  - rewrite map_app. apply NoDup_snoc; [|apply Hs].
    intros (e & E1 & Hin)%list_elem_of_fmap. apply Hf, same_run_false in Hin as [H _]. done.
  - rewrite map_app. apply NoDup_snoc; [|apply Hs].
    intros (e & E1 & Hin)%list_elem_of_fmap. apply Hf, same_run_false in Hin as [_ H]. done.
  - still_sealed Hs. intros e [?| ->%list_elem_of_singleton]%elem_of_app; [by left|by right].
Qed.

(** ** Proofs *)
Lemma advance_trans s1 s2 s3 : advance s1 s2 → (lawful_world s2 → advance s2 s3) → advance s1 s3.
Proof. intros [H1 G1] H. destruct (H H1) as [? ?]. split; [done|]. by etrans. Qed.

Lemma proof_source_grounds pc s a r c :
  lawful_world s → proof_source pc s = Some (a, r, c) →
  executed (proof_row pc a r c) s
  ∧ (c ∈ continuities s ∧ co_id c = au_continuity a ∧ co_status c = "ACTIVE")
  ∧ (r ∈ sessions s ∧ se_id r = pc_session pc ∧ se_status r = "ACTIVE").
Proof.
  unfold proof_source. intros Hs H.
  destruct (List.find _ (authorities s)) as [a'|] eqn:Ha; [|done].
  destruct (List.find _ (sessions s)) as [r'|] eqn:Hr; [|done].
  destruct (List.find _ (continuities s)) as [c'|] eqn:Hc; [|done].
  destruct (existsb _ (executions s) && _) eqn:He; [|done]. injection H as -> -> ->.
  apply find_elem in Ha as [Ha ?], Hr as [Hr ?], Hc as [Hc ?].
  apply andb_true_iff in He as [He _]. apply existsb_elem in He as (e & He & ?). sql_facts.
  split; [exists e; simpl; repeat split; congruence|]. split; repeat split; congruence || done.
Qed.

Lemma same_proof_false row p :
  same_proof row p = false →
  (pf_decision p, pf_hash p) ≠ (pf_decision row, pf_hash row) ∧ proof_run p ≠ proof_run row.
Proof.
  unfold same_proof. intros [[[_ H]%orb_false_iff H2%sql_eqb_false]%orb_false_iff _]%orb_false_iff.
  split; [|done]. intros [= E1 E2]. rewrite E1, E2 in H. unfold sql_eqb in H.
  by rewrite !String.eqb_refl in H.
Qed.

Lemma advance_insert_proof pc a r c s :
  lawful_world s → proof_source pc s = Some (a, r, c) →
  pc_decision_hash pc = proof_decision_hash (pc_decision pc) (pc_hash pc) →
  advance s (set_proofs (append_unless same_proof (proof_row pc a r c) (proofs s)).1 s).
Proof.
  intros Hs Hsrc Hdh. destruct (append_cases same_proof (proof_row pc a r c) (proofs s))
    as [[E _]|[E Hf]]; rewrite E; simpl; [by apply advance_quiet|].
  destruct (proof_source_grounds _ _ _ _ _ Hs Hsrc) as (He & (Hc & Hcid & Hcst) & (Hr & Hrid & Hrst)).
  set (row := proof_row pc a r c) in *.
  assert (grows s (set_proofs (proofs s ++ [row]) s)) as Hg.
  { split; simpl; auto; try reflexivity; [by eexists| |].
    - intros id Hid. split; [done|]. split; [done|]. unfold proofs_of. simpl.
      apply filter_snoc_false. destruct (String.eqb_spec (pf_continuity row) id) as [<-|]; [|done].
      by destruct (active_not_ended s c (pf_continuity row)).
    - intros id Hid. split; [done|]. unfold session_proofs. simpl.
      apply filter_snoc_false. destruct (String.eqb_spec (pf_session row) id) as [<-|]; [|done].
      by destruct (active_not_closed s r (pf_session row)). }
  apply advance_intro; simpl; try unchanged Hs.
  - intros p [?| ->%list_elem_of_singleton]%elem_of_app; [by left|right]. by eapply executed_grows.
  - rewrite map_app. apply NoDup_snoc; [|apply Hs].
    intros (p & E1 & Hin)%list_elem_of_fmap. by apply Hf, same_proof_false in Hin as [? _].
  - still_sealed Hs.
    + intros p [?| ->%list_elem_of_singleton]%elem_of_app; [by left|right]. split; [|done].
      by exists r.
    + rewrite map_app. apply NoDup_snoc; [|apply (i_sealed _ Hs)].
      intros (p & E1 & Hin)%list_elem_of_fmap. by apply Hf, same_proof_false in Hin as [_ ?].
Qed.

(** The three statements, in the order in which they are performed. *)
Definition after_insert (pc : proof_commit) (s : world) : world :=
  match proof_source pc s with
  | None => s
  | Some (a, r, c) => set_proofs (append_unless same_proof (proof_row pc a r c) (proofs s)).1 s
  end.

Definition after_consume (pc : proof_commit) (s : world) : world :=
  set_authorities (update (consumable pc s) (with_authority_status "CONSUMED") (authorities s)) s.

Definition after_queue (pc : proof_commit) (s : world) : world :=
  if existsb (λ p, sql_eqb (pf_execution p) (pc_execution pc) && sql_eqb (pf_id p) (pc_proof pc)
       && sql_eqb (pf_decision p) (pc_decision pc) && sql_eqb (pf_hash p) (pc_hash pc)
       && join_nonce (pf_execution p) (pc_nonce pc) s) (proofs s)
  then set_outbox (append_unless (λ a b, sql_eqb (ob_id a) (ob_id b)
         || sql_eqb (ob_proof a) (ob_proof b)) (outbox_row pc) (outbox s)).1 s
  else s.

Lemma proof_statements_world pc s :
  (proof_statements pc s).1 = after_queue pc (after_consume pc (after_insert pc s)).
Proof.
  unfold proof_statements. set (m := match proof_source pc s with Some _ => _ | None => _ end).
  assert (m.1 = after_insert pc s) as E.
  { unfold m, after_insert. destruct (proof_source pc s) as [[[a r] c]|]; [|done].
    by destruct (append_unless _ _ _). }
  destruct m as [s1 inserted]. simpl in E. subst s1. unfold after_queue.
  destruct (existsb _ _); [|done]. by destruct (append_unless _ _ _).
Qed.

Lemma advance_proof_statements pc s :
  lawful_world s →
  (proof_source pc s ≠ None → pc_decision_hash pc = proof_decision_hash (pc_decision pc) (pc_hash pc)) →
  advance s (proof_statements pc s).1.
Proof.
  intros Hs Hdh. rewrite proof_statements_world.
  apply (advance_trans _ (after_insert pc s)); [|intros Hs1;
    apply (advance_trans _ (after_consume pc (after_insert pc s))); [|intros Hs2]].
  - unfold after_insert. destruct (proof_source pc s) as [[[a r] c]|] eqn:E; [|by apply advance_quiet].
    apply advance_insert_proof; [done|done|by apply Hdh].
  - unfold after_consume. apply advance_authorities; [done|by apply update_keys| |];
      rewrite map_update by done; [apply Hs1|apply (i_sealed _ Hs1)].
  - unfold after_queue. destruct (existsb _ _); [|by apply advance_quiet].
    apply advance_outbox; [done|apply append_prefix].
Qed.

Lemma lawful_commit_proof pc : lawful (option (nat * nat * nat)) (commit_proof pc).
Proof.
  intros s Hs. unfold commit_proof. destruct (_ && _) eqn:Htrigger; [by apply advance_quiet|].
  assert (proof_source pc s ≠ None →
    pc_decision_hash pc = proof_decision_hash (pc_decision pc) (pc_hash pc)) as Hdh.
  { intros Hsrc. destruct (proof_source pc s); [|done]. simpl in Htrigger.
    by apply negb_false_iff, sql_eqb_true in Htrigger. }
  pose proof (advance_proof_statements pc s Hs Hdh) as Hadv.
  destruct (proof_statements pc s) as [s3 counts]. simpl in Hadv.
  destruct (pc_attestation pc) as [row|]; [|done].
  destruct (append_unless _ _ _) as [rows [|]]; [|by apply advance_quiet].
  eapply advance_trans; [done|]. intros Hs3. by apply advance_quiet.
Qed.

(** ** The other tables *)
Lemma lawful_insert_snapshot row : lawful unit (insert_snapshot row).
Proof. intros s Hs. by apply advance_quiet. Qed.
Lemma lawful_mark_snapshot e p : lawful unit (mark_snapshot_proven e p).
Proof. intros s Hs. by apply advance_quiet. Qed.
Lemma lawful_insert_preo row : lawful bool (insert_preo row).
Proof. intros s Hs. unfold insert_preo. appended. apply advance_quiet; first [done|apply append_prefix]. Qed.
Lemma lawful_insert_delegation row : lawful bool (insert_delegation row).
Proof. intros s Hs. unfold insert_delegation. appended. by apply advance_quiet. Qed.
Lemma lawful_insert_envelope row : lawful bool (insert_envelope row).
Proof. intros s Hs. unfold insert_envelope. appended. by apply advance_quiet. Qed.
Lemma lawful_mark_envelope id : lawful unit (mark_envelope_operative id).
Proof. intros s Hs. by apply advance_quiet. Qed.
Lemma lawful_insert_govern_envelope row : lawful bool (insert_govern_envelope row).
Proof. intros s Hs. unfold insert_govern_envelope. appended. apply advance_quiet; first [done|apply append_prefix]. Qed.
Lemma lawful_insert_govern_nonce row : lawful bool (insert_govern_nonce row).
Proof. intros s Hs. unfold insert_govern_nonce. appended. apply advance_quiet; first [done|apply append_prefix]. Qed.
Lemma lawful_insert_govern_evidence row : lawful bool (insert_govern_evidence row).
Proof. intros s Hs. unfold insert_govern_evidence. appended. by apply advance_quiet. Qed.
Lemma lawful_insert_atao row : lawful bool (insert_atao row).
Proof.
  intros s Hs. unfold insert_atao. appended. apply advance_quiet; try done. apply append_prefix.
Qed.
End Worker.

#[export] Hint Resolve lawful_select lawful_tick lawful_log lawful_draw lawful_insert_session
  lawful_expire_session lawful_revoke_session_continuities lawful_insert_authority
  lawful_update_authorities lawful_invalidate_validations
  lawful_insert_invocation lawful_revoke_invocations lawful_mark_invocation
  lawful_commit_proof lawful_insert_snapshot lawful_mark_snapshot
  lawful_insert_preo lawful_insert_delegation lawful_insert_envelope lawful_mark_envelope
  lawful_insert_govern_envelope lawful_insert_govern_nonce lawful_insert_govern_evidence
  lawful_insert_atao : lawful.
#[export] Hint Extern 1 (lawful _ (invalidate_continuities _ _ _)) =>
  apply lawful_invalidate_continuities; discriminate : lawful.
(** A read is a [select] once unfolded. *)
#[export] Hint Extern 2 (lawful _ _) => refine (lawful_select _) : lawful.
#[export] Hint Extern 1 (lawful _ _) => refine (lawful_update_authorities _ _) : lawful.
