(* ===== verification/WorkerCalm.v ===== *)
(** The parts of the worker's handlers that only perform lawful statements and
    whose early answers are all refusals. *)
From Stdlib Require Import ZArith NArith Lia Ascii.
From stdpp Require Import base list strings pretty.
From S2P Require Import Prelude JsValue Sha256 Canonical Effects WorkerValues WorkerTables.
From S2P Require Import WorkerSql WorkerLineage WorkerEvidence WorkerIssuance WorkerAuthority.
From S2P Require Import WorkerExecution WorkerProof WorkerInvariant WorkerLawful.

Local Open Scope eff_scope.

(** The answer says [NULL]. *)
Definition refusal (r : response) : Prop := get (rs_body r) "status" = JStr "NULL".

Definition early {A} (o : flow A) : Prop := match o with Answer r => refusal r | _ => True end.

Create HintDb calm.

Section Worker.
Context {platform : Platform}.

Definition calm {A} (m : eff A) : Prop := tree lawful early m.

Lemma calm_ret {A} (a : A) : calm (ret a).
Proof. done. Qed.

Lemma calm_throw {A} : calm (@throw A).
Proof. done. Qed.

Lemma calm_answer {A} fields : get (JObj fields) "status" = JStr "NULL" → calm (@answer A (json fields)).
Proof. done. Qed.

Lemma calm_ebind {A B} (m : eff A) (f : A → eff B) : calm m → (∀ a, calm (f a)) → calm (ebind m f).
Proof.
  intros Hm Hf. eapply tree_bind; [exact Hm|]. intros [a|r|] Ho; [apply Hf|exact Ho|exact I].
Qed.

Lemma calm_exec {X} (e : sql X) : lawful X e → calm (exec e).
Proof. by split. Qed.

Lemma calm_insert e : lawful bool e → calm (insert e).
Proof. intros He. apply calm_ebind; [by apply calm_exec|]. by intros []. Qed.

Lemma calm_attempt {A} (m h : eff A) : calm m → calm h → calm (attempt m h).
Proof.
  intros Hm Hh. eapply tree_bind; [exact Hm|]. intros [a|r|] Ho; [exact Ho|exact Ho|exact Hh].
Qed.

Lemma calm_need_object v : calm (need_object v).
Proof. unfold need_object. by destruct (nullish v). Qed.

Lemma calm_now_iso : calm now_iso.
Proof. apply calm_ebind; [apply calm_exec; auto with lawful|done]. Qed.

Lemma calm_randomUUID : calm randomUUID.
Proof. apply calm_exec. auto with lawful. Qed.
End Worker.

#[export] Hint Resolve calm_ret calm_throw calm_need_object calm_now_iso calm_randomUUID : calm.

Ltac calm_step := match goal with
  | |- calm (ebind _ _) => apply calm_ebind; [|intros ?]
  | |- calm (exec _) => apply calm_exec; solve [auto with lawful]
  | |- calm (insert _) => apply calm_insert; solve [auto with lawful]
  | |- calm (attempt _ _) => apply calm_attempt
  | |- calm (answer (json _)) => apply calm_answer; reflexivity
  | |- calm (let _ := _ in _) => cbv zeta
  | |- calm (match ?x with _ => _ end) => destruct x
  | |- calm _ => solve [auto 3 with calm]
  end.
Ltac calm := repeat (calm_step; cbv beta).

Section Worker.
Context {platform : Platform}.

(** * Telemetry *)
Lemma calm_emitTelemetry a b c d e f : calm (emitTelemetry a b c d e f).
Proof. unfold emitTelemetry. calm. Qed.
Lemma calm_emitInstallBase a b c d e f g : calm (emitInstallBaseTelemetryEvidence a b c d e f g).
Proof. unfold emitInstallBaseTelemetryEvidence. calm. Qed.
Lemma calm_recordDrift a b c d : calm (recordDrift a b c d).
Proof. unfold recordDrift. calm. Qed.
Hint Resolve calm_emitTelemetry calm_emitInstallBase calm_recordDrift : calm.

Lemma calm_reject {A} fields reason t :
  get (JObj fields) "status" = JStr "NULL" → calm (@rejectWithTelemetry platform A fields reason t).
Proof. intros Hf. unfold rejectWithTelemetry. calm. Qed.

(** * Cascades and lineages *)
Lemma calm_append_projections rows status reason at_time :
  calm (append_projections rows status reason at_time).
Proof.
  induction rows as [|[d h] rows IH]; simpl; [apply calm_ret|].
  apply calm_ebind; [|done]. unfold appendDelegatedRevocationProjection. calm.
Qed.
Hint Resolve calm_append_projections : calm.

Lemma calm_invalidate id status reason at_time :
  status ≠ "ACTIVE" → calm (invalidateContinuityLineage id status reason at_time).
Proof.
  intros Hs. unfold invalidateContinuityLineage. destruct (is_empty_str id); [apply calm_ret|].
  apply calm_ebind; [apply calm_exec; by apply lawful_invalidate_continuities|]. intros ?. 
  unfold revoke_lineage_authorities. calm.
Qed.

Lemma calm_cascadeRevocation id : calm (cascadeRevocation id).
Proof. unfold cascadeRevocation. apply calm_ebind; [auto with calm|]. intros ?. by apply calm_invalidate. Qed.
Lemma calm_cascadeExpiration id t : calm (cascadeExpiration id t).
Proof. by apply calm_invalidate. Qed.
Lemma calm_cascadeSession id : calm (cascadeSessionRevocation id).
Proof. unfold cascadeSessionRevocation, revoke_session_authorities. calm. Qed.
Hint Resolve calm_cascadeRevocation calm_cascadeExpiration calm_cascadeSession : calm.

Lemma calm_activeSession id : calm (activeSession id).
Proof. unfold activeSession. calm. Qed.

Lemma calm_end_lineage {A} m : calm m → calm (@end_lineage A m).
Proof. intros Hm. unfold end_lineage. calm. Qed.
Hint Resolve calm_end_lineage : calm.

Lemma calm_live_row id session now current : calm (live_row id session now current).
Proof. unfold live_row. calm. Qed.
Lemma calm_authentic_text id current row : calm (authentic_text id current row).
Proof. unfold authentic_text. calm. Qed.
Hint Resolve calm_live_row calm_authentic_text : calm.

Lemma calm_climb id d session now fuel visited ancestry requested current :
  calm (climb id d session now fuel visited ancestry requested current).
Proof.
  revert visited ancestry requested current.
  induction fuel as [|n IH]; intros; simpl; [apply calm_ret|]. calm; apply IH.
Qed.
Hint Resolve calm_climb : calm.

Lemma calm_activeContinuity id session d : calm (activeContinuity id session d).
Proof. unfold activeContinuity, resolveContinuityLineage. calm. Qed.
Lemma calm_revokedOrAmbiguous id : calm (continuityIsRevokedOrAmbiguous id).
Proof. unfold continuityIsRevokedOrAmbiguous, resolveContinuityLineage. calm. Qed.
Lemma calm_currentIdentity session : calm (resolveCurrentContinuityIdentity session).
Proof. unfold resolveCurrentContinuityIdentity. calm. Qed.
End Worker.

#[export] Hint Resolve calm_emitTelemetry calm_emitInstallBase calm_recordDrift calm_activeSession
  calm_append_projections calm_cascadeRevocation calm_cascadeExpiration calm_cascadeSession
  calm_end_lineage calm_live_row calm_authentic_text calm_climb calm_activeContinuity calm_revokedOrAmbiguous calm_currentIdentity : calm.

(** * Refusals *)
Ltac refuse := cbv beta delta [deny_continuity deny_epoch deny_lineage deny_route deny_compile
  deny_invalid deny_validate deny_authority deny_execute deny_hash deny_execution deny_replay
  deny_proof deny_proof_lineage]; apply calm_reject; reflexivity.

#[export] Hint Extern 2 (calm _) => refuse : calm.

Section Worker.
Context {platform : Platform}.

(** * Evidence *)
Lemma calm_attestation b c : calm (validateRequestProvenanceAttestation b c).
Proof. unfold validateRequestProvenanceAttestation. calm. Qed.
Lemma calm_admit_epoch b : calm (admit_epoch b).
Proof. unfold admit_epoch, enforceTopologyEpochAdmission, classifyTopologyEpochAdmission. calm. Qed.
Lemma calm_requiresGovern d b : calm (requiresGovernEnvelopeLineage d b).
Proof. unfold requiresGovernEnvelopeLineage, resolvePersistedGovernedEnvelopeId. calm. Qed.
Lemma calm_resolveGovern b r p : calm (resolveGovernEnvelopeLineage b r p).
Proof. unfold resolveGovernEnvelopeLineage. calm. Qed.
Lemma calm_verifyLinkage d r : calm (verifyGovernedToolEnvelopeLinkage d r).
Proof. unfold verifyGovernedToolEnvelopeLinkage. calm. Qed.
Lemma calm_topology : calm deriveValidateTopologyEvidence.
Proof. unfold deriveValidateTopologyEvidence. calm. Qed.
Lemma calm_delegated a c : calm (validateDelegatedAuthorityLineage a c).
Proof. unfold validateDelegatedAuthorityLineage. calm. Qed.
Lemma calm_appendDelegated d t : calm (appendDelegatedAuthorityObject d t).
Proof. unfold appendDelegatedAuthorityObject. calm. Qed.
Lemma calm_buildDelegated b x1 x2 x3 x4 : calm (buildDelegatedAuthorityForIssuance b x1 x2 x3 x4).
Proof. unfold buildDelegatedAuthorityForIssuance. calm. Qed.
Lemma calm_preo d h a r : calm (deploymentPreoLineage d h a r).
Proof. unfold deploymentPreoLineage. calm. Qed.
Hint Resolve calm_preo : calm.
Lemma calm_validatePreo d h a r : calm (validatePreoLineage d h a r).
Proof. unfold validatePreoLineage. calm. Qed.
Lemma calm_provenance d h a c p e : calm (validateDeploymentProvenance d h a c p e).
Proof. unfold validateDeploymentProvenance. calm. Qed.
End Worker.

#[export] Hint Resolve calm_attestation calm_admit_epoch calm_requiresGovern calm_resolveGovern
  calm_verifyLinkage calm_topology calm_delegated calm_appendDelegated calm_buildDelegated calm_preo
  calm_validatePreo calm_provenance : calm.

Section Worker.
Context {platform : Platform}.

(** * Handlers, as far as they are calm *)
Lemma calm_session rq : calm (session_route rq).
Proof. unfold session_route. calm. Qed.
Lemma calm_govern rq : calm (govern_route rq).
Proof. unfold govern_route, bind_govern_nonce, captureAgentToolCallATAO. calm. Qed.
Lemma calm_authority rq : calm (authority_route rq).
Proof. unfold authority_route. calm. Qed.
Lemma calm_preo_route rq : calm (preo_route rq).
Proof. unfold preo_route. calm. Qed.
Lemma calm_check_preo d a h r : calm (check_preo d a h r).
Proof. unfold check_preo. calm. Qed.
Hint Resolve calm_check_preo : calm.
Lemma calm_partition b : calm (partition_admission b).
Proof. unfold partition_admission. calm. Qed.
Hint Resolve calm_partition : calm.
Lemma calm_validate_envelope d b : calm (validate_envelope d b).
Proof. unfold validate_envelope. calm. Qed.
Lemma calm_validate_authority d s : calm (validate_authority d s).
Proof. unfold validate_authority. calm. Qed.
Lemma calm_validate_object d a c : calm (validate_object d a c).
Proof. unfold validate_object. calm. Qed.
Lemma calm_execute_admission d h n b : calm (execute_admission d h n b).
Proof. unfold execute_admission. calm. Qed.
Lemma calm_execute_validation d h n s : calm (execute_validation d h n s).
Proof. unfold execute_validation. calm. Qed.
Lemma calm_execute_authority d s v ses sn : calm (execute_authority d s v ses sn).
Proof. unfold execute_authority. calm. Qed.
Lemma calm_execute_object d h n v a : calm (execute_object d h n v a).
Proof. unfold execute_object. calm. Qed.
Lemma calm_execute_provenance d h x b v a c p sn : calm (execute_provenance d h x b v a c p sn).
Proof. unfold execute_provenance. calm. Qed.
Lemma calm_proof_envelope e d b : calm (proof_envelope e d b).
Proof. unfold proof_envelope. calm. Qed.
Lemma calm_proof_admission e d h n b : calm (proof_admission e d h n b).
Proof. unfold proof_admission. calm. Qed.
Lemma calm_proof_rows e d h n s b t : calm (proof_rows e d h n s b t).
Proof. unfold proof_rows, deny_missing_execution. calm. Qed.
Lemma calm_proof_uniqueness e d h n x a : calm (proof_uniqueness e d h n x a).
Proof. unfold proof_uniqueness. calm. Qed.
Lemma calm_proof_continuity e d x s a : calm (proof_continuity e d x s a).
Proof. unfold proof_continuity. calm. Qed.
Lemma calm_proof_compiled e d h a : calm (proof_compiled e d h a).
Proof. unfold proof_compiled. calm. Qed.
Lemma calm_proof_provenance e d h x b ex a c p : calm (proof_provenance e d h x b ex a c p).
Proof. unfold proof_provenance. calm. Qed.
End Worker.

#[export] Hint Resolve calm_session calm_govern calm_authority calm_preo_route calm_check_preo
  calm_partition calm_validate_envelope calm_validate_authority calm_validate_object
  calm_execute_admission calm_execute_validation calm_execute_authority calm_execute_object
  calm_execute_provenance calm_proof_envelope calm_proof_admission calm_proof_rows
  calm_proof_uniqueness calm_proof_continuity calm_proof_compiled calm_proof_provenance : calm.
