(* ===== verification/WorkerLineageProof.v ===== *)
(** What the worker knows after it has resolved a lineage: the rows it climbed
    are there, of one session and one identity, up to a root. *)
From Stdlib Require Import ZArith NArith Lia Ascii.
From stdpp Require Import base list strings pretty.
From S2P Require Import Prelude JsValue Sha256 Canonical Effects WorkerValues WorkerTables.
From S2P Require Import WorkerSql WorkerLineage WorkerEvidence WorkerIssuance WorkerAuthority.
From S2P Require Import WorkerExecution WorkerProof WorkerInvariant WorkerLawful WorkerCalm.

Local Open Scope eff_scope.

Section Worker.
Context {platform : Platform}.

(** * Handlers with a postcondition *)
Definition post {A} (Q : A → world → Prop) (o : flow A) (s : world) : Prop :=
  match o with Go a => Q a s | Answer r => refusal r | Throws => True end.

(** Whatever the other requests do meanwhile, [m] keeps the invariant, and [Q]
    holds of its result and of the world in which it is used. *)
Definition oke {A} (Q : A → world → Prop) (m : eff A) (s : world) : Prop :=
  ok perform lawful_world grows (post Q) m s.

Lemma oke_calm {A} (m : eff A) s : calm m → oke (λ _ _, True) m s.
Proof.
  intros Hm. eapply ok_weaken; [|eapply ok_tree; [|exact Hm]].
  - intros [a|r|] s'; simpl; auto.
  - intros X e s' He Hs'. by apply He.
Qed.

Lemma oke_ebind {A B} (Q : A → world → Prop) (R : B → world → Prop) (m : eff A) f s :
  oke Q m s → lawful_world s →
  (∀ a s', grows s s' → lawful_world s' → Q a s' → oke R (f a) s') → oke R (ebind m f) s.
Proof.
  intros Hm Hs Hf. eapply ok_bind; [apply _|exact Hm| |done].
  intros [a|r|] s' Hg Hs' Ho; [by apply Hf| |done]. by intros s2 _ _.
Qed.

Lemma oke_calm_ebind {A B} (R : B → world → Prop) (m : eff A) f s :
  calm m → lawful_world s → (∀ a s', grows s s' → lawful_world s' → oke R (f a) s') →
  oke R (ebind m f) s.
Proof.
  intros Hm Hs Hf. eapply oke_ebind; [by apply oke_calm|done|]. auto.
Qed.

Lemma oke_ret {A} (Q : A → world → Prop) a s :
  (∀ s', grows s s' → lawful_world s' → Q a s') → oke Q (ret a) s.
Proof. done. Qed.

Lemma oke_exec {X} (Q : X → world → Prop) (e : sql X) s :
  (∀ s2, grows s s2 → lawful_world s2 → advance s2 (e s2).1
     ∧ ∀ s3, grows (e s2).1 s3 → lawful_world s3 → Q (e s2).2 s3) →
  oke Q (exec e) s.
Proof. intros H s2 Hg Hs2. destruct (H s2 Hg Hs2) as [[? ?] ?]. split; [done|]. split; [done|]. done. Qed.

(** A read, of which [Q] survives growth. *)
Lemma oke_select {X} (Q : X → world → Prop) (f : world → X) s :
  (∀ s2, lawful_world s2 → Q (f s2) s2) → (∀ x s2 s3, grows s2 s3 → Q x s2 → Q x s3) →
  oke Q (exec (select f)) s.
Proof.
  intros HQ Hgrow. apply oke_exec. intros s2 _ Hs2. simpl. split; [by split|].
  intros s3 Hg _. by eapply Hgrow; [|apply HQ].
Qed.

Lemma oke_answer {A} (Q : A → world → Prop) r s : refusal r → oke Q (answer r) s.
Proof. by intros Hr s' _ _. Qed.

Lemma oke_throw {A} (Q : A → world → Prop) s : oke Q throw s.
Proof. done. Qed.

Lemma oke_reject {A} (Q : A → world → Prop) fields reason t s :
  get (JObj fields) "status" = JStr "NULL" → lawful_world s →
  oke Q (rejectWithTelemetry fields reason t) s.
Proof.
  intros Hf Hs. unfold rejectWithTelemetry.
  do 3 (apply oke_calm_ebind; [auto with calm|done|]; intros ? ? ? ?).
  by apply oke_answer.
Qed.
End Worker.

Ltac deny := cbv beta delta [deny_continuity deny_epoch deny_lineage deny_route deny_compile
  deny_invalid deny_validate deny_authority deny_execute deny_hash deny_execution deny_replay
  deny_proof deny_proof_lineage]; apply oke_reject; [reflexivity|assumption].

(** One step of a handler that needs no fact of its own. *)
Ltac oke_step := match goal with
  | |- oke _ (ebind _ _) _ =>
      apply oke_calm_ebind; [solve [calm]|assumption|intros ? ? ? ?]
  | |- oke _ throw _ => apply oke_throw
  | |- oke _ (let _ := _ in _) _ => cbv zeta
  | |- oke _ (if ?b then _ else _) _ => destruct b eqn:?
  | |- oke _ (match ?x with _ => _ end) _ => destruct x eqn:?
  | |- oke _ _ _ => solve [deny]
  end.

Section Worker.
Context {platform : Platform}.

(** * Climbing *)

(** The row, as the registry still has it. *)
Definition present (c : ContinuityRow) (s : world) : Prop :=
  ∃ c', c' ∈ continuities s ∧ continuity_key c' = continuity_key c.

Lemma present_grows c s s' : grows s s' → present c s → present c s'.
Proof.
  intros Hg (c1 & Hc1 & E1).
  destruct (key_elem _ _ _ _ (g_continuities _ _ Hg) Hc1) as (c2 & Hc2 & E2).
  exists c2. split; [done|]. congruence.
Qed.

Lemma present_depth c s n :
  present c s → row_parent c ≠ EmptyString → depth_in (continuities s) (row_parent c) n →
  depth_in (continuities s) (co_id c) (S n).
Proof.
  intros (c' & Hc' & E) Hp Hd. unfold continuity_key in E. injection E as E1 _ _ E4 _ _ _.
  rewrite <- E1. unfold row_parent in *. rewrite <- E4 in Hp, Hd. by apply depth_child.
Qed.

Lemma present_root c s :
  present c s → row_parent c = EmptyString → depth_in (continuities s) (co_id c) 1.
Proof.
  intros (c' & Hc' & E) Hp. unfold continuity_key in E. injection E as E1 _ _ E4 _ _ _.
  rewrite <- E1. apply depth_root; [done|]. unfold row_parent in *. by rewrite E4.
Qed.

Section Climb.
Context (id : string) (session : SessionRow) (decision now : string).

(** A row of this session and identity. *)
Definition of_this (c : ContinuityRow) : Prop :=
  co_session c = se_id session ∧ co_identity c = se_identity session.

Definition live_fact (current : string) (o : option ContinuityRow) (s : world) : Prop :=
  match o with Some c => present c s ∧ co_id c = current ∧ of_this c | None => True end.

Lemma end_lineage_none {A} (Q : option A → world → Prop) m s :
  calm m → lawful_world s → (∀ s', Q None s') → oke Q (end_lineage m) s.
Proof.
  intros Hm Hs HQ. apply oke_calm_ebind; [done..|]. intros. apply oke_ret. auto.
Qed.

Lemma live_row_fact current s :
  lawful_world s → oke (live_fact current) (live_row id session now current) s.
Proof.
  intros Hs. unfold live_row.
  apply (oke_ebind (λ o s, match o with Some c => present c s ∧ co_id c = current | None => True end));
    [|done|].
  { apply oke_select.
    - intros s2 _. unfold find_continuity. destruct (List.find _ _) as [c|] eqn:E; [|done].
      apply find_elem in E as [Hc Hid%sql_eqb_true]. split; [by exists c|done].
    - intros [c|] s2 s3 Hg; [|done]. intros [? ?]. split; [by eapply present_grows|done]. }
  intros [c|] s' Hg Hs' Hc; [|by apply end_lineage_none; auto with calm].
  destruct Hc as [Hc Hid].
  repeat first [ by apply end_lineage_none; auto with calm
    | by apply oke_ret | oke_step ].
  all: try (apply oke_ret; intros s'' Hg' _; simpl).
  all: repeat match goal with
    | H : negb _ = false |- _ => apply negb_false_iff, String.eqb_eq in H
    end.
  split; [|done]. eapply present_grows; [|exact Hc]. by repeat (etrans; [eassumption|]).
Qed.

Definition text_fact (row : ContinuityRow) (o : option jsval) (_ : world) : Prop :=
  match o with
  | Some v => json_parse (stored_json (co_canonical row)) = Some v ∧ canonical_parent v = row_parent row
  | None => True
  end.

Lemma authentic_text_fact current row s :
  lawful_world s → oke (text_fact row) (authentic_text id current row) s.
Proof.
  intros Hs. unfold authentic_text.
  repeat first [ by apply end_lineage_none; auto with calm | by apply oke_ret | oke_step ].
  apply oke_ret. intros s' _ _. simpl. split; [done|].
  repeat match goal with
    | H : negb _ = false |- _ => apply negb_false_iff, String.eqb_eq in H
    end. done.
Qed.

(** The requested row with its text, and the number of rows climbed. *)
Definition found_fact (r : ancestor) (s : world) : Prop :=
  present r.1 s ∧ co_id r.1 = id ∧ of_this r.1
  ∧ json_parse (stored_json (co_canonical r.1)) = Some r.2.

Definition climbed (n : nat) (current : string) (s : world) : Prop :=
  ∀ s', grows s s' →
    if is_empty_str current then depth_in (continuities s') id n
    else ∀ m, depth_in (continuities s') current m → depth_in (continuities s') id (n + m).

Definition climb_fact (o : option (ancestor * list ancestor)) (s : world) : Prop :=
  match o with
  | Some (r, ancestry) => found_fact r s ∧ depth_in (continuities s) id (length ancestry)
  | None => True
  end.

Lemma found_fact_grows r s s' : grows s s' → found_fact r s → found_fact r s'.
Proof. intros Hg (? & ?). split; [by eapply present_grows|done]. Qed.

Lemma climbed_step n c s :
  climbed n (co_id c) s → is_empty_str (co_id c) = false → present c s →
  climbed (S n) (row_parent c) s.
Proof.
  unfold climbed. intros Hc Hne Hp s' Hg. specialize (Hc s' Hg). rewrite Hne in Hc.
  apply (present_grows _ _ _ Hg) in Hp. unfold is_empty_str.
  destruct (String.eqb_spec (row_parent c) EmptyString) as [E|E].
  - replace (S n) with (n + 1)%nat by lia. apply Hc. by apply present_root.
  - intros m Hm. replace (S n + m)%nat with (n + S m)%nat by lia. apply Hc. by apply present_depth.
Qed.

Lemma climb_facts fuel visited ancestry requested current s :
  lawful_world s →
  climbed (length ancestry) current s →
  match requested with
  | Some r => found_fact r s
  | None => current = id ∧ id ≠ EmptyString
  end →
  oke climb_fact (climb id decision session now fuel visited ancestry requested current) s.
Proof.
  revert visited ancestry requested current s.
  induction fuel as [|n IH]; intros visited ancestry requested current s Hs Hclimbed Hreq;
    cbn [climb]; [by apply oke_ret|].
  destruct (is_empty_str current) eqn:Hempty.
  { apply oke_ret. intros s' Hg _. specialize (Hclimbed s' Hg). rewrite Hempty in Hclimbed.
    destruct (last ancestry) as [root|]; [|done]. destruct requested as [r|]; [|done].
    destruct (is_empty_str (row_parent root.1)); [|done]. simpl.
    split; [by eapply found_fact_grows|done]. }
  destruct (str_in current visited); [by apply end_lineage_none; auto with calm|].
  eapply oke_ebind; [by apply live_row_fact|done|].
  intros [row|] s1 Hg1 Hs1 Hrow; [|by apply oke_ret]. destruct Hrow as (Hrow & Hid & Hthis).
  eapply oke_ebind; [by apply authentic_text_fact|done|].
  intros [canonical|] s2 Hg2 Hs2 Htext; [|by apply oke_ret]. destruct Htext as (Htext & Hparent).
  destruct (_ && negb (chain_includes _ _)); [by apply oke_ret|]. cbv zeta.
  set (req := if String.eqb current id then Some (row, canonical) else requested).
  assert (grows s s2) as Hg by (by etrans).
  apply (present_grows _ _ _ Hg2) in Hrow.
  assert (match req with Some r => found_fact r s2 | None => False end) as Hreq'.
  { unfold req. destruct (String.eqb_spec current id) as [E|E].
    - split; [done|]. simpl. split; [congruence|done].
    - destruct requested as [r|]; [by eapply found_fact_grows|]. naive_solver. }
  destruct (Nat.ltb _ _); [by apply end_lineage_none; auto with calm|].
  destruct req as [r|]; [|done].
  destruct (exceeds_configured _ _); [by apply end_lineage_none; auto with calm|].
  apply IH; [done| |done]. rewrite Hparent, length_app, Nat.add_1_r. subst current.
  apply climbed_step; [|done|done]. intros s' Hg'. apply Hclimbed. by etrans.
Qed.
End Climb.

Lemma activeContinuity_fact id session decision s :
  lawful_world s → oke (climb_fact id session) (activeContinuity id session decision) s.
Proof.
  intros Hs. unfold activeContinuity, resolveContinuityLineage.
  destruct (is_empty_str id) eqn:E; [by apply oke_ret|].
  apply oke_calm_ebind; [auto with calm|done|]. intros now s1 Hg1 Hs1.
  apply climb_facts; [done| |].
  - intros s' _. rewrite E. auto.
  - split; [done|]. intros ->. done.
Qed.
End Worker.
