(* ===== verification/WorkerSafety.v ===== *)
(** The worker's lifecycle is safe under every interleaving of requests. *)
From Stdlib Require Import ZArith NArith Lia Ascii.
From stdpp Require Import base list strings pretty.
From S2P Require Import Prelude JsValue Sha256 Canonical Effects WorkerValues WorkerTables.
From S2P Require Import WorkerSql WorkerLineage WorkerEvidence WorkerIssuance WorkerAuthority.
From S2P Require Import WorkerExecution WorkerProof WorkerInvariant WorkerLawful WorkerCalm.
From S2P Require Import WorkerLineageProof.

Local Open Scope eff_scope.

(** * What an answer claims *)
Definition says (status : string) (r : response) : Prop := get (rs_body r) "status" = JStr status.

Definition claims (r : response) (k : string) (v : string) : Prop := get (rs_body r) k = JStr v.

(** Each route has one status of its own, and this is what it stands for. *)
Definition backed (rt : route) (rq : request) (r : response) (s : world) : Prop :=
  let named k := text (get (body rq) k) in
  match rt with
  | R_session => says "SESSION_ACTIVE" r ∧ ∃ x, x ∈ sessions s
      ∧ claims r "session_id" (se_id x) ∧ claims r "identity_id" (se_identity x)
      ∧ claims r "expires_at" (se_expires_at x) ∧ se_identity x = named "identity_id"
  | R_continuity => says "CONTINUITY_ACTIVE" r ∧ ∃ c, c ∈ continuities s
      ∧ claims r "continuity_id" (co_id c) ∧ claims r "continuity_hash" (co_hash c)
      ∧ co_session c = named "session_id"
  | R_govern => says "VALID_CANDIDATE" r ∧ ∃ c e n,
      parseGovernCandidate (default JNull (rq_body rq)) = inl c
      ∧ (e ∈ govern_envelopes s ∧ claims r "envelope_id" (ge_id e)
         ∧ claims r "envelope_hash" (ge_hash e) ∧ ge_status e = "VALID_CANDIDATE"
         ∧ ge_candidate_hash e = hashCanonical (candidate_js c)
         ∧ ge_nonce e = rq_header rq "X-Nonce")
      ∧ (n ∈ govern_nonces s ∧ gn_nonce n = ge_nonce e ∧ gn_domain n = ge_nonce_domain e
         ∧ gn_candidate_hash n = ge_candidate_hash e)
  | R_authority => says "ACTIVE" r ∧ ∃ a c, a ∈ authorities s
      ∧ claims r "authority_id" (au_id a) ∧ claims r "decision_id" (au_decision a)
      ∧ claims r "identity_id" (au_identity a) ∧ claims r "expiry" (au_expiry a)
      ∧ au_session a = named "session_id" ∧ au_continuity a = named "continuity_id"
      ∧ (c ∈ continuities s ∧ co_id c = au_continuity a ∧ co_session c = au_session a
         ∧ co_identity c = au_identity a)
  | R_preo => says "PREO_VALID" r ∧ ∃ p a, p ∈ preos s
      ∧ claims r "preo_id" (po_id p) ∧ claims r "reviewed_hash" (po_reviewed_hash p)
      ∧ po_decision p = named "decision_id" ∧ po_status p = "PREO_VALID"
      ∧ (a ∈ authorities s ∧ au_decision a = po_decision p ∧ au_id a = po_authority p)
  | R_compile => says "COMPILED" r ∧ ∃ o, o ∈ aeos s
      ∧ ao_decision o = named "decision_id" ∧ claims r "validated_object_hash" (ao_hash o)
  | R_validate => says "VALID" r ∧ ∃ v, v ∈ validations s
      ∧ va_decision v = named "decision_id" ∧ va_hash v = named "validated_object_hash"
      ∧ va_nonce v = named "invocation_nonce" ∧ va_session v = named "session_id"
  | R_execute => says "EXECUTED" r ∧ ∃ e, e ∈ executions s ∧ claims r "execution_id" (ex_id e)
      ∧ ex_decision e = named "decision_id" ∧ ex_hash e = named "validated_object_hash"
      ∧ ex_nonce e = named "invocation_nonce"
  | R_proof => says "PROVEN" r ∧ ∃ p o, p ∈ proofs s ∧ claims r "proof_id" (pf_id p)
      ∧ pf_execution p = named "execution_id" ∧ pf_decision p = named "decision_id"
      ∧ pf_hash p = named "validated_object_hash" ∧ pf_session p = named "session_id"
      ∧ o ∈ outbox s ∧ ob_proof o = pf_id p
  end.

(** A refusal, a failure of the compiler, or a claim that the tables back. *)
Definition sound (rt : route) (rq : request) (r : response) (s : world) : Prop :=
  refusal r ∨ rt = R_compile ∧ says "FAILED" r ∨ backed rt rq r s.

(** A chain of growth hypotheses. *)
Ltac grow := match goal with
  | |- grows ?s ?s => reflexivity
  | H : grows ?s _ |- grows ?s _ => exact H
  | H : grows ?s _ |- grows ?s _ => etrans; [exact H|]; clear H; grow
  end.

Section Worker.
Context {platform : Platform}.

Lemma oke_insert (Q : unit → world → Prop) e s :
  (∀ s2, grows s s2 → lawful_world s2 → advance s2 (e s2).1
     ∧ ((e s2).2 = true → ∀ s3, grows (e s2).1 s3 → Q tt s3)) →
  lawful_world s → oke Q (insert e) s.
Proof.
  intros He Hs. unfold insert.
  apply (oke_ebind (λ ok s, ok = true → ∀ s3, grows s s3 → Q tt s3)); [|done|].
  - apply oke_exec. intros s2 Hg Hs2. destruct (He s2 Hg Hs2) as [? HQ]. split; [done|].
    intros s3 Hg3 _ Hok s4 Hg4. apply HQ; [done|]. by etrans.
  - intros [|] s' Hg Hs' HQ; [|apply oke_throw]. apply oke_ret. intros s2 Hg2 Hs2. by apply HQ.
Qed.

Lemma oke_weaken {A} (Q R : A → world → Prop) m s :
  (∀ a s', Q a s' → R a s') → oke Q m s → oke R m s.
Proof. intros HQR. apply ok_weaken. intros [a|r|] s'; simpl; auto. Qed.

Lemma append_ok {R} (clash : R → R → bool) row rows :
  (append_unless clash row rows).2 = true → (append_unless clash row rows).1 = rows ++ [row].
Proof. by destruct (append_cases clash row rows) as [[-> _]|[-> _]]. Qed.

Lemma last_elem {R} (rows : list R) row : row ∈ rows ++ [row].
Proof. rewrite elem_of_app, list_elem_of_singleton. auto. Qed.

(** * /continuity *)
Definition session_fact (id : string) (o : option SessionRow) (s : world) : Prop :=
  match o with Some r => se_id r = id ∧ has_session id s | None => True end.

Lemma canonicalize_ne v : canonicalize v ≠ EmptyString.
Proof.
  destruct (canon_text_head (normalize v) (normalize_normal v)) as (a & t & H & _).
  unfold canonicalize. by rewrite H.
Qed.

Lemma hashCanonical_ne v : hashCanonical v ≠ EmptyString.
Proof. intros E. pose proof (hashCanonical_length v) as H. by rewrite E in H. Qed.

Lemma activeSession_fact id s : lawful_world s → oke (session_fact id) (activeSession id) s.
Proof.
  intros Hs. unfold activeSession. destruct (is_empty_str id); [by apply oke_ret|].
  apply (oke_ebind (session_fact id)); [|done|].
  { apply oke_select.
    - intros s2 _. unfold find_session. destruct (List.find _ _) as [r|] eqn:E; [|done].
      apply find_elem in E as [Hr E%sql_eqb_true]. split; [done|]. by exists r.
    - intros [r|] s2 s3 Hg; [|done]. intros [? ?]. split; [done|]. by eapply has_session_grows. }
  intros [r|] s1 Hg Hs1 Hr; [|by apply oke_ret].
  repeat first [ by apply oke_ret | oke_step ].
  apply oke_ret. intros s2 Hg2 _. destruct Hr. split; [done|]. eapply has_session_grows; [|done]. grow.
Qed.

Section Continuity.
Context (json_canonical : ∀ v, json_parse (canonicalize v) = Some (normalize v)).

Lemma canonicalRecord_idem v : canonicalRecord (canonicalRecord v) = canonicalRecord v.
Proof.
  unfold canonicalRecord, normalizeCanonicalValue.
  destruct (normalize v) as [| | | | | |ps] eqn:E; try done.
  assert (normalize (JObj ps) = JObj ps) as ->; [|done]. rewrite <- E. apply normalize_idemp.
Qed.

Lemma canonicalRecord_normal v : normalize (canonicalRecord v) = canonicalRecord v.
Proof.
  unfold canonicalRecord, normalizeCanonicalValue.
  destruct (normalize v) as [| | | | | |ps] eqn:E; try done. rewrite <- E. apply normalize_idemp.
Qed.

Lemma canonicalRecord_record v : is_record (canonicalRecord v) = true.
Proof. unfold canonicalRecord. by destruct (normalizeCanonicalValue v). Qed.

Lemma stored_canonical v : stored_json (canonicalize v) = canonicalize v.
Proof.
  unfold stored_json. destruct (is_empty_str (canonicalize v)) eqn:E; [|done].
  apply String.eqb_eq in E. destruct (canon_text_head (normalize v) (normalize_normal v)) as (a & t & H & _).
  unfold canonicalize in E. congruence.
Qed.

Lemma normal_get v k : normal v → get v k = JUndef ∨ normal (get v k).
Proof.
  intros Hv. destruct Hv as [| | | | |ps _ Hn _]; simpl; auto.
  induction ps as [|[j x] ps IH]; simpl; [auto|]. apply Forall_cons in Hn as [Hx Hn].
  destruct (String.eqb k j); [by right|by apply IH].
Qed.

(** The scope of a stored continuity is the one that was asked for. *)
Lemma stored_scope c b session cid pid iat eat scope hash :
  co_canonical c = canonicalize (JObj (props (continuity_of b session cid pid iat eat scope)
    ++ [("continuity_hash", JStr hash)])) →
  row_scope c = canonicalRecord scope.
Proof.
  intros Hc. unfold row_scope. rewrite Hc, stored_canonical, json_canonical.
  set (v := JObj _).
  assert (normalize (get (normalize v) "scope") = normalize (get v "scope")) as E
    by (apply normalize_get; [done|apply normalize_idemp]).
  change (get v "scope") with (canonicalRecord scope) in E. rewrite canonicalRecord_normal in E.
  destruct (normal_get (normalize v) "scope" (normalize_normal v)) as [Hu|Hn].
  - rewrite Hu in E. pose proof (canonicalRecord_record scope) as Hr. by rewrite <- E in Hr.
  - rewrite (normalize_id _ Hn) in E. rewrite E, canonicalRecord_record. apply canonicalRecord_idem.
Qed.

Definition parent_fact (session : SessionRow) (parent_id : string) (scope : jsval) (s : world) : Prop :=
  ∃ p n, present p s ∧ co_id p = parent_id ∧ of_this session p
    ∧ scope_entries_within (row_scope p) (props (canonicalRecord scope)) = true
    ∧ depth_in (continuities s) parent_id n ∧ (n < SYSTEM_MAX_CONTINUITY_DEPTH)%nat.

Lemma parent_fact_grows session parent_id scope s s' :
  grows s s' → parent_fact session parent_id scope s → parent_fact session parent_id scope s'.
Proof.
  intros Hg (p & n & Hp & ? & ? & ? & Hd & ?). exists p, n.
  split; [by eapply present_grows|]. do 3 (split; [done|]). split; [|done].
  eapply depth_in_grows; [apply (g_continuities _ _ Hg)|done].
Qed.

Lemma check_parent_fact session parent_id scope s :
  lawful_world s →
  oke (λ _ s, parent_fact session parent_id scope s) (check_parent session parent_id scope) s.
Proof.
  intros Hs. unfold check_parent. eapply oke_ebind; [by apply activeContinuity_fact|done|].
  intros [[[row canonical] ancestry]|] s1 Hg Hs1 Hfact; [|deny].
  destruct Hfact as [(Hp & Hid & Hthis & Htext) Hd]. simpl in *. cbv zeta.
  destruct (Nat.ltb_spec SYSTEM_MAX_CONTINUITY_DEPTH (S (length ancestry))) as [|Hlen]; [deny|].
  destruct (exceeds_configured _ _); [deny|].
  destruct (scope_entries_within _ _) eqn:Hscope; simpl; [|deny].
  apply oke_ret. intros s2 Hg2 _. eapply parent_fact_grows; [done|].
  exists row, (length ancestry). split; [done|]. split; [done|]. split; [done|]. split; [|split; [done|lia]].
  unfold row_scope. by rewrite Htext.
Qed.

(** The row of a request may be inserted once its parent is checked. *)
Lemma may_insert_continuity row b session cid parent_id iat eat scope hash s :
  co_canonical row = canonicalize (JObj (props (continuity_of b session cid parent_id iat eat scope)
    ++ [("continuity_hash", JStr hash)])) →
  co_session row = se_id session → co_identity row = se_identity session →
  co_parent row = non_empty parent_id → rooted row s → co_status row = "ACTIVE" →
  (parent_id ≠ EmptyString → parent_fact session parent_id scope s) → may_insert row s.
Proof.
  intros Hc Hses Hidn Hpar Hroot Hact Hfact. split; [done|]. split; [done|].
  rewrite Hpar. unfold non_empty.
  destruct (is_empty_str parent_id) eqn:E; [by left|]. right. simpl.
  destruct Hfact as (p & n & (p' & Hp' & Ek) & Hid & [Hps Hpi] & Hscope & Hd & Hn).
  { intros ->. done. }
  unfold continuity_key in Ek. exists p', n. split; [done|]. split; [congruence|].
  split; [intros Hz; replace parent_id with EmptyString in E by congruence; done|].
  split; [|split; [|done]].
  - split; [congruence|]. split; [congruence|].
    rewrite (stored_scope _ _ _ _ _ _ _ _ _ Hc).
    replace (row_scope p') with (row_scope p); [done|]. unfold row_scope.
    by replace (co_canonical p') with (co_canonical p) by congruence.
  - by replace (co_id p') with parent_id by congruence.
Qed.

Lemma continuity_sound rq s :
  lawful_world s → oke (λ r s, sound R_continuity rq r s) (continuity_route rq) s.
Proof.
  intros Hs. unfold continuity_route. oke_step. cbv zeta.
  eapply oke_ebind; [by apply activeSession_fact|done|].
  intros [session|] s1 Hg1 Hs1 Hses; [|deny]. destruct Hses as [Hses Hin].
  do 4 oke_step; [deny|].
  set (parent_id := text (get (body rq) "parent_continuity_id")).
  set (scope := if is_record (get (body rq) "scope") then _ else _).
  set (hash := continuityHash _). oke_step; [deny|].
  apply (oke_ebind (λ _ s, parent_id ≠ EmptyString → parent_fact session parent_id scope s)); [|done|].
  { unfold is_empty_str. destruct (String.eqb_spec parent_id EmptyString) as [E|E].
    - by apply oke_ret.
    - eapply oke_weaken; [|by apply check_parent_fact]. auto. }
  intros _ s2 Hg2 Hs2 Hparent. oke_step; [deny|].
  set (row := mkContinuity _ _ _ _ _ _ _ _ _ _).
  apply (oke_ebind (λ _ s, present row s)); [|done|].
  { apply oke_insert; [|done]. intros s3 Hg3 Hs3. split.
    - apply advance_insert_continuity; [done|]. eapply may_insert_continuity; try reflexivity.
      { simpl. done. }
      { split; [|apply hashCanonical_ne]. simpl.
        eapply has_session_grows; [|exact Hin]. grow. }
      intros Hne. eapply parent_fact_grows; [exact Hg3|]. by apply Hparent.
    - unfold insert_continuity. destruct (append_unless _ _ _) as [rows ok] eqn:E. simpl. intros ->.
      intros s4 Hg4. eapply present_grows; [exact Hg4|]. exists row. split; [|done]. simpl.
      pose proof (f_equal fst E) as E1. simpl in E1. rewrite <- E1, append_ok by (by rewrite E).
      apply last_elem. }
  intros _ s3 Hg3 Hs3 Hrow. oke_step. apply oke_ret. intros s4 Hg4 _. right. right. split; [reflexivity|].
  destruct (present_grows row s3 s4 ltac:(grow) Hrow) as (c & Hc & E).
  injection E as E1 _ E3 _ E5 _ _. exists c. split; [done|].
  unfold claims. rewrite E1, E3, E5. done.
Qed.
End Continuity.

(** * /compile *)
Lemma oke_attempt {A} (Q : A → world → Prop) (m h : eff A) s :
  oke Q m s → lawful_world s →
  (∀ s', grows s s' → lawful_world s' → oke Q h s') →
  (∀ a s s', Q a s → grows s s' → Q a s') → oke Q (attempt m h) s.
Proof.
  intros Hm Hs Hh HQ. eapply ok_bind; [apply _|exact Hm| |done].
  intros [a|r|] s' Hg Hs' Ho; [|by intros s2 _ _|by apply Hh].
  intros s2 Hg2 _. simpl in *. by eapply HQ.
Qed.

Definition compiled_fact (decision : string) (r : response) (s : world) : Prop :=
  says "COMPILED" r ∧ ∃ o, o ∈ aeos s ∧ ao_decision o = decision
    ∧ claims r "validated_object_hash" (ao_hash o).

Lemma compiled_fact_grows decision r s s' :
  compiled_fact decision r s → grows s s' → compiled_fact decision r s'.
Proof.
  intros (Hr & o & Ho & ?) Hg. split; [done|]. exists o. split; [|done].
  by eapply prefix_elem; [apply (g_aeos _ _ Hg)|].
Qed.

Lemma reuse_compiled_fact d sn a first rows required s :
  lawful_world s → first ∈ aeos s → ao_decision first = d →
  oke (compiled_fact d) (reuse_compiled d sn a first rows required) s.
Proof.
  intros Hs Hin Hd. unfold reuse_compiled. cbv zeta. oke_step; [deny|]. do 2 oke_step.
  apply oke_ret. intros s2 Hg2 _. eapply compiled_fact_grows; [|exact Hg2]. split; [reflexivity|].
  exists first. split; [|done]. eapply prefix_elem; [|exact Hin].
  apply g_aeos. grow.
Qed.

(** The authority a request found is still there, of its decision. *)
Definition authority_fact (d : string) (a : AuthorityRow) (s : world) : Prop :=
  ∃ a', a' ∈ authorities s ∧ au_id a' = au_id a ∧ au_decision a' = d.

Lemma authority_fact_grows d a s s' : grows s s' → authority_fact d a s → authority_fact d a s'.
Proof.
  intros Hg (a1 & Ha & ? & ?).
  destruct (key_elem _ _ _ _ (g_authorities _ _ Hg) Ha) as (a2 & Ha2 & E).
  unfold authority_key in E. exists a2. split; [done|]. split; congruence.
Qed.

Lemma compile_new_fact d sn a target required s :
  lawful_world s → authority_fact d a s →
  oke (compiled_fact d) (compile_new d sn a target required) s.
Proof.
  intros Hs Hauth. unfold compile_new. do 2 (oke_step; [|oke_step]). cbv zeta. do 3 oke_step.
  set (row := mkAeoRow _ _ _ _ _ _ _ _ _ _ _ _ _ _ _).
  apply (oke_ebind (λ _ s, row ∈ aeos s)); [|done|].
  { apply oke_insert; [|done]. intros s3 Hg3 Hs3. split.
    { apply advance_insert_aeo; [done|].
      destruct (authority_fact_grows d a s s3 ltac:(grow) Hauth) as (a' & ? & ? & ?).
      split; [by exists a'|]. split; [done|apply canonicalize_ne]. }
    unfold insert_aeo. destruct (append_unless _ _ _) as [rows ok] eqn:E. simpl. intros -> s4 Hg4.
    eapply prefix_elem; [apply (g_aeos _ _ Hg4)|]. simpl.
    pose proof (f_equal fst E) as E1. simpl in E1. rewrite <- E1, append_ok by (by rewrite E).
    apply last_elem. }
  intros _ s3 Hg3 Hs3 Hrow. oke_step. oke_step; [|oke_step]. apply oke_ret. intros s4 Hg4 _.
  split; [reflexivity|]. exists row. split; [|done]. eapply prefix_elem; [|exact Hrow].
  apply g_aeos. grow.
Qed.

Lemma sort_by_elem {A} (le : A → A → bool) l x : x ∈ sort_by le l → x ∈ l.
Proof. by rewrite sort_by_perm. Qed.

Lemma compile_with_fact d sn a s :
  lawful_world s → authority_fact d a s → oke (compiled_fact d) (compile_with d sn a) s.
Proof.
  intros Hs Hauth. unfold compile_with. oke_step. oke_step; [deny|].
  destruct (compile_status_refusal _); [deny|].
  oke_step. oke_step; [|deny]. oke_step. oke_step; [|deny]. oke_step; [|oke_step].
  cbv zeta. oke_step; [deny|]. oke_step.
  apply (oke_ebind (λ rows s, ∀ o, o ∈ rows → o ∈ aeos s ∧ ao_decision o = d)); [|done|].
  { apply oke_select.
    - intros s2 _ o (Ho & Hd)%sort_by_elem%list_elem_of_In%filter_In.
      apply sql_eqb_true in Hd. by rewrite list_elem_of_In.
    - intros rows s2 s3 Hg H' o [Ho Hd]%H'. split; [|done].
      eapply prefix_elem; [apply (g_aeos _ _ Hg)|done]. }
  intros [|first rows] s1 Hg1 Hs1 Hrows.
  { apply compile_new_fact; [done|]. eapply authority_fact_grows; [|exact Hauth]. grow. }
  destruct (Hrows first) as [Hin Hd]; [left|]. by apply reuse_compiled_fact.
Qed.

Lemma compile_sound rq s :
  lawful_world s → oke (λ r s, sound R_compile rq r s) (compile_route rq) s.
Proof.
  intros Hs. apply (oke_weaken (λ r s, says "FAILED" r ∨ compiled_fact (text (get (body rq) "decision_id")) r s)).
  { intros r s' [?|?]; [by right; left; split|by right; right]. }
  unfold compile_route. apply oke_attempt; [|done| |].
  - eapply oke_weaken; [intros r s' H; right; exact H|].
    unfold compile_body, hasColumn. cbv zeta. do 2 oke_step. oke_step; [|deny].
    oke_step; [deny|]. oke_step; [|deny]. do 2 oke_step. oke_step; [deny|]. oke_step.
    oke_step; [deny|].
    apply (oke_ebind (λ o s, match o with
      | Some a => authority_fact (text (get (body rq) "decision_id")) a s | None => True end)); [|done|].
    { apply oke_select.
      - intros s2 _. unfold find_authority. destruct (List.find _ _) as [au|] eqn:E; [|done].
        apply find_elem in E as [Ha E%sql_eqb_true]. by exists au.
      - intros [au|] s2 s3 Hg; [|done]. by apply authority_fact_grows. }
    intros [au|] s4 Hg4 Hs4 Ha; [|deny]. by apply compile_with_fact.
  - intros s' Hg Hs'. oke_step. apply oke_ret. intros. by left.
  - intros r s1 s2 [?|Hr] Hg; [by left|right]. by eapply compiled_fact_grows.
Qed.

(** * /validate *)
Lemma compiled_for_stable d h c s s' : grows s s' → compiled_for d h c s → compiled_for d h c s'.
Proof. intros Hg. apply compiled_for_grows, Hg. Qed.

(** An authority that passed has a continuity. *)
Lemma validate_authority_fact d ses s :
  lawful_world s → oke (λ a _, au_continuity a ≠ EmptyString) (validate_authority d ses) s.
Proof.
  intros Hs. unfold validate_authority. oke_step. oke_step; [|deny]. cbv zeta. oke_step.
  do 3 (oke_step; [deny|]). oke_step. oke_step; [|deny]. oke_step; [deny|].
  match goal with |- context [activeContinuity (au_continuity ?a) _ _] =>
    destruct (is_empty_str (au_continuity a)) eqn:Hc end.
  { unfold activeContinuity, resolveContinuityLineage. rewrite Hc.
    eapply (oke_ebind (λ o _, o = None)); [by apply oke_ret|done|].
    intros o w Hgw Hsw ->. deny. }
  apply is_empty_str_false in Hc. oke_step. oke_step; [|deny]. oke_step.
  oke_step; [|deny]. oke_step. do 2 (oke_step; [deny|]). by apply oke_ret.
Qed.

Lemma validate_compiled_fact d h a s :
  lawful_world s → au_continuity a ≠ EmptyString →
  oke (λ _ s, compiled_for d h (au_continuity a) s) (validate_compiled d h a) s.
Proof.
  intros Hs Hac. unfold validate_compiled.
  apply (oke_ebind (λ o s, match o with
    | Some o => o ∈ aeos s ∧ compiled_as d h o = true | None => True end)); [|done|].
  { apply oke_select.
    - intros s2 _. destruct (List.find _ _) as [o|] eqn:E; [|done]. by apply find_elem in E.
    - intros [o|] s2 s3 Hg; [|done]. intros [Ho ?]. split; [|done].
      eapply prefix_elem; [apply (g_aeos _ _ Hg)|done]. }
  intros found s1 Hg1 Hs1 Hfound. cbv zeta. oke_step; [deny|].
  destruct found as [o|]; [|oke_step; oke_step; deny]. destruct Hfound as [Ho Has].
  destruct (stored_aeo (ao_canonical o)) as [aeo|] eqn:Haeo; [|deny].
  destruct (_ || _ || _) eqn:Hne; [deny|]. destruct (negb (compiled_by o a)) eqn:Hby; [deny|].
  apply negb_false_iff in Hby. unfold compiled_by in Hby. rewrite !andb_true_iff in Hby.
  destruct Hby as [[[_ Hcon%String.eqb_eq] _] _].
  apply oke_ret. intros s2 Hg2 _. eapply compiled_for_stable; [exact Hg2|].
  apply orb_false_iff in Hne as [[H1 H2]%orb_false_iff H3].
  apply negb_false_iff, String.eqb_eq in H1, H2, H3. unfold compiled_as in Has.
  apply andb_true_iff in Has as [[Hd Hh]%andb_true_iff _]. apply sql_eqb_true in Hd, Hh.
  exists o, aeo. exact (conj Ho (conj Hd (conj Hh (conj Haeo (conj H3 (conj H1 (conj Hcon Hac))))))).
Qed.

Definition valid_fact (d h n ses : string) (s : world) : Prop :=
  ∃ v, v ∈ validations s ∧ va_decision v = d ∧ va_hash v = h ∧ va_nonce v = n ∧ va_session v = ses.

Lemma valid_fact_grows d h n ses s s' : grows s s' → valid_fact d h n ses s → valid_fact d h n ses s'.
Proof.
  intros Hg (v & Hv & ? & ? & ? & ?).
  destruct (key_elem _ _ _ _ (g_validations _ _ Hg) Hv) as (v' & Hv' & E).
  injection E as E1 E2 E3 E4 E5 E6 E7 E8 E9 E10. exists v'. split; [done|]. repeat split; congruence.
Qed.

Lemma validate_commit_fact d h n ses a o aeo env s :
  lawful_world s → compiled_for d h (au_continuity a) s →
  oke (λ _ s, valid_fact d h n ses s) (validate_commit d h n ses a o aeo env) s.
Proof.
  intros Hs Hc. unfold validate_commit. do 2 oke_step. oke_step; [deny|]. cbv zeta.
  oke_step; [deny|]. do 2 oke_step.
  set (row := validation_row _ _ _ _ _ _ _ _ _ _ _).
  apply (oke_ebind (λ _ s, valid_fact d h n ses s)); [|done|].
  { apply oke_insert; [|done]. intros s3 Hg3 Hs3. split.
    - apply advance_insert_validation; [done| |done]. eapply compiled_for_stable; [|exact Hc]. grow.
    - unfold insert_validation. destruct (append_unless _ _ _) as [rows ok] eqn:E. simpl.
      intros -> s4 Hg4. eapply valid_fact_grows; [exact Hg4|]. exists row. split; [|done]. simpl.
      pose proof (f_equal fst E) as E1. simpl in E1. rewrite <- E1, append_ok by (by rewrite E).
      apply last_elem. }
  intros _ s3 Hg3 Hs3 Hrow. do 3 oke_step. apply oke_ret. intros s4 Hg4 _.
  eapply valid_fact_grows; [|exact Hrow]. grow.
Qed.

Lemma validate_sound rq s :
  lawful_world s → oke (λ r s, sound R_validate rq r s) (validate_route rq) s.
Proof.
  intros Hs. unfold validate_route. cbv zeta. oke_step. unfold validate_body. oke_step.
  do 3 (oke_step; [deny|]). eapply oke_ebind; [by apply validate_authority_fact|done|].
  intros au s0 Hg0 Hs0 Ha. eapply oke_ebind; [by apply validate_compiled_fact|done|].
  intros [compiled aeo] s1 Hg1 Hs1 Hc. oke_step.
  match goal with |- oke _ _ ?s => assert (compiled_for
    (text (get (body rq) "decision_id")) (text (get (body rq) "validated_object_hash"))
    (au_continuity au) s) as Hc'
    by (eapply compiled_for_stable; [|exact Hc]; grow) end.
  eapply oke_ebind; [by apply validate_commit_fact|done|].
  intros o s2 Hg2 Hs2 Hv. oke_step. apply oke_ret. intros s3 Hg3 _. right. right.
  split; [unfold valid_answer; by repeat case_match|].
  eapply valid_fact_grows; [|exact Hv]. grow.
Qed.

(** * /execute *)
Lemma insert_execution_row row s :
  (insert_execution row s).2 = Some 1%nat → row ∈ executions (insert_execution row s).1.
Proof.
  unfold insert_execution. destruct (may_execute _ _ _); [|done].
  destruct (append_cases same_run row (executions s)) as [[E _]|[E _]]; rewrite E; [done|].
  intros _. apply last_elem.
Qed.

Definition executed_fact (d h n : string) (r : response) (s : world) : Prop :=
  says "EXECUTED" r ∧ ∃ e, e ∈ executions s ∧ claims r "execution_id" (ex_id e)
    ∧ ex_decision e = d ∧ ex_hash e = h ∧ ex_nonce e = n.

Lemma execute_commit_fact d h n ses v a p sn s :
  lawful_world s → oke (executed_fact d h n) (execute_commit d h n ses v a p sn) s.
Proof.
  intros Hs. unfold execute_commit. do 2 oke_step.
  set (row := execution_row _ _ _ _ _ _ _ _).
  apply (oke_ebind (λ w s, w = Some 1%nat → row ∈ executions s)); [|done|].
  { apply oke_exec. intros s2 Hg Hs2. split; [by apply lawful_insert_execution; [split_and!; [done|by eexists|done]|]|].
    intros s3 Hg3 _ Hw. eapply prefix_elem; [apply (g_executions _ _ Hg3)|].
    by apply insert_execution_row. }
  intros [[|[|k]]|] s1 Hg1 Hs1 Hrow; [deny| |deny|deny].
  do 8 oke_step. apply oke_ret. intros s3 Hg3 _. split; [reflexivity|]. exists row.
  split; [|done]. eapply prefix_elem; [|by apply Hrow]. apply g_executions. grow.
Qed.

Lemma execute_sound secret rq s :
  lawful_world s → oke (λ r s, sound R_execute rq r s) (execute_route secret rq) s.
Proof.
  intros Hs. unfold execute_route. cbv zeta. oke_step. unfold execute_body. cbv zeta. do 2 oke_step.
  oke_step. do 3 oke_step. eapply oke_weaken; [|by apply execute_commit_fact].
  intros r w Hr. right. by right.
Qed.

(** * /proof *)
Definition proven_fact (pc : proof_commit) (s : world) : Prop :=
  ∃ p o, p ∈ proofs s ∧ pf_id p = pc_proof pc ∧ pf_execution p = pc_execution pc
    ∧ pf_decision p = pc_decision pc ∧ pf_hash p = pc_hash pc ∧ pf_session p = pc_session pc
    ∧ o ∈ outbox s ∧ ob_proof o = pc_proof pc.

Lemma proven_fact_grows pc s s' : grows s s' → proven_fact pc s → proven_fact pc s'.
Proof.
  intros Hg (p & o & Hp & H1 & H2 & H3 & H4 & H5 & Ho & H6). exists p, o.
  split; [by eapply prefix_elem; [apply (g_proofs _ _ Hg)|]|]. do 5 (split; [done|]).
  split; [by eapply prefix_elem; [apply (g_outbox _ _ Hg)|]|done].
Qed.

(** A proof row and an outbox row counted are there. *)
Lemma proof_statements_rows pc s c :
  (proof_statements pc s).2 = (1%nat, c, 1%nat) → proven_fact pc (proof_statements pc s).1.
Proof.
  unfold proof_statements. destruct (proof_source pc s) as [[[a r] k]|] eqn:E.
  2: { destruct (existsb _ _); [destruct (append_unless _ _ _)|]; intros H; discriminate H. }
  destruct (append_cases same_proof (proof_row pc a r k) (proofs s)) as [[Ea _]|[Ea _]]; rewrite Ea.
  { cbv beta iota zeta. destruct (existsb _ _); [|intros H; discriminate H].
    match goal with |- context [append_unless ?f ?x ?l] => destruct (append_unless f x l) end.
    intros H. discriminate H. }
  destruct (existsb _ _); [|done].
  match goal with |- context [append_unless ?f ?x ?l] =>
    destruct (append_cases f x l) as [[Eb _]|[Eb _]]; rewrite Eb end; [done|].
  intros _. exists (proof_row pc a r k), (outbox_row pc). simpl.
  split; [apply last_elem|]. do 5 (split; [done|]). split; [apply last_elem|done].
Qed.

Lemma commit_proof_rows pc s c :
  (commit_proof pc s).2 = Some (1%nat, c, 1%nat) → proven_fact pc (commit_proof pc s).1.
Proof.
  unfold commit_proof. destruct (_ && _); [done|].
  pose proof (proof_statements_rows pc s c) as H.
  destruct (proof_statements pc s) as [s3 counts]. simpl in H.
  destruct (pc_attestation pc) as [row|]; [|simpl; intros [= ->]; by apply H].
  destruct (append_unless _ _ _) as [rows [|]]; [|done]. simpl. intros [= ->].
  by specialize (H eq_refl).
Qed.

Definition proved_fact (pc : proof_commit) (r : response) (s : world) : Prop :=
  says "PROVEN" r ∧ claims r "proof_id" (pc_proof pc) ∧ proven_fact pc s.

Lemma proof_commit_fact e d h ses pc a x s :
  lawful_world s → oke (proved_fact pc) (proof_commit_step e d h ses pc a x) s.
Proof.
  intros Hs. unfold proof_commit_step. cbv zeta.
  apply (oke_ebind (λ w s, ∀ c, w = Some (1%nat, c, 1%nat) → proven_fact pc s)); [|done|].
  { apply oke_exec. intros s2 Hg Hs2. split; [by apply lawful_commit_proof|].
    intros s3 Hg3 _ c Hc. eapply proven_fact_grows; [exact Hg3|]. by eapply commit_proof_rows. }
  intros [[[i c] q]|] s1 Hg1 Hs1 Hrow; [|deny].
  oke_step; [deny|]. oke_step. oke_step; [deny|]. oke_step; [deny|].
  do 3 oke_step. apply oke_ret. intros s3 Hg3 _. split; [reflexivity|]. split; [done|].
  eapply proven_fact_grows; [|apply (Hrow c)]; [grow|].
  repeat match goal with
    | H : _ || _ = false |- _ => apply orb_false_iff in H as [? ?]
    | H : negb _ = false |- _ => apply negb_false_iff, Nat.eqb_eq in H
    end. by subst.
Qed.

Lemma proof_sound secret rq s :
  lawful_world s → oke (λ r s, sound R_proof rq r s) (proof_route secret rq) s.
Proof.
  intros Hs. unfold proof_route. cbv zeta. oke_step. unfold proof_body. cbv zeta.
  repeat oke_step. eapply oke_weaken; [|by apply proof_commit_fact].
  intros r w (Hsays & Hid & p' & o & Hp'). right. right. split; [done|].
  destruct Hp' as (Hp & E1 & E2 & E3 & E4 & E5 & Ho & E6). simpl in *. exists p', o.
  unfold claims in *. rewrite Hid. repeat split; congruence || assumption.
Qed.

(** * /session *)

(** A row with this key is there. *)
Definition keyed {R K} (key : R → K) (row : R) (rows : list R) : Prop :=
  ∃ x, x ∈ rows ∧ key x = key row.

Lemma keyed_grows {R K} (key : R → K) row rows rows' :
  map key rows `prefix_of` map key rows' → keyed key row rows → keyed key row rows'.
Proof.
  intros Hp (x & Hx & E). destruct (key_elem _ _ _ _ Hp Hx) as (y & Hy & E').
  exists y. split; [done|congruence].
Qed.

(** The row of an insert that reports a change. *)
Lemma append_row {R} (clash : R → R → bool) row rows :
  (append_unless clash row rows).2 = true → row ∈ (append_unless clash row rows).1.
Proof. intros H. rewrite append_ok by done. apply last_elem. Qed.

Lemma session_sound rq s :
  lawful_world s → oke (λ r s, sound R_session rq r s) (session_route rq) s.
Proof.
  intros Hs. unfold session_route. oke_step. cbv zeta.
  oke_step; [by apply oke_ret; intros; left|]. do 2 oke_step.
  oke_step; [by apply oke_ret; intros; left|]. do 2 oke_step.
  set (row := mkSession _ _ _ _ _ _ _).
  apply (oke_ebind (λ _ s, keyed session_key row (sessions s))); [|done|].
  { apply oke_insert; [|done]. intros s3 Hg3 Hs3. split; [by apply lawful_insert_session|].
    unfold insert_session. pose proof (append_row (λ a b, sql_eqb (se_id a) (se_id b)) row (sessions s3)) as Hr.
    destruct (append_unless _ _ _) as [rows ok]. simpl in *. intros -> s4 Hg4.
    eapply keyed_grows; [apply (g_sessions _ _ Hg4)|]. exists row. auto. }
  intros _ s3 Hg3 Hs3 Hrow. oke_step. apply oke_ret. intros s4 Hg4 _. right. right.
  split; [reflexivity|].
  assert (grows s3 s4) as Hg34 by grow.
  destruct (keyed_grows session_key row (sessions s3) (sessions s4) (g_sessions _ _ Hg34) Hrow)
    as (x & Hx & E). injection E as E1 E2 E3. exists x. unfold claims. by rewrite E1, E2, E3.
Qed.

(** * /govern *)
Lemma bind_govern_fact nonce domain hash t s :
  lawful_world s →
  oke (λ o s, o = None → mkGovernNonce nonce domain hash t ∈ govern_nonces s)
    (bind_govern_nonce nonce domain hash t) s.
Proof.
  intros Hs. unfold bind_govern_nonce. oke_step. oke_step; [by apply oke_ret|].
  set (row := mkGovernNonce _ _ _ _).
  apply (oke_ebind (λ ok s, ok = true → row ∈ govern_nonces s)); [|done|].
  { apply oke_exec. intros s2 Hg Hs2. split; [by apply lawful_insert_govern_nonce|].
    unfold insert_govern_nonce. pose proof (append_row same_nonce row (govern_nonces s2)) as Hr.
    destruct (append_unless _ _ _) as [rows ok]. simpl in *. intros s3 Hg3 _ Hok.
    eapply prefix_elem; [apply (g_govern_nonces _ _ Hg3)|]. by apply Hr. }
  intros [|] s2 Hg2 Hs2 Hrow; [|by apply oke_ret]. apply oke_ret. intros s3 Hg3 _ _.
  eapply prefix_elem; [apply (g_govern_nonces _ _ Hg3)|]. by apply Hrow.
Qed.

Lemma govern_refusal_parsed parsed b nonce :
  govern_refusal parsed b nonce = None → ∃ c, parsed = inl c.
Proof.
  unfold govern_refusal. destruct (resolveGovernPolicyPredicate b).
  destruct (is_empty_str nonce); [done|]. destruct parsed as [c|]; [by exists c|done].
Qed.

Lemma govern_sound rq s :
  lawful_world s → oke (λ r s, sound R_govern rq r s) (govern_route rq) s.
Proof.
  intros Hs. unfold govern_route. cbv zeta.
  set (b := default JNull (rq_body rq)). set (parsed := parseGovernCandidate b).
  set (nonce := rq_header rq "X-Nonce"). set (domain := to_string _).
  destruct (resolveGovernPolicyPredicate b) as [policy digest].
  set (candidate := match parsed with inl c => c | inr _ => empty_candidate end).
  set (hash := hashCanonical (candidate_js candidate)).
  set (projection := computeGovernProjectionHash _). oke_step.
  apply (oke_ebind (λ o s, o = None → (∃ c, parsed = inl c)
    ∧ mkGovernNonce nonce domain hash a ∈ govern_nonces s)); [|done|].
  { destruct (govern_refusal parsed b nonce) as [reason|] eqn:Href; [by apply oke_ret|].
    eapply oke_weaken; [|by apply bind_govern_fact].
    intros o w Ho E. split; [by eapply govern_refusal_parsed|by apply Ho]. }
  intros refused s1 Hg1 Hs1 Hbound. cbv zeta. do 2 oke_step. cbv zeta.
  apply (oke_ebind (λ _ _, True)).
  { apply oke_calm. destruct parsed; [|calm]. unfold captureAgentToolCallATAO. calm. }
  { done. }
  intros atao s2 Hg2 Hs2 _. cbv zeta. set (row := mkGovernEnvelope _ _ _ _ _ _ _ _ _ _ _ _ _).
  apply (oke_ebind (λ ok s, ok = true → row ∈ govern_envelopes s)); [|done|].
  { apply oke_exec. intros s3 Hg Hs3. split; [by apply lawful_insert_govern_envelope|].
    unfold insert_govern_envelope.
    pose proof (append_row (λ a b, sql_eqb (ge_id a) (ge_id b)) row (govern_envelopes s3)) as Hr.
    destruct (append_unless _ _ _) as [rows ok]. simpl in *. intros s4 Hg4 _ Hok.
    eapply prefix_elem; [apply (g_govern_envelopes _ _ Hg4)|]. by apply Hr. }
  intros persisted s3 Hg3 Hs3 Hrow. cbv zeta. oke_step. apply oke_ret. intros s4 Hg4 _.
  destruct persisted; [|by left]. destruct refused as [reason|]; [by left|]. right. right.
  split; [reflexivity|]. destruct (Hbound eq_refl) as [[c Hc] Hn].
  exists c, row, (mkGovernNonce nonce domain hash a). split; [exact Hc|]. split.
  - assert (grows s3 s4) as Hg34 by grow.
    split; [eapply prefix_elem; [apply (g_govern_envelopes _ _ Hg34)|by apply Hrow]|].
    split; [reflexivity|]. split; [reflexivity|]. split; [reflexivity|]. split; [|reflexivity].
    simpl. unfold hash, candidate. by rewrite Hc.
  - split; [|done]. eapply prefix_elem; [|exact Hn]. apply g_govern_nonces. grow.
Qed.

(** * /authority *)

(** The continuity a request named, of its session. *)
Definition resolved_fact (id : string) (session : SessionRow) {X} (o : option X) (s : world) : Prop :=
  o ≠ None → ∃ c, present c s ∧ co_id c = id ∧ of_this session c.

Lemma activeContinuity_resolved id session d s :
  lawful_world s → oke (λ o s, resolved_fact id session o s) (activeContinuity id session d) s.
Proof.
  intros Hs. eapply oke_weaken; [|by apply activeContinuity_fact].
  intros [[[row canonical] ancestry]|] w; [|by intros _ H].
  intros [(Hp & Hid & Hthis & _) _] _. exists row. simpl in *. auto.
Qed.

Lemma authority_sound rq s :
  lawful_world s → oke (λ r s, sound R_authority rq r s) (authority_route rq) s.
Proof.
  intros Hs. unfold authority_route. oke_step. cbv zeta.
  eapply oke_ebind; [by apply activeSession_fact|done|].
  intros [session|] s0 Hg0 Hs0 Hses; [|deny]. destruct Hses as [Hses _].
  oke_step. oke_step; [deny|]. oke_step; [deny|].
  eapply oke_ebind; [by apply activeContinuity_resolved|done|].
  intros continuity s1 Hg1 Hs1 Hcon. oke_step; [|deny].
  destruct (Hcon ltac:(done)) as (c & Hc & Hcid & Hcs & Hci). clear Hcon.
  oke_step. oke_step; [|deny]. oke_step. oke_step; [deny|]. do 5 oke_step. oke_step; [|oke_step; deny].
  cbv zeta. set (row := authority_row _ _ _ _ _ _ _ _ _).
  apply (oke_ebind (λ _ s, keyed authority_key row (authorities s))); [|done|].
  { apply oke_insert; [|done]. intros w Hgw Hsw. split; [by apply lawful_insert_authority|].
    unfold insert_authority.
    pose proof (append_row (λ a b, sql_eqb (au_id a) (au_id b) || sql_eqb (au_decision a) (au_decision b))
      row (authorities w)) as Hr.
    destruct (append_unless _ _ _) as [rows ok]. simpl in *. intros -> w2 Hg2.
    eapply keyed_grows; [apply (g_authorities _ _ Hg2)|]. exists row. auto. }
  intros _ w3 Hg3 Hs3 Hrow. oke_step.
  apply (oke_ebind (λ _ _, True)); [apply oke_calm; calm|done|]. intros _ w4 Hg4 Hs4 _. oke_step.
  apply oke_ret. intros w5 Hg5 _. right. right. split; [reflexivity|].
  assert (grows w3 w5) as Hg35 by grow. assert (grows s1 w5) as Hg15 by grow.
  destruct (keyed_grows authority_key row (authorities w3) (authorities w5)
    (g_authorities _ _ Hg35) Hrow) as (x & Hx & E).
  destruct (present_grows c s1 w5 Hg15 Hc) as (c' & Hc' & Ek).
  unfold authority_key in E. injection E as E1 E2 E3 E4 E5 _ _ E8 _.
  unfold continuity_key in Ek. injection Ek as K1 K2 K3 _ _ _ _.
  exists x, c'. unfold claims. rewrite E1, E2, E3, E4, E5, E8.
  split; [done|]. do 6 (split; [reflexivity|]). split; [done|]. split; [congruence|].
  split; [congruence|exact (eq_trans K2 Hci)].
Qed.

(** * /preo *)
Lemma find_authority_fact d s :
  oke (λ o s, match o with Some a => authority_fact d a s | None => True end)
    (exec (select_authority d)) s.
Proof.
  apply oke_select.
  - intros s2 _. unfold find_authority. destruct (List.find _ _) as [a|] eqn:E; [|done].
    apply find_elem in E as [Ha E%sql_eqb_true]. by exists a.
  - intros [a|] s2 s3 Hg; [|done]. by apply authority_fact_grows.
Qed.

Lemma preo_sound rq s :
  lawful_world s → oke (λ r s, sound R_preo rq r s) (preo_route rq) s.
Proof.
  intros Hs. unfold preo_route. oke_step. cbv zeta. do 6 (oke_step; [deny|]).
  eapply oke_ebind; [by apply find_authority_fact|done|].
  intros [au|] s1 Hg1 Hs1 Hau; [|deny]. oke_step; [deny|]. oke_step. oke_step; [|deny].
  oke_step. oke_step; [|deny]. do 2 oke_step. set (row := mkPreo _ _ _ _ _ _ _ _ _ _).
  apply (oke_ebind (λ ok s, ok = true → row ∈ preos s)); [|done|].
  { apply oke_exec. intros w Hgw Hsw. split; [by apply lawful_insert_preo|].
    unfold insert_preo.
    pose proof (append_row (λ a b, sql_eqb (po_id a) (po_id b)
      || sql_eqb (po_decision a) (po_decision b) && sql_eqb (po_reviewed_hash a) (po_reviewed_hash b))
      row (preos w)) as Hr.
    destruct (append_unless _ _ _) as [rows ok]. simpl in *. intros w2 Hg2 _ Hok.
    eapply prefix_elem; [apply (g_preos _ _ Hg2)|]. by apply Hr. }
  intros [|] w2 Hg2 Hs2 Hrow; cbn [negb]; [|deny]. oke_step. apply oke_ret. intros w3 Hg3 _.
  right. right. split; [reflexivity|]. assert (grows w2 w3) as Hg23 by grow.
  assert (grows s1 w3) as Hg13 by grow.
  destruct (authority_fact_grows _ _ _ _ Hg13 Hau) as (x & Hx & E1 & E2).
  exists row, x. split; [eapply prefix_elem; [apply (g_preos _ _ Hg23)|by apply Hrow]|]. done.
Qed.

(** * The router *)
Section Router.
Context (json_canonical : ∀ v, json_parse (canonicalize v) = Some (normalize v)).

Lemma handler_sound secret rt rq s :
  lawful_world s → oke (λ r s, sound rt rq r s) (handler secret rt rq) s.
Proof using json_canonical.
  intros Hs. destruct rt; simpl.
  - by apply session_sound.
  - by apply continuity_sound.
  - by apply govern_sound.
  - by apply authority_sound.
  - by apply preo_sound.
  - by apply compile_sound.
  - by apply validate_sound.
  - by apply execute_sound.
  - by apply proof_sound.
Qed.

(** Served, whatever the others do, a request gets a sound answer. *)
Lemma serve_ok api_key secret rt rq s :
  lawful_world s → ok perform lawful_world grows (λ r s, sound rt rq r s) (serve api_key secret rt rq) s.
Proof using json_canonical.
  intros Hs. unfold serve. destruct (negb _); [by intros s' _ _; left|].
  eapply ok_map; [intros; reflexivity|].
  eapply ok_weaken; [|by apply handler_sound].
  intros [r|r|] s'; simpl; [done|by left|by left].
Qed.
End Router.
End Worker.
