(* ===== verification/WorkerRun.v ===== *)
(** Requests that arrive at the worker, and the worker run on a concrete platform:
    eight requests that take an intent through the whole lifecycle. *)
From Stdlib Require Import ZArith NArith Lia Ascii.
From stdpp Require Import base list strings pretty.
From S2P Require Import Prelude JsValue Sha256 Canonical Json Effects Finality WorkerValues.
From S2P Require Import WorkerTables WorkerSql WorkerLineage WorkerEvidence WorkerIssuance.
From S2P Require Import WorkerAuthority WorkerExecution WorkerProof.

(** * Arrivals *)

(** A request, or time that passes. *)
Inductive arrival :=
  | Arrives (rt : route) (rq : request)
  | Passes (ms : N).

Definition serves `{!Platform} (api_key secret : string) (a : arrival) : prog sql response :=
  match a with
  | Arrives rt rq => serve api_key secret rt rq
  | Passes ms => Await (tick ms) (λ _, Ret (mkResponse 200 (JObj [])))
  end.

(** * A platform *)

(** A time is written with sixteen digits, so that texts compare as numbers. *)
Fixpoint fixed_digits (n : nat) (z : Z) : string :=
  match n with
  | O => EmptyString
  | S n' => fixed_digits n' (z / 10) +:+ String (ascii_of_N (48 + Z.to_N (z mod 10))) EmptyString
  end.

Definition upper_char (a : ascii) : ascii :=
  if ((97 <=? code a) && (code a <=? 122))%N then ascii_of_N (code a - 32) else a.
Definition lower_char (a : ascii) : ascii :=
  if ((65 <=? code a) && (code a <=? 90))%N then ascii_of_N (code a + 32) else a.

Fixpoint string_map (f : ascii → ascii) (s : string) : string :=
  match s with EmptyString => EmptyString | String a s' => String (f a) (string_map f s') end.

#[export] Instance plain : Platform := {
  json_parse := Json.parse;
  date_parse s := if Nat.eqb (String.length s) 16 then digits_value 0 s else None;
  to_iso := fixed_digits 16;
  other_number _ := NNaN;
  to_upper := string_map upper_char;
  to_lower := string_map lower_char;
  locale_leb := String.leb;
  random_uuid n := "uuid-" +:+ pretty n;
  hmacSha256 key message := sha256Hex (key +:+ message);
  atob s := Some s;
  text_decode s := s
}.

(** * A client *)
Definition post (fields : list (string * jsval)) : request :=
  mkRequest (Some (JObj fields)) (λ name,
    if String.eqb name "X-API-Key" then "key"
    else if String.eqb name "X-Nonce" then "govern-nonce" else EmptyString).

Definition epoch_fields (nonce : string) : list (string * jsval) :=
  [("topology_epoch", jint 0); ("epoch_lineage_parent", JStr "genesis");
   ("epoch_nonce", JStr nonce); ("topology_visibility_state", JStr "visible")].

Definition snapshot_field : string * jsval :=
  ("execution_snapshot", JObj [("repository_tree_hash", JStr "tree"); ("workflow_hash", JStr "sha");
    ("topology_hash", JStr "th"); ("governance_hash", JStr "gh");
    ("runtime_surface_hash", JStr "rh"); ("schema_set_hash", JStr "sh");
    ("workflow_identity", JStr "governed-deploy.yml"); ("replay_epoch", JStr "0")]).

Definition provenance_fields : list (string * jsval) :=
  [("repository", JStr "org/app"); ("branch", JStr "main"); ("pull_request_id", JStr "7");
   ("merge_commit_sha", JStr "merge"); ("source_tree_hash", JStr "tree");
   ("workflow_run_id", JStr "run-1"); ("workflow_sha", JStr "sha")].

Definition partition_fields (at_time : string) : list (string * jsval) :=
  [("partition_finality_state", JStr "PARTITION_SETTLED"); ("partition_epoch", jint 1);
   ("partition_closure_hash", JStr (closure_hash 1 "lineage"));
   ("canonical_lineage_hash", JStr "lineage"); ("partition_lineage_hash", JStr "lineage");
   ("topology_visible", JBool true); ("reconciliation_deterministic", JBool true);
   ("reconciliation_ordering_deterministic", JBool true);
   ("partition_settlement_observed_at", JStr at_time)].

Definition hex_digest : string := sha256Hex "policy".

Definition t0 : Z := 1700000000000.

Definition demo_envelope : string :=
  "41fa4377cb5c7ef4d18ac9b305b04063e4963c724f35a02f206fb374296b99ec".

Definition demo_hash : string :=
  "5a775454b26945dd014e2f2e36f5d34b23d524c6e2fdf071f3f6eb4b22595bfb".

Definition demo_common : list (string * jsval) :=
  [("decision_id", JStr "d1"); ("validated_object_hash", JStr demo_hash);
   ("invocation_nonce", JStr "n1"); ("session_id", JStr "uuid-0"); snapshot_field]
  ++ provenance_fields ++ partition_fields (to_iso t0).

(** Each request names what the earlier answers said. *)
Definition demo_arrivals : list arrival :=
  [Arrives R_session (post [("identity_id", JStr "alice")]);
   Arrives R_continuity (post [("session_id", JStr "uuid-0"); ("continuity_id", JStr "c1");
     ("authority_chain", JArr [JStr "d1"])]);
   Arrives R_govern (post [("intent", JStr "deploy_production");
     ("scope", JObj [("environment", JStr "production")]);
     ("target", JObj [("repo", JStr "org/app")]); ("finality", JObj [("proof_required", JBool true)]);
     ("policy_class", JStr "TOOL_RUNTIME_MUTATION"); ("policy_digest", JStr hex_digest);
     ("topology_attestation_hash", JStr hex_digest)]);
   Arrives R_authority (post ([("session_id", JStr "uuid-0"); ("decision_id", JStr "d1");
     ("continuity_id", JStr "c1"); ("governed_tool_envelope_id", JStr demo_envelope);
     ("scope", JObj [("environment", JStr "production")]);
     ("constraints", JObj [("repo", JStr "org/app"); ("branch", JStr "main")])]
     ++ epoch_fields "e1"));
   Arrives R_compile (post (("decision_id", JStr "d1") :: snapshot_field :: epoch_fields "e2"));
   Passes 1000;
   Arrives R_validate (post ([("decision_id", JStr "d1"); ("validated_object_hash", JStr demo_hash);
     ("invocation_nonce", JStr "n1"); ("session_id", JStr "uuid-0")] ++ epoch_fields "e3"));
   Arrives R_execute (post (demo_common ++ epoch_fields "e4"));
   Arrives R_proof (post (("execution_id", JStr "uuid-4") :: demo_common))].

Definition demo_start : pool response :=
  (empty_world t0, map (serves "key" "secret") demo_arrivals).

(** One request after the other; a turn of a finished request is skipped. *)
Definition demo_order : list nat := concat (map (λ i, repeat i 60) (seq 0 9)).

Definition demo : pool response := schedule perform demo_order demo_start.

Definition answer_status (m : prog sql response) : string :=
  match m with Ret r => str_or_empty (get (rs_body r) "status") | Await _ _ => "unanswered" end.

(** What is seen of a pool. *)
Definition summary (q : pool response) : list string * list string * list nat :=
  (map answer_status q.2, map au_status (authorities q.1),
   [length (continuities q.1); length (aeos q.1); length (validations q.1);
    length (invocations q.1); length (executions q.1); length (proofs q.1); length (outbox q.1)]).

Lemma demo_run :
  summary demo =
    (["SESSION_ACTIVE"; "CONTINUITY_ACTIVE"; "VALID_CANDIDATE"; "ACTIVE"; "COMPILED"; EmptyString;
      "VALID"; "EXECUTED"; "PROVEN"], ["CONSUMED"], [1; 1; 1; 1; 1; 1; 1]%nat).
Proof. vm_compute. reflexivity. Qed.

Lemma demo_steps : pool_steps perform demo_start demo.
Proof. apply schedule_steps. Qed.

(** A session expires before its continuity is extended; a proof is then asked
    for. *)
Definition late_arrivals : list arrival :=
  [Arrives R_session (post [("identity_id", JStr "alice")]);
   Arrives R_continuity (post [("session_id", JStr "uuid-0"); ("continuity_id", JStr "c1")]);
   Passes 7200000;
   Arrives R_continuity (post [("session_id", JStr "uuid-0"); ("parent_continuity_id", JStr "c1")]);
   Arrives R_proof (post (("execution_id", JStr "uuid-4") :: demo_common))].

Definition late_start : pool response :=
  (empty_world t0, map (serves "key" "secret") late_arrivals).

Definition late : pool response :=
  schedule perform (concat (map (λ i, repeat i 60) (seq 0 4))) late_start.

Definition later : pool response := schedule perform (repeat 4%nat 60) late.

Lemma late_run :
  (map se_status (sessions late.1), map (λ c, (co_id c, co_status c)) (continuities late.1))
  = (["EXPIRED"], [("c1", "REVOKED")]).
Proof. vm_compute. reflexivity. Qed.

Lemma late_steps : pool_steps perform late_start late.
Proof. apply schedule_steps. Qed.

Lemma later_steps : pool_steps perform late later.
Proof. apply schedule_steps. Qed.

#[global] Opaque demo demo_start late later late_start.

Lemma demo_answer i status :
  (summary demo).1.1 !! i = Some status → status ≠ EmptyString → status ≠ "unanswered" →
  ∃ r, demo.2 !! i = Some (Ret r) ∧ get (rs_body r) "status" = JStr status.
Proof.
  unfold summary. cbn [fst snd]. rewrite list_lookup_fmap. intros H Hne Hun.
  destruct (demo.2 !! i) as [[r|X e k]|]; simpl in H; [|congruence|done].
  injection H as H. exists r. split; [done|].
  destruct (get (rs_body r) "status"); simpl in H; congruence.
Qed.

Lemma demo_proof : ∃ p, p ∈ proofs demo.1.
Proof.
  assert (length (proofs demo.1) = 1%nat) as H.
  { pose proof (f_equal (λ x, x.2 !! 5%nat) demo_run) as H. cbn in H. congruence. }
  destruct (proofs demo.1) as [|p l]; [done|]. exists p. left.
Qed.
