(* ===== verification/WorkerTheorems.v ===== *)
(** What the worker's lifecycle guarantees when any number of requests is
    served at once and time passes between their statements. *)
From Stdlib Require Import ZArith NArith Lia Ascii.
From stdpp Require Import base list strings pretty.
From S2P Require Import Prelude JsValue Sha256 Canonical Json Effects WorkerValues WorkerTables.
From S2P Require Import WorkerSql WorkerLineage WorkerEvidence WorkerIssuance WorkerAuthority.
From S2P Require Import WorkerExecution WorkerProof WorkerInvariant WorkerLawful WorkerCalm.
From S2P Require Import WorkerLineageProof WorkerSafety WorkerRun.

Section Worker.
Context {platform : Platform} (api_key secret : string).
Local Abbreviation serves := (serves api_key secret).

Context (json_canonical : ∀ v, json_parse (canonicalize v) = Some (normalize v)).

Definition sound_arrival (a : arrival) (r : response) (s : world) : Prop :=
  match a with Arrives rt rq => sound rt rq r s | Passes _ => True end.

Lemma serves_ok a s :
  lawful_world s → ok perform lawful_world grows (λ r s, sound_arrival a r s) (serves a) s.
Proof using json_canonical.
  intros Hs. destruct a as [rt rq|ms]; simpl.
  - by apply serve_ok.
  - intros s2 Hg Hs2. destruct (lawful_tick ms s2 Hs2). split; [done|]. split; done.
Qed.

Lemma pool_safe arrivals s q :
  pool_steps perform (s, map serves arrivals) q → lawful_world s →
  lawful_world q.1 ∧ grows s q.1
  ∧ ∀ i m, q.2 !! i = Some m → ok perform lawful_world grows
      (λ r s, ∀ a, arrivals !! i = Some a → sound_arrival a r s) m q.1.
Proof using json_canonical.
  intros Hsteps Hs. apply (pool_steps_ok perform lawful_world grows
    (λ i r s, ∀ a, arrivals !! i = Some a → sound_arrival a r s) _ _ Hsteps Hs).
  intros i m Hi. simpl in Hi. rewrite list_lookup_fmap in Hi.
  destruct (arrivals !! i) as [a|] eqn:Ha; [|done]. injection Hi as <-.
  eapply ok_weaken; [|by apply serves_ok]. intros r s2 Hr a' [= <-]. done.
Qed.

(** [q] is reached from empty tables by these arrivals. *)
Definition reached (arrivals : list arrival) (q : pool response) : Prop :=
  ∃ now, pool_steps perform (empty_world now, map serves arrivals) q.

Lemma reached_lawful arrivals q : reached arrivals q → lawful_world q.1.
Proof using json_canonical.
  intros [now Hq]. by destruct (pool_safe _ _ _ Hq (empty_lawful now)).
Qed.

(** * Lineage of a proof *)
Lemma hashCanonical_eq v : hashCanonical v = sha256Hex (canonicalize v).
Proof. Transparent hashCanonical. reflexivity. Opaque hashCanonical. Qed.

Definition has_lineage (s : world) (p : ProofRow) : Prop :=
  ∃ e v i a c o aeo,
    (e ∈ executions s ∧ ex_id e = pf_execution p ∧ ex_decision e = pf_decision p
       ∧ ex_hash e = pf_hash p ∧ ex_session e = pf_session p ∧ ex_continuity e = pf_continuity p)
    ∧ (v ∈ validations s ∧ va_decision v = pf_decision p ∧ va_hash v = pf_hash p
       ∧ va_nonce v = ex_nonce e ∧ va_session v = pf_session p ∧ va_continuity v = pf_continuity p)
    ∧ (i ∈ invocations s ∧ in_decision i = pf_decision p ∧ in_hash i = pf_hash p
       ∧ in_nonce i = ex_nonce e ∧ in_continuity i = pf_continuity p)
    ∧ (a ∈ authorities s ∧ au_decision a = pf_decision p ∧ au_session a = pf_session p
       ∧ au_continuity a = pf_continuity p)
    ∧ (c ∈ continuities s ∧ co_id c = pf_continuity p)
    ∧ (o ∈ aeos s ∧ ao_decision o = pf_decision p ∧ ao_hash o = pf_hash p
       ∧ stored_aeo (ao_canonical o) = Some aeo ∧ ao_canonical o = canonicalize (aeo_js aeo)
       ∧ sha256Hex (ao_canonical o) = pf_hash p).

Lemma lawful_lineage s p : lawful_world s → p ∈ proofs s → has_lineage s p.
Proof using Type.
  intros Hs Hp.
  destruct (i_proofs _ Hs p Hp) as (e & He & E1 & E2 & E3 & E4 & E5).
  destruct (i_executions _ Hs e He) as ((v & Hv & V1 & V2 & V3 & V4 & V5) & (i & Hi & I1 & I2 & I3 & I4)
    & (a & Ha & A1 & A2 & A3) & (c & Hc & C1)).
  destruct (i_validations _ Hs v Hv) as (o & aeo & Ho & O1 & O2 & O3 & O4 & O5 & _).
  exists e, v, i, a, c, o, aeo.
  split; [repeat split; congruence|]. split; [repeat split; congruence|].
  split; [repeat split; congruence|]. split; [repeat split; congruence|].
  split; [repeat split; congruence|]. split; [done|]. split; [congruence|]. split; [congruence|].
  split; [done|]. split; [done|]. rewrite O4, <- hashCanonical_eq. unfold aeo_hash in O5. congruence.
Qed.

(** C1. However requests interleave, every proof in the registry has its
    execution, of the same decision, object, session and continuity; that
    execution has its validation and its reserved nonce, an authority and a
    continuity; and the object was compiled for that decision, its stored text
    having the digest that was validated, executed and proved. *)
Theorem proof_lineage arrivals q p :
  reached arrivals q → p ∈ proofs q.1 → has_lineage q.1 p.
Proof using json_canonical.
  intros Hq Hp. apply lawful_lineage; [|done]. by eapply reached_lawful.
Qed.

(** * Answers *)

(** C10. However requests interleave, every answer of the nine routes is a
    refusal, the compiler's own failure, or has its route's one status and names
    rows that are in the registries: a session of the named identity, a continuity
    of the named session, an authority of the named session in a continuity of its
    session and identity, a review of the authority of its decision, a compiled
    object, a validation of the named nonce, an execution, a proof with its outbox
    row; and, for a candidate, its nonce bound to its digest and the envelope of
    the answer in [govern_envelope_registry]. That an envelope of that identifier
    is in [governed_tool_envelope_registry] is not so: it is inserted [OR IGNORE]
    under a nonce that need not be new there. *)
Theorem answers_backed arrivals q i rt rq r :
  reached arrivals q → arrivals !! i = Some (Arrives rt rq) → q.2 !! i = Some (Ret r) →
  sound rt rq r q.1.
Proof using json_canonical.
  intros [now Hq] Ha Hr. destruct (pool_safe _ _ _ Hq (empty_lawful now)) as (Hs & _ & Hok).
  exact (Hok i _ Hr q.1 (reflexivity _) Hs _ Ha).
Qed.

(** * Single use *)

(** C4. However requests interleave, a decision executes an object at most once
    and proves it at most once, no workflow run executes twice, and identifiers of
    sessions and continuities and decisions of authorities are never shared. *)
Theorem single_use arrivals q :
  reached arrivals q →
  NoDup (map (λ e, (ex_decision e, ex_hash e)) (executions q.1))
  ∧ NoDup (map (λ e, pv_workflow_run_id (ex_provenance e)) (executions q.1))
  ∧ NoDup (map (λ p, (pf_decision p, pf_hash p)) (proofs q.1))
  ∧ NoDup (map se_id (sessions q.1)) ∧ NoDup (map co_id (continuities q.1))
  ∧ NoDup (map au_decision (authorities q.1)).
Proof using json_canonical.
  intros Hq. destruct (reached_lawful _ _ Hq). auto 10.
Qed.

(** * Revocation *)

(** C2. Once a continuity is not active any more, it never is again, and no
    request, not even one that was already being served, adds an execution or a
    proof to it; once a session is not active any more, no request adds a proof to
    it. Nothing recorded is ever removed. *)
Theorem revocation_barrier arrivals q q' :
  reached arrivals q → pool_steps perform q q' →
  (∀ id, ended id q.1 → ended id q'.1 ∧ (∀ c, c ∈ continuities q'.1 → co_id c = id → co_status c ≠ "ACTIVE")
     ∧ runs_of id q'.1 = runs_of id q.1 ∧ proofs_of id q'.1 = proofs_of id q.1)
  ∧ (∀ id, closed id q.1 → closed id q'.1 ∧ session_proofs id q'.1 = session_proofs id q.1)
  ∧ executions q.1 `prefix_of` executions q'.1 ∧ proofs q.1 `prefix_of` proofs q'.1
  ∧ aeos q.1 `prefix_of` aeos q'.1 ∧ outbox q.1 `prefix_of` outbox q'.1.
Proof using json_canonical.
  intros [now Hq] Hq'. destruct (pool_safe _ _ _ Hq (empty_lawful now)) as (Hs & _ & Hok).
  destruct (pool_steps_ok perform lawful_world grows _ _ _ Hq' Hs Hok) as (Hs' & Hg & _).
  split; [|split; [apply (g_closed _ _ Hg)|]].
  - intros id Hid. destruct (g_ended _ _ Hg id Hid) as (He & ? & ?). split; [done|]. split; [|done].
    intros c Hc Hcid Hst. by apply (active_not_ended q'.1 c id).
  - destruct Hg. auto.
Qed.
End Worker.

(** * The stored object *)

Lemma normalize_aeo a :
  normalize (a_scope a) = a_scope a → normalize (a_validation a) = a_validation a →
  normalize (a_target a) = a_target a → normalize (a_finality a) = a_finality a →
  normalize (aeo_js a) = JObj [("finality", a_finality a); ("intent", JStr (a_intent a));
    ("scope", a_scope a); ("target", a_target a); ("validation", a_validation a)].
Proof.
  intros H1 H2 H3 H4. unfold aeo_js. rewrite normalize_obj.
  transitivity (JObj (sort_by prop_leb [("intent", JStr (a_intent a));
    ("scope", normalize (a_scope a)); ("validation", normalize (a_validation a));
    ("target", normalize (a_target a)); ("finality", normalize (a_finality a))])); [reflexivity|].
  rewrite H1, H2, H3, H4. clear. destruct a as [i s v t f]. vm_compute. reflexivity.
Qed.

Lemma text_str s : text (JStr s) = s.
Proof. unfold text, js_or. by destruct s. Qed.

Lemma toCanonicalAeo_sorted i s v t f :
  is_empty_str i = false →
  toCanonicalAeo (JObj [("finality", f); ("intent", JStr i); ("scope", s); ("target", t);
    ("validation", v)])
  = Some (mkAEO i (canonicalRecord s) (canonicalRecord v) (canonicalRecord t) (canonicalRecord f)).
Proof.
  intros Hi. transitivity (if is_empty_str (text (JStr i)) then None else
    Some (mkAEO (text (JStr i)) (canonicalRecord s) (canonicalRecord v) (canonicalRecord t)
      (canonicalRecord f))); [reflexivity|].
  by rewrite text_str, Hi.
Qed.

(** C11. What [/compile] stores is what [/validate], [/execute] and [/proof] read
    back: the canonical text of an object is parsed and admitted as that object,
    with the digest it was compiled under. *)
Theorem stored_object_roundtrip `{!Platform} input a :
  (∀ v, json_parse (canonicalize v) = Some (normalize v)) →
  toCanonicalAeo input = Some a →
  stored_aeo (canonicalize (aeo_js a)) = Some a
  ∧ sha256Hex (canonicalize (aeo_js a)) = aeo_hash a.
Proof.
  intros Hjson Ha. split; [|unfold aeo_hash; by rewrite hashCanonical_eq].
  unfold stored_aeo. rewrite stored_canonical, Hjson.
  unfold toCanonicalAeo in Ha.
  destruct (negb (is_record input)); [done|]. destruct (negb (Nat.eqb _ _)); [done|].
  destruct (negb (String.eqb _ _)); [done|].
  destruct (is_empty_str (text (get input "intent"))) eqn:Hi; [done|]. injection Ha as <-.
  rewrite normalize_aeo by (apply canonicalRecord_normal).
  cbn [a_intent a_scope a_validation a_target a_finality].
  by rewrite toCanonicalAeo_sorted, !canonicalRecord_idem.
Qed.

(** * The demonstration run *)
Lemma plain_json v : json_parse (canonicalize v) = Some (normalize v).
Proof. exact (Json.parse_canonicalize v). Qed.

Lemma demo_reached : reached "key" "secret" demo_arrivals demo.
Proof. exists t0. exact demo_steps. Qed.

(** Eight requests, each using what the earlier answers said, take an intent
    from a session to a proof: every one succeeds, and the tables then hold one
    continuity, object, validation, nonce, execution, proof and outbox row, and a
    consumed authority. *)
Theorem lifecycle_completes :
  pool_steps perform demo_start demo
  ∧ summary demo =
      (["SESSION_ACTIVE"; "CONTINUITY_ACTIVE"; "VALID_CANDIDATE"; "ACTIVE"; "COMPILED"; EmptyString;
        "VALID"; "EXECUTED"; "PROVEN"], ["CONSUMED"], [1; 1; 1; 1; 1; 1; 1]%nat).
Proof. split; [exact demo_steps|exact demo_run]. Qed.

Lemma proof_lineage_witness : ∃ p, p ∈ proofs demo.1 ∧ has_lineage demo.1 p.
Proof.
  destruct demo_proof as [p Hp]. exists p. split; [exact Hp|].
  exact (proof_lineage "key" "secret" plain_json _ _ p demo_reached Hp).
Defined.

Lemma answers_backed_witness :
  ∃ r, says "EXECUTED" r ∧ ∃ e, e ∈ executions demo.1 ∧ claims r "execution_id" (ex_id e)
    ∧ ex_decision e = "d1" ∧ ex_hash e = demo_hash ∧ ex_nonce e = "n1".
Proof.
  destruct (demo_answer 7 "EXECUTED") as (r & Hr & Hs); [by rewrite demo_run|done|done|].
  exists r. split; [exact Hs|].
  destruct (answers_backed "key" "secret" plain_json _ _ 7 R_execute
    (post (demo_common ++ epoch_fields "e4")) r demo_reached eq_refl Hr) as [Hn|[[H _]|[_ Hb]]].
  - unfold refusal in Hn. unfold says in Hs. congruence.
  - discriminate H.
  - exact Hb.
Defined.

Lemma single_use_witness :
  NoDup (map (λ p, (pf_decision p, pf_hash p)) (proofs demo.1)) ∧ ∃ p, p ∈ proofs demo.1.
Proof.
  split; [|exact demo_proof].
  exact (proj1 (proj2 (proj2
    (single_use "key" "secret" plain_json demo_arrivals demo demo_reached)))).
Defined.

Lemma late_reached : reached "key" "secret" late_arrivals late.
Proof. exists t0. exact late_steps. Qed.

Lemma late_ended : ended "c1" late.1.
Proof.
  pose proof (f_equal snd late_run) as H. cbn [snd] in H.
  destruct (continuities late.1) as [|c l] eqn:E; [done|]. injection H as E1 E2 _.
  exists c. rewrite E. split; [left|]. split; [done|]. by rewrite E2.
Qed.

Lemma revocation_barrier_witness :
  ended "c1" late.1 ∧ runs_of "c1" later.1 = runs_of "c1" late.1
  ∧ proofs_of "c1" later.1 = proofs_of "c1" late.1.
Proof.
  destruct (proj1 (revocation_barrier "key" "secret" plain_json _ _ _ late_reached later_steps)
    "c1" late_ended) as (_ & _ & H1 & H2).
  split; [exact late_ended|]. split; [exact H1|exact H2].
Defined.

Definition demo_object : jsval :=
  JObj [("intent", JStr "deploy"); ("scope", JObj []); ("validation", JObj []);
    ("target", JObj []); ("finality", JObj [("proof_required", JBool true)])].

Lemma stored_object_roundtrip_witness :
  ∃ a, toCanonicalAeo demo_object = Some a ∧ stored_aeo (canonicalize (aeo_js a)) = Some a.
Proof.
  eexists. split; [reflexivity|].
  exact (proj1 (stored_object_roundtrip demo_object _ plain_json eq_refl)).
Defined.
