(* ===== verification/WorkerForest.v ===== *)
(** The continuities of the worker form a forest of bounded depth, of which the
    revocation cascade ends exactly the part below a continuity. *)
From Stdlib Require Import ZArith NArith Lia Ascii.
From stdpp Require Import base list strings pretty.
From S2P Require Import Prelude JsValue Sha256 Canonical Json Effects WorkerValues WorkerTables.
From S2P Require Import WorkerSql WorkerLineage WorkerEvidence WorkerIssuance WorkerAuthority.
From S2P Require Import WorkerExecution WorkerProof WorkerInvariant WorkerLawful WorkerCalm.
From S2P Require Import WorkerLineageProof WorkerSafety WorkerRun WorkerTheorems.

(** * Ancestors *)
Inductive ancestor_of (cs : list ContinuityRow) : ContinuityRow → ContinuityRow → Prop :=
  | ancestor_parent p c : p ∈ cs → c ∈ cs → co_parent c = Some (co_id p) → ancestor_of cs p c
  | ancestor_up g p c :
      p ∈ cs → c ∈ cs → co_parent c = Some (co_id p) → ancestor_of cs g p → ancestor_of cs g c.

(** [id] names the root or a row below it. *)
Inductive below (cs : list ContinuityRow) (root : string) : string → Prop :=
  | below_root c : c ∈ cs → co_id c = root → below cs root root
  | below_child c p : c ∈ cs → co_parent c = Some p → below cs root p → below cs root (co_id c).

Section Worker.
Context {platform : Platform}.

(** ** Scopes *)
Lemma assoc_in k ps x : assoc k ps = Some x → (k, x) ∈ ps.
Proof.
  induction ps as [|[j y] ps IH]; simpl; [done|].
  destruct (String.eqb_spec k j) as [<-|]; [intros [= <-]; by left|right; auto].
Qed.

Lemma has_own_get k v : has_own k v = true → (k, get v k) ∈ props v.
Proof.
  unfold has_own. destruct v as [| | | | | |ps]; simpl; try done. intros H.
  destruct (assoc k ps) as [x|] eqn:E; simpl; [by apply assoc_in|].
  exfalso. induction ps as [|[j y] ps IH]; simpl in *; [done|].
  destruct (String.eqb k j); [done|auto].
Qed.

Lemma scope_within_trans g p c :
  scope_entries_within g (props p) = true → scope_entries_within p (props c) = true →
  scope_entries_within g (props c) = true.
Proof.
  unfold scope_entries_within. rewrite !forallb_forall. intros Hg Hp [k v] Hin.
  apply Hp in Hin as H. simpl in *. apply andb_true_iff in H as [Hown Heq].
  apply has_own_get, list_elem_of_In, Hg in Hown. simpl in Hown.
  apply andb_true_iff in Hown as [-> Hown]. apply String.eqb_eq in Heq, Hown. simpl.
  apply String.eqb_eq. congruence.
Qed.

Lemma placed_parent cs p c :
  NoDup (map co_id cs) → placed cs → p ∈ cs → c ∈ cs → co_parent c = Some (co_id p) → inherits p c.
Proof.
  intros Hn Hpl Hp [j Hj]%list_elem_of_lookup_1 Hpar.
  destruct (Hpl j c _ Hj Hpar) as (i & p' & _ & Hi & Hid & Hin).
  assert (p' = p) as <-; [|done]. eapply (key_unique co_id); [done| |done..].
  by eapply list_elem_of_lookup_2.
Qed.

Lemma ancestor_inherits cs g c :
  NoDup (map co_id cs) → placed cs → ancestor_of cs g c → inherits g c.
Proof.
  intros Hn Hpl. induction 1 as [p c Hp Hc Hpar|g p c Hp Hc Hpar _ IH]; [by eapply placed_parent|].
  destruct (placed_parent cs p c) as (E1 & E2 & E3); [done..|].
  destruct IH as (F1 & F2 & F3). split; [congruence|]. split; [congruence|].
  by eapply scope_within_trans.
Qed.

Lemma row_scope_canonical c : canonicalRecord (row_scope c) = row_scope c.
Proof.
  unfold row_scope. destruct (json_parse _) as [v|]; [|done].
  destruct (is_record _); [apply canonicalRecord_idem|done].
Qed.

(** C3. However requests interleave, every continuity is at most 32 rows below a
    root, itself included, and has its session and identity from every ancestor,
    none of whose scopes it widens. *)
Theorem continuity_lineage api_key secret arrivals q c :
  (∀ v, json_parse (canonicalize v) = Some (normalize v)) →
  reached api_key secret arrivals q → c ∈ continuities q.1 →
  (∃ n, (n <= SYSTEM_MAX_CONTINUITY_DEPTH)%nat ∧ depth_in (continuities q.1) (co_id c) n)
  ∧ ∀ g, ancestor_of (continuities q.1) g c →
      co_session c = co_session g ∧ co_identity c = co_identity g
      ∧ delegationScopeIsSubset (row_scope g) (row_scope c) = true.
Proof.
  intros Hjson Hq Hc. pose proof (reached_lawful _ _ Hjson _ _ Hq) as Hs.
  split; [by apply (i_shallow _ Hs)|]. intros g Hg.
  destruct (ancestor_inherits _ _ _ (i_continuity_ids _ Hs) (i_placed _ Hs) Hg) as (? & ? & Hscope).
  split; [done|]. split; [done|]. unfold delegationScopeIsSubset. by rewrite !row_scope_canonical.
Qed.

(** * The recursive query *)
Fixpoint level_at (k : nat) (level : list string) (s : world) : list string :=
  match k with O => level | S k' => level_at k' (children_of level s) s end.

Lemma children_elem level s x :
  x ∈ children_of level s ↔
  ∃ c p, c ∈ continuities s ∧ co_id c = x ∧ co_parent c = Some p ∧ p ∈ level.
Proof.
  unfold children_of. split.
  - intros (c & -> & Hc)%list_elem_of_fmap. apply list_elem_of_In, filter_In in Hc as [Hc Hp].
    destruct (co_parent c) as [p|] eqn:E; [|done]. apply str_in_elem in Hp.
    exists c, p. by rewrite list_elem_of_In.
  - intros (c & p & Hc & <- & E & Hp). apply list_elem_of_fmap_2, list_elem_of_In, filter_In.
    rewrite <- list_elem_of_In, E, str_in_elem. done.
Qed.

Lemma level_nil k s : level_at k [] s = [].
Proof.
  induction k as [|k IH]; simpl; [done|].
  replace (children_of [] s) with (@nil string); [done|].
  destruct (children_of [] s) as [|x l] eqn:E; [done|].
  assert (x ∈ children_of [] s) as H by (rewrite E; left).
  apply children_elem in H as (c & p & _ & _ & _ & Hp). by apply elem_of_nil in Hp.
Qed.

Lemma levels_elem n level s x :
  x ∈ lineage_levels n level s ↔ ∃ k, (k < n)%nat ∧ x ∈ level_at k level s.
Proof.
  revert level. induction n as [|n IH]; intros level; simpl.
  - split; [by intros ?%elem_of_nil|]. intros (k & Hk & _). lia.
  - destruct level as [|y l].
    + split; [by intros ?%elem_of_nil|]. intros (k & _ & Hx). rewrite level_nil in Hx. done.
    + rewrite elem_of_app, IH. split.
      * intros [Hx|(k & Hk & Hx)]; [exists O|exists (S k)]; (split; [lia|done]).
      * intros ([|k] & Hk & Hx); [by left|right]. exists k. split; [lia|done].
Qed.

Section Query.
Context (s : world) (lawful_s : lawful_world s) (root : string).

Definition start : list string :=
  map co_id (List.filter (λ c, sql_eqb (co_id c) root) (continuities s)).

Lemma start_elem x : x ∈ start ↔ x = root ∧ ∃ c, c ∈ continuities s ∧ co_id c = root.
Proof.
  unfold start. split.
  - intros (c & -> & Hc)%list_elem_of_fmap. apply list_elem_of_In, filter_In in Hc as [Hc E].
    apply sql_eqb_true in E. split; [done|]. exists c. by rewrite list_elem_of_In.
  - intros (-> & c & Hc & <-). apply list_elem_of_fmap_2, list_elem_of_In, filter_In.
    rewrite <- list_elem_of_In. split; [done|]. apply String.eqb_refl.
Qed.

Lemma level_below k level :
  (∀ x, x ∈ level → below (continuities s) root x) →
  ∀ x, x ∈ level_at k level s → below (continuities s) root x.
Proof.
  revert level. induction k as [|k IH]; intros level Hl; simpl; [done|]. apply IH.
  intros x (c & p & Hc & <- & Hp & Hin)%children_elem. eapply below_child; eauto.
Qed.

(** A row of level [k] has [k] rows before it. *)
Definition after (k : nat) (x : string) : Prop :=
  ∃ j c, (k <= j)%nat ∧ continuities s !! j = Some c ∧ co_id c = x.

Lemma after_child k c p :
  c ∈ continuities s → co_parent c = Some p → after k p → after (S k) (co_id c).
Proof using lawful_s.
  intros [j Hj]%list_elem_of_lookup_1 Hp (i & c' & Hi & Hc' & Hid).
  destruct (i_placed _ lawful_s j c p Hj Hp) as (i' & c2 & Hlt & Hc2 & Hid2 & _).
  assert (i' = i) as ->.
  { eapply (NoDup_lookup (map co_id (continuities s))); [apply lawful_s| |];
      rewrite list_lookup_fmap; [by rewrite Hc2|rewrite Hc'; simpl; congruence]. }
  exists j, c. split; [lia|done].
Qed.

Lemma level_snoc k level : level_at (S k) level s = children_of (level_at k level s) s.
Proof. revert level. induction k as [|k IH]; intros level; [done|]. apply IH. Qed.

Lemma level_after k x : x ∈ level_at k start s → after k x.
Proof using lawful_s.
  revert x. induction k as [|k IH]; intros x Hx.
  - apply start_elem in Hx as (-> & c & [j Hj]%list_elem_of_lookup_1 & E).
    exists j, c. split; [lia|done].
  - rewrite level_snoc in Hx. apply children_elem in Hx as (c & p & Hc & <- & Hp & Hin).
    eapply after_child; eauto.
Qed.

(** There is no level past the number of rows. *)
Lemma level_end k : (length (continuities s) <= k)%nat → level_at k start s = [].
Proof using lawful_s.
  intros Hk. destruct (level_at k start s) as [|x l] eqn:E; [done|].
  destruct (level_after k x) as (j & c & Hj & Hc & _); [rewrite E; left|].
  apply lookup_lt_Some in Hc. lia.
Qed.

Lemma below_level x : below (continuities s) root x → ∃ k, x ∈ level_at k start s ∧ after k x.
Proof using lawful_s.
  induction 1 as [c Hc E|c p Hc Hp _ (k & Hk & Ha)].
  - exists O. split; [apply start_elem; eauto|]. apply list_elem_of_lookup_1 in Hc as [j Hj].
    exists j, c. split; [lia|done].
  - exists (S k). split; [|by eapply after_child].
    rewrite level_snoc. apply children_elem. eauto 10.
Qed.

Lemma lineage_of_below x : x ∈ lineage_of root s ↔ below (continuities s) root x.
Proof using lawful_s.
  unfold lineage_of. fold start. rewrite levels_elem. split.
  - intros (k & _ & Hx). revert x Hx. apply level_below.
    intros x (-> & c & Hc & E)%start_elem. by eapply below_root.
  - intros (k & Hk & (j & c & Hj & Hc & _))%below_level. exists k. split; [|done].
    apply lookup_lt_Some in Hc. lia.
Qed.
End Query.

(** The recursive query of the cascades finds the named continuity and
    exactly the rows below it, and no level is left past the number of rows. *)
Theorem lineage_of_exact api_key secret arrivals q root :
  (∀ v, json_parse (canonicalize v) = Some (normalize v)) →
  reached api_key secret arrivals q →
  (∀ id, id ∈ lineage_of root q.1 ↔ below (continuities q.1) root id)
  ∧ ∀ k, (length (continuities q.1) <= k)%nat → level_at k (start q.1 root) q.1 = [].
Proof.
  intros Hjson Hq. pose proof (reached_lawful _ _ Hjson _ _ Hq) as Hs.
  split; intros; [by apply lineage_of_below|by apply level_end].
Qed.

(** * The cascade *)
Lemma run_ebind {A B} (m : eff A) (f : A → eff B) s :
  run perform (ebind m f) s =
    match (run perform m s).2 with
    | Go a => run perform (f a) (run perform m s).1
    | Answer r => ((run perform m s).1, Answer r)
    | Throws => ((run perform m s).1, Throws)
    end.
Proof. unfold ebind. rewrite run_bind. by destruct (run perform m s).2. Qed.

Lemma run_exec {X} (e : sql X) s : run perform (exec e) s = ((e s).1, Go (e s).2).
Proof. done. Qed.

Definition pairs (s : world) : list (string * option string) :=
  map (λ c, (co_id c, co_parent c)) (continuities s).

Lemma children_pairs level s :
  children_of level s = map fst (List.filter (λ k, match k.2 with
    | Some p => str_in p level | None => false end) (pairs s)).
Proof.
  unfold children_of, pairs. induction (continuities s) as [|c cs IH]; simpl; [done|].
  destruct (match co_parent c with Some p => str_in p level | None => false end); simpl; congruence.
Qed.

Lemma start_pairs s root :
  start s root = map fst (List.filter (λ k, sql_eqb k.1 root) (pairs s)).
Proof.
  unfold start, pairs. induction (continuities s) as [|c cs IH]; simpl; [done|].
  destruct (sql_eqb (co_id c) root); simpl; congruence.
Qed.

Lemma levels_pairs n level s s' :
  pairs s = pairs s' → lineage_levels n level s = lineage_levels n level s'.
Proof.
  intros E. revert level. induction n as [|n IH]; intros level; simpl; [done|].
  destruct level; [done|]. by rewrite !children_pairs, E, IH.
Qed.

(** Only identifiers and parents matter to the query. *)
Lemma lineage_of_pairs root s s' : pairs s = pairs s' → lineage_of root s = lineage_of root s'.
Proof.
  intros E. unfold lineage_of. fold (start s root) (start s' root). rewrite !start_pairs, E.
  replace (length (continuities s')) with (length (continuities s)); [by apply levels_pairs|].
  apply (f_equal length) in E. unfold pairs in E. by rewrite !length_map in E.
Qed.

(** The rows that the projections of a lineage append. *)
Lemma append_projections_rows rows status reason at_time s :
  ∃ n ds, (run perform (append_projections rows status reason at_time) s).1
      = set_drawn n (set_delegations (delegations s ++ ds) s)
    ∧ ∀ d, d ∈ ds → dl_object_type d = "DelegatedRevocationProjection"
        ∧ dl_projection_status d = status ∧ dl_revocation_reason d = Some reason
        ∧ dl_created_at d = at_time ∧ (dl_delegated d, dl_lineage_hash d) ∈ rows.
Proof.
  revert s. induction rows as [|[d h] rows IH]; intros s.
  { exists (drawn s), []. split; [rewrite app_nil_r; by destruct s|by intros ? ?%elem_of_nil]. }
  cbn [append_projections]. unfold appendDelegatedRevocationProjection, randomUUID.
  rewrite !run_ebind, run_exec. cbn [fst snd]. rewrite run_ebind, run_exec. cbn [fst snd run].
  set (row := mkDelegation _ _ _ _ _ _ _ _ _ _ _ _ _ _ _ _ _ _).
  match goal with |- context [run perform (append_projections _ _ _ _) ?w] =>
    destruct (IH w) as (n & ds & E & Hds) end.
  unfold insert_delegation in *.
  change (delegations (draw s).1) with (delegations s) in *.
  match type of E with context [append_unless ?f row ?l] =>
    destruct (append_cases f row l) as [[Ea _]|[Ea _]] end; rewrite Ea in *.
  - exists n, ds. split; [exact E|]. intros x Hx. destruct (Hds x Hx) as (? & ? & ? & ? & ?).
    do 4 (split; [done|]). by right.
  - exists n, (row :: ds). split.
    { replace (delegations s ++ row :: ds) with ((delegations s ++ [row]) ++ ds)
        by (by rewrite <- app_assoc). exact E. }
    intros x [->|Hx]%elem_of_cons; [by repeat split; left|].
    destruct (Hds x Hx) as (? & ? & ? & ? & ?). do 4 (split; [done|]). by right.
Qed.

(** The world after the four updates. *)
Definition cascaded (id status reason now : string) (s : world) : world :=
  let s1 := (invalidate_continuities id status now s).1 in
  let s2 := (revoke_lineage_authorities id s1).1 in
  let s3 := (invalidate_validations
    (λ s v, str_in (va_continuity v) (lineage_of id s)) reason s2).1 in
  (revoke_invocations (λ s i, str_in (in_continuity i) (lineage_of id s)) s3).1.

(** The authorities whose delegations a revocation projects. *)
Definition projected (id : string) (s : world) : list (string * string) :=
  map (λ a, (au_delegated a, au_lineage_hash a))
    (List.filter (λ a, str_in (au_continuity a) (lineage_of id s)
       && negb (is_empty_str (au_delegated a))) (authorities s)).

Lemma run_cascade id s :
  is_empty_str id = false →
  (run perform (cascadeRevocation id) s).1
  = let w := cascaded id "REVOKED" "continuity_revoked" (to_iso (clock s)) s in
    (run perform (append_projections (projected id w) "REVOKED" "continuity_revoked"
       (to_iso (clock s))) w).1.
Proof.
  intros Hid. unfold cascadeRevocation, now_iso. rewrite !run_ebind, run_exec. cbn [fst snd run ret].
  unfold invalidateContinuityLineage. rewrite Hid.
  do 5 (rewrite run_ebind, run_exec; cbn [fst snd]). done.
Qed.

Lemma update_at {R} (p : R → bool) f rows j r r' :
  rows !! j = Some r → update p f rows !! j = Some r' → r' = if p r then f r else r.
Proof. intros Hr. unfold update. rewrite list_lookup_fmap, Hr. by intros [= <-]. Qed.

(** Row by row: the rows that are hit are rewritten, the others stay. *)
Definition rewritten {R} (hit : R → Prop) (f : R → R) (rows rows' : list R) : Prop :=
  length rows' = length rows ∧ ∀ j r r', rows !! j = Some r → rows' !! j = Some r' →
    hit r ∧ r' = f r ∨ ¬ hit r ∧ r' = r.

Lemma rewritten_update {R} (hit : R → Prop) (f : R → R) p rows :
  (∀ r, p r = true ↔ hit r) → rewritten hit f rows (update p f rows).
Proof.
  intros Hp. split; [apply length_map|]. intros j r r' Hr Hr'.
  rewrite (update_at _ _ _ _ _ _ Hr Hr'). destruct (p r) eqn:E.
  - left. split; [by apply Hp|done].
  - right. split; [|done]. rewrite <- Hp. congruence.
Qed.

Definition open_continuity (c : ContinuityRow) : Prop :=
  co_status c ∈ ["ACTIVE"; "RESERVED"; "EXECUTED"; "CONSUMED"].
Definition open_authority (a : AuthorityRow) : Prop :=
  au_status a ∈ ["ACTIVE"; "VALIDATED"; "RESERVED"; "EXECUTED"].

Lemma pairs_update p f s :
  (∀ c, co_id (f c) = co_id c ∧ co_parent (f c) = co_parent c) →
  pairs (set_continuities (update p f (continuities s)) s) = pairs s.
Proof.
  intros Hf. unfold pairs. simpl. apply map_update. intros c. by destruct (Hf c) as [-> ->].
Qed.

(** The query's answer, before the updates. *)
Ltac same_query id q E := match goal with
  | |- context [lineage_of id ?w] =>
      replace (lineage_of id w) with (lineage_of id q.1)
        by (symmetry; apply lineage_of_pairs; exact E)
  end.

(** The evidence that the delegation of an authority of the lineage is revoked. *)
Definition projects (id now : string) (s : world) (d : DelegationRow) : Prop :=
  dl_object_type d = "DelegatedRevocationProjection" ∧ dl_projection_status d = "REVOKED"
  ∧ dl_revocation_reason d = Some "continuity_revoked" ∧ dl_created_at d = now
  ∧ ∃ a, a ∈ authorities s ∧ below (continuities s) id (au_continuity a)
      ∧ au_delegated a ≠ EmptyString
      ∧ dl_delegated d = au_delegated a ∧ dl_lineage_hash d = au_lineage_hash a.

(** The projected delegations are those of the rows before the updates. *)
Lemma projected_below id now s d h :
  (∀ x, x ∈ lineage_of id s ↔ below (continuities s) id x) →
  (d, h) ∈ projected id (cascaded id "REVOKED" "continuity_revoked" now s) →
  ∃ a, a ∈ authorities s ∧ below (continuities s) id (au_continuity a)
    ∧ au_delegated a ≠ EmptyString ∧ d = au_delegated a ∧ h = au_lineage_hash a.
Proof.
  intros Hl (a & Ha & E)%elem_of_map. injection E as -> ->.
  apply list_elem_of_In, filter_In in Ha as [Ha [Hin Hne]%andb_true_iff].
  apply list_elem_of_In in Ha. unfold cascaded in Ha, Hin. simpl in Ha, Hin.
  apply elem_of_update in Ha as (a0 & Ha0 & ->).
  assert (pairs (cascaded id "REVOKED" "continuity_revoked" now s) = pairs s) as E
    by (by apply pairs_update).
  exists a0. split; [done|]. rewrite (lineage_of_pairs _ _ _ E) in Hin.
  apply negb_true_iff, is_empty_str_false in Hne. apply str_in_elem, Hl in Hin.
  by destruct (_ && _).
Qed.

(** C5. Run to its end, a revocation rewrites exactly the open rows of the named
    continuity and of everything below it: those continuities become REVOKED, at
    the instant of the revocation unless one was noted before, their ACTIVE,
    VALIDATED, RESERVED or EXECUTED authorities REVOKED, their VALID validations
    invalid with that reason, their RESERVED nonces REVOKED. Rows that are closed
    already, and all rows of other continuities, stay as they were. Besides, it
    appends projections of delegations of authorities below, and only those, to
    the delegation registry and draws identifiers; no other table changes. *)
Theorem cascade_exact api_key secret arrivals q id s' :
  (∀ v, json_parse (canonicalize v) = Some (normalize v)) →
  reached api_key secret arrivals q → id ≠ EmptyString →
  s' = (run perform (cascadeRevocation id) q.1).1 →
  let now := to_iso (clock q.1) in
  let reaches x := below (continuities q.1) id x in
  (∃ n ds cs aus vs ins,
     s' = set_drawn n (set_delegations (delegations q.1 ++ ds) (set_invocations ins
            (set_validations vs (set_authorities aus (set_continuities cs q.1)))))
     ∧ ∀ d, d ∈ ds → projects id now q.1 d)
  ∧ rewritten (λ c, reaches (co_id c) ∧ open_continuity c)
      (λ c, with_continuity_status "REVOKED" (revoked_when_null now c) c)
      (continuities q.1) (continuities s')
  ∧ rewritten (λ a, reaches (au_continuity a) ∧ open_authority a)
      (with_authority_status "REVOKED") (authorities q.1) (authorities s')
  ∧ rewritten (λ v, reaches (va_continuity v) ∧ va_status v = "VALID")
      (invalidated "continuity_revoked") (validations q.1) (validations s')
  ∧ rewritten (λ i, reaches (in_continuity i) ∧ in_status i = "RESERVED")
      (with_invocation_status "REVOKED") (invocations q.1) (invocations s').
Proof.
  intros Hjson Hq Hne -> now reaches. pose proof (reached_lawful _ _ Hjson _ _ Hq) as Hs.
  assert (is_empty_str id = false) as Hid by (by apply String.eqb_neq).
  assert (∀ x, x ∈ lineage_of id q.1 ↔ reaches x) as Hl by (intros; by apply lineage_of_below).
  rewrite (run_cascade id q.1 Hid). cbv zeta. fold now.
  destruct (append_projections_rows
    (projected id (cascaded id "REVOKED" "continuity_revoked" now q.1)) "REVOKED"
    "continuity_revoked" now (cascaded id "REVOKED" "continuity_revoked" now q.1))
    as (n & ds & -> & Hds).
  split.
  { do 6 eexists. split; [reflexivity|]. intros d Hd.
    destruct (Hds d Hd) as (H1 & H2 & H3 & H4 & H5). do 4 (split; [done|]).
    by apply (projected_below _ now). }
  assert (∀ x, str_in x (lineage_of id q.1) = true ↔ reaches x) as Hin
    by (intros x; rewrite str_in_elem; apply Hl).
  unfold cascaded. simpl.
  set (s1 := set_continuities _ _).
  assert (pairs s1 = pairs q.1) as E by (by apply pairs_update).
  split; [|split; [|split]]; apply rewritten_update; intros r; try same_query id q E;
    rewrite andb_true_iff, Hin; apply and_iff_compat_l.
  - unfold open_continuity. by rewrite <- str_in_elem.
  - unfold open_authority. by rewrite <- str_in_elem.
  - apply String.eqb_eq.
  - apply String.eqb_eq.
Qed.

(** * The loop *)
Lemma climb_rounds id decision session now n k visited ancestry requested current s :
  (length ancestry <= SYSTEM_MAX_CONTINUITY_DEPTH)%nat →
  (SYSTEM_MAX_CONTINUITY_DEPTH + 2 <= n + length ancestry)%nat →
  run perform (climb id decision session now (n + k) visited ancestry requested current) s
  = run perform (climb id decision session now n visited ancestry requested current) s.
Proof.
  revert visited ancestry requested current s.
  induction n as [|n IH]; intros visited ancestry requested current s Hlen Hn; [lia|].
  simpl. destruct (is_empty_str current); [done|]. destruct (str_in current visited); [done|].
  rewrite !run_ebind. destruct (run perform (live_row _ _ _ _) s) as [s1 [[row|]|r|]]; simpl; try done.
  rewrite !run_ebind.
  destruct (run perform (authentic_text _ _ _) s1) as [s2 [[canonical|]|r|]]; simpl; try done.
  destruct (_ && negb (chain_includes _ _)); [done|].
  set (req := if String.eqb current id then _ else _).
  destruct (Nat.ltb_spec SYSTEM_MAX_CONTINUITY_DEPTH (length (ancestry ++ [(row, canonical)]))) as [|Hd];
    [done|].
  destruct req as [r|]; [destruct (exceeds_configured _ _); [done|]|];
    (apply IH; [done|rewrite length_app in *; simpl in *; lia]).
Qed.

(** The loop that climbs a lineage always ends: 34 rounds are enough, whatever
    the tables hold, and more give the same answer and the same tables. *)
Theorem climb_ends id decision session now k s :
  run perform (climb id decision session now (SYSTEM_MAX_CONTINUITY_DEPTH + 2 + k) [] [] None id) s
  = run perform (climb id decision session now (SYSTEM_MAX_CONTINUITY_DEPTH + 2) [] [] None id) s.
Proof. apply climb_rounds; simpl; lia. Qed.
End Worker.

(** * The demonstration runs *)
Lemma late_continuity :
  ∃ c, c ∈ continuities late.1 ∧ co_id c = "c1".
Proof. destruct late_ended as (c & Hc & Hid & _). by exists c. Qed.

Lemma continuity_lineage_witness :
  ∃ c n, c ∈ continuities late.1 ∧ (n <= 32)%nat ∧ depth_in (continuities late.1) (co_id c) n.
Proof.
  destruct late_continuity as (c & Hc & Hid). exists c.
  destruct (proj1 (continuity_lineage "key" "secret" late_arrivals late c plain_json late_reached Hc))
    as (n & Hn & Hd).
  exists n. split; [exact Hc|]. split; [exact Hn|exact Hd].
Defined.

Lemma lineage_of_exact_witness : "c1" ∈ lineage_of "c1" late.1.
Proof.
  destruct late_continuity as (c & Hc & Hid).
  apply (proj1 (lineage_of_exact "key" "secret" late_arrivals late "c1" plain_json late_reached) "c1").
  eapply below_root; [exact Hc|exact Hid].
Defined.

Lemma cascade_exact_witness :
  rewritten (λ a, below (continuities demo.1) "c1" (au_continuity a) ∧ open_authority a)
    (with_authority_status "REVOKED") (authorities demo.1)
    (authorities (run perform (cascadeRevocation "c1") demo.1).1).
Proof.
  exact (proj1 (proj2 (proj2 (cascade_exact "key" "secret" demo_arrivals demo "c1" _ plain_json
    demo_reached ltac:(discriminate) eq_refl)))).
Defined.
