(* ===== verification/WorkerAttestation.v ===== *)
(** The attestation of a deployment: comparing signatures, the bytes that are
    signed, and what an accepted envelope says. *)
From Stdlib Require Import ZArith NArith Lia Ascii.
From stdpp Require Import base list strings pretty.
From S2P Require Import Prelude JsValue Sha256 Canonical Json Effects WorkerValues WorkerTables.
From S2P Require Import WorkerSql WorkerLineage WorkerEvidence WorkerRun.

(** * Comparing in constant time *)
Lemma fold_lor_zero (f : nat → N) l start :
  fold_left (λ diff i, N.lor diff (f i)) l start = 0%N ↔ start = 0%N ∧ ∀ i, i ∈ l → f i = 0%N.
Proof.
  revert start. induction l as [|i l IH]; intros start; simpl.
  - split; [|by intros []]. intros ->. split; [done|]. by intros i ?%elem_of_nil.
  - rewrite IH, N.lor_eq_0_iff. setoid_rewrite elem_of_cons. naive_solver.
Qed.

Lemma byte_at_cons a s i : byte_at (String a s) (S i) = byte_at s i.
Proof. done. Qed.

Lemma bytes_eq a b :
  String.length a = String.length b →
  (∀ i, (i < String.length a)%nat → byte_at a i = byte_at b i) → a = b.
Proof.
  revert b. induction a as [|x a IH]; intros [|y b] Hlen Hb; try done.
  assert (x = y) as <-.
  { specialize (Hb O ltac:(simpl; lia)). unfold byte_at in Hb. simpl in Hb.
    apply (f_equal ascii_of_N) in Hb. unfold code in Hb. by rewrite !ascii_N_embedding in Hb. }
  f_equal. apply IH; [simpl in Hlen; lia|]. intros i Hi.
  rewrite <- (byte_at_cons x), <- (byte_at_cons x b). apply Hb. simpl. lia.
Qed.

(** The comparison that never stops early is equality: it accepts exactly
    equal byte strings, of whatever lengths. *)
Theorem constantTimeEqual_iff a b : constantTimeEqual a b = true ↔ a = b.
Proof.
  unfold constantTimeEqual. rewrite N.eqb_eq, fold_lor_zero, N.lxor_eq_0_iff. split.
  - intros [Hlen Hb]. apply bytes_eq; [lia|]. intros i Hi. apply N.lxor_eq_0_iff, Hb, elem_of_seq. lia.
  - intros <-. split; [done|]. intros i _. apply N.lxor_nilpotent.
Qed.

(** * The signed bytes *)
Lemma digits_space s t r1 r2 :
  str_forall num_char s = true → str_forall num_char t = true →
  s +:+ String " " r1 = t +:+ String " " r2 → s = t ∧ r1 = r2.
Proof.
  revert t. induction s as [|a s IH]; intros [|b t]; simpl; intros Hs Ht E.
  - by injection E.
  - injection E as <- _. done.
  - injection E as -> _. done.
  - apply andb_true_iff in Hs as [_ Hs], Ht as [_ Ht]. injection E as -> E.
    destruct (IH t Hs Ht E) as [-> ->]. done.
Qed.

Lemma pretty_N_all (n : N) : str_forall num_char (pretty n) = true.
Proof. unfold pretty, pretty_N. case_decide; [done|]. by apply pretty_N_go_all. Qed.

Lemma app_length_inj s t r1 r2 :
  String.length s = String.length t → s +:+ r1 = t +:+ r2 → s = t ∧ r1 = r2.
Proof.
  revert t. induction s as [|a s IH]; intros [|b t] Hlen E; try done.
  simpl in *. injection E as -> E. destruct (IH t ltac:(lia) E) as [-> ->]. done.
Qed.

Lemma length_prefixed_inj s t r1 r2 :
  dsseLengthPrefixed s +:+ r1 = dsseLengthPrefixed t +:+ r2 → s = t ∧ r1 = r2.
Proof.
  unfold dsseLengthPrefixed. rewrite !str_app_assoc. intros E.
  apply digits_space in E as [E1 E2]; [|apply pretty_N_all..].
  apply (inj pretty) in E1. apply app_length_inj; [lia|]. exact E2.
Qed.

Lemma encoding_inj t p t' p' :
  dssePreAuthenticationEncoding t p = dssePreAuthenticationEncoding t' p' → t = t' ∧ p = p'.
Proof.
  unfold dssePreAuthenticationEncoding. intros E.
  apply (app_length_inj "DSSEv1 " "DSSEv1 ") in E as [_ E]; [|done].
  apply length_prefixed_inj in E as [-> E]. split; [done|].
  rewrite <- (str_app_nil_r (dsseLengthPrefixed p)), <- (str_app_nil_r (dsseLengthPrefixed p')) in E.
  by apply length_prefixed_inj in E as [-> _].
Qed.

(** * An accepted envelope *)
Section Worker.
Context {platform : Platform}.

(** The envelope's payload bytes and its signature's bytes. *)
Definition payload_bytes (envelope : jsval) : option string := atob (text (get envelope "payload")).

Definition signature_bytes (envelope : jsval) (signer : string) : option string :=
  match first_signature envelope signer with
  | Some s => atob (text (js_or (get s "sig") (get s "signature")))
  | None => None
  end.

Lemma signature_valid_bytes envelope bytes c :
  signature_valid envelope bytes c = true →
  signature_bytes envelope (ds_signer c) = Some (hmacSha256 (ds_secret c)
    (dssePreAuthenticationEncoding PROVENANCE_PAYLOAD_TYPE bytes)).
Proof.
  unfold signature_valid, signature_bytes. destruct (first_signature _ _) as [sg|]; [|done].
  destruct (atob _) as [provided|]; [|done]. by intros ->%constantTimeEqual_iff.
Qed.

Lemma accepted_inv envelope c v :
  validateDsseProvenanceEnvelope envelope c = Some v →
  ∃ bytes payload log_id integrated_time federation,
    payload_bytes envelope = Some bytes ∧ json_parse (text_decode bytes) = Some payload
    ∧ payload_matches payload c = true ∧ ds_secret c ≠ EmptyString
    ∧ text_decode bytes = canonicalize (canonicalProvenancePayload c log_id integrated_time federation)
    ∧ signature_valid envelope bytes c = true ∧ vd_envelope_hash v = hashCanonical envelope.
Proof.
  unfold validateDsseProvenanceEnvelope, payload_bytes. intros H.
  destruct (is_empty_str (ds_secret c)) eqn:Hsecret; [done|].
  destruct (negb (is_record envelope)); [done|]. destruct (negb (String.eqb _ _)); [done|].
  destruct (atob (text (get envelope "payload"))) as [bytes|]; [|done]. cbv zeta in H.
  destruct (json_parse (text_decode bytes)) as [payload|] eqn:Hjson; [|done].
  destruct (negb (is_record payload)); [done|].
  destruct (_ || _); [done|]. destruct (negb (payload_matches payload c)) eqn:Hm; [done|].
  destruct (federation_claims _); [done|].
  destruct (negb (String.eqb (text_decode bytes) _)) eqn:Htext; [done|].
  destruct (negb (signature_valid envelope bytes c)) eqn:Hsig; [done|]. injection H as <-.
  apply negb_false_iff in Hm, Hsig. apply negb_false_iff, String.eqb_eq in Htext.
  exists bytes, payload. do 3 eexists. split; [done|]. split; [done|]. split; [done|].
  split; [by apply String.eqb_neq|]. split; [exact Htext|]. split; [done|]. reflexivity.
Qed.

(** C14. An accepted attestation is signed with a non-empty secret over exactly its
    payload's bytes, which no other type or payload encodes to; the bytes are the
    canonical text of the object, the decision, the workflow run and the signer of
    the request, and an envelope with the same payload is accepted for no other
    request. *)
Theorem attestation_accepts envelope c v :
  validateDsseProvenanceEnvelope envelope c = Some v →
  ∃ bytes log_id integrated_time federation,
    payload_bytes envelope = Some bytes ∧ ds_secret c ≠ EmptyString
    ∧ text_decode bytes = canonicalize (canonicalProvenancePayload c log_id integrated_time federation)
    ∧ signature_bytes envelope (ds_signer c) = Some (hmacSha256 (ds_secret c)
        (dssePreAuthenticationEncoding PROVENANCE_PAYLOAD_TYPE bytes))
    ∧ (∀ t p, dssePreAuthenticationEncoding t p
        = dssePreAuthenticationEncoding PROVENANCE_PAYLOAD_TYPE bytes →
        t = PROVENANCE_PAYLOAD_TYPE ∧ p = bytes)
    ∧ vd_envelope_hash v = hashCanonical envelope
    ∧ ∀ envelope' c' v', payload_bytes envelope' = Some bytes →
        validateDsseProvenanceEnvelope envelope' c' = Some v' →
        ds_decision c' = ds_decision c ∧ ds_hash c' = ds_hash c
        ∧ ds_workflow_run_id c' = ds_workflow_run_id c ∧ ds_workflow_sha c' = ds_workflow_sha c
        ∧ ds_aeo_hash c' = ds_aeo_hash c ∧ ds_signer c' = ds_signer c.
Proof.
  intros H. destruct (accepted_inv _ _ _ H)
    as (bytes & payload & log & time & fed & Hb & Hj & Hm & Hs & Ht & Hsig & Hh).
  exists bytes, log, time, fed. split; [done|]. split; [done|]. split; [exact Ht|].
  split; [by apply signature_valid_bytes|]. split; [intros t p E; by apply encoding_inj in E|].
  split; [exact Hh|]. intros envelope' c' v' Hb' H'.
  destruct (accepted_inv _ _ _ H')
    as (bytes' & payload' & log' & time' & fed' & Hb2 & Hj' & Hm' & _).
  assert (bytes' = bytes) as -> by congruence. assert (payload' = payload) as -> by congruence.
  unfold payload_matches in Hm, Hm'. rewrite !andb_true_iff, !String.eqb_eq in Hm, Hm'.
  destruct Hm as [[[[[H1 H2] H3] H4] H5] H6], Hm' as [[[[[G1 G2] G3] G4] G5] G6].
  repeat split; congruence.
Qed.
End Worker.

(** * A signed envelope *)
Definition demo_context : DsseContext :=
  mkDsse "d1" demo_hash "run-1" "sha" demo_hash "alice" "secret".

Definition demo_payload : string :=
  canonicalize (canonicalProvenancePayload demo_context "log-1" "2024" JNull).

Definition demo_signed : jsval :=
  JObj [("payloadType", JStr PROVENANCE_PAYLOAD_TYPE); ("payload", JStr demo_payload);
    ("signatures", JArr [JObj [("keyid", JStr "alice"); ("sig", JStr (hmacSha256 "secret"
       (dssePreAuthenticationEncoding PROVENANCE_PAYLOAD_TYPE demo_payload)))]])].

Definition is_some {A} (o : option A) : bool := match o with Some _ => true | None => false end.

Lemma demo_accepted : is_some (validateDsseProvenanceEnvelope demo_signed demo_context) = true.
Proof. vm_compute. reflexivity. Qed.

Lemma attestation_accepts_witness :
  ∃ v, validateDsseProvenanceEnvelope demo_signed demo_context = Some v
    ∧ ∀ c' v', validateDsseProvenanceEnvelope demo_signed c' = Some v' →
        ds_decision c' = "d1" ∧ ds_hash c' = demo_hash.
Proof.
  pose proof demo_accepted as H.
  destruct (validateDsseProvenanceEnvelope demo_signed demo_context) as [v|] eqn:E; [|discriminate H].
  exists v. split; [reflexivity|].
  destruct (attestation_accepts demo_signed demo_context v E)
    as (bytes & log & time & fed & Hb & _ & _ & _ & _ & _ & Hother).
  intros c' v' Hv'. destruct (Hother demo_signed c' v' Hb Hv') as (H1 & H2 & _).
  split; [exact H1|exact H2].
Defined.
