(* ===== verification/ProofChain.v ===== *)
(** The continuity proof chain: [runtime/lineage/continuityProofChain.mjs].

    A link binds itself to the link before it by its parent's digest; the last
    digest is the state that the next run inherits. Records are untyped objects:
    the chain is replayed over what a file contains. *)
From Stdlib Require Import ZArith NArith Lia Ascii.
From stdpp Require Import base list strings pretty gmap.
From S2P Require Import Prelude JsValue Sha256 Canonical ExecutionEligibility.

(** [{ genesis: true, chain: 'CONTINUITY_PROOF_CHAIN' }]. *)
Definition genesis_link : jsval :=
  JObj [("genesis", JBool true); ("chain", JStr "CONTINUITY_PROOF_CHAIN")].

Definition GENESIS_LINK_HASH : string := hashCanonical genesis_link.

Definition LINK_HASH_FIELDS : list string :=
  ["lineage_key"; "sequence_number"; "parent_link_hash"; "continuity_id"; "parent_continuity_id";
   "validated_object_hash"; "executed_object_hash"; "proof_hash"; "timestamp"; "nonce"; "status";
   "expires_at"; "revoked_at"].

Inductive chain_reason :=
  | MISSING_RECORD | MISSING_CHAIN | MISSING_PARENT | PARENT_MISMATCH | SEQUENCE_GAP
  | DUPLICATE_SEQUENCE | DUPLICATE_LINK_HASH | MUTATED_PRIOR_LINK | LINEAGE_KEY_MISMATCH
  | LINK_HASH_MISMATCH.

#[export] Instance chain_reason_eq_dec : EqDecision chain_reason.
Proof. solve_decision. Defined.

(** [str(status) || 'ACTIVE']. *)
Definition or_active (s : string) : string := if is_empty_str s then "ACTIVE" else s.

(** [n + 1], exact below 2^53. *)
Definition num_succ (n : jsnum) : jsnum := match n with NInt z => NInt (z + 1) | n => n end.

Definition is_integer (n : jsnum) : bool := match n with NInt _ => true | _ => false end.

(** [if (c) null_reasons.push(r)]. *)
Definition push {A} (c : bool) (r : A) : list A := if c then [r] else [].

Section Chain.
Context (other_number : string → jsnum).

Definition number_of (v : jsval) : jsnum := to_number other_number v.

(** [src[f]] of [withCarryDefaults(link)], as it enters the digest. *)
Definition link_field (link : jsval) (f : string) : jsval :=
  if String.eqb f "sequence_number" then JNum (number_of (get link f))
  else if String.eqb f "status" then JStr (or_active (str (get link f)))
  else JStr (str (get link f)).

Definition preimage (link : jsval) : jsval := JObj (map (λ f, (f, link_field link f)) LINK_HASH_FIELDS).

Definition computeLinkHash (link : jsval) : string := hashCanonical (preimage link).

Definition hash_of (link : jsval) : string := str (get link "link_hash").

(** What the next link must name: [head ? str(head.link_hash) : GENESIS_LINK_HASH]
    and [head ? Number(head.sequence_number) + 1 : 0]. *)
Definition expected_parent (head : option jsval) : string :=
  match head with Some h => hash_of h | None => GENESIS_LINK_HASH end.

Definition expected_sequence (head : option jsval) : jsnum :=
  match head with Some h => num_succ (number_of (get h "sequence_number")) | None => NInt 0 end.

Definition link_core (input : jsval) (head : option jsval) : list (string * jsval) :=
  let field k := JStr (str (get input k)) in
  [("artifact_type", JStr "CONTINUITY_PROOF_LINK"); ("lineage_key", field "lineage_key");
   ("sequence_number", JNum (expected_sequence head));
   ("parent_link_hash", JStr (expected_parent head));
   ("continuity_id", field "continuity_id");
   ("parent_continuity_id", field "parent_continuity_id");
   ("validated_object_hash", field "validated_object_hash");
   ("executed_object_hash", field "executed_object_hash"); ("proof_hash", field "proof_hash");
   ("timestamp", field "timestamp"); ("nonce", field "nonce");
   ("status", JStr (or_active (str (get input "status")))); ("expires_at", field "expires_at");
   ("revoked_at", field "revoked_at"); ("mutation_allowed", JBool false)].

Definition linkProof (input : jsval) (head : option jsval) : jsval :=
  let core := link_core input head in
  JObj (core ++ [("link_hash", JStr (computeLinkHash (JObj core)))]).

(** The checks on parent and sequence that both verifiers make. *)
Definition parent_reasons (record : jsval) (head : option jsval) : list chain_reason :=
  if negb (truthy (get record "parent_link_hash")) then [MISSING_PARENT]
  else push (negb (String.eqb (str (get record "parent_link_hash")) (expected_parent head)))
         PARENT_MISMATCH.

Definition sequence_reasons (record : jsval) (head : option jsval) : list chain_reason :=
  let seq := number_of (get record "sequence_number") in
  if negb (is_integer seq) || num_lt (expected_sequence head) seq then [SEQUENCE_GAP]
  else push (num_lt seq (expected_sequence head)) DUPLICATE_SEQUENCE.

(** VALID when there is no reason. *)
Definition verifyInheritance (record : jsval) (head : option jsval) : list chain_reason :=
  match record with
  | JArr _ | JObj _ =>
      push (match head with
            | Some h => negb (String.eqb (str (get record "lineage_key")) (str (get h "lineage_key")))
            | None => false
            end) LINEAGE_KEY_MISMATCH
      ++ parent_reasons record head ++ sequence_reasons record head
      ++ push (negb (String.eqb (computeLinkHash record) (hash_of record))) LINK_HASH_MISMATCH
  | _ => [MISSING_RECORD]
  end.

(** The body of the loop: the reasons of one record. *)
Definition link_reasons (lineage_key : string) (seenSequences : list jsnum)
    (seenLinkHashes : list string) (head : option jsval) (record : jsval) : list chain_reason :=
  push (negb (String.eqb (str (get record "lineage_key")) lineage_key)) LINEAGE_KEY_MISMATCH
  ++ push (negb (String.eqb (computeLinkHash record) (hash_of record))) MUTATED_PRIOR_LINK
  ++ parent_reasons record head
  ++ (if bool_decide (number_of (get record "sequence_number") ∈ seenSequences)
      then [DUPLICATE_SEQUENCE] else sequence_reasons record head)
  ++ push (str_in (hash_of record) seenLinkHashes) DUPLICATE_LINK_HASH.

(** VALID when there is no reason; [head_link_hash] is [null] for a registry that
    could not be read. *)
Record chain_verdict (R : Type) := mkVerdict {
  null_reasons : list R;
  broken_at : option nat;
  head_link_hash : option string;
  chain_length : nat
}.
Global Arguments mkVerdict {R}.
Global Arguments null_reasons {R}.
Global Arguments broken_at {R}.
Global Arguments head_link_hash {R}.
Global Arguments chain_length {R}.

(** The loop, from the [i]-th record on; [total] is [records.length]. *)
Fixpoint verify_from (lineage_key : string) (total i : nat) (seenSequences : list jsnum)
    (seenLinkHashes : list string) (head : option jsval) (records : list jsval) :
    chain_verdict chain_reason :=
  match records with
  | [] => mkVerdict [] None (Some (expected_parent head)) total
  | record :: rest =>
      match link_reasons lineage_key seenSequences seenLinkHashes head record with
      | [] =>
          verify_from lineage_key total (S i)
            (number_of (get record "sequence_number") :: seenSequences)
            (hash_of record :: seenLinkHashes) (Some record) rest
      | reasons => mkVerdict reasons (Some i) (Some (expected_parent head)) total
      end
  end.

(** The records are objects; a [null] among them would throw. *)
Definition verifyChain (records : list jsval) : chain_verdict chain_reason :=
  match records with
  | [] => mkVerdict [] None (Some GENESIS_LINK_HASH) 0
  | first :: _ =>
      verify_from (str (get first "lineage_key")) (length records) 0 [] [] None records
  end.

Definition headOf (records : list jsval) : option jsval := last records.

(** * What the verifier accepts *)

(** Record number [i], after [head]. *)
Record link_ok (key : string) (i : Z) (head : option jsval) (record : jsval) : Prop := mkLinkOk {
  lk_key : str (get record "lineage_key") = key;
  lk_hash : hash_of record = computeLinkHash record;
  lk_parent : str (get record "parent_link_hash") = expected_parent head;
  lk_sequence : number_of (get record "sequence_number") = NInt i
}.

(** Every record names the digest of the one before it, the first one genesis, and
    is numbered by its place. *)
Fixpoint linked (key : string) (i : Z) (head : option jsval) (records : list jsval) : Prop :=
  match records with
  | [] => True
  | record :: rest => link_ok key i head record ∧ linked key (i + 1) (Some record) rest
  end.

(** A head whose digest is one. *)
Definition digest_head (head : option jsval) : Prop :=
  match head with Some h => hash_of h = computeLinkHash h | None => True end.

Lemma expected_parent_digest head : digest_head head → ∃ v, expected_parent head = hashCanonical v.
Proof. destruct head as [h|]; simpl; [intros ->|intros _]; by eexists. Qed.

Lemma digest_truthy v w : str v = hashCanonical w → truthy v = true.
Proof.
  intros E. pose proof (hashCanonical_length w) as L. rewrite <- E in L.
  destruct v as [| |[]|[[| |]|b|]|s|l|ps]; try done. by destruct s.
Qed.

Lemma digest_non_empty v : is_empty_str (hashCanonical v) = false.
Proof.
  apply is_empty_str_false. intros E. pose proof (hashCanonical_length v) as L. by rewrite E in L.
Qed.

Lemma push_nil {A} c (r : A) : push c r = [] ↔ c = false.
Proof. by destruct c. Qed.

Lemma parent_reasons_nil record head :
  digest_head head →
  parent_reasons record head = [] ↔ str (get record "parent_link_hash") = expected_parent head.
Proof.
  intros (v & Hv)%expected_parent_digest. unfold parent_reasons.
  destruct (truthy (get record "parent_link_hash")) eqn:Ht; simpl.
  - by rewrite push_nil, negb_eqb_false.
  - split; [done|]. intros E. rewrite Hv in E. apply digest_truthy in E. congruence.
Qed.

Lemma sequence_reasons_nil record head i :
  expected_sequence head = NInt i →
  sequence_reasons record head = [] ↔ number_of (get record "sequence_number") = NInt i.
Proof.
  intros E. unfold sequence_reasons. rewrite E.
  destruct (number_of _) as [z|b|]; simpl; [|by split..].
  destruct (Z.ltb_spec i z); simpl; [split; [done|intros [= ->]; lia]|].
  rewrite push_nil, Z.ltb_ge. split; [intros; f_equal; lia|intros [= ->]; lia].
Qed.

Lemma link_reasons_nil key i seqs hashes head record :
  digest_head head → expected_sequence head = NInt i →
  (∀ n, n ∈ seqs → ∃ j, n = NInt j ∧ (j < i)%Z) →
  link_reasons key seqs hashes head record = [] ↔
    link_ok key i head record ∧ hash_of record ∉ hashes.
Proof.
  intros Hd Hi Hs. unfold link_reasons.
  rewrite !app_nil, !push_nil, !negb_eqb_false, parent_reasons_nil by done.
  assert ((if bool_decide (number_of (get record "sequence_number") ∈ seqs)
           then [DUPLICATE_SEQUENCE] else sequence_reasons record head) = []
    ↔ number_of (get record "sequence_number") = NInt i) as ->.
  { rewrite <- (sequence_reasons_nil record head i Hi). case_bool_decide as Hin; [|done].
    split; [done|]. rewrite (sequence_reasons_nil record head i Hi). intros E.
    destruct (Hs _ Hin) as (j & Hj & ?). rewrite E in Hj. injection Hj. lia. }
  rewrite <- not_true_iff_false, str_in_elem. split.
  - intros (H1 & H2 & H3 & H4 & H5). done.
  - intros [[H1 H2 H3 H4] H5]. done.
Qed.

Lemma verify_from_nil key total i k seqs hashes head records :
  digest_head head → expected_sequence head = NInt i →
  (∀ n, n ∈ seqs → ∃ j, n = NInt j ∧ (j < i)%Z) →
  null_reasons (verify_from key total k seqs hashes head records) = [] ↔
    linked key i head records ∧ NoDup (map hash_of records)
    ∧ ∀ h, h ∈ map hash_of records → h ∉ hashes.
Proof.
  revert i k seqs hashes head. induction records as [|r rest IH];
    intros i k seqs hashes head Hd Hi Hs.
  { simpl. split; [|done]. intros _. split; [done|]. split; [constructor|by intros ? ?%elem_of_nil]. }
  pose proof (link_reasons_nil key i seqs hashes head r Hd Hi Hs) as Hr.
  cbn [verify_from linked map].
  destruct (link_reasons key seqs hashes head r) as [|c l].
  - destruct Hr as [[Hok Hnew] _]; [done|].
    rewrite (IH (i + 1)%Z).
    + rewrite NoDup_cons. setoid_rewrite elem_of_cons. split.
      * intros (H1 & H2 & H3). split; [done|]. split; [split; [|done]|].
        -- intros Hin. by apply (H3 _ Hin); left.
        -- intros h [->|Hh]; [done|]. intros Hh'. by apply (H3 _ Hh); right.
      * intros ([_ H1] & [H2 H3] & H4). split; [done|]. split; [done|].
        intros h Hh [->|Hh']; [done|]. by apply (H4 h); [right|].
    + apply Hok.
    + simpl. by rewrite (lk_sequence _ _ _ _ Hok).
    + intros n [->|Hn]%elem_of_cons; [exists i; split; [apply Hok|lia]|].
      destruct (Hs n Hn) as (j & -> & ?). exists j. split; [done|lia].
  - split; [done|]. intros ([Hok _] & [Hnd _]%NoDup_cons & Hfresh). apply Hr. split; [done|].
    apply Hfresh. by left.
Qed.

Lemma linked_key key i head records r :
  linked key i head records → r ∈ records → str (get r "lineage_key") = key.
Proof.
  revert i head. induction records as [|x rest IH]; intros i head Hl Hr; [by apply elem_of_nil in Hr|].
  destruct Hl as [Hx Hl]. apply elem_of_cons in Hr as [->|Hr]; [apply Hx|by eapply IH].
Qed.

Lemma valid_linked records :
  null_reasons (verifyChain records) = [] ↔
    ∃ key, linked key 0 None records ∧ NoDup (map hash_of records).
Proof.
  destruct records as [|r rest].
  { split; [intros _; exists EmptyString; split; [done|constructor]|done]. }
  unfold verifyChain. rewrite (verify_from_nil _ _ 0 0 [] [] None) by (done || by intros ? ?%elem_of_nil).
  split.
  - intros (H1 & H2 & _). by eexists.
  - intros (key & H1 & H2). rewrite (lk_key _ _ _ _ (proj1 H1)). split; [done|]. split; [done|].
    by intros ? _ ?%elem_of_nil.
Qed.

(** The verdict on a valid chain. *)
Lemma verify_from_head key total k seqs hashes head records :
  null_reasons (verify_from key total k seqs hashes head records) = [] →
  head_link_hash (verify_from key total k seqs hashes head records)
    = Some (expected_parent (match last records with Some r => Some r | None => head end))
  ∧ broken_at (verify_from key total k seqs hashes head records) = None
  ∧ chain_length (verify_from key total k seqs hashes head records) = total.
Proof.
  revert k seqs hashes head. induction records as [|r rest IH]; intros k seqs hashes head; [done|].
  cbn [verify_from]. destruct (link_reasons _ _ _ _ _); [|done].
  intros H. destruct (IH _ _ _ _ H) as (-> & -> & ->). split; [|done]. do 2 f_equal.
  rewrite last_cons. by destruct (last rest).
Qed.

Lemma valid_head records :
  null_reasons (verifyChain records) = [] →
  head_link_hash (verifyChain records) = Some (expected_parent (headOf records))
  ∧ chain_length (verifyChain records) = length records.
Proof.
  destruct records as [|r rest]; [done|]. unfold verifyChain, headOf. intros H.
  destruct (verify_from_head _ _ _ _ _ _ _ H) as (-> & _ & ->). split; [|done].
  rewrite last_cons. by destruct (last rest).
Qed.

(** A stored chain is VALID exactly when all its records have one lineage key,
    each carries the digest of its own fields and names that of the record before
    it (the first one genesis), each is numbered by its place, and no digest occurs
    twice; the verdict then gives the last digest and the length. *)
Theorem verifyChain_iff records :
  (null_reasons (verifyChain records) = [] ↔
     ∃ key, linked key 0 None records ∧ NoDup (map hash_of records))
  ∧ (null_reasons (verifyChain records) = [] →
     head_link_hash (verifyChain records) = Some (expected_parent (headOf records))
     ∧ chain_length (verifyChain records) = length records).
Proof. split; [apply valid_linked|apply valid_head]. Qed.

(** * A digest binds the history *)

(** The texts the chain hashes: of a record, and of genesis. *)
Definition link_text (record : jsval) : string := canonicalize (preimage record).
Definition genesis_text : string := canonicalize genesis_link.

(** What the digest of a record fixes: its bound fields as the digest reads them. *)
Definition bound (record : jsval) : list jsval := map (link_field record) LINK_HASH_FIELDS.

Lemma bound_field r f :
  f ∈ LINK_HASH_FIELDS → get (preimage r) f = link_field r f ∧ f ≠ proto_key.
Proof.
  unfold LINK_HASH_FIELDS. rewrite !elem_of_cons, elem_of_nil. intros H.
  by destruct_or! H; subst f.
Qed.

Lemma link_field_rigid r f i :
  number_of (get r "sequence_number") = NInt i → rigid (link_field r f) = true.
Proof.
  intros Hi. unfold link_field. destruct (String.eqb_spec f "sequence_number") as [->|]; [by rewrite Hi|].
  by destruct (String.eqb f "status").
Qed.

Lemma link_hash_binds r r' i :
  number_of (get r "sequence_number") = NInt i →
  computeLinkHash r = computeLinkHash r' →
  bound r = bound r' ∨ collision_in [link_text r; link_text r'].
Proof.
  intros Hi [E|Hc]%hash_binding; [left|by right].
  apply map_ext_Forall, Forall_forall. intros f Hf.
  destruct (bound_field r f) as [Er Hp]; [done|]. destruct (bound_field r' f) as [Er' _]; [done|].
  rewrite <- Er, <- Er'. symmetry. apply rigid_get; [done| |done].
  rewrite Er. by eapply link_field_rigid.
Qed.

Lemma bound_hash r r' : bound r = bound r' → computeLinkHash r = computeLinkHash r'.
Proof.
  intros E. unfold computeLinkHash, preimage. do 2 f_equal.
  assert (∀ (g : string → jsval) l, map (λ f, (f, g f)) l = zip l (map g l)) as Hz.
  { intros g l. induction l as [|f l IH]; [done|]. simpl. by rewrite IH. }
  rewrite !Hz. fold (bound r) (bound r'). by rewrite E.
Qed.

Lemma bound_parent r r' :
  bound r = bound r' → str (get r "parent_link_hash") = str (get r' "parent_link_hash").
Proof. by intros [= _ _ H _]. Qed.

(** No record has the digest of genesis. *)
Lemma link_hash_genesis r :
  computeLinkHash r = GENESIS_LINK_HASH → collision_in [link_text r; genesis_text].
Proof.
  intros [E|Hc]%hash_binding; [|done].
  by apply (normalize_get _ _ "genesis") in E.
Qed.

Lemma linked_snoc key i head records record :
  linked key i head (records ++ [record]) ↔
    linked key i head records
    ∧ link_ok key (i + Z.of_nat (length records)) (match last records with Some r => Some r | None => head end) record.
Proof.
  revert i head. induction records as [|r rest IH]; intros i head; simpl.
  - rewrite Z.add_0_r. tauto.
  - rewrite IH, last_cons.
    replace (i + 1 + Z.of_nat (length rest))%Z with (i + Z.of_nat (S (length rest)))%Z by lia.
    destruct (last rest); tauto.
Qed.

Lemma linked_snoc_head key records record :
  linked key 0 None (records ++ [record]) ↔
    linked key 0 None records ∧ link_ok key (Z.of_nat (length records)) (headOf records) record.
Proof. rewrite linked_snoc. unfold headOf. rewrite Z.add_0_l. by destruct (last records). Qed.

Lemma head_binds key key' rs rs' :
  linked key 0 None rs → linked key' 0 None rs' →
  expected_parent (headOf rs) = expected_parent (headOf rs') →
  map bound rs = map bound rs' ∨ collision_in (genesis_text :: map link_text (rs ++ rs')).
Proof.
  revert rs'. induction rs as [|r rs IH] using rev_ind; intros rs'; destruct rs' as [|r' rs' _] using rev_ind;
    unfold headOf; rewrite ?last_snoc; simpl; rewrite ?linked_snoc_head.
  - by left.
  - intros _ [_ [_ E _ _]] Hh. right.
    assert (computeLinkHash r' = GENESIS_LINK_HASH) as Hg%link_hash_genesis by congruence.
    rewrite !map_app. cbn [map]. collide.
  - intros [_ [_ E _ _]] _ Hh. right.
    assert (computeLinkHash r = GENESIS_LINK_HASH) as Hg%link_hash_genesis by congruence.
    rewrite !map_app. cbn [map]. collide.
  - intros [Hl [_ E Ep Hi]] [Hl' [_ E' Ep' _]] Hh.
    destruct (link_hash_binds r r' _ Hi) as [Hb|]; [congruence| |right; rewrite !map_app; cbn [map]; collide].
    destruct (IH rs' Hl Hl') as [Hm|Hc]; [|left|right; rewrite !map_app in *; cbn [map] in *; collide].
    + rewrite <- Ep, <- Ep'. by apply bound_parent.
    + rewrite !map_app, Hm. simpl. by rewrite Hb.
Qed.

(** * Extending a chain *)
Lemma link_core_get input head k :
  k ∈ LINK_HASH_FIELDS → k ≠ "sequence_number" → k ≠ "parent_link_hash" → k ≠ "status" →
  get (linkProof input head) k = JStr (str (get input k)).
Proof.
  unfold LINK_HASH_FIELDS. rewrite !elem_of_cons, elem_of_nil. intros H.
  by destruct_or! H; subst k.
Qed.

(** The digest does not depend on the digest. *)
Lemma linkProof_hash input head :
  hash_of (linkProof input head) = computeLinkHash (linkProof input head).
Proof. reflexivity. Qed.
Lemma linkProof_ok input key i head :
  digest_head head → expected_sequence head = NInt i → str (get input "lineage_key") = key →
  link_ok key i head (linkProof input head).
Proof. by constructor. Qed.

Lemma inheritance_nil record head i :
  digest_head head → expected_sequence head = NInt i →
  verifyInheritance record head = [] ↔
    (is_record record || is_array record)
    ∧ link_ok (match head with Some h => str (get h "lineage_key") | None => str (get record "lineage_key") end)
        i head record.
Proof.
  intros Hd Hi. destruct record as [| |b|n|s|l|ps]; try (split; [done|by intros [? _]]);
    cbn [verifyInheritance];
    rewrite !app_nil, !push_nil, negb_eqb_false, parent_reasons_nil, (sequence_reasons_nil _ _ i) by done;
    (destruct head as [h|]; rewrite ?negb_eqb_false;
     (split; [intros (? & ? & ? & ?); split; [done|by constructor]|by intros [_ [? ? ? ?]]])).
Qed.

Lemma linked_sequence key i head rs r :
  linked key i head rs → r ∈ rs →
  ∃ j, number_of (get r "sequence_number") = NInt j ∧ (i <= j < i + Z.of_nat (length rs))%Z.
Proof.
  revert i head. induction rs as [|x rs IH]; intros i head Hl Hr; [by apply elem_of_nil in Hr|].
  destruct Hl as [Hx Hl]. simpl length. apply elem_of_cons in Hr as [->|Hr].
  - exists i. split; [apply Hx|lia].
  - destruct (IH _ _ Hl Hr) as (j & ? & ?). exists j. split; [done|lia].
Qed.

Lemma linked_hash key i head rs r : linked key i head rs → r ∈ rs → hash_of r = computeLinkHash r.
Proof.
  revert i head. induction rs as [|x rs IH]; intros i head Hl Hr; [by apply elem_of_nil in Hr|].
  destruct Hl as [Hx Hl]. apply elem_of_cons in Hr as [->|Hr]; [apply Hx|by eapply IH].
Qed.

(** The head of a well linked chain is what [linkProof] and the verifiers expect. *)
Lemma linked_head key rs :
  linked key 0 None rs →
  digest_head (headOf rs) ∧ expected_sequence (headOf rs) = NInt (Z.of_nat (length rs)).
Proof.
  destruct rs as [|r rs _] using rev_ind; [done|]. rewrite linked_snoc_head. unfold headOf.
  rewrite last_snoc, length_app. simpl. intros (_ & [_ H _ Hs]). rewrite Hs. simpl.
  split; [done|f_equal; lia].
Qed.

Lemma bound_sequence r r' :
  bound r = bound r' → number_of (get r "sequence_number") = number_of (get r' "sequence_number").
Proof. by intros [= _ H _ _]. Qed.

(** The digests of a well linked chain are distinct. *)
Lemma linked_distinct key rs : linked key 0 None rs → NoDup (map hash_of rs) ∨ collision_in (map link_text rs).
Proof.
  induction rs as [|r rs IH] using rev_ind; [left; constructor|]. rewrite linked_snoc_head.
  intros [Hl Hr]. destruct (IH Hl) as [Hnd|]; [|right; rewrite map_app; collide].
  destruct (decide (hash_of r ∈ map hash_of rs)) as [Hin|Hin].
  - apply elem_of_map in Hin as (o & Ho & E). right.
    destruct (linked_sequence _ _ _ _ _ Hl Ho) as (j & Hj & ?).
    rewrite (linked_hash _ _ _ _ _ Hl Ho), (lk_hash _ _ _ _ Hr) in E. symmetry in E.
    destruct (link_hash_binds o r j Hj E) as [Hb%bound_sequence|Hc].
    2:{ apply (collision_in_mono _ _ Hc). intros t Ht. rewrite map_app. apply elem_of_app.
        apply elem_of_cons in Ht as [->|Ht]; [left|by right]. apply elem_of_map. by exists o. }
    rewrite Hj, (lk_sequence _ _ _ _ Hr) in Hb. injection Hb. lia.
  - left. rewrite map_app, NoDup_app. split; [done|]. split; [|apply NoDup_singleton].
    intros h Hh Hx%list_elem_of_singleton. by subst.
Qed.

(** Appending to a VALID chain the link that [linkProof] builds on its head,
    for the lineage of the chain, passes [verifyInheritance] and leaves the chain
    VALID, unless the texts of the extended chain hold a collision. *)
Theorem linkProof_extends input rs :
  null_reasons (verifyChain rs) = [] →
  Forall (λ r, str (get r "lineage_key") = str (get input "lineage_key")) rs →
  verifyInheritance (linkProof input (headOf rs)) (headOf rs) = []
  ∧ (null_reasons (verifyChain (rs ++ [linkProof input (headOf rs)])) = []
     ∨ collision_in (map link_text (rs ++ [linkProof input (headOf rs)]))).
Proof.
  intros (key & Hl & Hnd)%valid_linked Hk. destruct (linked_head _ _ Hl) as [Hd Hs]. split.
  - apply (inheritance_nil _ _ _ Hd Hs). split; [done|]. apply linkProof_ok; [done..|].
    destruct (headOf rs) as [h|] eqn:Eh; [|done]. symmetry. rewrite Forall_forall in Hk.
    by apply Hk, last_Some_elem_of.
  - assert (linked (str (get input "lineage_key")) 0 None rs) as Hl'.
    { clear -Hl Hk. revert Hl. generalize 0%Z (@None jsval). induction Hk as [|r rs Hr _ IH]; [done|].
      intros i h [[_ ? ? ?] Hl]. split; [by constructor|by apply IH]. }
    assert (linked (str (get input "lineage_key")) 0 None (rs ++ [linkProof input (headOf rs)])) as H.
    { apply linked_snoc_head. split; [done|]. by apply linkProof_ok. }
    destruct (linked_distinct _ _ H); [left|by right]. apply valid_linked. by eexists.
Qed.
End Chain.
