(* ===== verification/ProofRegistry.v ===== *)
(** The lineage registry: [runtime/lineage/proofChainRegistry.mjs] and
    [runtime/lineage/observeRegistry.mjs].

    The registry is the text of a file of one JSON value per line, [None] when the
    file does not exist. [admitRun] is the section that runs under the registry's
    lock: it reads, verifies, decides and appends without another writer between
    ([RegistryLock] says when that holds). [JSON.parse] is a parameter, [None] an
    exception. *)
From Stdlib Require Import ZArith NArith Lia Ascii.
From stdpp Require Import base list strings pretty gmap.
From S2P Require Import Prelude JsValue Sha256 Canonical ExecutionEligibility Json ProofChain.

(** [s.split('\n')]. *)
Fixpoint split_lines (s : string) : list string :=
  match s with
  | EmptyString => [EmptyString]
  | String a r =>
      if Ascii.eqb a line_feed then EmptyString :: split_lines r
      else match split_lines r with
           | l :: ls => String a l :: ls
           | [] => [String a EmptyString]
           end
  end.

Lemma split_lines_cons s : ∃ l ls, split_lines s = l :: ls.
Proof.
  destruct s as [|a s]; simpl; [by eexists _, _|]. destruct (Ascii.eqb a line_feed); [by eexists _, _|].
  destruct (split_lines s); by eexists _, _.
Qed.

Lemma split_lines_app s t :
  split_lines (s +:+ String line_feed t) = split_lines s ++ split_lines t.
Proof.
  induction s as [|a s IH]; [done|]. simpl. rewrite IH. destruct (Ascii.eqb a line_feed); [done|].
  by destruct (split_lines_cons s) as (l & ls & ->).
Qed.

Lemma split_one_line s : one_line s = true → split_lines s = [s].
Proof.
  induction s as [|a s IH]; [done|]. simpl. intros [Ha Hs]%andb_true_iff.
  apply negb_true_iff in Ha. by rewrite Ha, IH.
Qed.

Definition ENTRY_TYPES : list string := ["execution_lineage_entry"; "proof_entry"].

Definition REQUIRED_LINK_FIELDS : list string :=
  ["lineage_key"; "sequence_number"; "parent_link_hash"; "link_hash"].

(** The messages of [MalformedRegistryError]. *)
Inductive line_defect :=
  | unparseable
  | non_object
  | unrecognized_record_type (t : string)
  | non_integer_sequence
  | missing_field (f : string).

Record MalformedRegistryError := mkMalformed { message : line_defect; line_number : nat }.

Inductive registry_reason :=
  | Substrate (r : chain_reason)
  | MALFORMED_REGISTRY_LINE.

Inductive admit_reason :=
  | MISSING_LINEAGE_KEY
  | STORED_CHAIN_INVALID
  | Stored (r : registry_reason)
  | Gate (r : eligibility_reason).

Definition isChainShaped (o : jsval) : bool :=
  negb (is_empty_str (str (get o "link_hash")))
  || jsval_eqb (get o "_record_type") (JStr "execution_lineage_entry").

Fixpoint field_defect (o : jsval) (fields : list string) : option line_defect :=
  match fields with
  | [] => None
  | f :: rest =>
      if String.eqb f "sequence_number" then
        match get o f with
        | JNum n => if is_integer n then field_defect o rest else Some non_integer_sequence
        | _ => Some non_integer_sequence
        end
      else if is_empty_str (str (get o f)) then Some (missing_field f)
      else field_defect o rest
  end.

Definition chainEntryDefect (o : jsval) : option line_defect :=
  if negb (existsb (λ t, jsval_eqb (get o "_record_type") (JStr t)) ENTRY_TYPES)
  then Some (unrecognized_record_type (str (get o "_record_type")))
  else field_defect o REQUIRED_LINK_FIELDS.

(** What the body of the reader's loop makes of a line. *)
Inductive line_reading :=
  | Skip
  | Defect (d : line_defect)
  | Entry (e : jsval).

Section Registry.
Context (json_parse : string → option jsval).
Context (other_number : string → jsnum).
Context (date_parse : string → option Z) (date_now : Z).

Definition read_line (line : string) : line_reading :=
  let trimmed := js_trim line in
  if is_empty_str trimmed then Skip
  else match json_parse trimmed with
       | None => Defect unparseable
       | Some entry =>
           if negb (is_record entry) then Defect non_object
           else if negb (isChainShaped entry) then Skip
           else match chainEntryDefect entry with
                | Some d => Defect d
                | None => Entry entry
                end
       end.

(** [lineageKey !== undefined && str(entry.lineage_key) !== str(lineageKey)], negated. *)
Definition on_lineage (lineageKey entry : jsval) : bool :=
  match lineageKey with
  | JUndef => true
  | _ => String.eqb (str (get entry "lineage_key")) (str lineageKey)
  end.

(** The loop, from line [i] on; [inl] is the exception. *)
Fixpoint read_lines (strict : bool) (lineageKey : jsval) (i : nat) (lines : list string) :
    MalformedRegistryError + list jsval :=
  match lines with
  | [] => inr []
  | line :: rest =>
      match read_line line with
      | Skip => read_lines strict lineageKey (S i) rest
      | Defect d =>
          if strict then inl (mkMalformed d (S i)) else read_lines strict lineageKey (S i) rest
      | Entry entry =>
          if on_lineage lineageKey entry
          then sum_map id (cons entry) (read_lines strict lineageKey (S i) rest)
          else read_lines strict lineageKey (S i) rest
      end
  end.

Definition readEntries (registry : option string) (lineageKey : jsval) (strict : bool) :
    MalformedRegistryError + list jsval :=
  match registry with
  | None => inr []
  | Some content => read_lines strict lineageKey 0 (split_lines content)
  end.

Definition entryToLink (entry : jsval) : jsval :=
  let field k := JStr (str (get entry k)) in
  JObj [("artifact_type", JStr "CONTINUITY_PROOF_LINK"); ("lineage_key", field "lineage_key");
        ("sequence_number", JNum (number_of other_number (get entry "sequence_number")));
        ("parent_link_hash", field "parent_link_hash"); ("continuity_id", field "continuity_id");
        ("parent_continuity_id", field "parent_continuity_id");
        ("validated_object_hash", field "validated_object_hash");
        ("executed_object_hash", field "executed_object_hash"); ("proof_hash", field "proof_hash");
        ("timestamp", field "timestamp"); ("nonce", field "nonce");
        ("status", JStr (or_active (str (get entry "status")))); ("expires_at", field "expires_at");
        ("revoked_at", field "revoked_at"); ("mutation_allowed", JBool false);
        ("link_hash", field "link_hash")].

Definition readLinks (registry : option string) (lineageKey : jsval) :=
  sum_map (id : MalformedRegistryError → _) (map entryToLink) (readEntries registry lineageKey true).

Definition computeHead (registry : option string) (lineageKey : jsval) :=
  sum_map (id : MalformedRegistryError → _) headOf (readLinks registry lineageKey).

Definition carry_of (e : jsval) : jsval :=
  let field k := JStr (str (get e k)) in
  JObj [("continuity_id", field "continuity_id");
        ("parent_continuity_id", field "parent_continuity_id");
        ("validated_object_hash", field "validated_object_hash");
        ("executed_object_hash", field "executed_object_hash"); ("proof_hash", field "proof_hash");
        ("status", JStr (str (js_or (get e "status") (JStr "ACTIVE"))));
        ("expires_at", field "expires_at"); ("revoked_at", field "revoked_at")].

Definition headCarry (registry : option string) (lineageKey : jsval) :=
  sum_map (id : MalformedRegistryError → _)
    (λ entries, match last entries with Some e => carry_of e | None => JNull end)
    (readEntries registry lineageKey true).

(** The set, in insertion order. *)
Definition consumedNonces (registry : option string) (lineageKey : jsval) :=
  sum_map (id : MalformedRegistryError → _)
    (λ entries, dedup [] (List.filter (λ n, negb (is_empty_str n)) (map (λ e, str (get e "nonce")) entries)))
    (readEntries registry lineageKey true).

Definition verifyRegistryChain (registry : option string) (lineageKey : jsval) :
    chain_verdict registry_reason :=
  match readLinks registry lineageKey with
  | inl err => mkVerdict [MALFORMED_REGISTRY_LINE] (Some (line_number err)) None 0
  | inr links =>
      let v := verifyChain other_number links in
      mkVerdict (map Substrate (null_reasons v)) (broken_at v) (head_link_hash v) (chain_length v)
  end.

(** What [admitRun] answers: [eligibility] is ELIGIBLE when there is no reason. *)
Record admission := mkAdmission {
  ad_reasons : list admit_reason;
  ad_stored_chain : option (chain_verdict registry_reason);
  ad_record : option jsval;
  ad_appended : bool
}.

Inductive thrown :=
  | Malformed (e : MalformedRegistryError)
  | SubstrateRefused (reasons : list chain_reason).

Definition refuse (reasons : list admit_reason) (stored : option (chain_verdict registry_reason)) :
    thrown + admission :=
  inr (mkAdmission reasons stored None false).

(** [m] read, or its exception. *)
Definition reading {A R} (m : MalformedRegistryError + A) (file : option string)
    (k : A → (thrown + R) * option string) : (thrown + R) * option string :=
  match m with inl e => (inl (Malformed e), file) | inr x => k x end.

(** [appendFileSync]. *)
Definition append_file (file : option string) (text : string) : option string :=
  Some (default EmptyString file +:+ text).

Definition or_undefined (v : jsval) : jsval := if truthy v then v else JUndef.

Definition link_input (current options : jsval) : jsval :=
  let carry := eligibilityCarry current in
  JObj [("lineage_key", JStr (str (get current "lineage_key")));
        ("continuity_id", get carry "continuity_id");
        ("parent_continuity_id", get carry "parent_continuity_id");
        ("validated_object_hash", get carry "validated_object_hash");
        ("executed_object_hash", get carry "executed_object_hash");
        ("proof_hash", get carry "proof_hash");
        ("timestamp", JStr (str (js_or (get options "timestamp") (get current "timestamp"))));
        ("nonce", JStr (str (get current "nonce")));
        ("status", get carry "status"); ("expires_at", get carry "expires_at");
        ("revoked_at", get carry "revoked_at")].

Definition record_props (proof_id link : jsval) : list (string * jsval) :=
  [("_record_type", JStr "execution_lineage_entry"); ("proof_id", js_coalesce proof_id JNull);
   ("lineage_key", get link "lineage_key"); ("sequence_number", get link "sequence_number");
   ("parent_link_hash", get link "parent_link_hash"); ("continuity_id", get link "continuity_id");
   ("parent_continuity_id", get link "parent_continuity_id");
   ("validated_object_hash", get link "validated_object_hash");
   ("executed_object_hash", get link "executed_object_hash"); ("proof_hash", get link "proof_hash");
   ("nonce", or_undefined (get link "nonce")); ("status", get link "status");
   ("expires_at", or_undefined (get link "expires_at"));
   ("revoked_at", or_undefined (get link "revoked_at")); ("timestamp", get link "timestamp");
   ("link_hash", get link "link_hash")].

Definition line_of (record : jsval) : string := json_stringify record +:+ String line_feed EmptyString.

Definition admitRun (file : option string) (current options : jsval) :
    (thrown + admission) * option string :=
  let lineageKey := str (get current "lineage_key") in
  if is_empty_str lineageKey then (refuse [MISSING_LINEAGE_KEY] None, file)
  else
    let chain := verifyRegistryChain file (JStr lineageKey) in
    match null_reasons chain with
    | _ :: _ => (refuse (STORED_CHAIN_INVALID :: map Stored (null_reasons chain)) (Some chain), file)
    | [] =>
        reading (headCarry file (JStr lineageKey)) file (λ prior,
        reading (consumedNonces file (JStr lineageKey)) file (λ consumed,
        match classifyExecutionEligibility date_parse date_now prior current (get options "now")
                (map JStr consumed) with
        | (_ :: _) as reasons => (refuse (map Gate reasons) None, file)
        | [] =>
            reading (computeHead file (JStr lineageKey)) file (λ head,
            let link := linkProof other_number (link_input current options) head in
            match verifyInheritance other_number link head with
            | (_ :: _) as reasons => (inl (SubstrateRefused reasons), file)
            | [] =>
                let record := JObj (record_props (get options "proof_id") link) in
                (inr (mkAdmission [] None (Some record) true), append_file file (line_of record))
            end)
        end))
    end.

(** [observeRegistry]: the fields that carry information; the others are constants
    and the time of the observation. *)
Record observation := mkObservation {
  ob_lineage_key : jsval;
  ob_intact : bool;
  ob_head_link_hash : option string;
  ob_registry_length : nat;
  ob_null_reasons : list registry_reason;
  ob_broken_at : option nat
}.

Definition observeRegistry (file : option string) (options : jsval) : observation :=
  let lineageKey := get options "lineage_key" in
  let res := verifyRegistryChain file lineageKey in
  mkObservation (js_coalesce lineageKey JNull)
    (match null_reasons res with [] => true | _ => false end)
    (head_link_hash res) (chain_length res) (null_reasons res) (broken_at res).

(** * Reading *)
Lemma read_lines_app key i l1 l2 es :
  read_lines true key i l1 = inr es →
  read_lines true key i (l1 ++ l2)
  = sum_map id (app es) (read_lines true key (i + length l1) l2).
Proof.
  revert i es. induction l1 as [|line l1 IH]; intros i es; simpl.
  - intros [= <-]. rewrite Nat.add_0_r. by destruct (read_lines _ _ _ _).
  - rewrite <- Nat.add_succ_comm. destruct (read_line line); [by apply IH|done|].
    destruct (on_lineage key e); [|by apply IH].
    destruct (read_lines true key (S i) l1) as [|es'] eqn:E; [done|]. intros [= <-].
    rewrite (IH _ _ E). by destruct (read_lines true key (S i + length l1) l2).
Qed.

(** The entries of a lineage are those of the file that name it. *)
Lemma read_lines_key key i lines es :
  read_lines true JUndef i lines = inr es →
  read_lines true key i lines = inr (List.filter (on_lineage key) es).
Proof.
  revert i es. induction lines as [|line lines IH]; intros i es; simpl; [by intros [= <-]|].
  destruct (read_line line); [by apply IH|done|].
  destruct (read_lines true JUndef (S i) lines) as [|es'] eqn:E; [done|]. intros [= <-].
  rewrite (IH _ _ E). simpl. by destruct (on_lineage key e).
Qed.

Lemma readEntries_key file key es :
  readEntries file JUndef true = inr es → readEntries file key true = inr (List.filter (on_lineage key) es).
Proof. destruct file; simpl; [apply read_lines_key|by intros [= <-]]. Qed.

(** A file whose last line is terminated. *)
Definition terminated (file : option string) : Prop :=
  match file with
  | None => True
  | Some s => s = EmptyString ∨ ∃ t, s = t +:+ String line_feed EmptyString
  end.

Lemma read_blank strict key i lines :
  read_lines strict key i (lines ++ [EmptyString]) = read_lines strict key i lines.
Proof.
  revert i. induction lines as [|line lines IH]; intros i; [done|]. simpl.
  by destruct (read_line line); rewrite IH.
Qed.

(** Appending an entry's line to a terminated file appends the entry. *)
Lemma append_entry file es line e :
  terminated file → readEntries file JUndef true = inr es →
  one_line line = true → read_line line = Entry e →
  terminated (append_file file (line +:+ String line_feed EmptyString))
  ∧ readEntries (append_file file (line +:+ String line_feed EmptyString)) JUndef true
    = inr (es ++ [e]).
Proof.
  intros Ht He Hl Hr. unfold append_file. split.
  { right. exists (default EmptyString file +:+ line). by rewrite str_app_assoc. }
  assert (default EmptyString file = EmptyString ∧ es = []
    ∨ ∃ t, file = Some (t +:+ String line_feed EmptyString)) as [[-> ->]|(t & ->)].
  { destruct file as [s|]; [|left; split; [done|by injection He]].
    destruct Ht as [->|(t & ->)]; [|right; by exists t]. left. split; [done|by injection He]. }
  - cbn [readEntries]. change (EmptyString +:+ ?x) with x.
    rewrite (split_lines_app _ EmptyString), (split_one_line line) by done.
    rewrite read_blank. simpl. by rewrite Hr.
  - cbn [readEntries from_option id] in *. rewrite split_lines_app, read_blank in He.
    rewrite str_app_assoc. cbn [String.append]. rewrite split_lines_app.
    rewrite (split_lines_app _ EmptyString), (split_one_line line) by done. rewrite app_assoc, read_blank.
    rewrite (read_lines_app _ _ _ _ _ He). simpl. by rewrite Hr.
Qed.

Lemma read_lines_entries key i lines es :
  read_lines true key i lines = inr es →
  Forall (λ e, on_lineage key e = true ∧ is_record e = true ∧ chainEntryDefect e = None) es.
Proof.
  revert i es. induction lines as [|line lines IH]; intros i es; simpl; [by intros [= <-]|].
  destruct (read_line line) as [| |e] eqn:Er; [by apply IH|done|].
  destruct (on_lineage key e) eqn:Ek; [|by apply IH].
  destruct (read_lines true key (S i) lines) as [|es'] eqn:E; [done|]. intros [= <-].
  constructor; [|by eapply IH]. split; [done|]. revert Er. unfold read_line.
  destruct (is_empty_str _); [done|]. destruct (json_parse _) as [v|]; [|done].
  destruct (is_record v) eqn:Ev; [|done]. simpl. destruct (isChainShaped v); [|done]. simpl.
  destruct (chainEntryDefect v) eqn:Ed; [done|]. by intros [= <-].
Qed.

Lemma readEntries_entries file key es :
  readEntries file key true = inr es →
  Forall (λ e, on_lineage key e = true ∧ is_record e = true ∧ chainEntryDefect e = None) es.
Proof. destruct file; simpl; [apply read_lines_entries|by intros [= <-]]. Qed.

Lemma verifyRegistry_nil file key :
  null_reasons (verifyRegistryChain file key) = [] ↔
    ∃ es, readEntries file key true = inr es
      ∧ null_reasons (verifyChain other_number (map entryToLink es)) = [].
Proof.
  unfold verifyRegistryChain, readLinks. destruct (readEntries file key true) as [e|es]; simpl.
  - split; [done|by intros (? & ? & _)].
  - split.
    + intros H%map_eq_nil. by eexists.
    + intros (? & [= ->] & ->). done.
Qed.

(** * Admission *)

(** The state that a run on lineage [key] meets. *)
Definition nonces_of (es : list jsval) : list string :=
  dedup [] (List.filter (λ n, negb (is_empty_str n)) (map (λ e, str (get e "nonce")) es)).

Definition prior_of (es : list jsval) : jsval :=
  match last es with Some e => carry_of e | None => JNull end.

Definition next_link (es : list jsval) (current options : jsval) : jsval :=
  linkProof other_number (link_input current options) (headOf (map entryToLink es)).

(** Run [current] is appended after the entries [es] of its lineage. *)
Record admits (file : option string) (current options : jsval) (es : list jsval) : Prop := mkAdmits {
  am_key : str (get current "lineage_key") ≠ EmptyString;
  am_read : readEntries file (JStr (str (get current "lineage_key"))) true = inr es;
  am_valid : null_reasons (verifyChain other_number (map entryToLink es)) = [];
  am_gate : classifyExecutionEligibility date_parse date_now (prior_of es) current
              (get options "now") (map JStr (nonces_of es)) = []
}.

Lemma entries_lineage key es :
  Forall (λ e, on_lineage (JStr key) e = true ∧ is_record e = true ∧ chainEntryDefect e = None) es →
  Forall (λ r, str (get r "lineage_key") = key) (map entryToLink es).
Proof.
  intros H. apply Forall_map. eapply Forall_impl; [exact H|]. simpl.
  intros e (Hk & _). by apply String.eqb_eq in Hk.
Qed.

Lemma next_link_inherits file current options es :
  admits file current options es →
  verifyInheritance other_number (next_link es current options) (headOf (map entryToLink es)) = [].
Proof.
  intros [_ Hr Hv _]. apply readEntries_entries, entries_lineage in Hr.
  apply valid_linked in Hv as (key & Hl & _). destruct (linked_head _ _ _ Hl) as [Hd Hs].
  apply (inheritance_nil _ _ _ _ Hd Hs). split; [done|]. apply linkProof_ok; [done..|].
  unfold headOf. destruct (last (map entryToLink es)) as [h|] eqn:Eh; [|done]. symmetry.
  rewrite Forall_forall in Hr. by apply Hr, last_Some_elem_of.
Qed.

Lemma admitRun_admits file current options es :
  admits file current options es →
  admitRun file current options
  = (inr (mkAdmission [] None
        (Some (JObj (record_props (get options "proof_id") (next_link es current options)))) true),
     append_file file
       (line_of (JObj (record_props (get options "proof_id") (next_link es current options))))).
Proof.
  intros Ha. pose proof (next_link_inherits _ _ _ _ Ha) as Hi. destruct Ha as [Hk He Hv Hg].
  unfold admitRun. apply is_empty_str_false in Hk. rewrite Hk.
  rewrite (proj2 (verifyRegistry_nil file (JStr (str (get current "lineage_key"))))) by eauto.
  unfold headCarry, consumedNonces, computeHead, readLinks. rewrite He. cbn [sum_map reading id].
  fold (prior_of es) (nonces_of es). rewrite Hg. unfold next_link in *. by rewrite Hi.
Qed.

Lemma admitRun_cases file current options :
  (∃ a, admitRun file current options = (inr a, file) ∧ ad_reasons a ≠ [] ∧ ad_record a = None
        ∧ ad_appended a = false)
  ∨ ∃ es, admits file current options es
      ∧ admitRun file current options
        = (inr (mkAdmission [] None
              (Some (JObj (record_props (get options "proof_id") (next_link es current options)))) true),
           append_file file
             (line_of (JObj (record_props (get options "proof_id") (next_link es current options))))).
Proof.
  unfold admitRun at 1. set (key := str (get current "lineage_key")).
  destruct (is_empty_str key) eqn:Ek; [left; by eexists|]. apply is_empty_str_false in Ek.
  destruct (null_reasons (verifyRegistryChain file (JStr key))) as [|r rs] eqn:Ev;
    [|left; by eexists].
  apply verifyRegistry_nil in Ev as (es & He & Hv).
  unfold headCarry, consumedNonces, computeHead, readLinks. rewrite He. cbn [sum_map reading id].
  fold (prior_of es) (nonces_of es).
  destruct (classifyExecutionEligibility _ _ _ _ _ _) as [|r rs] eqn:Eg; [|left; by eexists].
  right. exists es. assert (admits file current options es) as Ha by done. split; [done|].
  by apply admitRun_admits.
Qed.

(** [admitRun] always answers: the exceptions its reads and its integrity
    check could raise cannot arise after the chain is verified. It answers
    ELIGIBLE exactly when it has appended one line, that of the record it
    returns; otherwise it gives at least one reason and the file is as it was. *)
Theorem admitRun_total file current options :
  ∃ a, (admitRun file current options).1 = inr a
    ∧ (ad_reasons a = [] ↔ ad_appended a = true)
    ∧ (admitRun file current options).2
      = match ad_record a with Some record => append_file file (line_of record) | None => file end
    ∧ (ad_appended a = true ↔ ad_record a ≠ None).
Proof.
  destruct (admitRun_cases file current options) as [(a & -> & Hr & Hn & Ha)|(es & Ha & ->)].
  - exists a. rewrite Hn, Ha. naive_solver.
  - eexists. simpl. split; [done|]. naive_solver.
Qed.

(** * The line of an admitted run *)

(** The value a reader finds on the line: undefined properties are not written. *)
Definition defined_prop (kv : string * jsval) : bool := is_defined kv.2.

Definition written (record : list (string * jsval)) : jsval := JObj (List.filter defined_prop record).

(** Objects of scalars under lower-case names: such an object is read back as it
    was written. *)
Definition name_char (a : ascii) : bool :=
  ((97 <=? code a) && (code a <=? 122) || (code a =? 95))%N.

Definition json_scalar (v : jsval) : bool :=
  match v with JNull | JBool _ | JStr _ | JNum (NInt _) => true | _ => false end.

Definition flat (ps : list (string * jsval)) : Prop :=
  NoDup ps.*1 ∧ Forall (λ kv, str_forall name_char kv.1 = true ∧ json_scalar kv.2 = true) ps.

Definition reads_flat : Prop :=
  ∀ ps, flat ps → json_parse (json_stringify (JObj ps)) = Some (JObj ps).

Lemma get_written ps k : NoDup ps.*1 → get (written ps) k = get (JObj ps) k.
Proof.
  unfold written. simpl. induction ps as [|[j v] ps IH]; [done|]. simpl. intros [Hj Hnd]%NoDup_cons.
  unfold defined_prop at 1. simpl. destruct (String.eqb_spec k j) as [->|Hk].
  - destruct v; simpl; rewrite ?String.eqb_refl; try done. rewrite IH by done.
    destruct (assoc j ps) as [w|] eqn:E; [|done]. exfalso. apply Hj. clear -E.
    induction ps as [|[i x] ps IH]; [done|]. simpl in *. destruct (String.eqb_spec j i) as [->|]; [by left|].
    right. by apply IH.
  - destruct (is_defined v); simpl; [|by apply IH].
    apply String.eqb_neq in Hk. rewrite Hk. by apply IH.
Qed.

Lemma stringify_written ps : json_stringify (written ps) = json_stringify (JObj ps).
Proof.
  unfold written. rewrite !stringify_obj. fold defined_prop.
  assert (List.filter defined_prop (List.filter defined_prop ps) = List.filter defined_prop ps)
    as ->; [|done].
  induction ps as [|kv ps IH]; [done|]. simpl. destruct (defined_prop kv) eqn:E; simpl; [|done].
  by rewrite E, IH.
Qed.

Lemma record_names proof_id link : NoDup (record_props proof_id link).*1.
Proof. vm_compute. repeat constructor; set_solver. Qed.

Lemma record_flat proof_id input head n :
  json_scalar (js_coalesce proof_id JNull) = true → expected_sequence other_number head = NInt n →
  flat (List.filter defined_prop (record_props proof_id (linkProof other_number input head))).
Proof.
  intros Hp Hs. split.
  { eapply sublist_NoDup; [|apply filter_keys_sublist]. apply record_names. }
  apply Forall_forall. intros kv [Hkv Hd]%list_elem_of_In%filter_In. apply list_elem_of_In in Hkv.
  unfold record_props in Hkv. rewrite !elem_of_cons, elem_of_nil in Hkv.
  destruct_or! Hkv; subst kv; (split; [done|]); try done.
  all: cbn in Hd |- *; try done; unfold or_undefined in *; cbn in *; try (by rewrite Hs).
  all: by match goal with |- context [is_empty_str ?s] => destruct (is_empty_str s) end.
Qed.

(** An appended run is what the reader finds. *)
Definition entry_of_run (es : list jsval) (current options : jsval) : jsval :=
  written (record_props (get options "proof_id") (next_link es current options)).

Lemma get_or_undefined s : str (or_undefined (JStr s)) = s.
Proof. unfold or_undefined. simpl. unfold is_empty_str. by destruct (String.eqb_spec s EmptyString) as [->|]. Qed.

Lemma or_active_idem s : or_active (or_active s) = or_active s.
Proof. unfold or_active. by destruct (is_empty_str s) eqn:E; rewrite ?E. Qed.

Lemma entry_get es current options k :
  get (entry_of_run es current options) k
  = get (JObj (record_props (get options "proof_id") (next_link es current options))) k.
Proof. apply get_written, record_names. Qed.

Lemma entryToLink_run es current options :
  entryToLink (entry_of_run es current options) = next_link es current options.
Proof.
  unfold entryToLink. rewrite !entry_get. unfold next_link, linkProof.
  cbn -[or_undefined computeLinkHash or_active link_input].
  by rewrite !get_or_undefined, or_active_idem.
Qed.

Lemma read_entry file current options es :
  reads_flat → json_scalar (js_coalesce (get options "proof_id") JNull) = true →
  admits file current options es →
  read_line (json_stringify (JObj (record_props (get options "proof_id") (next_link es current options))))
  = Entry (entry_of_run es current options).
Proof.
  intros Hj Hp [Hk Hr Hv _]. apply valid_linked in Hv as (key & Hl & _).
  destruct (linked_head _ _ _ Hl) as [Hd Hs].
  pose proof (record_flat (get options "proof_id") (link_input current options) _ _ Hp Hs) as Hf.
  rewrite <- stringify_written. unfold read_line.
  assert (js_trim (json_stringify (entry_of_run es current options))
          = json_stringify (entry_of_run es current options)) as Ht.
  { unfold entry_of_run, written. rewrite stringify_obj. by apply trim_visible. }
  assert (json_parse (json_stringify (entry_of_run es current options))
          = Some (entry_of_run es current options)) as Hp' by apply (Hj _ Hf).
  fold (entry_of_run es current options). rewrite Ht, Hp'.
  replace (is_empty_str _) with false by (unfold entry_of_run, written; by rewrite stringify_obj).
  assert (isChainShaped (entry_of_run es current options) = true) as ->.
  { unfold isChainShaped. rewrite !entry_get. by rewrite orb_true_r. }
  assert (chainEntryDefect (entry_of_run es current options) = None) as ->; [|done].
  unfold chainEntryDefect. cbn [REQUIRED_LINK_FIELDS field_defect ENTRY_TYPES existsb].
  rewrite !entry_get. unfold next_link, linkProof.
  cbn -[is_empty_str computeLinkHash link_input expected_parent expected_sequence].
  rewrite Hs. simpl is_integer. destruct (expected_parent_digest _ _ Hd) as [v Ev]. unfold computeLinkHash.
  rewrite Ev, !digest_non_empty. cbn -[is_empty_str]. apply is_empty_str_false in Hk. by rewrite Hk.
Qed.

(** * The registry as a lineage

    What the gate reads of a prior state. *)
Record same_view (p q : jsval) : Prop := mkSameView {
  sv_null : nullish p = nullish q;
  sv_validated : str (get p "validated_object_hash") = str (get q "validated_object_hash");
  sv_executed : str (get p "executed_object_hash") = str (get q "executed_object_hash");
  sv_continuity : str (get p "continuity_id") = str (get q "continuity_id");
  sv_revoked : str (get p "revoked_at") = str (get q "revoked_at");
  sv_expires : str (get p "expires_at") = str (get q "expires_at");
  sv_status : str (js_or (get p "status") (JStr "ACTIVE")) = str (js_or (get q "status") (JStr "ACTIVE"))
}.

Lemma gate_view p q current now ns ms :
  same_view p q →
  (∀ n, n ≠ EmptyString → n ∈ map str ms → n ∈ map str ns) →
  classifyExecutionEligibility date_parse date_now p current now ns = [] →
  classifyExecutionEligibility date_parse date_now q current now ms = [].
Proof.
  intros [H0 H1 H2 H3 H4 H5 H6] Hn. rewrite !gate_iff, <- H0. generalize GENESIS_EXECUTION_STATE as g.
  intros g. assert (str (get current "nonce") = EmptyString ∨ str (get current "nonce") ∉ map str ns →
    str (get current "nonce") = EmptyString ∨ str (get current "nonce") ∉ map str ms) as Hx.
  { intros [Hx|Hx]; [by left|].
    destruct (decide (str (get current "nonce") = EmptyString)); [by left|]. right. auto. }
  destruct (nullish p); intros [K1 K2 K3 K4 K5 K6 K7 K8%Hx]; constructor; auto; try congruence;
    try (destruct K6; split; congruence).
  revert K7. unfold isExpired. by rewrite H5.
Qed.

(** Entry [e] is what run [run] left. *)
Record entry_like (e run : jsval) : Prop := mkEntryLike {
  el_carry : same_view (carry_of e) (eligibilityCarry run);
  el_nonce_of : str (get e "nonce") = str (get run "nonce");
  el_lineage : str (get e "lineage_key") = str (get run "lineage_key")
}.

Lemma or_active_str s : str (js_or (JStr s) (JStr "ACTIVE")) = or_active s.
Proof. unfold js_or, or_active. simpl. by destruct (is_empty_str s). Qed.

Lemma entry_like_run es current options : entry_like (entry_of_run es current options) current.
Proof.
  constructor; [constructor|..]; unfold carry_of; rewrite ?entry_get; unfold next_link, linkProof.
  all: cbn -[or_undefined computeLinkHash or_active js_or is_empty_str]; rewrite ?get_or_undefined; try done.
  by rewrite !or_active_str, !or_active_idem.
Qed.

Lemma Forall2_last {A B} (R : A → B → Prop) l k :
  Forall2 R l k →
  match last l, last k with Some x, Some y => R x y | None, None => True | _, _ => False end.
Proof.
  induction 1 as [|x y l k Hxy Hl IH]; [done|]. rewrite !last_cons.
  by destruct (last l), (last k).
Qed.

Lemma Forall2_filter {A B} (R : A → B → Prop) f g l k :
  (∀ x y, R x y → f x = g y) → Forall2 R l k → Forall2 R (List.filter f l) (List.filter g k).
Proof.
  intros Hfg. induction 1 as [|x y l k Hxy Hl IH]; [done|]. simpl. rewrite (Hfg _ _ Hxy).
  destruct (g y); [by constructor|done].
Qed.

Lemma elem_nonces es n :
  n ∈ nonces_of es ↔ n ≠ EmptyString ∧ ∃ e, e ∈ es ∧ n = str (get e "nonce").
Proof.
  unfold nonces_of. rewrite elem_of_dedup, list_elem_of_In, filter_In, <- list_elem_of_In, elem_of_map.
  rewrite negb_true_iff, is_empty_str_false. set_solver.
Qed.

(** The gate's view of a registry is that of the runs it records. *)
Lemma gate_of_entries es runs current now head :
  Forall2 entry_like es (reverse runs) →
  admitted date_parse date_now head runs →
  classifyExecutionEligibility date_parse date_now (prior_of es) current now (map JStr (nonces_of es)) = [] →
  classifyExecutionEligibility date_parse date_now head current now (map (λ r, get r "nonce") runs) = [].
Proof.
  intros Hes Had. apply gate_view.
  - pose proof (admitted_head _ _ _ _ Had) as Hh. apply Forall2_last in Hes. unfold prior_of.
    destruct runs as [|run runs]; [subst head; simpl in Hes; by destruct (last es)|].
    rewrite reverse_cons, last_snoc in Hes. subst head. destruct (last es); [by destruct Hes|done].
  - intros n Hn. rewrite map_map, !elem_of_map. intros (r & Hr & ->). exists (JStr (str (get r "nonce"))).
    split; [|done]. apply elem_of_map. exists (str (get r "nonce")). split; [|done].
    apply elem_nonces. split; [done|]. apply elem_of_reverse, list_elem_of_lookup in Hr as [i Hi].
    destruct (Forall2_lookup_r _ _ _ _ _ Hes Hi) as (e & He & [_ E _]).
    exists e. split; [by eapply list_elem_of_lookup_2|done].
Qed.

(** A file and the runs admitted to it since [start], newest first, by calls of
    [admitRun] on any lineages. *)
Inductive history (start : option string) : option string → list jsval → Prop :=
  | history_start : history start start []
  | history_run file runs current options a file' :
      history start file runs →
      json_scalar (js_coalesce (get options "proof_id") JNull) = true →
      admitRun file current options = (inr a, file') →
      history start file' (if ad_appended a then current :: runs else runs).

Definition on_key (key : string) (r : jsval) : bool := String.eqb (str (get r "lineage_key")) key.

Definition runs_of (key : string) (runs : list jsval) : list jsval := List.filter (on_key key) runs.

(** The state between two calls. *)
Record registry_inv (file : option string) (runs : list jsval) : Prop := mkInv {
  ri_terminated : terminated file;
  ri_entries : ∃ all, readEntries file JUndef true = inr all ∧ Forall2 entry_like all (reverse runs)
    ∧ ∀ key, linked other_number key 0 None (map entryToLink (runs_of key all));
  ri_admitted : ∀ key, ∃ head, admitted date_parse date_now head (runs_of key runs)
}.

Lemma filter_reverse {A} (f : A → bool) l : List.filter f (reverse l) = reverse (List.filter f l).
Proof.
  induction l as [|x l IH]; [done|]. rewrite reverse_cons, List.filter_app, IH. simpl.
  destruct (f x); [by rewrite reverse_cons|by rewrite app_nil_r].
Qed.

Lemma entries_runs all runs key :
  Forall2 entry_like all (reverse runs) → Forall2 entry_like (runs_of key all) (reverse (runs_of key runs)).
Proof.
  intros H. unfold runs_of. rewrite <- filter_reverse. apply (Forall2_filter entry_like); [|done].
  intros e r [_ _ E]. unfold on_key. by rewrite E.
Qed.

Lemma inv_linked_step key all es current options :
  es = runs_of (str (get current "lineage_key")) all →
  linked other_number key 0 None (map entryToLink (runs_of key all)) →
  linked other_number key 0 None
    (map entryToLink (runs_of key (all ++ [entry_of_run es current options]))).
Proof.
  intros Ees Hl. unfold runs_of at 1. rewrite List.filter_app. simpl. unfold on_key at 2.
  rewrite (el_lineage _ _ (entry_like_run es current options)).
  destruct (String.eqb_spec (str (get current "lineage_key")) key) as [E|E]; [|by rewrite app_nil_r].
  rewrite map_app. simpl. rewrite entryToLink_run. apply linked_snoc_head.
  subst es. rewrite E. fold (runs_of key all). split; [done|].
  destruct (linked_head _ _ _ Hl) as [Hd Hs]. by apply linkProof_ok.
Qed.

Lemma inv_step file runs current options a file' :
  reads_flat → registry_inv file runs →
  json_scalar (js_coalesce (get options "proof_id") JNull) = true →
  admitRun file current options = (inr a, file') →
  registry_inv file' (if ad_appended a then current :: runs else runs).
Proof.
  intros Hj [Ht (all & Hall & Hlike & Hlinked) Hadm] Hp Hrun.
  destruct (admitRun_cases file current options) as [(a' & E & _ & _ & Ha)|(es & Ha & E)];
    rewrite E in Hrun; injection Hrun as <- <-; [rewrite Ha; by constructor; [|exists all|]|].
  cbn [ad_appended]. pose proof Ha as [Hk Hr Hv Hg].
  rewrite (readEntries_key _ _ _ Hall) in Hr. injection Hr as Hes.
  change (runs_of (str (get current "lineage_key")) all = es) in Hes.
  destruct (append_entry _ _ _ _ Ht Hall (stringify_one_line _) (read_entry _ _ _ _ Hj Hp Ha)) as [Ht' Hall'].
  constructor; [exact Ht'|exists (all ++ [entry_of_run es current options]); split; [exact Hall'|split]|].
  - rewrite reverse_cons. apply Forall2_app; [done|]. constructor; [apply entry_like_run|constructor].
  - intros key. by apply inv_linked_step.
  - intros key. unfold runs_of. simpl. unfold on_key at 1.
    destruct (String.eqb_spec (str (get current "lineage_key")) key) as [E'|E']; [|apply Hadm].
    destruct (Hadm key) as [head Hh]. eexists. eapply admitted_next; [exact Hh|].
    eapply gate_of_entries; [|exact Hh|exact Hg]. rewrite <- Hes, E'. by apply entries_runs.
Qed.

Lemma history_inv start file runs :
  reads_flat → terminated start → readEntries start JUndef true = inr [] →
  history start file runs → registry_inv file runs.
Proof.
  intros Hj Ht He. induction 1 as [|file runs current options a file' _ IH Hp Hrun].
  - constructor; [done| |intros key; exists JNull; constructor].
    exists []. split; [done|]. by split; [constructor|].
  - by eapply inv_step.
Qed.

(** The link a run leaves: its lineage, nonce, continuity and objects. *)
Record link_of_run (link run : jsval) : Prop := mkLinkOfRun {
  lr_lineage : str (get link "lineage_key") = str (get run "lineage_key");
  lr_nonce : str (get link "nonce") = str (get run "nonce");
  lr_continuity : str (get link "continuity_id") = str (get run "continuity_id");
  lr_validated : str (get link "validated_object_hash") = str (get run "validated_object_hash");
  lr_executed : str (get link "executed_object_hash")
                = str (get (eligibilityCarry run) "executed_object_hash")
}.

Lemma entry_link e run : entry_like e run → link_of_run (entryToLink e) run.
Proof. by intros [[_ Hv Hx Hc _ _ _] Hn Hl]. Qed.

(** Reading [file] back finds, for lineage [key], exactly one link per run of
    [runs], in their order, each showing its run, numbered by its place and
    naming the digest of the one before; and the replay of these links is VALID,
    unless two of the texts they are digests of collide. *)
Definition one_link_each (file : option string) (key : string) (runs : list jsval) : Prop :=
  ∃ links, readLinks file (JStr key) = inr links
    ∧ Forall2 link_of_run links (reverse (runs_of key runs))
    ∧ linked other_number key 0 None links
    ∧ (null_reasons (verifyRegistryChain file (JStr key)) = []
         ∧ chain_length (verifyRegistryChain file (JStr key)) = length (runs_of key runs)
       ∨ collision_in (map (link_text other_number) links)).

Lemma registry_sound start file runs key :
  reads_flat → terminated start → readEntries start JUndef true = inr [] →
  history start file runs → one_link_each file key runs.
Proof.
  intros Hj Ht He Hh. destruct (history_inv _ _ _ Hj Ht He Hh) as [_ (all & Hall & Hlike & Hl) _].
  specialize (Hl key). apply (entries_runs _ _ key) in Hlike.
  exists (map entryToLink (runs_of key all)). unfold verifyRegistryChain, readLinks.
  rewrite (readEntries_key _ (JStr key) _ Hall).
  change (List.filter (on_lineage (JStr key)) all) with (runs_of key all). cbn [sum_map].
  split; [done|]. split.
  { apply Forall2_fmap_l. eapply Forall2_impl; [exact Hlike|exact entry_link]. }
  split; [done|]. destruct (linked_distinct _ _ _ Hl) as [Hnd|]; [left|by right].
  assert (null_reasons (verifyChain other_number (map entryToLink (runs_of key all))) = []) as Hv.
  { apply valid_linked. by eexists. }
  apply Forall2_length in Hlike. rewrite length_reverse in Hlike.
  cbn [null_reasons chain_length]. rewrite Hv, (proj2 (valid_head _ _ Hv)), length_map. done.
Qed.

(** C20. The registry refines the lineage law. However runs on any lineages are
    submitted to a registry that holds no lineage yet, the runs it has admitted on
    each lineage are a sequence the gate admits one after the other; and reading
    the file back finds exactly one link per admitted run, in their order, which
    shows the run's nonce, continuity and objects, carries its own digest, its
    place and the digest of the link before. The replay of that chain is VALID
    unless two of the chain's own hashed texts are a collision of SHA-256. *)
Theorem registry_lineage start file runs key :
  reads_flat → terminated start → readEntries start JUndef true = inr [] →
  history start file runs →
  (∃ head, admitted date_parse date_now head (runs_of key runs)) ∧ one_link_each file key runs.
Proof.
  intros Hj Ht He Hh. split; [|by eapply registry_sound].
  by apply (history_inv _ _ _ Hj Ht He Hh).
Qed.

Lemma history_admitted start file runs current options :
  history start file runs →
  json_scalar (js_coalesce (get options "proof_id") JNull) = true →
  match (admitRun file current options).1 with inr a => ad_appended a | inl _ => false end = true →
  history start (admitRun file current options).2 (current :: runs).
Proof.
  intros Hh Hp Ha.
  destruct (admitRun file current options) as [[e|a] file'] eqn:E; [done|]. cbn [fst snd] in *.
  pose proof (history_run _ _ _ _ _ _ _ Hh Hp E) as H. by rewrite Ha in H.
Qed.

(** The digest fixes every field of an entry's link. *)
Lemma bound_link e e' :
  hash_of (entryToLink e) = computeLinkHash other_number (entryToLink e) →
  hash_of (entryToLink e') = computeLinkHash other_number (entryToLink e') →
  bound other_number (entryToLink e) = bound other_number (entryToLink e') →
  entryToLink e = entryToLink e'.
Proof.
  intros H H' Hb.
  assert (hash_of (entryToLink e) = hash_of (entryToLink e')) as Hh.
  { rewrite H, H'. by apply bound_hash. }
  clear H H'. unfold bound, LINK_HASH_FIELDS in Hb. unfold link_field, hash_of in *.
  cbn -[or_active] in Hb, Hh. rewrite !or_active_idem in Hb. injection Hb. clear Hb. intros.
  unfold entryToLink. congruence.
Qed.

Lemma bound_links es es' key key' i h h' :
  linked other_number key i h (map entryToLink es) →
  linked other_number key' i h' (map entryToLink es') →
  map (bound other_number) (map entryToLink es) = map (bound other_number) (map entryToLink es') →
  map entryToLink es = map entryToLink es'.
Proof.
  revert es' i h h'. induction es as [|e es IH]; intros [|e' es'] i h h'; try done.
  cbn [map linked]. intros [Hk Hl] [Hk' Hl'] Hm.
  assert (bound other_number (entryToLink e) = bound other_number (entryToLink e')
    ∧ map (bound other_number) (map entryToLink es) = map (bound other_number) (map entryToLink es'))
    as [E Hm'] by (split; congruence).
  rewrite (bound_link e e' (lk_hash _ _ _ _ _ Hk) (lk_hash _ _ _ _ _ Hk') E) in *.
  f_equal. by eapply IH.
Qed.

(** C21. Tamper evidence: two registries that are VALID for a lineage and show the
    same head hold the same links, field by field, unless among the texts hashed
    for these two chains (genesis and each link of either) two have one digest. So
    to edit, drop, reorder or insert an entry under a head that someone has kept
    is to find a collision of SHA-256 with a link of that chain. *)
Theorem registry_tamper_evident file file' key :
  null_reasons (verifyRegistryChain file key) = [] →
  null_reasons (verifyRegistryChain file' key) = [] →
  head_link_hash (verifyRegistryChain file key) = head_link_hash (verifyRegistryChain file' key) →
  ∃ links links', readLinks file key = inr links ∧ readLinks file' key = inr links'
    ∧ (links = links'
       ∨ collision_in (genesis_text :: map (link_text other_number) (links ++ links'))).
Proof.
  unfold verifyRegistryChain, readLinks.
  destruct (readEntries file key true) as [|es]; [done|].
  destruct (readEntries file' key true) as [|es']; [done|]. cbn [sum_map null_reasons head_link_hash].
  intros Hv%map_eq_nil Hv'%map_eq_nil.
  rewrite (proj1 (valid_head _ _ Hv)), (proj1 (valid_head _ _ Hv')). intros [= E].
  apply valid_linked in Hv as (k & Hl & _), Hv' as (k' & Hl' & _).
  exists (map entryToLink es), (map entryToLink es'). do 2 (split; [done|]).
  destruct (head_binds _ _ _ _ _ Hl Hl' E) as [Hb|]; [left|by right]. by eapply bound_links.
Qed.

(** The observer without a lineage key replays the whole file as one chain:
    once runs on two lineages are admitted it reports the evidence as broken,
    although each lineage is VALID. *)
Theorem observer_needs_key start file runs r r' :
  reads_flat → terminated start → readEntries start JUndef true = inr [] →
  history start file runs → r ∈ runs → r' ∈ runs →
  str (get r "lineage_key") ≠ str (get r' "lineage_key") →
  ob_intact (observeRegistry file (JObj [])) = false.
Proof.
  intros Hj Ht He Hh Hr Hr' Hne.
  destruct (history_inv _ _ _ Hj Ht He Hh) as [_ (all & Hall & Hlike & _) _].
  assert (∀ x, x ∈ runs → ∃ l, l ∈ map entryToLink all ∧ str (get l "lineage_key") = str (get x "lineage_key"))
    as Hin.
  { intros x Hx. apply elem_of_reverse, list_elem_of_lookup in Hx as [i Hi].
    destruct (Forall2_lookup_r _ _ _ _ _ Hlike Hi) as (e & He' & [_ _ E]).
    exists (entryToLink e). split; [|done]. apply elem_of_map. exists e.
    split; [by eapply list_elem_of_lookup_2|done]. }
  unfold observeRegistry. change (get (JObj []) "lineage_key") with JUndef. cbn [ob_intact].
  destruct (null_reasons (verifyRegistryChain file JUndef)) as [|c cs] eqn:Ev; [exfalso|done].
  apply verifyRegistry_nil in Ev as (es & Hes & Hv). rewrite Hall in Hes. injection Hes as <-.
  apply valid_linked in Hv as (key & Hl & _).
  destruct (Hin r Hr) as (l & Hl1 & E1), (Hin r' Hr') as (l' & Hl2 & E2).
  apply Hne. rewrite <- E1, <- E2. by rewrite !(linked_key _ _ _ _ _ _ Hl) by done.
Qed.
End Registry.

(** * Concrete runs *)
Lemma reads_flat_parse : reads_flat parse.
Proof.
  intros ps [_ H]. apply parse_stringify. constructor. eapply Forall_impl; [exact H|].
  intros [k v] [_ Hv]. simpl in *. destruct v as [| | |[]| | |]; try done; constructor.
Qed.

Definition fixture_admit := admitRun parse (λ _, NNaN) (λ _, None) 0.

Definition fixture_first (key : string) : jsval :=
  JObj [("lineage_key", JStr key); ("continuity_id", JStr "c1");
        ("parent_continuity_id", JStr EmptyString);
        ("parent_executed_object_hash", JStr GENESIS_OBJECT_HASH);
        ("validated_object_hash", JStr "sha256:one"); ("nonce", JStr "n1")].

Definition fixture_second (key : string) : jsval :=
  JObj [("lineage_key", JStr key); ("continuity_id", JStr "c2"); ("parent_continuity_id", JStr "c1");
        ("parent_executed_object_hash", JStr "sha256:one");
        ("validated_object_hash", JStr "sha256:two"); ("nonce", JStr "n2")].

Definition fixture_init : option string :=
  Some ("{" +:+ json_quote "_record_type" +:+ ":" +:+ json_quote "registry_init" +:+ "}"
        +:+ String line_feed EmptyString).

Definition fixture_once : option string := (fixture_admit fixture_init (fixture_first "deploy") (JObj [])).2.
Definition fixture_twice : option string := (fixture_admit fixture_once (fixture_second "deploy") (JObj [])).2.
Definition fixture_forked : option string := (fixture_admit fixture_once (fixture_first "audit") (JObj [])).2.

Definition fixture_history := history parse (λ _, NNaN) (λ _, None) 0 fixture_init.

Lemma fixture_history_twice : fixture_history fixture_twice [fixture_second "deploy"; fixture_first "deploy"].
Proof.
  apply history_admitted; [apply history_admitted; [constructor|done|]|done|];
    vm_compute; reflexivity.
Qed.

Lemma fixture_history_forked : fixture_history fixture_forked [fixture_first "audit"; fixture_first "deploy"].
Proof.
  apply history_admitted; [apply history_admitted; [constructor|done|]|done|];
    vm_compute; reflexivity.
Qed.

Lemma fixture_start : terminated fixture_init ∧ readEntries parse fixture_init JUndef true = inr [].
Proof.
  split; [right|vm_compute; reflexivity].
  exists ("{" +:+ json_quote "_record_type" +:+ ":" +:+ json_quote "registry_init" +:+ "}").
  reflexivity.
Qed.

Lemma registry_lineage_witness :
  (∃ head, admitted (λ _, None) 0 head [fixture_second "deploy"; fixture_first "deploy"])
  ∧ one_link_each parse (λ _, NNaN) fixture_twice "deploy" [fixture_second "deploy"; fixture_first "deploy"].
Proof.
  exact (registry_lineage _ _ _ _ _ _ _ "deploy" reads_flat_parse (proj1 fixture_start)
           (proj2 fixture_start) fixture_history_twice).
Defined.

Lemma observer_needs_key_witness :
  ob_intact (observeRegistry parse (λ _, NNaN) fixture_forked (JObj [])) = false.
Proof.
  apply (observer_needs_key parse (λ _, NNaN) (λ _, None) 0 fixture_init _ _
           (fixture_first "deploy") (fixture_first "audit") reads_flat_parse
           (proj1 fixture_start) (proj2 fixture_start) fixture_history_forked).
  - right. left.
  - left.
  - intros H. discriminate H.
Defined.

(** The head of one lineage does not depend on the other lineages of the file. *)
Lemma registry_tamper_evident_witness :
  ∃ links links', readLinks parse (λ _, NNaN) fixture_once (JStr "deploy") = inr links
    ∧ readLinks parse (λ _, NNaN) fixture_forked (JStr "deploy") = inr links'
    ∧ (links = links'
       ∨ collision_in (genesis_text :: map (link_text (λ _, NNaN)) (links ++ links'))).
Proof.
  apply (registry_tamper_evident parse (λ _, NNaN) fixture_once fixture_forked (JStr "deploy"));
    vm_compute; reflexivity.
Defined.

(** A run admitted to a file whose last line is not terminated writes on that line:
    the run is reported as appended and the registry is malformed from then on. *)
Lemma torn_last_line :
  match (fixture_admit (Some "{}") (fixture_first "deploy") (JObj [])).1 with
  | inr a => ad_appended a = true
  | inl _ => False
  end
  ∧ null_reasons (verifyRegistryChain parse (λ _, NNaN)
      (fixture_admit (Some "{}") (fixture_first "deploy") (JObj [])).2 (JStr "deploy"))
    = [MALFORMED_REGISTRY_LINE].
Proof. split; vm_compute; reflexivity. Qed.
