(* ===== verification/GovernedExecution.v ===== *)
(** A governed run: [runtime/lineage/governedExecution.mjs].

    [executeGovernedRun] runs an adapter through the boundary of [Adapter] with the
    continuity gate over the registry of [ProofRegistry], and appends the run to
    it. The state is the registry's file and the adapter's world; the adapter is
    taken not to write the registry itself. The clock is read twice when the caller
    pins no time: [clock] before the adapter runs, [clock_after] after it. *)
From Stdlib Require Import ZArith NArith Lia Ascii.
From stdpp Require Import base list strings pretty gmap.
From S2P Require Import Prelude JsValue Sha256 Canonical ExecutionEligibility Adapter Json ProofChain ProofRegistry.

(** What the caller gets: the boundary's outcome, or the refusal of a stored chain
    that cannot be trusted. *)
Inductive governed_outcome :=
  | Boundary (o : AdapterExecutionOutcome)
  | StoredChainInvalid (lineage_null_reasons : list registry_reason).

Record GovernedRun := mkGoverned {
  gr_outcome : governed_outcome;
  lineage_appended : bool;
  lineage_head : option string
}.

Definition not_appended (o : governed_outcome) : GovernedRun := mkGoverned o false None.

Section Governed.
Context {W : Type} (json_parse : string → option jsval) (other_number : string → jsnum).
Context (date_parse : string → option Z).

Definition lineage_key_of (aeo : jsval) : string :=
  js_trim (str (get (get aeo "validation") "lineage_key")).

(** Lines 78-88. *)
Definition run_of (aeo validated_object_hash emitted_at : jsval) (proof_hash : string) : jsval :=
  let validation := get aeo "validation" in
  JObj [("lineage_key", JStr (lineage_key_of aeo));
        ("continuity_id", get validation "continuity_id");
        ("parent_continuity_id", get validation "parent_continuity_id");
        ("parent_executed_object_hash", get validation "parent_executed_object_hash");
        ("validated_object_hash", validated_object_hash);
        ("executed_object_hash", validated_object_hash);
        ("nonce", get validation "replay_nonce"); ("proof_hash", JStr proof_hash);
        ("timestamp", emitted_at)].

Definition run_options (now : jsval) (proof_id : string) : jsval :=
  JObj [("now", now); ("proof_id", JStr proof_id)].

(** [inl] is an exception of the registry. *)
Definition executeGovernedRun (clock clock_after : Z) (registry : option string)
    (aeo validated_object_hash : jsval) (executor : option (AdapterContract W))
    (emitted_at now : jsval) (w : W) : option string * W * (thrown + GovernedRun) :=
  let lineageKey := lineage_key_of aeo in
  if is_empty_str lineageKey then
    let '(w', outcome) :=
      executeWithAdapter date_parse clock aeo validated_object_hash executor emitted_at None w in
    (registry, w', inr (not_appended (Boundary outcome)))
  else
    let chain := verifyRegistryChain json_parse other_number registry (JStr lineageKey) in
    match null_reasons chain with
    | (_ :: _) as reasons => (registry, w, inr (not_appended (StoredChainInvalid reasons)))
    | [] =>
        match headCarry json_parse registry (JStr lineageKey),
              consumedNonces json_parse registry (JStr lineageKey) with
        | inl e, _ | _, inl e => (registry, w, inl (Malformed e))
        | inr prior, inr consumed =>
            let '(w', outcome) :=
              executeWithAdapter date_parse clock aeo validated_object_hash executor emitted_at
                (Some (mkContinuity prior (map JStr consumed) now)) w in
            match outcome with
            | Executed receipt =>
                let current := run_of aeo validated_object_hash emitted_at (receipt_id receipt) in
                match admitRun json_parse other_number date_parse clock_after registry current
                        (run_options now (receipt_id receipt)) with
                | (inl e, registry') => (registry', w', inl e)
                | (inr a, registry') =>
                    (registry', w', inr (mkGoverned (Boundary outcome) (ad_appended a)
                       (if ad_appended a then option_map hash_of (ad_record a) else None)))
                end
            | _ => (registry, w', inr (not_appended (Boundary outcome)))
            end
        end
    end.

(** * A governed run is recorded *)

(** The time the caller pinned, or a clock that did not move between the gate and
    the record. *)
Definition same_time (clock clock_after : Z) (now : jsval) : Prop :=
  now_ms date_parse clock now = now_ms date_parse clock_after now.

Lemma lineage_key_str aeo k :
  get (get aeo "validation") "lineage_key" = JStr k → lineage_key_of aeo = js_trim k.
Proof. unfold lineage_key_of. by intros ->. Qed.

(** The gate of the boundary and that of the registry agree on one run. *)
Lemma gates_agree clock clock_after aeo vh em ph prior consumed now :
  same_time clock clock_after now →
  classifyExecutionEligibility date_parse clock prior
    (JObj [("lineage_key", JStr (lineage_key_of aeo));
           ("continuity_id", get (get aeo "validation") "continuity_id");
           ("parent_continuity_id", get (get aeo "validation") "parent_continuity_id");
           ("parent_executed_object_hash", get (get aeo "validation") "parent_executed_object_hash");
           ("validated_object_hash", JStr vh); ("nonce", get (get aeo "validation") "replay_nonce")])
    now consumed = [] →
  classifyExecutionEligibility date_parse clock_after prior (run_of aeo (JStr vh) em ph) now consumed = [].
Proof.
  intros Ht. rewrite !gate_iff. generalize (if nullish prior then GENESIS_EXECUTION_STATE else prior) as p.
  intros p [? ? ? ? ? ? He ?]. constructor; simpl; auto. by rewrite <- Ht.
Qed.

Definition executed (o : governed_outcome) : option AdapterProofReceipt :=
  match o with Boundary (Executed r) => Some r | _ => None end.

(** A run on a declared lineage answers, and it is on the registry exactly when the
    adapter was executed. *)
Lemma governed_cases clock clock_after registry aeo vh adapter em now w k :
  get (get aeo "validation") "lineage_key" = JStr k → non_blank k = true →
  same_time clock clock_after now →
  ∃ g, (executeGovernedRun clock clock_after registry aeo vh (Some adapter) em now w).2 = inr g
    ∧ match executed (gr_outcome g) with
      | Some r => ∃ es,
          let current := run_of aeo vh em (receipt_id r) in
          let link := next_link other_number es current (run_options now (receipt_id r)) in
          vh = JStr (sha256_id aeo)
          ∧ admits json_parse other_number date_parse clock_after registry current
              (run_options now (receipt_id r)) es
          ∧ (executeGovernedRun clock clock_after registry aeo vh (Some adapter) em now w).1.1
            = append_file registry (line_of (JObj (record_props (JStr (receipt_id r)) link)))
          ∧ lineage_appended g = true ∧ lineage_head g = Some (hash_of link)
      | None =>
          (executeGovernedRun clock clock_after registry aeo vh (Some adapter) em now w).1.1 = registry
          ∧ lineage_appended g = false ∧ lineage_head g = None
      end.
Proof.
  intros Hk Hb Ht. unfold executeGovernedRun. pose proof (lineage_key_str _ _ Hk) as Hkey.
  assert (is_empty_str (lineage_key_of aeo) = false) as He.
  { rewrite Hkey. by apply negb_true_iff in Hb. }
  rewrite He.
  destruct (null_reasons (verifyRegistryChain _ _ _ _)) as [|c cs] eqn:Ev; [|by eexists].
  apply verifyRegistry_nil in Ev as (es & Hes & Hv).
  unfold headCarry, consumedNonces. rewrite Hes. cbn [sum_map]. fold (prior_of es) (nonces_of es).
  destruct (executeWithAdapter_cases date_parse clock adapter aeo vh em
    (Some (mkContinuity (prior_of es) (map JStr (nonces_of es)) now)) w) as [(o & -> & Ho)|(b & Ha & Hx)].
  { destruct o as [r|reason rs|]; [by destruct (Ho r)|by eexists..]. }
  destruct (execute _ _ w) as [w' answer]. rewrite Hx. clear Hx.
  destruct (match answer with Evidence _ => _ | ExecuteThrows => _ end) as [r|reason rs|] eqn:Eo;
    [|by eexists..].
  destruct Ha as [_ -> _ Hg]. unfold continuity_gate in Hg.
  assert ((if is_non_blank (get (get aeo "validation") "lineage_key")
           then js_trim (str_or_empty (get (get aeo "validation") "lineage_key")) else EmptyString)
          = lineage_key_of aeo) as Hk'.
  { rewrite Hkey, Hk. simpl. by rewrite Hb. }
  rewrite Hk', He in Hg. cbn [prior consumed_nonces gate_now] in Hg.
  destruct (classifyExecutionEligibility _ _ _ _ _ _) as [|c cs] eqn:Hc; [clear Hg|done].
  apply (gates_agree _ clock_after _ _ em (receipt_id r) _ _ _ Ht) in Hc.
  assert (admits json_parse other_number date_parse clock_after registry
    (run_of aeo (JStr (sha256_id aeo)) em (receipt_id r)) (run_options now (receipt_id r)) es) as Had.
  { constructor; [by apply is_empty_str_false|done|done|done]. }
  rewrite (admitRun_admits _ _ _ _ _ _ _ _ Had). eexists. split; [reflexivity|].
  exists es. done.
Qed.

(** * Sequences of governed runs *)

(** The lineage key is a string or absent, which is what the boundary reads as a
    declaration of lineage. *)
Definition text_key (aeo : jsval) : bool :=
  is_string (get (get aeo "validation") "lineage_key")
  || nullish (get (get aeo "validation") "lineage_key").

(** A time that does not depend on the clock. *)
Definition pinned (now : jsval) : Prop := ∀ c c', same_time c c' now.

Definition recorded (aeo vh em : jsval) (g : GovernedRun) : list jsval :=
  if is_empty_str (lineage_key_of aeo) then []
  else match executed (gr_outcome g) with Some r => [run_of aeo vh em (receipt_id r)] | None => [] end.

(** The registry, the world, and the runs on declared lineages whose adapter was
    executed, newest first. *)
Inductive governed (start : option string) : option string → W → list jsval → Prop :=
  | governed_start w : governed start start w []
  | governed_run registry w runs clock clock_after adapter aeo vh em now registry' w' g :
      governed start registry w runs → text_key aeo = true → pinned now →
      executeGovernedRun clock clock_after registry aeo vh (Some adapter) em now w
        = (registry', w', inr g) →
      governed start registry' w' (recorded aeo vh em g ++ runs).

Lemma admits_clock c c' registry current options es :
  same_time c c' (get options "now") →
  admits json_parse other_number date_parse c registry current options es →
  admits json_parse other_number date_parse c' registry current options es.
Proof.
  intros Ht [Hk Hr Hv Hg]. constructor; [done..|]. revert Hg. rewrite !gate_iff.
  generalize (if nullish (prior_of es) then GENESIS_EXECUTION_STATE else prior_of es) as p.
  intros p [? ? ? ? ? ? He ?]. constructor; auto. by rewrite <- Ht.
Qed.

Lemma text_key_cases aeo :
  text_key aeo = true →
  lineage_key_of aeo = EmptyString
  ∨ ∃ k, get (get aeo "validation") "lineage_key" = JStr k ∧ non_blank k = true.
Proof.
  unfold text_key, lineage_key_of. destruct (get (get aeo "validation") "lineage_key"); try done; [by left..|].
  intros _. simpl. destruct (non_blank s) eqn:E; [right; by eexists|left].
  unfold non_blank in E. by apply negb_false_iff, String.eqb_eq in E.
Qed.

Lemma governed_history clock0 start registry w runs :
  governed start registry w runs →
  history json_parse other_number date_parse clock0 start registry runs.
Proof.
  induction 1 as [w|registry w runs clock clock_after adapter aeo vh em now registry' w' g _ IH Hkey Hnow Hrun];
    [constructor|].
  unfold recorded. destruct (text_key_cases aeo Hkey) as [He|(k & Hk & Hb)].
  - unfold executeGovernedRun in Hrun. rewrite He in Hrun. simpl in Hrun.
    destruct (executeWithAdapter _ _ _ _ _ _ _) as [w1 o]. injection Hrun as <- <- <-. by rewrite He.
  - destruct (governed_cases clock clock_after registry aeo vh adapter em now w k Hk Hb (Hnow _ _))
      as (g' & Eg & Hg). rewrite Hrun in Eg, Hg. cbn [fst snd] in *. injection Eg as <-.
    assert (is_empty_str (lineage_key_of aeo) = false) as ->.
    { rewrite (lineage_key_str _ _ Hk). by apply negb_true_iff in Hb. }
    destruct (executed (gr_outcome g)) as [r|]; [|by destruct Hg as (-> & _)].
    destruct Hg as (es & _ & Ha & -> & _). apply (admits_clock _ clock0) in Ha; [|apply Hnow].
    exact (history_run _ _ _ _ _ _ _ _ (run_options now (receipt_id r)) _ _ IH eq_refl
      (admitRun_admits _ _ _ _ _ _ _ _ Ha)).
Qed.

(** A governed run on a declared lineage always answers, and the registry says
    what happened: the run is appended, as the link that its outcome shows, exactly
    when the adapter was executed; a run that was refused or failed leaves the
    registry as it was. The clock must not move between gate and record, or the
    caller must pin the time. *)
Theorem governed_run_recorded clock clock_after registry aeo vh adapter em now w k :
  get (get aeo "validation") "lineage_key" = JStr k → non_blank k = true →
  same_time clock clock_after now →
  ∃ g, (executeGovernedRun clock clock_after registry aeo vh (Some adapter) em now w).2 = inr g
    ∧ match executed (gr_outcome g) with
      | Some r => ∃ es,
          let current := run_of aeo vh em (receipt_id r) in
          let link := next_link other_number es current (run_options now (receipt_id r)) in
          vh = JStr (sha256_id aeo)
          ∧ admits json_parse other_number date_parse clock_after registry current
              (run_options now (receipt_id r)) es
          ∧ (executeGovernedRun clock clock_after registry aeo vh (Some adapter) em now w).1.1
            = append_file registry (line_of (JObj (record_props (JStr (receipt_id r)) link)))
          ∧ lineage_appended g = true ∧ lineage_head g = Some (hash_of link)
      | None =>
          (executeGovernedRun clock clock_after registry aeo vh (Some adapter) em now w).1.1 = registry
          ∧ lineage_appended g = false ∧ lineage_head g = None
      end.
Proof. apply governed_cases. Qed.

(** C18. Execution follows the lineage law. Over any sequence of governed runs, with
    any adapters, the executed runs of a lineage are a sequence the gate admits one
    after the other (each inherits the executed object of the one before, no nonce
    is executed twice), and the registry reads back as exactly one link for each,
    in their order, showing its run and linked to the one before; the replay of
    these links is VALID unless two of the texts they are digests of collide. *)
Theorem governed_lineage start registry w runs key clock0 :
  reads_flat json_parse → terminated start → readEntries json_parse start JUndef true = inr [] →
  governed start registry w runs →
  (∃ head, admitted date_parse clock0 head (runs_of key runs))
  ∧ one_link_each json_parse other_number registry key runs.
Proof.
  intros Hj Ht He Hg%(governed_history clock0). split.
  - by apply (history_inv _ _ _ _ _ _ _ Hj Ht He Hg).
  - by eapply registry_sound.
Qed.
End Governed.

(** * Concrete runs *)
Definition fixture_key_aeo (key : jsval) : jsval :=
  JObj [("finality", JObj []); ("intent", JObj []); ("scope", JObj []);
        ("target", JObj [("system", JStr "filesystem"); ("path", JStr "a.txt")]);
        ("validation", JObj [("decision_id", JStr "D1"); ("replay_nonce", JStr "N1");
           ("lineage_key", key); ("continuity_id", JStr "c1");
           ("parent_continuity_id", JStr EmptyString);
           ("parent_executed_object_hash", JStr GENESIS_OBJECT_HASH)])].

Definition fixture_adapter := FilesystemExecutionAdapter "hi" logging_writer.

Definition fixture_governed (date_parse : string → option Z) (clock clock_after : Z) :=
  executeGovernedRun (W := list (string * string)) parse (λ _, NNaN) date_parse clock clock_after.

(** A governed run of [fixture_key_aeo key], then the same once more. *)
Definition fixture_run (key : jsval) (registry : option string) (w : list (string * string)) :=
  fixture_governed (λ _, None) 0 0 registry (fixture_key_aeo key)
    (JStr (sha256_id (fixture_key_aeo key))) (Some fixture_adapter) (JStr "t") JUndef w.

Definition fixture_first_run (key : jsval) := fixture_run key None [].

Definition fixture_again (key : jsval) :=
  fixture_run key (fixture_first_run key).1.1 (fixture_first_run key).1.2.

Definition was_executed (r : thrown + GovernedRun) : bool :=
  match r with inr g => match executed (gr_outcome g) with Some _ => true | None => false end | _ => false end.

Definition was_appended (r : thrown + GovernedRun) : bool :=
  match r with inr g => lineage_appended g | _ => false end.

(** With a text for a key the second run is refused; with a number the boundary
    sees no lineage, so the adapter is executed again on the same nonce, and only
    then the registry refuses the run. *)
Lemma number_key_replays :
  (fixture_again (JStr "5")).1.2 = [("a.txt", "hi")]
  ∧ was_executed (fixture_again (JStr "5")).2 = false
  ∧ (fixture_again (jint 5)).1.2 = [("a.txt", "hi"); ("a.txt", "hi")]
  ∧ was_executed (fixture_again (jint 5)).2 = true
  ∧ was_appended (fixture_again (jint 5)).2 = false.
Proof. split_and!; vm_compute; reflexivity. Qed.

(** A lineage whose head expires while the adapter runs: the run is executed and
    leaves no link. *)
Definition expiring_registry : option string :=
  (admitRun parse (λ _, NNaN) (λ _, Some 100%Z) 0 None
     (JObj [("lineage_key", JStr "L"); ("continuity_id", JStr "c0");
            ("parent_executed_object_hash", JStr GENESIS_OBJECT_HASH);
            ("validated_object_hash", JStr "sha256:one"); ("expires_at", JStr "soon")])
     (JObj [])).2.

Definition late_aeo : jsval :=
  JObj [("finality", JObj []); ("intent", JObj []); ("scope", JObj []);
        ("target", JObj [("system", JStr "filesystem"); ("path", JStr "a.txt")]);
        ("validation", JObj [("decision_id", JStr "D1"); ("replay_nonce", JStr "N1");
           ("lineage_key", JStr "L"); ("continuity_id", JStr "c1");
           ("parent_continuity_id", JStr "c0");
           ("parent_executed_object_hash", JStr "sha256:one")])].

Lemma expires_while_running :
  let run := fixture_governed (λ _, Some 100%Z) 50 150 expiring_registry late_aeo
    (JStr (sha256_id late_aeo)) (Some fixture_adapter) (JStr "t") JUndef [] in
  run.1.2 = [("a.txt", "hi")] ∧ was_executed run.2 = true ∧ was_appended run.2 = false
  ∧ run.1.1 = expiring_registry.
Proof. split_and!; vm_compute; reflexivity. Qed.

Lemma governed_run_recorded_witness :
  ∃ g, (fixture_first_run (JStr "5")).2 = inr g
    ∧ match executed (gr_outcome g) with
      | Some _ => lineage_appended g = true
      | None => (fixture_first_run (JStr "5")).1.1 = None
      end.
Proof.
  destruct (governed_run_recorded parse (λ _, NNaN) (λ _, None) 0 0 None (fixture_key_aeo (JStr "5"))
    (JStr (sha256_id (fixture_key_aeo (JStr "5")))) fixture_adapter (JStr "t") JUndef [] "5"
    eq_refl eq_refl eq_refl) as (g & Hg & H).
  exists g. split; [exact Hg|]. destruct (executed (gr_outcome g)) as [r|].
  - destruct H as (es & _ & _ & _ & H & _). exact H.
  - exact (proj1 H).
Defined.

Definition pinned_run (w : list (string * string)) :=
  fixture_governed (λ _, None) 0 0 None (fixture_key_aeo (JStr "5"))
    (JStr (sha256_id (fixture_key_aeo (JStr "5")))) (Some fixture_adapter) (JStr "t") (jint 0) w.

Lemma pinned_run_executed :
  ∃ g r, (pinned_run []).2 = inr g ∧ executed (gr_outcome g) = Some r.
Proof.
  assert (was_executed (pinned_run []).2 = true) as H by (vm_compute; reflexivity).
  destruct (pinned_run []).2 as [e|g]; [discriminate H|].
  unfold was_executed in H. destruct (executed (gr_outcome g)) as [r|] eqn:E; [|discriminate H].
  by exists g, r.
Qed.

Lemma governed_lineage_witness :
  ∃ run, (∃ head, admitted (λ _, None) 0 head [run])
  ∧ one_link_each parse (λ _, NNaN) (pinned_run []).1.1 "5" [run].
Proof.
  destruct pinned_run_executed as (g & r & Hg & Hr).
  assert (governed parse (λ _, NNaN) (λ _, None) None (pinned_run []).1.1 (pinned_run []).1.2
    [run_of (fixture_key_aeo (JStr "5")) (JStr (sha256_id (fixture_key_aeo (JStr "5")))) (JStr "t")
       (receipt_id r)]) as Hgov.
  { pose proof (governed_run parse (λ _, NNaN) (λ _, None) None None [] [] 0 0 fixture_adapter
      (fixture_key_aeo (JStr "5")) (JStr (sha256_id (fixture_key_aeo (JStr "5")))) (JStr "t") (jint 0)
      (pinned_run []).1.1 (pinned_run []).1.2 g (governed_start _ _ _ _ _) eq_refl (λ _ _, eq_refl)) as H.
    unfold recorded in H. rewrite Hr in H. apply H. rewrite <- Hg.
    change (pinned_run [] = ((pinned_run []).1.1, (pinned_run []).1.2, (pinned_run []).2)).
    destruct (pinned_run []) as [[file w] res]. reflexivity. }
  eexists. exact (governed_lineage parse (λ _, NNaN) (λ _, None) None _ _ _ "5" 0 reads_flat_parse I
    eq_refl Hgov).
Defined.
