(* ===== verification/RegistryLock.v ===== *)
(** The registry's lock: [runtime/lineage/registryLock.mjs].

    Processes compete for one lock path; every system call is a step, and the steps
    of all processes interleave. A process may crash at any point and then takes no
    more steps. The state names the file behind the path by an inode, which the
    code does not see, and the process that made it. Process ids are taken as
    globally unique and not reused; [host] places them. *)
From Stdlib Require Import ZArith NArith Lia.
From stdpp Require Import base list functions.
From S2P Require Import Prelude.

(** The lock file: what [writeHolder] wrote, [None] while it is empty (a text that
    does not parse). *)
Record lock_file := mkLock { inode : nat; maker : nat; holder : option nat }.

(** Where a process is in [withRegistryLock]. *)
Inductive location :=
  | Outside
  | Opening                          (** at [openSync(lockPath, 'wx')] *)
  | Created (i : nat)                (** the file exists, [writeHolder] is next *)
  | Inside (i depth : nat)           (** [heldDepth] is [depth], [fn] runs *)
  | Exists                           (** EEXIST: [holderProvablyDead] is next *)
  | Probing (h i : nat)              (** [readHolder] gave [h]: [process.kill(h, 0)] is next *)
  | Renaming (i : nat)               (** provably dead: [renameSync] is next *)
  | Claimed                          (** [unlinkSync(claimed)] is next *)
  | Waiting                          (** the deadline is next *)
  | Released (i : nat)               (** [heldDepth] deleted: [existsSync] is next *)
  | Rereading (i : nat)              (** [readHolder] of [release] is next *)
  | Unlinking (i : nat)              (** [unlinkSync(lockPath)] is next *)
  | Crashed.

#[export] Instance location_eq_dec : EqDecision location.
Proof. solve_decision. Defined.

Record lock_state := mkState {
  path : option lock_file;
  next_inode : nat;
  at_ : nat → location
}.

(** What a process does next: [withRegistryLock] is called (also from inside), the
    next system call is made, the function returns or throws, the deadline has
    passed, or the process crashes. *)
Inductive action := Call | Go | Return | GiveUp | Crash.

Section Lock.
Context (host : nat → nat).

(** [true]: [renameSync] would act on the file that was found dead; [false]: it acts
    on the path, as it does. *)
Context (by_inode : bool).

Definition move (s : lock_state) (p : nat) (l : location) : lock_state :=
  mkState (path s) (next_inode s) (<[p := l]> (at_ s)).

Definition set_path (s : lock_state) (f : option lock_file) : lock_state :=
  mkState f (next_inode s) (at_ s).

(** [openSync(lockPath, 'wx')]. *)
Definition open_exclusive (s : lock_state) (p : nat) : lock_state :=
  match path s with
  | Some _ => move s p Exists
  | None =>
      mkState (Some (mkLock (next_inode s) p None)) (S (next_inode s))
        (<[p := Created (next_inode s)]> (at_ s))
  end.

(** [writeHolder] on the descriptor of inode [i]. *)
Definition writeHolder (s : lock_state) (p i : nat) : lock_state :=
  match path s with
  | Some f => if Nat.eqb (inode f) i then set_path s (Some (mkLock i (maker f) (Some p))) else s
  | None => s
  end.

(** [readHolder]: the holder and the file it was read from; [None] when the file is
    absent or does not parse. *)
Definition readHolder (s : lock_state) : option (nat * nat) :=
  match path s with
  | Some f => match holder f with Some h => Some (h, inode f) | None => None end
  | None => None
  end.

(** [process.kill(h, 0)] raises ESRCH. *)
Definition no_such_process (s : lock_state) (h : nat) : bool := bool_decide (at_ s h = Crashed).

(** [renameSync(lockPath, claimed)]: fails when there is no file. *)
Definition renameSync (s : lock_state) (p i : nat) : lock_state :=
  match path s with
  | Some f =>
      if negb by_inode || Nat.eqb (inode f) i then move (set_path s None) p Claimed
      else move s p Opening
  | None => move s p Opening
  end.

(** The next system call of [acquire]. *)
Definition acquire (s : lock_state) (p : nat) : option lock_state :=
  match at_ s p with
  | Opening => Some (open_exclusive s p)
  | Created i => Some (move (writeHolder s p i) p (Inside i 1))
  | Exists =>
      match readHolder s with
      | Some (h, i) =>
          if Nat.eqb (host h) (host p) then Some (move s p (Probing h i)) else Some (move s p Waiting)
      | None => Some (move s p Waiting)
      end
  | Probing h i => Some (move s p (if no_such_process s h then Renaming i else Waiting))
  | Renaming i => Some (renameSync s p i)
  | Claimed => Some (move s p Opening)
  | Waiting => Some (move s p Opening)
  | _ => None
  end.

(** The next system call of [release]. *)
Definition release (s : lock_state) (p : nat) : option lock_state :=
  match at_ s p with
  | Released i => Some (move s p (match path s with Some _ => Rereading i | None => Outside end))
  | Rereading i =>
      Some (move s p (match readHolder s with
                      | Some (h, _) => if Nat.eqb h p then Unlinking i else Outside
                      | None => Unlinking i
                      end))
  | Unlinking i => Some (move (set_path s None) p Outside)
  | _ => None
  end.

Definition step (s : lock_state) (p : nat) (a : action) : option lock_state :=
  match a, at_ s p with
  | _, Crashed => None
  | Crash, _ => Some (move s p Crashed)
  | Call, Outside => Some (move s p Opening)
  | Call, Inside i d => Some (move s p (Inside i (S d)))
  | Return, Inside i (S (S d)) => Some (move s p (Inside i (S d)))
  | Return, Inside i _ => Some (move s p (Released i))
  | GiveUp, Waiting => Some (move s p Outside)
  | Go, (Released _ | Rereading _ | Unlinking _) => release s p
  | Go, _ => acquire s p
  | _, _ => None
  end.

Fixpoint run_steps (s : lock_state) (l : list (nat * action)) : option lock_state :=
  match l with
  | [] => Some s
  | (p, a) :: l' => match step s p a with Some s' => run_steps s' l' | None => None end
  end.

Definition initial : lock_state := mkState None 0 (λ _, Outside).

Definition in_section (s : lock_state) (p : nat) : bool :=
  match at_ s p with Inside _ _ => true | _ => false end.

(** * Mutual exclusion *)

(** The inode a process holds, from the creation of the lock file to its removal. *)
Definition owns (l : location) : option nat :=
  match l with
  | Created i | Inside i _ | Released i | Rereading i | Unlinking i => Some i
  | _ => None
  end.

(** The inode a process remembers while it judges a holder. *)
Definition judges (l : location) : option nat :=
  match l with Probing _ i | Renaming i => Some i | _ => None end.

Record lock_inv (s : lock_state) : Prop := mkLockInv {
  li_owner p i : owns (at_ s p) = Some i → ∃ f, path s = Some f ∧ inode f = i ∧ maker f = p;
  li_holder f h : path s = Some f → holder f = Some h → h = maker f;
  li_fresh f : path s = Some f → (inode f < next_inode s)%nat;
  li_judged p i : judges (at_ s p) = Some i → (i < next_inode s)%nat;
  li_probing p h i f : at_ s p = Probing h i → path s = Some f → inode f = i → maker f = h;
  li_renaming p i f : at_ s p = Renaming i → path s = Some f → inode f = i → at_ s (maker f) = Crashed;
  li_dead p i : at_ s p = Renaming i → ∃ h, at_ s h = Crashed
}.

Lemma initial_inv : lock_inv initial.
Proof. by constructor. Qed.

Lemma at_move s p l q : at_ (move s p l) q = if decide (p = q) then l else at_ s q.
Proof. reflexivity. Qed.

Lemma crashed_move s p l : at_ s p ≠ Crashed →
  (∃ h, at_ s h = Crashed) → ∃ h, at_ (move s p l) h = Crashed.
Proof. intros Hp [h Hh]. exists h. rewrite at_move. case_decide; congruence. Qed.

(** A step that leaves the file alone. *)
Lemma move_inv s p l :
  lock_inv s → at_ s p ≠ Crashed →
  (owns l = None ∨ owns l = owns (at_ s p)) →
  (∀ i, judges l = Some i → (i < next_inode s)%nat) →
  (∀ h i f, l = Probing h i → path s = Some f → inode f = i → maker f = h) →
  (∀ i, l = Renaming i → (∃ h, at_ s h = Crashed)
     ∧ ∀ f, path s = Some f → inode f = i → at_ s (maker f) = Crashed) →
  lock_inv (move s p l).
Proof.
  intros [H1 H2 H3 H4 H5 H6 H7] Hp Ho Hj Hpr Hre. constructor; cbn [path next_inode move]; auto.
  - intros q i. rewrite at_move. case_decide as E; [subst q|apply H1].
    intros Hl. apply H1. destruct Ho as [Ho|Ho]; congruence.
  - intros q i. rewrite at_move. case_decide; [apply Hj|apply H4].
  - intros q h i f. rewrite at_move. case_decide; [apply Hpr|apply H5].
  - intros q i f Hq Hf Hi. rewrite at_move in Hq |- *.
    assert (at_ s (maker f) = Crashed) as Hc.
    { destruct (decide (p = q)); [by apply (Hre i Hq)|by eapply H6]. }
    destruct (decide (p = maker f)); [congruence|done].
  - intros q i. rewrite at_move. intros Hq. apply crashed_move; [done|].
    destruct (decide (p = q)); [by apply (Hre i Hq)|by eapply H7].
Qed.

(** A step to a place where the process neither owns nor judges a file. *)
Lemma leave_inv s p l :
  lock_inv s → at_ s p ≠ Crashed → owns l = None → judges l = None → lock_inv (move s p l).
Proof.
  intros Hi Hp Ho Hj. apply move_inv; [done..|by left| | |]; intros; subst; try done; congruence.
Qed.

(** A step within what the process owns. *)
Lemma keep_inv s p l :
  lock_inv s → at_ s p ≠ Crashed → owns l = owns (at_ s p) → judges l = None → lock_inv (move s p l).
Proof.
  intros Hi Hp Ho Hj. apply move_inv; [done..|by right| | |]; intros; subst; try done; congruence.
Qed.

(** The file disappears: nobody else owned it. *)
Lemma remove_inv s p l f :
  lock_inv s → at_ s p ≠ Crashed → path s = Some f → (∀ q, q ≠ p → owns (at_ s q) = None) →
  owns l = None → judges l = None → lock_inv (move (set_path s None) p l).
Proof.
  intros [H1 H2 H3 H4 H5 H6 H7] Hp Hf Hq Ho Hj. constructor; cbn [path next_inode move set_path]; try done.
  - intros q i. rewrite at_move. case_decide; [congruence|]. cbn [at_ set_path]. by rewrite Hq.
  - intros q i. rewrite at_move. case_decide; [congruence|apply H4].
  - intros q i. rewrite at_move. case_decide; [by intros ->|].
    intros Hr. apply crashed_move; [done|by eapply H7].
Qed.

Lemma other_owner s p q i :
  lock_inv s → owns (at_ s p) = Some i → q ≠ p → owns (at_ s q) = None.
Proof.
  intros Hi Hp Hq. destruct (owns (at_ s q)) as [j|] eqn:E; [|done].
  destruct (li_owner s Hi _ _ Hp) as (f & Hf & _ & Hm), (li_owner s Hi _ _ E) as (g & Hg & _ & Hm').
  congruence.
Qed.

Lemma open_inv s p :
  lock_inv s → at_ s p ≠ Crashed → lock_inv (open_exclusive s p).
Proof.
  intros Hi Hp. unfold open_exclusive. destruct (path s) as [f|] eqn:Hf; [by apply leave_inv|].
  assert (∀ q, owns (at_ s q) = None) as Hno.
  { intros q. destruct (owns (at_ s q)) as [i|] eqn:E; [|done].
    destruct (li_owner s Hi _ _ E) as (f & ? & _). congruence. }
  destruct Hi as [H1 H2 H3 H4 H5 H6 H7]. constructor; cbn [path next_inode at_].
  - intros q i. unfold insert, fn_insert. case_decide as E; [|by rewrite Hno].
    intros [= <-]. subst q. eexists. done.
  - by intros f h [= <-].
  - intros f [= <-]. simpl. lia.
  - intros q i. unfold insert, fn_insert. case_decide; [done|]. intros ?%H4. lia.
  - intros q h i f. unfold insert, fn_insert. case_decide; [done|]. intros Hq [= <-] <-.
    assert (next_inode s < next_inode s)%nat; [|lia]. apply (H4 q). by rewrite Hq.
  - intros q i f. unfold insert, fn_insert. case_decide; [done|]. intros Hq [= <-] <-.
    assert (next_inode s < next_inode s)%nat; [|lia]. apply (H4 q). by rewrite Hq.
  - intros q i. unfold insert, fn_insert. case_decide; [done|]. intros [h Hh]%H7. exists h.
    case_decide; congruence.
Qed.

Lemma write_inv s p i :
  lock_inv s → owns (at_ s p) = Some i → lock_inv (writeHolder s p i).
Proof.
  intros Hi Hp. destruct (li_owner s Hi _ _ Hp) as (f & Hf & <- & Hm).
  unfold writeHolder. rewrite Hf, Nat.eqb_refl. destruct Hi as [H1 H2 H3 H4 H5 H6 H7].
  constructor; cbn [path next_inode at_ set_path]; try done.
  - intros q j Hq. destruct (H1 q j Hq) as (g & Hg & Hj & Hg'). eexists. split; [done|]. simpl. split; congruence.
  - intros g h [= <-] [= <-]. done.
  - intros g [= <-]. exact (H3 f Hf).
  - intros q h j g Hq [= <-] Hj. by apply (H5 q h j f).
  - intros q j g Hq [= <-] Hj. by apply (H6 q j f).
Qed.

(** What keeps the lock of a live process from being taken away. *)
Definition no_theft (s : lock_state) : Prop := by_inode = true ∨ ∀ q, at_ s q ≠ Crashed.

Lemma rename_inv s p i :
  lock_inv s → no_theft s → at_ s p = Renaming i → lock_inv (renameSync s p i).
Proof.
  intros Hi Hn Hp. unfold renameSync.
  destruct (path s) as [f|] eqn:Hf; [|apply leave_inv; congruence || done].
  destruct Hn as [-> |Hn]; [|destruct (li_dead s Hi _ _ Hp) as [h Hh]; by destruct (Hn h)].
  simpl. destruct (Nat.eqb_spec (inode f) i) as [E|E]; [|apply leave_inv; congruence || done].
  apply (remove_inv _ _ _ f); try done; [congruence|].
  intros q Hq. destruct (owns (at_ s q)) as [j|] eqn:Eq; [|done].
  destruct (li_owner s Hi _ _ Eq) as (g & Hg & _ & Hm).
  pose proof (li_renaming s Hi _ _ _ Hp Hf E) as Hc. assert (g = f) as -> by congruence.
  rewrite Hm in Hc. by rewrite Hc in Eq.
Qed.

Lemma acquire_inv s p s' :
  lock_inv s → no_theft s → acquire s p = Some s' → lock_inv s'.
Proof.
  unfold acquire. intros Hi Hn. destruct (at_ s p) eqn:Hp; try done.
  - intros [= <-]. apply open_inv; congruence.
  - intros [= <-]. apply keep_inv; [apply write_inv; [done|by rewrite Hp]|..];
      unfold writeHolder; destruct (path s) as [f|]; try destruct (Nat.eqb (inode f) i); cbn [at_ set_path];
      rewrite ?Hp; done.
  - destruct (readHolder s) as [[h i]|] eqn:Hr;
      [destruct (Nat.eqb (host h) (host p))|]; intros [= <-]; try (apply leave_inv; congruence || done).
    unfold readHolder in Hr. destruct (path s) as [f|] eqn:Hf; [|done].
    destruct (holder f) as [h'|] eqn:Hh; [|done]. injection Hr as -> <-.
    pose proof (li_holder s Hi _ _ Hf Hh) as Hm.
    apply move_inv; [done|congruence|by left|intros ? [= <-]; by apply (li_fresh s Hi)| |done].
    intros h0 i0 g [= <- <-] Hg _. congruence.
  - intros [= <-]. unfold no_such_process.
    case_bool_decide as Hc; [|apply leave_inv; congruence || done].
    apply move_inv; [done|congruence|by left| |done|].
    + intros j [= <-]. apply (li_judged s Hi p). by rewrite Hp.
    + intros j [= <-]. split; [by exists h|]. intros f Hf E.
      by rewrite (li_probing s Hi _ _ _ _ Hp Hf E).
  - intros [= <-]. by apply rename_inv.
  - intros [= <-]. apply leave_inv; congruence || done.
  - intros [= <-]. apply leave_inv; congruence || done.
Qed.

Lemma release_inv s p s' : lock_inv s → release s p = Some s' → lock_inv s'.
Proof.
  unfold release. intros Hi. destruct (at_ s p) eqn:Hp; try done; intros [= <-].
  - destruct (path s); [apply keep_inv|apply leave_inv]; rewrite ?Hp; done.
  - destruct (readHolder s) as [[h j]|]; [destruct (Nat.eqb h p)|];
      (apply keep_inv; rewrite ?Hp; done) || (apply leave_inv; rewrite ?Hp; done).
  - destruct (li_owner s Hi p i) as (f & Hf & _); [by rewrite Hp|].
    apply (remove_inv _ _ _ f); try done; [congruence|]. intros q Hq.
    eapply other_owner; [done| |done]. by rewrite Hp.
Qed.

Lemma step_inv s p a s' : lock_inv s → no_theft s → step s p a = Some s' → lock_inv s'.
Proof.
  intros Hi Hn. unfold step.
  destruct a, (at_ s p) eqn:Hp; try done; try (by eapply acquire_inv); try (by eapply release_inv);
    try (intros [= <-]; (apply leave_inv; congruence || done) || (apply keep_inv; rewrite ?Hp; done)).
  destruct depth as [|[|d]]; intros [= <-]; apply keep_inv; rewrite ?Hp; done.
Qed.

(** Only a crash makes a process crashed. *)
Lemma alive_move s p l : l ≠ Crashed → (∀ q, at_ s q ≠ Crashed) → ∀ q, at_ (move s p l) q ≠ Crashed.
Proof. intros Hl H q. rewrite at_move. by case_decide. Qed.

Lemma acquire_alive s p s' :
  (∀ q, at_ s q ≠ Crashed) → acquire s p = Some s' → ∀ q, at_ s' q ≠ Crashed.
Proof.
  unfold acquire, open_exclusive, renameSync, writeHolder. intros H.
  repeat case_match; intros [= <-]; by apply alive_move.
Qed.

Lemma release_alive s p s' :
  (∀ q, at_ s q ≠ Crashed) → release s p = Some s' → ∀ q, at_ s' q ≠ Crashed.
Proof. unfold release. intros H. repeat case_match; intros [= <-]; by apply alive_move. Qed.

Lemma step_alive s p a s' :
  a ≠ Crash → (∀ q, at_ s q ≠ Crashed) → step s p a = Some s' → ∀ q, at_ s' q ≠ Crashed.
Proof.
  intros Ha H. unfold step. destruct a, (at_ s p); try done;
    try (by apply acquire_alive); try (by apply release_alive); try (intros [= <-]; by apply alive_move).
  destruct depth as [|[|d]]; intros [= <-]; by apply alive_move.
Qed.

(** No process crashes in [l], or a reclaim acts on the file that was judged. *)
Definition safe_steps (l : list (nat * action)) : Prop := by_inode = true ∨ ∀ p, (p, Crash) ∉ l.

Lemma run_steps_inv l s s' :
  lock_inv s → no_theft s → safe_steps l → run_steps s l = Some s' → lock_inv s'.
Proof.
  revert s. induction l as [|[p a] l IH]; intros s Hi Hn Hl; simpl; [by intros [= <-]|].
  destruct (step s p a) as [s1|] eqn:Hs; [|done]. apply IH.
  - by eapply step_inv.
  - destruct Hn as [Hn|Hn]; [by left|]. destruct Hl as [Hl|Hl]; [by left|right].
    eapply step_alive; [|done|done]. intros ->. apply (Hl p). by left.
  - destruct Hl as [Hl|Hl]; [by left|right]. intros q Hq. apply (Hl q). by right.
Qed.

(** C19. Mutual exclusion. However any number of processes interleave, nest, time
    out and return, at most one is inside its critical section, and the lock file
    is its own, provided that no process crashes, or that the reclaim of a dead
    holder's lock acts on the file that was judged dead. *)
Theorem mutual_exclusion l s p q :
  safe_steps l → run_steps initial l = Some s →
  in_section s p = true → in_section s q = true →
  p = q ∧ ∃ f, path s = Some f ∧ maker f = p.
Proof.
  intros Hl Hrun. assert (lock_inv s) as Hi.
  { eapply run_steps_inv; [apply initial_inv|right; done|done|done]. }
  unfold in_section. destruct (at_ s p) eqn:Hp; try done. destruct (at_ s q) eqn:Hq; try done.
  intros _ _. destruct (li_owner s Hi p i) as (f & Hf & _ & Hm); [by rewrite Hp|].
  destruct (li_owner s Hi q i0) as (g & Hg & _ & Hm'); [by rewrite Hq|].
  split; [congruence|by exists f].
Qed.

(** A lock left by a crashed holder does not block: from any state in which the
    recorded holder is dead and on the same host, seven calls of one waiter, if it
    runs alone, bring it into the section. *)
Theorem crashed_holder_reclaimed s p f h :
  at_ s p = Opening → path s = Some f → holder f = Some h → at_ s h = Crashed → host h = host p →
  ∃ s', run_steps s (replicate 7 (p, Go)) = Some s' ∧ in_section s' p = true
    ∧ path s' = Some (mkLock (next_inode s) p (Some p)).
Proof.
  intros Hp Hf Hh Hc Hhost. assert (h ≠ p) as Hne by congruence.
  assert (∀ t l, at_ (move t p l) p = l) as Hat by (intros; apply fn_lookup_insert).
  assert (∀ t l, at_ (move t p l) h = at_ t h) as Hot by (intros; by apply fn_lookup_insert_ne).
  assert (∀ t l, at_ t p = Opening → path t = Some l → step t p Go = Some (move t p Exists)) as H1.
  { intros t l Ht Hl. unfold step, acquire. rewrite Ht. unfold open_exclusive. by rewrite Hl. }
  cbn [replicate run_steps]. rewrite (H1 s f Hp Hf).
  set (s1 := move s p Exists). assert (step s1 p Go = Some (move s1 p (Probing h (inode f)))) as ->.
  { unfold step, acquire, readHolder, s1. rewrite Hat. cbn [path move].
    by rewrite Hf, Hh, Hhost, Nat.eqb_refl. }
  set (s2 := move s1 p _). assert (step s2 p Go = Some (move s2 p (Renaming (inode f)))) as ->.
  { unfold step, acquire, s2. rewrite Hat. unfold no_such_process. rewrite Hot. unfold s1.
    by rewrite Hot, bool_decide_eq_true_2. }
  set (s3 := move s2 p _). assert (step s3 p Go = Some (move (set_path s3 None) p Claimed)) as ->.
  { unfold step, acquire, s3. rewrite Hat. unfold renameSync. cbn [path move s2 s1].
    by rewrite Hf, Nat.eqb_refl, orb_true_r. }
  set (s4 := move (set_path s3 None) p Claimed).
  assert (step s4 p Go = Some (move s4 p Opening)) as -> by (unfold step, acquire, s4; by rewrite Hat).
  set (s5 := move s4 p Opening). set (n := next_inode s).
  assert (step s5 p Go = Some (move (mkState (Some (mkLock n p None)) (S n) (at_ s5)) p (Created n))) as ->
    by (unfold step, acquire, s5; by rewrite Hat).
  set (s6 := move (mkState _ _ _) p _).
  assert (step s6 p Go = Some (move (writeHolder s6 p n) p (Inside n 1))) as ->
    by (unfold step, acquire, s6; by rewrite Hat).
  unfold writeHolder. cbn [path s6 move inode maker]. rewrite Nat.eqb_refl.
  eexists. split; [done|]. unfold in_section. by rewrite Hat.
Qed.
End Lock.

(** * A live lock can be taken away

    Process 0 takes the lock and crashes. Processes 1 and 2 both find it dead;
    1 reclaims it and enters; then 2 renames the path, which is by now the live
    lock of 1, and enters as well. *)
Definition race : list (nat * action) :=
  [(0, Call); (0, Go); (0, Go); (0, Crash);
   (1, Call); (1, Go); (1, Go); (1, Go); (2, Call); (2, Go); (2, Go); (2, Go);
   (1, Go); (1, Go); (1, Go); (1, Go);
   (2, Go); (2, Go); (2, Go); (2, Go)]%nat.

Definition inside_after (by_inode : bool) (l : list (nat * action)) : option (list bool) :=
  match run_steps (λ _, 0%nat) by_inode initial l with
  | Some s => Some (map (in_section s) [1; 2]%nat)
  | None => None
  end.

Lemma live_lock_stolen : inside_after false race = Some [true; true].
Proof. vm_compute. reflexivity. Qed.

(** Were the file that was judged dead renamed, 2 would go on waiting. *)
Lemma live_lock_kept : inside_after true race = Some [true; false].
Proof. vm_compute. reflexivity. Qed.

Lemma mutual_exclusion_witness :
  ∃ s f, run_steps (λ _, 0%nat) false initial [(0, Call); (0, Go); (1, Call); (1, Go); (0, Go)]%nat = Some s
    ∧ in_section s 0 = true ∧ path s = Some f ∧ maker f = 0%nat.
Proof.
  assert (safe_steps false [(0, Call); (0, Go); (1, Call); (1, Go); (0, Go)]%nat) as Hl.
  { right. intros p. rewrite !elem_of_cons, elem_of_nil. naive_solver. }
  eexists. destruct (mutual_exclusion (λ _, 0%nat) false _ _ 0 0 Hl eq_refl eq_refl eq_refl)
    as (_ & f & Hf & Hm).
  exists f. split; [reflexivity|]. split; [reflexivity|]. split; [exact Hf|exact Hm].
Defined.

Lemma crashed_holder_reclaimed_witness :
  ∃ s s', run_steps (λ _, 0%nat) false initial [(0, Call); (0, Go); (0, Go); (0, Crash); (1, Call)]%nat = Some s
    ∧ run_steps (λ _, 0%nat) false s (replicate 7 (1%nat, Go)) = Some s' ∧ in_section s' 1 = true.
Proof.
  eexists.
  destruct (crashed_holder_reclaimed (λ _, 0%nat) false
    (default initial (run_steps (λ _, 0%nat) false initial
       [(0, Call); (0, Go); (0, Go); (0, Crash); (1, Call)]%nat))
    1 (mkLock 0 0 (Some 0%nat)) 0 eq_refl eq_refl eq_refl eq_refl eq_refl) as (s' & H & Hs & _).
  exists s'. split; [reflexivity|]. split; [exact H|exact Hs].
Defined.
