(* ===== verification/RegistryAudit.v ===== *)
(** The reconciliation invariants: the audit queries of
    [src/reconciliation/reconciliation-invariants.ts].

    Each invariant is an SQL query over the worker's tables that selects the rows
    that violate it. A query is a function of the tables here; its columns are SQL
    values, which may be [NULL], and its conditions are three-valued: a row is
    selected when its condition is true, not when it is unknown. The order of the
    selected rows is the tables', where SQL leaves it open. *)
From Stdlib Require Import ZArith NArith Lia Ascii.
From stdpp Require Import base list strings pretty.
From S2P Require Import Prelude JsValue WorkerValues WorkerTables WorkerSql.

(** * SQL values and conditions *)
Definition value : Type := option string.

(** True, false or unknown. *)
Definition tv : Type := option bool.

Definition compare_values (op : string → string → bool) (a b : value) : tv :=
  match a, b with Some x, Some y => Some (op x y) | _, _ => None end.

Definition eq_ : value → value → tv := compare_values String.eqb.
Definition ne_ : value → value → tv := compare_values (λ x y, negb (String.eqb x y)).
Definition lt_ : value → value → tv := compare_values String.ltb.

Definition is_null (a : value) : tv := Some (match a with None => true | Some _ => false end).
Definition is_not_null (a : value) : tv := Some (match a with None => false | Some _ => true end).

Definition and_ (p q : tv) : tv :=
  match p, q with
  | Some false, _ | _, Some false => Some false
  | Some true, Some true => Some true
  | _, _ => None
  end.

Definition or_ (p q : tv) : tv :=
  match p, q with
  | Some true, _ | _, Some true => Some true
  | Some false, Some false => Some false
  | _, _ => None
  end.

Definition not_in (a : value) (l : list string) : tv :=
  match a with Some x => Some (negb (str_in x l)) | None => None end.

Definition is_true (p : tv) : bool := match p with Some true => true | _ => false end.

(** [a || b]. *)
Definition concat_ (a b : value) : value :=
  match a, b with Some x, Some y => Some (x +:+ y) | _, _ => None end.

(** * Tables *)
Definition where_ {A} (p : A → tv) (rows : list A) : list A :=
  List.filter (λ r, is_true (p r)) rows.

Definition left_join {A B} (on : A → B → tv) (l : list A) (r : list B) : list (A * option B) :=
  l ≫= λ a, match where_ (on a) r with
            | [] => [(a, None)]
            | matches => map (λ b, (a, Some b)) matches
            end.

Definition inner_join {A B} (on : A → B → tv) (l : list A) (r : list B) : list (A * B) :=
  l ≫= λ a, map (λ b, (a, b)) (where_ (on a) r).

(** A column of a row that an outer join may have left out. *)
Definition of_row {B} (o : option B) (f : B → value) : value :=
  match o with Some b => f b | None => None end.

Definition exists_ {A} (p : A → tv) (rows : list A) : tv := Some (existsb (λ r, is_true (p r)) rows).

Definition row : Type := list value.

(** [SELECT key, COUNT( * ) GROUP BY key HAVING count > 1]. *)
Definition group_having_many {A} (key : A → row) (rows : list A) : list row :=
  let keys := map key rows in
  map (λ k, k ++ [Some (pretty (length (List.filter (λ k', bool_decide (k' = k)) keys)))])
    (List.filter (λ k, Nat.ltb 1 (length (List.filter (λ k', bool_decide (k' = k)) keys)))
       (remove_dups keys)).

(** * Invariants *)
Inductive ReconciliationInvariant :=
  | PROOF_EXECUTION_ANCESTRY | PROOF_DECISION_HASH_MATCH | PROOF_SESSION_CONTINUITY_BIND
  | PROOF_WORKFLOW_RUN_UNIQUE
  | EXECUTION_VALIDATION_ANCESTRY | EXECUTION_DECISION_OBJECT_MATCH | EXECUTION_NONCE_UNIQUENESS
  | EXECUTION_STATUS_VALID
  | VALIDATION_AEO_ANCESTRY | VALIDATION_DECISION_OBJECT_MATCH | VALIDATION_NONCE_SINGLE_USE
  | VALIDATION_RESULT_DETERMINISTIC
  | AEO_AUTHORITY_ANCESTRY | AEO_DECISION_OBJECT_MATCH | AEO_CANONICAL_HASH_MATCH | AEO_STATUS_VALID
  | AUTHORITY_CONTINUITY_VALID | AUTHORITY_DECISION_UNIQUE | AUTHORITY_EXPIRY_NOT_EXPIRED
  | AUTHORITY_STATUS_NOT_REVOKED
  | CONTINUITY_HASH_VALID | CONTINUITY_SESSION_VALID | CONTINUITY_IDENTITY_VALID
  | CONTINUITY_PARENT_ANCESTRY
  | REVOCATION_RECURSIVE | REVOCATION_CONTINUITY_CASCADE | REVOCATION_AUTHORITY_CASCADE
  | REVOCATION_EVIDENCE_RECORDED
  | ORPHAN_EXECUTION_QUARANTINED | ORPHAN_PROOF_ARCHIVED | ORPHAN_VALIDATION_MARKED
  | REPLAY_NONCE_CONSUMED | REPLAY_AUTHORITY_CONSUMED | REPLAY_INVOCATION_SINGLE_USE
  | REPLAY_PROOF_UNIQUE.

#[export] Instance invariant_eq_dec : EqDecision ReconciliationInvariant.
Proof. solve_decision. Defined.

Inductive severity := S_CRITICAL | S_HIGH | S_MEDIUM | S_LOW.

Inductive DriftClassification :=
  | BROKEN_PROOF_LINEAGE | BROKEN_EXECUTION_LINEAGE | BROKEN_VALIDATION_LINEAGE
  | BROKEN_AEO_LINEAGE | BROKEN_AUTHORITY_LINEAGE | BROKEN_CONTINUITY_CHAIN
  | ORPHANED_PROOF | ORPHANED_EXECUTION | ORPHANED_VALIDATION | ORPHANED_AEO | ORPHANED_AUTHORITY
  | ORPHANED_CONTINUITY | ORPHANED_SESSION
  | DECISION_HASH_MISMATCH | OBJECT_HASH_MISMATCH | CONTINUITY_HASH_MISMATCH
  | CANONICAL_HASH_MISMATCH
  | NONCE_REPLAY_DETECTED | AUTHORITY_REPLAY_DETECTED | PROOF_DUPLICATE_DETECTED
  | EXECUTION_DUPLICATE_DETECTED
  | REVOKED_CONTINUITY_IN_USE | REVOKED_AUTHORITY_IN_USE | REVOCATION_NOT_CASCADED
  | INVALID_STATUS_TRANSITION | EXPIRED_AUTHORITY | EXPIRED_CONTINUITY | EXPIRED_SESSION
  | INVALID_EXECUTION_SURFACE | UNAUTHORIZED_ENVIRONMENT | INVALID_BRANCH_LINEAGE
  | INVALID_WORKFLOW_LINEAGE
  | CROSS_REGISTRY_AUTHORITY_DISAGREEMENT | CROSS_REGISTRY_AUTHORITY_TEMPORAL_DIVERGENCE
  | CROSS_REGISTRY_AUTHORITY_CONTINUITY_MISMATCH.

(** A query, or [None] when SQLite rejects it: it names a column that the tables
    do not have. *)
Record invariant_definition := mkInvariantDefinition {
  iv_severity : severity;
  iv_drift : DriftClassification;
  iv_query : option (world → list row)
}.

Definition id_row (id : string) : row := [Some id].

(** ** Proofs *)
Definition proof_execution_ancestry (w : world) : list row :=
  map (λ '(p, _), id_row (pf_id p))
    (where_ (λ '(_, e), is_null (of_row e (λ e, Some (ex_id e))))
      (left_join (λ p e, and_ (eq_ (Some (pf_execution p)) (Some (ex_id e)))
           (and_ (eq_ (Some (pf_decision p)) (Some (ex_decision e)))
              (eq_ (Some (pf_hash p)) (Some (ex_hash e)))))
         (proofs w) (executions w))).

Definition proof_decision_hash_match (w : world) : list row :=
  map (λ p, id_row (pf_id p))
    (where_ (λ p, or_ (is_null (Some (pf_decision_hash p)))
       (or_ (eq_ (Some (pf_decision_hash p)) (Some EmptyString))
          (ne_ (Some (pf_decision_hash p))
             (concat_ (concat_ (Some (pf_decision p)) (Some unit_separator)) (Some (pf_hash p))))))
      (proofs w)).

Definition proof_session_continuity_bind (w : world) : list row :=
  map (λ '(p, _, _), id_row (pf_id p))
    (where_ (λ '(_, s, c), or_ (is_null (of_row s (λ s, Some (se_id s))))
         (is_null (of_row c (λ c, Some (co_id c)))))
      (left_join (λ '(p, _) c, eq_ (Some (pf_continuity p)) (Some (co_id c)))
         (left_join (λ p s, eq_ (Some (pf_session p)) (Some (se_id s))) (proofs w) (sessions w))
         (continuities w))).

Definition proof_workflow_run_unique (w : world) : list row :=
  group_having_many (λ p, [Some (pv_workflow_run_id (pf_provenance p))])
    (where_ (λ p, is_not_null (Some (pv_workflow_run_id (pf_provenance p)))) (proofs w)).

(** ** Executions *)
Definition execution_validation_ancestry (w : world) : list row :=
  map (λ '(e, _), id_row (ex_id e))
    (where_ (λ '(_, v), is_null (of_row v (λ v, Some (va_id v))))
      (left_join (λ e v, and_ (eq_ (Some (ex_decision e)) (Some (va_decision v)))
           (and_ (eq_ (Some (ex_hash e)) (Some (va_hash v)))
              (eq_ (Some (ex_nonce e)) (Some (va_nonce v)))))
         (executions w) (validations w))).

Definition execution_decision_object_match (w : world) : list row :=
  map (λ '(e, _), id_row (ex_id e))
    (where_ (λ '(_, v), or_ (ne_ (of_row v (λ v, Some (va_result v))) (Some "VALID"))
         (is_null (of_row v (λ v, Some (va_hash v)))))
      (left_join (λ e v, and_ (eq_ (Some (ex_decision e)) (Some (va_decision v)))
           (eq_ (Some (ex_hash e)) (Some (va_hash v))))
         (executions w) (validations w))).

Definition execution_nonce_uniqueness (w : world) : list row :=
  group_having_many (λ e, [Some (ex_decision e); Some (ex_hash e); Some (ex_nonce e)])
    (executions w).

Definition execution_status_valid (w : world) : list row :=
  map (λ e, id_row (ex_id e))
    (where_ (λ e, not_in (Some (ex_status e)) ["PENDING"; "EXECUTED"; "FAILED"; "REJECTED"])
      (executions w)).

(** ** Validations *)
Definition validation_aeo_ancestry (w : world) : list row :=
  map (λ '(v, _), id_row (va_id v))
    (where_ (λ '(v, o), and_ (eq_ (Some (va_result v)) (Some "VALID"))
         (is_null (of_row o (λ o, Some (ao_id o)))))
      (left_join (λ v o, and_ (eq_ (Some (va_decision v)) (Some (ao_decision o)))
           (eq_ (Some (va_hash v)) (Some (ao_hash o))))
         (validations w) (aeos w))).

Definition validation_decision_object_match (w : world) : list row :=
  map (λ v, id_row (va_id v))
    (where_ (λ v, or_ (is_null (Some (va_hash v))) (is_null (Some (va_decision v))))
      (validations w)).

Definition validation_key_columns (v : ValidationRow) : row :=
  [Some (va_decision v); Some (va_hash v); Some (va_nonce v)].

Definition validation_nonce_single_use (w : world) : list row :=
  group_having_many validation_key_columns
    (where_ (λ v, eq_ (Some (va_result v)) (Some "VALID")) (validations w)).

(** [HAVING COUNT(DISTINCT result) > 1]. *)
Definition validation_result_deterministic (w : world) : list row :=
  map (λ v, validation_key_columns v ++ [Some (va_result v)])
    (List.filter (λ v, Nat.ltb 1 (length (remove_dups (map va_result
        (List.filter (λ v', bool_decide (validation_key_columns v' = validation_key_columns v))
           (validations w))))))
      (validations w)).

(** ** Compiled objects *)
Definition with_authority (w : world) : list (AeoRow * option AuthorityRow) :=
  left_join (λ o a, eq_ (Some (ao_authority o)) (Some (au_id a))) (aeos w) (authorities w).

Definition aeo_authority_ancestry (w : world) : list row :=
  map (λ '(o, _), id_row (ao_id o))
    (where_ (λ '(_, a), is_null (of_row a (λ a, Some (au_id a)))) (with_authority w)).

Definition aeo_decision_object_match (w : world) : list row :=
  map (λ '(o, _), id_row (ao_id o))
    (where_ (λ '(o, a), or_ (ne_ (Some (ao_decision o)) (of_row a (λ a, Some (au_decision a))))
         (or_ (is_null (Some (ao_decision o))) (is_null (of_row a (λ a, Some (au_decision a))))))
      (with_authority w)).

Definition aeo_canonical_hash_match (w : world) : list row :=
  map (λ o, id_row (ao_id o))
    (where_ (λ o, or_ (is_null (Some (ao_canonical o))) (eq_ (Some (ao_canonical o)) (Some EmptyString)))
      (aeos w)).

Definition aeo_status_valid (w : world) : list row :=
  map (λ o, id_row (ao_id o))
    (where_ (λ o, not_in (Some (ao_status o)) ["CREATED"; "VALIDATED"; "CONSUMED"; "REVOKED"])
      (aeos w)).

(** ** Authorities *)
Definition authority_continuity_valid (w : world) : list row :=
  map (λ '(a, _), id_row (au_id a))
    (where_ (λ '(_, c), or_ (is_null (of_row c (λ c, Some (co_id c))))
         (eq_ (of_row c (λ c, Some (co_status c))) (Some "REVOKED")))
      (left_join (λ a c, eq_ (Some (au_continuity a)) (Some (co_id c)))
         (authorities w) (continuities w))).

Definition authority_decision_unique (w : world) : list row :=
  group_having_many (λ a, [Some (au_decision a)]) (authorities w).

(** [datetime] is SQLite's. *)
Definition authority_expiry_not_expired (datetime : string → value) (w : world) : list row :=
  map (λ a, id_row (au_id a))
    (where_ (λ a, lt_ (datetime (au_expiry a)) (datetime "now")) (authorities w)).

(** ** Continuities *)
Definition continuity_hash_valid (w : world) : list row :=
  map (λ c, id_row (co_id c))
    (where_ (λ c, or_ (is_null (Some (co_hash c))) (eq_ (Some (co_hash c)) (Some EmptyString)))
      (continuities w)).

Definition continuity_session_valid (w : world) : list row :=
  map (λ '(c, _), id_row (co_id c))
    (where_ (λ '(_, s), is_null (of_row s (λ s, Some (se_id s))))
      (left_join (λ c s, eq_ (Some (co_session c)) (Some (se_id s))) (continuities w) (sessions w))).

Definition continuity_identity_valid (w : world) : list row :=
  map (λ c, id_row (co_id c))
    (where_ (λ c, or_ (is_null (Some (co_identity c)))
       (eq_ (Some (co_identity c)) (Some EmptyString))) (continuities w)).

Definition continuity_parent_ancestry (w : world) : list row :=
  map (λ '(c, _), id_row (co_id c))
    (where_ (λ '(c, p), and_ (is_not_null (co_parent c)) (is_null (of_row p (λ p, Some (co_id p)))))
      (left_join (λ c p, eq_ (co_parent c) (Some (co_id p))) (continuities w) (continuities w))).

(** ** Revocation *)
Definition revocation_recursive (w : world) : list row :=
  remove_dups (map (λ c, id_row (co_id c))
    (where_ (λ c, and_ (eq_ (Some (co_status c)) (Some "REVOKED"))
       (exists_ (λ child, and_ (eq_ (co_parent child) (Some (co_id c)))
          (ne_ (Some (co_status child)) (Some "REVOKED"))) (continuities w)))
      (continuities w))).

Definition revocation_continuity_cascade (w : world) : list row :=
  remove_dups (map (λ '(a, _), id_row (au_id a))
    (where_ (λ '(a, c), and_ (eq_ (Some (co_status c)) (Some "REVOKED"))
         (not_in (Some (au_status a)) ["REVOKED"; "CONSUMED"]))
      (inner_join (λ a c, eq_ (Some (au_continuity a)) (Some (co_id c)))
         (authorities w) (continuities w)))).

Definition revocation_evidence_recorded (w : world) : list row :=
  remove_dups (map (λ c, id_row (co_id c))
    (where_ (λ c, and_ (eq_ (Some (co_status c)) (Some "REVOKED")) (is_null (co_revoked_at c)))
      (continuities w))).

(** ** Orphans *)
Definition orphan_execution_quarantined (w : world) : list row :=
  remove_dups (map (λ '(e, _), id_row (ex_id e))
    (where_ (λ '(e, c), or_ (is_null (of_row c (λ c, Some (co_id c))))
         (and_ (eq_ (of_row c (λ c, Some (co_status c))) (Some "REVOKED"))
            (lt_ (Some (ex_created_at e)) (of_row c co_revoked_at))))
      (left_join (λ e c, eq_ (Some (ex_continuity e)) (Some (co_id c)))
         (executions w) (continuities w)))).

Definition orphan_proof_archived (w : world) : list row :=
  remove_dups (map (λ '(p, _, _), id_row (pf_id p))
    (where_ (λ '(_, e, c), or_ (is_null (of_row e (λ e, Some (ex_id e))))
         (eq_ (of_row c (λ c, Some (co_status c))) (Some "REVOKED")))
      (left_join (λ '(p, _) c, eq_ (Some (pf_continuity p)) (Some (co_id c)))
         (left_join (λ p e, eq_ (Some (pf_execution p)) (Some (ex_id e))) (proofs w) (executions w))
         (continuities w)))).

Definition orphan_validation_marked (w : world) : list row :=
  remove_dups (map (λ '(v, _), id_row (va_id v))
    (where_ (λ '(v, a), and_ (eq_ (Some (va_result v)) (Some "VALID"))
         (is_null (of_row a (λ a, Some (au_id a)))))
      (left_join (λ v a, eq_ (Some (va_decision v)) (Some (au_decision a)))
         (validations w) (authorities w)))).

(** ** The map *)
Section Map.
Context (datetime : string → value).

(** [authority_registry] has no [revoked_at], which two of the queries name. *)
Definition RECONCILIATION_INVARIANTS (i : ReconciliationInvariant) : option invariant_definition :=
  let defines s d q := Some (mkInvariantDefinition s d (Some q)) in
  match i with
  | PROOF_EXECUTION_ANCESTRY => defines S_CRITICAL BROKEN_PROOF_LINEAGE proof_execution_ancestry
  | PROOF_DECISION_HASH_MATCH => defines S_CRITICAL DECISION_HASH_MISMATCH proof_decision_hash_match
  | PROOF_SESSION_CONTINUITY_BIND =>
      defines S_CRITICAL BROKEN_PROOF_LINEAGE proof_session_continuity_bind
  | PROOF_WORKFLOW_RUN_UNIQUE => defines S_HIGH PROOF_DUPLICATE_DETECTED proof_workflow_run_unique
  | EXECUTION_VALIDATION_ANCESTRY =>
      defines S_CRITICAL BROKEN_EXECUTION_LINEAGE execution_validation_ancestry
  | EXECUTION_DECISION_OBJECT_MATCH =>
      defines S_CRITICAL OBJECT_HASH_MISMATCH execution_decision_object_match
  | EXECUTION_NONCE_UNIQUENESS => defines S_HIGH EXECUTION_DUPLICATE_DETECTED execution_nonce_uniqueness
  | EXECUTION_STATUS_VALID => defines S_MEDIUM INVALID_STATUS_TRANSITION execution_status_valid
  | VALIDATION_AEO_ANCESTRY => defines S_CRITICAL BROKEN_VALIDATION_LINEAGE validation_aeo_ancestry
  | VALIDATION_DECISION_OBJECT_MATCH =>
      defines S_CRITICAL OBJECT_HASH_MISMATCH validation_decision_object_match
  | VALIDATION_NONCE_SINGLE_USE => defines S_HIGH NONCE_REPLAY_DETECTED validation_nonce_single_use
  | VALIDATION_RESULT_DETERMINISTIC =>
      defines S_HIGH INVALID_STATUS_TRANSITION validation_result_deterministic
  | AEO_AUTHORITY_ANCESTRY => defines S_CRITICAL BROKEN_AEO_LINEAGE aeo_authority_ancestry
  | AEO_DECISION_OBJECT_MATCH => defines S_CRITICAL DECISION_HASH_MISMATCH aeo_decision_object_match
  | AEO_CANONICAL_HASH_MATCH => defines S_HIGH CANONICAL_HASH_MISMATCH aeo_canonical_hash_match
  | AEO_STATUS_VALID => defines S_MEDIUM INVALID_STATUS_TRANSITION aeo_status_valid
  | AUTHORITY_CONTINUITY_VALID =>
      defines S_CRITICAL BROKEN_AUTHORITY_LINEAGE authority_continuity_valid
  | AUTHORITY_DECISION_UNIQUE => defines S_HIGH AUTHORITY_REPLAY_DETECTED authority_decision_unique
  | AUTHORITY_EXPIRY_NOT_EXPIRED =>
      defines S_HIGH EXPIRED_AUTHORITY (authority_expiry_not_expired datetime)
  | AUTHORITY_STATUS_NOT_REVOKED => Some (mkInvariantDefinition S_HIGH REVOKED_AUTHORITY_IN_USE None)
  | CONTINUITY_HASH_VALID => defines S_CRITICAL CONTINUITY_HASH_MISMATCH continuity_hash_valid
  | CONTINUITY_SESSION_VALID => defines S_CRITICAL BROKEN_CONTINUITY_CHAIN continuity_session_valid
  | CONTINUITY_IDENTITY_VALID => defines S_HIGH BROKEN_CONTINUITY_CHAIN continuity_identity_valid
  | CONTINUITY_PARENT_ANCESTRY => defines S_HIGH BROKEN_CONTINUITY_CHAIN continuity_parent_ancestry
  | REVOCATION_RECURSIVE => defines S_CRITICAL REVOCATION_NOT_CASCADED revocation_recursive
  | REVOCATION_CONTINUITY_CASCADE =>
      defines S_CRITICAL REVOCATION_NOT_CASCADED revocation_continuity_cascade
  | REVOCATION_AUTHORITY_CASCADE => Some (mkInvariantDefinition S_HIGH REVOCATION_NOT_CASCADED None)
  | REVOCATION_EVIDENCE_RECORDED =>
      defines S_MEDIUM REVOCATION_NOT_CASCADED revocation_evidence_recorded
  | ORPHAN_EXECUTION_QUARANTINED => defines S_HIGH ORPHANED_EXECUTION orphan_execution_quarantined
  | ORPHAN_PROOF_ARCHIVED => defines S_HIGH ORPHANED_PROOF orphan_proof_archived
  | ORPHAN_VALIDATION_MARKED => defines S_MEDIUM ORPHANED_VALIDATION orphan_validation_marked
  | REPLAY_NONCE_CONSUMED | REPLAY_AUTHORITY_CONSUMED | REPLAY_INVOCATION_SINGLE_USE
  | REPLAY_PROOF_UNIQUE => None
  end.

(** The rows that violate an invariant; [None] when it has no query that runs. *)
Definition violations (i : ReconciliationInvariant) (w : world) : option (list row) :=
  match RECONCILIATION_INVARIANTS i with
  | Some d => match iv_query d with Some q => Some (q w) | None => None end
  | None => None
  end.
End Map.

(** ** Registries *)
Definition REGISTRY_DEPENDENCY_MAP : list (string * list string) :=
  [("proof_registry", ["execution_registry"; "session_registry"; "continuity_registry"]);
   ("execution_registry", ["validation_registry"; "session_registry"; "continuity_registry"]);
   ("validation_registry", ["aeo_registry"; "session_registry"; "continuity_registry"]);
   ("aeo_registry", ["authority_registry"; "decision_registry"]);
   ("authority_registry", ["continuity_registry"; "session_registry"]);
   ("continuity_registry", ["session_registry"]);
   ("session_registry", [])].

Definition REGISTRY_TRAVERSAL_ORDER : list string :=
  ["session_registry"; "continuity_registry"; "authority_registry"; "aeo_registry";
   "validation_registry"; "execution_registry"; "proof_registry"].
