(* ===== verification/AuditTheorems.v ===== *)
(** What the audit queries find in the tables that the worker writes.

    Each query is first characterised: it selects nothing exactly when the rows
    are linked as its description says. The worker's invariant then says which
    queries select nothing in any state that requests can reach, and which one
    selects every compiled object. *)
From Stdlib Require Import ZArith NArith Lia Ascii.
From stdpp Require Import base list strings pretty sets.
From S2P Require Import Prelude JsValue Sha256 Canonical Json Effects WorkerValues WorkerTables.
From S2P Require Import WorkerSql WorkerLineage WorkerEvidence WorkerIssuance WorkerAuthority.
From S2P Require Import WorkerExecution WorkerProof WorkerInvariant WorkerLawful WorkerCalm.
From S2P Require Import WorkerLineageProof WorkerSafety WorkerRun WorkerTheorems RegistryAudit.

(** * SQL conditions *)
Lemma eq_true a b : eq_ a b = Some true ↔ ∃ x, a = Some x ∧ b = Some x.
Proof.
  destruct a as [x|], b as [y|]; simpl; try (split; [done|naive_solver]).
  split.
  - intros [= ->%String.eqb_eq]. eauto.
  - intros (z & [= ->] & [= ->]). by rewrite String.eqb_refl.
Qed.

Lemma eq_some x y : eq_ (Some x) (Some y) = Some true ↔ x = y.
Proof. rewrite eq_true. naive_solver. Qed.

Lemma ne_some x y : ne_ (Some x) (Some y) = Some true ↔ x ≠ y.
Proof. simpl. destruct (String.eqb_spec x y); naive_solver. Qed.

Lemma and_true p q : and_ p q = Some true ↔ p = Some true ∧ q = Some true.
Proof. destruct p as [[]|], q as [[]|]; simpl; naive_solver. Qed.

Lemma or_true p q : or_ p q = Some true ↔ p = Some true ∨ q = Some true.
Proof. destruct p as [[]|], q as [[]|]; simpl; naive_solver. Qed.

Lemma null_true a : is_null a = Some true ↔ a = None.
Proof. destruct a; simpl; naive_solver. Qed.

Lemma not_null_true a : is_not_null a = Some true ↔ a ≠ None.
Proof. destruct a; simpl; naive_solver. Qed.

Lemma not_in_true x l : not_in (Some x) l = Some true ↔ x ∉ l.
Proof.
  simpl. destruct (str_in x l) eqn:E; simpl.
  - apply str_in_elem in E. naive_solver.
  - rewrite <- str_in_elem. rewrite E. naive_solver.
Qed.

Lemma of_row_null {B} (o : option B) (f : B → value) :
  (∀ b, f b ≠ None) → of_row o f = None ↔ o = None.
Proof. intros Hf. destruct o as [b|]; simpl; [|done]. specialize (Hf b). naive_solver. Qed.

(** * Tables *)
Lemma elem_of_where {A} (p : A → tv) rows r : r ∈ where_ p rows ↔ r ∈ rows ∧ p r = Some true.
Proof.
  unfold where_. rewrite !list_elem_of_In, filter_In. unfold is_true.
  destruct (p r) as [[]|]; naive_solver.
Qed.

Lemma where_nil {A} (p : A → tv) rows : where_ p rows = [] ↔ ∀ r, r ∈ rows → p r ≠ Some true.
Proof.
  split.
  - intros E r Hr Hp. assert (r ∈ where_ p rows) as H by (by apply elem_of_where).
    rewrite E in H. by apply elem_of_nil in H.
  - intros H. destruct (where_ p rows) as [|r l] eqn:E; [done|].
    assert (r ∈ where_ p rows) as [Hr Hp]%elem_of_where by (rewrite E; left). by destruct (H r).
Qed.

Lemma elem_of_left_join {A B} (on : A → B → tv) l r a o :
  (a, o) ∈ left_join on l r ↔
  a ∈ l ∧ match o with
          | Some b => b ∈ r ∧ on a b = Some true
          | None => ∀ b, b ∈ r → on a b ≠ Some true
          end.
Proof.
  unfold left_join. rewrite list_elem_of_bind. split.
  - intros (a' & Hin & Ha'). destruct (where_ (on a') r) as [|b bs] eqn:E.
    + apply list_elem_of_singleton in Hin. injection Hin as -> ->. split; [done|].
      by apply where_nil.
    + apply list_elem_of_fmap in Hin as (b' & [= -> ->] & Hb). split; [done|].
      apply elem_of_where. by rewrite E.
  - intros [Ha Ho]. exists a. split; [|done]. destruct o as [b|].
    + assert (b ∈ where_ (on a) r) as Hb by (by apply elem_of_where).
      destruct (where_ (on a) r) as [|b0 bs] eqn:E; [by apply elem_of_nil in Hb|].
      by apply (list_elem_of_fmap_2 (λ b, (a, Some b))).
    + apply where_nil in Ho. rewrite Ho. by left.
Qed.

Lemma remove_dups_nil {A} `{EqDecision A} (l : list A) : remove_dups l = [] ↔ l = [].
Proof.
  split; [|by intros ->]. intros E. destruct l as [|x l]; [done|].
  assert (x ∈ remove_dups (x :: l)) as H by (apply elem_of_remove_dups; left).
  rewrite E in H. by apply elem_of_nil in H.
Qed.

(** An outer join whose right side is never missing. *)
Lemma anti_join_nil {A B R} (f : A * option B → R) (on : A → B → tv) (key : B → string) l r :
  map f (where_ (λ '(_, o), is_null (of_row o (λ b, Some (key b)))) (left_join on l r)) = []
  ↔ ∀ a, a ∈ l → ∃ b, b ∈ r ∧ on a b = Some true.
Proof.
  rewrite map_nil, where_nil. split.
  - intros H a Ha. destruct (where_ (on a) r) as [|b bs] eqn:E.
    + destruct (H (a, None)); [|done]. apply elem_of_left_join. split; [done|]. by apply where_nil.
    + exists b. apply elem_of_where. rewrite E. left.
  - intros H [a o] Hin. apply elem_of_left_join in Hin as [Ha Ho]. destruct o as [b|]; [done|].
    destruct (H a Ha) as (b & Hb & Hon). by destruct (Ho b).
Qed.

Lemma select_nil {A R} (f : A → R) (p : A → tv) l :
  map f (where_ p l) = [] ↔ ∀ a, a ∈ l → p a ≠ Some true.
Proof. by rewrite map_nil, where_nil. Qed.

Lemma count_one {A} `{EqDecision A} (x : A) l :
  NoDup l → (length (List.filter (λ y, bool_decide (y = x)) l) <= 1)%nat.
Proof.
  induction 1 as [|y l Hy _ IH]; simpl; [lia|]. case_bool_decide as E; simpl; [|done]. subst y.
  assert (List.filter (λ y, bool_decide (y = x)) l = []) as ->; [|simpl; lia].
  clear IH. induction l as [|z l IH]; simpl; [done|].
  case_bool_decide as E; [subst; set_solver|]. apply IH. set_solver.
Qed.

(** A grouping without a repeated key. *)
Lemma group_nil {A} (key : A → row) rows : group_having_many key rows = [] ↔ NoDup (map key rows).
Proof.
  unfold group_having_many. rewrite map_nil. split.
  - intros H. assert (∀ k, k ∈ map key rows →
      (length (List.filter (λ k', bool_decide (k' = k)) (map key rows)) <= 1)%nat) as Hc.
    { intros k Hk. destruct (Nat.ltb_spec 1 (length (List.filter (λ k', bool_decide (k' = k))
        (map key rows)))) as [Hlt|]; [|done].
      assert (k ∈ List.filter (λ k, Nat.ltb 1 (length (List.filter (λ k', bool_decide (k' = k))
        (map key rows)))) (remove_dups (map key rows))) as Hin; [|rewrite H in Hin; by apply elem_of_nil in Hin].
      apply list_elem_of_In, filter_In. split; [|by apply Nat.ltb_lt].
      by apply list_elem_of_In, elem_of_remove_dups. }
    clear H. induction (map key rows) as [|k ks IH]; [apply NoDup_nil_2|]. apply NoDup_cons. split.
    + intros Hk. specialize (Hc k ltac:(left)). simpl in Hc. rewrite bool_decide_true in Hc by done.
      simpl in Hc. destruct (List.filter (λ k', bool_decide (k' = k)) ks) as [|x l] eqn:E; [|simpl in Hc; lia].
      assert (k ∈ List.filter (λ k', bool_decide (k' = k)) ks) as Hin; [|rewrite E in Hin; by apply elem_of_nil in Hin].
      apply list_elem_of_In, filter_In. rewrite <- list_elem_of_In. split; [done|].
      by apply bool_decide_true.
    + apply IH. intros k' Hk'. specialize (Hc k' ltac:(by right)). simpl in Hc.
      case_bool_decide; simpl in Hc; lia.
  - intros Hn. destruct (List.filter _ _) as [|k l] eqn:E; [done|].
    assert (k ∈ k :: l) as Hk by left. rewrite <- E in Hk.
    apply list_elem_of_In, filter_In in Hk as [_ Hlt%Nat.ltb_lt].
    pose proof (count_one k _ Hn). lia.
Qed.

(** * What the queries say *)
Lemma proof_execution_ancestry_nil w :
  proof_execution_ancestry w = [] ↔
  ∀ p, p ∈ proofs w → ∃ e, e ∈ executions w ∧ ex_id e = pf_execution p
    ∧ ex_decision e = pf_decision p ∧ ex_hash e = pf_hash p.
Proof.
  unfold proof_execution_ancestry. rewrite anti_join_nil. apply forall_proper. intros p.
  setoid_rewrite and_true. setoid_rewrite and_true. setoid_rewrite eq_some. naive_solver.
Qed.

Lemma execution_validation_ancestry_nil w :
  execution_validation_ancestry w = [] ↔
  ∀ e, e ∈ executions w → ∃ v, v ∈ validations w ∧ va_decision v = ex_decision e
    ∧ va_hash v = ex_hash e ∧ va_nonce v = ex_nonce e.
Proof.
  unfold execution_validation_ancestry. rewrite anti_join_nil. apply forall_proper. intros e.
  setoid_rewrite and_true. setoid_rewrite and_true. setoid_rewrite eq_some. naive_solver.
Qed.

(** An outer join whose right side may be missing where [keep] is not true. *)
Lemma anti_join_where_nil {A B R} (f : A * option B → R) (on : A → B → tv) (key : B → string)
    (keep : A → tv) l r :
  map f (where_ (λ '(a, o), and_ (keep a) (is_null (of_row o (λ b, Some (key b))))) (left_join on l r)) = []
  ↔ ∀ a, a ∈ l → keep a = Some true → ∃ b, b ∈ r ∧ on a b = Some true.
Proof.
  rewrite select_nil. split.
  - intros H a Ha Hk. destruct (where_ (on a) r) as [|b bs] eqn:E.
    + destruct (H (a, None)); [|by apply and_true]. apply elem_of_left_join. split; [done|].
      by apply where_nil.
    + exists b. apply elem_of_where. rewrite E. left.
  - intros H [a o] Hin [Hk Hn]%and_true. apply elem_of_left_join in Hin as [Ha Ho].
    destruct o as [b|]; [done|]. destruct (H a Ha Hk) as (b & Hb & Hon). by destruct (Ho b).
Qed.

Lemma validation_aeo_ancestry_nil w :
  validation_aeo_ancestry w = [] ↔
  ∀ v, v ∈ validations w → va_result v = "VALID" →
    ∃ o, o ∈ aeos w ∧ ao_decision o = va_decision v ∧ ao_hash o = va_hash v.
Proof.
  unfold validation_aeo_ancestry.
  rewrite (anti_join_where_nil _ _ ao_id (λ v, eq_ (Some (va_result v)) (Some "VALID"))).
  apply forall_proper. intros v. setoid_rewrite and_true. setoid_rewrite eq_some. naive_solver.
Qed.

Lemma orphan_validation_marked_nil w :
  orphan_validation_marked w = [] ↔
  ∀ v, v ∈ validations w → va_result v = "VALID" →
    ∃ a, a ∈ authorities w ∧ au_decision a = va_decision v.
Proof.
  unfold orphan_validation_marked. rewrite remove_dups_nil.
  rewrite (anti_join_where_nil _ _ au_id (λ v, eq_ (Some (va_result v)) (Some "VALID"))).
  apply forall_proper. intros v. setoid_rewrite eq_some. naive_solver.
Qed.

Lemma aeo_authority_ancestry_nil w :
  aeo_authority_ancestry w = [] ↔
  ∀ o, o ∈ aeos w → ∃ a, a ∈ authorities w ∧ au_id a = ao_authority o.
Proof.
  unfold aeo_authority_ancestry, with_authority. rewrite anti_join_nil. apply forall_proper. intros o.
  setoid_rewrite eq_some. naive_solver.
Qed.

Lemma continuity_session_valid_nil w :
  continuity_session_valid w = [] ↔ ∀ c, c ∈ continuities w → has_session (co_session c) w.
Proof.
  unfold continuity_session_valid, has_session. rewrite anti_join_nil. apply forall_proper. intros c.
  setoid_rewrite eq_some. naive_solver.
Qed.

Lemma continuity_parent_ancestry_nil w :
  continuity_parent_ancestry w = [] ↔
  ∀ c id, c ∈ continuities w → co_parent c = Some id → ∃ p, p ∈ continuities w ∧ co_id p = id.
Proof.
  unfold continuity_parent_ancestry.
  rewrite (anti_join_where_nil _ _ co_id (λ c, is_not_null (co_parent c))).
  setoid_rewrite not_null_true. setoid_rewrite eq_true. split.
  - intros H c id Hc E. destruct (H c Hc) as (p & Hp & x & E1 & [= E2]); [congruence|].
    exists p. split; [done|]. congruence.
  - intros H c Hc Hn. destruct (co_parent c) as [id|] eqn:E; [|done].
    destruct (H c id Hc E) as (p & Hp & <-). eauto.
Qed.

(** Every row has the rows its lineage needs. *)
Record linked (w : world) : Prop := mkLinked {
  l_proofs : ∀ p, p ∈ proofs w → ∃ e, e ∈ executions w ∧ ex_id e = pf_execution p
    ∧ ex_decision e = pf_decision p ∧ ex_hash e = pf_hash p;
  l_executions : ∀ e, e ∈ executions w → ∃ v, v ∈ validations w ∧ va_decision v = ex_decision e
    ∧ va_hash v = ex_hash e ∧ va_nonce v = ex_nonce e;
  l_validations : ∀ v, v ∈ validations w → va_result v = "VALID" →
    ∃ o, o ∈ aeos w ∧ ao_decision o = va_decision v ∧ ao_hash o = va_hash v;
  l_aeos : ∀ o, o ∈ aeos w → ∃ a, a ∈ authorities w ∧ au_id a = ao_authority o;
  l_continuities : ∀ c, c ∈ continuities w → has_session (co_session c) w;
  l_parents : ∀ c id, c ∈ continuities w → co_parent c = Some id →
    ∃ p, p ∈ continuities w ∧ co_id p = id
}.

Definition ANCESTRY : list ReconciliationInvariant :=
  [PROOF_EXECUTION_ANCESTRY; EXECUTION_VALIDATION_ANCESTRY; VALIDATION_AEO_ANCESTRY;
   AEO_AUTHORITY_ANCESTRY; CONTINUITY_SESSION_VALID; CONTINUITY_PARENT_ANCESTRY].

(** The six ancestry queries together select nothing exactly when every row
    of the tables has the row its lineage continues with: proofs their execution,
    executions their validation, valid validations their compiled object, objects
    their authority, continuities their session and their parent. *)
Theorem ancestry_audit_iff datetime w :
  Forall (λ i, violations datetime i w = Some []) ANCESTRY ↔ linked w.
Proof.
  unfold ANCESTRY. rewrite !Forall_cons, Forall_nil. cbv [violations RECONCILIATION_INVARIANTS iv_query].
  split.
  - intros ([= H1] & [= H2] & [= H3] & [= H4] & [= H5] & [= H6] & _). split.
    + by apply proof_execution_ancestry_nil.
    + by apply execution_validation_ancestry_nil.
    + by apply validation_aeo_ancestry_nil.
    + by apply aeo_authority_ancestry_nil.
    + by apply continuity_session_valid_nil.
    + by apply continuity_parent_ancestry_nil.
  - intros [H1 H2 H3 H4 H5 H6]. repeat split; f_equal.
    + by apply proof_execution_ancestry_nil.
    + by apply execution_validation_ancestry_nil.
    + by apply validation_aeo_ancestry_nil.
    + by apply aeo_authority_ancestry_nil.
    + by apply continuity_session_valid_nil.
    + by apply continuity_parent_ancestry_nil.
Qed.

(** * Reachable tables *)
Section Worker.
Context {platform : Platform} (datetime : string → value).

Lemma lawful_linked w : lawful_world w → linked w.
Proof.
  intros Hw. pose proof (i_sealed _ Hw) as Hk. split.
  - intros p Hp. destruct (i_proofs _ Hw p Hp) as (e & ? & ? & ? & ? & _). by exists e.
  - intros e He. destruct (i_executions _ Hw e He) as ((v & ? & ? & ? & ? & _) & _). by exists v.
  - intros v Hv _. destruct (i_validations _ Hw v Hv) as (o & aeo & ? & ? & ? & _). by exists o.
  - intros o Ho. destruct (k_objects _ Hk o Ho) as ((a & ? & ? & _) & _). by exists a.
  - intros c Hc. by apply (k_rooted _ Hk).
  - intros c id [j Hj]%list_elem_of_lookup Hp. destruct (i_placed _ Hw j c id Hj Hp) as (i & p & _ & Hi & ? & _).
    exists p. split; [by eapply list_elem_of_lookup_2|done].
Qed.

Lemma lawful_object_decisions w : lawful_world w → aeo_decision_object_match w = [].
Proof.
  intros Hw. unfold aeo_decision_object_match, with_authority. apply select_nil. intros [o x] Hin.
  apply elem_of_left_join in Hin as [Ho Hx].
  destruct (k_objects _ (i_sealed _ Hw) o Ho) as ((a & Ha & Ea & Ed) & _). destruct x as [b|].
  - destruct Hx as [Hb Eb%eq_some]. assert (b = a) as ->.
    { eapply (key_unique au_id); [apply (i_sealed _ Hw)|done|done|congruence]. }
    rewrite or_true. intros [Hne%ne_some|Hn]; [congruence|done].
  - intros _. apply (Hx a Ha), eq_some. congruence.
Qed.

Lemma lawful_proof_binding w : lawful_world w → proof_session_continuity_bind w = [].
Proof.
  intros Hw. unfold proof_session_continuity_bind. apply select_nil. intros [[p s] c] Hin.
  apply elem_of_left_join in Hin as [Hin Hc]. apply elem_of_left_join in Hin as [Hp Hs].
  rewrite or_true, !null_true, !of_row_null by done. intros [-> | ->].
  - destruct (k_proofs _ (i_sealed _ Hw) p Hp) as ((r & Hr & E) & _). apply (Hs r Hr), eq_some. congruence.
  - destruct (i_proofs _ Hw p Hp) as (e & He & _ & _ & _ & _ & E).
    destruct (i_executions _ Hw e He) as (_ & _ & _ & k & Hk & Ek).
    apply (Hc k Hk), eq_some. congruence.
Qed.

Lemma NoDup_map_inj {A B C} (f : A → B) (g : A → C) l :
  (∀ x y, x ∈ l → y ∈ l → g x = g y → f x = f y) → NoDup (map f l) → NoDup (map g l).
Proof.
  induction l as [|x l IH]; intros Hfg; simpl; [intros _; apply NoDup_nil_2|].
  intros [Hx Hl]%NoDup_cons. apply NoDup_cons. split.
  - intros (y & E & Hy)%list_elem_of_fmap. apply Hx.
    rewrite (Hfg x y); [by apply list_elem_of_fmap_2|by left|by right|done].
  - apply IH; [|done]. intros a b Ha Hb. apply Hfg; by right.
Qed.

Lemma where_sublist {A} (p : A → tv) rows : where_ p rows `sublist_of` rows.
Proof.
  unfold where_. induction rows as [|r rows IH]; simpl; [constructor|].
  destruct (is_true (p r)); by constructor.
Qed.

(** The invariants that hold of everything the worker writes. *)
Definition UPHELD : list ReconciliationInvariant :=
  ANCESTRY ++ [PROOF_DECISION_HASH_MATCH; PROOF_SESSION_CONTINUITY_BIND; PROOF_WORKFLOW_RUN_UNIQUE;
   EXECUTION_NONCE_UNIQUENESS; EXECUTION_STATUS_VALID; VALIDATION_DECISION_OBJECT_MATCH;
   AEO_DECISION_OBJECT_MATCH; AEO_CANONICAL_HASH_MATCH; AUTHORITY_DECISION_UNIQUE;
   CONTINUITY_HASH_VALID; REVOCATION_EVIDENCE_RECORDED; ORPHAN_VALIDATION_MARKED].

Lemma lawful_proof_hashes w : lawful_world w → proof_decision_hash_match w = [].
Proof.
  intros Hw. apply select_nil. intros p Hp. destruct (k_proofs _ (i_sealed _ Hw) p Hp) as [_ E].
  unfold concat_. rewrite !or_true, eq_some, ne_some, str_app_assoc.
  intros [?|[E2|E2]]; [done| |by apply E2].
  rewrite E in E2. unfold proof_decision_hash in E2. by destruct (pf_decision p).
Qed.

Lemma lawful_runs_unique w :
  lawful_world w → proof_workflow_run_unique w = [] ∧ execution_nonce_uniqueness w = []
  ∧ authority_decision_unique w = [].
Proof.
  intros Hw. split_and!; apply group_nil.
  - apply (NoDup_map_inj proof_run); [unfold proof_run; congruence|].
    eapply sublist_NoDup; [apply (k_proof_runs _ (i_sealed _ Hw))|].
    apply (fmap_sublist proof_run), where_sublist.
  - eapply NoDup_map_inj; [|apply (i_one_run _ Hw)]. simpl. congruence.
  - eapply NoDup_map_inj; [|apply (i_decisions _ Hw)]. congruence.
Qed.

(** C17. In every state that requests can reach, eighteen of the reconciliation
    invariants hold: their queries run and select no row. These are the lineage of
    proofs, executions, validations, compiled objects and continuities, the
    uniqueness of nonces, workflow runs and decisions, and the evidence of every
    revocation. *)
Theorem audit_of_reached api_key secret arrivals q i :
  (∀ v, json_parse (canonicalize v) = Some (normalize v)) →
  reached api_key secret arrivals q → i ∈ UPHELD → violations datetime i q.1 = Some [].
Proof.
  intros Hjson Hq. pose proof (reached_lawful _ _ Hjson _ _ Hq) as Hw.
  pose proof (i_sealed _ Hw) as Hk. revert i. apply Forall_forall.
  unfold UPHELD. apply Forall_app. split; [by apply ancestry_audit_iff, lawful_linked|].
  rewrite !Forall_cons, Forall_nil. cbv [violations RECONCILIATION_INVARIANTS iv_query].
  destruct (lawful_runs_unique _ Hw) as (R1 & R2 & R3). split_and!; try done; f_equal; try done.
  - by apply lawful_proof_hashes.
  - by apply lawful_proof_binding.
  - apply select_nil. intros e He. by rewrite (proj1 (k_runs _ Hk e He)).
  - by apply select_nil.
  - by apply lawful_object_decisions.
  - apply select_nil. intros o Ho. destruct (k_objects _ Hk o Ho) as (_ & _ & Hne).
    rewrite or_true, eq_some. by intros [?|?].
  - apply select_nil. intros c Hc. destruct (k_rooted _ Hk c Hc) as (_ & Hne).
    rewrite or_true, eq_some. by intros [?|?].
  - apply remove_dups_nil, select_nil. intros c Hc. rewrite and_true, eq_some, null_true.
    intros [E1 E2]. by apply (k_evidence _ Hk c Hc E1).
  - apply orphan_validation_marked_nil. intros v Hv _.
    destruct (i_validations _ Hw v Hv) as (o & aeo & Ho & E & _).
    destruct (k_objects _ Hk o Ho) as ((a & Ha & _ & E2) & _). exists a. split; [done|]. congruence.
Qed.

(** The invariant on the status of compiled objects never holds once
    something is compiled: in every state that requests can reach, its query
    selects every object of the registry, each of which has the status that
    compiling gives it. *)
Theorem compiled_objects_flagged api_key secret arrivals q :
  (∀ v, json_parse (canonicalize v) = Some (normalize v)) →
  reached api_key secret arrivals q →
  violations datetime AEO_STATUS_VALID q.1 = Some (map (λ o, id_row (ao_id o)) (aeos q.1))
  ∧ ∀ o, o ∈ aeos q.1 → ao_status o = "COMPILED".
Proof.
  intros Hjson Hq. pose proof (i_sealed _ (reached_lawful _ _ Hjson _ _ Hq)) as Hk.
  assert (∀ o, o ∈ aeos q.1 → ao_status o = "COMPILED") as Hst by (intros o Ho; by apply Hk).
  split; [|done]. cbv [violations RECONCILIATION_INVARIANTS iv_query]. unfold aeo_status_valid.
  do 2 f_equal. revert Hst. unfold where_. induction (aeos q.1) as [|o l IH]; intros Hst; simpl; [done|].
  rewrite (Hst o) by left. simpl. f_equal. apply IH. intros o' Ho'. apply Hst. by right.
Qed.

(** An authority whose continuity was revoked, whatever its own status. *)
Lemma revoked_continuity_flagged w a c :
  a ∈ authorities w → c ∈ continuities w → au_continuity a = co_id c → co_status c = "REVOKED" →
  id_row (au_id a) ∈ authority_continuity_valid w.
Proof.
  intros Ha Hc E Hst. unfold authority_continuity_valid.
  apply (list_elem_of_fmap_2' (λ '(a, _), id_row (au_id a)) _ (a, Some c)); [|done].
  apply elem_of_where. split.
  - apply elem_of_left_join. split; [done|]. split; [done|]. by apply eq_some.
  - simpl. by rewrite Hst.
Qed.
End Worker.

(** The order visits a registry after those it depends on; [decision_registry],
    on which the compiled objects are said to depend, is no registry. *)
Definition visited_before (d r : string) : bool :=
  existsb (λ i, bool_decide (REGISTRY_TRAVERSAL_ORDER !! i = Some d)
    && existsb (λ j, bool_decide (REGISTRY_TRAVERSAL_ORDER !! j = Some r)) (seq (S i) 7)) (seq 0 7).

Lemma traversal_after_dependencies :
  forallb (λ '(r, ds), forallb (λ d, String.eqb d "decision_registry" || visited_before d r) ds)
    REGISTRY_DEPENDENCY_MAP = true
  ∧ str_in "decision_registry" (map fst REGISTRY_DEPENDENCY_MAP) = false.
Proof. split; vm_compute; reflexivity. Qed.

Lemma demo_compiled : ∃ o, o ∈ aeos demo.1.
Proof.
  pose proof (reached_lawful "key" "secret" plain_json _ _ demo_reached) as Hw.
  destruct demo_proof as [p Hp]. destruct (i_proofs _ Hw p Hp) as (e & He & _).
  destruct (i_executions _ Hw e He) as ((v & Hv & _) & _).
  destruct (i_validations _ Hw v Hv) as (o & aeo & Ho & _). by exists o.
Qed.

Lemma audit_of_reached_witness :
  PROOF_EXECUTION_ANCESTRY ∈ UPHELD ∧ violations Some PROOF_EXECUTION_ANCESTRY demo.1 = Some []
  ∧ ∃ p, p ∈ proofs demo.1.
Proof.
  assert (PROOF_EXECUTION_ANCESTRY ∈ UPHELD) as Hin by (left).
  split; [exact Hin|]. split; [|exact demo_proof].
  exact (audit_of_reached Some "key" "secret" demo_arrivals demo _ plain_json demo_reached Hin).
Defined.

Lemma compiled_objects_flagged_witness :
  ∃ o rows, o ∈ aeos demo.1 ∧ violations Some AEO_STATUS_VALID demo.1 = Some rows ∧ [Some (ao_id o)] ∈ rows.
Proof.
  destruct demo_compiled as [o Ho]. exists o. eexists. split; [exact Ho|].
  split; [exact (proj1 (compiled_objects_flagged Some "key" "secret" demo_arrivals demo plain_json demo_reached))|].
  exact (list_elem_of_fmap_2 (λ o, id_row (ao_id o)) _ _ Ho).
Defined.
