(* ===== verification/SurfaceCoordination.v ===== *)
(** Coordination between two surfaces: [src/inter-surface-coordination.ts].

    The evaluation answers an artifact, a run-time value that carries its own
    digest. *)
From Stdlib Require Import ZArith NArith Lia Ascii Sorted.
From stdpp Require Import base list strings sets.
From S2P Require Import Prelude JsValue Sha256 Canonical LineageGraph ConflictArbitration.
From S2P Require Import TopologyConvergence.

Inductive InterSurfaceCoordinationResult := COORDINATION_ALLOWED | COORDINATION_FORBIDDEN | COORDINATION_NULL.

#[export] Instance coordination_result_eq_dec : EqDecision InterSurfaceCoordinationResult.
Proof. solve_decision. Defined.

Definition coordination_str (r : InterSurfaceCoordinationResult) : string :=
  match r with
  | COORDINATION_ALLOWED => "COORDINATION_ALLOWED"
  | COORDINATION_FORBIDDEN => "COORDINATION_FORBIDDEN"
  | COORDINATION_NULL => "NULL"
  end.

(** A class, by its text after the common prefix. *)
Definition surface_class (s : string) : string := "inter_surface_" +:+ s.

Definition KNOWN_SURFACES : list string :=
  ["deploy"; "rollback"; "proof"; "telemetry"; "continuity"; "topology"; "cto"; "agent";
   "reconciliation"].

Definition KNOWN_INTERACTIONS : list string :=
  ["triggers"; "depends_on"; "observes"; "reconciles"; "rolls_back"; "proves"; "invalidates";
   "propagates"; "reports"].

Definition computeInterSurfaceCoordinationHash (fields : jsval) : string :=
  hashCanonical (with_sorted
    [("coordination_classes", plain_sorted); ("forbidden_conditions", plain_sorted)]
    (omit ["coordination_hash"] fields)).

(** * Boundary *)
Definition COORDINATION_BOUNDARY : list ((jsval → bool) * string) :=
  [(is_true "implicit_sync", surface_class "implicit_sync_forbidden");
   (is_true "auto_sync", surface_class "implicit_sync_forbidden");
   (is_true "creates_authority", surface_class "authority_attempt");
   (is_true "creates_execution", surface_class "execution_attempt");
   (is_true "creates_proof", surface_class "proof_attempt");
   (is_true "mutates_registry", surface_class "registry_mutation");
   (has_key "registry_mutation", surface_class "registry_mutation");
   (has_key "authority_grant", surface_class "boundary_violation");
   (has_key "execution_token", surface_class "boundary_violation");
   (has_key "proof_signature", surface_class "boundary_violation");
   (has_key "deployment_trigger", surface_class "boundary_violation");
   (has_key "lineage_repair", surface_class "boundary_violation");
   (has_key "automatic_repair", surface_class "boundary_violation");
   (has_key "break_glass", surface_class "boundary_violation");
   (has_key "is_break_glass", surface_class "boundary_violation");
   (has_key "break_glass_normalized", surface_class "boundary_violation")].

Definition validateInterSurfaceCoordinationBoundary (input : jsval) : option string :=
  if is_record input then first_class COORDINATION_BOUNDARY input else None.

(** * Evaluation *)
Definition FLAGS : list string :=
  ["requires_proof"; "requires_lineage"; "requires_ordering"; "proof_present"; "lineage_present";
   "ordering_present"].

Definition result_fields (r : InterSurfaceCoordinationResult) (classes conditions : list string)
    (obj : jsval) : list (string * jsval) :=
  evidence_fields "INTER_SURFACE_COORDINATION_RULESET"
  ++ [("surface_a", string_or_null (get obj "surface_a"));
      ("surface_b", string_or_null (get obj "surface_b"));
      ("interaction_type", string_or_null (get obj "interaction_type"))]
  ++ map (λ k, (k, JBool (is_true k obj))) FLAGS
  ++ [("allowed", JBool (bool_decide (r = COORDINATION_ALLOWED)));
      ("forbidden_conditions", string_items (sort_by str_leb conditions));
      ("coordination_result", JStr (coordination_str r));
      ("coordination_classes", string_items (sort_by str_leb classes));
      ("coordination_hash_alg", JStr "sha256")].

Definition buildResult (r : InterSurfaceCoordinationResult) (classes conditions : list string)
    (obj : jsval) : jsval :=
  let fields := result_fields r classes conditions obj in
  JObj (fields
    ++ [("coordination_hash", JStr (computeInterSurfaceCoordinationHash (JObj fields)))]).

(** [${surface_a}:${interaction_type}:${surface_b}]. *)
Definition interaction_id (a i b : string) : string := a +:+ ":" +:+ i +:+ ":" +:+ b.

Definition classifySurfaceInteraction (surface_a surface_b interaction_type : jsval) : option string :=
  if negb (is_non_empty surface_a) then None
  else if negb (is_non_empty surface_b) then None
  else if negb (is_non_empty interaction_type) then None
  else if negb (str_in (str_or_empty surface_a) KNOWN_SURFACES) then None
  else if negb (str_in (str_or_empty surface_b) KNOWN_SURFACES) then None
  else if negb (str_in (str_or_empty interaction_type) KNOWN_INTERACTIONS) then None
  else Some (interaction_id (str_or_empty surface_a) (str_or_empty interaction_type)
    (str_or_empty surface_b)).

(** Steps 1 to 5: why an interaction cannot be evaluated. *)
Definition coordination_fault (input : jsval) : option string :=
  let obj := safeObj input in
  match validateInterSurfaceCoordinationBoundary input with
  | Some violation => Some violation
  | None =>
      if negb (is_non_empty (get obj "surface_a")) then Some (surface_class "missing_surface")
      else if negb (is_non_empty (get obj "surface_b")) then Some (surface_class "missing_surface")
      else if negb (str_in (str_or_empty (get obj "surface_a")) KNOWN_SURFACES)
      then Some (surface_class "unknown_surface")
      else if negb (str_in (str_or_empty (get obj "surface_b")) KNOWN_SURFACES)
      then Some (surface_class "unknown_surface")
      else if negb (is_non_empty (get obj "interaction_type"))
      then Some (surface_class "missing_interaction")
      else if negb (str_in (str_or_empty (get obj "interaction_type")) KNOWN_INTERACTIONS)
      then Some (surface_class "unknown_interaction")
      else None
  end.

(** Step 6: what is required and absent; the condition and its class. *)
Definition REQUIREMENTS : list (string * string * (string * string)) :=
  [("requires_proof", "proof_present", ("proof_required_but_absent", "proof_required"));
   ("requires_lineage", "lineage_present", ("lineage_required_but_absent", "lineage_required"));
   ("requires_ordering", "ordering_present", ("ordering_required_but_absent", "ordering_required"))].

Definition unmet (obj : jsval) : list (string * string) :=
  map snd (List.filter (λ '(requires, present, _), is_true requires obj && negb (is_true present obj))
    REQUIREMENTS).

Definition evaluateInterSurfaceCoordination (input : jsval) : jsval :=
  let obj := safeObj input in
  match coordination_fault input with
  | Some class => buildResult COORDINATION_NULL [class] [] obj
  | None =>
      match unmet obj with
      | [] => buildResult COORDINATION_ALLOWED [surface_class "coordination_allowed"] [] obj
      | conditions =>
          buildResult COORDINATION_FORBIDDEN
            (surface_class "coordination_forbidden" :: map (λ c, surface_class c.2) conditions)
            (map fst conditions) obj
      end
  end.

(** * Theorems *)
Definition coordinates (v : jsval) (r : InterSurfaceCoordinationResult) : Prop :=
  get v "coordination_result" = JStr (coordination_str r).

Lemma coordination_str_inj r r' : coordination_str r = coordination_str r' → r = r'.
Proof. by destruct r, r'. Qed.

Lemma build_result r classes conditions obj :
  coordinates (buildResult r classes conditions obj) r.
Proof. done. Qed.

Lemma build_coordinates r r' classes conditions obj :
  coordinates (buildResult r classes conditions obj) r' ↔ r' = r.
Proof.
  unfold coordinates. rewrite build_result. split; [|by intros ->].
  intros [= E%coordination_str_inj]. done.
Qed.

(** A surface pair that can be evaluated. *)
Record well_posed (input : jsval) : Prop := {
  wp_boundary : validateInterSurfaceCoordinationBoundary input = None;
  wp_a : ∃ a, get input "surface_a" = JStr a ∧ a ∈ KNOWN_SURFACES;
  wp_b : ∃ b, get input "surface_b" = JStr b ∧ b ∈ KNOWN_SURFACES;
  wp_interaction : ∃ i, get input "interaction_type" = JStr i ∧ i ∈ KNOWN_INTERACTIONS
}.

(** Every requirement that is stated is met. *)
Definition requirements_met (input : jsval) : Prop :=
  ∀ r p c, (r, p, c) ∈ REQUIREMENTS → get input r = JBool true → get input p = JBool true.

Lemma known_value v l :
  EmptyString ∉ l →
  (is_non_empty v = true ∧ str_in (str_or_empty v) l = true) ↔ ∃ s, v = JStr s ∧ s ∈ l.
Proof.
  intros Hl. split.
  - intros [Hn Hs%str_in_elem]. destruct v; try done. eauto.
  - intros (s & -> & Hs). split; [|by apply str_in_elem]. destruct s; [done|reflexivity].
Qed.

Ltac known_values := repeat match goal with
  | |- context [negb ?b] => destruct b eqn:?; cbn [negb]; [|try done]
  end.

Lemma known_no_empty : EmptyString ∉ KNOWN_SURFACES ∧ EmptyString ∉ KNOWN_INTERACTIONS.
Proof. split; intros H; apply str_in_elem in H; vm_compute in H; discriminate H. Qed.

Lemma fault_none input : coordination_fault input = None ↔ well_posed input.
Proof.
  destruct known_no_empty as [Hs Hi].
  unfold coordination_fault. rewrite !get_safeObj. split.
  - destruct (validateInterSurfaceCoordinationBoundary input) eqn:Hb; [done|]. known_values.
    intros _. split; [done|by apply known_value..].
  - intros [-> Ha Hb Hc]. apply known_value in Ha as [-> ->], Hb as [-> ->], Hc as [-> ->]; done.
Qed.

Lemma unmet_none input : unmet (safeObj input) = [] ↔ requirements_met input.
Proof.
  unfold unmet, requirements_met. split.
  - intros Hf r p c Hin Hr. destruct (is_true p (safeObj input)) eqn:Hp.
    { unfold is_true in Hp. rewrite get_safeObj in Hp. by apply bool_decide_eq_true in Hp. }
    apply map_eq_nil in Hf. assert ((r, p, c) ∈ List.filter (λ '(r, p, _),
      is_true r (safeObj input) && negb (is_true p (safeObj input))) REQUIREMENTS) as H.
    { apply list_elem_of_In, filter_In. rewrite <- list_elem_of_In. split; [done|].
      rewrite Hp, andb_true_r. unfold is_true. rewrite get_safeObj. by apply bool_decide_eq_true_2. }
    rewrite Hf in H. by apply elem_of_nil in H.
  - intros H. destruct (List.filter _ _) as [|[[r p] c] l] eqn:E; [done|].
    assert ((r, p, c) ∈ List.filter (λ '(r, p, _),
      is_true r (safeObj input) && negb (is_true p (safeObj input))) REQUIREMENTS) as Hin
      by (rewrite E; left).
    apply list_elem_of_In, filter_In in Hin as [Hin [Hr Hp]%andb_true_iff].
    unfold is_true in Hr, Hp. rewrite get_safeObj in Hr, Hp. apply bool_decide_eq_true in Hr.
    apply negb_true_iff, bool_decide_eq_false in Hp. destruct Hp.
    apply (H r p c); [by apply list_elem_of_In|done].
Qed.

(** Coordination is decided by the input alone. It is allowed exactly when
    the pair is well posed, two known surfaces and a known interaction without a
    boundary field, and everything it requires is present; it is forbidden
    exactly when the pair is well posed and something is missing; otherwise the
    result is NULL. *)
Theorem coordination_iff input :
  let out := evaluateInterSurfaceCoordination input in
  (coordinates out COORDINATION_ALLOWED ↔ well_posed input ∧ requirements_met input)
  ∧ (coordinates out COORDINATION_FORBIDDEN ↔ well_posed input ∧ ¬ requirements_met input)
  ∧ (coordinates out COORDINATION_NULL ↔ ¬ well_posed input).
Proof.
  cbv zeta. unfold evaluateInterSurfaceCoordination.
  destruct (coordination_fault input) as [c|] eqn:Hf.
  - assert (¬ well_posed input) as Hn by (intros H%fault_none; congruence).
    rewrite !build_coordinates. naive_solver.
  - apply fault_none in Hf. destruct (unmet (safeObj input)) as [|u us] eqn:Hu.
    + apply unmet_none in Hu. rewrite !build_coordinates. naive_solver.
    + assert (¬ requirements_met input) as Hm by (intros H%unmet_none; congruence).
      rewrite !build_coordinates. naive_solver.
Qed.

(** A digest of an object leaves its own property out. *)
Lemma omit_own k v fields : omit [k] (JObj (fields ++ [(k, v)])) = omit [k] (JObj fields).
Proof.
  unfold omit. cbn [props]. rewrite List.filter_app. cbn. rewrite String.eqb_refl. cbn.
  apply app_nil_r.
Qed.

(** The artifact has the digest of its own fields. *)
Lemma coordination_hash_valid input :
  ∃ h, get (evaluateInterSurfaceCoordination input) "coordination_hash" = JStr h
    ∧ valid_sha256 h = true
    ∧ h = computeInterSurfaceCoordinationHash (evaluateInterSurfaceCoordination input).
Proof.
  assert (∀ r cl cd obj, ∃ h, get (buildResult r cl cd obj) "coordination_hash" = JStr h
    ∧ valid_sha256 h = true ∧ h = computeInterSurfaceCoordinationHash (buildResult r cl cd obj)) as H.
  { intros r cl cd obj. eexists. split; [reflexivity|]. split; [apply hash_valid_sha256|].
    unfold buildResult. unfold computeInterSurfaceCoordinationHash at 2. by rewrite omit_own. }
  unfold evaluateInterSurfaceCoordination. destruct (coordination_fault input); [apply H|].
  destruct (unmet _); apply H.
Qed.

(** Identifiers of interactions are unambiguous. *)
Lemma interaction_id_inj a i b a' i' b' :
  a ∈ KNOWN_SURFACES → a' ∈ KNOWN_SURFACES → b ∈ KNOWN_SURFACES → b' ∈ KNOWN_SURFACES →
  i ∈ KNOWN_INTERACTIONS → i' ∈ KNOWN_INTERACTIONS →
  interaction_id a i b = interaction_id a' i' b' → a = a' ∧ i = i' ∧ b = b'.
Proof.
  assert (∀ l x s t y, forallb (λ s, str_forall (λ c, negb (Ascii.eqb c ":")) s) l = true →
    x ∈ l → y ∈ l → (x +:+ String ":" s) = (y +:+ String ":" t) → x = y ∧ s = t) as Hsplit.
  { intros l x s t y Hl Hx Hy. rewrite forallb_forall in Hl.
    pose proof (Hl x ltac:(by apply list_elem_of_In)) as Fx.
    pose proof (Hl y ltac:(by apply list_elem_of_In)) as Fy. clear Hl Hx Hy l.
    revert y Fy. induction x as [|c x IH]; intros [|d y] Fy; simpl in *.
    - intros [= ->]. done.
    - intros [= <- _]. done.
    - intros [= -> _]. done.
    - apply andb_true_iff in Fx as [_ Fx], Fy as [_ Fy].
      intros [= -> E]. destruct (IH Fx y Fy E) as [-> ->]. done. }
  intros Ha Ha' Hb Hb' Hi Hi' E. unfold interaction_id in E.
  apply (Hsplit KNOWN_SURFACES) in E as [-> E]; [|reflexivity|done|done].
  apply (Hsplit KNOWN_INTERACTIONS) in E as [-> ->]; [done|reflexivity|done|done].
Qed.
