(* ===== verification/SurfaceGraph.v ===== *)
(** Reconciliation of a graph of surfaces: [src/surface-graph-reconciliation.ts].

    Edges and the reconciliation artifact are run-time values. An edge is built
    from the artifact of a coordination; the reconciliation reads the edges in
    order and stops at the first it does not accept. *)
From Stdlib Require Import ZArith NArith Lia Ascii Sorted.
From stdpp Require Import base list strings sets.
From S2P Require Import Prelude JsValue Sha256 Canonical LineageGraph ConflictArbitration.
From S2P Require Import TopologyConvergence SurfaceCoordination.

Inductive SurfaceGraphReconciliationResult := GRAPH_RECONCILED | GRAPH_DRIFT_DETECTED | GRAPH_NULL.

#[export] Instance graph_result_eq_dec : EqDecision SurfaceGraphReconciliationResult.
Proof. solve_decision. Defined.

Definition graph_str (r : SurfaceGraphReconciliationResult) : string :=
  match r with
  | GRAPH_RECONCILED => "SURFACE_GRAPH_RECONCILED"
  | GRAPH_DRIFT_DETECTED => "SURFACE_GRAPH_DRIFT_DETECTED"
  | GRAPH_NULL => "NULL"
  end.

(** A class, by its text after the common prefix. *)
Definition graph_class (s : string) : string := "surface_graph_" +:+ s.

(** * Boundary *)
Definition GRAPH_BOUNDARY_KEYS : list string :=
  ["authority_grant"; "execution_token"; "proof_signature"; "registry_mutation";
   "deployment_trigger"; "lineage_repair"; "implicit_sync"; "auto_sync"; "automatic_repair"].

Definition BREAK_GLASS_KEYS : list string := ["break_glass"; "is_break_glass"; "break_glass_normalized"].

Definition has_any (ks : list string) (obj : jsval) : bool := existsb (λ k, has_key k obj) ks.

Definition GRAPH_BOUNDARY : list ((jsval → bool) * string) :=
  [(λ obj, is_true "implicit_sync" obj || is_true "auto_sync" obj, graph_class "implicit_sync_forbidden");
   (is_true "creates_authority", graph_class "authority_attempt");
   (is_true "creates_execution", graph_class "execution_attempt");
   (is_true "creates_proof", graph_class "proof_attempt");
   (is_true "mutates_registry", graph_class "registry_mutation");
   (has_any GRAPH_BOUNDARY_KEYS, graph_class "boundary_violation");
   (has_any BREAK_GLASS_KEYS, graph_class "break_glass_normalization")].

Definition detectBoundaryViolation (obj : jsval) : option string := first_class GRAPH_BOUNDARY obj.

Definition validateSurfaceGraphBoundary (input : jsval) : option string :=
  if is_record input then detectBoundaryViolation input else None.

(** * Hashes *)
Definition computeSurfaceEdgeHash (fields : jsval) : string :=
  hashCanonical (with_sorted [("coordination_classes", plain_sorted)] (omit ["edge_hash"] fields)).

Definition computeSurfaceGraphHash (fields : jsval) : string :=
  hashCanonical (with_sorted
    [("coordination_hashes", plain_sorted); ("reconciliation_classes", plain_sorted)]
    (omit ["surface_graph_hash"] fields)).

(** * Edges *)
Definition edge_fields (a b interaction result hash : jsval) : list (string * jsval) :=
  evidence_fields "SURFACE_GRAPH_EDGE"
  ++ [("surface_a", a); ("surface_b", b); ("interaction_type", interaction);
      ("coordination_result", result); ("coordination_hash", hash); ("edge_hash_alg", JStr "sha256")].

Definition buildNullEdge (obj : jsval) (class : string) : jsval :=
  JObj (edge_fields (string_or_null (get obj "surface_a")) (string_or_null (get obj "surface_b"))
    (string_or_null (get obj "interaction_type")) (JStr (coordination_str COORDINATION_NULL)) JNull
    ++ [("reconciliation_class", JStr class); ("edge_hash", JNull)]).

Definition KNOWN_RESULTS : list string :=
  map coordination_str [COORDINATION_ALLOWED; COORDINATION_FORBIDDEN; COORDINATION_NULL].

Definition buildSurfaceGraphEdge (input : jsval) : jsval :=
  let obj := safeObj input in
  match detectBoundaryViolation obj with
  | Some violation => buildNullEdge obj violation
  | None =>
      if negb (is_non_empty (get obj "surface_a")) || negb (is_non_empty (get obj "surface_b"))
         || negb (is_non_empty (get obj "interaction_type"))
         || negb (is_non_empty (get obj "coordination_result"))
         || negb (is_non_empty (get obj "coordination_hash"))
      then buildNullEdge obj (graph_class "missing_edge")
      else if negb (isValidSha256 (get obj "coordination_hash"))
      then buildNullEdge obj (graph_class "coordination_hash_invalid")
      else if negb (str_in (str_or_empty (get obj "coordination_result")) KNOWN_RESULTS)
      then buildNullEdge obj (graph_class "malformed_edge")
      else
        let fields := edge_fields (get obj "surface_a") (get obj "surface_b")
          (get obj "interaction_type") (get obj "coordination_result") (get obj "coordination_hash") in
        JObj (fields ++ [("edge_hash", JStr (computeSurfaceEdgeHash (JObj fields)))])
  end.

(** * Reconciliation *)
Definition reconciliation_fields (r : SurfaceGraphReconciliationResult) (classes : list string)
    (edge_count allowed forbidden null_count surface_count : nat) (hashes : list string) :
    list (string * jsval) :=
  let count n := jint (Z.of_nat n) in
  evidence_fields "SURFACE_GRAPH_RECONCILIATION"
  ++ [("reconciliation_result", JStr (graph_str r));
      ("reconciliation_classes", string_items (sort_by str_leb classes));
      ("edge_count", count edge_count); ("allowed_edge_count", count allowed);
      ("forbidden_edge_count", count forbidden); ("null_edge_count", count null_count);
      ("surface_count", count surface_count);
      ("coordination_hashes", string_items (sort_by str_leb hashes));
      ("surface_graph_hash_alg", JStr "sha256")].

Definition buildReconciliationOutput (r : SurfaceGraphReconciliationResult) (classes : list string)
    (edge_count allowed forbidden null_count surface_count : nat) (hashes : list string) : jsval :=
  let fields := reconciliation_fields r classes edge_count allowed forbidden null_count surface_count hashes in
  JObj (fields ++ [("surface_graph_hash", JStr (computeSurfaceGraphHash (JObj fields)))]).

(** [[...new Set(classes)].sort()]. *)
Definition unique_classes (classes : list string) : list string := sort_by str_leb (dedup [] classes).

Definition buildNullReconciliation (hashes classes : list string)
    (edge_count allowed forbidden null_count surface_count : nat) : jsval :=
  buildReconciliationOutput GRAPH_NULL (unique_classes classes) edge_count allowed forbidden null_count
    surface_count hashes.

(** The variables of the loop. *)
Record scan := mkScan {
  sc_hashes : list string;
  sc_surfaces : list string;
  sc_allowed : nat;
  sc_forbidden : nat;
  sc_edges : nat
}.

Definition no_edges : scan := mkScan [] [] 0 0 0.

(** What an edge is rejected for before its coordination is looked at, and
    whether it counts as a null edge. *)
Definition edge_rejection (obj : jsval) : option (string * bool) :=
  match detectBoundaryViolation obj with
  | Some violation => Some (violation, false)
  | None =>
      if negb (bool_decide (get obj "artifact" = JStr "SURFACE_GRAPH_EDGE"))
      then Some (graph_class "malformed_edge", false)
      else if negb (is_true "evidence_only" obj) then Some (graph_class "malformed_edge", false)
      else if negb (is_non_empty (get obj "surface_a")) || negb (is_non_empty (get obj "surface_b"))
              || negb (is_non_empty (get obj "interaction_type"))
      then Some (graph_class "missing_edge", false)
      else if bool_decide (get obj "coordination_result" = JStr (coordination_str COORDINATION_NULL))
              || nullish (string_or_null (get obj "coordination_result"))
              || nullish (string_or_null (get obj "coordination_hash"))
      then Some (graph_class "null_coordination_edge", true)
      else if negb (isValidSha256 (get obj "coordination_hash"))
      then Some (graph_class "coordination_hash_invalid", false)
      else if negb (isValidSha256 (get obj "edge_hash")) then Some (graph_class "hash_mismatch", false)
      else if negb (bool_decide (JStr (computeSurfaceEdgeHash (JObj (omit ["edge_hash"] obj)))
                      = get obj "edge_hash"))
      then Some (graph_class "hash_mismatch", false)
      else None
  end.

(** [Set.add]. *)
Definition add_surface (s : string) (l : list string) : list string := if str_in s l then l else l ++ [s].

Definition scan_null (acc : scan) (class : string) (null : bool) : jsval :=
  buildNullReconciliation (sc_hashes acc) [class] (sc_edges acc) (sc_allowed acc) (sc_forbidden acc)
    (if null then 1 else 0) 0.

Definition finish_scan (acc : scan) : jsval :=
  let drift := Nat.ltb 0 (sc_forbidden acc) in
  buildReconciliationOutput (if drift then GRAPH_DRIFT_DETECTED else GRAPH_RECONCILED)
    (unique_classes (if drift
       then graph_class "drift_detected"
              :: repeat (graph_class "forbidden_coordination_edge") (sc_forbidden acc)
       else [graph_class "reconciled"]))
    (sc_edges acc) (sc_allowed acc) (sc_forbidden acc) 0 (length (sc_surfaces acc)) (sc_hashes acc).

Fixpoint reconcile_from (acc : scan) (edges : list jsval) : jsval :=
  match edges with
  | [] => finish_scan acc
  | edge :: rest =>
      let obj := safeObj edge in
      let counted := mkScan (sc_hashes acc) (sc_surfaces acc) (sc_allowed acc) (sc_forbidden acc)
        (S (sc_edges acc)) in
      match edge_rejection obj with
      | Some (class, null) => scan_null counted class null
      | None =>
          let seen allowed forbidden :=
            mkScan (sc_hashes acc ++ [str_or_empty (get obj "coordination_hash")])
              (add_surface (str_or_empty (get obj "surface_b"))
                 (add_surface (str_or_empty (get obj "surface_a")) (sc_surfaces acc)))
              allowed forbidden (S (sc_edges acc)) in
          if bool_decide (get obj "coordination_result" = JStr (coordination_str COORDINATION_ALLOWED))
          then reconcile_from (seen (S (sc_allowed acc)) (sc_forbidden acc)) rest
          else if bool_decide
                    (get obj "coordination_result" = JStr (coordination_str COORDINATION_FORBIDDEN))
          then reconcile_from (seen (sc_allowed acc) (S (sc_forbidden acc))) rest
          else scan_null (seen (sc_allowed acc) (sc_forbidden acc)) (graph_class "malformed_edge") false
      end
  end.

Definition reconcileSurfaceGraph (edges : jsval) : jsval :=
  match edges with
  | JArr ((_ :: _) as l) => reconcile_from no_edges l
  | _ => buildNullReconciliation [] [graph_class "missing_edge"] 0 0 0 0 0
  end.

(** * Telemetry *)
Definition GRAPH_VIOLATION_KEYS : list string :=
  ["authority_grant"; "execution_token"; "proof_signature"; "registry_mutation";
   "deployment_trigger"; "lineage_repair"; "automatic_repair"] ++ BREAK_GLASS_KEYS.

Definition count_edges (p : jsval → bool) (edges : jsval) : jsval :=
  jint (Z.of_nat (length (List.filter (λ e, p (safeObj e)) (array_items edges)))).

(** The metrics by name; the artifact around them is constant. *)
Definition readCoordinationTelemetry (reconciliation edges : jsval) : list (string * jsval) :=
  let rec_ := safeObj reconciliation in
  let is_rec := bool_decide (get rec_ "artifact" = JStr "SURFACE_GRAPH_RECONCILIATION") in
  let read k := if is_rec then number_or_zero (get rec_ k) else jint 0 in
  [("coordination_allowed_total", read "allowed_edge_count");
   ("coordination_forbidden_total", read "forbidden_edge_count");
   ("coordination_null_total", read "null_edge_count");
   ("surface_graph_edge_total", read "edge_count");
   ("surface_graph_reconciliation_total", jint (one_if is_rec));
   ("surface_graph_drift_total", jint (one_if (is_rec && bool_decide
      (get rec_ "reconciliation_result" = JStr (graph_str GRAPH_DRIFT_DETECTED)))));
   ("implicit_sync_rejected_total",
      count_edges (λ obj, is_true "implicit_sync" obj || is_true "auto_sync" obj) edges);
   ("coordination_boundary_violation_total",
      count_edges (λ obj, existsb (λ k, is_true k obj)
          ["creates_authority"; "creates_execution"; "creates_proof"; "mutates_registry"]
        || has_any GRAPH_VIOLATION_KEYS obj) edges)].

(** * Theorems: edges *)
Lemma omit_twice ks v : omit ks (JObj (omit ks v)) = omit ks v.
Proof.
  unfold omit. cbn [props]. induction (props v) as [|kv l IH]; cbn; [done|].
  destruct (negb (str_in kv.1 ks)) eqn:E; cbn; [by rewrite E, IH|exact IH].
Qed.

(** An edge with the digest of its fields. *)
Definition edge_form (a b interaction result hash : jsval) : jsval :=
  let fields := edge_fields a b interaction result hash in
  JObj (fields ++ [("edge_hash", JStr (computeSurfaceEdgeHash (JObj fields)))]).

Lemma edge_form_accepted a b i r h :
  is_non_empty a = true → is_non_empty b = true → is_non_empty i = true →
  is_non_empty r = true → r ≠ JStr "NULL" → isValidSha256 h = true →
  edge_rejection (edge_form a b i r h) = None.
Proof.
  intros Ha Hb Hi Hr Hn Hh. set (e := edge_form _ _ _ _ _). unfold edge_rejection.
  change (detectBoundaryViolation e) with (@None string).
  change (get e "artifact") with (JStr "SURFACE_GRAPH_EDGE").
  rewrite bool_decide_eq_true_2 by done. change (is_true "evidence_only" e) with true.
  change (get e "surface_a") with a. change (get e "surface_b") with b.
  change (get e "interaction_type") with i. change (get e "coordination_result") with r.
  change (get e "coordination_hash") with h. rewrite Ha, Hb, Hi, Hh. cbn [negb orb].
  rewrite bool_decide_eq_false_2 by exact Hn.
  assert (nullish (string_or_null r) = false) as -> by (by destruct r).
  assert (nullish (string_or_null h) = false) as -> by (by destruct h). cbn [orb].
  assert (computeSurfaceEdgeHash (JObj (omit ["edge_hash"] e))
    = computeSurfaceEdgeHash (JObj (edge_fields a b i r h))) as E.
  { unfold computeSurfaceEdgeHash. rewrite omit_twice. unfold e, edge_form. by rewrite omit_own. }
  change (get e "edge_hash") with (JStr (computeSurfaceEdgeHash (JObj (edge_fields a b i r h)))).
  rewrite E, bool_decide_eq_true_2 by done. unfold isValidSha256, computeSurfaceEdgeHash.
  by rewrite hash_valid_sha256.
Qed.

Definition accepted (r : InterSurfaceCoordinationResult) (edge : jsval) : Prop :=
  edge_rejection (safeObj edge) = None ∧ coordinates (safeObj edge) r.

Lemma not_null_accepted e : accepted COORDINATION_NULL e → False.
Proof.
  intros [Hr Hc]. unfold edge_rejection in Hr. rewrite Hc in Hr.
  destruct (detectBoundaryViolation _); [done|]. destruct (negb _); [done|].
  destruct (negb _); [done|]. destruct (_ || _ || _); [done|].
  by rewrite bool_decide_eq_true_2 in Hr.
Qed.

(** Every edge that is built is accepted. Whatever the input, an edge that
    carries a digest has the surfaces, interaction, result and coordination hash
    of the input; the reconciliation rejects it only for a NULL coordination. *)
Theorem built_edge_accepted input :
  let e := buildSurfaceGraphEdge input in
  get e "edge_hash" ≠ JNull →
  Forall (λ k, get e k = get input k)
    ["surface_a"; "surface_b"; "interaction_type"; "coordination_result"; "coordination_hash"]
  ∧ (edge_rejection e = None ↔ get input "coordination_result" ≠ JStr "NULL").
Proof.
  cbv zeta. unfold buildSurfaceGraphEdge. rewrite !get_safeObj.
  destruct (detectBoundaryViolation _); [by intros []|].
  destruct (is_non_empty (get input "surface_a")) eqn:Ha; [|by intros []].
  destruct (is_non_empty (get input "surface_b")) eqn:Hb; [|by intros []].
  destruct (is_non_empty (get input "interaction_type")) eqn:Hi; [|by intros []].
  destruct (is_non_empty (get input "coordination_result")) eqn:Hr; [|by intros []].
  destruct (is_non_empty (get input "coordination_hash")) eqn:Hh; [|by intros []]. cbn [negb orb].
  destruct (isValidSha256 _) eqn:Hv; [|by intros []]. destruct (str_in _ _); [|by intros []].
  intros _. cbn [negb]. set (r := get input "coordination_result") in *.
  fold (edge_form (get input "surface_a") (get input "surface_b") (get input "interaction_type") r
    (get input "coordination_hash")).
  split; [by repeat constructor|]. split.
  - intros Hacc E. apply (not_null_accepted (edge_form (get input "surface_a") (get input "surface_b")
      (get input "interaction_type") r (get input "coordination_hash"))). by split.
  - intros Hn. by apply edge_form_accepted.
Qed.

(** * Theorems: graphs *)
Definition graph_result (out : jsval) (r : SurfaceGraphReconciliationResult) : Prop :=
  get out "reconciliation_result" = JStr (graph_str r).

Lemma output_graph_result r classes n a f z s hashes r' :
  graph_result (buildReconciliationOutput r classes n a f z s hashes) r' ↔ r' = r.
Proof.
  unfold graph_result. change (get (buildReconciliationOutput r classes n a f z s hashes)
    "reconciliation_result") with (JStr (graph_str r)).
  split; [|by intros ->]. intros [= E]. by destruct r, r'.
Qed.

Definition usable (edge : jsval) : Prop :=
  accepted COORDINATION_ALLOWED edge ∨ accepted COORDINATION_FORBIDDEN edge.

Definition forbids (edge : jsval) : bool :=
  bool_decide (get (safeObj edge) "coordination_result" = JStr (coordination_str COORDINATION_FORBIDDEN)).

(** The scan of a usable edge. *)
Definition scan_edge (acc : scan) (edge : jsval) : scan :=
  mkScan (sc_hashes acc ++ [str_or_empty (get (safeObj edge) "coordination_hash")])
    (add_surface (str_or_empty (get (safeObj edge) "surface_b"))
      (add_surface (str_or_empty (get (safeObj edge) "surface_a")) (sc_surfaces acc)))
    (sc_allowed acc + if forbids edge then 0 else 1) (sc_forbidden acc + if forbids edge then 1 else 0)
    (S (sc_edges acc)).

Lemma reconcile_from_step acc edge rest :
  usable edge → reconcile_from acc (edge :: rest) = reconcile_from (scan_edge acc edge) rest.
Proof.
  intros [[Hr Hc]|[Hr Hc]]; cbn [reconcile_from]; rewrite Hr; unfold scan_edge, forbids; rewrite Hc;
    [rewrite bool_decide_eq_true_2 by done|rewrite bool_decide_eq_false_2 by done].
  - rewrite bool_decide_eq_false_2 by done. by rewrite Nat.add_0_r, Nat.add_1_r.
  - rewrite bool_decide_eq_true_2 by done. by rewrite Nat.add_0_r, Nat.add_1_r.
Qed.

Lemma reconcile_from_usable acc l :
  Forall usable l → reconcile_from acc l = finish_scan (fold_left scan_edge l acc).
Proof.
  intros Hl. revert acc. induction Hl as [|e l He _ IH]; intros acc; [done|].
  by rewrite reconcile_from_step.
Qed.

Lemma usable_dec e : usable e ∨ ¬ usable e.
Proof.
  unfold usable, accepted, coordinates. destruct (edge_rejection (safeObj e)); [right; naive_solver|].
  destruct (decide (get (safeObj e) "coordination_result" = JStr (coordination_str COORDINATION_ALLOWED)));
    [left; naive_solver|].
  destruct (decide (get (safeObj e) "coordination_result" = JStr (coordination_str COORDINATION_FORBIDDEN)));
    [left; naive_solver|right; naive_solver].
Qed.

Lemma reconcile_from_unusable acc l :
  ¬ Forall usable l → graph_result (reconcile_from acc l) GRAPH_NULL.
Proof.
  revert acc. induction l as [|e l IH]; intros acc Hl; [by destruct Hl|].
  destruct (usable_dec e) as [He|He].
  - rewrite reconcile_from_step by done. apply IH. intros ?. apply Hl. by constructor.
  - cbn [reconcile_from]. destruct (edge_rejection (safeObj e)) as [[c z]|] eqn:Hr; [done|].
    rewrite !bool_decide_eq_false_2; [done| |]; intros Hc; apply He; [by right|by left].
Qed.

Lemma fold_scan l acc :
  sc_hashes (fold_left scan_edge l acc)
    = sc_hashes acc ++ map (λ e, str_or_empty (get (safeObj e) "coordination_hash")) l
  ∧ sc_allowed (fold_left scan_edge l acc)
    = sc_allowed acc + length (List.filter (λ e, negb (forbids e)) l)
  ∧ sc_forbidden (fold_left scan_edge l acc) = sc_forbidden acc + length (List.filter forbids l)
  ∧ sc_edges (fold_left scan_edge l acc) = sc_edges acc + length l.
Proof.
  revert acc. induction l as [|e l IH]; intros acc; cbn.
  - rewrite app_nil_r, !Nat.add_0_r. done.
  - destruct (IH (scan_edge acc e)) as (-> & -> & -> & ->). unfold scan_edge. cbn.
    rewrite <- (assoc_L (++)). destruct (forbids e); cbn; split_and!; done || lia.
Qed.

Lemma forbids_iff e : usable e → forbids e = true ↔ accepted COORDINATION_FORBIDDEN e.
Proof.
  intros Hu. unfold forbids. rewrite bool_decide_eq_true. split.
  - intros E. split; [|done]. by destruct Hu as [[? _]|[? _]].
  - by intros [_ ?].
Qed.

Lemma reconcile_result l :
  l ≠ [] → Forall usable l →
  ∀ r, graph_result (reconcileSurfaceGraph (JArr l)) r ↔
    r = if existsb forbids l then GRAPH_DRIFT_DETECTED else GRAPH_RECONCILED.
Proof.
  intros Hne Hl r. destruct l as [|e l]; [done|].
  change (reconcileSurfaceGraph (JArr (e :: l))) with (reconcile_from no_edges (e :: l)).
  rewrite reconcile_from_usable by done. unfold finish_scan. rewrite output_graph_result.
  destruct (fold_scan (e :: l) no_edges) as (_ & _ & -> & _).
  assert (Nat.ltb 0 (sc_forbidden no_edges + length (List.filter forbids (e :: l)))
    = existsb forbids (e :: l)) as ->; [|done].
  generalize (e :: l). intros k. induction k as [|x k IH]; [done|]. cbn [List.filter existsb].
  destruct (forbids x); [done|exact IH].
Qed.

Lemma graph_iff_helper l :
  let out := reconcileSurfaceGraph (JArr l) in
  (graph_result out GRAPH_RECONCILED ↔ l ≠ [] ∧ Forall (accepted COORDINATION_ALLOWED) l)
  ∧ (graph_result out GRAPH_DRIFT_DETECTED ↔
       Forall usable l ∧ Exists (accepted COORDINATION_FORBIDDEN) l)
  ∧ (graph_result out GRAPH_NULL ↔ l = [] ∨ ¬ Forall usable l).
Proof.
  cbv zeta. destruct l as [|e l'].
  { change (reconcileSurfaceGraph (JArr [])) with
      (buildNullReconciliation [] [graph_class "missing_edge"] 0 0 0 0 0).
    unfold buildNullReconciliation. rewrite !output_graph_result, Exists_nil. naive_solver. }
  assert (Forall usable (e :: l') ∨ ¬ Forall usable (e :: l')) as [Hl|Hl].
  { generalize (e :: l'). intros k. induction k as [|x k IH]; [by left|].
    destruct (usable_dec x), IH; [left; by constructor|right; by inversion 1..]. }
  - set (l := e :: l') in *. assert (l ≠ []) as Hne by done.
    rewrite !(reconcile_result l Hne Hl). destruct (existsb forbids l) eqn:Hx.
    + apply existsb_elem in Hx as (x & Hx & Hf). rewrite Forall_forall in Hl.
      pose proof (proj1 (forbids_iff x (Hl x Hx)) Hf) as Hforb.
      assert (¬ Forall (accepted COORDINATION_ALLOWED) l) as Hna.
      { rewrite Forall_forall. intros H. destruct (H x Hx) as [_ Hc]. destruct Hforb as [_ Hc'].
        unfold coordinates in *. rewrite Hc in Hc'. discriminate Hc'. }
      rewrite !Forall_forall, Exists_exists. rewrite Forall_forall in Hna. naive_solver.
    + assert (Forall (accepted COORDINATION_ALLOWED) l ∧ ¬ Exists (accepted COORDINATION_FORBIDDEN) l) as [HA HF].
      { rewrite Forall_forall, Exists_exists. rewrite Forall_forall in Hl.
        assert (∀ x, x ∈ l → forbids x = false) as Hnf.
        { intros x Hin. destruct (forbids x) eqn:E; [|done]. rewrite <- Hx. symmetry.
          apply existsb_elem. eauto. }
        split.
        - intros x Hin. destruct (Hl x Hin) as [?|Hf]; [done|].
          apply (forbids_iff x (Hl x Hin)) in Hf. rewrite Hnf in Hf by done. done.
        - intros (x & Hin & Hf). apply (forbids_iff x (Hl x Hin)) in Hf. by rewrite Hnf in Hf. }
      naive_solver.
  - assert (graph_result (reconcileSurfaceGraph (JArr (e :: l'))) GRAPH_NULL) as Hn
      by (by apply reconcile_from_unusable).
    assert (∀ r, graph_result (reconcileSurfaceGraph (JArr (e :: l'))) r → r = GRAPH_NULL) as Hu.
    { intros r Hr. unfold graph_result in *. rewrite Hn in Hr. injection Hr as Hr. by destruct r. }
    assert (¬ Forall (accepted COORDINATION_ALLOWED) (e :: l')) as Hna.
    { intros HA. apply Hl. eapply Forall_impl; [exact HA|]. by left. }
    split_and!; split; try naive_solver; intros H; try apply Hu in H; naive_solver.
Qed.

(** The result of a graph. It is reconciled exactly when there is an edge
    and every edge is accepted and allows coordination; drift is detected exactly
    when every edge is accepted and some edge forbids it; otherwise the result is
    NULL. *)
Theorem graph_iff l :
  let out := reconcileSurfaceGraph (JArr l) in
  (graph_result out GRAPH_RECONCILED ↔ l ≠ [] ∧ Forall (accepted COORDINATION_ALLOWED) l)
  ∧ (graph_result out GRAPH_DRIFT_DETECTED ↔
       Forall usable l ∧ Exists (accepted COORDINATION_FORBIDDEN) l)
  ∧ (graph_result out GRAPH_NULL ↔ l = [] ∨ ¬ Forall usable l).
Proof. exact (graph_iff_helper l). Qed.

(** * Theorems: order *)
Lemma elem_of_add_surface x s l : x ∈ add_surface s l ↔ x = s ∨ x ∈ l.
Proof.
  unfold add_surface. destruct (str_in s l) eqn:E.
  - apply str_in_elem in E. naive_solver.
  - rewrite elem_of_app, list_elem_of_singleton. naive_solver.
Qed.

Lemma NoDup_add_surface s l : NoDup l → NoDup (add_surface s l).
Proof.
  unfold add_surface. destruct (str_in s l) eqn:E; [done|]. intros Hl.
  assert (s ∉ l) by (rewrite <- str_in_elem; congruence).
  apply NoDup_app. split; [done|]. split; [|apply NoDup_singleton].
  intros x Hx ->%list_elem_of_singleton. done.
Qed.

Definition surfaces_of (e : jsval) : list string :=
  [str_or_empty (get (safeObj e) "surface_a"); str_or_empty (get (safeObj e) "surface_b")].

Lemma fold_surfaces l acc :
  NoDup (sc_surfaces acc) →
  NoDup (sc_surfaces (fold_left scan_edge l acc))
  ∧ ∀ x, x ∈ sc_surfaces (fold_left scan_edge l acc) ↔ x ∈ sc_surfaces acc ∨ x ∈ l ≫= surfaces_of.
Proof.
  revert acc. induction l as [|e l IH]; intros acc Hn; cbn.
  - split; [done|]. intros x. rewrite elem_of_nil. naive_solver.
  - destruct (IH (scan_edge acc e)) as [H1 H2]; [by do 2 apply NoDup_add_surface|]. split; [done|].
    intros x. rewrite H2. cbn. rewrite !elem_of_add_surface, !elem_of_cons. naive_solver.
Qed.

Lemma finish_scan_perm l l' :
  l ≡ₚ l' →
  finish_scan (fold_left scan_edge l no_edges) = finish_scan (fold_left scan_edge l' no_edges).
Proof.
  intros Hp. unfold finish_scan, buildReconciliationOutput, reconciliation_fields.
  destruct (fold_scan l no_edges) as (-> & -> & -> & ->).
  destruct (fold_scan l' no_edges) as (-> & -> & -> & ->).
  rewrite (sort_str_perm (sc_hashes no_edges ++ map _ l) (sc_hashes no_edges ++ map _ l'))
    by (by apply Permutation_app_head, Permutation_map).
  assert (∀ p : jsval → bool, length (List.filter p l) = length (List.filter p l')) as Hlen.
  { intros p. by apply Permutation_length, list_filter_perm. }
  assert (length (sc_surfaces (fold_left scan_edge l no_edges))
    = length (sc_surfaces (fold_left scan_edge l' no_edges))) as ->.
  { destruct (fold_surfaces l no_edges) as [N1 E1]; [apply NoDup_nil_2|].
    destruct (fold_surfaces l' no_edges) as [N2 E2]; [apply NoDup_nil_2|].
    apply Permutation_length, NoDup_Permutation; [done|done|]. intros x. rewrite E1, E2.
    assert (x ∈ l ≫= surfaces_of ↔ x ∈ l' ≫= surfaces_of) as ->; [|done].
    rewrite !list_elem_of_bind. by setoid_rewrite Hp. }
  by rewrite !Hlen, (Permutation_length Hp).
Qed.

(** The reconciliation does not depend on the order of the edges. When every
    edge is accepted, presenting the edges in another order yields the same
    artifact, with the same result, classes, counts and digest. *)
Theorem graph_order_independent l l' :
  l ≡ₚ l' → Forall usable l →
  reconcileSurfaceGraph (JArr l) = reconcileSurfaceGraph (JArr l').
Proof.
  intros Hp Hl. assert (Forall usable l') as Hl' by (by rewrite <- Hp).
  destruct l as [|e l]; [by apply Permutation_nil_l in Hp as ->|].
  destruct l' as [|e' l']; [by apply Permutation_nil_r in Hp|].
  change (reconcile_from no_edges (e :: l) = reconcile_from no_edges (e' :: l')).
  rewrite !reconcile_from_usable by done. by apply finish_scan_perm.
Qed.

(** * Theorems: coordination into graph *)

(** The edge of a coordination that is evaluated. *)
Definition coordinated_edge (input : jsval) : jsval :=
  buildSurfaceGraphEdge (evaluateInterSurfaceCoordination input).

Lemma result_no_violation r classes conditions obj :
  detectBoundaryViolation (buildResult r classes conditions obj) = None.
Proof. reflexivity. Qed.

Lemma built_result_edge r classes conditions obj a b i :
  is_non_empty (get obj "surface_a") = true → is_non_empty (get obj "surface_b") = true →
  is_non_empty (get obj "interaction_type") = true →
  string_or_null (get obj "surface_a") = a → string_or_null (get obj "surface_b") = b →
  string_or_null (get obj "interaction_type") = i →
  buildSurfaceGraphEdge (buildResult r classes conditions obj)
  = edge_form a b i (JStr (coordination_str r))
      (JStr (computeInterSurfaceCoordinationHash (JObj (result_fields r classes conditions obj)))).
Proof.
  intros Ha Hb Hi Ea Eb Ei. set (v := buildResult r classes conditions obj).
  unfold buildSurfaceGraphEdge. change (safeObj v) with v. unfold v at 1. rewrite result_no_violation.
  change (get v "surface_a") with (string_or_null (get obj "surface_a")).
  change (get v "surface_b") with (string_or_null (get obj "surface_b")).
  change (get v "interaction_type") with (string_or_null (get obj "interaction_type")).
  change (get v "coordination_result") with (JStr (coordination_str r)).
  change (get v "coordination_hash") with
    (JStr (computeInterSurfaceCoordinationHash (JObj (result_fields r classes conditions obj)))).
  rewrite Ea, Eb, Ei.
  assert (is_non_empty a = true ∧ is_non_empty b = true ∧ is_non_empty i = true) as (-> & -> & ->).
  { subst a b i. by destruct (get obj "surface_a"), (get obj "surface_b"), (get obj "interaction_type"). }
  assert (is_non_empty (JStr (coordination_str r)) = true) as -> by (by destruct r).
  set (h := computeInterSurfaceCoordinationHash _).
  assert (valid_sha256 h = true) as Hv by apply hash_valid_sha256.
  assert (is_non_empty (JStr h) = true) as -> by (by destruct h).
  change (isValidSha256 (JStr h)) with (valid_sha256 h). rewrite Hv.
  assert (str_in (str_or_empty (JStr (coordination_str r))) KNOWN_RESULTS = true) as -> by (by destruct r).
  reflexivity.
Qed.

Lemma well_posed_fields input :
  well_posed input →
  is_non_empty (get (safeObj input) "surface_a") = true
  ∧ is_non_empty (get (safeObj input) "surface_b") = true
  ∧ is_non_empty (get (safeObj input) "interaction_type") = true.
Proof.
  intros [_ Ha Hb Hi]. rewrite !get_safeObj. destruct known_no_empty as [Hs Ht].
  apply (known_value _ _ Hs) in Ha as [-> _], Hb as [-> _].
  by apply (known_value _ _ Ht) in Hi as [-> _].
Qed.

Lemma posed_edge_accepted r classes conditions input :
  well_posed input → r ≠ COORDINATION_NULL →
  accepted r (buildSurfaceGraphEdge (buildResult r classes conditions (safeObj input))).
Proof.
  intros Hw Hr. destruct (well_posed_fields _ Hw) as (Ha & Hb & Hi).
  rewrite (built_result_edge r classes conditions (safeObj input) _ _ _ Ha Hb Hi eq_refl eq_refl eq_refl).
  split; [|done]. apply edge_form_accepted.
  - by destruct (get (safeObj input) "surface_a").
  - by destruct (get (safeObj input) "surface_b").
  - by destruct (get (safeObj input) "interaction_type").
  - by destruct r.
  - by destruct r.
  - apply hash_valid_sha256.
Qed.

Lemma null_edge_unusable input : ¬ well_posed input → ¬ usable (coordinated_edge input).
Proof.
  intros Hn Hu. assert (coordinates (coordinated_edge input) COORDINATION_NULL) as Hc.
  { unfold coordinated_edge, evaluateInterSurfaceCoordination.
    destruct (coordination_fault input) as [c|] eqn:Hf; [|by apply fault_none in Hf].
    set (v := buildResult _ _ _ _). unfold buildSurfaceGraphEdge. change (safeObj v) with v.
    unfold v at 1. rewrite result_no_violation. destruct (_ || _ || _ || _ || _); [done|].
    destruct (negb _); [done|]. by destruct (negb _). }
  assert (∃ ps, coordinated_edge input = JObj ps) as [ps E].
  { unfold coordinated_edge, buildSurfaceGraphEdge. destruct (detectBoundaryViolation _); [eauto|].
    destruct (_ || _ || _ || _ || _); [eauto|]. destruct (negb _); [eauto|]. destruct (negb _); eauto. }
  unfold usable, accepted in Hu. rewrite E in Hu, Hc. cbn [safeObj is_record] in Hu.
  unfold coordinates in *. rewrite Hc in Hu. by destruct Hu as [[_ ?]|[_ ?]].
Qed.

Lemma coordinated_edge_accepted input :
  well_posed input →
  (requirements_met input → accepted COORDINATION_ALLOWED (coordinated_edge input))
  ∧ (¬ requirements_met input → accepted COORDINATION_FORBIDDEN (coordinated_edge input)).
Proof.
  intros Hw. unfold coordinated_edge, evaluateInterSurfaceCoordination.
  pose proof Hw as Hf. apply fault_none in Hf. rewrite Hf.
  destruct (unmet (safeObj input)) as [|u us] eqn:Hu.
  - split; [by intros _; apply posed_edge_accepted|]. intros H. destruct H. by apply unmet_none.
  - split; [|by intros _; apply posed_edge_accepted]. intros H%unmet_none. congruence.
Qed.

Lemma accepted_once r r' e : accepted r e → accepted r' e → r = r'.
Proof.
  intros [_ H1] [_ H2]. unfold coordinates in *. rewrite H1 in H2.
  injection H2 as H2. by apply coordination_str_inj.
Qed.

Lemma coordinated_edge_iff input :
  (usable (coordinated_edge input) ↔ well_posed input)
  ∧ (accepted COORDINATION_ALLOWED (coordinated_edge input) ↔ well_posed input ∧ requirements_met input)
  ∧ (accepted COORDINATION_FORBIDDEN (coordinated_edge input) ↔
       well_posed input ∧ ¬ requirements_met input).
Proof.
  assert (well_posed input ∨ ¬ well_posed input) as [Hw|Hn].
  { destruct (coordination_fault input) eqn:E; [right; intros H%fault_none; congruence|].
    left. by apply fault_none. }
  - destruct (coordinated_edge_accepted input Hw) as [HA HF].
    assert (requirements_met input ∨ ¬ requirements_met input) as [Hm|Hm].
    { destruct (unmet (safeObj input)) eqn:E; [left; by apply unmet_none|].
      right. intros H%unmet_none. congruence. }
    + pose proof (HA Hm) as Hacc. split_and!.
      * split; [done|]. by left.
      * done.
      * split; [|naive_solver]. intros Hf. by pose proof (accepted_once _ _ _ Hacc Hf).
    + pose proof (HF Hm) as Hacc. split_and!.
      * split; [done|]. by right.
      * split; [|naive_solver]. intros Hf. by pose proof (accepted_once _ _ _ Hacc Hf).
      * done.
  - pose proof (null_edge_unusable input Hn) as Hu. unfold usable in Hu. unfold usable. naive_solver.
Qed.

(** From pairs to the graph. The graph of the coordinations of a list of
    surface pairs is reconciled exactly when there is a pair, every pair is well
    posed and meets its requirements; drift is detected exactly when every pair is
    well posed and some pair does not meet them; otherwise the result is NULL. *)
Theorem coordination_composes inputs :
  let out := reconcileSurfaceGraph (JArr (map coordinated_edge inputs)) in
  (graph_result out GRAPH_RECONCILED ↔
     inputs ≠ [] ∧ ∀ i, i ∈ inputs → well_posed i ∧ requirements_met i)
  ∧ (graph_result out GRAPH_DRIFT_DETECTED ↔
     (∀ i, i ∈ inputs → well_posed i) ∧ ∃ i, i ∈ inputs ∧ ¬ requirements_met i)
  ∧ (graph_result out GRAPH_NULL ↔ inputs = [] ∨ ¬ ∀ i, i ∈ inputs → well_posed i).
Proof.
  cbv zeta.
  assert (∀ P Q : jsval → Prop, (∀ i, P (coordinated_edge i) ↔ Q i) →
    (Forall P (map coordinated_edge inputs) ↔ ∀ i, i ∈ inputs → Q i)) as HF.
  { intros P Q HPQ. rewrite Forall_fmap, Forall_forall. unfold compose. by setoid_rewrite HPQ. }
  assert (map coordinated_edge inputs = [] ↔ inputs = []) as Hnil by (by destruct inputs).
  pose proof (HF usable well_posed (λ i, proj1 (coordinated_edge_iff i))) as HU.
  pose proof (HF (accepted COORDINATION_ALLOWED) (λ i, well_posed i ∧ requirements_met i)
    (λ i, proj1 (proj2 (coordinated_edge_iff i)))) as HA.
  destruct (graph_iff_helper (map coordinated_edge inputs)) as (-> & -> & ->).
  rewrite HA, HU, Hnil. split; [done|]. split; [|done].
  rewrite Exists_fmap, Exists_exists. unfold compose. split.
  - intros [Hw (i & Hi & Hf)]. split; [done|]. exists i. split; [done|].
    by apply coordinated_edge_iff in Hf as [_ ?].
  - intros [Hw (i & Hi & Hm)]. split; [done|]. exists i. split; [done|].
    apply coordinated_edge_iff. auto.
Qed.

(** * Theorems: telemetry *)
Lemma usable_no_violation e : usable e → detectBoundaryViolation (safeObj e) = None.
Proof.
  intros Hu. assert (edge_rejection (safeObj e) = None) as Hr by (by destruct Hu as [[? _]|[? _]]).
  unfold edge_rejection in Hr. by destruct (detectBoundaryViolation (safeObj e)).
Qed.

Lemma first_class_none checks obj :
  first_class checks obj = None → Forall (λ pc, pc.1 obj = false) checks.
Proof.
  induction checks as [|[p c] l IH]; [constructor|]. cbn. destruct (p obj) eqn:E; [done|].
  intros H. constructor; [done|]. by apply IH.
Qed.

Lemma count_edges_zero p l :
  (∀ e, e ∈ l → p (safeObj e) = false) → count_edges p (JArr l) = jint 0.
Proof.
  intros H. unfold count_edges. cbn [array_items].
  assert (List.filter (λ e, p (safeObj e)) l = []) as ->; [|done].
  induction l as [|e l IH]; cbn; [done|]. rewrite H by left. apply IH. intros x Hx. apply H. by right.
Qed.

(** The telemetry of a graph whose edges are all accepted counts its edges,
    those that allow and those that forbid, and reports drift exactly when one
    forbids; it never reports a violation. *)
Theorem telemetry_counts l :
  l ≠ [] → Forall usable l →
  readCoordinationTelemetry (reconcileSurfaceGraph (JArr l)) (JArr l) =
  let count n := jint (Z.of_nat n) in
  [("coordination_allowed_total", count (length (List.filter (λ e, negb (forbids e)) l)));
   ("coordination_forbidden_total", count (length (List.filter forbids l)));
   ("coordination_null_total", jint 0); ("surface_graph_edge_total", count (length l));
   ("surface_graph_reconciliation_total", jint 1);
   ("surface_graph_drift_total", jint (one_if (existsb forbids l)));
   ("implicit_sync_rejected_total", jint 0); ("coordination_boundary_violation_total", jint 0)].
Proof.
  intros Hne Hl. unfold readCoordinationTelemetry.
  assert (∀ e, e ∈ l → Forall (λ pc, pc.1 (safeObj e) = false) GRAPH_BOUNDARY) as Hb.
  { intros e He. apply first_class_none, usable_no_violation. by eapply Forall_forall. }
  rewrite !count_edges_zero.
  2: { intros e He. specialize (Hb e He). unfold GRAPH_BOUNDARY in Hb.
    repeat apply Forall_cons in Hb as [? Hb]. cbn in *. unfold has_any, GRAPH_VIOLATION_KEYS in *. cbn in *.
    repeat match goal with H : _ || _ = false |- _ => apply orb_false_iff in H as [? ?] end.
    repeat match goal with H : _ = false |- _ => rewrite H; clear H end. done. }
  2: { intros e He. specialize (Hb e He). by apply Forall_cons in Hb as [? _]. }
  pose proof (reconcile_result l Hne Hl) as Hres.
  assert (∃ c k s h d, reconcileSurfaceGraph (JArr l) = buildReconciliationOutput d c (length l)
      (length (List.filter (λ e, negb (forbids e)) l)) (length (List.filter forbids l)) k s h ∧ k = 0)
    as (c & k & s & h & d & E & ->).
  { destruct l as [|e l']; [done|].
    change (reconcileSurfaceGraph (JArr (e :: l'))) with (reconcile_from no_edges (e :: l')).
    rewrite reconcile_from_usable by done. unfold finish_scan.
    destruct (fold_scan (e :: l') no_edges) as (_ & -> & -> & ->). repeat eexists. }
  rewrite E in *. set (out := buildReconciliationOutput _ _ _ _ _ _ _ _) in *.
  change (safeObj out) with out.
  change (get out "artifact") with (JStr "SURFACE_GRAPH_RECONCILIATION").
  rewrite bool_decide_eq_true_2 by done.
  change (get out "reconciliation_result") with (JStr (graph_str d)).
  pose proof (proj1 (Hres d) (proj2 (output_graph_result _ _ _ _ _ _ _ _ d) eq_refl)) as ->.
  assert (bool_decide (JStr (graph_str (if existsb forbids l then GRAPH_DRIFT_DETECTED else GRAPH_RECONCILED))
    = JStr (graph_str GRAPH_DRIFT_DETECTED)) = existsb forbids l) as ->.
  { by destruct (existsb forbids l). }
  reflexivity.
Qed.

(** * What a reconciled graph does not certify *)

(** The coordination behind an edge is not looked at. For any three texts
    and any text of 64 hexadecimal digits there is an edge that claims an allowed
    coordination, and a graph of it is reconciled: neither the surfaces nor the
    coordination it names need exist. *)
Theorem forged_edge_reconciled a b i h :
  a ≠ EmptyString → b ≠ EmptyString → i ≠ EmptyString → valid_sha256 h = true →
  let edge := buildSurfaceGraphEdge (JObj [("surface_a", JStr a); ("surface_b", JStr b);
    ("interaction_type", JStr i); ("coordination_result", JStr "COORDINATION_ALLOWED");
    ("coordination_hash", JStr h)]) in
  graph_result (reconcileSurfaceGraph (JArr [edge])) GRAPH_RECONCILED.
Proof.
  intros Ha Hb Hi Hh. cbv zeta. set (edge := buildSurfaceGraphEdge _).
  assert (edge = edge_form (JStr a) (JStr b) (JStr i) (JStr "COORDINATION_ALLOWED") (JStr h)) as ->.
  { unfold edge, buildSurfaceGraphEdge. set (v := JObj _).
    change (safeObj v) with v. change (detectBoundaryViolation v) with (@None string).
    change (get v "surface_a") with (JStr a). change (get v "surface_b") with (JStr b).
    change (get v "interaction_type") with (JStr i). change (get v "coordination_hash") with (JStr h).
    change (isValidSha256 (JStr h)) with (valid_sha256 h). rewrite Hh.
    by destruct a, b, i, h. }
  apply (graph_iff_helper [_]). split; [done|]. constructor; [|constructor]. split; [|done].
  apply edge_form_accepted; [by destruct a|by destruct b|by destruct i|done|done|exact Hh].
Qed.

(** * Witnesses *)
Definition fixture_pair (a b : string) (proof : bool) : jsval :=
  JObj [("surface_a", JStr a); ("surface_b", JStr b); ("interaction_type", JStr "triggers");
        ("requires_proof", JBool true); ("proof_present", JBool proof)].

Lemma fixture_posed a b proof :
  a ∈ KNOWN_SURFACES → b ∈ KNOWN_SURFACES → well_posed (fixture_pair a b proof).
Proof.
  intros Ha Hb. split; [done|by exists a|by exists b|]. exists "triggers". split; [done|left].
Qed.

Lemma fixture_usable b proof : b ∈ KNOWN_SURFACES → usable (coordinated_edge (fixture_pair "deploy" b proof)).
Proof. intros Hb. apply coordinated_edge_iff, fixture_posed; [left|done]. Qed.

Lemma fixture_graph_usable :
  Forall usable [coordinated_edge (fixture_pair "deploy" "proof" true);
    coordinated_edge (fixture_pair "deploy" "rollback" false)].
Proof.
  apply Forall_cons_2; [apply fixture_usable; right; right; left|].
  apply Forall_cons_2; [apply fixture_usable; right; left|apply Forall_nil_2].
Qed.

Lemma graph_order_independent_witness :
  reconcileSurfaceGraph (JArr [coordinated_edge (fixture_pair "deploy" "proof" true);
    coordinated_edge (fixture_pair "deploy" "rollback" false)])
  = reconcileSurfaceGraph (JArr [coordinated_edge (fixture_pair "deploy" "rollback" false);
    coordinated_edge (fixture_pair "deploy" "proof" true)]).
Proof. apply graph_order_independent; [apply perm_swap|exact fixture_graph_usable]. Defined.

Lemma telemetry_counts_witness :
  assoc "surface_graph_edge_total" (readCoordinationTelemetry
    (reconcileSurfaceGraph (JArr [coordinated_edge (fixture_pair "deploy" "proof" true);
      coordinated_edge (fixture_pair "deploy" "rollback" false)]))
    (JArr [coordinated_edge (fixture_pair "deploy" "proof" true);
      coordinated_edge (fixture_pair "deploy" "rollback" false)])) = Some (jint 2).
Proof. rewrite telemetry_counts; [reflexivity|discriminate|exact fixture_graph_usable]. Defined.

Definition fixture_edge (result : string) : jsval :=
  JObj [("surface_a", JStr "x"); ("surface_b", JStr "y"); ("interaction_type", JStr "z");
    ("coordination_result", JStr result); ("coordination_hash", fixture_surface)].

Lemma forged_edge_reconciled_witness :
  graph_result (reconcileSurfaceGraph
    (JArr [buildSurfaceGraphEdge (fixture_edge "COORDINATION_ALLOWED")])) GRAPH_RECONCILED.
Proof.
  apply (forged_edge_reconciled "x" "y" "z"
    "0000000000000000000000000000000000000000000000000000000000000000"); (discriminate || reflexivity).
Defined.

Lemma built_edge_accepted_witness :
  edge_rejection (buildSurfaceGraphEdge (fixture_edge "COORDINATION_FORBIDDEN")) = None.
Proof.
  refine (proj2 (proj2 (built_edge_accepted (fixture_edge "COORDINATION_FORBIDDEN") _)) _); discriminate.
Defined.
