(* ===== verification/AgentReview.v ===== *)
(** Authority review of the agent gateway: [src/lib/authority-review.ts].

    A review artifact is indexed by its decision, as the source's union of two
    types is told apart by it: only an approved one forms an ATAO. *)
From Stdlib Require Import ZArith NArith Lia Ascii.
From stdpp Require Import base list strings.
From S2P Require Import Prelude JsValue Sha256 Canonical AgentToolGateway.

(** * Data *)

(** What a review needs of a proposal; [framework] is always ["langchain"]. *)
Record GatewayProposalLineage := mkLineage {
  gp_proposal_id : string;
  gp_cip_id : string;
  gp_observation_id : string;
  gp_observation_hash : string;
  gp_agent_id : string;
  gp_session_id : string;
  gp_tool_name : string;
  gp_tool_system : string;
  gp_risk_class : string;
  gp_intent : string;
  gp_scope : jsval;
  gp_constraints : jsval;
  gp_requires_authority_binding : bool
}.

Inductive AuthorityReviewDecision := APPROVED | REJECTED.

Definition decision_str (d : AuthorityReviewDecision) : string :=
  match d with APPROVED => "APPROVED" | REJECTED => "REJECTED" end.

Record AuthorityReviewArtifact (d : AuthorityReviewDecision) := mkArtifact {
  ra_review_id : string;
  ra_proposal_id : string;
  ra_observation_id : string;
  ra_observation_hash : string;
  ra_reviewer_id : string;
  ra_review_rationale : string;
  ra_created_at : string
}.
Arguments mkArtifact {d}.
Arguments ra_review_id {d} _.
Arguments ra_proposal_id {d} _.
Arguments ra_observation_id {d} _.
Arguments ra_observation_hash {d} _.
Arguments ra_reviewer_id {d} _.
Arguments ra_review_rationale {d} _.
Arguments ra_created_at {d} _.

(** [creates_atao: true] in one type of the union and [false] in the other. *)
Definition creates_atao {d} (_ : AuthorityReviewArtifact d) : bool :=
  match d with APPROVED => true | REJECTED => false end.

Record AgentToolATAO := mkAtao {
  aa_atao_id : string;
  aa_agent_id : string;
  aa_session_id : string;
  aa_tool_name : string;
  aa_tool_system : string;
  aa_risk_class : string;
  aa_intent : string;
  aa_scope : jsval;
  aa_constraints : jsval;
  aa_created_at : string;
  aa_review_id : string;
  aa_proposal_id : string;
  aa_observation_id : string;
  aa_observation_hash : string
}.

Inductive AuthorityReviewOutcome :=
  | ReviewApproved (review : AuthorityReviewArtifact APPROVED) (atao : AgentToolATAO)
  | ReviewRejected (review : AuthorityReviewArtifact REJECTED)
  | ReviewNull (reason : string).

(** * Operations *)
Definition review_id_of (proposal_id reviewer_id created_at : string) : string :=
  "authority-review:" +:+ proposal_id +:+ ":" +:+ reviewer_id +:+ ":" +:+ created_at.

Definition formAuthorityReviewArtifact (proposal : GatewayProposalLineage) (reviewer_id : string)
    (review_decision : AuthorityReviewDecision) (review_rationale created_at : string) :
    AuthorityReviewArtifact review_decision :=
  mkArtifact (review_id_of (gp_proposal_id proposal) reviewer_id created_at)
    (gp_proposal_id proposal) (gp_observation_id proposal) (gp_observation_hash proposal)
    reviewer_id review_rationale created_at.

Definition atao_id_of (review_id proposal_id : string) : string :=
  "atao:" +:+ review_id +:+ ":" +:+ proposal_id.

Definition formAgentToolATAO (review : AuthorityReviewArtifact APPROVED)
    (proposal : GatewayProposalLineage) : AgentToolATAO :=
  mkAtao (atao_id_of (ra_review_id review) (gp_proposal_id proposal))
    (gp_agent_id proposal) (gp_session_id proposal) (gp_tool_name proposal)
    (gp_tool_system proposal) (gp_risk_class proposal) (gp_intent proposal)
    (spread (gp_scope proposal)) (spread (gp_constraints proposal)) (ra_created_at review)
    (ra_review_id review) (gp_proposal_id proposal) (gp_observation_id proposal)
    (gp_observation_hash proposal).

(** [permitted_reviewer_ids] that is not given is the empty list. *)
Definition permitted (permitted_reviewer_ids : list string) (reviewer_id : string) : bool :=
  match permitted_reviewer_ids with
  | [] => true
  | _ => str_in reviewer_id permitted_reviewer_ids
  end.

Definition parse_decision (s : string) : option AuthorityReviewDecision :=
  if String.eqb s "APPROVED" then Some APPROVED
  else if String.eqb s "REJECTED" then Some REJECTED else None.

Definition lineage_complete (proposal : GatewayProposalLineage) : bool :=
  negb (is_empty_str (gp_proposal_id proposal) || is_empty_str (gp_observation_id proposal)
    || is_empty_str (gp_observation_hash proposal)).

Definition conductAuthorityReview (proposal : GatewayProposalLineage)
    (reviewer_id review_decision review_rationale timestamp : string)
    (permitted_reviewer_ids : list string) : AuthorityReviewOutcome :=
  if is_empty_str reviewer_id then ReviewNull "missing_reviewer_id"
  else if negb (permitted permitted_reviewer_ids reviewer_id)
  then ReviewNull "unauthorized_reviewer_id"
  else if is_empty_str review_rationale then ReviewNull "missing_review_rationale"
  else
    match parse_decision review_decision with
    | None => ReviewNull "invalid_review_decision"
    | Some d =>
        if negb (lineage_complete proposal) then ReviewNull "invalid_proposal_lineage"
        else
          match d with
          | APPROVED =>
              let review :=
                formAuthorityReviewArtifact proposal reviewer_id APPROVED review_rationale timestamp in
              ReviewApproved review (formAgentToolATAO review proposal)
          | REJECTED =>
              ReviewRejected
                (formAuthorityReviewArtifact proposal reviewer_id REJECTED review_rationale timestamp)
          end
    end.

(** * Theorems *)

(** What a review may decide on. *)
Definition reviewable (proposal : GatewayProposalLineage) (reviewer_id review_rationale : string)
    (permitted_reviewer_ids : list string) : Prop :=
  reviewer_id ≠ EmptyString
  ∧ (permitted_reviewer_ids = [] ∨ reviewer_id ∈ permitted_reviewer_ids)
  ∧ review_rationale ≠ EmptyString
  ∧ gp_proposal_id proposal ≠ EmptyString ∧ gp_observation_id proposal ≠ EmptyString
  ∧ gp_observation_hash proposal ≠ EmptyString.

Lemma permitted_iff ids r : permitted ids r = true ↔ ids = [] ∨ r ∈ ids.
Proof.
  unfold permitted. destruct ids as [|i ids]; [naive_solver|].
  rewrite str_in_elem. split; [auto|]. by intros [?|?].
Qed.

Lemma lineage_complete_iff p :
  lineage_complete p = true ↔
  gp_proposal_id p ≠ EmptyString ∧ gp_observation_id p ≠ EmptyString
  ∧ gp_observation_hash p ≠ EmptyString.
Proof.
  unfold lineage_complete. rewrite negb_true_iff, !orb_false_iff, !is_empty_str_false. tauto.
Qed.

Lemma parse_decision_iff s d : parse_decision s = Some d ↔ s = decision_str d.
Proof.
  unfold parse_decision. destruct (String.eqb_spec s "APPROVED") as [->|Ha].
  - destruct d; [done|]. split; discriminate.
  - destruct (String.eqb_spec s "REJECTED") as [->|Hr]; destruct d; simpl; split; congruence.
Qed.

(** The decision a review comes to, with its artifact. *)
Lemma conduct_decided p r s why t ids d :
  reviewable p r why ids → s = decision_str d →
  conductAuthorityReview p r s why t ids =
    match d with
    | APPROVED =>
        let review := formAuthorityReviewArtifact p r APPROVED why t in
        ReviewApproved review (formAgentToolATAO review p)
    | REJECTED => ReviewRejected (formAuthorityReviewArtifact p r REJECTED why t)
    end.
Proof.
  intros (Hr & Hp%permitted_iff & Hw & Hl%lineage_complete_iff) Hs%parse_decision_iff.
  apply is_empty_str_false in Hr, Hw. unfold conductAuthorityReview.
  by rewrite Hr, Hp, Hw, Hs, Hl.
Qed.

Lemma conduct_reviewable p r s why t ids :
  (∀ reason, conductAuthorityReview p r s why t ids ≠ ReviewNull reason) →
  reviewable p r why ids ∧ ∃ d, s = decision_str d.
Proof.
  unfold conductAuthorityReview. intros H.
  destruct (is_empty_str r) eqn:Er; [by destruct (H _ eq_refl)|].
  destruct (permitted ids r) eqn:Ep; [|by destruct (H _ eq_refl)].
  destruct (is_empty_str why) eqn:Ew; [by destruct (H _ eq_refl)|].
  destruct (parse_decision s) as [d|] eqn:Ed; [|by destruct (H _ eq_refl)].
  destruct (lineage_complete p) eqn:El; [|by destruct (H _ eq_refl)].
  apply is_empty_str_false in Er, Ew. apply permitted_iff in Ep. apply lineage_complete_iff in El.
  split; [unfold reviewable; tauto|]. exists d. by apply parse_decision_iff.
Qed.

(** A review approves exactly when a reviewer who may review names a reason and
    decides [APPROVED] on a proposal with its lineage; the ATAO it then forms is
    the proposal's own, under the review's identifier. It rejects under the same
    conditions with the other decision, and no ATAO exists otherwise. *)
Theorem review_iff p r s why t ids :
  (∀ review atao, conductAuthorityReview p r s why t ids = ReviewApproved review atao ↔
     reviewable p r why ids ∧ s = "APPROVED"
     ∧ review = formAuthorityReviewArtifact p r APPROVED why t
     ∧ atao = formAgentToolATAO review p)
  ∧ (∀ review, conductAuthorityReview p r s why t ids = ReviewRejected review ↔
     reviewable p r why ids ∧ s = "REJECTED"
     ∧ review = formAuthorityReviewArtifact p r REJECTED why t)
  ∧ ((∃ reason, conductAuthorityReview p r s why t ids = ReviewNull reason) ↔
     ¬ (reviewable p r why ids ∧ ∃ d, s = decision_str d)).
Proof.
  assert (∀ o, conductAuthorityReview p r s why t ids = o →
    match o with ReviewNull _ => False | _ => True end →
    reviewable p r why ids ∧ ∃ d, s = decision_str d) as Hok.
  { intros o E Ho. apply (conduct_reviewable p r s why t ids). intros reason Hn.
    rewrite <- E, Hn in Ho. done. }
  split; [|split].
  - intros review atao. split.
    + intros E. destruct (Hok _ E I) as [Hr [d Hd]].
      rewrite (conduct_decided _ _ _ _ _ _ d Hr Hd) in E. destruct d; [|done].
      injection E as <- <-. done.
    + intros (Hr & Hs & -> & ->). by rewrite (conduct_decided _ _ _ _ _ _ APPROVED Hr Hs).
  - intros review. split.
    + intros E. destruct (Hok _ E I) as [Hr [d Hd]].
      rewrite (conduct_decided _ _ _ _ _ _ d Hr Hd) in E. destruct d; [done|].
      injection E as <-. done.
    + intros (Hr & Hs & ->). by rewrite (conduct_decided _ _ _ _ _ _ REJECTED Hr Hs).
  - split.
    + intros [reason E] [Hr [d Hd]]. rewrite (conduct_decided _ _ _ _ _ _ d Hr Hd) in E.
      by destruct d.
    + intros Hn. destruct (conductAuthorityReview p r s why t ids) as [review atao|review|reason] eqn:E;
        [destruct Hn; exact (Hok _ eq_refl I)..|eauto].
Qed.

(** The texts of an identifier are not told apart by its colons: two reviewers of
    two proposals may share one. *)
Lemma review_id_ambiguous p x r t :
  review_id_of p (x +:+ ":" +:+ r) t = review_id_of (p +:+ ":" +:+ x) r t.
Proof. unfold review_id_of. by rewrite !str_app_assoc. Qed.
