(* ===== verification/AgentGatewayTables.v ===== *)
(** The agent gateway's tables, kept beside the worker's, and the SQL statements of
    its routes in [src/index.ts].

    The five tables are append-only: their triggers refuse updates and deletions,
    and every insert is [INSERT OR IGNORE], which leaves the table as it is when a
    key or a [CHECK] forbids the row. A statement on the worker's own tables is
    performed on them ([on_worker]). *)
From Stdlib Require Import ZArith NArith Lia Ascii.
From stdpp Require Import base list strings.
From S2P Require Import Prelude JsValue Effects WorkerValues WorkerTables WorkerSql.

(** * Rows *)
Record ObservationRow := mkObservation {
  go_id : string;
  go_hash : string;
  go_agent : string;
  go_session : string;
  go_tool_name : string;
  go_tool_system : string;
  go_risk_class : string;
  go_tool_input : string;
  go_created_at : string
}.

(** [proposal_status] is always ["PENDING_AUTHORITY_REVIEW"]. *)
Record ProposalRow := mkProposal {
  pr_id : string;
  pr_cip : string;
  pr_observation : string;
  pr_observation_hash : string;
  pr_agent : string;
  pr_session : string;
  pr_tool_name : string;
  pr_tool_system : string;
  pr_risk_class : string;
  pr_intent : string;
  pr_scope : string;
  pr_constraints : string;
  pr_requires_authority_binding : bool;
  pr_created_at : string
}.

Record ReviewRow := mkReviewRow {
  rv_id : string;
  rv_proposal : string;
  rv_observation : string;
  rv_observation_hash : string;
  rv_agent : string;
  rv_session : string;
  rv_tool_name : string;
  rv_tool_system : string;
  rv_risk_class : string;
  rv_reviewer : string;
  rv_decision : string;
  rv_rationale : string;
  rv_creates_atao : bool;
  rv_created_at : string
}.

(** [atao_status] is always ["FORMED"], [framework] always ["langchain"]. *)
Record FormedAtaoRow := mkFormedAtao {
  fa_id : string;
  fa_review : string;
  fa_proposal : string;
  fa_observation : string;
  fa_observation_hash : string;
  fa_agent : string;
  fa_session : string;
  fa_tool_name : string;
  fa_tool_system : string;
  fa_risk_class : string;
  fa_intent : string;
  fa_scope : string;
  fa_constraints : string;
  fa_created_at : string
}.

#[export] Instance ReviewRow_eq_dec : EqDecision ReviewRow.
Proof. solve_decision. Defined.
#[export] Instance FormedAtaoRow_eq_dec : EqDecision FormedAtaoRow.
Proof. solve_decision. Defined.

(** [status] is always ["PROVEN"]. *)
Record ToolInvocationRow := mkToolInvocation {
  ti_id : string;
  ti_atao_hash : string;
  ti_decision : string;
  ti_hash : string;
  ti_nonce : string;
  ti_execution : string;
  ti_proof : string;
  ti_created_at : string
}.

Record gworld := mkGateway {
  worker : world;
  observations : list ObservationRow;
  proposals : list ProposalRow;
  reviews : list ReviewRow;
  formed : list FormedAtaoRow;
  tool_invocations : list ToolInvocationRow
}.

Definition empty_gateway (now : Z) : gworld := mkGateway (empty_world now) [] [] [] [] [].

(** * Statements *)
Definition gsql (X : Type) : Type := gworld → gworld * X.

Definition perform_g (X : Type) (e : gsql X) (g : gworld) : gworld * X := e g.

Definition set_worker (s : world) (g : gworld) : gworld :=
  mkGateway s (observations g) (proposals g) (reviews g) (formed g) (tool_invocations g).

(** A statement on the worker's tables. *)
Definition on_worker {X} (e : sql X) : gsql X := λ g,
  (set_worker (e (worker g)).1 g, (e (worker g)).2).

(** A request of the worker, served beside the gateway's. *)
Fixpoint beside {A} (m : prog sql A) : prog gsql A :=
  match m with
  | Ret a => Ret a
  | Await e k => Await (on_worker e) (λ x, beside (k x))
  end.

Definition ask {X} (f : gworld → X) : gsql X := λ g, (g, f g).

Definition RISK_CLASSES : list string := ["P0"; "P1"; "P2"; "P3"].

(** ** Observations and proposals *)
Definition insert_observation (row : ObservationRow) : gsql unit := λ g,
  (mkGateway (worker g)
     (if str_in (go_risk_class row) RISK_CLASSES then
        (append_unless (λ a b, sql_eqb (go_id a) (go_id b) || sql_eqb (go_hash a) (go_hash b)) row
          (observations g)).1
      else observations g)
     (proposals g) (reviews g) (formed g) (tool_invocations g), tt).

Definition insert_proposal (row : ProposalRow) : gsql unit := λ g,
  (mkGateway (worker g) (observations g)
     (if str_in (pr_risk_class row) RISK_CLASSES then
        (append_unless (λ a b, sql_eqb (pr_id a) (pr_id b) || sql_eqb (pr_cip a) (pr_cip b)) row
          (proposals g)).1
      else proposals g)
     (reviews g) (formed g) (tool_invocations g), tt).

Definition is_proposal (id observation observation_hash : string) (r : ProposalRow) : bool :=
  sql_eqb (pr_id r) id && sql_eqb (pr_observation r) observation
  && sql_eqb (pr_observation_hash r) observation_hash.

Definition select_proposal (id observation observation_hash : string) : gsql (option ProposalRow) :=
  ask (λ g, List.find (is_proposal id observation observation_hash) (proposals g)).

(** ** Reviews and ATAOs *)
Definition insert_review (row : ReviewRow) : gsql unit := λ g,
  (mkGateway (worker g) (observations g) (proposals g)
     (if str_in (rv_risk_class row) RISK_CLASSES && str_in (rv_decision row) ["APPROVED"; "REJECTED"]
      then (append_unless (λ a b, sql_eqb (rv_id a) (rv_id b)) row (reviews g)).1
      else reviews g)
     (formed g) (tool_invocations g), tt).

Definition insert_formed (row : FormedAtaoRow) : gsql unit := λ g,
  (mkGateway (worker g) (observations g) (proposals g) (reviews g)
     (if str_in (fa_risk_class row) RISK_CLASSES then
        (append_unless (λ a b, sql_eqb (fa_id a) (fa_id b)) row (formed g)).1
      else formed g)
     (tool_invocations g), tt).

Definition select_formed (id : string) : gsql (option FormedAtaoRow) :=
  ask (λ g, List.find (λ r, sql_eqb (fa_id r) id) (formed g)).

Definition is_review (id proposal observation observation_hash : string) (r : ReviewRow) : bool :=
  sql_eqb (rv_id r) id && sql_eqb (rv_proposal r) proposal
  && sql_eqb (rv_observation r) observation && sql_eqb (rv_observation_hash r) observation_hash.

Definition select_review (id proposal observation observation_hash : string) :
    gsql (option ReviewRow) :=
  ask (λ g, List.find (is_review id proposal observation observation_hash) (reviews g)).

(** ** Tool invocations *)
Definition same_tool_invocation (a b : ToolInvocationRow) : bool :=
  sql_eqb (ti_id a) (ti_id b)
  || sql_eqb (ti_atao_hash a) (ti_atao_hash b) && sql_eqb (ti_decision a) (ti_decision b)
     && sql_eqb (ti_hash a) (ti_hash b) && sql_eqb (ti_nonce a) (ti_nonce b).

(** Whether the row was added. *)
Definition insert_tool_invocation (row : ToolInvocationRow) : gsql bool := λ g,
  let '(rows, ok) := append_unless same_tool_invocation row (tool_invocations g) in
  (mkGateway (worker g) (observations g) (proposals g) (reviews g) (formed g) rows, ok).

(** The worker's rows that [/agent/tool-call] asks for. *)
Definition select_captured (id hash session : string) : sql (option AtaoRow) :=
  select (λ s, List.find (λ r, sql_eqb (ta_id r) id && sql_eqb (ta_hash r) hash
    && sql_eqb (ta_session r) session) (ataos s)).

Definition select_open_session (id now : string) : sql (option SessionRow) :=
  select (λ s, List.find (λ r, sql_eqb (se_id r) id && sql_eqb (se_status r) "ACTIVE"
    && sql_ltb now (se_expires_at r)) (sessions s)).

Definition select_open_continuity (id session identity now : string) : sql (option ContinuityRow) :=
  select (λ s, List.find (λ c, sql_eqb (co_id c) id && sql_eqb (co_session c) session
    && sql_eqb (co_identity c) identity && sql_eqb (co_status c) "ACTIVE"
    && match co_revoked_at c with None => true | Some _ => false end
    && sql_ltb now (co_expires_at c)) (continuities s)).

Definition select_bound_authority (id decision session continuity : string) :
    sql (option AuthorityRow) :=
  select (λ s, List.find (λ a, sql_eqb (au_id a) id && sql_eqb (au_decision a) decision
    && sql_eqb (au_session a) session && sql_eqb (au_continuity a) continuity) (authorities s)).

Definition select_bound_aeo (decision authority continuity hash : string) : sql (option AeoRow) :=
  select (λ s, List.find (λ o, sql_eqb (ao_decision o) decision && sql_eqb (ao_authority o) authority
    && sql_eqb (ao_continuity o) continuity && sql_eqb (ao_hash o) hash
    && sql_eqb (ao_status o) "COMPILED") (aeos s)).

Definition select_bound_validation (decision hash nonce session continuity : string) :
    sql (option ValidationRow) :=
  select (λ s, List.find (λ v, valid_for decision hash nonce v && sql_eqb (va_session v) session
    && sql_eqb (va_continuity v) continuity) (validations s)).

Definition select_bound_execution (id decision hash nonce session continuity : string) :
    sql (option ExecutionRow) :=
  select (λ s, List.find (λ e, sql_eqb (ex_id e) id && sql_eqb (ex_decision e) decision
    && sql_eqb (ex_hash e) hash && sql_eqb (ex_nonce e) nonce && sql_eqb (ex_session e) session
    && sql_eqb (ex_continuity e) continuity && sql_eqb (ex_status e) "EXECUTED") (executions s)).

Definition select_bound_proof (id execution decision hash session continuity : string) :
    sql (option ProofRow) :=
  select (λ s, List.find (λ p, sql_eqb (pf_id p) id && sql_eqb (pf_execution p) execution
    && sql_eqb (pf_decision p) decision && sql_eqb (pf_hash p) hash
    && sql_eqb (pf_session p) session && sql_eqb (pf_continuity p) continuity) (proofs s)).
