(* ===== verification/AgentGatewayRoutes.v ===== *)
(** The agent gateway's routes of [src/index.ts]: [/gateway/tool/intercept],
    [/gateway/tool/propose], [/gateway/authority/review], [/gateway/authority/atao],
    [/gateway/tool/compile] and the boundary [/agent/tool-call].

    Every awaited statement is one step. Creating the tables is left out: it is
    idempotent and the tables are taken to exist. The templates of
    [aeo_template_registry], which no route writes, and the allowlist of
    [MERGE_ACTOR_REGISTRY.json] are parameters. *)
From Stdlib Require Import ZArith NArith Lia Ascii.
From stdpp Require Import base list strings pretty.
From S2P Require Import Prelude JsValue Sha256 Canonical Json Effects AgentToolGateway AgentReview.
From S2P Require Import WorkerValues WorkerTables WorkerSql WorkerLineage WorkerIssuance.
From S2P Require Import WorkerAuthority WorkerExecution WorkerProof AgentGatewayTables.

Local Open Scope prog_scope.

Definition INTERCEPT_ROUTE : string := "/gateway/tool/intercept".
Definition PROPOSE_ROUTE : string := "/gateway/tool/propose".
Definition REVIEW_ROUTE : string := "/gateway/authority/review".
Definition ATAO_ROUTE : string := "/gateway/authority/atao".
Definition COMPILE_ROUTE : string := "/gateway/tool/compile".
Definition INVOCATION_ROUTE : string := "/agent/tool-call".

Definition gprog (A : Type) : Type := prog gsql A.

Definition reply (fields : list (string * jsval)) : gprog response := Ret (json fields).

Definition null_fields (route reason : string) (extra : list (string * jsval)) :
    list (string * jsval) :=
  [("status", JStr "NULL"); ("result", JStr "INVALID"); ("route", JStr route);
   ("reason", JStr reason)] ++ extra.

Definition deny_g (route reason : string) (extra : list (string * jsval)) : gprog response :=
  reply (null_fields route reason extra).

(** An exception that leaves [fetch]: the platform answers. *)
Definition uncaught : response := mkResponse 500 JNull.

(** [request.json().catch(() => null)], when it is an object. *)
Definition object_body (rq : request) : option jsval :=
  match rq_body rq with
  | Some b => if is_record b || is_array b then Some b else None
  | None => None
  end.

(** A record, or the empty one. *)
Definition record_of (v : jsval) : jsval := if is_record v then v else JObj [].

Section Routes.
Context `{!Platform} (template_row : string → jsval) (permitted_reviewer_ids : list string).

Definition iso_now : gprog string :=
  let* t := await (on_worker now_ms) in Ret (to_iso t).

(** * /gateway/tool/intercept *)
Definition observation_row (b observation : jsval) (observation_hash timestamp : string) :
    ObservationRow :=
  mkObservation (text (get observation "observation_id")) observation_hash
    (text (get b "agent_id")) (text (get b "session_id")) (text (get b "tool_name"))
    (text (get observation "tool_system")) (text (get observation "risk_class"))
    (json_stringify (record_of (get b "tool_input"))) timestamp.

Definition proposal_row (b observation : jsval) (observation_hash : string) (cip proposal : jsval)
    (timestamp : string) : ProposalRow :=
  mkProposal (text (get proposal "proposal_id")) (text (get cip "cip_id"))
    (text (get observation "observation_id")) observation_hash (text (get b "agent_id"))
    (text (get b "session_id")) (text (get b "tool_name")) (text (get observation "tool_system"))
    (text (get observation "risk_class")) (text (get b "intent"))
    (json_stringify (record_of (get b "scope"))) (json_stringify (record_of (get b "constraints")))
    (truthy (get cip "requires_authority_binding")) timestamp.

Definition intercept_input (b : jsval) (timestamp : string) : jsval :=
  JObj [("agent_id", JStr (text (get b "agent_id"))); ("session_id", JStr (text (get b "session_id")));
    ("tool_name", JStr (text (get b "tool_name"))); ("tool_input", record_of (get b "tool_input"));
    ("intent", JStr (text (get b "intent"))); ("scope", record_of (get b "scope"));
    ("constraints", record_of (get b "constraints")); ("timestamp", JStr timestamp)].

Definition intercepted_answer (observation : jsval) (observation_hash : string)
    (cip proposal : jsval) : list (string * jsval) :=
  [("status", JStr "INTERCEPTED"); ("result", JStr "OK"); ("route", JStr INTERCEPT_ROUTE);
   ("non_operative", JBool true); ("creates_atao", JBool false); ("creates_aeo", JBool false);
   ("proposal_space", JStr "populated"); ("authority_space", JStr "not_populated");
   ("execution_space", JStr "not_populated");
   ("observation_id", get observation "observation_id"); ("observation_hash", JStr observation_hash);
   ("cip_id", get cip "cip_id"); ("proposal_id", get proposal "proposal_id");
   ("proposal_class", JStr "GOVERNANCE_PROPOSAL");
   ("proposal_status", JStr "PENDING_AUTHORITY_REVIEW");
   ("tool_system", get observation "tool_system"); ("risk_class", get observation "risk_class");
   ("requires_authority_binding", get cip "requires_authority_binding");
   ("framework", JStr "langchain")].

Definition handleAgentToolGatewayIntercept (rq : request) : gprog response :=
  match object_body rq with
  | None => deny_g INTERCEPT_ROUTE "malformed_request" []
  | Some b =>
      let* timestamp := iso_now in
      match interceptToolCall to_lower (intercept_input b timestamp) with
      | NotIntercepted reason =>
          deny_g INTERCEPT_ROUTE reason [("non_operative", JBool true); ("creates_atao", JBool false);
            ("creates_aeo", JBool false)]
      | INTERCEPTED observation observation_hash cip proposal =>
          let* _ := await (insert_observation
            (observation_row b observation observation_hash timestamp)) in
          let* _ := await (insert_proposal
            (proposal_row b observation observation_hash cip proposal timestamp)) in
          reply (intercepted_answer observation observation_hash cip proposal)
      end
  end.

(** * /gateway/tool/propose *)
Definition handleAgentToolGatewayPropose (rq : request) : gprog response :=
  match object_body rq with
  | None => deny_g PROPOSE_ROUTE "malformed_request" []
  | Some b =>
      let proposal_id := text (get b "proposal_id") in
      let observation_id := text (get b "observation_id") in
      let observation_hash := text (get b "observation_hash") in
      if is_empty_str proposal_id || is_empty_str observation_id || is_empty_str observation_hash
      then deny_g PROPOSE_ROUTE "missing_proposal_fields" [("non_operative", JBool true)]
      else
        let* found := await (select_proposal proposal_id observation_id observation_hash) in
        match found with
        | None => deny_g PROPOSE_ROUTE "proposal_not_found" [("non_operative", JBool true)]
        | Some p =>
            reply [("status", JStr "PROPOSED"); ("result", JStr "OK"); ("route", JStr PROPOSE_ROUTE);
              ("non_operative", JBool true); ("creates_atao", JBool false);
              ("creates_aeo", JBool false); ("proposal_id", JStr (pr_id p));
              ("proposal_class", JStr "GOVERNANCE_PROPOSAL");
              ("proposal_status", JStr "PENDING_AUTHORITY_REVIEW"); ("cip_id", JStr (pr_cip p));
              ("observation_id", JStr (pr_observation p));
              ("observation_hash", JStr (pr_observation_hash p));
              ("tool_name", JStr (pr_tool_name p)); ("tool_system", JStr (pr_tool_system p));
              ("risk_class", JStr (pr_risk_class p));
              ("requires_authority_binding", JBool (pr_requires_authority_binding p));
              ("next_step", JStr "authority_review"); ("authority_space", JStr "not_populated");
              ("execution_space", JStr "not_populated")]
        end
  end.

(** * /gateway/authority/review *)

(** [JSON.parse(String(x || "{}"))], or [{}]. *)
Definition parsed_or_empty (x : string) : jsval :=
  default (JObj []) (json_parse (stored_json x)).

Definition lineage_of_row (p : ProposalRow) : GatewayProposalLineage :=
  mkLineage (pr_id p) (pr_cip p) (pr_observation p) (pr_observation_hash p) (pr_agent p)
    (pr_session p) (pr_tool_name p) (pr_tool_system p) (pr_risk_class p) (pr_intent p)
    (parsed_or_empty (pr_scope p)) (parsed_or_empty (pr_constraints p))
    (pr_requires_authority_binding p).

(** The row of a review of [p], the request's identifiers being the row's own. *)
Definition review_row {d} (p : GatewayProposalLineage) (review : AuthorityReviewArtifact d)
    (proposal_id observation_id observation_hash reviewer_id rationale timestamp : string) :
    ReviewRow :=
  mkReviewRow (ra_review_id review) proposal_id observation_id observation_hash (gp_agent_id p)
    (gp_session_id p) (gp_tool_name p) (gp_tool_system p) (gp_risk_class p) reviewer_id
    (decision_str d) rationale (creates_atao review) timestamp.

Definition formed_row (a : AgentToolATAO) (timestamp : string) : FormedAtaoRow :=
  mkFormedAtao (aa_atao_id a) (aa_review_id a) (aa_proposal_id a) (aa_observation_id a)
    (aa_observation_hash a) (aa_agent_id a) (aa_session_id a) (aa_tool_name a) (aa_tool_system a)
    (aa_risk_class a) (aa_intent a) (json_stringify (aa_scope a))
    (json_stringify (aa_constraints a)) timestamp.

Definition approved_answer (review : AuthorityReviewArtifact APPROVED) (a : AgentToolATAO)
    (proposal_id observation_id observation_hash : string) : list (string * jsval) :=
  [("status", JStr "APPROVED"); ("result", JStr "OK"); ("route", JStr REVIEW_ROUTE);
   ("review_id", JStr (ra_review_id review)); ("review_decision", JStr "APPROVED");
   ("proposal_id", JStr proposal_id); ("observation_id", JStr observation_id);
   ("observation_hash", JStr observation_hash); ("atao_id", JStr (aa_atao_id a));
   ("atao_status", JStr "FORMED");
   ("review_lineage", JObj [("review_id", JStr (aa_review_id a));
      ("proposal_id", JStr (aa_proposal_id a)); ("observation_id", JStr (aa_observation_id a))]);
   ("tool_name", JStr (aa_tool_name a)); ("tool_system", JStr (aa_tool_system a));
   ("risk_class", JStr (aa_risk_class a))].

Definition rejected_answer (review : AuthorityReviewArtifact REJECTED)
    (proposal_id observation_id observation_hash : string) : list (string * jsval) :=
  [("status", JStr "REJECTED"); ("result", JStr "OK"); ("route", JStr REVIEW_ROUTE);
   ("review_id", JStr (ra_review_id review)); ("review_decision", JStr "REJECTED");
   ("proposal_id", JStr proposal_id); ("observation_id", JStr observation_id);
   ("observation_hash", JStr observation_hash); ("atao_id", JNull);
   ("creates_atao", JBool false)].

Definition handleAgentToolGatewayAuthorityReview (rq : request) : gprog response :=
  match object_body rq with
  | None => deny_g REVIEW_ROUTE "malformed_request" []
  | Some b =>
      let proposal_id := text (get b "proposal_id") in
      let observation_id := text (get b "observation_id") in
      let observation_hash := text (get b "observation_hash") in
      let reviewer_id := text (get b "reviewer_id") in
      let rationale := text (get b "review_rationale") in
      if is_empty_str proposal_id || is_empty_str observation_id || is_empty_str observation_hash
      then deny_g REVIEW_ROUTE "missing_proposal_fields" []
      else
        let* found := await (select_proposal proposal_id observation_id observation_hash) in
        match found with
        | None => deny_g REVIEW_ROUTE "proposal_not_found" []
        | Some row =>
            let p := lineage_of_row row in
            let* timestamp := iso_now in
            match conductAuthorityReview p reviewer_id (text (get b "review_decision")) rationale
                    timestamp permitted_reviewer_ids with
            | ReviewNull reason => deny_g REVIEW_ROUTE reason []
            | ReviewRejected review =>
                let* _ := await (insert_review (review_row p review proposal_id observation_id
                  observation_hash reviewer_id rationale timestamp)) in
                reply (rejected_answer review proposal_id observation_id observation_hash)
            | ReviewApproved review atao =>
                let* _ := await (insert_review (review_row p review proposal_id observation_id
                  observation_hash reviewer_id rationale timestamp)) in
                let* _ := await (insert_formed (formed_row atao timestamp)) in
                reply (approved_answer review atao proposal_id observation_id observation_hash)
            end
        end
  end.

(** * /gateway/authority/atao *)

(** [atao_id] is the query parameter, or the empty text. *)
Definition handleAgentToolGatewayATAO (atao_id : string) : gprog response :=
  if is_empty_str atao_id then deny_g ATAO_ROUTE "missing_atao_id" []
  else
    let* found := await (select_formed atao_id) in
    match found with
    | None => deny_g ATAO_ROUTE "atao_not_found" []
    | Some a =>
        reply [("status", JStr "FOUND"); ("result", JStr "OK"); ("route", JStr ATAO_ROUTE);
          ("atao_id", JStr (fa_id a)); ("review_id", JStr (fa_review a));
          ("proposal_id", JStr (fa_proposal a)); ("observation_id", JStr (fa_observation a));
          ("atao_status", JStr "FORMED"); ("tool_name", JStr (fa_tool_name a));
          ("tool_system", JStr (fa_tool_system a)); ("risk_class", JStr (fa_risk_class a))]
    end.

(** * /gateway/tool/compile *)
Definition gatewayCompileNull (reason : string) (extra : list (string * jsval)) : gprog response :=
  deny_g COMPILE_ROUTE reason extra.

Definition parseGatewayJsonRecord (raw : string) : jsval :=
  match json_parse raw with Some v => canonicalRecord v | None => JObj [] end.

Definition deriveGatewaySurfaceType (a : FormedAtaoRow) : option string :=
  let toolName := to_lower (fa_tool_name a) in
  let scope := parseGatewayJsonRecord (fa_scope a) in
  let constraints := parseGatewayJsonRecord (fa_constraints a) in
  let hinted := to_lower (text (js_or (get scope "surface") (js_or (get scope "operation")
    (js_or (get constraints "surface") (js_or (get constraints "operation") (JStr toolName)))))) in
  if String.eqb (fa_tool_system a) "filesystem" then
    if includes "read" hinted && negb (includes "write" hinted) then Some "filesystem_read"
    else Some "filesystem_write"
  else if String.eqb (fa_tool_system a) "shell" then Some "shell_exec"
  else if str_in (fa_tool_system a) ["github"; "http_api"] then Some "browser"
  else if String.eqb (fa_tool_system a) "ci_cd" then Some "gateway_routing"
  else if String.eqb (fa_tool_system a) "read_only" then Some "filesystem_read"
  else None.

Definition riskClassForGatewayTemplate (ataoRiskClass : string) : string :=
  let normalized := js_trim ataoRiskClass in
  if String.eqb normalized "P0" then "P0_READ_ONLY"
  else if String.eqb normalized "P1" then "P1_EXECUTION_ADJACENT"
  else if String.eqb normalized "P2" then "P2_BOUNDED_MUTATION"
  else if String.eqb normalized "P3" then "P3_EXTERNAL_MUTATION"
  else normalized.

(** The digits of [/P(\d+)/] again. *)
Definition templateRiskLevel (riskClass : string) : Z := riskLevel riskClass.

(** [canonicalRecord] never gives a falsy value, so [|| constraints] is not
    reached. *)
Definition canonicalGatewayCompileAeo (a : FormedAtaoRow) (authorityDecisionId surfaceType : string) :
    option CanonicalAEO :=
  let ataoScope := parseGatewayJsonRecord (fa_scope a) in
  let constraints := parseGatewayJsonRecord (fa_constraints a) in
  let target := js_or (canonicalRecord (get constraints "target")) constraints in
  let validation := canonicalRecord (JObj [("atao_id", JStr (fa_id a));
    ("authority_decision_id", JStr authorityDecisionId); ("require_active_authority", JBool true);
    ("require_approved_authority_review", JBool true); ("require_exact_object_hash", JBool true)]) in
  let finality := canonicalRecord (JObj [("compile_only", JBool true);
    ("execution_created", JBool false); ("proof_created", JBool false);
    ("proof_required", JBool true)]) in
  toCanonicalAeo (JObj [("intent", JStr (fa_intent a));
    ("scope", canonicalRecord (JObj (assoc_set "surface_type" (JStr surfaceType) (props ataoScope))));
    ("validation", validation); ("target", target); ("finality", finality)]).

(** The review found is an approval. *)
Definition review_approves (found : option ReviewRow) : bool :=
  match found with
  | Some r => String.eqb (rv_decision r) "APPROVED" && rv_creates_atao r
  | None => false
  end.

(** The authority's scope is the ATAO's, with the derived surface or without. *)
Definition scope_matches (authority : AuthorityRow) (a : FormedAtaoRow) (surface : string) : bool :=
  let authorityScope := parseGatewayJsonRecord (au_scope authority) in
  let ataoScope := parseGatewayJsonRecord (fa_scope a) in
  let derivedScope :=
    canonicalRecord (JObj (assoc_set "surface_type" (JStr surface) (props ataoScope))) in
  String.eqb (canonicalize authorityScope) (canonicalize ataoScope)
  || String.eqb (canonicalize authorityScope) (canonicalize derivedScope).

Definition compiled_answer (decision_id authority_id atao_id hash : string) (aeo : CanonicalAEO)
    (existing : bool) : list (string * jsval) :=
  [("status", JStr "COMPILED"); ("result", JStr "OK"); ("route", JStr COMPILE_ROUTE);
   ("decision_id", JStr decision_id); ("authority_id", JStr authority_id);
   ("atao_id", JStr atao_id); ("validated_object_hash", JStr hash); ("canonical_aeo", aeo_js aeo)]
  ++ (if existing then [("existing", JBool true)] else [])
  ++ [("executes", JBool false); ("proof_created", JBool false)].

(** The row of an object that the gateway compiles; the other columns are
    [NULL]. *)
Definition gateway_aeo_row (id authority_id decision_id canonical hash created_at : string) : AeoRow :=
  mkAeoRow id authority_id decision_id EmptyString canonical hash EmptyString "COMPILED" created_at
    EmptyString EmptyString EmptyString EmptyString EmptyString EmptyString.

(** Lines 773-790: from the object to its row. *)
Definition store_compiled (b : jsval) (authority : AuthorityRow)
    (atao_id decision_id : string) (aeo : CanonicalAEO) : gprog response :=
  let canonical := canonicalize (aeo_js aeo) in
  let hash := sha256Hex canonical in
  let expected := text (get b "validated_object_hash") in
  if negb (is_empty_str expected) && negb (String.eqb expected hash)
  then gatewayCompileNull "hash_mismatch" [("expected_hash", JStr expected);
         ("actual_hash", JStr hash)]
  else
    let* rows := await (on_worker (select_aeos decision_id)) in
    let same (r : AeoRow) := String.eqb (ao_hash r) hash && String.eqb (ao_canonical r) canonical in
    match rows with
    | _ :: _ =>
        if existsb same rows && Nat.eqb (length rows) 1
        then reply (compiled_answer decision_id (au_id authority) atao_id hash aeo true)
        else gatewayCompileNull "duplicate_compile" [("authority_decision_id", JStr decision_id);
               ("atao_id", JStr atao_id)]
    | [] =>
        let* id := await (on_worker draw) in
        let* created_at := iso_now in
        let* ok := await (on_worker (insert_aeo
          (gateway_aeo_row id (au_id authority) decision_id canonical hash created_at))) in
        if ok : bool
        then reply (compiled_answer decision_id (au_id authority) atao_id hash aeo false)
        else gatewayCompileNull "compile_exception" []
    end.

(** Lines 747-772: the authority, the surface and the object. *)
Definition compile_for_authority (b : jsval) (authority : AuthorityRow) (a : FormedAtaoRow)
    (atao_id decision_id : string) : gprog response :=
  let* nowMs := await (on_worker now_ms) in
  let both := [("authority_decision_id", JStr decision_id); ("atao_id", JStr atao_id)] in
  if negb (String.eqb (au_status authority) "ACTIVE")
     || negb (is_empty_str (au_expiry authority)) && isExpired (au_expiry authority) nowMs
  then gatewayCompileNull "authority_not_active" [("authority_decision_id", JStr decision_id)]
  else if negb (String.eqb (au_session authority) (fa_session a))
          || negb (String.eqb (au_intent authority) (fa_intent a))
  then gatewayCompileNull "authority_mismatch" both
  else
    match deriveGatewaySurfaceType a with
    | None => gatewayCompileNull "unknown_surface_type" [("atao_id", JStr atao_id)]
    | Some surface =>
        if negb (scope_matches authority a surface)
        then gatewayCompileNull "authority_mismatch" both
        else
          let* row := await (ask (λ _, template_row surface)) in
          match selectAEOTemplate json_parse (λ _, row) surface
                  (riskClassForGatewayTemplate (fa_risk_class a)) with
          | NoTemplate reason =>
              gatewayCompileNull
                (if String.eqb reason "SCHEMA_INACTIVE" then "schema_inactive"
                 else "unknown_surface_type")
                [("surface_type", JStr surface); ("aeo_template_reason", JStr reason)]
          | VALID_TEMPLATE template =>
              if (4 <=? templateRiskLevel (text (get template "risk_floor")))%Z
              then gatewayCompileNull "privileged_surface_blocked" [("surface_type", JStr surface)]
              else
                match canonicalGatewayCompileAeo a decision_id surface with
                | None => gatewayCompileNull "invalid_canonical_aeo" [("atao_id", JStr atao_id)]
                | Some aeo => store_compiled b authority atao_id decision_id aeo
                end
          end
    end.

Definition handleAgentToolGatewayCompile (rq : request) : gprog response :=
  match object_body rq with
  | None => gatewayCompileNull "malformed_request" []
  | Some b =>
      let atao_id := text (get b "atao_id") in
      let decision_id := text (get b "authority_decision_id") in
      if is_empty_str atao_id then gatewayCompileNull "missing_atao_id" []
      else if is_empty_str decision_id then gatewayCompileNull "missing_authority_decision_id" []
      else
        let* found := await (select_formed atao_id) in
        match found with
        | None => gatewayCompileNull "atao_not_found" [("atao_id", JStr atao_id)]
        | Some a =>
            let* review := await (select_review (fa_review a) (fa_proposal a) (fa_observation a)
              (fa_observation_hash a)) in
            if negb (review_approves review)
            then gatewayCompileNull "authority_review_not_approved" [("atao_id", JStr atao_id)]
            else
              let* authority := await (on_worker (select_authority decision_id)) in
              match authority with
              | None =>
                  gatewayCompileNull "authority_missing" [("authority_decision_id", JStr decision_id)]
              | Some authority => compile_for_authority b authority a atao_id decision_id
              end
        end
  end.

(** * /agent/tool-call *)
Definition agentToolInvocationNull (reason : string) (extra : list (string * jsval)) :
    gprog response :=
  deny_g INVOCATION_ROUTE reason extra.

(** The fields a mutating call must name, in the order in which they are asked. *)
Definition INVOCATION_FIELDS : list string :=
  ["atao_id"; "atao_hash"; "session_id"; "continuity_id"; "authority_id"; "decision_id";
   "validated_object_hash"; "invocation_nonce"; "execution_id"; "proof_id"].

Definition missing_field (b : jsval) : option string :=
  List.find (λ k, is_empty_str (text (get b k))) INVOCATION_FIELDS.

Definition invocation_target (b : jsval) : jsval :=
  canonicalRecord (if is_record (get b "target") then get b "target" else
    JObj [("tool_surface", get b "tool_surface"); ("execution_surface", get b "execution_surface");
          ("surface", get b "surface")]).

(** The template an object's own scope asks for: [None] when there is no objection. *)
Definition template_objection (b : jsval) (aeo : CanonicalAEO) (row : jsval) :
    option (string * list (string * jsval)) :=
  let aeoScopeType := text (get (a_scope aeo) "surface_type") in
  if is_empty_str aeoScopeType then None
  else
    let claimed := text (get b "surface_type") in
    if negb (is_empty_str claimed) && negb (String.eqb claimed aeoScopeType)
    then Some ("aeo_template_surface_type_mismatch",
      [("claimed_surface_type", JStr claimed); ("aeo_surface_type", JStr aeoScopeType);
       ("aeo_template_result", JStr "NULL");
       ("aeo_template_reason", JStr "TEMPLATE_SURFACE_MISMATCH")])
    else
      let aeoRiskClass := to_string (js_or (get (a_scope aeo) "aeo_risk_class")
        (js_or (get b "aeo_risk_class") (JStr "P0_READ_ONLY"))) in
      match selectAEOTemplate json_parse (λ _, row) aeoScopeType aeoRiskClass with
      | NoTemplate reason =>
          Some ("aeo_template_" +:+ to_lower reason,
            [("surface_type", JStr aeoScopeType); ("aeo_template_result", JStr "NULL");
             ("aeo_template_reason", JStr reason)])
      | VALID_TEMPLATE _ => None
      end.

Section Invocation.
Context (b : jsval) (tool_surface : string).

Let atao_id := text (get b "atao_id").
Let atao_hash := text (get b "atao_hash").
Let session_id := text (get b "session_id").
Let continuity_id := text (get b "continuity_id").
Let authority_id := text (get b "authority_id").
Let decision_id := text (get b "decision_id").
Let object_hash := text (get b "validated_object_hash").
Let nonce := text (get b "invocation_nonce").
Let execution_id := text (get b "execution_id").
Let proof_id := text (get b "proof_id").
Let policy : string * jsval := ("policy_class", JStr "TOOL_RUNTIME_MUTATION").

Definition proven_invocation (v : ValidationRow) (e : ExecutionRow) : list (string * jsval) :=
  [("status", JStr "PROVEN"); ("result", JStr "OK"); ("route", JStr INVOCATION_ROUTE); policy;
   ("tool_surface", JStr tool_surface); ("atao_id", JStr atao_id); ("atao_hash", JStr atao_hash);
   ("session_id", JStr session_id); ("continuity_id", JStr continuity_id);
   ("authority_id", JStr authority_id); ("decision_id", JStr decision_id);
   ("validated_object_hash", JStr object_hash); ("executed_object_hash", JStr (ex_hash e));
   ("invocation_nonce", JStr nonce); ("execution_id", JStr execution_id);
   ("proof_id", JStr proof_id);
   ("validated_object_equals_executed_object", JBool (String.eqb (va_hash v) (ex_hash e)));
   ("mutation_capable", JBool true); ("read_only", JBool false); ("proof_required", JBool true);
   ("proof_present", JBool true)].

Definition tool_invocation_row (id created_at : string) : ToolInvocationRow :=
  mkToolInvocation id atao_hash decision_id object_hash nonce execution_id proof_id created_at.

(** Lines 401-436: validation, execution and proof, and the row. *)
Definition record_invocation : gprog response :=
  let subject := [policy; ("decision_id", JStr decision_id);
    ("validated_object_hash", JStr object_hash)] in
  let* validation := await (on_worker (select_bound_validation decision_id object_hash nonce
    session_id continuity_id)) in
  match validation with
  | None => agentToolInvocationNull "validation_missing" subject
  | Some v =>
      let* execution := await (on_worker (select_bound_execution execution_id decision_id
        object_hash nonce session_id continuity_id)) in
      match execution with
      | None => agentToolInvocationNull "execution_missing" subject
      | Some e =>
          if negb (String.eqb (va_hash v) (ex_hash e))
          then agentToolInvocationNull "validated_object_execution_mismatch" [policy;
                 ("validated_object", JStr (va_hash v)); ("executed_object", JStr (ex_hash e))]
          else
            let* proof := await (on_worker (select_bound_proof proof_id execution_id decision_id
              object_hash session_id continuity_id)) in
            match proof with
            | None => agentToolInvocationNull "proof_missing" [policy;
                        ("decision_id", JStr decision_id); ("execution_id", JStr execution_id);
                        ("validated_object_hash", JStr object_hash)]
            | Some _ =>
                let* id := await (on_worker draw) in
                let* created_at := iso_now in
                let* ok := await (insert_tool_invocation (tool_invocation_row id created_at)) in
                if ok : bool then reply (proven_invocation v e)
                else agentToolInvocationNull "agent_tool_invocation_replay"
                       (subject ++ [("invocation_nonce", JStr nonce)])
            end
      end
  end.

(** Lines 362-399: the compiled object, of the named continuity. *)
Definition check_compiled : gprog response :=
  let* compiled := await (on_worker (select_bound_aeo decision_id authority_id continuity_id
    object_hash)) in
  match compiled with
  | None => agentToolInvocationNull "compiled_aeo_missing" [policy;
              ("decision_id", JStr decision_id); ("validated_object_hash", JStr object_hash)]
  | Some compiled =>
      match stored_aeo (ao_canonical compiled) with
      | None => agentToolInvocationNull "compiled_aeo_hash_mismatch" [policy;
                  ("validated_object_hash", JStr object_hash); ("compiled_hash", JStr EmptyString)]
      | Some aeo =>
          if negb (String.eqb (aeo_hash aeo) object_hash)
             || negb (String.eqb (aeo_hash aeo) (ao_hash compiled))
          then agentToolInvocationNull "compiled_aeo_hash_mismatch" [policy;
                 ("validated_object_hash", JStr object_hash);
                 ("compiled_hash", JStr (aeo_hash aeo))]
          else
            let* row := await (ask (λ _, template_row (text (get (a_scope aeo) "surface_type")))) in
            match template_objection b aeo row with
            | Some (reason, extra) => agentToolInvocationNull reason (policy :: extra)
            | None => record_invocation
            end
      end
  end.

(** Lines 349-360: the ATAO, the session, the continuity and the authority. *)
Definition invoke_mutation : gprog response :=
  let* atao := await (on_worker (select_captured atao_id atao_hash session_id)) in
  match atao with
  | None => agentToolInvocationNull "atao_missing" [policy; ("atao_id", JStr atao_id)]
  | Some _ =>
      let* now := iso_now in
      let* session := await (on_worker (select_open_session session_id now)) in
      match session with
      | None => agentToolInvocationNull "invalid_session" [policy; ("session_id", JStr session_id)]
      | Some session =>
          let* now := iso_now in
          let* continuity := await (on_worker (select_open_continuity continuity_id session_id
            (se_identity session) now)) in
          match continuity with
          | None => agentToolInvocationNull "invalid_continuity" [policy;
                      ("continuity_id", JStr continuity_id)]
          | Some _ =>
              let* authority := await (on_worker (select_bound_authority authority_id decision_id
                session_id continuity_id)) in
              match authority with
              | None => agentToolInvocationNull "authority_missing" [policy;
                          ("decision_id", JStr decision_id)]
              | Some authority =>
                  if negb (str_in (au_status authority)
                             ["EXECUTED"; "CONSUMED"; "RESERVED"; "VALIDATED"])
                  then agentToolInvocationNull "authority_unusable" [policy;
                         ("authority_status", JStr (au_status authority))]
                  else check_compiled
              end
          end
      end
  end.
End Invocation.

(** [body(request)] of the text [null] has no fields to read. *)
Definition handleAgentToolInvocationBoundary (rq : request) : gprog response :=
  let b := body rq in
  if nullish b then Ret uncaught
  else
    let '(tool_surface, class) := classifyToolSurface (invocation_target b) in
    let policy_class := to_string (js_or (get b "policy_class") (JStr (policy_str class))) in
    if String.eqb policy_class "TOOL_RECONCILIATION_READONLY" then
      reply [("status", JStr "READONLY_OBSERVED"); ("result", JStr "OK");
        ("route", JStr INVOCATION_ROUTE); ("policy_class", JStr policy_class);
        ("tool_surface", JStr tool_surface); ("read_only", JBool true);
        ("evidence_only", JBool true); ("mutation_capable", JBool false);
        ("execution_authority_required", JBool false); ("runtime_mutated", JBool false);
        ("governance_state_altered", JBool false)]
    else if negb (String.eqb policy_class "TOOL_RUNTIME_MUTATION")
    then agentToolInvocationNull "policy_class_invalid" [("policy_class", JStr policy_class)]
    else
      match missing_field b with
      | Some field =>
          agentToolInvocationNull ("missing_" +:+ field) [("policy_class", JStr policy_class)]
      | None => invoke_mutation b tool_surface
      end.

(** * The router *)
Inductive gateway_request :=
  | G_intercept (rq : request)
  | G_propose (rq : request)
  | G_review (rq : request)
  | G_atao (rq : request) (atao_id : string)
  | G_compile (rq : request)
  | G_invoke (rq : request).

Definition gateway_handler (r : gateway_request) : gprog response :=
  match r with
  | G_intercept rq => handleAgentToolGatewayIntercept rq
  | G_propose rq => handleAgentToolGatewayPropose rq
  | G_review rq => handleAgentToolGatewayAuthorityReview rq
  | G_atao _ atao_id => handleAgentToolGatewayATAO atao_id
  | G_compile rq => handleAgentToolGatewayCompile rq
  | G_invoke rq => handleAgentToolInvocationBoundary rq
  end.

Definition request_of (r : gateway_request) : request :=
  match r with
  | G_intercept rq | G_propose rq | G_review rq | G_atao rq _ | G_compile rq | G_invoke rq => rq
  end.

Definition serve_gateway (api_key : string) (r : gateway_request) : gprog response :=
  if negb (authorized api_key (request_of r)) then Ret unauthorized else gateway_handler r.
End Routes.
