(* ===== verification/AgentGatewaySafety.v ===== *)
(** The agent gateway and the worker served together are safe: what the gateway's
    tables always satisfy, and that no gateway route breaks what the worker's
    tables satisfy. *)
From Stdlib Require Import ZArith NArith Lia Ascii.
From stdpp Require Import base list strings pretty.
From S2P Require Import Prelude JsValue Sha256 Canonical Json Effects AgentToolGateway AgentReview.
From S2P Require Import WorkerValues WorkerTables WorkerSql WorkerLineage WorkerIssuance.
From S2P Require Import WorkerAuthority WorkerExecution WorkerProof WorkerInvariant WorkerLawful.
From S2P Require Import WorkerSafety WorkerRun WorkerTheorems AgentGatewayTables AgentGatewayRoutes.

Local Open Scope prog_scope.

(** * Change: every table of the gateway only grows *)
Record ggrows (g g' : gworld) : Prop := mkGGrows {
  gg_worker : grows (worker g) (worker g');
  gg_observations : observations g `prefix_of` observations g';
  gg_proposals : proposals g `prefix_of` proposals g';
  gg_reviews : reviews g `prefix_of` reviews g';
  gg_formed : formed g `prefix_of` formed g';
  gg_invocations : tool_invocations g `prefix_of` tool_invocations g'
}.

#[export] Instance ggrows_preorder : PreOrder ggrows.
Proof.
  split.
  - intros g. by split.
  - intros g1 g2 g3 [] []. split; by etrans.
Qed.

(** A chain of growth hypotheses. *)
Ltac ggrow := match goal with
  | |- ggrows ?s ?s => reflexivity
  | H : ggrows ?s _ |- ggrows ?s _ => exact H
  | H : ggrows ?s _ |- ggrows ?s _ => etrans; [exact H|]; clear H; ggrow
  end.

Section Gateway.
Context {platform : Platform} (template_row : string → jsval) (reviewers : list string).

(** * What single rows say *)

(** The subject of a proposal. *)
Definition proposal_subject (p : ProposalRow) :=
  (pr_id p, pr_observation p, pr_observation_hash p, pr_agent p, pr_session p, pr_tool_name p,
   pr_tool_system p, pr_risk_class p).

Definition review_subject (r : ReviewRow) :=
  (rv_proposal r, rv_observation r, rv_observation_hash r, rv_agent r, rv_session r,
   rv_tool_name r, rv_tool_system r, rv_risk_class r).

Definition formed_subject (a : FormedAtaoRow) :=
  (fa_proposal a, fa_observation a, fa_observation_hash a, fa_agent a, fa_session a,
   fa_tool_name a, fa_tool_system a, fa_risk_class a).

(** The stored text of a record, read and written again. *)
Definition restored (x : string) : string := json_stringify (spread (parsed_or_empty x)).

(** A proposal comes with an observation of its identifier, or of its digest. *)
Definition proposal_ok (p : ProposalRow) (g : gworld) : Prop :=
  str_in (pr_risk_class p) RISK_CLASSES = true
  ∧ ∃ o, o ∈ observations g ∧ (go_id o = pr_observation p ∨ go_hash o = pr_observation_hash p).

(** A permitted reviewer decided on a stored proposal, with a reason. *)
Definition review_ok (r : ReviewRow) (g : gworld) : Prop :=
  rv_reviewer r ≠ EmptyString ∧ (reviewers = [] ∨ rv_reviewer r ∈ reviewers)
  ∧ rv_rationale r ≠ EmptyString
  ∧ (rv_decision r = "APPROVED" ∧ rv_creates_atao r = true
     ∨ rv_decision r = "REJECTED" ∧ rv_creates_atao r = false)
  ∧ rv_id r = review_id_of (rv_proposal r) (rv_reviewer r) (rv_created_at r)
  ∧ ∃ p, p ∈ proposals g ∧ proposal_subject p = review_subject r.

(** An ATAO is its proposal's: same subject, intent, scope and constraints; some
    review has the identifier it names. *)
Definition formed_ok (a : FormedAtaoRow) (g : gworld) : Prop :=
  str_in (fa_risk_class a) RISK_CLASSES = true
  ∧ fa_id a = atao_id_of (fa_review a) (fa_proposal a)
  ∧ (∃ p, p ∈ proposals g ∧ proposal_subject p = formed_subject a ∧ fa_intent a = pr_intent p
       ∧ fa_scope a = restored (pr_scope p) ∧ fa_constraints a = restored (pr_constraints p))
  ∧ ∃ r, r ∈ reviews g ∧ rv_id r = fa_review a.

(** What a proven tool call stands on in the worker's tables. *)
Definition invocation_ok (t : ToolInvocationRow) (s : world) : Prop :=
  ∃ a p e o,
    (a ∈ ataos s ∧ ta_hash a = ti_atao_hash t)
    ∧ (p ∈ proofs s ∧ pf_id p = ti_proof t ∧ pf_execution p = ti_execution t
       ∧ pf_decision p = ti_decision t ∧ pf_hash p = ti_hash t ∧ pf_session p = ta_session a)
    ∧ (e ∈ executions s ∧ ex_id e = ti_execution t ∧ ex_decision e = ti_decision t
       ∧ ex_hash e = ti_hash t ∧ ex_nonce e = ti_nonce t)
    ∧ (o ∈ aeos s ∧ ao_decision o = ti_decision t ∧ ao_hash o = ti_hash t
       ∧ ao_continuity o = pf_continuity p ∧ ao_continuity o ≠ EmptyString).

Definition tool_call_key (t : ToolInvocationRow) :=
  (ti_atao_hash t, ti_decision t, ti_hash t, ti_nonce t).

Record lawful_gateway (g : gworld) : Prop := mkLawfulGateway {
  l_worker : lawful_world (worker g);
  l_proposals : ∀ p, p ∈ proposals g → proposal_ok p g;
  l_reviews : ∀ r, r ∈ reviews g → review_ok r g;
  l_formed : ∀ a, a ∈ formed g → formed_ok a g;
  l_invocations : ∀ t, t ∈ tool_invocations g → invocation_ok t (worker g);
  l_proposal_ids : NoDup (map pr_id (proposals g));
  l_review_ids : NoDup (map rv_id (reviews g));
  l_formed_ids : NoDup (map fa_id (formed g));
  l_once : NoDup (map tool_call_key (tool_invocations g))
}.

Lemma empty_gateway_lawful now : lawful_gateway (empty_gateway now).
Proof.
  split; try apply NoDup_nil_2; [apply empty_lawful|..]; by intros x ?%elem_of_nil.
Qed.

(** ** Growth keeps them *)
Lemma proposal_grows p g g' : ggrows g g' → proposal_ok p g → proposal_ok p g'.
Proof.
  intros Hg [Hr (o & Ho & H)]. split; [done|]. exists o. split; [|done].
  by eapply prefix_elem; [apply (gg_observations _ _ Hg)|].
Qed.

Lemma review_grows r g g' : ggrows g g' → review_ok r g → review_ok r g'.
Proof.
  intros Hg (? & ? & ? & ? & ? & p & Hp & ?). do 5 (split; [done|]). exists p. split; [|done].
  by eapply prefix_elem; [apply (gg_proposals _ _ Hg)|].
Qed.

Lemma formed_grows a g g' : ggrows g g' → formed_ok a g → formed_ok a g'.
Proof.
  intros Hg (? & ? & (p & Hp & ?) & r & Hr & ?). do 2 (split; [done|]). split.
  - exists p. split; [|done]. by eapply prefix_elem; [apply (gg_proposals _ _ Hg)|].
  - exists r. split; [|done]. by eapply prefix_elem; [apply (gg_reviews _ _ Hg)|].
Qed.

Lemma invocation_grows t s s' : grows s s' → invocation_ok t s → invocation_ok t s'.
Proof.
  intros Hg (a & p & e & o & [Ha ?] & [Hp ?] & [He ?] & [Ho ?]). exists a, p, e, o.
  split; [|split; [|split]]; (split; [|done]); (eapply prefix_elem; [|done]).
  - apply (g_ataos _ _ Hg).
  - apply (g_proofs _ _ Hg).
  - apply (g_executions _ _ Hg).
  - apply (g_aeos _ _ Hg).
Qed.

(** * Single steps *)
Definition gadvance (g g' : gworld) : Prop := lawful_gateway g' ∧ ggrows g g'.

(** A step adds rows; those it adds are as they should be. *)
Lemma gadvance_intro g g' :
  lawful_gateway g → ggrows g g' → lawful_world (worker g') →
  (∀ p, p ∈ proposals g' → p ∈ proposals g ∨ proposal_ok p g') →
  (∀ r, r ∈ reviews g' → r ∈ reviews g ∨ review_ok r g') →
  (∀ a, a ∈ formed g' → a ∈ formed g ∨ formed_ok a g') →
  (∀ t, t ∈ tool_invocations g' → t ∈ tool_invocations g ∨ invocation_ok t (worker g')) →
  NoDup (map pr_id (proposals g')) → NoDup (map rv_id (reviews g')) →
  NoDup (map fa_id (formed g')) → NoDup (map tool_call_key (tool_invocations g')) →
  gadvance g g'.
Proof.
  intros Hl Hg Hw Hp Hr Ha Ht ????. split; [|done]. split; auto.
  - intros p [Hin|]%Hp; [|done]. eapply proposal_grows; [done|]. by apply Hl.
  - intros r [Hin|]%Hr; [|done]. eapply review_grows; [done|]. by apply Hl.
  - intros a [Hin|]%Ha; [|done]. eapply formed_grows; [done|]. by apply Hl.
  - intros t [Hin|]%Ht; [|done]. eapply invocation_grows; [apply Hg|]. by apply Hl.
Qed.

Ltac gsame Hl := simpl; first [apply (l_worker _ Hl) | apply (l_proposal_ids _ Hl)
  | apply (l_review_ids _ Hl) | apply (l_formed_ids _ Hl) | apply (l_once _ Hl) | by left | by auto].

Lemma gadvance_worker g s' : lawful_gateway g → advance (worker g) s' → gadvance g (set_worker s' g).
Proof. intros Hl [Hs Hg]. apply gadvance_intro; try gsame Hl. Qed.

Lemma guarded_prefix {R} (clash : R → R → bool) (guard : bool) row rows :
  rows `prefix_of` (if guard then (append_unless clash row rows).1 else rows).
Proof. destruct guard; [apply append_prefix|done]. Qed.

(** A table to which a row is appended unless its identifier is there. *)
Lemma guarded_append {R} (key : R → string) (clash : R → R → bool) (guard : bool) row rows :
  (∀ a b, clash a b = false → key a ≠ key b) → NoDup (map key rows) →
  let rows' := if guard then (append_unless clash row rows).1 else rows in
  rows `prefix_of` rows' ∧ NoDup (map key rows')
  ∧ (∀ r, r ∈ rows' → r ∈ rows ∨ r = row ∧ guard = true).
Proof.
  intros Hc Hd rows'. split; [apply guarded_prefix|]. unfold rows'.
  destruct guard; [|by split; [|left]].
  split; [|intros r H%append_elem; naive_solver].
  destruct (append_cases clash row rows) as [[-> _]|[-> Hfresh]]; [done|]. simpl.
  rewrite map_app. apply NoDup_app. split; [done|]. split; [|apply NoDup_singleton].
  intros k Hk ->%list_elem_of_singleton. apply elem_of_map in Hk as (r & Hr & E).
  apply (Hc row r); [|done]. by apply Hfresh.
Qed.

Lemma clash_id {R} (key : R → string) (other : R → R → bool) a b :
  sql_eqb (key a) (key b) || other a b = false → key a ≠ key b.
Proof. rewrite orb_false_iff. intros [H _]. by apply String.eqb_neq. Qed.

Lemma gadvance_observation row g : lawful_gateway g → gadvance g (insert_observation row g).1.
Proof.
  intros Hl. apply gadvance_intro; try gsame Hl. split; try done. apply guarded_prefix.
Qed.

Lemma gadvance_proposal row g :
  lawful_gateway g →
  (str_in (pr_risk_class row) RISK_CLASSES = true → proposal_ok row g) →
  gadvance g (insert_proposal row g).1.
Proof.
  intros Hl Hrow.
  destruct (guarded_append pr_id _ (str_in (pr_risk_class row) RISK_CLASSES) row (proposals g)
    (clash_id pr_id (λ a b, sql_eqb (pr_cip a) (pr_cip b))) (l_proposal_ids _ Hl)) as (Hp & Hd & Hin).
  assert (ggrows g (insert_proposal row g).1) as Hg by (by split).
  apply gadvance_intro; try gsame Hl; try done.
  intros p [?|[-> ?]]%Hin; [by left|right]. eapply proposal_grows; [done|]. auto.
Qed.

Lemma gadvance_review row g :
  lawful_gateway g → review_ok row g → gadvance g (insert_review row g).1.
Proof.
  intros Hl Hrow.
  destruct (guarded_append rv_id (λ a b, sql_eqb (rv_id a) (rv_id b))
    (str_in (rv_risk_class row) RISK_CLASSES && str_in (rv_decision row) ["APPROVED"; "REJECTED"])
    row (reviews g) (λ a b, proj1 (String.eqb_neq _ _)) (l_review_ids _ Hl)) as (Hp & Hd & Hin).
  assert (ggrows g (insert_review row g).1) as Hg by (by split).
  apply gadvance_intro; try gsame Hl; try done.
  intros r [?|[-> ?]]%Hin; [by left|right]. by eapply review_grows.
Qed.

Lemma gadvance_formed row g :
  lawful_gateway g →
  (str_in (fa_risk_class row) RISK_CLASSES = true → formed_ok row g) →
  gadvance g (insert_formed row g).1.
Proof.
  intros Hl Hrow.
  destruct (guarded_append fa_id (λ a b, sql_eqb (fa_id a) (fa_id b))
    (str_in (fa_risk_class row) RISK_CLASSES) row (formed g) (λ a b, proj1 (String.eqb_neq _ _))
    (l_formed_ids _ Hl)) as (Hp & Hd & Hin).
  assert (ggrows g (insert_formed row g).1) as Hg by (by split).
  apply gadvance_intro; try gsame Hl; try done.
  intros a [?|[-> ?]]%Hin; [by left|right]. eapply formed_grows; [done|]. auto.
Qed.

Lemma gadvance_invocation row g :
  lawful_gateway g → invocation_ok row (worker g) → gadvance g (insert_tool_invocation row g).1.
Proof.
  intros Hl Hrow. unfold insert_tool_invocation.
  destruct (append_cases same_tool_invocation row (tool_invocations g)) as [[-> _]|[-> Hfresh]].
  { apply gadvance_intro; try gsame Hl. }
  apply gadvance_intro; try gsame Hl.
  - split; simpl; try done. by eexists.
  - intros t [?|?%list_elem_of_singleton]%elem_of_app; [by left|right; by subst].
  - simpl. rewrite map_app. apply NoDup_app. split; [apply (l_once _ Hl)|].
    split; [|apply NoDup_singleton].
    intros k Hk ->%list_elem_of_singleton. apply elem_of_map in Hk as (t & Ht & E).
    specialize (Hfresh t Ht). unfold same_tool_invocation in Hfresh.
    unfold tool_call_key in E. injection E as E1 E2 E3 E4.
    apply orb_false_iff in Hfresh as [_ Hf]. unfold sql_eqb in Hf.
    rewrite E1, E2, E3, E4, !String.eqb_refl in Hf. done.
Qed.

(** * Handlers *)
Local Abbreviation gok := (ok perform_g lawful_gateway ggrows).

(** Reading. *)
Lemma gok_ask {A X} (Q : A → gworld → Prop) (f : gworld → X) (k : X → gprog A) g :
  (∀ g2, ggrows g g2 → lawful_gateway g2 → gok Q (k (f g2)) g2) →
  gok Q (bind (await (ask f)) k) g.
Proof. intros H g2 Hg Hl. split; [done|]. split; [done|]. by apply H. Qed.

Lemma gok_select {A X} (Q : A → gworld → Prop) (f : world → X) (k : X → gprog A) g :
  (∀ g2, ggrows g g2 → lawful_gateway g2 → gok Q (k (f (worker g2))) g2) →
  gok Q (bind (await (on_worker (select f))) k) g.
Proof.
  intros H g2 Hg Hl. unfold perform_g, on_worker, select. simpl.
  replace (set_worker (worker g2) g2) with g2 by (by destruct g2).
  split; [done|]. split; [done|]. by apply H.
Qed.

(** A statement on the worker's tables that keeps them lawful. *)
Lemma gok_worker {A X} (Q : A → gworld → Prop) (e : sql X) (k : X → gprog A) g :
  (∀ g2, ggrows g g2 → lawful_gateway g2 → advance (worker g2) (e (worker g2)).1) →
  (∀ g2, ggrows g g2 → lawful_gateway g2 →
     gok Q (k (e (worker g2)).2) (set_worker (e (worker g2)).1 g2)) →
  gok Q (bind (await (on_worker e)) k) g.
Proof.
  intros He Hk g2 Hg Hl. destruct (gadvance_worker g2 _ Hl (He g2 Hg Hl)) as [Hl' Hg'].
  split; [done|]. split; [done|]. by apply Hk.
Qed.

(** A statement on the gateway's tables. *)
Lemma gok_insert {A X} (Q : A → gworld → Prop) (e : gsql X) (k : X → gprog A) g :
  (∀ g2, ggrows g g2 → lawful_gateway g2 → gadvance g2 (e g2).1) →
  (∀ g2, ggrows g g2 → lawful_gateway g2 → gok Q (k (e g2).2) (e g2).1) →
  gok Q (bind (await e) k) g.
Proof.
  intros He Hk g2 Hg Hl. destruct (He g2 Hg Hl) as [Hl' Hg'].
  split; [done|]. split; [done|]. by apply Hk.
Qed.

Lemma gok_reply (Q : response → gworld → Prop) fields g :
  (∀ g2, ggrows g g2 → lawful_gateway g2 → Q (json fields) g2) → gok Q (reply fields) g.
Proof. done. Qed.

Lemma gok_bind {A B} (Q : A → gworld → Prop) (R : B → gworld → Prop) (m : gprog A)
    (f : A → gprog B) g :
  gok Q m g → (∀ a g', ggrows g g' → lawful_gateway g' → Q a g' → gok R (f a) g') →
  lawful_gateway g → gok R (bind m f) g.
Proof. apply ok_bind, _. Qed.

Lemma gok_now {B} (R : B → gworld → Prop) (f : string → gprog B) g :
  lawful_gateway g →
  (∀ t g', ggrows g g' → lawful_gateway g' → gok R (f t) g') → gok R (bind iso_now f) g.
Proof.
  intros Hl Hf. apply (gok_bind (λ _ _, True)); [|auto|done].
  unfold iso_now. apply gok_select. intros g2 _ _. by intros g3 _ _.
Qed.

(** What holds from here on holds at the end. *)
Lemma gok_keep {A} (F : gworld → Prop) (Q : A → gworld → Prop) (m : gprog A) g :
  (∀ g1 g2, ggrows g1 g2 → F g1 → F g2) → F g → gok Q m g → gok (λ a g, Q a g ∧ F g) m g.
Proof.
  intros HF. revert g. induction m as [a|X e k IH]; intros g Hf Hm g2 Hg2 Hl2.
  - split; [by apply Hm|by eapply HF].
  - destruct (Hm g2 Hg2 Hl2) as (Hl3 & Hg3 & Hk). split; [done|]. split; [done|].
    apply IH; [|done]. eapply HF; [exact Hg3|]. by eapply HF.
Qed.

(** A refusal: NULL with a reason, or the platform's own. *)
Definition refused (r : response) : Prop := says "NULL" r ∨ r = unauthorized ∨ r = uncaught.

(** An answer is a refusal, or has this status and this is so. *)
Definition answers (status : string) (F : response → gworld → Prop) (r : response) (g : gworld) :
    Prop := refused r ∨ says status r ∧ F r g.

Lemma answers_weaken status (F G : response → gworld → Prop) r g :
  answers status F r g → (F r g → G r g) → answers status G r g.
Proof. intros [?|[? ?]] HFG; [by left|right; auto]. Qed.

Lemma gok_null (Q : response → gworld → Prop) route reason extra g :
  (∀ r g2, refused r → Q r g2) → gok Q (deny_g route reason extra) g.
Proof. intros HQ. apply gok_reply. intros g2 _ _. apply HQ. by left. Qed.

Lemma gok_deny status F route reason extra g :
  gok (answers status F) (deny_g route reason extra) g.
Proof. apply gok_null. by left. Qed.

(** The row is in the table, or its identifier was taken by another. *)
Definition kept {R} (key : R → string) (row : R) (rows : list R) : Prop :=
  row ∈ rows ∨ ∃ x, x ∈ rows ∧ x ≠ row ∧ key x = key row.

Lemma kept_prefix {R} (key : R → string) row rows rows' :
  rows `prefix_of` rows' → kept key row rows → kept key row rows'.
Proof.
  intros Hp [H|(x & H & ?)]; [left|right; exists x; split; [|done]]; by eapply prefix_elem.
Qed.

Lemma kept_key {R} (key : R → string) row rows :
  kept key row rows → ∃ x, x ∈ rows ∧ key x = key row.
Proof. intros [H|(x & ? & ? & ?)]; eauto. Qed.

(** ** /gateway/tool/intercept *)

(** What the gateway makes of a call: its identifiers, and a risk class that the
    tables admit. *)
Lemma intercepted_shape input observation hash cip proposal :
  interceptToolCall to_lower input = INTERCEPTED observation hash cip proposal →
  (∃ oid, get observation "observation_id" = JStr oid ∧ oid ≠ EmptyString)
  ∧ (∃ cid, get cip "cip_id" = JStr cid ∧ cid ≠ EmptyString
       ∧ get proposal "proposal_id" = JStr ("proposal:" +:+ cid))
  ∧ str_in (text (get observation "risk_class")) RISK_CLASSES = true.
Proof.
  unfold interceptToolCall. do 4 (destruct (negb _); [done|]).
  intros [= <- <- <- <-]. unfold formObservationArtifact.
  destruct (classifyGatewayToolSurface to_lower _) as [sys risk].
  split; [by eexists|]. split; [by eexists|]. by destruct risk.
Qed.

Lemma observation_there row g :
  str_in (go_risk_class row) RISK_CLASSES = true →
  ∃ o, o ∈ observations (insert_observation row g).1 ∧ (go_id o = go_id row ∨ go_hash o = go_hash row).
Proof.
  intros Hr. unfold insert_observation. cbn [observations fst]. rewrite Hr.
  destruct (append_cases (λ a b, sql_eqb (go_id a) (go_id b) || sql_eqb (go_hash a) (go_hash b)) row
    (observations g)) as [[-> (o & Ho & E)]|[-> _]]; simpl.
  - exists o. split; [done|]. apply orb_true_iff in E as [E|E]; apply String.eqb_eq in E; auto.
  - exists row. split; [apply last_elem|auto].
Qed.

Lemma proposal_there row g :
  str_in (pr_risk_class row) RISK_CLASSES = true →
  ∃ p, p ∈ proposals (insert_proposal row g).1 ∧ (pr_id p = pr_id row ∨ pr_cip p = pr_cip row).
Proof.
  intros Hr. unfold insert_proposal. cbn [proposals fst]. rewrite Hr.
  destruct (append_cases (λ a b, sql_eqb (pr_id a) (pr_id b) || sql_eqb (pr_cip a) (pr_cip b)) row
    (proposals g)) as [[-> (p & Hp & E)]|[-> _]]; simpl.
  - exists p. split; [done|]. apply orb_true_iff in E as [E|E]; apply String.eqb_eq in E; auto.
  - exists row. split; [apply last_elem|auto].
Qed.

Definition intercepted_fact (r : response) (g : gworld) : Prop :=
  ∃ p, p ∈ proposals g ∧ (claims r "proposal_id" (pr_id p) ∨ claims r "cip_id" (pr_cip p)).

Lemma intercept_ok rq g :
  lawful_gateway g →
  gok (answers "INTERCEPTED" intercepted_fact) (handleAgentToolGatewayIntercept rq) g.
Proof.
  intros Hl. unfold handleAgentToolGatewayIntercept.
  destruct (object_body rq) as [b|]; [|by apply gok_deny].
  apply gok_now; [done|]. intros timestamp g1 Hg1 Hl1.
  destruct (interceptToolCall _ _) as [observation hash cip proposal|] eqn:Hi; [|by apply gok_deny].
  destruct (intercepted_shape _ _ _ _ _ Hi) as (_ & (cid & Hcid & Hne & Hpid) & Hrisk).
  set (orow := observation_row _ _ _ _). set (prow := proposal_row _ _ _ _ _ _).
  apply gok_insert; [intros g2 _ Hl2; by apply gadvance_observation|].
  intros g2 Hg2 Hl2. destruct (observation_there orow g2 Hrisk) as (o & Ho & Hoid).
  apply gok_insert.
  { intros g3 Hg3 Hl3. apply gadvance_proposal; [done|]. intros Hr. split; [done|]. exists o.
    split; [|exact Hoid]. eapply prefix_elem; [apply (gg_observations _ _ Hg3)|done]. }
  intros g3 Hg3 Hl3. destruct (proposal_there prow g3 Hrisk) as (p & Hp & Hpp).
  apply gok_reply. intros g4 Hg4 _. right. split; [reflexivity|]. exists p.
  split; [eapply prefix_elem; [apply (gg_proposals _ _ Hg4)|done]|].
  unfold claims. change (get (rs_body (json (intercepted_answer observation hash cip proposal))) "proposal_id")
    with (get proposal "proposal_id").
  change (get (rs_body (json (intercepted_answer observation hash cip proposal))) "cip_id")
    with (get cip "cip_id").
  rewrite Hpid, Hcid. destruct Hpp as [->| ->]; unfold prow, proposal_row; simpl.
  - left. by rewrite Hpid.
  - right. rewrite Hcid. by rewrite text_str.
Qed.

(** ** /gateway/tool/propose and /gateway/authority/atao *)
Lemma find_there {R} (p : R → bool) l r : List.find p l = Some r → r ∈ l ∧ p r = true.
Proof. intros [H ?]%find_some. split; [by apply list_elem_of_In|done]. Qed.

Definition proposed_fact (r : response) (g : gworld) : Prop :=
  ∃ p, p ∈ proposals g ∧ claims r "proposal_id" (pr_id p) ∧ claims r "cip_id" (pr_cip p)
    ∧ claims r "observation_hash" (pr_observation_hash p) ∧ claims r "tool_name" (pr_tool_name p)
    ∧ claims r "risk_class" (pr_risk_class p).

Lemma propose_ok rq g :
  lawful_gateway g →
  gok (answers "PROPOSED" proposed_fact) (handleAgentToolGatewayPropose rq) g.
Proof.
  intros Hl. unfold handleAgentToolGatewayPropose.
  destruct (object_body rq) as [b|]; [|by apply gok_deny]. cbv zeta.
  destruct (_ || _); [by apply gok_deny|].
  apply gok_ask. intros g2 Hg2 Hl2. destruct (List.find _ _) as [p|] eqn:Hf; [|by apply gok_deny].
  apply find_there in Hf as [Hp _]. apply gok_reply. intros g3 Hg3 _. right. split; [reflexivity|].
  exists p.
  split; [eapply prefix_elem; [apply (gg_proposals _ _ Hg3)|done]|]. by repeat split.
Qed.

Definition found_fact (id : string) (r : response) (g : gworld) : Prop :=
  ∃ a, a ∈ formed g ∧ fa_id a = id ∧ claims r "atao_id" (fa_id a) ∧ claims r "review_id" (fa_review a)
    ∧ claims r "proposal_id" (fa_proposal a).

Lemma atao_ok id g :
  lawful_gateway g → gok (answers "FOUND" (found_fact id)) (handleAgentToolGatewayATAO id) g.
Proof.
  intros Hl. unfold handleAgentToolGatewayATAO. destruct (is_empty_str id); [by apply gok_deny|].
  apply gok_ask. intros g2 Hg2 Hl2. destruct (List.find _ _) as [a|] eqn:Hf; [|by apply gok_deny].
  apply find_there in Hf as [Ha Hid%sql_eqb_true]. apply gok_reply. intros g3 Hg3 _. right.
  split; [reflexivity|]. exists a.
  split; [eapply prefix_elem; [apply (gg_formed _ _ Hg3)|done]|]. by repeat split.
Qed.

(** ** /gateway/authority/review *)
Lemma review_there row g :
  str_in (rv_risk_class row) RISK_CLASSES = true → str_in (rv_decision row) ["APPROVED"; "REJECTED"] = true →
  kept rv_id row (reviews (insert_review row g).1).
Proof.
  intros Hr Hd. unfold insert_review. cbn [reviews fst]. rewrite Hr, Hd. cbn [andb].
  destruct (append_cases (λ a b, sql_eqb (rv_id a) (rv_id b)) row (reviews g))
    as [[-> (r & ? & E%String.eqb_eq)]|[-> _]]; simpl; [|left; apply last_elem].
  destruct (decide (r = row)) as [->|]; [by left|right; eauto].
Qed.

Lemma formed_there row g :
  str_in (fa_risk_class row) RISK_CLASSES = true →
  kept fa_id row (formed (insert_formed row g).1).
Proof.
  intros Hr. unfold insert_formed. cbn [formed fst]. rewrite Hr.
  destruct (append_cases (λ a b, sql_eqb (fa_id a) (fa_id b)) row (formed g))
    as [[-> (a & ? & E%String.eqb_eq)]|[-> _]]; simpl; [|left; apply last_elem].
  destruct (decide (a = row)) as [->|]; [by left|right; eauto].
Qed.

(** The review of a stored proposal may be stored. *)
Lemma review_row_ok {d} p pid oid ohash reviewer why t g :
  p ∈ proposals g → is_proposal pid oid ohash p = true →
  reviewable (lineage_of_row p) reviewer why reviewers →
  review_ok (review_row (lineage_of_row p)
    (formAuthorityReviewArtifact (lineage_of_row p) reviewer d why t) pid oid ohash reviewer why t) g.
Proof.
  intros Hp Hid (Hr & Hperm & Hw & _). unfold is_proposal in Hid.
  apply andb_true_iff in Hid as [Hid E3%String.eqb_eq].
  apply andb_true_iff in Hid as [E1%String.eqb_eq E2%String.eqb_eq]. subst pid oid ohash.
  split; [done|]. split; [done|]. split; [done|].
  split; [destruct d; [by left|by right]|]. split; [done|]. by exists p.
Qed.

Lemma formed_row_ok p review t g r :
  p ∈ proposals g → r ∈ reviews g → rv_id r = ra_review_id review →
  str_in (pr_risk_class p) RISK_CLASSES = true →
  formed_ok (formed_row (formAgentToolATAO review (lineage_of_row p)) t) g.
Proof.
  intros Hp Hr Eid Hrisk. split; [done|]. split; [done|]. split; [by exists p|by exists r].
Qed.

(** The review that the request [b] makes of the stored proposal [p] at [t], with
    its row. *)
Definition review_made (b : jsval) (p : ProposalRow) (d : AuthorityReviewDecision) (t : string) :
    AuthorityReviewArtifact d :=
  formAuthorityReviewArtifact (lineage_of_row p) (text (get b "reviewer_id")) d
    (text (get b "review_rationale")) t.

Definition row_made (b : jsval) (p : ProposalRow) (d : AuthorityReviewDecision) (t : string) :
    ReviewRow :=
  review_row (lineage_of_row p) (review_made b p d t) (text (get b "proposal_id"))
    (text (get b "observation_id")) (text (get b "observation_hash")) (text (get b "reviewer_id"))
    (text (get b "review_rationale")) t.

(** A permitted reviewer decided [d], with a reason, on a stored proposal of these
    identifiers; the row of that decision is in the table, unless its identifier
    was taken by another review, and the answer names that identifier. *)
Definition decided (b : jsval) (p : ProposalRow) (d : AuthorityReviewDecision) (t : string)
    (r : response) (g : gworld) : Prop :=
  text (get b "review_decision") = decision_str d
  ∧ p ∈ proposals g
  ∧ is_proposal (text (get b "proposal_id")) (text (get b "observation_id"))
      (text (get b "observation_hash")) p = true
  ∧ reviewable (lineage_of_row p) (text (get b "reviewer_id")) (text (get b "review_rationale"))
      reviewers
  ∧ kept rv_id (row_made b p d t) (reviews g)
  ∧ claims r "review_id" (rv_id (row_made b p d t)).

(** An approval comes with the ATAO it forms of the proposal. *)
Definition approved_fact (b : jsval) (r : response) (g : gworld) : Prop :=
  ∃ p t t', decided b p APPROVED t r g
    ∧ let atao := formed_row (formAgentToolATAO (review_made b p APPROVED t) (lineage_of_row p)) t' in
      kept fa_id atao (formed g) ∧ claims r "atao_id" (fa_id atao).

(** A rejection names no ATAO. *)
Definition rejected_fact (b : jsval) (r : response) (g : gworld) : Prop :=
  ∃ p t, decided b p REJECTED t r g ∧ get (rs_body r) "atao_id" = JNull.

Definition reviewed (rq : request) (r : response) (g : gworld) : Prop :=
  refused r ∨ ∃ b, object_body rq = Some b
    ∧ (says "APPROVED" r ∧ approved_fact b r g ∨ says "REJECTED" r ∧ rejected_fact b r g).

Lemma in_proposals p g g' : ggrows g g' → p ∈ proposals g → p ∈ proposals g'.
Proof. intros Hg. apply prefix_elem, (gg_proposals _ _ Hg). Qed.

Lemma in_reviews r g g' : ggrows g g' → r ∈ reviews g → r ∈ reviews g'.
Proof. intros Hg. apply prefix_elem, (gg_reviews _ _ Hg). Qed.

Lemma in_formed a g g' : ggrows g g' → a ∈ formed g → a ∈ formed g'.
Proof. intros Hg. apply prefix_elem, (gg_formed _ _ Hg). Qed.

Lemma review_route_ok rq g :
  lawful_gateway g →
  gok (reviewed rq) (handleAgentToolGatewayAuthorityReview reviewers rq) g.
Proof.
  intros Hl. unfold handleAgentToolGatewayAuthorityReview.
  assert (∀ route reason extra g, gok (reviewed rq) (deny_g route reason extra) g) as Hdeny
    by (intros; apply gok_null; by left).
  destruct (object_body rq) as [b|] eqn:Hb; [|apply Hdeny]. cbv zeta.
  set (pid := text (get b "proposal_id")). set (oid := text (get b "observation_id")).
  set (ohash := text (get b "observation_hash")). set (reviewer := text (get b "reviewer_id")).
  set (why := text (get b "review_rationale")).
  destruct (_ || _); [apply Hdeny|].
  apply gok_ask. intros g1 Hg1 Hl1. destruct (List.find _ _) as [p|] eqn:Hf; [|apply Hdeny].
  apply find_there in Hf as [Hp Hid]. destruct (l_proposals _ Hl1 p Hp) as [Hrisk _].
  apply gok_now; [done|]. intros t g2 Hg2 Hl2. apply (in_proposals _ _ _ Hg2) in Hp.
  destruct (review_iff (lineage_of_row p) reviewer (text (get b "review_decision")) why t reviewers)
    as (Happ & Hrej & _).
  destruct (conductAuthorityReview _ _ _ _ _ _) as [review atao|review|reason]; [| |apply Hdeny].
  - destruct (proj1 (Happ _ _) eq_refl) as (Hok & Hdec & -> & ->).
    apply gok_insert.
    { intros g3 Hg3 Hl3. apply gadvance_review; [done|].
      apply review_row_ok; [by eapply in_proposals|done|done]. }
    intros g3 Hg3 Hl3. set (row := review_row _ _ _ _ _ _ _ _).
    pose proof (review_there row g3 Hrisk eq_refl) as Hkept. destruct (kept_key _ _ _ Hkept) as (v & Hv & Ev).
    apply gok_insert.
    { intros g4 Hg4 Hl4. apply gadvance_formed; [done|]. intros _.
      apply (formed_row_ok _ _ _ _ v); [|by eapply in_reviews|done|done].
      eapply in_proposals; [|exact Hp]. etrans; [exact Hg3|]. etrans; [|exact Hg4].
      apply gadvance_review; [done|]. apply review_row_ok; [by eapply in_proposals|done|done]. }
    intros g4 Hg4 Hl4. set (arow := formed_row _ _).
    pose proof (formed_there arow g4 Hrisk) as Hformed.
    apply gok_reply. intros g5 Hg5 _. right. exists b. split; [done|]. left. split; [reflexivity|].
    assert (ggrows g4 (insert_formed arow g4).1) as Hstep.
    { split; try done. apply guarded_prefix. }
    assert (ggrows (insert_review row g3).1 g5) as Hg35 by (by do 2 (etrans; [done|])).
    exists p, t, t. split; [|split; [|done]].
    + split; [exact Hdec|]. split; [|split; [exact Hid|split; [exact Hok|split; [|reflexivity]]]].
      * eapply in_proposals; [|exact Hp]. etrans; [exact Hg3|]. etrans; [|exact Hg35].
        apply gadvance_review; [done|]. apply review_row_ok; [by eapply in_proposals|done|done].
      * eapply kept_prefix; [apply (gg_reviews _ _ Hg35)|exact Hkept].
    + eapply kept_prefix; [apply (gg_formed _ _ Hg5)|exact Hformed].
  - destruct (proj1 (Hrej _) eq_refl) as (Hok & Hdec & ->). apply gok_insert.
    { intros g3 Hg3 Hl3. apply gadvance_review; [done|].
      apply review_row_ok; [by eapply in_proposals|done|done]. }
    intros g3 Hg3 Hl3. set (row := review_row _ _ _ _ _ _ _ _).
    apply gok_reply. intros g4 Hg4 _. right. exists b. split; [done|]. right. split; [reflexivity|].
    exists p, t. split; [|done].
    split; [exact Hdec|]. split; [|split; [exact Hid|split; [exact Hok|split; [|reflexivity]]]].
    + eapply in_proposals; [|exact Hp]. etrans; [exact Hg3|]. etrans; [|exact Hg4].
      apply gadvance_review; [done|]. apply review_row_ok; [by eapply in_proposals|done|done].
    + eapply kept_prefix; [apply (gg_reviews _ _ Hg4)|]. by apply review_there.
Qed.

(** ** /gateway/tool/compile *)

(** The authority a compile relies on: of the ATAO's session, intent and scope. *)
Definition authority_covers (decision : string) (a : FormedAtaoRow) (surface : string) (s : world) :
    Prop :=
  ∃ au, au ∈ authorities s ∧ au_decision au = decision ∧ au_session au = fa_session a
    ∧ au_intent au = fa_intent a ∧ scope_matches au a surface = true.

Lemma authority_covers_grows d a surface s s' :
  grows s s' → authority_covers d a surface s → authority_covers d a surface s'.
Proof.
  intros Hg (au & Hau & ? & ? & ? & Hm).
  destruct (key_elem _ _ _ _ (g_authorities _ _ Hg) Hau) as (au' & Hau' & E).
  unfold authority_key in E. injection E as E1 E2 E3 E4 E5 E6 E7 E8 E9.
  exists au'. split; [done|]. do 3 (split; [congruence|]). unfold scope_matches. by rewrite E6.
Qed.

(** What a compile stands on: the ATAO with its approved review, an authority that
    covers it, an active template for its surface, and the stored object. *)
Definition compile_backed (atao_id decision : string) (r : response) (g : gworld) : Prop :=
  ∃ a v surface template aeo o,
    (a ∈ formed g ∧ fa_id a = atao_id)
    ∧ (v ∈ reviews g ∧ rv_id v = fa_review a ∧ rv_proposal v = fa_proposal a
       ∧ rv_observation v = fa_observation a ∧ rv_observation_hash v = fa_observation_hash a
       ∧ rv_decision v = "APPROVED")
    ∧ authority_covers decision a surface (worker g)
    ∧ deriveGatewaySurfaceType a = Some surface
    ∧ selectAEOTemplate json_parse template_row surface
        (riskClassForGatewayTemplate (fa_risk_class a)) = VALID_TEMPLATE template
    ∧ canonicalGatewayCompileAeo a decision surface = Some aeo
    ∧ (o ∈ aeos (worker g) ∧ ao_decision o = decision ∧ ao_canonical o = canonicalize (aeo_js aeo)
       ∧ ao_hash o = sha256Hex (ao_canonical o))
    ∧ claims r "validated_object_hash" (ao_hash o).

Lemma in_aeos o g g' : ggrows g g' → o ∈ aeos (worker g) → o ∈ aeos (worker g').
Proof. intros Hg. apply prefix_elem, (g_aeos _ _ (gg_worker _ _ Hg)). Qed.

(** The stored object of an answer. *)
Definition object_stored (decision : string) (aeo : CanonicalAEO) (r : response) (g : gworld) : Prop :=
  ∃ o, o ∈ aeos (worker g) ∧ ao_decision o = decision ∧ ao_canonical o = canonicalize (aeo_js aeo)
    ∧ ao_hash o = sha256Hex (ao_canonical o) ∧ claims r "validated_object_hash" (ao_hash o).

Lemma object_stored_grows d aeo r g g' :
  ggrows g g' → object_stored d aeo r g → object_stored d aeo r g'.
Proof. intros Hg (o & Ho & ?). exists o. split; [by eapply in_aeos|done]. Qed.

Lemma insert_aeo_row row s :
  (insert_aeo row s).2 = true → row ∈ aeos (insert_aeo row s).1.
Proof.
  unfold insert_aeo.
  destruct (append_cases (λ a b, sql_eqb (ao_id a) (ao_id b)) row (aeos s)) as [[-> _]|[-> _]];
    simpl; [done|]. intros _. apply last_elem.
Qed.

Lemma store_compiled_ok b au atao_id d aeo g :
  lawful_gateway g → authority_fact d au (worker g) →
  gok (answers "COMPILED" (object_stored d aeo)) (store_compiled b au atao_id d aeo) g.
Proof.
  intros Hl Hau. unfold store_compiled. cbv zeta.
  destruct (negb _ && negb _); [by apply gok_deny|].
  apply gok_select. intros g1 Hg1 Hl1. set (rows := sort_by _ _).
  destruct rows as [|first rest] eqn:Hrows.
  - apply gok_worker; [intros g2 _ Hl2; apply lawful_draw, Hl2|]. intros g2 Hg2 Hl2.
    set (g2' := set_worker _ g2).
    assert (gadvance g2 g2') as [Hl2' Hg2'] by (apply gadvance_worker; [done|apply lawful_draw, Hl2]).
    apply gok_now; [done|]. intros created g3 Hg3 Hl3.
    set (row := gateway_aeo_row _ _ _ _ _ _).
    assert (∀ g4, ggrows g3 g4 → lawful_gateway g4 → advance (worker g4) (insert_aeo row (worker g4)).1)
      as Hins.
    { intros g4 Hg4 Hl4. apply advance_insert_aeo; [apply Hl4|].
      assert (ggrows g g4) as Hall by ggrow.
      destruct (authority_fact_grows d au _ _ (gg_worker _ _ Hall) Hau) as (au' & ? & ? & ?).
      split; [by exists au'|]. split; [done|apply canonicalize_ne]. }
    apply gok_worker; [done|]. intros g4 Hg4 Hl4.
    destruct (insert_aeo row (worker g4)).2 eqn:Hok; [|by apply gok_deny].
    apply gok_reply. intros g5 Hg5 _. right. split; [reflexivity|].
    eapply object_stored_grows; [exact Hg5|].
    exists row. split; [by apply insert_aeo_row|]. by repeat split.
  - destruct (existsb _ _ && _) eqn:He; [|by apply gok_deny].
    apply andb_true_iff in He as [He _]. apply existsb_elem in He as (o & Ho & Hsame).
    rewrite <- Hrows in Ho. apply sort_by_elem, list_elem_of_In, filter_In in Ho as [Ho Hd].
    apply sql_eqb_true in Hd. apply list_elem_of_In in Ho.
    apply andb_true_iff in Hsame as [E1%String.eqb_eq E2%String.eqb_eq].
    apply gok_reply. intros g2 Hg2 _. right. split; [reflexivity|].
    eapply object_stored_grows; [exact Hg2|].
    exists o. split; [done|]. split; [done|]. split; [done|]. split; [by rewrite E2|].
    unfold claims. by rewrite E1.
Qed.

Lemma compile_for_authority_ok b au a atao_id d g :
  lawful_gateway g → au ∈ authorities (worker g) → au_decision au = d →
  gok (answers "COMPILED" (λ r g,
      ∃ surface template aeo, authority_covers d a surface (worker g)
        ∧ deriveGatewaySurfaceType a = Some surface
        ∧ selectAEOTemplate json_parse template_row surface
            (riskClassForGatewayTemplate (fa_risk_class a)) = VALID_TEMPLATE template
        ∧ canonicalGatewayCompileAeo a d surface = Some aeo ∧ object_stored d aeo r g))
    (compile_for_authority template_row b au a atao_id d) g.
Proof.
  intros Hl Hau Hd. unfold compile_for_authority.
  apply gok_select. intros g1 Hg1 Hl1. cbv zeta.
  destruct (negb (String.eqb (au_status au) "ACTIVE") || _); [by apply gok_deny|].
  destruct (negb (String.eqb (au_session au) _) || _) eqn:Hm; [by apply gok_deny|].
  apply orb_false_iff in Hm as [Hm1%negb_false_iff%String.eqb_eq Hm2%negb_false_iff%String.eqb_eq].
  destruct (deriveGatewaySurfaceType a) as [surface|] eqn:Hsurf; [|by apply gok_deny].
  destruct (negb (scope_matches au a surface)) eqn:Hscope; [by apply gok_deny|].
  apply negb_false_iff in Hscope.
  apply gok_ask. intros g2 Hg2 Hl2.
  change (selectAEOTemplate json_parse (λ _, template_row surface) surface)
    with (selectAEOTemplate json_parse template_row surface).
  destruct (selectAEOTemplate _ _ _ _) as [template|reason] eqn:Ht; [|by apply gok_deny].
  destruct (4 <=? _)%Z; [by apply gok_deny|].
  destruct (canonicalGatewayCompileAeo a d surface) as [aeo|] eqn:Haeo; [|by apply gok_deny].
  assert (ggrows g g2) as Hall by ggrow.
  assert (authority_covers d a surface (worker g2)) as Hcov.
  { eapply authority_covers_grows; [apply Hall|]. by exists au. }
  assert (authority_fact d au (worker g2)) as Hfact.
  { eapply authority_fact_grows; [apply Hall|]. by exists au. }
  eapply ok_weaken; [|apply (gok_keep (λ g, authority_covers d a surface (worker g)));
    [|exact Hcov|by apply store_compiled_ok]].
  - intros r g3 [Hst Hc]. apply (answers_weaken _ _ _ _ _ Hst). intros Ho.
    exists surface, template, aeo. auto 10.
  - intros g3 g4 Hg34. apply authority_covers_grows, Hg34.
Qed.

Lemma in_authorities_decision d au s :
  List.find (λ r, sql_eqb (au_decision r) d) (authorities s) = Some au →
  au ∈ authorities s ∧ au_decision au = d.
Proof. by intros [? ?%sql_eqb_true]%find_there. Qed.

Lemma compile_route_ok rq g :
  lawful_gateway g →
  gok (answers "COMPILED" (λ r g, ∃ b, object_body rq = Some b
      ∧ compile_backed (text (get b "atao_id")) (text (get b "authority_decision_id")) r g))
    (handleAgentToolGatewayCompile template_row rq) g.
Proof.
  intros Hl. unfold handleAgentToolGatewayCompile.
  destruct (object_body rq) as [b|]; [|by apply gok_deny]. cbv zeta.
  set (atao_id := text _). set (d := text (get b "authority_decision_id")).
  destruct (is_empty_str atao_id); [by apply gok_deny|].
  destruct (is_empty_str d); [by apply gok_deny|].
  apply gok_ask. intros g1 Hg1 Hl1. destruct (List.find _ _) as [a|] eqn:Ha; [|by apply gok_deny].
  apply find_there in Ha as [Ha Hid%sql_eqb_true].
  apply gok_ask. intros g2 Hg2 Hl2. destruct (List.find _ _) as [v|] eqn:Hv; [|by apply gok_deny].
  simpl. destruct (_ && rv_creates_atao v) eqn:Happ; [|by apply gok_deny].
  apply andb_true_iff in Happ as [Happ%String.eqb_eq _].
  apply find_there in Hv as [Hv Hkeys]. unfold is_review in Hkeys.
  apply andb_true_iff in Hkeys as [Hkeys E4%sql_eqb_true].
  apply andb_true_iff in Hkeys as [Hkeys E3%sql_eqb_true].
  apply andb_true_iff in Hkeys as [E1%sql_eqb_true E2%sql_eqb_true].
  apply gok_select. intros g3 Hg3 Hl3.
  destruct (find_authority d (worker g3)) as [au|] eqn:Hau; [|by apply gok_deny].
  apply in_authorities_decision in Hau as [Hau Hd].
  eapply ok_weaken; [|apply (gok_keep (λ g, a ∈ formed g ∧ v ∈ reviews g));
    [| |by apply compile_for_authority_ok]].
  - intros r g4 [Hc [Ha4 Hv4]]. apply (answers_weaken _ _ _ _ _ Hc).
    intros (surface & template & aeo & ? & ? & ? & ? & o & ? & ? & ? & ? & ?).
    exists b. split; [done|]. exists a, v, surface, template, aeo, o. auto 20.
  - intros g4 g5 Hg45 [? ?]. split; [by eapply in_formed|by eapply in_reviews].
  - split; [eapply in_formed; [|exact Ha]; ggrow|by eapply in_reviews].
Qed.

(** ** /agent/tool-call *)
Lemma missing_field_none b k :
  missing_field b = None → k ∈ INVOCATION_FIELDS → text (get b k) ≠ EmptyString.
Proof.
  intros H Hk. apply list_elem_of_In in Hk. pose proof (find_none _ _ H k Hk) as Hf.
  by apply is_empty_str_false in Hf.
Qed.

(** The rows found so far; they stay. *)
Definition captured_for (b : jsval) (s : world) : Prop :=
  ∃ a, a ∈ ataos s ∧ ta_hash a = text (get b "atao_hash") ∧ ta_session a = text (get b "session_id").

Definition object_for (b : jsval) (s : world) : Prop :=
  ∃ o, o ∈ aeos s ∧ ao_decision o = text (get b "decision_id")
    ∧ ao_hash o = text (get b "validated_object_hash") ∧ ao_continuity o = text (get b "continuity_id").

Definition execution_for (b : jsval) (s : world) : Prop :=
  ∃ e, e ∈ executions s ∧ ex_id e = text (get b "execution_id")
    ∧ ex_decision e = text (get b "decision_id")
    ∧ ex_hash e = text (get b "validated_object_hash") ∧ ex_nonce e = text (get b "invocation_nonce").

Definition proof_for (b : jsval) (s : world) : Prop :=
  ∃ p, p ∈ proofs s ∧ pf_id p = text (get b "proof_id") ∧ pf_execution p = text (get b "execution_id")
    ∧ pf_decision p = text (get b "decision_id") ∧ pf_hash p = text (get b "validated_object_hash")
    ∧ pf_session p = text (get b "session_id") ∧ pf_continuity p = text (get b "continuity_id").

Lemma captured_for_grows b s s' : grows s s' → captured_for b s → captured_for b s'.
Proof. intros Hg (a & Ha & ?). exists a. split; [|done]. by eapply prefix_elem; [apply (g_ataos _ _ Hg)|]. Qed.

Lemma object_for_grows b s s' : grows s s' → object_for b s → object_for b s'.
Proof. intros Hg (a & Ha & ?). exists a. split; [|done]. by eapply prefix_elem; [apply (g_aeos _ _ Hg)|]. Qed.

Lemma execution_for_grows b s s' : grows s s' → execution_for b s → execution_for b s'.
Proof.
  intros Hg (a & Ha & ?). exists a. split; [|done]. by eapply prefix_elem; [apply (g_executions _ _ Hg)|].
Qed.

Lemma proof_for_grows b s s' : grows s s' → proof_for b s → proof_for b s'.
Proof. intros Hg (a & Ha & ?). exists a. split; [|done]. by eapply prefix_elem; [apply (g_proofs _ _ Hg)|]. Qed.

Lemma row_supported b s id created :
  captured_for b s → object_for b s → execution_for b s → proof_for b s →
  text (get b "continuity_id") ≠ EmptyString →
  invocation_ok (tool_invocation_row b id created) s.
Proof.
  intros (a & ? & ? & ?) (o & ? & ? & ? & ?) (e & ? & ? & ? & ? & ?) (p & ? & ? & ? & ? & ? & ? & ?) Hc.
  exists a, p, e, o. unfold tool_invocation_row. simpl.
  split; [done|]. split; [repeat split; congruence|]. split; [done|].
  repeat split; [done..|congruence|congruence].
Qed.

Definition proven_fact (b : jsval) (g : gworld) : Prop :=
  ∃ t, t ∈ tool_invocations g
    ∧ tool_call_key t = (text (get b "atao_hash"), text (get b "decision_id"),
        text (get b "validated_object_hash"), text (get b "invocation_nonce"))
    ∧ ti_execution t = text (get b "execution_id") ∧ ti_proof t = text (get b "proof_id").

Lemma insert_invocation_row row g :
  (insert_tool_invocation row g).2 = true →
  row ∈ tool_invocations (insert_tool_invocation row g).1.
Proof.
  unfold insert_tool_invocation.
  destruct (append_cases same_tool_invocation row (tool_invocations g)) as [[-> _]|[-> _]];
    simpl; [done|]. intros _. apply last_elem.
Qed.

Local Abbreviation proven_ok b := (gok (answers "PROVEN" (λ _ g, proven_fact b g))).

Lemma record_invocation_ok b surface g :
  lawful_gateway g → captured_for b (worker g) → object_for b (worker g) →
  text (get b "continuity_id") ≠ EmptyString → proven_ok b (record_invocation b surface) g.
Proof.
  intros Hl Hcap Hobj Hc. unfold record_invocation.
  apply gok_select. intros g1 Hg1 Hl1. destruct (List.find _ _) as [v|]; [|by apply gok_deny].
  apply gok_select. intros g2 Hg2 Hl2.
  destruct (List.find _ _) as [e|] eqn:He; [|by apply gok_deny].
  assert (execution_for b (worker g2)) as Hex.
  { apply find_there in He as [He H].
    rewrite !andb_true_iff in H. destruct H as ((((((E1 & E2) & E3) & E4) & _) & _) & _).
    apply sql_eqb_true in E1, E2, E3, E4. by exists e. }
  clear He. destruct (negb _); [by apply gok_deny|].
  apply gok_select. intros g3 Hg3 Hl3.
  destruct (List.find _ _) as [p|] eqn:Hp; [|by apply gok_deny].
  assert (proof_for b (worker g3)) as Hpf.
  { apply find_there in Hp as [Hp H].
    rewrite !andb_true_iff in H. destruct H as (((((E1 & E2) & E3) & E4) & E5) & E6).
    apply sql_eqb_true in E1, E2, E3, E4, E5, E6. by exists p. }
  apply (execution_for_grows _ _ _ (gg_worker _ _ Hg3)) in Hex.
  assert (ggrows g g3) as Hall by ggrow.
  apply (captured_for_grows _ _ _ (gg_worker _ _ Hall)) in Hcap.
  apply (object_for_grows _ _ _ (gg_worker _ _ Hall)) in Hobj.
  apply gok_worker; [intros g4 _ Hl4; apply lawful_draw, Hl4|]. intros g4 Hg4 Hl4.
  set (g4' := set_worker _ g4).
  assert (gadvance g4 g4') as [Hl4' Hg4'] by (apply gadvance_worker; [done|apply lawful_draw, Hl4]).
  apply gok_now; [done|]. intros created g5 Hg5 Hl5. set (row := tool_invocation_row _ _ _).
  apply gok_insert.
  { intros g6 Hg6 Hl6. apply gadvance_invocation; [done|].
    assert (ggrows g3 g6) as Hall6 by ggrow. pose proof (gg_worker _ _ Hall6) as Hw.
    apply row_supported; [by eapply captured_for_grows|by eapply object_for_grows
      |by eapply execution_for_grows|by eapply proof_for_grows|done]. }
  intros g6 Hg6 Hl6. destruct (insert_tool_invocation row g6).2 eqn:Hok; [|by apply gok_deny].
  apply gok_reply. intros g7 Hg7 _. right. split; [reflexivity|]. exists row. split; [|done].
  eapply prefix_elem; [apply (gg_invocations _ _ Hg7)|]. by apply insert_invocation_row.
Qed.

Lemma check_compiled_ok b surface g :
  lawful_gateway g → captured_for b (worker g) → text (get b "continuity_id") ≠ EmptyString →
  proven_ok b (check_compiled template_row b surface) g.
Proof.
  intros Hl Hcap Hc. unfold check_compiled.
  apply gok_select. intros g1 Hg1 Hl1.
  destruct (List.find _ _) as [o|] eqn:Ho; [|by apply gok_deny].
  destruct (stored_aeo _) as [aeo|]; [|by apply gok_deny].
  destruct (_ || _); [by apply gok_deny|].
  apply gok_ask. intros g2 Hg2 Hl2.
  destruct (template_objection _ _ _) as [[reason extra]|]; [by apply gok_deny|].
  apply record_invocation_ok; [done| | |done].
  - eapply captured_for_grows; [|exact Hcap]. assert (ggrows g g2) as Hall by ggrow. apply Hall.
  - eapply object_for_grows; [apply Hg2|]. apply find_there in Ho as [Ho H].
    rewrite !andb_true_iff in H. destruct H as ((((E1 & _) & E3) & E4) & _).
    apply sql_eqb_true in E1, E3, E4. by exists o.
Qed.

(** The policy class of a call: what it names itself, or that of its target. *)
Definition policy_class_of (b : jsval) : string :=
  to_string (js_or (get b "policy_class")
    (JStr (policy_str (classifyToolSurface (invocation_target b)).2))).

(** A call is observed only: its policy class says so, and it is answered without
    a statement on any table. *)
Definition observed_only (rq : request) (r : response) : Prop :=
  policy_class_of (body rq) = "TOOL_RECONCILIATION_READONLY"
  ∧ handleAgentToolInvocationBoundary template_row rq = Ret r
  ∧ get (rs_body r) "runtime_mutated" = JBool false.

(** A call that is proven says it mutates. *)
Definition invoked (rq : request) (r : response) (g : gworld) : Prop :=
  refused r ∨ says "READONLY_OBSERVED" r ∧ observed_only rq r
  ∨ says "PROVEN" r ∧ policy_class_of (body rq) = "TOOL_RUNTIME_MUTATION" ∧ proven_fact (body rq) g.

Lemma mutation_ok b surface g :
  lawful_gateway g → missing_field b = None → proven_ok b (invoke_mutation template_row b surface) g.
Proof.
  intros Hl Hm.
  assert (text (get b "continuity_id") ≠ EmptyString) as Hc
    by (apply missing_field_none; [done|]; apply list_elem_of_In; simpl; tauto).
  unfold invoke_mutation.
  apply gok_select. intros g1 Hg1 Hl1.
  destruct (List.find _ _) as [a|] eqn:Ha; [|by apply gok_deny].
  assert (captured_for b (worker g1)) as Hcap.
  { apply find_there in Ha as [Ha H]. rewrite !andb_true_iff in H. destruct H as ((_ & E2) & E3).
    apply sql_eqb_true in E2, E3. by exists a. }
  clear Ha.
  apply gok_now; [done|]. intros now g2 Hg2 Hl2.
  apply gok_select. intros g3 Hg3 Hl3. destruct (List.find _ _) as [session|]; [|by apply gok_deny].
  apply gok_now; [done|]. intros now' g4 Hg4 Hl4.
  apply gok_select. intros g5 Hg5 Hl5. destruct (List.find _ _) as [c|]; [|by apply gok_deny].
  apply gok_select. intros g6 Hg6 Hl6. destruct (List.find _ _) as [au|]; [|by apply gok_deny].
  destruct (negb _); [by apply gok_deny|].
  apply check_compiled_ok; [done| |done]. eapply captured_for_grows; [|exact Hcap].
  assert (ggrows g1 g6) as Hall by ggrow. apply Hall.
Qed.

Lemma invoke_ok rq g :
  lawful_gateway g → gok (invoked rq) (handleAgentToolInvocationBoundary template_row rq) g.
Proof.
  intros Hl. unfold handleAgentToolInvocationBoundary.
  destruct (nullish (body rq)) eqn:Hn; [intros g2 _ _; left; by right; right|].
  destruct (classifyToolSurface _) as [surface class] eqn:Hs.
  assert (policy_class_of (body rq) = to_string (js_or (get (body rq) "policy_class")
    (JStr (policy_str class)))) as Hpol by (unfold policy_class_of; by rewrite Hs).
  rewrite <- Hpol. destruct (String.eqb_spec (policy_class_of (body rq)) "TOOL_RECONCILIATION_READONLY")
    as [Hro|Hro].
  { apply gok_reply. intros g2 _ _. right; left. split; [reflexivity|]. split; [done|].
    split; [|reflexivity]. unfold handleAgentToolInvocationBoundary.
    rewrite Hn, Hs, <- Hpol, Hro. reflexivity. }
  destruct (String.eqb_spec (policy_class_of (body rq)) "TOOL_RUNTIME_MUTATION") as [Hmu|];
    cbn [negb]; [|by apply gok_null; left].
  destruct (missing_field _) eqn:Hm; [by apply gok_null; left|].
  eapply ok_weaken; [|by apply mutation_ok].
  intros r g2 [?|[? ?]]; [by left|by right; right].
Qed.

(** * Both served together *)

(** A request of the worker is as safe beside the gateway as alone. *)
Lemma beside_ok {A} (Q : A → world → Prop) (m : prog sql A) g :
  ok perform lawful_world grows Q m (worker g) → gok (λ a g, Q a (worker g)) (beside m) g.
Proof.
  revert g. induction m as [a|X e k IH]; intros g Hm g2 Hg Hl.
  - apply Hm; [apply Hg|apply Hl].
  - destruct (Hm _ (gg_worker _ _ Hg) (l_worker _ Hl)) as (Hs & Hgs & Hk).
    destruct (gadvance_worker g2 (e (worker g2)).1 Hl (conj Hs Hgs)) as [? ?].
    split; [done|]. split; [done|]. by apply IH.
Qed.

(** What an answer of the gateway claims: it is a refusal, or one of its route's
    statuses, with what that status stands for. *)
Definition gateway_backed (c : gateway_request) (r : response) (g : gworld) : Prop :=
  match c with
  | G_intercept _ => answers "INTERCEPTED" intercepted_fact r g
  | G_propose _ => answers "PROPOSED" proposed_fact r g
  | G_review rq => reviewed rq r g
  | G_atao _ id => answers "FOUND" (found_fact id) r g
  | G_compile rq => answers "COMPILED" (λ r g, ∃ b, object_body rq = Some b
      ∧ compile_backed (text (get b "atao_id")) (text (get b "authority_decision_id")) r g) r g
  | G_invoke rq => invoked rq r g
  end.

Lemma gateway_call_ok api_key c g :
  lawful_gateway g → gok (gateway_backed c) (serve_gateway template_row reviewers api_key c) g.
Proof.
  intros Hl. unfold serve_gateway. destruct (negb _).
  { intros g2 _ _. by destruct c; left; right; left. }
  destruct c; [by apply intercept_ok|by apply propose_ok|by apply review_route_ok|by apply atao_ok
    |by apply compile_route_ok|by apply invoke_ok].
Qed.
End Gateway.

(** * Arrivals *)
Inductive caller :=
  | Worker (a : arrival)
  | Calls (c : gateway_request).

Section Served.
Context {platform : Platform} (template_row : string → jsval) (reviewers : list string).
Context (api_key secret : string).
Context (json_canonical : ∀ v, json_parse (canonicalize v) = Some (normalize v)).

Definition serves_both (x : caller) : gprog response :=
  match x with
  | Worker a => beside (serves api_key secret a)
  | Calls c => serve_gateway template_row reviewers api_key c
  end.

Definition sound_both (x : caller) (r : response) (g : gworld) : Prop :=
  match x with
  | Worker a => sound_arrival a r (worker g)
  | Calls c => gateway_backed template_row reviewers c r g
  end.

Lemma serves_both_ok x g :
  lawful_gateway reviewers g →
  ok perform_g (lawful_gateway reviewers) ggrows (sound_both x) (serves_both x) g.
Proof using json_canonical.
  intros Hl. destruct x as [a|c]; simpl; [|by apply gateway_call_ok].
  apply (beside_ok reviewers (sound_arrival a)). apply serves_ok; [done|apply Hl].
Qed.

(** [q] is reached from empty tables by these arrivals. *)
Definition served (arrivals : list caller) (q : gworld * list (gprog response)) : Prop :=
  ∃ now, pool_steps perform_g (empty_gateway now, map serves_both arrivals) q.

Lemma served_safe arrivals q :
  served arrivals q →
  lawful_gateway reviewers q.1
  ∧ ∀ i m, q.2 !! i = Some m → ok perform_g (lawful_gateway reviewers) ggrows
      (λ r g, ∀ x, arrivals !! i = Some x → sound_both x r g) m q.1.
Proof using json_canonical.
  intros [now Hq].
  destruct (pool_steps_ok perform_g (lawful_gateway reviewers) ggrows
    (λ i r g, ∀ x, arrivals !! i = Some x → sound_both x r g) _ _ Hq) as (? & _ & ?); [| |done].
  - apply empty_gateway_lawful.
  - intros i m Hi. simpl in Hi. rewrite list_lookup_fmap in Hi.
    destruct (arrivals !! i) as [x|]; [|done]. injection Hi as <-.
    eapply ok_weaken; [|apply serves_both_ok, empty_gateway_lawful]. intros r g Hr x' [= <-]. done.
Qed.

Lemma served_lawful arrivals q : served arrivals q → lawful_gateway reviewers q.1.
Proof using json_canonical. intros Hq. by apply (served_safe arrivals). Qed.
End Served.
