(* ===== verification/AgentGatewayRun.v ===== *)
(** The agent gateway and the worker run together on concrete requests. *)
From Stdlib Require Import ZArith NArith Lia Ascii.
From stdpp Require Import base list strings pretty.
From S2P Require Import Prelude JsValue Sha256 Canonical Json Effects AgentToolGateway AgentReview.
From S2P Require Import WorkerValues WorkerTables WorkerSql WorkerLineage WorkerIssuance.
From S2P Require Import WorkerAuthority WorkerExecution WorkerProof WorkerRun AgentGatewayTables.
From S2P Require Import AgentGatewayRoutes AgentGatewaySafety.

(** * Requests *)

(** One active template. *)
Definition write_template (surface : string) : jsval :=
  if String.eqb surface "filesystem_write" then
    JObj [("template_id", JStr "filesystem_write_v1"); ("schema_version", JStr "1.0");
      ("surface_type", JStr surface); ("status", JStr "ACTIVE");
      ("risk_floor", JStr "P2_BOUNDED_MUTATION")]
  else JNull.

Definition intercept_request (intent path : string) : request :=
  post [("agent_id", JStr "agent-1"); ("session_id", JStr "uuid-0");
    ("tool_name", JStr "write_file"); ("tool_input", JObj [("path", JStr path)]);
    ("intent", JStr intent); ("scope", JObj [("path", JStr path)]);
    ("constraints", JObj [("owner", JStr "alice")])].

(** What the gateway makes of the first call at [t0]. *)
Definition call_observation : string := "obs:gateway:write_file:agent-1:0001700000000000".
Definition call_hash : string :=
  "214734ad34e9daec63c7cf7f0867b505a28c8aa1df9dd88baf231ff0a76868d0".
Definition call_proposal : string :=
  "proposal:cip:" +:+ call_observation +:+ ":" +:+ call_hash.

Definition review_request (reviewer decision : string) : request :=
  post [("proposal_id", JStr call_proposal); ("observation_id", JStr call_observation);
    ("observation_hash", JStr call_hash); ("reviewer_id", JStr reviewer);
    ("review_decision", JStr decision); ("review_rationale", JStr "reviewed")].

Definition review_at_t0 (reviewer : string) : string :=
  review_id_of call_proposal reviewer "0001700000000000".

Definition compile_request (reviewer : string) : request :=
  post [("authority_decision_id", JStr "d1");
    ("atao_id", JStr (atao_id_of (review_at_t0 reviewer) call_proposal))].

(** A governed candidate of the session, under a nonce of its own. *)
Definition govern_request (nonce : string) : request :=
  mkRequest (Some (JObj [("intent", JStr "deploy_production");
     ("scope", JObj [("environment", JStr "production")]);
     ("target", JObj [("repo", JStr "org/app")]); ("finality", JObj [("proof_required", JBool true)]);
     ("policy_class", JStr "TOOL_RUNTIME_MUTATION"); ("policy_digest", JStr hex_digest);
     ("topology_attestation_hash", JStr hex_digest)]))
   (λ name, if String.eqb name "X-API-Key" then "key"
      else if String.eqb name "X-Nonce" then nonce
      else if String.eqb name "X-Session-ID" then "uuid-0" else EmptyString).

Definition captured_id (nonce : string) : string :=
  "atao:337dac344c9408c58783ebea6b99aa8b2db6ab72b25771a7f11e07113df82d42:openclaw:" +:+ nonce.

Definition tool_call (nonce atao_hash object_hash : string) : request :=
  post [("atao_id", JStr (captured_id nonce)); ("atao_hash", JStr atao_hash);
    ("session_id", JStr "uuid-0"); ("continuity_id", JStr "c1"); ("authority_id", JStr "uuid-1");
    ("decision_id", JStr "d1"); ("validated_object_hash", JStr object_hash);
    ("invocation_nonce", JStr "n1"); ("execution_id", JStr "uuid-4"); ("proof_id", JStr "uuid-6")].

(** * Runs *)
Local Abbreviation gpool := (gworld * list (gprog response))%type.

Definition both_start (callers : list caller) : gpool :=
  (empty_gateway t0, map (serves_both write_template [] "key" "secret") callers).

(** One request after the other. *)
Definition in_turn (callers : list caller) : gpool :=
  schedule perform_g (concat (map (λ i, repeat i 60) (seq 0 (length callers)))) (both_start callers).

Lemma in_turn_steps callers : pool_steps perform_g (both_start callers) (in_turn callers).
Proof. apply schedule_steps. Qed.

(** The status of an answer, and its reason when it is a refusal. *)
Definition outcome_of (m : gprog response) : string * string :=
  match m with
  | Ret r => (str_or_empty (get (rs_body r) "status"), str_or_empty (get (rs_body r) "reason"))
  | Await _ _ => ("unanswered", EmptyString)
  end.

(** ** A proof named by two tool calls *)
Definition first_hash : string :=
  "3aee44577db4a399040d05d750a70f444ad4223ba6e2def44c04d2ce1dd9ecd0".
Definition second_hash : string :=
  "6ab4284febb7a4278d15987cfe3ff237a095705f052683641b005af2284f875c".

Definition called_arrivals : list caller :=
  map Worker (firstn 2 demo_arrivals)
  ++ [Worker (Arrives R_govern (govern_request "govern-nonce"));
      Worker (Arrives R_govern (govern_request "other-nonce"))]
  ++ map Worker (skipn 3 demo_arrivals)
  ++ [Calls (G_invoke (tool_call "govern-nonce" first_hash demo_hash));
      Calls (G_invoke (tool_call "govern-nonce" first_hash demo_hash));
      Calls (G_invoke (tool_call "other-nonce" second_hash demo_hash))].

Definition called : gpool := in_turn called_arrivals.

Lemma called_run :
  (map outcome_of (skipn 10 called.2),
   map (λ t, (ti_atao_hash t, ti_decision t, ti_proof t)) (tool_invocations called.1))
  = ([("PROVEN", EmptyString); ("NULL", "agent_tool_invocation_replay"); ("PROVEN", EmptyString)],
     [(first_hash, "d1", "uuid-6"); (second_hash, "d1", "uuid-6")]).
Proof. vm_compute. reflexivity. Qed.

(** ** An object of the gateway, and what the worker makes of it *)
Definition gateway_hash : string :=
  "5d7cf247186da79ada1dcedef457e1f794bce5a9eeb083d98dc36ed71b141341".

Definition stranded_arrivals : list caller :=
  map Worker (firstn 2 demo_arrivals)
  ++ [Worker (Arrives R_govern (govern_request "govern-nonce"));
      Calls (G_intercept (intercept_request "write notes" "/notes"));
      Calls (G_review (review_request "carol" "APPROVED"));
      Worker (Arrives R_authority (post ([("session_id", JStr "uuid-0"); ("decision_id", JStr "d1");
        ("continuity_id", JStr "c1"); ("governed_tool_envelope_id", JStr demo_envelope);
        ("intent", JStr "write notes"); ("scope", JObj [("path", JStr "/notes")]);
        ("constraints", JObj [("repo", JStr "org/app"); ("branch", JStr "main")])]
        ++ epoch_fields "e1")));
      Calls (G_compile (compile_request "carol"));
      Worker (Arrives R_compile (post (("decision_id", JStr "d1") :: snapshot_field
        :: epoch_fields "e2")));
      Worker (Arrives R_validate (post ([("decision_id", JStr "d1");
        ("validated_object_hash", JStr gateway_hash); ("invocation_nonce", JStr "n1");
        ("session_id", JStr "uuid-0")] ++ epoch_fields "e3")))].

Definition stranded : gpool := in_turn stranded_arrivals.

Lemma stranded_run :
  (map outcome_of (skipn 3 stranded.2),
   map (λ o, (ao_decision o, ao_hash o, ao_continuity o)) (aeos (worker stranded.1)))
  = ([("INTERCEPTED", EmptyString); ("APPROVED", EmptyString); ("ACTIVE", EmptyString);
      ("COMPILED", EmptyString); ("COMPILED", EmptyString); ("NULL", "lineage_mismatch")],
     [("d1", gateway_hash, EmptyString)]).
Proof. vm_compute. reflexivity. Qed.

(** ** Calls and reviews of one instant *)
Definition instant_arrivals : list caller :=
  [Calls (G_intercept (intercept_request "write notes" "/notes"));
   Calls (G_intercept (intercept_request "erase notes" "/notes"));
   Calls (G_intercept (intercept_request "write other" "/other"));
   Calls (G_review (review_request "carol" "REJECTED"));
   Calls (G_review (review_request "carol" "APPROVED"));
   Calls (G_compile (compile_request "carol"));
   Worker (Passes 1000);
   Calls (G_review (review_request "dave" "APPROVED"))].

Definition instant : gpool := in_turn instant_arrivals.

Lemma instant_run :
  (map outcome_of instant.2, map pr_intent (proposals instant.1), length (observations instant.1),
   map (λ v, (String.eqb (rv_id v) (review_at_t0 "carol"), rv_decision v)) (reviews instant.1),
   map (λ a, String.eqb (fa_review a) (review_at_t0 "carol")) (formed instant.1))
  = ([("INTERCEPTED", EmptyString); ("INTERCEPTED", EmptyString); ("INTERCEPTED", EmptyString);
      ("REJECTED", EmptyString); ("APPROVED", EmptyString); ("NULL", "authority_review_not_approved");
      (EmptyString, EmptyString); ("APPROVED", EmptyString)],
     ["write notes"; "write other"], 1%nat, [(true, "REJECTED"); (false, "APPROVED")],
     [true; false]).
Proof. vm_compute. reflexivity. Qed.

Lemma called_steps : pool_steps perform_g (both_start called_arrivals) called.
Proof. apply in_turn_steps. Qed.

Lemma stranded_steps : pool_steps perform_g (both_start stranded_arrivals) stranded.
Proof. apply in_turn_steps. Qed.

Lemma instant_steps : pool_steps perform_g (both_start instant_arrivals) instant.
Proof. apply in_turn_steps. Qed.

#[global] Opaque called stranded instant.
