(* ===== verification/AgentGatewayTheorems.v ===== *)
(** What the agent gateway guarantees, and what it does not, when its requests and
    the worker's are served at once. *)
From Stdlib Require Import ZArith NArith Lia Ascii.
From stdpp Require Import base list strings pretty.
From S2P Require Import Prelude JsValue Sha256 Canonical Json Effects AgentToolGateway AgentReview.
From S2P Require Import WorkerValues WorkerTables WorkerSql WorkerLineage WorkerIssuance.
From S2P Require Import WorkerAuthority WorkerExecution WorkerProof WorkerInvariant WorkerSafety.
From S2P Require Import WorkerRun WorkerTheorems AgentGatewayTables AgentGatewayRoutes.
From S2P Require Import AgentGatewaySafety AgentGatewayRun.

Section Served.
Context {platform : Platform} (template_row : string → jsval) (reviewers : list string).
Context (api_key secret : string).
Context (json_canonical : ∀ v, json_parse (canonicalize v) = Some (normalize v)).
Local Abbreviation served := (served template_row reviewers api_key secret).

(** C6. The gateway's requests, however they interleave with the worker's, take
    nothing from the worker: every proof still has its whole lineage, a decision
    still executes and proves an object at most once, and every answer of the
    worker is still backed by its tables. *)
Theorem worker_beside_gateway arrivals q :
  served arrivals q →
  (∀ p, p ∈ proofs (worker q.1) → has_lineage (worker q.1) p)
  ∧ NoDup (map (λ e, (ex_decision e, ex_hash e)) (executions (worker q.1)))
  ∧ NoDup (map (λ p, (pf_decision p, pf_hash p)) (proofs (worker q.1)))
  ∧ ∀ i rt rq r, arrivals !! i = Some (Worker (Arrives rt rq)) → q.2 !! i = Some (Ret r) →
      sound rt rq r (worker q.1).
Proof using json_canonical.
  intros Hq. destruct (served_safe _ _ _ _ json_canonical _ _ Hq) as [Hl Hok].
  pose proof (l_worker _ _ Hl) as Hw.
  split; [intros p Hp; by apply lawful_lineage|]. split; [apply Hw|]. split; [apply Hw|].
  intros i rt rq r Ha Hr. exact (Hok i _ Hr q.1 (reflexivity _) Hl _ Ha).
Qed.

(** C7. However requests interleave, a tool call is recorded as proven only for a
    captured ATAO, an execution with the named nonce and its proof, all of one
    session and decision, the proof with its whole lineage; the object was
    compiled for that proof's continuity, so never by the gateway, which names
    none; and an ATAO is used once per decision, object and nonce. *)
Theorem tool_call_lineage arrivals q :
  served arrivals q →
  (∀ t, t ∈ tool_invocations q.1 →
     ∃ a p e o,
       (a ∈ ataos (worker q.1) ∧ ta_hash a = ti_atao_hash t)
       ∧ (p ∈ proofs (worker q.1) ∧ pf_id p = ti_proof t ∧ pf_decision p = ti_decision t
          ∧ pf_hash p = ti_hash t ∧ pf_session p = ta_session a ∧ has_lineage (worker q.1) p)
       ∧ (e ∈ executions (worker q.1) ∧ ex_id e = ti_execution t ∧ ex_id e = pf_execution p
          ∧ ex_decision e = ti_decision t ∧ ex_hash e = ti_hash t ∧ ex_nonce e = ti_nonce t)
       ∧ (o ∈ aeos (worker q.1) ∧ ao_decision o = ti_decision t ∧ ao_hash o = ti_hash t
          ∧ ao_continuity o = pf_continuity p ∧ ao_continuity o ≠ EmptyString))
  ∧ NoDup (map (λ t, (ti_atao_hash t, ti_decision t, ti_hash t, ti_nonce t)) (tool_invocations q.1)).
Proof using json_canonical.
  intros Hq. pose proof (served_lawful _ _ _ _ json_canonical _ _ Hq) as Hl.
  split; [|apply (l_once _ _ Hl)]. intros t Ht.
  destruct (l_invocations _ _ Hl t Ht) as (a & p & e & o & Ha & (Hp & E1 & E2 & E3 & E4 & E5) & He & Ho).
  exists a, p, e, o. split; [done|]. split.
  - do 5 (split; [done|]). apply lawful_lineage; [apply (l_worker _ _ Hl)|done].
  - destruct He as (He & F1 & F2 & F3 & F4). split; [|done].
    split; [done|]. split; [done|]. split; [congruence|done].
Qed.

(** C9. However requests interleave, every ATAO of the gateway is that of a stored
    proposal, with its agent, session, tool, risk class, intent, scope and
    constraints, and the identifier of its review is that of a stored review;
    every review was given by a permitted reviewer with a reason, of a stored
    proposal, and its column [creates_atao] says so exactly when its decision is
    APPROVED; identifiers are never shared. That the review of an ATAO's identifier
    approves is not so: see [instant_collisions]. *)
Theorem gateway_registries arrivals q :
  served arrivals q →
  (∀ a, a ∈ formed q.1 →
     (∃ p, p ∈ proposals q.1 ∧ proposal_subject p = formed_subject a ∧ fa_intent a = pr_intent p
        ∧ fa_scope a = restored (pr_scope p) ∧ fa_constraints a = restored (pr_constraints p))
     ∧ ∃ v, v ∈ reviews q.1 ∧ rv_id v = fa_review a)
  ∧ (∀ v, v ∈ reviews q.1 →
     rv_reviewer v ≠ EmptyString ∧ (reviewers = [] ∨ rv_reviewer v ∈ reviewers)
     ∧ rv_rationale v ≠ EmptyString
     ∧ (rv_creates_atao v = true ↔ rv_decision v = "APPROVED")
     ∧ ∃ p, p ∈ proposals q.1 ∧ proposal_subject p = review_subject v)
  ∧ NoDup (map pr_id (proposals q.1)) ∧ NoDup (map rv_id (reviews q.1))
  ∧ NoDup (map fa_id (formed q.1)).
Proof using json_canonical.
  intros Hq. pose proof (served_lawful _ _ _ _ json_canonical _ _ Hq) as Hl.
  split; [|split; [|split; [|split]]]; [..|apply Hl|apply Hl|apply Hl].
  - intros a Ha. by destruct (l_formed _ _ Hl a Ha) as (_ & _ & ? & ?).
  - intros v Hv. destruct (l_reviews _ _ Hl v Hv) as (? & ? & ? & Hd & _ & ?).
    do 3 (split; [done|]). split; [|done]. by destruct Hd as [[-> ->]|[-> ->]].
Qed.

(** C8. However requests interleave, every answer of the gateway is a refusal, or
    has a status of its route and is backed by the tables. INTERCEPTED: a stored
    proposal. PROPOSED, FOUND: the row it shows. APPROVED and REJECTED: a permitted
    reviewer decided so, with a reason, on a stored proposal of these identifiers;
    the row of that decision, and for an approval the row of the ATAO it forms of
    the proposal, are stored, unless another row had taken the identifier. COMPILED:
    an ATAO, a stored approving review of the same proposal and observation, an
    authority of the ATAO's session, intent and scope, an active template, and the
    stored object the ATAO determines, under its digest. PROVEN: a mutating policy
    class and the row of the tool call. READONLY_OBSERVED: a read-only policy
    class, and not a single statement was made. *)
Theorem gateway_answers_backed arrivals q i c r :
  served arrivals q → arrivals !! i = Some (Calls c) → q.2 !! i = Some (Ret r) →
  gateway_backed template_row reviewers c r q.1.
Proof using json_canonical.
  intros Hq Ha Hr. destruct (served_safe _ _ _ _ json_canonical _ _ Hq) as [Hl Hok].
  exact (Hok i _ Hr q.1 (reflexivity _) Hl _ Ha).
Qed.
(** C35. What the gateway compiles is stranded. However requests interleave, as
    long as the objects stored for a decision under a digest name no continuity,
    as those of the gateway do not, that decision and digest have no validation, no
    execution, no proof and no proven tool call. *)
Theorem gateway_object_stranded arrivals q decision hash :
  served arrivals q →
  (∀ o, o ∈ aeos (worker q.1) → ao_decision o = decision → ao_hash o = hash →
     ao_continuity o = EmptyString) →
  (∀ v, v ∈ validations (worker q.1) → (va_decision v, va_hash v) ≠ (decision, hash))
  ∧ (∀ e, e ∈ executions (worker q.1) → (ex_decision e, ex_hash e) ≠ (decision, hash))
  ∧ (∀ p, p ∈ proofs (worker q.1) → (pf_decision p, pf_hash p) ≠ (decision, hash))
  ∧ ∀ t, t ∈ tool_invocations q.1 → (ti_decision t, ti_hash t) ≠ (decision, hash).
Proof using json_canonical.
  intros Hq Hobjects. pose proof (served_lawful _ _ _ _ json_canonical _ _ Hq) as Hl.
  pose proof (l_worker _ _ Hl) as Hw.
  assert (∀ v, v ∈ validations (worker q.1) → (va_decision v, va_hash v) ≠ (decision, hash)) as Hv.
  { intros v Hv [= Ed Eh].
    destruct (i_validations _ Hw v Hv) as (o & aeo & Ho & Hd & Hh & _ & _ & _ & Hc & Hne).
    apply Hne. rewrite <- Hc. apply Hobjects; congruence. }
  assert (∀ e, e ∈ executions (worker q.1) → (ex_decision e, ex_hash e) ≠ (decision, hash)) as He.
  { intros e He E. destruct (i_executions _ Hw e He) as ((v & Hin & Hd & Hh & _) & _).
    apply (Hv v Hin). congruence. }
  split; [exact Hv|]. split; [exact He|]. split.
  - intros p Hp E. destruct (i_proofs _ Hw p Hp) as (e & Hin & _ & Hd & Hh & _).
    apply (He e Hin). congruence.
  - intros t Ht E. destruct (l_invocations _ _ Hl t Ht) as (a & p & e & o & _ & _ & (Hin & _ & Hd & Hh & _) & _).
    apply (He e Hin). congruence.
Qed.
End Served.

(** * The template a compile selects *)

(** A template whose floor is privileged is never selected for an ATAO of the
    table, so the refusal [privileged_surface_blocked] is not reached. *)
Lemma privileged_unreached `{!Platform} row surface risk template :
  str_in risk RISK_CLASSES = true →
  selectAEOTemplate json_parse row surface (riskClassForGatewayTemplate risk) = VALID_TEMPLATE template →
  (templateRiskLevel (text (get template "risk_floor")) < 4)%Z.
Proof.
  intros Hr. unfold selectAEOTemplate. cbv zeta.
  destruct (negb (truthy _)); [done|]. destruct (negb (String.eqb _ "ACTIVE")); [done|].
  destruct (negb (String.eqb _ surface)); [done|].
  destruct (Z.ltb_spec (riskLevel (riskClassForGatewayTemplate risk))
    (riskLevel (text (get (row surface) "risk_floor")))) as [|Hle]; [done|].
  intros [= <-].
  assert (riskLevel (riskClassForGatewayTemplate risk) <= 3)%Z as H3.
  { apply str_in_elem in Hr. repeat (apply elem_of_cons in Hr as [->|Hr]; [vm_compute; discriminate|]).
    by apply elem_of_nil in Hr. }
  unfold templateRiskLevel.
  change (get (JObj _) "risk_floor") with (JStr (text (get (row surface) "risk_floor"))).
  rewrite text_str. lia.
Qed.

(** The constraints of an ATAO without a [target] are not in its object. *)
Lemma constraints_dropped `{!Platform} a b d surface :
  fa_id a = fa_id b → fa_intent a = fa_intent b → fa_scope a = fa_scope b →
  get (parseGatewayJsonRecord (fa_constraints a)) "target" = JUndef →
  get (parseGatewayJsonRecord (fa_constraints b)) "target" = JUndef →
  canonicalGatewayCompileAeo a d surface = canonicalGatewayCompileAeo b d surface.
Proof.
  intros E1 E2 E3 E4 E5. unfold canonicalGatewayCompileAeo. by rewrite E1, E2, E3, E4, E5.
Qed.

(** * Runs *)
Lemma called_served : served write_template [] "key" "secret" called_arrivals called.
Proof. exists t0. exact called_steps. Qed.

Lemma stranded_served : served write_template [] "key" "secret" stranded_arrivals stranded.
Proof. exists t0. exact stranded_steps. Qed.

Lemma instant_served : served write_template [] "key" "secret" instant_arrivals instant.
Proof. exists t0. exact instant_steps. Qed.

(** One proof serves any number of tool calls: a second ATAO of the session is
    proven by the execution and the proof that the first was proven by, since what
    is kept unique names the ATAO too, and nothing binds an ATAO to a decision. *)
Theorem one_proof_two_calls :
  ∃ q, served write_template [] "key" "secret" called_arrivals q
    ∧ ∃ t1 t2, t1 ∈ tool_invocations q.1 ∧ t2 ∈ tool_invocations q.1
      ∧ ti_proof t1 = ti_proof t2 ∧ ti_atao_hash t1 ≠ ti_atao_hash t2.
Proof.
  exists called. split; [exact called_served|].
  pose proof (f_equal snd called_run) as H. cbn [snd] in H.
  destruct (tool_invocations called.1) as [|t1 [|t2 [|]]]; try discriminate H.
  injection H as E1 _ E3 F1 _ F3. exists t1, t2. split; [left|]. split; [right; left|].
  rewrite E1, E3, F1, F3. done.
Qed.

(** The gateway's object for the decision is handed out by [/compile], and
    [/validate] refuses it as of another lineage. *)
Lemma stranded_outcomes :
  map outcome_of (skipn 6 stranded.2)
    = [("COMPILED", EmptyString); ("COMPILED", EmptyString); ("NULL", "lineage_mismatch")]
  ∧ ∃ o, aeos (worker stranded.1) = [o] ∧ ao_decision o = "d1" ∧ ao_continuity o = EmptyString.
Proof.
  pose proof stranded_run as H. split.
  - apply (f_equal (λ x, skipn 3 x.1)) in H. cbn [fst] in H.
    rewrite <- skipn_map, skipn_skipn, skipn_map in H. exact H.
  - apply (f_equal snd) in H. cbn [snd] in H.
    destruct (aeos (worker stranded.1)) as [|o' [|]]; try discriminate H.
    exists o'. split; [done|]. by injection H as -> _ ->.
Qed.

(** The identifiers of calls and reviews name the instant, and inserts ignore a
    clash without a word: of three calls of one instant, all answered as
    intercepted, one has no proposal and one no observation; and an approval in
    the instant of a rejection by the same reviewer forms an ATAO although the
    review on record rejects, which compiling then refuses. *)
Theorem instant_collisions :
  ∃ q, served write_template [] "key" "secret" instant_arrivals q
    ∧ map outcome_of (firstn 3 q.2) = repeat ("INTERCEPTED", EmptyString) 3
    ∧ length (proposals q.1) = 2%nat ∧ length (observations q.1) = 1%nat
    ∧ ∃ a v, a ∈ formed q.1 ∧ v ∈ reviews q.1 ∧ rv_id v = fa_review a ∧ rv_decision v = "REJECTED".
Proof.
  exists instant. split; [exact instant_served|].
  pose proof instant_run as H. pose proof (f_equal (λ x, x.1.1.1.1) H) as H1.
  pose proof (f_equal (λ x, x.1.1.1.2) H) as H2. pose proof (f_equal (λ x, x.1.1.2) H) as H3.
  pose proof (f_equal (λ x, x.1.2) H) as H4. pose proof (f_equal snd H) as H5.
  cbn [fst snd] in H1, H2, H3, H4, H5. clear H.
  split; [by rewrite <- firstn_map, H1|]. split; [by rewrite <- (length_map pr_intent), H2|].
  split; [done|].
  destruct (formed instant.1) as [|a l] eqn:Hf; [discriminate H5|].
  destruct (reviews instant.1) as [|v k] eqn:Hr; [discriminate H4|].
  injection H5 as E5%String.eqb_eq _. injection H4 as E4%String.eqb_eq E4' _.
  exists a, v. split; [left|]. split; [left|]. split; [congruence|done].
Qed.

(** * Witnesses *)
Lemma outcome_says (m : gprog response) status :
  (outcome_of m).1 = status → status ≠ "unanswered" → status ≠ EmptyString →
  ∃ r, m = Ret r ∧ says status r.
Proof.
  intros H Hun Hne. destruct m as [r|]; simpl in H; [|congruence].
  exists r. split; [done|]. unfold says. destruct (get (rs_body r) "status"); simpl in H; congruence.
Qed.

Lemma stranded_compiled : ∃ r, stranded.2 !! 6%nat = Some (Ret r) ∧ says "COMPILED" r.
Proof.
  pose proof (f_equal (λ x, nth_error x.1 3) stranded_run) as H. cbn [fst nth_error] in H.
  destruct (stranded.2) as [|m0 [|m1 [|m2 [|m3 [|m4 [|m5 [|m6 l]]]]]]]; try discriminate H.
  cbn [skipn map nth_error] in H. injection H as H.
  destruct (outcome_says m6 "COMPILED") as (r & -> & Hs); [by rewrite H|done|done|].
  by exists r.
Qed.

Lemma worker_beside_gateway_witness :
  served write_template [] "key" "secret" called_arrivals called
  ∧ NoDup (map (λ p, (pf_decision p, pf_hash p)) (proofs (worker called.1))).
Proof.
  split; [exact called_served|].
  exact (proj1 (proj2 (proj2 (worker_beside_gateway write_template [] "key" "secret" plain_json
    called_arrivals called called_served)))).
Defined.

Lemma tool_call_lineage_witness :
  ∃ t, t ∈ tool_invocations called.1
    ∧ ∃ a, a ∈ ataos (worker called.1) ∧ ta_hash a = ti_atao_hash t.
Proof.
  pose proof (f_equal snd called_run) as H. cbn [snd] in H.
  destruct (tool_invocations called.1) as [|t l] eqn:E; [discriminate H|].
  exists t. split; [left|].
  destruct (proj1 (tool_call_lineage write_template [] "key" "secret" plain_json
    called_arrivals called called_served) t) as (a & p & e & o & Ha & _); [rewrite E; left|].
  exists a. exact Ha.
Defined.

Lemma gateway_registries_witness :
  ∃ a, a ∈ formed instant.1 ∧ ∃ v, v ∈ reviews instant.1 ∧ rv_id v = fa_review a.
Proof.
  pose proof (f_equal snd instant_run) as H. cbn [snd] in H.
  destruct (formed instant.1) as [|a l] eqn:E; [discriminate H|].
  exists a. split; [left|].
  refine (proj2 (proj1 (gateway_registries write_template [] "key" "secret" plain_json
    instant_arrivals instant instant_served) a _)). rewrite E. left.
Defined.

Lemma gateway_answers_backed_witness :
  ∃ r, stranded.2 !! 6%nat = Some (Ret r) ∧ says "COMPILED" r
    ∧ ∃ b, object_body (compile_request "carol") = Some b
      ∧ compile_backed write_template (text (get b "atao_id"))
          (text (get b "authority_decision_id")) r stranded.1.
Proof.
  destruct stranded_compiled as (r & Hr & Hs). exists r. split; [exact Hr|]. split; [exact Hs|].
  destruct (gateway_answers_backed write_template [] "key" "secret" plain_json stranded_arrivals
    stranded 6 (G_compile (compile_request "carol")) r stranded_served eq_refl Hr)
    as [[Hn|[->| ->]]|[_ H]]; [unfold says in *; congruence|discriminate Hs|discriminate Hs|exact H].
Defined.

(** The object of the run is the gateway's, and was compiled, handed out, and
    refused by [/validate]. *)
Lemma gateway_object_stranded_witness :
  ∃ o, o ∈ aeos (worker stranded.1) ∧ ao_decision o = "d1"
    ∧ (∀ v, v ∈ validations (worker stranded.1) → (va_decision v, va_hash v) ≠ ("d1", ao_hash o))
    ∧ ∀ e, e ∈ executions (worker stranded.1) → (ex_decision e, ex_hash e) ≠ ("d1", ao_hash o).
Proof.
  destruct stranded_outcomes as (_ & o & Ho & Hd & Hc). exists o.
  split; [rewrite Ho; left|]. split; [exact Hd|].
  destruct (gateway_object_stranded write_template [] "key" "secret" plain_json stranded_arrivals
    stranded "d1" (ao_hash o) stranded_served) as (Hv & He & _); [|split; [exact Hv|exact He]].
  rewrite Ho. intros x Hx _ _. apply list_elem_of_singleton in Hx as ->. exact Hc.
Defined.
