(* ===== verification/GithubComment.v ===== *)
(** The bounded GitHub comment gateway: [src/lib/github-issue-comment-gateway.ts].

    Capture, compilation, validation and the exact-object boundary for the one
    action [comment_issue]. Fields of a literal type are constants of the
    records; the numbers of a captured action and of a compiled object are
    integers, as the code checks. *)
From Stdlib Require Import ZArith NArith Lia Ascii.
From stdpp Require Import base list strings pretty gmap sets.
From S2P Require Import Prelude JsValue Sha256 Canonical FilesystemAeo.

Definition GITHUB_ISSUE_COMMENT_AEO_REQUIRED_KEYS : list string :=
  ["finality"; "intent"; "scope"; "target"; "validation"].

Definition GITHUB_ISSUE_COMMENT_PROOF_FIELDS : list string :=
  ["validated_object_hash"; "executed_object_hash"; "aeo_hash"; "target_issue"; "comment_id";
   "comment_url"; "proposed_action_hash"; "action_hash"; "executed_at"; "validation_result";
   "execution_result"; "replay_nonce_status_after_success"; "proof_emitted_at"; "timestamp";
   "result"; "execution_evidence_hash"; "emitted_at"].

(** * Data *)

(** A place to comment on, and the text. *)
Record CommentTarget := mkCommentTarget {
  t_owner : string;
  t_repo : string;
  t_issue_number : Z;
  t_body : string
}.

Record GitHubIssueCommentATAO := mkCommentATAO {
  ca_atao_id : string;
  ca_agent_id : string;
  ca_session_id : string;
  ca_intent : string;
  ca_parameters : CommentTarget;
  ca_scope_owner : string;
  ca_scope_repo : string;
  ca_scope_issue : Z;
  ca_timestamp : string
}.

Record CommentScope := mkCommentScope {
  s_owner : string;
  s_repo : string;
  s_allowed_issue_numbers : list Z;
  s_max_body_length : Z
}.

Record CommentValidation := mkCommentValidation {
  v_decision_id : string;
  v_authority_lineage_hash : string;
  v_policy_id : string;
  v_policy_hash : string;
  v_replay_nonce : string
}.

Record GitHubIssueCommentAEO := mkCommentAEO {
  c_purpose : string;
  c_scope : CommentScope;
  c_validation : CommentValidation;
  c_target : CommentTarget;
  c_proof_fields : list string
}.

(** The run-time objects, properties in creation order. *)
Definition parameters_js (t : CommentTarget) : jsval :=
  JObj [("owner", JStr (t_owner t)); ("repo", JStr (t_repo t));
        ("issue_number", jint (t_issue_number t)); ("body", JStr (t_body t))].

Definition comment_target_js (t : CommentTarget) : jsval :=
  JObj [("system", JStr "github"); ("action", JStr "comment_issue");
        ("owner", JStr (t_owner t)); ("repo", JStr (t_repo t));
        ("issue_number", jint (t_issue_number t)); ("body", JStr (t_body t))].

Definition proposed_action_js (a : GitHubIssueCommentATAO) : jsval :=
  JObj [("system", JStr "github"); ("action", JStr "comment_issue");
        ("parameters", parameters_js (ca_parameters a))].

Definition comment_atao_body_js (a : GitHubIssueCommentATAO) : jsval :=
  JObj [("agent_id", JStr (ca_agent_id a)); ("session_id", JStr (ca_session_id a));
        ("intent", JStr (ca_intent a)); ("proposed_action", proposed_action_js a);
        ("scope", JObj [("owner", JStr (ca_scope_owner a)); ("repo", JStr (ca_scope_repo a));
                        ("issue_number", jint (ca_scope_issue a))]);
        ("risk_class", JStr "P2"); ("timestamp", JStr (ca_timestamp a));
        ("creates_authority", JBool false); ("creates_execution_eligibility", JBool false)].

Definition comment_intent_js (purpose : string) : jsval :=
  JObj [("action", JStr "comment_issue"); ("purpose", JStr purpose)].

Definition comment_scope_js (s : CommentScope) : jsval :=
  JObj [("owner", JStr (s_owner s)); ("repo", JStr (s_repo s));
        ("allowed_issue_numbers", JArr (map jint (s_allowed_issue_numbers s)));
        ("max_body_length", jint (s_max_body_length s))].

Definition comment_validation_js (v : CommentValidation) : jsval :=
  JObj [("decision_id", JStr (v_decision_id v));
        ("authority_lineage_hash", JStr (v_authority_lineage_hash v));
        ("policy_id", JStr (v_policy_id v)); ("policy_hash", JStr (v_policy_hash v));
        ("canonicalization", JStr "json-canonical-v1"); ("aeo_hash_required", JBool true);
        ("replay_nonce", JStr (v_replay_nonce v)); ("requires_unused_nonce", JBool true);
        ("requires_scope_match", JBool true); ("requires_issue_policy_match", JBool true)].

Definition comment_finality_js (fields : list string) : jsval :=
  JObj [("proof_required", JBool true); ("proof_type", JStr "github_issue_comment_execution");
        ("expected_result", JStr "single_bounded_issue_comment");
        ("proof_fields", JArr (map JStr fields)); ("registry_required", JBool true);
        ("reconciliation_required", JBool true); ("replay_state_after_success", JStr "CONSUMED")].

Definition comment_aeo_js (a : GitHubIssueCommentAEO) : jsval :=
  JObj [("intent", comment_intent_js (c_purpose a)); ("scope", comment_scope_js (c_scope a));
        ("validation", comment_validation_js (c_validation a));
        ("target", comment_target_js (c_target a));
        ("finality", comment_finality_js (c_proof_fields a))].

(** * Guards *)
Definition isPositiveInteger (v : jsval) : bool :=
  match v with JNum (NInt z) => (0 <? z)%Z | _ => false end.

Definition int_of (v : jsval) : Z := match v with JNum (NInt z) => z | _ => 0%Z end.

Definition hasExactKeys (v : jsval) (expectedKeys : list string) : bool :=
  is_record v
  && (let ks := sorted_keys v in
      let expected := sort_by str_leb expectedKeys in
      Nat.eqb (length ks) (length expected) && keys_match ks expected).

Definition isNumberArray (v : jsval) : bool :=
  match v with JArr l => forallb isPositiveInteger l | _ => false end.

Fixpoint same_entries (l : list jsval) (expected : list string) : bool :=
  match l, expected with
  | x :: l', s :: expected' => bool_decide (x = JStr s) && same_entries l' expected'
  | _, _ => true
  end.

Definition equalsStringArray (v : jsval) (expected : list string) : bool :=
  match v with
  | JArr l => Nat.eqb (length l) (length expected) && same_entries l expected
  | _ => false
  end.

(** [value !== literal]. *)
Definition differs (v literal : jsval) : bool := negb (bool_decide (v = literal)).

(** * Digests *)
Definition computeGitHubIssueCommentAEOHash (aeo : jsval) : string := sha256_id aeo.

Definition computeGitHubIssueCommentProposedActionHash (a : GitHubIssueCommentATAO) : string :=
  sha256_id (proposed_action_js a).

Definition computeGitHubIssueCommentActionHash (a : GitHubIssueCommentAEO) : string :=
  sha256_id (comment_target_js (c_target a)).

(** * Capture *)
Definition captureGitHubIssueCommentATAO (input : jsval) : option GitHubIssueCommentATAO :=
  if negb (truthy input) then None
  else if negb (is_non_blank (get input "agent_id")) then None
  else if negb (is_non_blank (get input "session_id")) then None
  else if negb (is_non_blank (get input "intent")) then None
  else if negb (is_non_blank (get input "owner")) then None
  else if negb (is_non_blank (get input "repo")) then None
  else if negb (isPositiveInteger (get input "issue_number")) then None
  else if negb (is_non_blank (get input "body")) then None
  else if negb (is_non_blank (get input "timestamp")) then None
  else
    let str k := str_or_empty (get input k) in
    let issue := int_of (get input "issue_number") in
    let body := mkCommentATAO EmptyString (str "agent_id") (str "session_id") (str "intent")
      (mkCommentTarget (str "owner") (str "repo") issue (str "body"))
      (str "owner") (str "repo") issue (str "timestamp") in
    Some (mkCommentATAO (sha256_id (comment_atao_body_js body)) (ca_agent_id body)
      (ca_session_id body) (ca_intent body) (ca_parameters body) (ca_scope_owner body)
      (ca_scope_repo body) (ca_scope_issue body) (ca_timestamp body)).

(** * Compilation *)
Definition compileGitHubIssueCommentAEO (atao : option GitHubIssueCommentATAO) (binding : jsval) :
    option GitHubIssueCommentAEO :=
  match atao with
  | None => None
  | Some atao =>
      if negb (truthy binding) then None
      else if negb (is_non_blank (get binding "decision_id")) then None
      else if negb (is_non_blank (get binding "authority_lineage_hash")) then None
      else if negb (is_non_blank (get binding "policy_id")) then None
      else if negb (is_non_blank (get binding "policy_hash")) then None
      else if negb (is_non_blank (get binding "replay_nonce")) then None
      else if negb (is_non_blank (get binding "allowed_owner")) then None
      else if negb (is_non_blank (get binding "allowed_repo")) then None
      else if negb (isNumberArray (get binding "allowed_issue_numbers"))
              || is_nil (items (get binding "allowed_issue_numbers")) then None
      else if negb (isPositiveInteger (get binding "max_body_length")) then None
      else
        let str k := str_or_empty (get binding k) in
        Some (mkCommentAEO (ca_intent atao)
          (mkCommentScope (str "allowed_owner") (str "allowed_repo")
            (map int_of (items (get binding "allowed_issue_numbers")))
            (int_of (get binding "max_body_length")))
          (mkCommentValidation (str "decision_id") (str "authority_lineage_hash")
            (str "policy_id") (str "policy_hash") (str "replay_nonce"))
          (ca_parameters atao) GITHUB_ISSUE_COMMENT_PROOF_FIELDS)
  end.

(** * Validation *)
Inductive CommentAuthorityStatus := Active | Inactive | Revoked.

#[export] Instance comment_status_eq_dec : EqDecision CommentAuthorityStatus.
Proof. solve_decision. Defined.

Record CommentAuthority := mkCommentAuthority {
  ctx_decision_id : string;
  ctx_authority_lineage_hash : string;
  ctx_policy_id : string;
  ctx_policy_hash : string;
  ctx_status : CommentAuthorityStatus
}.

Record GitHubIssueCommentValidationContext := mkCommentContext {
  ctx_authority : option CommentAuthority;
  ctx_consumed_replay_nonces : option (gset string)
}.

(** [set.has(value)] on a set of strings. *)
Definition has_nonce (s : gset string) (v : jsval) : bool :=
  match v with JStr n => bool_decide (n ∈ s) | _ => false end.

Definition INTENT_KEYS : list string := ["action"; "purpose"].
Definition SCOPE_KEYS : list string :=
  ["allowed_issue_numbers"; "max_body_length"; "owner"; "repo"].
Definition VALIDATION_KEYS : list string :=
  ["aeo_hash_required"; "authority_lineage_hash"; "canonicalization"; "decision_id";
   "policy_hash"; "policy_id"; "replay_nonce"; "requires_issue_policy_match";
   "requires_scope_match"; "requires_unused_nonce"].
Definition TARGET_KEYS : list string :=
  ["action"; "body"; "issue_number"; "owner"; "repo"; "system"].
Definition FINALITY_KEYS : list string :=
  ["expected_result"; "proof_fields"; "proof_required"; "proof_type"; "reconciliation_required";
   "registry_required"; "replay_state_after_success"].

(** Lines 388-418: the field tests, [true] when none answers ['NULL']. *)
Definition comment_fields_ok (aeo : jsval) : bool :=
  let intent := get aeo "intent" in
  let scope := get aeo "scope" in
  let validation := get aeo "validation" in
  let target := get aeo "target" in
  let finality := get aeo "finality" in
  if differs (get intent "action") (JStr "comment_issue") then false
  else if negb (is_non_blank (get intent "purpose")) then false
  else if negb (is_non_blank (get scope "owner")) then false
  else if negb (is_non_blank (get scope "repo")) then false
  else if negb (isNumberArray (get scope "allowed_issue_numbers"))
          || is_nil (items (get scope "allowed_issue_numbers")) then false
  else if negb (isPositiveInteger (get scope "max_body_length")) then false
  else if negb (is_non_blank (get validation "decision_id")) then false
  else if negb (is_non_blank (get validation "authority_lineage_hash")) then false
  else if negb (is_non_blank (get validation "policy_id")) then false
  else if negb (is_non_blank (get validation "policy_hash")) then false
  else if differs (get validation "canonicalization") (JStr "json-canonical-v1") then false
  else if differs (get validation "aeo_hash_required") (JBool true) then false
  else if negb (is_non_blank (get validation "replay_nonce")) then false
  else if differs (get validation "requires_unused_nonce") (JBool true) then false
  else if differs (get validation "requires_scope_match") (JBool true) then false
  else if differs (get validation "requires_issue_policy_match") (JBool true) then false
  else if differs (get target "system") (JStr "github") then false
  else if differs (get target "action") (JStr "comment_issue") then false
  else if negb (is_non_blank (get target "owner")) then false
  else if negb (is_non_blank (get target "repo")) then false
  else if negb (isPositiveInteger (get target "issue_number")) then false
  else if negb (is_non_blank (get target "body")) then false
  else if (int_of (get scope "max_body_length")
           <? Z.of_nat (js_length (str_or_empty (get target "body"))))%Z then false
  else if differs (get finality "proof_required") (JBool true) then false
  else if differs (get finality "proof_type") (JStr "github_issue_comment_execution") then false
  else if differs (get finality "expected_result") (JStr "single_bounded_issue_comment") then false
  else if negb (equalsStringArray (get finality "proof_fields")
                  GITHUB_ISSUE_COMMENT_PROOF_FIELDS) then false
  else if differs (get finality "registry_required") (JBool true) then false
  else if differs (get finality "reconciliation_required") (JBool true) then false
  else if differs (get finality "replay_state_after_success") (JStr "CONSUMED") then false
  else true.

(** [true] is ['VALID']. *)
Definition validateGitHubIssueCommentAEO (aeo : jsval)
    (context : option GitHubIssueCommentValidationContext) (expectedAEOHash : option string) :
    bool :=
  if negb (hasExactKeys aeo GITHUB_ISSUE_COMMENT_AEO_REQUIRED_KEYS) then false
  else if negb (hasExactKeys (get aeo "intent") INTENT_KEYS) then false
  else if negb (hasExactKeys (get aeo "scope") SCOPE_KEYS) then false
  else if negb (hasExactKeys (get aeo "validation") VALIDATION_KEYS) then false
  else if negb (hasExactKeys (get aeo "target") TARGET_KEYS) then false
  else if negb (hasExactKeys (get aeo "finality") FINALITY_KEYS) then false
  else if negb (comment_fields_ok aeo) then false
  else
    let computedHash := computeGitHubIssueCommentAEOHash aeo in
    let scope := get aeo "scope" in
    let validation := get aeo "validation" in
    let target := get aeo "target" in
    if match expectedAEOHash with
       | Some h => negb (String.eqb h computedHash)
       | None => false
       end then false
    else
      match context with
      | Some (mkCommentContext (Some authority) (Some consumed)) =>
          if negb (bool_decide (ctx_status authority = Active)) then false
          else if differs (JStr (ctx_decision_id authority)) (get validation "decision_id")
          then false
          else if differs (JStr (ctx_authority_lineage_hash authority))
                    (get validation "authority_lineage_hash") then false
          else if differs (JStr (ctx_policy_id authority)) (get validation "policy_id") then false
          else if differs (JStr (ctx_policy_hash authority)) (get validation "policy_hash")
          then false
          else if has_nonce consumed (get validation "replay_nonce") then false
          else if differs (get scope "owner") (get target "owner") then false
          else if differs (get scope "repo") (get target "repo") then false
          else if negb (existsb (λ n, bool_decide (n = get target "issue_number"))
                          (items (get scope "allowed_issue_numbers"))) then false
          else true
      | _ => false
      end.

(** * Execution boundary *)
Record GitHubIssueCommentExecutionProof := mkCommentProof {
  cp_proof_id : string;
  cp_atao_id : string;
  cp_validated_object_hash : string;
  cp_executed_object_hash : string;
  cp_owner : string;
  cp_repo : string;
  cp_issue_number : Z;
  cp_comment_id : string;
  cp_comment_url : string;
  cp_proposed_action_hash : string;
  cp_action_hash : string;
  cp_executed_at : string;
  cp_execution_evidence_hash : string;
  cp_emitted_at : string
}.

(** [proofBody]; [aeo_hash] is the executed digest again, and the three times
    of emission are one. *)
Definition comment_proof_body_js (p : GitHubIssueCommentExecutionProof) : jsval :=
  JObj [("atao_id", JStr (cp_atao_id p));
        ("validated_object_hash", JStr (cp_validated_object_hash p));
        ("executed_object_hash", JStr (cp_executed_object_hash p));
        ("aeo_hash", JStr (cp_executed_object_hash p));
        ("target_surface", JStr "github"); ("target_action", JStr "comment_issue");
        ("owner", JStr (cp_owner p)); ("repo", JStr (cp_repo p));
        ("issue_number", jint (cp_issue_number p));
        ("target_issue", JObj [("owner", JStr (cp_owner p)); ("repo", JStr (cp_repo p));
                               ("issue_number", jint (cp_issue_number p))]);
        ("comment_id", JStr (cp_comment_id p)); ("comment_url", JStr (cp_comment_url p));
        ("proposed_action_hash", JStr (cp_proposed_action_hash p));
        ("action_hash", JStr (cp_action_hash p)); ("executed_at", JStr (cp_executed_at p));
        ("timestamp", JStr (cp_emitted_at p)); ("validation_result", JStr "VALID");
        ("result", JStr "EXECUTED");
        ("execution_evidence_hash", JStr (cp_execution_evidence_hash p));
        ("execution_result", JStr "EXECUTED");
        ("replay_nonce_status_after_success", JStr "CONSUMED");
        ("proof_emitted_at", JStr (cp_emitted_at p)); ("creates_authority", JBool false);
        ("emitted_at", JStr (cp_emitted_at p))].

(** [set?.has(value)]. *)
Definition has (set : option (gset string)) (value : string) : bool :=
  match set with Some s => bool_decide (value ∈ s) | None => false end.

Lemma has_false set x : has set x = false ↔ ∀ s, set = Some s → x ∉ s.
Proof. destruct set; simpl; rewrite ?bool_decide_eq_false; naive_solver. Qed.

Lemma has_true set x : has set x = true → ∃ s, set = Some s ∧ x ∈ s.
Proof. destruct set; simpl; rewrite ?bool_decide_eq_true; naive_solver. Qed.

(** The executor comments in the world [W] and answers with its evidence;
    [persistProof] stores a proof there. *)
Section CommentExecute.
Context {W : Type} (executor : CommentTarget → W → W * jsval).
Context (persistProof : option (GitHubIssueCommentExecutionProof → W → W)).

Definition executeGitHubIssueComment (aeo : option GitHubIssueCommentAEO)
    (validated_object_hash : jsval) (validation_result : bool)
    (atao : option GitHubIssueCommentATAO) (emitted_at : jsval)
    (consumed_action_hashes consumed_replay_nonces : option (gset string)) (w : W) :
    W * option (gset string) * option GitHubIssueCommentExecutionProof :=
  let null := (w, consumed_replay_nonces, None) in
  match aeo, atao with
  | Some aeo, Some atao =>
      if negb (is_non_blank validated_object_hash) then null
      else if negb validation_result then null
      else if negb (is_non_blank emitted_at) then null
      else
        let executedObjectHash := computeGitHubIssueCommentAEOHash (comment_aeo_js aeo) in
        if negb (bool_decide (JStr executedObjectHash = validated_object_hash)) then null
        else
          let actionHash := computeGitHubIssueCommentActionHash aeo in
          let proposedActionHash := computeGitHubIssueCommentProposedActionHash atao in
          let nonce := v_replay_nonce (c_validation aeo) in
          if has consumed_replay_nonces nonce then null
          else if has consumed_action_hashes actionHash then null
          else
            let '(w', evidence) := executor (c_target aeo) w in
            if negb (truthy evidence) then (w', consumed_replay_nonces, None)
            else if negb (is_non_blank (get evidence "comment_id"))
            then (w', consumed_replay_nonces, None)
            else if negb (is_non_blank (get evidence "comment_url"))
            then (w', consumed_replay_nonces, None)
            else if negb (is_non_blank (get evidence "executed_at"))
            then (w', consumed_replay_nonces, None)
            else
              let body := mkCommentProof EmptyString (ca_atao_id atao)
                (str_or_empty validated_object_hash) executedObjectHash
                (t_owner (c_target aeo)) (t_repo (c_target aeo)) (t_issue_number (c_target aeo))
                (str_or_empty (get evidence "comment_id"))
                (str_or_empty (get evidence "comment_url"))
                proposedActionHash actionHash (str_or_empty (get evidence "executed_at"))
                (sha256_id evidence) (str_or_empty emitted_at) in
              let proof := mkCommentProof (sha256_id (comment_proof_body_js body))
                (cp_atao_id body) (cp_validated_object_hash body) (cp_executed_object_hash body)
                (cp_owner body) (cp_repo body) (cp_issue_number body) (cp_comment_id body)
                (cp_comment_url body) (cp_proposed_action_hash body) (cp_action_hash body)
                (cp_executed_at body) (cp_execution_evidence_hash body) (cp_emitted_at body) in
              (match persistProof with Some f => f proof w' | None => w' end,
               option_map (λ s, {[nonce]} ∪ s) consumed_replay_nonces, Some proof)
  | _, _ => null
  end.
End CommentExecute.

(** * Specification of validation *)

(** [v] is an object with the keys of [w] and no other, carrying its
    properties. *)
Definition exact_section (v w : jsval) : Prop :=
  carries v w ∧ sorted_keys v = sorted_keys w.

(** [v] is the object of [a], up to the order of properties. *)
Definition comment_object (v : jsval) (a : GitHubIssueCommentAEO) : Prop :=
  is_record v = true ∧ sorted_keys v = sorted_keys (comment_aeo_js a)
  ∧ Forall (λ kv, exact_section (get v kv.1) kv.2) (props (comment_aeo_js a)).

Definition target_ok (t : CommentTarget) : bool :=
  non_blank (t_owner t) && non_blank (t_repo t) && (0 <? t_issue_number t)%Z
  && non_blank (t_body t).

Definition comment_scope_ok (s : CommentScope) : bool :=
  non_blank (s_owner s) && non_blank (s_repo s)
  && (forallb (Z.ltb 0) (s_allowed_issue_numbers s) && negb (is_nil (s_allowed_issue_numbers s)))
  && (0 <? s_max_body_length s)%Z.

Definition comment_validation_ok (v : CommentValidation) : bool :=
  non_blank (v_decision_id v) && non_blank (v_authority_lineage_hash v)
  && non_blank (v_policy_id v) && non_blank (v_policy_hash v) && non_blank (v_replay_nonce v).

Definition comment_wf (a : GitHubIssueCommentAEO) : bool :=
  non_blank (c_purpose a) && comment_scope_ok (c_scope a) && comment_validation_ok (c_validation a)
  && target_ok (c_target a)
  && (Z.of_nat (js_length (t_body (c_target a))) <=? s_max_body_length (c_scope a))%Z
  && bool_decide (c_proof_fields a = GITHUB_ISSUE_COMMENT_PROOF_FIELDS).

(** The target lies inside the scope. *)
Definition in_scope (s : CommentScope) (t : CommentTarget) : Prop :=
  s_owner s = t_owner t ∧ s_repo s = t_repo t ∧ t_issue_number t ∈ s_allowed_issue_numbers s.

(** The authority is the one the object names, and is active. *)
Definition authorized (auth : CommentAuthority) (v : CommentValidation) : Prop :=
  ctx_status auth = Active ∧ ctx_decision_id auth = v_decision_id v
  ∧ ctx_authority_lineage_hash auth = v_authority_lineage_hash v
  ∧ ctx_policy_id auth = v_policy_id v ∧ ctx_policy_hash auth = v_policy_hash v.

(** ** One lemma per guard *)
Lemma differs_false v w : differs v w = false ↔ v = w.
Proof. unfold differs. rewrite negb_false_iff, bool_decide_eq_true. done. Qed.

Lemma non_blank_read v :
  is_non_blank v = true → v = JStr (str_or_empty v) ∧ non_blank (str_or_empty v) = true.
Proof. by destruct v. Qed.

Lemma positive_inv v :
  isPositiveInteger v = true → v = jint (int_of v) ∧ (0 <? int_of v)%Z = true.
Proof. destruct v as [| | |[]| | |]; try done. Qed.

Lemma number_array_inv v :
  isNumberArray v = true →
  v = JArr (map jint (map int_of (items v)))
  ∧ forallb (Z.ltb 0) (map int_of (items v)) = true.
Proof.
  destruct v as [| | | | |l|]; try done. simpl. intros H.
  induction l as [|x l IH]; [done|]. simpl in *.
  apply andb_true_iff in H as [[Ex Hp]%positive_inv Hl]. apply IH in Hl as [[= El] ->].
  by rewrite <- El, <- Ex, Hp.
Qed.

Lemma number_array_jint l : isNumberArray (JArr (map jint l)) = forallb (Z.ltb 0) l.
Proof. simpl. induction l as [|z l IH]; [done|]. simpl. by rewrite IH. Qed.

Lemma int_of_jint l : map int_of (map jint l) = l.
Proof. induction l as [|z l IH]; [done|]. simpl. by rewrite IH. Qed.

Lemma same_entries_eq l m :
  length l = length m → same_entries l m = true ↔ l = map JStr m.
Proof.
  revert m. induction l as [|x l IH]; intros [|s m]; try done. simpl. intros [= Hl].
  rewrite andb_true_iff, bool_decide_eq_true, IH by done. naive_solver.
Qed.

Lemma equalsStringArray_iff v m : equalsStringArray v m = true ↔ v = JArr (map JStr m).
Proof.
  destruct v as [| | | | |l|]; try done. simpl. rewrite andb_true_iff, Nat.eqb_eq. split.
  - intros [Hl He]. by apply same_entries_eq in He as ->.
  - intros [= ->]. rewrite length_map. split; [done|]. by apply same_entries_eq; rewrite ?length_map.
Qed.

Lemma hasExactKeys_iff v ks :
  hasExactKeys v ks = true ↔ is_record v = true ∧ sorted_keys v = sort_by str_leb ks.
Proof.
  unfold hasExactKeys. cbn zeta. rewrite !andb_true_iff, Nat.eqb_eq. split.
  - intros (Hr & Hl & Hm). split; [done|]. by apply keys_match_eq in Hm.
  - intros (Hr & E). rewrite E. split; [done|]. split; [done|]. by apply keys_match_eq.
Qed.

Lemma includes_issue l n :
  existsb (λ x, bool_decide (x = jint n)) (map jint l) = true ↔ n ∈ l.
Proof.
  rewrite existsb_exists. setoid_rewrite bool_decide_eq_true. split.
  - intros (x & Hx & ->). apply in_map_iff in Hx as (m & [= <-] & Hm). by apply list_elem_of_In.
  - intros Hn%list_elem_of_In. exists (jint n). split; [by apply in_map|done].
Qed.

(** ** Reading the object back *)
Definition comment_read (v : jsval) : GitHubIssueCommentAEO :=
  let str s k := str_or_empty (get (get v s) k) in
  mkCommentAEO (str "intent" "purpose")
    (mkCommentScope (str "scope" "owner") (str "scope" "repo")
      (map int_of (items (get (get v "scope") "allowed_issue_numbers")))
      (int_of (get (get v "scope") "max_body_length")))
    (mkCommentValidation (str "validation" "decision_id")
      (str "validation" "authority_lineage_hash") (str "validation" "policy_id")
      (str "validation" "policy_hash") (str "validation" "replay_nonce"))
    (mkCommentTarget (str "target" "owner") (str "target" "repo")
      (int_of (get (get v "target") "issue_number")) (str "target" "body"))
    GITHUB_ISSUE_COMMENT_PROOF_FIELDS.

(** The guards passed, as facts about the fields. *)
Ltac comment_passed :=
  repeat match goal with
  | H : (if ?b then false else _) = true |- _ => destruct b eqn:?; [discriminate H|]
  end; boolify;
  repeat match goal with
  | H : differs _ _ = false |- _ => apply differs_false in H
  | H : is_non_blank _ = true |- _ => apply non_blank_read in H as [? ?]
  | H : isPositiveInteger _ = true |- _ => apply positive_inv in H as [? ?]
  | H : isNumberArray _ = true |- _ => apply number_array_inv in H as [? ?]
  | H : equalsStringArray _ _ = true |- _ => apply equalsStringArray_iff in H
  end.

(** A property of every entry of an explicit list. *)
Ltac all_items :=
  repeat first [apply Forall_nil; exact I | apply Forall_cons; split; simpl].

Lemma comment_fields_read v :
  comment_fields_ok v = true →
  comment_wf (comment_read v) = true
  ∧ Forall (λ kv, Forall (λ p, get (get v kv.1) p.1 = p.2) (props kv.2))
      (props (comment_aeo_js (comment_read v))).
Proof.
  unfold comment_fields_ok. cbn zeta. intros H. comment_passed.
  unfold comment_wf, comment_scope_ok, comment_validation_ok, target_ok, comment_read; simpl.
  split.
  - rewrite !andb_true_iff. repeat split; try done.
    + apply negb_true_iff. destruct (items _); [done|]. done.
    + by apply Z.leb_le.
  - all_items; try done; congruence.
Qed.


(** The equations of a list of sections. *)
Ltac open_sections :=
  repeat match goal with
  | H : Forall _ (_ :: _) |- _ => apply Forall_cons in H as [? H]; simpl in *
  | H : exact_section _ _ |- _ => destruct H as [[_ H] _]; simpl in H
  | H : Forall _ [] |- _ => clear H
  end.

(** Conversely the object of a well-formed record passes every field test. *)
Lemma comment_fields_complete v a :
  comment_object v a → comment_wf a = true → comment_fields_ok v = true.
Proof.
  intros (_ & _ & Hs) Hwf. destruct a as [pu [so sr al mb] [vd vl vp vh vn] [to tr ti tb] pf].
  unfold comment_wf, comment_scope_ok, comment_validation_ok, target_ok in Hwf; simpl in Hwf, Hs.
  boolify. subst pf.
  open_sections.
  unfold comment_fields_ok. cbn zeta.
  repeat match goal with E : get _ _ = _ |- _ => rewrite E; clear E end.
  rewrite number_array_jint.
  repeat match goal with E : non_blank _ = true |- _ => progress (simpl; rewrite E) end.
  assert (is_nil (map jint al) = false) as Hal by (by destruct al).
  cbn [items is_non_blank str_or_empty int_of isPositiveInteger jint].
  repeat match goal with E : non_blank _ = true |- _ => rewrite E end.
  rewrite Hal. repeat match goal with E : (_ < _)%Z |- _ => rewrite (proj2 (Z.ltb_lt _ _) E) end.
  repeat match goal with E : forallb _ _ = true |- _ => rewrite E end.
  rewrite (proj2 (Z.ltb_ge _ _)) by done. reflexivity.
Qed.

(** The context tests, on the record. *)
Definition comment_context_ok (context : option GitHubIssueCommentValidationContext)
    (a : GitHubIssueCommentAEO) : Prop :=
  ∃ auth ns, context = Some (mkCommentContext (Some auth) (Some ns))
    ∧ authorized auth (c_validation a) ∧ (v_replay_nonce (c_validation a) ∉ ns)
    ∧ in_scope (c_scope a) (c_target a).

Lemma comment_exact v a :
  comment_object v a ↔
  ((hasExactKeys v GITHUB_ISSUE_COMMENT_AEO_REQUIRED_KEYS
   && hasExactKeys (get v "intent") INTENT_KEYS && hasExactKeys (get v "scope") SCOPE_KEYS
   && hasExactKeys (get v "validation") VALIDATION_KEYS
   && hasExactKeys (get v "target") TARGET_KEYS
   && hasExactKeys (get v "finality") FINALITY_KEYS) = true)
  ∧ Forall (λ kv, Forall (λ p, get (get v kv.1) p.1 = p.2) (props kv.2))
      (props (comment_aeo_js a)).
Proof.
  unfold comment_object, exact_section, carries. rewrite !andb_true_iff, !hasExactKeys_iff.
  simpl. rewrite !Forall_cons. simpl.
  change (sorted_keys (comment_aeo_js a)) with (sort_by str_leb GITHUB_ISSUE_COMMENT_AEO_REQUIRED_KEYS).
  change (sorted_keys (comment_intent_js _)) with (sort_by str_leb INTENT_KEYS).
  change (sorted_keys (comment_scope_js _)) with (sort_by str_leb SCOPE_KEYS).
  change (sorted_keys (comment_validation_js _)) with (sort_by str_leb VALIDATION_KEYS).
  change (sorted_keys (comment_target_js _)) with (sort_by str_leb TARGET_KEYS).
  change (sorted_keys (comment_finality_js _)) with (sort_by str_leb FINALITY_KEYS).
  simpl. rewrite !(Forall_nil (A:=string * jsval)). tauto.
Qed.

Lemma comment_context_iff v a context :
  comment_object v a → comment_wf a = true →
  match context with
  | Some (mkCommentContext (Some authority) (Some consumed)) =>
      if negb (bool_decide (ctx_status authority = Active)) then false
      else if differs (JStr (ctx_decision_id authority)) (get (get v "validation") "decision_id")
      then false
      else if differs (JStr (ctx_authority_lineage_hash authority))
                (get (get v "validation") "authority_lineage_hash") then false
      else if differs (JStr (ctx_policy_id authority)) (get (get v "validation") "policy_id")
      then false
      else if differs (JStr (ctx_policy_hash authority)) (get (get v "validation") "policy_hash")
      then false
      else if has_nonce consumed (get (get v "validation") "replay_nonce") then false
      else if differs (get (get v "scope") "owner") (get (get v "target") "owner") then false
      else if differs (get (get v "scope") "repo") (get (get v "target") "repo") then false
      else if negb (existsb (λ n, bool_decide (n = get (get v "target") "issue_number"))
                      (items (get (get v "scope") "allowed_issue_numbers"))) then false
      else true
  | _ => false
  end = true ↔ comment_context_ok context a.
Proof.
  intros (_ & _ & Hs) _. unfold comment_context_ok, authorized, in_scope.
  destruct context as [[[auth|] [ns|]]|];
    try (split; [discriminate|intros (? & ? & ? & _); congruence]).
  destruct a as [pu [so sr al mb] [vd vl vp vh vn] [to tr ti tb] pf]; simpl in *.
  open_sections.
  repeat match goal with E : get _ _ = _ |- _ => rewrite E; clear E end. simpl.
  split.
  - intros H. comment_passed.
    match goal with E : existsb _ _ = true |- _ => apply includes_issue in E end.
    eexists _, _. split; [done|]. naive_solver.
  - intros (auth' & ns' & [= <- <-] & (-> & -> & -> & -> & ->) & Hn & -> & -> & Hi).
    rewrite (proj2 (includes_issue _ _) Hi), (bool_decide_false (vn ∈ ns)) by done.
    unfold differs. by rewrite !bool_decide_true.
Qed.

(** The validator answers VALID exactly on the objects of well-formed records,
    under the expected digest when one is given, whose authority is active and
    named by the object, whose nonce is unused and whose target is in scope. *)
Lemma comment_validate_spec v context h :
  validateGitHubIssueCommentAEO v context h = true ↔
  ∃ a, comment_object v a ∧ comment_wf a = true
    ∧ (∀ h', h = Some h' → h' = sha256_id v) ∧ comment_context_ok context a.
Proof.
  unfold validateGitHubIssueCommentAEO, computeGitHubIssueCommentAEOHash. cbn zeta. split.
  - intros H. do 7 (case_scrutinee; [discriminate|]). boolify.
    match goal with E : comment_fields_ok _ = true |- _ => pose proof (comment_fields_read v E) as [Hwf Hs] end.
    assert (comment_object v (comment_read v)) as Hobj.
    { apply comment_exact. split; [by rewrite !andb_true_iff|done]. }
    exists (comment_read v). split; [done|]. split; [done|].
    match type of H with (if ?b then _ else _) = _ => destruct b eqn:E; [discriminate|] end.
    apply (comment_context_iff v (comment_read v)) in H; [|done..]. split; [|done].
    intros h' ->. by apply negb_false_iff, String.eqb_eq in E.
  - intros (a & Hobj & Hwf & Hh & Hc).
    pose proof Hobj as [Hk _]%comment_exact. rewrite !andb_true_iff in Hk.
    destruct Hk as (((((-> & ->) & ->) & ->) & ->) & ->).
    rewrite (comment_fields_complete v a) by done. simpl.
    destruct h as [h|]; [rewrite (Hh h), String.eqb_refl by done|];
      by apply (comment_context_iff v a).
Qed.

(** ** The digest binds the object *)
Lemma normalize_ints l m : map normalize (map jint l) = map normalize m → m = map jint l.
Proof.
  revert m. induction l as [|z l IH]; intros [|y m]; try done. simpl. intros [= Ey El].
  f_equal; [|by apply IH]. destruct y as [| | |[]| | |]; naive_solver.
Qed.

(** Values determined by their normal form, lists of integers included. *)
Definition fixed (v : jsval) : Prop := rigid v = true ∨ ∃ l, v = JArr (map jint l).

Lemma fixed_inj v w : fixed v → normalize v = normalize w → w = v.
Proof.
  intros [H|[l ->]]; [by apply rigid_inj|].
  destruct w as [| | |[]| |m|]; try done. rewrite !normalize_arr.
  intros [= E]. by apply normalize_ints in E as ->.
Qed.

Lemma same_field v w k x s :
  s ≠ proto_key → k ≠ proto_key → normalize v = normalize w →
  get (get v s) k = x → fixed x → get (get w s) k = x.
Proof.
  intros Hs Hk E <- Hf. apply fixed_inj; [done|]. by apply normalize_get, normalize_get.
Qed.

Lemma jint_map_inj l m : map jint l = map jint m → l = m.
Proof. intros E. by rewrite <- (int_of_jint l), E, int_of_jint. Qed.

Lemma jstr_map_inj l m : map JStr l = map JStr m → l = m.
Proof. revert m. induction l as [|s l IH]; intros [|t m]; try done. intros [= -> E]. f_equal. auto. Qed.

(** An object with the normal form of the object of [b] carries [b]. *)
Lemma comment_object_unique v a b :
  comment_object v a → normalize v = normalize (comment_aeo_js b) → a = b.
Proof.
  intros (_ & _ & Hs) E.
  destruct a as [pu [so sr al mb] [vd vl vp vh vn] [to tr ti tb] pf]; simpl in Hs.
  open_sections.
  repeat match goal with
  | H : get (get v ?s) ?k = ?x |- _ =>
      assert (get (get (comment_aeo_js b) s) k = x)
        by (apply (same_field v _ k x s);
            [discriminate|discriminate|exact E|exact H
            |first [left; reflexivity | left; apply strings_rigid | right; eauto]]);
      clear H
  end.
  clear E. destruct b as [pu' [so' sr' al' mb'] [vd' vl' vp' vh' vn'] [to' tr' ti' tb'] pf'].
  simpl in *.
  simplify_eq.
  repeat match goal with
  | H : map jint _ = map jint _ |- _ => apply jint_map_inj in H as ->
  | H : map JStr _ = map JStr _ |- _ => apply jstr_map_inj in H as ->
  end.
  done.
Qed.

(** * The execution boundary *)
Section CommentExecuteSpec.
Context {W : Type} (executor : CommentTarget → W → W * jsval).
Context (persistProof : option (GitHubIssueCommentExecutionProof → W → W)).

Abbreviation exec := (executeGitHubIssueComment executor persistProof).

(** Evidence the boundary accepts. *)
Definition evidence_ok (evidence : jsval) : bool :=
  truthy evidence && is_non_blank (get evidence "comment_id")
  && is_non_blank (get evidence "comment_url") && is_non_blank (get evidence "executed_at").

(** The conditions under which the executor is called. *)
Definition admits (a : GitHubIssueCommentAEO) (vh : jsval) (ok : bool) (em : jsval)
    (hashes nonces : option (gset string)) : Prop :=
  vh = JStr (sha256_id (comment_aeo_js a)) ∧ ok = true ∧ is_non_blank em = true
  ∧ (∀ s, nonces = Some s → v_replay_nonce (c_validation a) ∉ s)
  ∧ (∀ s, hashes = Some s → computeGitHubIssueCommentActionHash a ∉ s).

(** What a call does: nothing, or one call of the executor on the target,
    followed by the proof, its storage and the marking of the nonce when the
    evidence is accepted. *)
Inductive comment_outcome (aeo : option GitHubIssueCommentAEO) (vh : jsval) (ok : bool)
    (atao : option GitHubIssueCommentATAO) (em : jsval) (hashes nonces : option (gset string))
    (w : W) : W * option (gset string) * option GitHubIssueCommentExecutionProof → Prop :=
  | comment_refused :
      (∀ a t, aeo = Some a → atao = Some t → ¬ admits a vh ok em hashes nonces) →
      comment_outcome aeo vh ok atao em hashes nonces w (w, nonces, None)
  | comment_unproved a t :
      aeo = Some a → atao = Some t → admits a vh ok em hashes nonces →
      evidence_ok (executor (c_target a) w).2 = false →
      comment_outcome aeo vh ok atao em hashes nonces w
        ((executor (c_target a) w).1, nonces, None)
  | comment_proved a t p :
      aeo = Some a → atao = Some t → admits a vh ok em hashes nonces →
      evidence_ok (executor (c_target a) w).2 = true →
      cp_proof_id p = sha256_id (comment_proof_body_js p) →
      cp_validated_object_hash p = sha256_id (comment_aeo_js a) →
      cp_executed_object_hash p = sha256_id (comment_aeo_js a) →
      cp_action_hash p = computeGitHubIssueCommentActionHash a →
      cp_proposed_action_hash p = computeGitHubIssueCommentProposedActionHash t →
      cp_atao_id p = ca_atao_id t →
      cp_execution_evidence_hash p = sha256_id (executor (c_target a) w).2 →
      comment_outcome aeo vh ok atao em hashes nonces w
        (match persistProof with
         | Some f => f p (executor (c_target a) w).1
         | None => (executor (c_target a) w).1
         end, option_map (union {[v_replay_nonce (c_validation a)]}) nonces, Some p).

Lemma comment_execute_outcome aeo vh ok atao em hashes nonces w :
  comment_outcome aeo vh ok atao em hashes nonces w (exec aeo vh ok atao em hashes nonces w).
Proof.
  unfold executeGitHubIssueComment, computeGitHubIssueCommentAEOHash. cbn zeta.
  destruct aeo as [a|]; [|by apply comment_refused]. destruct atao as [t|]; [|by apply comment_refused].
  destruct (is_non_blank vh) eqn:Ev; simpl;
    [|apply comment_refused; intros ? ? [= <-] _ (-> & _); simpl in Ev; by rewrite sha256_id_non_blank in Ev].
  destruct ok; simpl; [|apply comment_refused; intros ? ? _ _ (_ & ? & _); done].
  destruct (is_non_blank em) eqn:Eem; simpl; [|apply comment_refused; intros ? ? _ _ (_ & _ & ? & _); congruence].
  case_bool_decide as Eh; simpl; [|apply comment_refused; intros ? ? [= <-] _ (-> & _); done].
  destruct (has nonces _) eqn:En.
  { apply comment_refused. intros ? ? [= <-] _ (_ & _ & _ & Hn & _).
    apply has_true in En as (s & Es & Hs). by apply (Hn s). }
  destruct (has hashes _) eqn:Ea.
  { apply comment_refused. intros ? ? [= <-] _ (_ & _ & _ & _ & Hn).
    apply has_true in Ea as (s & Es & Hs). by apply (Hn s). }
  assert (admits a vh true em hashes nonces) as Hadm
    by (unfold admits; rewrite <- !has_false; done).
  pose proof (comment_unproved (Some a) vh true (Some t) em hashes nonces w a t eq_refl eq_refl Hadm) as Hu.
  pose proof (comment_proved (Some a) vh true (Some t) em hashes nonces w a t) as Hp.
  unfold evidence_ok in Hu, Hp. destruct (executor (c_target a) w) as [w' ev]; simpl in *.
  destruct (truthy ev); simpl in *; [|by apply Hu].
  destruct (is_non_blank (get ev "comment_id")); simpl in *; [|by apply Hu].
  destruct (is_non_blank (get ev "comment_url")); simpl in *; [|by apply Hu].
  destruct (is_non_blank (get ev "executed_at")); simpl in *; [|by apply Hu].
  apply Hp; try done. simpl. by rewrite <- Eh.
Qed.

(** An admitted object with good evidence is proved. *)
Lemma comment_execute_proved a vh ok t em hashes nonces w :
  admits a vh ok em hashes nonces → evidence_ok (executor (c_target a) w).2 = true →
  ∃ p, exec (Some a) vh ok (Some t) em hashes nonces w
      = (match persistProof with
         | Some f => f p (executor (c_target a) w).1
         | None => (executor (c_target a) w).1
         end, option_map (union {[v_replay_nonce (c_validation a)]}) nonces, Some p)
    ∧ cp_atao_id p = ca_atao_id t
    ∧ cp_validated_object_hash p = sha256_id (comment_aeo_js a)
    ∧ cp_executed_object_hash p = sha256_id (comment_aeo_js a)
    ∧ cp_action_hash p = computeGitHubIssueCommentActionHash a
    ∧ cp_proposed_action_hash p = computeGitHubIssueCommentProposedActionHash t.
Proof.
  intros Hadm Hev.
  pose proof (comment_execute_outcome (Some a) vh ok (Some t) em hashes nonces w) as Ho.
  inversion Ho as [Hno E|b t' [= <-] _ _ Hr E|b t' p [= <-] [= <-] _ _ _ ????? _ E].
  - by destruct (Hno a t eq_refl eq_refl).
  - congruence.
  - exists p. done.
Qed.

(** [a] has the digest of [v]. It is the object of [v], field for field, with
    its target inside its scope and its body inside its length, unless the texts
    of [v] and [a] are a collision. *)
Definition validated_as (v : jsval) (a : GitHubIssueCommentAEO) : Prop :=
  sha256_id v = sha256_id (comment_aeo_js a)
  ∧ (comment_object v a ∧ in_scope (c_scope a) (c_target a)
       ∧ (Z.of_nat (js_length (t_body (c_target a))) <= s_max_body_length (c_scope a))%Z
     ∨ collision_in [canonicalize v; canonicalize (comment_aeo_js a)]).

(** C28. Exact comment: once the validator has answered VALID on [v], the
    executor is called at most once, and only on the target of an object with the
    digest of [v]; that object is the object of [v], field for field, in scope
    and in length, unless these two texts are a collision of SHA-256. A proof
    means such a call, under a nonce that was unused and is now marked, with
    evidence it accepted and whose digest the proof carries; no proof means no
    mark, and no call unless the evidence was refused. *)
Theorem comment_execution_exact v context h aeo atao em hashes nonces w w' nonces' p :
  validateGitHubIssueCommentAEO v context h = true →
  exec aeo (JStr (computeGitHubIssueCommentAEOHash v)) true atao em hashes (Some nonces) w
  = (w', nonces', p) →
  match p with
  | None =>
      nonces' = Some nonces
      ∧ (w' = w ∨ ∃ a, aeo = Some a ∧ validated_as v a
           ∧ w' = (executor (c_target a) w).1 ∧ evidence_ok (executor (c_target a) w).2 = false)
  | Some p =>
      ∃ a, aeo = Some a ∧ validated_as v a
        ∧ (v_replay_nonce (c_validation a) ∉ nonces)
        ∧ nonces' = Some ({[v_replay_nonce (c_validation a)]} ∪ nonces)
        ∧ w' = match persistProof with
               | Some f => f p (executor (c_target a) w).1
               | None => (executor (c_target a) w).1
               end
        ∧ evidence_ok (executor (c_target a) w).2 = true
        ∧ cp_validated_object_hash p = cp_executed_object_hash p
        ∧ cp_execution_evidence_hash p = sha256_id (executor (c_target a) w).2
        ∧ cp_proof_id p = sha256_id (comment_proof_body_js p)
  end.
Proof.
  unfold computeGitHubIssueCommentAEOHash.
  intros (b & Hb & Hwf & _ & auth & ns & _ & _ & _ & Hscope)%comment_validate_spec E.
  pose proof (comment_execute_outcome aeo (JStr (sha256_id v)) true atao em hashes
    (Some nonces) w) as Ho.
  rewrite E in Ho.
  assert (∀ a, JStr (sha256_id v) = JStr (sha256_id (comment_aeo_js a)) → validated_as v a) as Hsame.
  { intros a Ea. assert (sha256_id v = sha256_id (comment_aeo_js a)) as Eh by congruence.
    split; [done|]. destruct (sha256_id_binding _ _ Eh) as [En|]; [left|by right].
    assert (b = a) as <- by (by eapply comment_object_unique). unfold comment_wf in Hwf. boolify. done. }
  inversion Ho as [Hno|a t Ha Ht Hadm He|a t q Ha Ht Hadm He H1 H2 H3 _ _ _ H7]; subst;
    [by eauto|..]; destruct Hadm as (Hv & _ & _ & Hn & _).
  - split; [done|]. right. exists a. split; [done|]. split; [by apply Hsame|done].
  - exists a. split; [done|]. split; [by apply Hsame|].
    split; [by apply (Hn nonces)|]. repeat (split; [done|]). split; [congruence|]. done.
Qed.

End CommentExecuteSpec.

(** Nothing ties the captured action to the executed object: the same
    object executed with any other captured action is proved as well, and the
    proof then names that other action as its origin. *)
Theorem foreign_action_proved {W} (executor : CommentTarget → W → W * jsval)
    a t t' vh ok em hashes nonces w w' nonces' p :
  executeGitHubIssueComment executor None (Some a) vh ok (Some t) em hashes nonces w
  = (w', nonces', Some p) →
  ∃ p', executeGitHubIssueComment executor None (Some a) vh ok (Some t') em hashes nonces w
      = (w', nonces', Some p')
    ∧ cp_atao_id p' = ca_atao_id t'
    ∧ cp_proposed_action_hash p' = computeGitHubIssueCommentProposedActionHash t'
    ∧ cp_action_hash p' = cp_action_hash p
    ∧ cp_executed_object_hash p' = cp_executed_object_hash p.
Proof.
  intros E.
  pose proof (comment_execute_outcome executor None (Some a) vh ok (Some t) em hashes nonces w) as Ho.
  rewrite E in Ho.
  inversion Ho as [| |a1 t1 q [= <-] _ Hadm He _ _ H3 H4 _ _ _]; subst.
  destruct (comment_execute_proved executor None a vh ok t' em hashes nonces w Hadm He)
    as (p' & E' & Hid & _ & Hx & Ha & Hp).
  exists p'. split; [done|]. repeat split; congruence.
Qed.

(** * From capture to proof *)
Lemma comment_object_self a : comment_object (comment_aeo_js a) a.
Proof.
  split; [done|]. split; [done|]. simpl. unfold exact_section, carries.
  all_items; repeat split; all_items; done.
Qed.

Lemma comment_captured input t :
  captureGitHubIssueCommentATAO input = Some t →
  non_blank (ca_intent t) = true ∧ target_ok (ca_parameters t) = true
  ∧ ca_atao_id t = sha256_id (comment_atao_body_js t)
  ∧ Forall (λ kv, get input kv.1 = kv.2)
      [("agent_id", JStr (ca_agent_id t)); ("session_id", JStr (ca_session_id t));
       ("intent", JStr (ca_intent t)); ("owner", JStr (t_owner (ca_parameters t)));
       ("repo", JStr (t_repo (ca_parameters t)));
       ("issue_number", jint (t_issue_number (ca_parameters t)));
       ("body", JStr (t_body (ca_parameters t))); ("timestamp", JStr (ca_timestamp t))].
Proof.
  unfold captureGitHubIssueCommentATAO. intros H.
  repeat match goal with
  | H : (if ?b then None else _) = Some _ |- _ => destruct b eqn:?; [discriminate H|]
  end. boolify. injection H as <-. comment_passed.
  unfold target_ok; simpl. split; [done|]. split; [by rewrite !andb_true_iff|].
  split; [done|]. all_items; done.
Qed.

Lemma comment_compiled t binding a :
  compileGitHubIssueCommentAEO (Some t) binding = Some a →
  c_purpose a = ca_intent t ∧ c_target a = ca_parameters t
  ∧ comment_scope_ok (c_scope a) = true ∧ comment_validation_ok (c_validation a) = true
  ∧ c_proof_fields a = GITHUB_ISSUE_COMMENT_PROOF_FIELDS
  ∧ Forall (λ kv, get binding kv.1 = kv.2)
      [("allowed_owner", JStr (s_owner (c_scope a))); ("allowed_repo", JStr (s_repo (c_scope a)));
       ("allowed_issue_numbers", JArr (map jint (s_allowed_issue_numbers (c_scope a))));
       ("max_body_length", jint (s_max_body_length (c_scope a)));
       ("decision_id", JStr (v_decision_id (c_validation a)));
       ("replay_nonce", JStr (v_replay_nonce (c_validation a)))].
Proof.
  unfold compileGitHubIssueCommentAEO. intros H.
  repeat match goal with
  | H : (if ?b then None else _) = Some _ |- _ => destruct b eqn:?; [discriminate H|]
  end. boolify. injection H as <-. comment_passed.
  unfold comment_scope_ok, comment_validation_ok; simpl.
  split; [done|]. split; [done|]. split; [|split; [by rewrite !andb_true_iff|split; [done|]]].
  - rewrite !andb_true_iff. repeat split; try done. apply negb_true_iff. by destruct (items _).
  - all_items; done.
Qed.

(** C30. The pipeline: an object compiled from a captured action is valid exactly
    when the body fits the limit of the binding and the context admits it (the
    authority is the active one of the binding, the nonce is unused, the target
    is in scope); and a valid one, under a nonce and an action not marked
    consumed, is executed and proved as soon as the executor gives evidence. *)
Theorem comment_pipeline {W} (executor : CommentTarget → W → W * jsval) input t binding a context :
  captureGitHubIssueCommentATAO input = Some t →
  compileGitHubIssueCommentAEO (Some t) binding = Some a →
  let h := computeGitHubIssueCommentAEOHash (comment_aeo_js a) in
  let verdict := validateGitHubIssueCommentAEO (comment_aeo_js a) context (Some h) in
  (verdict = true ↔
    (Z.of_nat (js_length (t_body (ca_parameters t))) <= s_max_body_length (c_scope a))%Z
    ∧ comment_context_ok context a)
  ∧ ∀ em hashes nonces w,
    verdict = true → is_non_blank em = true →
    has nonces (v_replay_nonce (c_validation a)) = false →
    has hashes (computeGitHubIssueCommentActionHash a) = false →
    evidence_ok (executor (ca_parameters t) w).2 = true →
    ∃ p, executeGitHubIssueComment executor None (Some a) (JStr h) verdict (Some t) em hashes nonces w
        = ((executor (ca_parameters t) w).1,
           option_map (union {[v_replay_nonce (c_validation a)]}) nonces, Some p)
      ∧ cp_atao_id p = ca_atao_id t ∧ cp_validated_object_hash p = h.
Proof.
  intros (Hi & Ht & _ & _)%comment_captured (Ep & Et & Hs & Hv & Ef & _)%comment_compiled h verdict.
  split.
  - unfold verdict. rewrite comment_validate_spec. split.
    + intros (b & Hb & Hwf & _ & Hc).
      assert (b = a) as -> by (by eapply comment_object_unique).
      unfold comment_wf in Hwf. boolify. by rewrite <- Et.
    + intros [Hl Hc]. exists a. split; [apply comment_object_self|].
      split; [|split; [by intros h' [= <-]|done]].
      unfold comment_wf. rewrite Ep, Hs, Hv, Et, Hi, Ht. simpl.
      rewrite andb_true_iff, Z.leb_le, bool_decide_eq_true. done.
  - intros em hashes nonces w Hok Hem Hn Ha Hev. rewrite Hok.
    rewrite <- Et in Hev |- *.
    destruct (comment_execute_proved executor None a (JStr h) true t em hashes nonces w)
      as (p & E & Hid & Hvh & _); [unfold admits; rewrite <- !has_false; done|done|].
    exists p. done.
Qed.

(** * A concrete comment *)
Definition comment_input : jsval :=
  JObj [("agent_id", JStr "agent-1"); ("session_id", JStr "session-1");
        ("intent", JStr "report status"); ("owner", JStr "octo"); ("repo", JStr "site");
        ("issue_number", jint 7); ("body", JStr "done"); ("timestamp", JStr "2026-01-01T00:00:00Z")].

Definition comment_binding : jsval :=
  JObj [("decision_id", JStr "D-1"); ("authority_lineage_hash", JStr "sha256:l");
        ("policy_id", JStr "P-1"); ("policy_hash", JStr "sha256:p"); ("replay_nonce", JStr "n-1");
        ("allowed_owner", JStr "octo"); ("allowed_repo", JStr "site");
        ("allowed_issue_numbers", JArr [jint 7; jint 9]); ("max_body_length", jint 100)].

Definition comment_parameters : CommentTarget := mkCommentTarget "octo" "site" 7 "done".

Definition comment_atao (id : string) : GitHubIssueCommentATAO :=
  mkCommentATAO id "agent-1" "session-1" "report status" comment_parameters "octo" "site" 7
    "2026-01-01T00:00:00Z".

Definition comment_source : GitHubIssueCommentATAO :=
  comment_atao (sha256_id (comment_atao_body_js (comment_atao EmptyString))).

Definition comment_aeo : GitHubIssueCommentAEO :=
  mkCommentAEO "report status" (mkCommentScope "octo" "site" [7; 9]%Z 100)
    (mkCommentValidation "D-1" "sha256:l" "P-1" "sha256:p" "n-1") comment_parameters
    GITHUB_ISSUE_COMMENT_PROOF_FIELDS.

Definition comment_context : option GitHubIssueCommentValidationContext :=
  Some (mkCommentContext (Some (mkCommentAuthority "D-1" "sha256:l" "P-1" "sha256:p" Active)) (Some ∅)).

Definition comment_evidence : jsval :=
  JObj [("comment_id", JStr "c-1"); ("comment_url", JStr "https://example.test/c-1");
        ("executed_at", JStr "2026-01-01T00:00:01Z")].

(** The world is the list of comments made. *)
Definition comment_executor (t : CommentTarget) (w : list CommentTarget) :
    list CommentTarget * jsval := (t :: w, comment_evidence).

Definition comment_run :=
  executeGitHubIssueComment comment_executor None (Some comment_aeo)
    (JStr (computeGitHubIssueCommentAEOHash (comment_aeo_js comment_aeo))) true
    (Some comment_source) (JStr "2026-01-01T00:00:02Z") None (Some ∅) [].

Lemma comment_validates :
  validateGitHubIssueCommentAEO (comment_aeo_js comment_aeo) comment_context None = true.
Proof. reflexivity. Qed.

Lemma comment_pipeline_witness :
  ∃ p, comment_run = ([comment_parameters], Some ({["n-1"]} ∪ ∅), Some p)
    ∧ cp_atao_id p = ca_atao_id comment_source.
Proof.
  destruct (comment_pipeline comment_executor comment_input comment_source comment_binding
    comment_aeo comment_context eq_refl eq_refl) as [Hiff Hrun].
  pose proof (proj2 Hiff) as Hok.
  assert (comment_context_ok comment_context comment_aeo) as Hc.
  { eexists _, _. split; [reflexivity|]. unfold authorized, in_scope. repeat split; simpl.
    - apply not_elem_of_empty.
    - left. }
  specialize (Hok (conj (proj1 (Z.leb_le 4 100) eq_refl) Hc)).
  destruct (Hrun (JStr "2026-01-01T00:00:02Z") None (Some ∅) [] Hok eq_refl
    (bool_decide_eq_false_2 _ (not_elem_of_empty _)) eq_refl eq_refl) as (p & E & Hid & _).
  rewrite Hok in E. exists p. split; [exact E|exact Hid].
Defined.

Lemma comment_runs : ∃ p, comment_run = ([comment_parameters], Some ({["n-1"]} ∪ ∅), Some p).
Proof.
  destruct (comment_execute_proved comment_executor None comment_aeo
    (JStr (sha256_id (comment_aeo_js comment_aeo))) true comment_source
    (JStr "2026-01-01T00:00:02Z") None (Some ∅) []) as (p & E & _); [|reflexivity|by exists p].
  split; [reflexivity|]. split; [reflexivity|]. split; [reflexivity|].
  split; intros s [= <-]. apply not_elem_of_empty.
Qed.

Lemma comment_execution_exact_witness :
  ∃ p, comment_run = ([comment_parameters], Some ({["n-1"]} ∪ ∅), Some p)
    ∧ comment_object (comment_aeo_js comment_aeo) comment_aeo.
Proof.
  destruct comment_runs as [p E].
  destruct (comment_execution_exact comment_executor None (comment_aeo_js comment_aeo)
    comment_context None _ _ _ _ _ _ _ _ _ comment_validates E)
    as (a & [= <-] & (_ & [(Ha & _)|[]%collision_in_single]) & _).
  exists p. split; [exact E|exact Ha].
Defined.

(** Another captured action, of another agent on another issue. *)
Definition foreign_atao : GitHubIssueCommentATAO :=
  mkCommentATAO "sha256:other" "agent-2" "session-2" "close everything"
    (mkCommentTarget "octo" "site" 99 "closing") "octo" "site" 99 "2026-01-02T00:00:00Z".

Lemma foreign_action_proved_witness :
  ∃ p, executeGitHubIssueComment comment_executor None (Some comment_aeo)
      (JStr (computeGitHubIssueCommentAEOHash (comment_aeo_js comment_aeo))) true
      (Some foreign_atao) (JStr "2026-01-01T00:00:02Z") None (Some ∅) []
    = ([comment_parameters], Some ({["n-1"]} ∪ ∅), Some p)
    ∧ cp_atao_id p = "sha256:other".
Proof.
  destruct comment_runs as [p E].
  destruct (foreign_action_proved comment_executor comment_aeo comment_source foreign_atao
    _ _ _ _ _ _ _ _ p E) as (p' & E' & Hid & _).
  exists p'. split; [exact E'|exact Hid].
Defined.
