(* ===== verification/D1Registry.v ===== *)
(** The registries of the continuity core on D1: [D1RegistryAdapter] and the
    execution surface [D1StorageAdapter] of [src/lib/d1-storage-adapter.ts],
    with the interfaces they implement in [src/lib/storage-adapter.ts].

    The tables are the store; a call is a program whose operations are the SQL
    statements it awaits. [batch] is one transaction: its statements run in
    order, and when one fails none has happened and the promise is rejected. A
    clock reading is an argument of the call that makes it. *)
From Stdlib Require Import ZArith NArith Lia.
From stdpp Require Import base list strings gmap.
From S2P Require Import Prelude JsValue Sha256 Canonical Effects Adapter RuntimeGateway.

(** * Records of the interfaces *)
Record AuthorityRecord := mkAuthorityRecord {
  ar_authority_id : string;
  ar_lineage_hash : string;
  ar_valid_from : string;
  ar_valid_until : option string;
  ar_revoked : bool
}.

Record LineageNode := mkLineageNode {
  ln_node_id : string;
  ln_parent_id : option string;
  ln_canonical_hash : string;
  ln_depth : Z
}.

(** [execution_result] and [creates_authority] are literals of the type. *)
Record ProofReceipt := mkProofReceipt {
  rc_receipt_id : string;
  rc_validated_object_hash : string;
  rc_executed_object_hash : string;
  rc_execution_evidence_hash : string;
  rc_adapter_surface : string;
  rc_decision_id : string;
  rc_replay_nonce : string;
  rc_emitted_at : string
}.

Record ValidExecutionCommit := mkCommit {
  cm_replay_nonce : string;
  cm_decision_id : string;
  cm_lineage_node : LineageNode;
  cm_proof_receipt : ProofReceipt
}.

Inductive StorageReadResult (A : Type) :=
  | FOUND (record : A) (record_hash : string)
  | NOT_FOUND.
Arguments FOUND {A} record record_hash.
Arguments NOT_FOUND {A}.

Definition node_js (n : LineageNode) : jsval :=
  JObj [("node_id", JStr (ln_node_id n)); ("parent_id", opt_str (ln_parent_id n));
        ("canonical_hash", JStr (ln_canonical_hash n)); ("depth", jint (ln_depth n))].

Definition node_hash (n : LineageNode) : string := hashCanonical (node_js n).

(** * Tables *)

(** The columns read from [authority_registry]; each may be [NULL]. *)
Record AuthorityColumns := mkAuthorityColumns {
  ac_delegation_lineage_hash : option string;
  ac_created_at : option string;
  ac_expiry : option string;
  ac_status : option string
}.

Record NonceColumns := mkNonceColumns { nc_candidate_hash : string; nc_created_at : string }.

(** [(nonce, nonce_domain)] is the key of [govern_nonce_registry]. *)
Record registries := mkRegistries {
  authority_registry : gmap string AuthorityColumns;
  govern_nonce_registry : gmap (string * string) NonceColumns;
  lineage_registry : gmap string (LineageNode * string);
  adapter_proof_registry : gmap string (ProofReceipt * string)
}.

Definition CORE_DOMAIN : string := "continuity-core".

(** [INSERT OR IGNORE] on a key: the number of changes and the table. *)
Definition insert_or_ignore {K V} `{EqDecision K, Countable K} (k : K) (v : V) (m : gmap K V) :
    Z * gmap K V :=
  match m !! k with Some _ => (0%Z, m) | None => (1%Z, <[k := v]> m) end.

Definition put_nonce (k : string * string) (v : NonceColumns) (s : registries) : registries * Z :=
  let '(n, m) := insert_or_ignore k v (govern_nonce_registry s) in
  (mkRegistries (authority_registry s) m (lineage_registry s) (adapter_proof_registry s), n).

Definition put_node (node : LineageNode) (now : string) (s : registries) : registries * Z :=
  let '(n, m) := insert_or_ignore (ln_node_id node) (node, now) (lineage_registry s) in
  (mkRegistries (authority_registry s) (govern_nonce_registry s) m (adapter_proof_registry s), n).

(** [INSERT]: [None] when the primary key is taken (the statement fails). *)
Definition put_receipt (r : ProofReceipt) (now : string) (s : registries) :
    option (registries * Z) :=
  match adapter_proof_registry s !! rc_receipt_id r with
  | Some _ => None
  | None =>
      Some (mkRegistries (authority_registry s) (govern_nonce_registry s) (lineage_registry s)
              (<[rc_receipt_id r := (r, now)]> (adapter_proof_registry s)), 1%Z)
  end.

(** * Statements *)
Inductive D1R : Type → Type :=
  | SelectAuthority (id : string) : D1R (option AuthorityColumns)
  | SelectNonceRow (nonce : string) : D1R bool
  | InsertNonce (nonce candidate now : string) : D1R Z
  | SelectNode (id : string) : D1R (option LineageNode)
  | InsertNode (node : LineageNode) (now : string) : D1R Z
  | SelectReceipt (id : string) : D1R bool
  | InsertReceipt (r : ProofReceipt) (now : string) : D1R (option Z)
  | CommitBatch (c : ValidExecutionCommit) (now : string) : D1R (option (Z * Z * Z)).

Definition isSome {A} (o : option A) : bool := match o with Some _ => true | None => false end.

(** Some row has the nonce, whatever its domain. *)
Definition nonce_known (s : registries) (nonce : string) : bool :=
  existsb (λ kv, String.eqb kv.1.1 nonce) (map_to_list (govern_nonce_registry s)).

Definition d1r (X : Type) (e : D1R X) (s : registries) : registries * X :=
  match e in D1R X return registries * X with
  | SelectAuthority id => (s, authority_registry s !! id)
  | SelectNonceRow nonce => (s, nonce_known s nonce)
  | InsertNonce nonce candidate now =>
      put_nonce (nonce, CORE_DOMAIN) (mkNonceColumns candidate now) s
  | SelectNode id => (s, option_map fst (lineage_registry s !! id))
  | InsertNode node now => put_node node now s
  | SelectReceipt id => (s, isSome (adapter_proof_registry s !! id))
  | InsertReceipt r now =>
      match put_receipt r now s with
      | Some (s', n) => (s', Some n)
      | None => (s, None)
      end
  | CommitBatch c now =>
      let '(s1, nonceChanges) :=
        put_nonce (cm_replay_nonce c, CORE_DOMAIN) (mkNonceColumns (cm_decision_id c) now) s in
      let '(s2, lineageChanges) := put_node (cm_lineage_node c) now s1 in
      match put_receipt (cm_proof_receipt c) now s2 with
      | Some (s3, proofChanges) => (s3, Some (nonceChanges, lineageChanges, proofChanges))
      | None => (s, None)
      end
  end.

(** * The adapter *)
Section Adapter.
Local Open Scope prog_scope.

(** [String(column || "")]. *)
Definition column_text (c : option string) : string := default EmptyString c.

Definition readAuthority (authority_id : string) : prog D1R (option AuthorityRecord) :=
  let* row := await (SelectAuthority authority_id) in
  Ret (match row with
       | None => None
       | Some row =>
           let expiry := column_text (ac_expiry row) in
           let status := column_text (ac_status row) in
           Some (mkAuthorityRecord authority_id (column_text (ac_delegation_lineage_hash row))
             (column_text (ac_created_at row))
             (if negb (is_empty_str expiry) && negb (String.eqb expiry "UNLIMITED")
              then Some expiry else None)
             (String.eqb status "CONSUMED" || String.eqb status "REVOKED"))
       end).

Definition d1r_isNonceUnused (replay_nonce : string) : prog D1R bool :=
  let* row := await (SelectNonceRow replay_nonce) in Ret (negb row).

Definition d1r_markNonceConsumed (now replay_nonce decision_id : string) : prog D1R AppendResult :=
  let* changes := await (InsertNonce replay_nonce decision_id now) in
  Ret (if (0 <? changes)%Z then APPENDED replay_nonce decision_id
       else ALREADY_EXISTS replay_nonce decision_id).

(** The replay port the gateway is given. *)
Definition D1ReplayRegistry (now : string) : ReplayRegistryPort D1R := {|
  isNonceUnused := d1r_isNonceUnused;
  markNonceConsumed := d1r_markNonceConsumed now
|}.

(** [row.parent_id ? String(row.parent_id) : null]. *)
Definition parent_read (p : option string) : option string :=
  match p with
  | Some s => if is_empty_str s then None else Some s
  | None => None
  end.

Definition readLineageNode (node_id : string) : prog D1R (StorageReadResult LineageNode) :=
  let* row := await (SelectNode node_id) in
  Ret (match row with
       | None => NOT_FOUND
       | Some row =>
           let record := mkLineageNode (ln_node_id row) (parent_read (ln_parent_id row))
             (ln_canonical_hash row) (ln_depth row) in
           FOUND record (node_hash record)
       end).

Definition d1r_appendLineageNode (now : string) (node : LineageNode) : prog D1R AppendResult :=
  let* changes := await (InsertNode node now) in
  let hash := node_hash node in
  Ret (if (0 <? changes)%Z then APPENDED (ln_node_id node) hash
       else ALREADY_EXISTS (ln_node_id node) hash).

(** [None]: the promise is rejected. *)
Definition appendProofReceipt (now : string) (receipt : ProofReceipt) :
    prog D1R (option AppendResult) :=
  let* existing := await (SelectReceipt (rc_receipt_id receipt)) in
  if (existing : bool) then Ret (Some (REJECTED "duplicate_receipt_id"))
  else
    let* result := await (InsertReceipt receipt now) in
    Ret (match result with
         | None => None
         | Some changes =>
             Some (if (0 <? changes)%Z
                   then APPENDED (rc_receipt_id receipt) (rc_validated_object_hash receipt)
                   else REJECTED "insert_failed")
         end).

Definition commitValidatedExecution (now : string) (record : ValidExecutionCommit) :
    prog D1R (option AppendResult) :=
  let proof_receipt := cm_proof_receipt record in
  let* existingProof := await (SelectReceipt (rc_receipt_id proof_receipt)) in
  if (existingProof : bool) then Ret (Some (REJECTED "duplicate_receipt_id"))
  else
    let* results := await (CommitBatch record now) in
    Ret (match results with
         | None => None
         | Some (nonceChanges, lineageChanges, proofChanges) =>
             Some
               (if (proofChanges =? 0)%Z then REJECTED "proof_insert_failed"
                else if (nonceChanges =? 0)%Z && (lineageChanges =? 0)%Z
                then ALREADY_EXISTS (rc_receipt_id proof_receipt)
                       (rc_validated_object_hash proof_receipt)
                else APPENDED (rc_receipt_id proof_receipt)
                       (rc_validated_object_hash proof_receipt))
         end).
End Adapter.

(** * The execution surface *)
Definition isValidD1Operation (v : jsval) : bool :=
  bool_decide (v = JStr "INSERT") || bool_decide (v = JStr "UPDATE")
  || bool_decide (v = JStr "SELECT") || bool_decide (v = JStr "DELETE").

Definition isValidD1Target (target : jsval) : bool :=
  bool_decide (get target "system" = JStr "d1") && is_non_blank (get target "database_id")
  && is_non_blank (get target "table_name") && isValidD1Operation (get target "operation")
  && is_non_blank (get target "parameter_hash").

(** What of the target reaches the executor. *)
Definition d1_request (target : jsval) : jsval :=
  JObj [("database_id", get target "database_id"); ("table_name", get target "table_name");
        ("operation", get target "operation"); ("parameter_hash", get target "parameter_hash")].

Section Surface.
Context {W : Type} (d1Executor : jsval → W → W * execute_answer).

(** Reading a property of [undefined] or [null] throws. *)
Definition D1StorageAdapter : AdapterContract W := {|
  execute aeo _ w :=
    let target := get aeo "target" in
    if nullish target then (w, ExecuteThrows)
    else if negb (isValidD1Target target) then (w, Evidence JNull)
    else d1Executor (d1_request target) w
|}.

Definition executeD1Adapter (date_parse : string → option Z) (date_now : Z)
    (aeo validated_object_hash emitted_at : jsval) (w : W) : W * AdapterExecutionOutcome :=
  executeWithAdapter date_parse date_now aeo validated_object_hash (Some D1StorageAdapter) emitted_at
    None w.
End Surface.

(** * Claims

    An answer may claim a key: it says that its request put the key there. A
    program claims honestly when an answer with a claim follows at once on the
    operation that turned the key from absent to present; then no two requests
    ever claim the same key, however they interleave. *)
Section Claims.
Context {E : Type → Type} {S A K : Type} (handle : ∀ X, E X → S → S * X).
Context (present : S → K → Prop) (claims : A → K → Prop).
Context (keep : ∀ X (e : E X) s key, present s key → present (handle _ e s).1 key).

Fixpoint honest (m : prog E A) : Prop :=
  match m with
  | Ret _ => True
  | Await e k =>
      ∀ s, match k (handle _ e s).2 with
          | Ret a => ∀ key, claims a key → ¬ present s key ∧ present (handle _ e s).1 key
          | Await _ _ => True
          end
        ∧ honest (k (handle _ e s).2)
  end.

Definition exclusive (p : S * list (prog E A)) : Prop :=
  Forall honest p.2
  ∧ (∀ i a key, p.2 !! i = Some (Ret a) → claims a key → present p.1 key)
  ∧ ∀ i j a b key, i ≠ j → p.2 !! i = Some (Ret a) → p.2 !! j = Some (Ret b) →
      claims a key → claims b key → False.

Lemma exclusive_step p q : pool_step handle p q → exclusive p → exclusive q.
Proof.
  intros [s ts i X e k Hi] (Hh & Hp & Hx); simpl in *.
  pose proof (Forall_lookup_1 _ _ _ _ Hh Hi s) as (Hnew & Hk).
  assert (i < length ts) as Hlt by (by eapply lookup_lt_Some).
  assert (∀ j m, <[i:=k (handle X e s).2]> ts !! j = Some m →
    j = i ∧ m = k (handle X e s).2 ∨ j ≠ i ∧ ts !! j = Some m) as Hat.
  { intros j m. destruct (decide (i = j)) as [<-|Hne].
    - rewrite list_lookup_insert_eq by done. intros [= <-]. by left.
    - rewrite list_lookup_insert_ne by done. intros ?. by right. }
  split; [by apply Forall_insert|]. split.
  - intros j a key [(-> & E1)|(Hne & Hj)]%Hat Hc; simpl.
    + rewrite <- E1 in Hnew. by apply Hnew.
    + apply keep. by eapply Hp.
  - intros j l a b key Hjl [(-> & E1)|(Hj & Ej)]%Hat [(-> & E2)|(Hl & El)]%Hat Ha Hb; simpl; try done.
    + rewrite <- E1 in Hnew. destruct (Hnew key Ha) as [Hno _]. apply Hno. by eapply Hp.
    + rewrite <- E2 in Hnew. destruct (Hnew key Hb) as [Hno _]. apply Hno. by eapply Hp.
    + by eapply (Hx j l).
Qed.

Lemma exclusive_steps p q : pool_steps handle p q → exclusive p → exclusive q.
Proof. induction 1; [done|]. intros Hp. eauto using exclusive_step. Qed.
End Claims.

(** * Calls of the adapter, interleaved *)
Inductive registry_call :=
  | ReadAuthority (id : string)
  | IsNonceUnused (nonce : string)
  | MarkNonce (nonce decision now : string)
  | ReadNode (id : string)
  | AppendNode (node : LineageNode) (now : string)
  | AppendReceipt (receipt : ProofReceipt) (now : string)
  | Commit (record : ValidExecutionCommit) (now : string).

Inductive registry_answer :=
  | AuthorityAnswer (id : string) (a : option AuthorityRecord)
  | UnusedAnswer (nonce : string) (unused : bool)
  | MarkAnswer (nonce decision : string) (r : AppendResult)
  | NodeRead (id : string) (r : StorageReadResult LineageNode)
  | NodeAnswer (node : LineageNode) (r : AppendResult)
  | ReceiptAnswer (receipt : ProofReceipt) (r : option AppendResult)
  | CommitAnswer (record : ValidExecutionCommit) (r : option AppendResult).

Local Open Scope prog_scope.

Definition serve_call (c : registry_call) : prog D1R registry_answer :=
  match c with
  | ReadAuthority id => let* a := readAuthority id in Ret (AuthorityAnswer id a)
  | IsNonceUnused n => let* b := d1r_isNonceUnused n in Ret (UnusedAnswer n b)
  | MarkNonce n d now => let* r := d1r_markNonceConsumed now n d in Ret (MarkAnswer n d r)
  | ReadNode id => let* r := readLineageNode id in Ret (NodeRead id r)
  | AppendNode node now => let* r := d1r_appendLineageNode now node in Ret (NodeAnswer node r)
  | AppendReceipt receipt now =>
      let* r := appendProofReceipt now receipt in Ret (ReceiptAnswer receipt r)
  | Commit record now => let* r := commitValidatedExecution now record in Ret (CommitAnswer record r)
  end.

Inductive registry_key := KNonce (nonce : string) | KNode (id : string) | KReceipt (id : string).

Definition present (s : registries) (k : registry_key) : Prop :=
  match k with
  | KNonce n => is_Some (govern_nonce_registry s !! (n, CORE_DOMAIN))
  | KNode id => is_Some (lineage_registry s !! id)
  | KReceipt id => is_Some (adapter_proof_registry s !! id)
  end.

Definition appended (r : AppendResult) : bool :=
  match r with APPENDED _ _ => true | _ => false end.

Definition stored (r : option AppendResult) : bool :=
  match r with Some (APPENDED _ _) | Some (ALREADY_EXISTS _ _) => true | _ => false end.

(** The keys an answer says its call has put there. *)
Definition claims (a : registry_answer) (k : registry_key) : Prop :=
  match a, k with
  | MarkAnswer n _ r, KNonce n' => appended r = true ∧ n = n'
  | NodeAnswer node r, KNode id => appended r = true ∧ ln_node_id node = id
  | ReceiptAnswer receipt r, KReceipt id => stored r = true ∧ rc_receipt_id receipt = id
  | CommitAnswer c r, KReceipt id => stored r = true ∧ rc_receipt_id (cm_proof_receipt c) = id
  | _, _ => False
  end.

(** No row is removed or changed. *)
Definition append_only (s s' : registries) : Prop :=
  govern_nonce_registry s ⊆ govern_nonce_registry s'
  ∧ lineage_registry s ⊆ lineage_registry s'
  ∧ adapter_proof_registry s ⊆ adapter_proof_registry s'
  ∧ authority_registry s = authority_registry s'.

#[export] Instance append_only_preorder : PreOrder append_only.
Proof.
  split; [by intros s; repeat split|]. intros s t u (? & ? & ? & ?) (? & ? & ? & ?).
  repeat split; solve [by etrans | congruence].
Qed.

Lemma append_only_present s s' k : append_only s s' → present s k → present s' k.
Proof.
  intros (Hn & Hl & Hp & _). destruct k; simpl; intros [x Hx]; exists x; by eapply lookup_weaken.
Qed.

Lemma insert_or_ignore_subseteq {K V} `{Countable K} (k : K) (v : V) m :
  m ⊆ (insert_or_ignore k v m).2.
Proof. unfold insert_or_ignore. destruct (m !! k) eqn:E; [done|]. by apply insert_subseteq. Qed.

Lemma put_nonce_append k v s : append_only s (put_nonce k v s).1.
Proof.
  unfold put_nonce. pose proof (insert_or_ignore_subseteq k v (govern_nonce_registry s)).
  by destruct (insert_or_ignore _ _ _).
Qed.

Lemma put_node_append n now s : append_only s (put_node n now s).1.
Proof.
  unfold put_node.
  pose proof (insert_or_ignore_subseteq (ln_node_id n) (n, now) (lineage_registry s)).
  by destruct (insert_or_ignore _ _ _).
Qed.

Lemma put_receipt_append r now s s' n : put_receipt r now s = Some (s', n) → append_only s s'.
Proof.
  unfold put_receipt. destruct (_ !! _) eqn:E; [done|]. intros [= <- <-].
  repeat split; try done. by apply insert_subseteq.
Qed.

(** Every statement only adds rows. *)
Lemma d1r_append_only X (e : D1R X) s : append_only s (d1r X e s).1.
Proof.
  destruct e as [| |nonce cand now| |node now| |r now|c now]; simpl; try reflexivity.
  - apply put_nonce_append.
  - apply put_node_append.
  - destruct (put_receipt r now s) as [[s' n]|] eqn:E; [|reflexivity]. by eapply put_receipt_append.
  - pose proof (put_nonce_append (cm_replay_nonce c, CORE_DOMAIN)
      (mkNonceColumns (cm_decision_id c) now) s) as H1.
    destruct (put_nonce _ _ s) as [s1 n1]; simpl in *.
    pose proof (put_node_append (cm_lineage_node c) now s1) as H2.
    destruct (put_node _ _ s1) as [s2 n2]; simpl in *.
    destruct (put_receipt _ now s2) as [[s3 n3]|] eqn:E; [|reflexivity].
    apply put_receipt_append in E. by do 2 (etrans; [done|]).
Qed.

(** What an insert leaves under its key. *)
Lemma put_nonce_spec k v s :
  let r := put_nonce k v s in
  govern_nonce_registry r.1 !! k = Some (default v (govern_nonce_registry s !! k))
  ∧ r.2 = (match govern_nonce_registry s !! k with Some _ => 0 | None => 1 end)%Z
  ∧ lineage_registry r.1 = lineage_registry s
  ∧ adapter_proof_registry r.1 = adapter_proof_registry s.
Proof.
  unfold put_nonce, insert_or_ignore. destruct (govern_nonce_registry s !! k) eqn:E; simpl; [by rewrite E|].
  by rewrite lookup_insert_eq.
Qed.

Lemma put_node_spec node now s :
  let r := put_node node now s in
  lineage_registry r.1 !! ln_node_id node
    = Some (default (node, now) (lineage_registry s !! ln_node_id node))
  ∧ r.2 = (match lineage_registry s !! ln_node_id node with Some _ => 0 | None => 1 end)%Z
  ∧ govern_nonce_registry r.1 = govern_nonce_registry s
  ∧ adapter_proof_registry r.1 = adapter_proof_registry s.
Proof.
  unfold put_node, insert_or_ignore. destruct (lineage_registry s !! ln_node_id node) eqn:E; simpl; [by rewrite E|].
  by rewrite lookup_insert_eq.
Qed.

(** The transaction: it fails exactly when the receipt is already there. *)
Lemma batch_spec c now s :
  match adapter_proof_registry s !! rc_receipt_id (cm_proof_receipt c) with
  | Some _ => d1r _ (CommitBatch c now) s = (s, None)
  | None => ∃ s', d1r _ (CommitBatch c now) s
      = (s', Some ((match govern_nonce_registry s !! (cm_replay_nonce c, CORE_DOMAIN) with
                    | Some _ => 0 | None => 1 end)%Z,
                   (match lineage_registry s !! ln_node_id (cm_lineage_node c) with
                    | Some _ => 0 | None => 1 end)%Z, 1%Z))
      ∧ govern_nonce_registry s' !! (cm_replay_nonce c, CORE_DOMAIN)
        = Some (default (mkNonceColumns (cm_decision_id c) now)
            (govern_nonce_registry s !! (cm_replay_nonce c, CORE_DOMAIN)))
      ∧ lineage_registry s' !! ln_node_id (cm_lineage_node c)
        = Some (default (cm_lineage_node c, now)
            (lineage_registry s !! ln_node_id (cm_lineage_node c)))
      ∧ adapter_proof_registry s' = <[rc_receipt_id (cm_proof_receipt c) := (cm_proof_receipt c, now)]>
          (adapter_proof_registry s)
      ∧ append_only s s'
  end.
Proof.
  pose proof (d1r_append_only _ (CommitBatch c now) s) as Hap. simpl in *.
  pose proof (put_nonce_spec (cm_replay_nonce c, CORE_DOMAIN)
    (mkNonceColumns (cm_decision_id c) now) s) as (N1 & N2 & N3 & N4).
  destruct (put_nonce _ _ s) as [s1 n1]; simpl in *.
  pose proof (put_node_spec (cm_lineage_node c) now s1) as (L1 & L2 & L3 & L4).
  destruct (put_node _ _ s1) as [s2 n2]; simpl in *.
  rewrite N3 in L1, L2. rewrite N4 in L4. unfold put_receipt in *. rewrite L4 in *.
  destruct (adapter_proof_registry s !! _) eqn:E; [done|].
  eexists. split; [by subst n1 n2|]. simpl.
  split; [by rewrite L3|]. split; [exact L1|]. split; [reflexivity|exact Hap].
Qed.

(** ** Every call claims honestly *)
Lemma honest_serve c : honest d1r present claims (serve_call c).
Proof.
  destruct c as [id|n|n d now|id|node now|r now|c now]; simpl; intros s;
    try (split; [by intros []|done]).
  - split; [|done]. intros [n'| |]; simpl; try done. intros [Ha <-].
    pose proof (put_nonce_spec (n, CORE_DOMAIN) (mkNonceColumns d now) s) as (N1 & N2 & _).
    rewrite N2 in Ha. destruct (govern_nonce_registry s !! _) eqn:E; [done|]. rewrite N1.
    split; [by intros [? ?]|by eexists].
  - split; [|done]. intros [|id|]; simpl; try done. intros [Ha <-].
    pose proof (put_node_spec node now s) as (N1 & N2 & _).
    rewrite N2 in Ha. destruct (lineage_registry s !! _) eqn:E; [done|]. rewrite N1.
    split; [by intros [? ?]|by eexists].
  - destruct (isSome _); simpl; [by split; [intros []; naive_solver|]|].
    split; [done|]. intros s2. split; [|done]. intros [| |id]; simpl; try done. unfold put_receipt.
    destruct (adapter_proof_registry s2 !! _) eqn:E; simpl; [by intros []|].
    intros [_ <-]. rewrite E, lookup_insert_eq. split; [by intros [? ?]|by eexists].
  - destruct (isSome _); simpl; [by split; [intros []; naive_solver|]|].
    split; [done|]. intros s2. split; [|done].
    pose proof (batch_spec c now s2) as Hb. simpl in Hb.
    destruct (adapter_proof_registry s2 !! _) eqn:E.
    + rewrite Hb. intros []; naive_solver.
    + destruct Hb as (s3 & -> & _ & _ & Hr & _). intros [| |id]; try done. intros [_ <-]. simpl.
      rewrite E, Hr, lookup_insert_eq. split; [by intros [? ?]|by eexists].
Qed.

(** An authority record tells of its row: the texts of its columns ([NULL]
    read as the empty text), an end of validity exactly when the expiry names
    one, and [revoked] exactly for the two statuses that end an authority. *)
Definition authority_of_row (id : string) (row : AuthorityColumns) (a : AuthorityRecord) : Prop :=
  ar_authority_id a = id
  ∧ ar_lineage_hash a = column_text (ac_delegation_lineage_hash row)
  ∧ ar_valid_from a = column_text (ac_created_at row)
  ∧ (∀ e, ar_valid_until a = Some e ↔ ac_expiry row = Some e ∧ e ∉ [EmptyString; "UNLIMITED"])
  ∧ (ar_revoked a = true ↔ ac_status row ∈ [Some "CONSUMED"; Some "REVOKED"]).

(** What an answer promises, of the tables from then on ([s]) and of those its
    call began with ([s0]); the authority table is not written by these calls. *)
Definition backed (s0 : registries) (a : registry_answer) (s : registries) : Prop :=
  match a with
  | AuthorityAnswer id None => authority_registry s0 !! id = None
  | AuthorityAnswer id (Some a) =>
      ∃ row, authority_registry s0 !! id = Some row ∧ authority_of_row id row a
  | UnusedAnswer n false => ∃ domain, is_Some (govern_nonce_registry s !! (n, domain))
  | UnusedAnswer n true => ∀ domain, govern_nonce_registry s0 !! (n, domain) = None
  | MarkAnswer n d r =>
      r = APPENDED n d ∧ ¬ present s0 (KNonce n)
        ∧ (∃ t, govern_nonce_registry s !! (n, CORE_DOMAIN) = Some (mkNonceColumns d t))
      ∨ r = ALREADY_EXISTS n d ∧ present s (KNonce n)
  | NodeRead id (FOUND record h) =>
      h = node_hash record ∧ ∃ node t, lineage_registry s !! id = Some (node, t)
        ∧ ln_node_id record = ln_node_id node
        ∧ (∀ p, ln_parent_id record = Some p ↔ ln_parent_id node = Some p ∧ p ≠ EmptyString)
        ∧ ln_canonical_hash record = ln_canonical_hash node ∧ ln_depth record = ln_depth node
  | NodeRead id NOT_FOUND => ¬ present s0 (KNode id)
  | NodeAnswer node r =>
      let id := ln_node_id node in
      r = APPENDED id (node_hash node) ∧ ¬ present s0 (KNode id)
        ∧ (∃ t, lineage_registry s !! id = Some (node, t))
      ∨ r = ALREADY_EXISTS id (node_hash node) ∧ present s (KNode id)
  | ReceiptAnswer r o =>
      let id := rc_receipt_id r in
      o = Some (APPENDED id (rc_validated_object_hash r)) ∧ ¬ present s0 (KReceipt id)
        ∧ (∃ t, adapter_proof_registry s !! id = Some (r, t))
      ∨ o ∈ [None; Some (REJECTED "duplicate_receipt_id")] ∧ present s (KReceipt id)
  | CommitAnswer c o =>
      let r := cm_proof_receipt c in
      let id := rc_receipt_id r in
      let nonce := KNonce (cm_replay_nonce c) in
      let node := KNode (ln_node_id (cm_lineage_node c)) in
      (o = Some (APPENDED id (rc_validated_object_hash r)) ∧ (¬ present s0 nonce ∨ ¬ present s0 node)
        ∨ o = Some (ALREADY_EXISTS id (rc_validated_object_hash r)))
        ∧ ¬ present s0 (KReceipt id)
        ∧ (∃ t, adapter_proof_registry s !! id = Some (r, t)) ∧ present s nonce ∧ present s node
      ∨ o ∈ [None; Some (REJECTED "duplicate_receipt_id")] ∧ present s (KReceipt id)
  end.

Lemma readAuthority_row id row :
  authority_of_row id row
    (mkAuthorityRecord id (column_text (ac_delegation_lineage_hash row))
      (column_text (ac_created_at row))
      (if negb (is_empty_str (column_text (ac_expiry row)))
          && negb (String.eqb (column_text (ac_expiry row)) "UNLIMITED")
       then Some (column_text (ac_expiry row)) else None)
      (String.eqb (column_text (ac_status row)) "CONSUMED"
       || String.eqb (column_text (ac_status row)) "REVOKED")).
Proof.
  do 3 (split; [done|]). simpl. destruct row as [? ? expiry status]; simpl. split.
  - intros e. rewrite not_elem_of_cons, list_elem_of_singleton.
    destruct expiry as [x|]; simpl; [|naive_solver].
    destruct x as [|ch x]; [simpl; naive_solver|]. cbn [is_empty_str negb andb].
    destruct (String.eqb_spec (String ch x) "UNLIMITED"); simpl; naive_solver.
  - rewrite orb_true_iff, !String.eqb_eq, elem_of_cons, list_elem_of_singleton.
    destruct status; simpl; naive_solver.
Qed.

Lemma backed_weaken s0 a s s' : append_only s s' → backed s0 a s → backed s0 a s'.
Proof.
  intros Hs. pose proof (λ k, append_only_present s s' k Hs) as Hk.
  destruct Hs as (Hn & Hl & Hp & _).
  pose proof (λ k x Hk, lookup_weaken (govern_nonce_registry s) (govern_nonce_registry s') k x Hk Hn) as Wn.
  pose proof (λ k x Hk, lookup_weaken (lineage_registry s) (lineage_registry s') k x Hk Hl) as Wl.
  pose proof (λ k x Hk, lookup_weaken (adapter_proof_registry s) (adapter_proof_registry s') k x Hk Hp) as Wp.
  destruct a as [id [a|]|n []|n d r|id [record h|]|node r|r o|c o]; cbn [backed]; try done.
  - intros (dom & x & Hx). exists dom, x. eauto.
  - intros [(? & ? & t & ?)|[? ?]]; [left|right]; eauto 6.
  - intros (? & node & t & ? & ?). eauto 6.
  - intros [(? & ? & t & ?)|[? ?]]; [left|right]; eauto 6.
  - intros [(? & ? & t & ?)|[? ?]]; [left|right]; eauto 6.
  - intros [(? & ? & (t & ?) & ? & ?)|[? ?]]; [left|right]; eauto 9.
Qed.

Lemma nonce_known_iff s n :
  nonce_known s n = true ↔ ∃ domain, is_Some (govern_nonce_registry s !! (n, domain)).
Proof.
  unfold nonce_known. rewrite existsb_exists. split.
  - intros ([[n' dom] row] & Hin & E%String.eqb_eq). simpl in E. subst n'. exists dom, row.
    by apply elem_of_map_to_list, list_elem_of_In.
  - intros [dom [row Hrow]]. exists ((n, dom), row). split; [|apply String.eqb_refl].
    by apply list_elem_of_In, elem_of_map_to_list.
Qed.

(** What the start had is still there: a row that is absent now was absent then. *)
Lemma absent_before s0 s k : append_only s0 s → ¬ present s k → ¬ present s0 k.
Proof. intros H Hn Hp. by apply Hn, (append_only_present s0 s). Qed.

(** The last operation of a call has established its answer. *)
Lemma ok_last s0 X (e : D1R X) (f : X → registry_answer) s :
  (∀ s2, append_only s0 s2 → backed s0 (f (d1r X e s2).2) (d1r X e s2).1) →
  ok d1r (append_only s0) append_only (backed s0) (Await e (λ x, Ret (f x))) s.
Proof.
  intros H s2 _ Hs2. split; [by etrans; [|apply d1r_append_only]|].
  split; [apply d1r_append_only|].
  intros s3 Hs3 _. eapply backed_weaken; [done|]. by apply H.
Qed.

(** The transaction of a commit establishes its answer. *)
Lemma commit_backed s0 c now s :
  append_only s0 s →
  let r := d1r _ (CommitBatch c now) s in
  backed s0 (CommitAnswer c (match r.2 with
    | None => None
    | Some (nonceChanges, lineageChanges, proofChanges) =>
        Some (if (proofChanges =? 0)%Z then REJECTED "proof_insert_failed"
              else if (nonceChanges =? 0)%Z && (lineageChanges =? 0)%Z
              then ALREADY_EXISTS (rc_receipt_id (cm_proof_receipt c))
                     (rc_validated_object_hash (cm_proof_receipt c))
              else APPENDED (rc_receipt_id (cm_proof_receipt c))
                     (rc_validated_object_hash (cm_proof_receipt c)))
    end)) r.1.
Proof.
  intros Hs. pose proof (batch_spec c now s) as Hb.
  pose proof (λ k, absent_before s0 s k Hs) as Habs.
  destruct (adapter_proof_registry s !! _) eqn:E.
  { rewrite Hb. right. split; [set_solver|by eexists]. }
  destruct Hb as (s' & -> & Hn & Hl & Hr & _). left. simpl in *.
  rewrite Hr, lookup_insert_eq, Hn, Hl. split; [|split; [|split; [by exists now|split; by eexists]]].
  - destruct (govern_nonce_registry s !! _) eqn:En;
      [destruct (lineage_registry s !! _) eqn:El|]; simpl; [by right|left; split; [done|right]|left; split; [done|left]].
    + apply (Habs (KNode _)). simpl. rewrite El. by intros [].
    + apply (Habs (KNonce _)). simpl. rewrite En. by intros [].
  - apply (Habs (KReceipt _)). simpl. rewrite E. by intros [].
Qed.

Lemma backed_ok s0 c s :
  ok d1r (append_only s0) append_only (backed s0) (serve_call c) s.
Proof.
  destruct c as [id|n|n d now|id|node now|r now|c now].
  - apply (ok_last s0 _ (SelectAuthority id) _ s). intros s2 (_ & _ & _ & Ha). simpl.
    rewrite <- Ha. destruct (_ !! id) as [row|] eqn:E; simpl; [|done].
    exists row. split; [done|]. apply readAuthority_row.
  - apply (ok_last s0 _ (SelectNonceRow n) _ s). intros s2 (Hn & _). simpl.
    destruct (nonce_known s2 n) eqn:E; simpl; [by apply nonce_known_iff|].
    intros domain. apply eq_None_not_Some. intros [row Hrow].
    rewrite (proj2 (nonce_known_iff s2 n)) in E; [done|].
    exists domain, row. by eapply lookup_weaken.
  - apply (ok_last s0 _ (InsertNonce n d now) _ s). intros s2 Hs. simpl.
    destruct (put_nonce_spec (n, CORE_DOMAIN) (mkNonceColumns d now) s2) as (N1 & -> & _).
    rewrite N1. destruct (govern_nonce_registry s2 !! _) eqn:E; simpl; [right; split; [done|by eexists]|].
    left. split; [done|]. split; [|by exists now].
    apply (absent_before s0 s2 (KNonce n) Hs). simpl. rewrite E. by intros [].
  - apply (ok_last s0 _ (SelectNode id) _ s). intros s2 Hs. simpl.
    destruct (lineage_registry s2 !! id) as [[node t]|] eqn:E; simpl.
    + split; [done|]. exists node, t. do 2 (split; [done|]). split; [|done].
      intros p. destruct (ln_parent_id node) as [[|ch x]|]; simpl; naive_solver.
    + apply (absent_before s0 s2 (KNode id) Hs). simpl. rewrite E. by intros [].
  - apply (ok_last s0 _ (InsertNode node now) _ s). intros s2 Hs. simpl.
    destruct (put_node_spec node now s2) as (N1 & -> & _).
    rewrite N1. destruct (lineage_registry s2 !! _) eqn:E; simpl; [right; split; [done|by eexists]|].
    left. split; [done|]. split; [|by exists now].
    apply (absent_before s0 s2 (KNode (ln_node_id node)) Hs). simpl. rewrite E. by intros [].
  - intros s2 _ Hs. split; [done|]. split; [done|].
    cbn -[ok d1r]. cbn [d1r fst snd].
    destruct (adapter_proof_registry s2 !! _) eqn:E0; cbn -[ok d1r].
    { intros s3 Hs3 _. right. split; [set_solver|].
      by apply (append_only_present s2 s3 (KReceipt _)); [|eexists]. }
    apply (ok_last s0 _ (InsertReceipt r now) _ s2). intros s3 Hs3. simpl.
    unfold put_receipt. destruct (adapter_proof_registry s3 !! _) eqn:E; simpl.
    { right. split; [set_solver|]. by eexists. }
    left. rewrite lookup_insert_eq. split; [done|]. split; [|by exists now].
    apply (absent_before s0 s3 (KReceipt (rc_receipt_id r)) Hs3). simpl. rewrite E. by intros [].
  - intros s2 _ Hs. split; [done|]. split; [done|].
    cbn -[ok d1r]. cbn [d1r fst snd].
    destruct (adapter_proof_registry s2 !! _) eqn:E0; cbn -[ok d1r].
    { intros s3 Hs3 _. right. split; [set_solver|].
      by apply (append_only_present s2 s3 (KReceipt _)); [|eexists]. }
    apply (ok_last s0 _ (CommitBatch c now) _ s2). intros s3. apply commit_backed.
Qed.

(** Interleaved calls only add rows. *)
Lemma served_calls calls i m :
  map serve_call calls !! i = Some m → ∃ c, m = serve_call c.
Proof. intros Hm. apply list_lookup_fmap_Some in Hm as (c & -> & _). by exists c. Qed.

Lemma registry_growth s calls q :
  pool_steps d1r (s, map serve_call calls) q →
  append_only s q.1 ∧ ∀ i a, q.2 !! i = Some (Ret a) → backed s a q.1.
Proof.
  intros Hq.
  destruct (pool_ok d1r (append_only s) append_only (λ _, backed s) _ _ Hq) as (_ & Hg & Ha);
    [done|..|done].
  intros i m (c & ->)%served_calls. apply backed_ok.
Qed.

(** C22. The registries under concurrency. However any calls interleave, no row
    is removed or changed and every answer is exact: an authority record tells
    of the row that the table holds, [null] that there is none; a nonce called
    unused, a node called absent had no row at the start; an APPENDED is of a
    row that was not there at the start and is there, with the call's own
    content, from then on; ALREADY_EXISTS and the refusals are of a row that is
    there. And a row is handed to one call only: two distinct calls are never
    both told that they have stored the same nonce, node or receipt. A commit
    claims its receipt; its nonce and node are there when it answers, whoever
    stored them. *)
Theorem registry_exclusive s calls q :
  pool_steps d1r (s, map serve_call calls) q →
  append_only s q.1
  ∧ (∀ i a, q.2 !! i = Some (Ret a) → backed s a q.1)
  ∧ ∀ i j a b key, i ≠ j → q.2 !! i = Some (Ret a) → q.2 !! j = Some (Ret b) →
      claims a key → claims b key → False.
Proof.
  intros Hq.
  destruct (registry_growth s calls q Hq) as [Hg Ha]. split; [done|]. split; [done|].
  refine (proj2 (proj2 (exclusive_steps d1r present claims _ _ _ Hq _))).
  - intros X e t key. apply append_only_present, d1r_append_only.
  - simpl. split; [|split].
    + apply Forall_lookup. intros i m (c & ->)%served_calls. apply honest_serve.
    + intros i a key (c & E)%served_calls. by destruct c.
    + intros i j a b key _ (c & E)%served_calls. by destruct c.
Qed.

(** A commit, uninterrupted: refused without effect when the receipt exists;
    otherwise all three rows are there afterwards, and the answer only tells
    whether the nonce and the node both were there before. *)
Lemma commit_spec now c s :
  let r := cm_proof_receipt c in
  let nonce := govern_nonce_registry s !! (cm_replay_nonce c, CORE_DOMAIN) in
  let node := lineage_registry s !! ln_node_id (cm_lineage_node c) in
  match adapter_proof_registry s !! rc_receipt_id r with
  | Some _ =>
      run d1r (commitValidatedExecution now c) s = (s, Some (REJECTED "duplicate_receipt_id"))
  | None => ∃ s', run d1r (commitValidatedExecution now c) s
      = (s', Some (match nonce, node with
                   | Some _, Some _ => ALREADY_EXISTS (rc_receipt_id r) (rc_validated_object_hash r)
                   | _, _ => APPENDED (rc_receipt_id r) (rc_validated_object_hash r)
                   end))
      ∧ govern_nonce_registry s' !! (cm_replay_nonce c, CORE_DOMAIN)
        = Some (default (mkNonceColumns (cm_decision_id c) now) nonce)
      ∧ lineage_registry s' !! ln_node_id (cm_lineage_node c)
        = Some (default (cm_lineage_node c, now) node)
      ∧ adapter_proof_registry s' = <[rc_receipt_id r := (r, now)]> (adapter_proof_registry s)
      ∧ append_only s s'
  end.
Proof.
  intros r nonce node. unfold commitValidatedExecution. cbn -[d1r]. cbn [d1r fst snd].
  pose proof (batch_spec c now s) as Hb. fold r in Hb.
  destruct (adapter_proof_registry s !! _) eqn:E; cbn -[d1r]; [done|].
  destruct Hb as (s' & E' & H). exists s'. split; [|exact H].
  rewrite E'. fold nonce node. simpl. by destruct nonce, node.
Qed.

(** C38. A consumed nonce does not stop a commit: whatever the registries hold,
    two commits under one nonce, with two fresh receipts and two fresh nodes,
    are both answered APPENDED and both receipts are stored, while the nonce
    keeps the decision of the first. *)
Theorem consumed_nonce_commits now c now' c' s :
  let r := cm_proof_receipt c in
  let r' := cm_proof_receipt c' in
  let node' := ln_node_id (cm_lineage_node c') in
  cm_replay_nonce c' = cm_replay_nonce c →
  rc_receipt_id r ≠ rc_receipt_id r' →
  govern_nonce_registry s !! (cm_replay_nonce c, CORE_DOMAIN) = None →
  adapter_proof_registry s !! rc_receipt_id r = None →
  adapter_proof_registry s !! rc_receipt_id r' = None →
  let s1 := (run d1r (commitValidatedExecution now c) s).1 in
  lineage_registry s1 !! node' = None →
  (run d1r (commitValidatedExecution now c) s).2
    = Some (APPENDED (rc_receipt_id r) (rc_validated_object_hash r))
  ∧ ∃ s2, run d1r (commitValidatedExecution now' c') s1
      = (s2, Some (APPENDED (rc_receipt_id r') (rc_validated_object_hash r')))
    ∧ adapter_proof_registry s2 !! rc_receipt_id r = Some (r, now)
    ∧ adapter_proof_registry s2 !! rc_receipt_id r' = Some (r', now')
    ∧ govern_nonce_registry s2 !! (cm_replay_nonce c, CORE_DOMAIN)
      = Some (mkNonceColumns (cm_decision_id c) now).
Proof.
  intros r r' node' En Hr Hn Hp Hp' s1 Hnode.
  pose proof (commit_spec now c s) as H1. cbv zeta in H1. fold r in H1. rewrite Hp, Hn in H1.
  destruct H1 as (t & E1 & N1 & _ & P1 & _).
  assert (s1 = t) as -> by (unfold s1; by rewrite E1).
  rewrite E1. split; [done|].
  pose proof (commit_spec now' c' t) as H2. cbv zeta in H2. fold r' node' in H2.
  rewrite P1, lookup_insert_ne, Hp', En, N1, Hnode in H2 by done.
  destruct H2 as (s2 & E2 & N2 & _ & P2 & _). exists s2. split; [done|]. rewrite P2.
  rewrite lookup_insert_eq, lookup_insert_ne, lookup_insert_eq by done. done.
Qed.

(** Lineage nodes are read back: once an append has been answered APPENDED,
    whatever calls run meanwhile, reading the node finds it with the hash the
    append answered, provided its parent is not the empty text (which is read
    as no parent at all). *)
Theorem lineage_node_roundtrip now node s s1 id h calls q :
  parent_read (ln_parent_id node) = ln_parent_id node →
  run d1r (d1r_appendLineageNode now node) s = (s1, APPENDED id h) →
  pool_steps d1r (s1, map serve_call calls) q →
  run d1r (readLineageNode id) q.1 = (q.1, FOUND node h).
Proof.
  intros Hp E Hq.
  pose proof (registry_growth s1 calls q Hq) as [(_ & Hl & _) _].
  unfold d1r_appendLineageNode in E. simpl in E.
  destruct (put_node_spec node now s) as (N1 & N2 & _).
  destruct (put_node node now s) as [s' n]; simpl in *. rewrite N2 in E.
  destruct (lineage_registry s !! ln_node_id node); [done|]. simpl in *. injection E as -> <- <-.
  pose proof (lookup_weaken _ _ _ _ N1 Hl) as Hrow.
  unfold readLineageNode. simpl. rewrite Hrow. simpl. rewrite Hp. by destruct node.
Qed.

(** The execution surface: the executor runs at most once, on a [d1] target
    with all its fields, of an object whose digest is the validated one; it
    receives four fields of the target and nothing else. *)
Lemma d1_surface_exact {W} (d1Executor : jsval → W → W * execute_answer) date_parse date_now
    aeo vh em w w' o :
  executeD1Adapter d1Executor date_parse date_now aeo vh em w = (w', o) →
  w' = w ∨ vh = JStr (sha256_id aeo) ∧ isValidD1Target (get aeo "target") = true
    ∧ w' = (d1Executor (d1_request (get aeo "target")) w).1.
Proof.
  intros E.
  destruct (executeWithAdapter_cases date_parse date_now (D1StorageAdapter d1Executor) aeo vh em
    None w) as [(o' & Eo & _)|(b & [_ Hh _ _] & Hx)];
    unfold executeD1Adapter in E; [left; congruence|].
  destruct (execute _ _ w) as [w1 a] eqn:Ea. rewrite Hx in E. injection E as -> _. simpl in Ea.
  destruct (nullish _); [left; congruence|].
  destruct (isValidD1Target _) eqn:Ev; simpl in Ea; [right|left; congruence].
  by rewrite Ea.
Qed.

(** * Concrete calls *)
Definition empty_registries : registries := mkRegistries ∅ ∅ ∅ ∅.

Definition sample_receipt (id nonce : string) : ProofReceipt :=
  mkProofReceipt id "sha256:o" "sha256:o" "sha256:e" "d1" "D-1" nonce "2026-01-01T00:00:00Z".

Definition sample_commit (id nonce node : string) : ValidExecutionCommit :=
  mkCommit nonce "D-1" (mkLineageNode node None "sha256:o" 0) (sample_receipt id nonce).

(** Two marks of one nonce and two commits of one receipt; both commits pass
    the first test before either writes. *)
Definition sample_calls : list registry_call :=
  [MarkNonce "n" "D-1" "t1"; MarkNonce "n" "D-2" "t2";
   Commit (sample_commit "r" "n" "a") "t3"; Commit (sample_commit "r" "n" "b") "t4"].

Definition sample_pool := schedule d1r [2; 3; 1; 0; 3; 2]%nat (empty_registries, map serve_call sample_calls).

Lemma registry_exclusive_witness :
  sample_pool.2 !! 1%nat = Some (Ret (MarkAnswer "n" "D-2" (APPENDED "n" "D-2")))
  ∧ sample_pool.2 !! 2%nat = Some (Ret (CommitAnswer (sample_commit "r" "n" "a") None))
  ∧ ∀ h, sample_pool.2 !! 0%nat ≠ Some (Ret (MarkAnswer "n" "D-1" (APPENDED "n" h))).
Proof.
  split; [vm_compute; reflexivity|]. split; [vm_compute; reflexivity|]. intros h E.
  refine (proj2 (proj2 (registry_exclusive empty_registries sample_calls sample_pool
    (schedule_steps d1r _ _))) 0%nat 1%nat _ (MarkAnswer "n" "D-2" (APPENDED "n" "D-2"))
    (KNonce "n") ltac:(discriminate) E _ (conj eq_refl eq_refl) (conj eq_refl eq_refl)).
  vm_compute. reflexivity.
Defined.

Lemma consumed_nonce_commits_witness :
  (run d1r (commitValidatedExecution "t1" (sample_commit "r1" "n" "a")) empty_registries).2
    = Some (APPENDED "r1" "sha256:o").
Proof.
  refine (proj1 (consumed_nonce_commits "t1" (sample_commit "r1" "n" "a") "t2"
    (sample_commit "r2" "n" "b") empty_registries _ _ _ _ _ _));
    solve [reflexivity | discriminate].
Defined.

Definition sample_node : LineageNode := mkLineageNode "a" (Some "root") "sha256:o" 1.

Definition after_append := run d1r (d1r_appendLineageNode "t0" sample_node) empty_registries.

Definition later_pool :=
  schedule d1r [0; 0]%nat (after_append.1, map serve_call [Commit (sample_commit "r" "n" "a") "t1"]).

Lemma lineage_node_roundtrip_witness :
  run d1r (readLineageNode "a") later_pool.1
  = (later_pool.1, FOUND sample_node (node_hash sample_node)).
Proof.
  exact (lineage_node_roundtrip "t0" sample_node empty_registries after_append.1 "a"
    (node_hash sample_node) [Commit (sample_commit "r" "n" "a") "t1"] later_pool eq_refl eq_refl
    (schedule_steps d1r _ _)).
Defined.
