(* ===== verification/D1Bootstrap.v ===== *)
(** Start-up of the D1 store: the migration of the nonce table and the
    stabilisation of the proof registry, of [src/lib/d1-storage-adapter.ts].

    The migration is a program of SQL statements that may be interrupted after
    any of them. Stabilisation runs before requests are served; it acts on the
    rows of three tables and on the proofs that the outbox refers to. *)
From Stdlib Require Import ZArith NArith Lia Ascii.
From stdpp Require Import base list strings gmap sets.
From S2P Require Import Prelude JsValue Sha256 Canonical Effects JsMap WorkerValues.
From S2P Require Import WorkerTables WorkerSql WorkerLineage WorkerEvidence WorkerIssuance.
From S2P Require Import WorkerAuthority WorkerExecution WorkerProof D1Registry.

(** * The nonce table *)

(** The table of that name, before and after it got a domain column. *)
Inductive nonce_table :=
  | OldShape (rows : gmap string NonceColumns)
  | NewShape (rows : gmap (string * string) NonceColumns).

Record nonce_schema := mkSchema {
  govern_nonces : option nonce_table;
  govern_nonces_v2 : option (gmap (string * string) NonceColumns)
}.

(** The nonces of a table under the domain that the copy gives them. *)
Definition in_domain (n : string) : string * string := (n, "openclaw").

Definition copied (t : nonce_table) : gmap (string * string) NonceColumns :=
  match t with
  | OldShape rows => kmap in_domain rows
  | NewShape rows =>
      list_to_map (map (λ kv, (in_domain kv.1.1, kv.2)) (map_to_list rows))
  end.

(** The statements; [None]: the statement fails. *)
Inductive Migrate : Type → Type :=
  | CreateNonces : Migrate unit
  | HasDomainColumn : Migrate bool
  | CreateV2 : Migrate unit
  | CopyToV2 : Migrate (option unit)
  | DropNonces : Migrate (option unit)
  | RenameV2 : Migrate (option unit).

Definition migrate (X : Type) (e : Migrate X) (s : nonce_schema) : nonce_schema * X :=
  match e in Migrate X return nonce_schema * X with
  | CreateNonces =>
      (mkSchema (Some (default (NewShape ∅) (govern_nonces s))) (govern_nonces_v2 s), tt)
  | HasDomainColumn => (s, match govern_nonces s with Some (NewShape _) => true | _ => false end)
  | CreateV2 => (mkSchema (govern_nonces s) (Some (default ∅ (govern_nonces_v2 s))), tt)
  | CopyToV2 =>
      match govern_nonces s, govern_nonces_v2 s with
      | Some t, Some v2 => (mkSchema (Some t) (Some (v2 ∪ copied t)), Some tt)
      | _, _ => (s, None)
      end
  | DropNonces =>
      match govern_nonces s with
      | Some _ => (mkSchema None (govern_nonces_v2 s), Some tt)
      | None => (s, None)
      end
  | RenameV2 =>
      match govern_nonces s, govern_nonces_v2 s with
      | None, Some v2 => (mkSchema (Some (NewShape v2)) None, Some tt)
      | _, _ => (s, None)
      end
  end.

Inductive migration_result := Migrated | UpgradeFailed | StatementFailed.

Section Migration.
Local Open Scope prog_scope.

(** A statement that may fail: its failure ends the function. *)
Definition must (e : Migrate (option unit)) (k : prog Migrate migration_result) :
    prog Migrate migration_result :=
  let* r := await e in match r with Some _ => k | None => Ret StatementFailed end.

Definition ensureGovernNonceRegistrySchema : prog Migrate migration_result :=
  let* created := await CreateNonces in
  let* done := await HasDomainColumn in
  if (done : bool) then Ret Migrated
  else
    let* created_v2 := await CreateV2 in
    must CopyToV2 (must DropNonces (must RenameV2 (
      let* upgraded := await HasDomainColumn in
      Ret (if (upgraded : bool) then Migrated else UpgradeFailed)))).

(** The first [n] operations of a program, after which the process dies. *)
Fixpoint run_for {A} (n : nat) (m : prog Migrate A) (s : nonce_schema) : nonce_schema :=
  match n, m with
  | S n', Await e k => run_for n' (k (migrate _ e s).2) (migrate _ e s).1
  | _, _ => s
  end.
End Migration.

(** C27. Migration and interruption: started on a table of the old shape,
    stopped after any number of its statements and started again, the migration
    ends with the table of the new shape holding every nonce, with one
    exception: a stop between dropping the old table and renaming the new one
    ends with an empty table, and every consumed nonce is forgotten. *)
Theorem migration_interrupted (rows : gmap string NonceColumns) (k : nat) :
  let s := run_for k ensureGovernNonceRegistrySchema (mkSchema (Some (OldShape rows)) None) in
  ∃ v2, run migrate ensureGovernNonceRegistrySchema s
    = (mkSchema (Some (NewShape (if Nat.eqb k 5 then ∅ else kmap in_domain rows))) v2, Migrated).
Proof.
  do 8 (destruct k as [|k]; [simpl; rewrite ?(left_id_L ∅ (∪)), ?(idemp_L (∪)); by eexists|]).
  simpl. rewrite ?(left_id_L ∅ (∪)). by eexists.
Qed.

(** * The proof registry *)

(** A row of [proof_registry]; [StoredProof] keeps the columns the statements
    compare, and the others as the object the query returns. *)
Record StoredProof := mkStored {
  sp_rowid : Z;
  sp_proof_id : string;
  sp_decision_id : string;
  sp_validated_hash : string;
  sp_decision_hash : option string;
  sp_created : string;
  sp_other : list (string * jsval)
}.

(** The row as the query returns it. *)
Definition stored_js (r : StoredProof) : jsval :=
  JObj ([("__rowid", jint (sp_rowid r)); ("proof_id", JStr (sp_proof_id r));
         ("decision_id", JStr (sp_decision_id r));
         ("validated_object_hash", JStr (sp_validated_hash r));
         ("decision_hash", opt_str (sp_decision_hash r)); ("created_at", JStr (sp_created r))]
        ++ sp_other r).

Record ArchiveRow := mkArchive {
  av_archive_id : string;
  av_proof_id : string;
  av_columns : jsval;
  av_archived_at : string;
  av_canonical_proof_id : string
}.

Record QuarantineRow := mkQuarantine {
  qr_quarantine_id : string;
  qr_proof_id : string;
  qr_lineage_hash : string;
  qr_canonical_proof_selected : string;
  qr_duplicate_proof_archived : string;
  qr_generated_at : string
}.

(** [outbox]: the proofs that rows of [proof_propagation_outbox] refer to. *)
Record proof_tables := mkProofTables {
  proof_rows : list StoredProof;
  archive : list ArchiveRow;
  quarantine_rows : list QuarantineRow;
  outbox : list string
}.

(** [decision_id || char(31) || validated_object_hash]. *)
Definition proofDecisionHash (decision_id validated_object_hash : string) : string :=
  decision_id +:+ String (ascii_of_N 31) validated_object_hash.

Definition right_hash (r : StoredProof) : string :=
  proofDecisionHash (sp_decision_id r) (sp_validated_hash r).

Definition set_decision_hash (r : StoredProof) (h : string) : StoredProof :=
  mkStored (sp_rowid r) (sp_proof_id r) (sp_decision_id r) (sp_validated_hash r) (Some h)
    (sp_created r) (sp_other r).

Definition set_proof_rows (l : list StoredProof) (t : proof_tables) : proof_tables :=
  mkProofTables l (archive t) (quarantine_rows t) (outbox t).

(** [UPDATE ... WHERE decision_hash IS NULL OR decision_hash = '']. *)
Definition lacks_hash (r : StoredProof) : bool :=
  match sp_decision_hash r with None => true | Some h => is_empty_str h end.

Definition backfillProofDecisionHashes (t : proof_tables) : proof_tables :=
  set_proof_rows
    (map (λ r, if lacks_hash r then set_decision_hash r (right_hash r) else r) (proof_rows t)) t.

Section Quarantine.
Context `{!Platform}.
(** Whether the database enforces foreign keys, as D1 does. *)
Context (foreign_keys : bool).

Definition stored_material (row : jsval) : jsval :=
  canonicalRecord (JObj (
    map (λ k, (k, JStr (text (get row k))))
      ["proof_id"; "session_id"; "execution_id"; "decision_id"; "validated_object_hash"]
    ++ map (λ k, (k, js_coalesce (get row k) JNull))
         ["surface"; "run_id"; "commit_sha"; "workflow"; "environment"]
    ++ [("created_at", JStr (text (get row "created_at")))]
    ++ map (λ k, (k, js_coalesce (get row k) JNull))
         ["continuity_id"; "continuity_hash"; "identity_id"; "authority_lineage";
          "execution_lineage"; "repository"; "branch"; "pull_request_id"; "merge_commit_sha";
          "source_tree_hash"; "workflow_run_id"; "workflow_sha"])).

Definition canonicalProofLineageHash (row : jsval) (canonical_proof_id : string) : string :=
  hashCanonical (JObj [("canonical_proof_selected", JStr canonical_proof_id);
                       ("proof", stored_material row)]).

Definition deterministicProofQuarantineId (row : jsval) (lineage_hash : string) : string :=
  hashCanonical (JObj [("quarantine_reason", JStr "duplicate_proof_lineage");
                       ("proof_id", JStr (text (get row "proof_id")));
                       ("lineage_hash", JStr lineage_hash)]).

Definition stored_leb (a b : StoredProof) : bool :=
  lex_leb (text (get (stored_js a) "created_at")) (text (get (stored_js b) "created_at"))
    (lex_leb (canonicalize (stored_material (stored_js a)))
       (canonicalize (stored_material (stored_js b)))
       (locale_leb (text (get (stored_js a) "proof_id")) (text (get (stored_js b) "proof_id")))).

Definition sort_stored (rows : list StoredProof) : list StoredProof := sort_by stored_leb rows.

(** [decision_hash IN (SELECT ... GROUP BY decision_hash HAVING COUNT(...) > 1)]. *)
Definition same_decision (a b : StoredProof) : bool :=
  match sp_decision_hash a, sp_decision_hash b with
  | Some h, Some h' => String.eqb h h'
  | _, _ => false
  end.

Definition duplicated (l : list StoredProof) (r : StoredProof) : bool :=
  Nat.ltb 1 (length (List.filter (same_decision r) l)).

(** [ORDER BY decision_id, validated_object_hash, created_at, proof_id], by bytes. *)
Fixpoint bytes_leb (l m : list string) : bool :=
  match l, m with
  | x :: l', y :: m' => if String.eqb x y then bytes_leb l' m' else String.leb x y
  | _, _ => true
  end.

Definition query_leb (a b : StoredProof) : bool :=
  let key r := [sp_decision_id r; sp_validated_hash r; sp_created r; sp_proof_id r] in
  bytes_leb (key a) (key b).

Definition select_duplicates (t : proof_tables) : list StoredProof :=
  sort_by query_leb (List.filter (duplicated (proof_rows t)) (proof_rows t)).

(** The rows by decision hash, groups in the order they are met. *)
Definition group_key (row : StoredProof) : string :=
  match sp_decision_hash row with
  | Some h => if is_empty_str h then right_hash row else h
  | None => right_hash row
  end.

Definition group_rows (rows : list StoredProof) : list (string * list StoredProof) :=
  fold_left (λ groups row,
    let key := group_key row in
    map_set key (default [] (map_get key groups) ++ [row]) groups) rows [].

(** [INSERT OR IGNORE]; both the identifier and the proof are unique. *)
Definition insert_archive (row : ArchiveRow) (t : proof_tables) : proof_tables :=
  if existsb (λ a, String.eqb (av_archive_id a) (av_archive_id row)
                   || String.eqb (av_proof_id a) (av_proof_id row)) (archive t) then t
  else mkProofTables (proof_rows t) (archive t ++ [row]) (quarantine_rows t) (outbox t).

Definition insert_quarantine (row : QuarantineRow) (t : proof_tables) : proof_tables :=
  if existsb (λ a, String.eqb (qr_quarantine_id a) (qr_quarantine_id row)) (quarantine_rows t) then t
  else mkProofTables (proof_rows t) (archive t) (quarantine_rows t ++ [row]) (outbox t).

Definition archive_columns (duplicate : jsval) : jsval :=
  JObj (
    map (λ k, (k, JStr (text (get duplicate k))))
      ["session_id"; "execution_id"; "decision_id"; "validated_object_hash"; "created_at"]
    ++ map (λ k, (k, js_coalesce (get duplicate k) JNull))
         ["surface"; "run_id"; "commit_sha"; "workflow"; "environment"]).

(** The body of the inner loop. *)
Definition quarantine_one (canonical duplicate : StoredProof) (t : proof_tables) : proof_tables :=
  let row := stored_js duplicate in
  let canonical_proof_id := text (get (stored_js canonical) "proof_id") in
  let proof_id := text (get row "proof_id") in
  let lineage_hash := canonicalProofLineageHash row canonical_proof_id in
  let quarantine_id := deterministicProofQuarantineId row lineage_hash in
  let quarantine_generated_at :=
    text (js_or (get row "created_at") (get (stored_js canonical) "created_at")) in
  let archive_id := "archive:" +:+ proof_id +:+ ":duplicate_proof_lineage" in
  insert_quarantine
    (mkQuarantine quarantine_id proof_id lineage_hash canonical_proof_id archive_id
       quarantine_generated_at)
    (insert_archive
       (mkArchive archive_id proof_id (archive_columns row) quarantine_generated_at
          canonical_proof_id) t).

Definition quarantine_group (group : list StoredProof) (t : proof_tables) : proof_tables :=
  match sort_stored group with
  | [] => t
  | canonical :: duplicates => fold_left (λ t d, quarantine_one canonical d t) duplicates t
  end.

(** The row numbers to delete: [String(rowid || "")], empty texts dropped. *)
Definition duplicate_rowids (groups : list (string * list StoredProof)) : list Z :=
  List.filter (λ z, negb (Z.eqb z 0))
    (flat_map (λ kv, map sp_rowid (tail (sort_stored kv.2))) groups).

(** [DELETE ... WHERE rowid = ?]: refused while the outbox refers to the row. *)
Definition delete_row (rowid : Z) (t : proof_tables) : option proof_tables :=
  if foreign_keys
     && existsb (λ r, Z.eqb (sp_rowid r) rowid && str_in (sp_proof_id r) (outbox t)) (proof_rows t)
  then None
  else Some (set_proof_rows (List.filter (λ r, negb (Z.eqb (sp_rowid r) rowid)) (proof_rows t)) t).

Fixpoint delete_rows (rowids : list Z) (t : proof_tables) : proof_tables * bool :=
  match rowids with
  | [] => (t, true)
  | z :: rowids' =>
      match delete_row z t with
      | Some t' => delete_rows rowids' t'
      | None => (t, false)
      end
  end.

(** The tables and [{detected, quarantined}]; [None]: a statement failed. *)
Definition quarantineHistoricalProofDuplicates (t : proof_tables) :
    proof_tables * option (bool * nat) :=
  match select_duplicates t with
  | [] => (t, Some (false, 0%nat))
  | rows =>
      let groups := group_rows rows in
      let t1 := fold_left (λ t kv, quarantine_group kv.2 t) groups t in
      let quarantined := length (flat_map (λ kv, tail (sort_stored kv.2)) groups) in
      let '(t2, done) := delete_rows (duplicate_rowids groups) t1 in
      (t2, if done then Some (true, quarantined) else None)
  end.

(** No row without its hash, with another one, or with one that another row has. *)
Definition proofRegistryStabilized (t : proof_tables) : bool :=
  forallb (λ r, negb (lacks_hash r) && bool_decide (sp_decision_hash r = Some (right_hash r)))
    (proof_rows t)
  && forallb (λ r, negb (duplicated (proof_rows t) r)) (proof_rows t).
End Quarantine.

(** * Grouping *)
Lemma group_rows_snoc rows r :
  group_rows (rows ++ [r])
  = map_set (group_key r) (default [] (map_get (group_key r) (group_rows rows)) ++ [r]) (group_rows rows).
Proof. unfold group_rows. by rewrite fold_left_app. Qed.

Lemma group_rows_NoDup rows : NoDup (group_rows rows).*1.
Proof.
  induction rows as [|r rows IH] using rev_ind; [constructor|].
  rewrite group_rows_snoc. by apply map_set_NoDup.
Qed.

(** A group is the rows of its key, in order. *)
Lemma group_rows_get rows k :
  default [] (map_get k (group_rows rows)) = List.filter (λ r, String.eqb (group_key r) k) rows.
Proof.
  induction rows as [|r rows IH] using rev_ind; [done|].
  rewrite group_rows_snoc, List.filter_app, map_get_set, <- IH. simpl.
  destruct (decide (k = group_key r)) as [->|Hne].
  - by rewrite String.eqb_refl.
  - rewrite (proj2 (String.eqb_neq _ _)) by congruence. by rewrite app_nil_r.
Qed.

Lemma map_get_NoDup {A} (k : string) (v : A) m : NoDup m.*1 → (k, v) ∈ m → map_get k m = Some v.
Proof.
  induction m as [|[j w] m IH]; csimpl; [by intros _ ?%elem_of_nil|].
  intros [Hj Hnd]%NoDup_cons [[= -> ->]|Hin]%elem_of_cons; [by rewrite String.eqb_refl|].
  destruct (String.eqb_spec k j) as [->|]; [|by apply IH].
  destruct Hj. by apply (list_elem_of_fmap_2 fst) in Hin.
Qed.

Lemma group_rows_elem rows k g :
  (k, g) ∈ group_rows rows → g = List.filter (λ r, String.eqb (group_key r) k) rows.
Proof.
  intros Hin. rewrite <- group_rows_get.
  by rewrite (map_get_NoDup k g) by (done || apply group_rows_NoDup).
Qed.

Lemma group_rows_has rows r :
  r ∈ rows → ∃ g, (group_key r, g) ∈ group_rows rows ∧ r ∈ g.
Proof.
  intros Hr. pose proof (group_rows_get rows (group_key r)) as Hg.
  assert (r ∈ List.filter (λ x, String.eqb (group_key x) (group_key r)) rows) as Hin.
  { apply list_elem_of_In, List.filter_In. rewrite <- list_elem_of_In, String.eqb_refl. done. }
  rewrite <- Hg in Hin. destruct (map_get _ _) as [g|] eqn:E; simpl in Hin; [|by apply elem_of_nil in Hin].
  exists g. split; [by apply map_get_elem|done].
Qed.

(** * Texts of a row *)
Lemma text_of_str s : text (JStr s) = s.
Proof. unfold text, js_or; simpl. by destruct s. Qed.

Lemma stored_proof_id r : text (get (stored_js r) "proof_id") = sp_proof_id r.
Proof. apply text_of_str. Qed.

Definition archive_id (proof_id : string) : string :=
  "archive:" +:+ proof_id +:+ ":duplicate_proof_lineage".

Lemma str_app_inj_r (s s' t : string) : s +:+ t = s' +:+ t → s = s'.
Proof.
  revert s'. induction s as [|a s IH]; intros [|b s'] E; try done.
  - apply (f_equal String.length) in E. rewrite str_app_length in E. simpl in E.
    rewrite str_app_length in E. lia.
  - apply (f_equal String.length) in E. rewrite !str_app_length in E. simpl in E. lia.
  - simpl in E. injection E as -> E. by rewrite (IH _ E).
Qed.

#[export] Instance archive_id_inj : Inj (=) (=) archive_id.
Proof. intros p q E%str_app_inj%str_app_inj_r. done. Qed.

(** * The archive *)
Definition archived (t : proof_tables) (p : string) : Prop :=
  ∃ a, a ∈ archive t ∧ av_proof_id a = p.

(** Archive identifiers are made from the proof they archive. *)
Definition archive_named (t : proof_tables) : Prop :=
  Forall (λ a, av_archive_id a = archive_id (av_proof_id a)) (archive t).

Lemma filter_all_false {A} (f : A → bool) l : (∀ x, f x = false) → List.filter f l = [].
Proof. intros Hf. induction l as [|x l IH]; simpl; [done|]. by rewrite Hf. Qed.

Section Stabilise.
Context `{!Platform} (foreign_keys : bool).

Lemma quarantine_one_spec c d t :
  archive_named t →
  let t' := quarantine_one c d t in
  archive_named t' ∧ archived t' (sp_proof_id d) ∧ (∀ p, archived t p → archived t' p)
  ∧ proof_rows t' = proof_rows t ∧ outbox t' = outbox t.
Proof.
  intros Hn. unfold quarantine_one. rewrite !stored_proof_id. fold (archive_id (sp_proof_id d)).
  set (row := mkArchive _ _ _ _ _).
  assert (∀ q t0, archive (insert_quarantine q t0) = archive t0
    ∧ proof_rows (insert_quarantine q t0) = proof_rows t0
    ∧ outbox (insert_quarantine q t0) = outbox t0) as Hq.
  { intros q t0. unfold insert_quarantine. by destruct (existsb _ _). }
  match goal with |- context [insert_quarantine ?q ?t0] => destruct (Hq q t0) as (E1 & E2 & E3) end.
  unfold archive_named, archived. cbv zeta. rewrite E1, E2, E3. unfold insert_archive.
  destruct (existsb _ (archive t)) eqn:E; simpl.
  - split; [done|]. split; [|done].
    apply existsb_exists in E as (a & Ha & [Hid|Hp]%orb_true_iff).
    + apply list_elem_of_In in Ha. exists a. split; [done|]. apply String.eqb_eq in Hid.
      unfold archive_named in Hn. rewrite Forall_forall in Hn. rewrite (Hn a Ha) in Hid.
      simpl in Hid. by apply (inj archive_id) in Hid.
    + exists a. split; [by apply list_elem_of_In|]. by apply String.eqb_eq in Hp.
  - split; [|split; [|split; [|done]]].
    + apply Forall_app. split; [done|]. by constructor.
    + exists row. split; [|done]. apply elem_of_app. right. by left.
    + intros p (a & Ha & Hp). exists a. split; [|done]. apply elem_of_app. by left.
Qed.

Lemma quarantine_ones_spec c l t :
  archive_named t →
  let t' := fold_left (λ t d, quarantine_one c d t) l t in
  archive_named t' ∧ (∀ d, d ∈ l → archived t' (sp_proof_id d))
  ∧ (∀ p, archived t p → archived t' p)
  ∧ proof_rows t' = proof_rows t ∧ outbox t' = outbox t.
Proof.
  revert t. induction l as [|d l IH]; intros t Hn; simpl.
  { split; [done|]. split; [|done]. by intros d ?%elem_of_nil. }
  destruct (quarantine_one_spec c d t Hn) as (Hn1 & Hd & Hk & Hr & Ho).
  destruct (IH _ Hn1) as (Hn2 & Hl & Hk2 & Hr2 & Ho2).
  split; [done|]. split; [|split; [by eauto|split; congruence]].
  intros d' [->|Hd']%elem_of_cons; eauto.
Qed.

(** The duplicates of a list of groups. *)
Definition duplicates_of (groups : list (string * list StoredProof)) : list StoredProof :=
  flat_map (λ kv, tail (sort_stored kv.2)) groups.

Lemma quarantine_groups_spec groups t :
  archive_named t →
  let t' := fold_left (λ t kv, quarantine_group kv.2 t) groups t in
  archive_named t' ∧ (∀ d, d ∈ duplicates_of groups → archived t' (sp_proof_id d))
  ∧ (∀ p, archived t p → archived t' p)
  ∧ proof_rows t' = proof_rows t ∧ outbox t' = outbox t.
Proof.
  revert t. induction groups as [|[k g] groups IH]; intros t Hn; simpl.
  { split; [done|]. split; [|done]. by intros d ?%elem_of_nil. }
  assert (let t' := quarantine_group g t in
    archive_named t' ∧ (∀ d, d ∈ tail (sort_stored g) → archived t' (sp_proof_id d))
    ∧ (∀ p, archived t p → archived t' p) ∧ proof_rows t' = proof_rows t ∧ outbox t' = outbox t)
    as (Hn1 & Hd & Hk & Hr & Ho).
  { unfold quarantine_group. destruct (sort_stored g) as [|c l]; simpl.
    - split; [done|]. split; [|done]. by intros d ?%elem_of_nil.
    - by apply quarantine_ones_spec. }
  destruct (IH _ Hn1) as (Hn2 & Hl & Hk2 & Hr2 & Ho2).
  split; [done|]. split; [|split; [by eauto|split; congruence]].
  intros d [Hd'|Hd']%elem_of_app; eauto.
Qed.

(** ** Deletion *)
Lemma delete_rows_spec zs t t' :
  delete_rows foreign_keys zs t = (t', true) →
  proof_rows t' = List.filter (λ r, negb (existsb (Z.eqb (sp_rowid r)) zs)) (proof_rows t)
  ∧ archive t' = archive t ∧ outbox t' = outbox t.
Proof.
  revert t. induction zs as [|z zs IH]; intros t; simpl.
  { intros [= <-]. split; [|done]. induction (proof_rows t); simpl; congruence. }
  unfold delete_row. destruct (foreign_keys && _); [done|].
  intros (E & ? & ?)%IH; simpl in *. split; [|done]. rewrite E. clear.
  induction (proof_rows t) as [|r l IHl]; simpl; [done|].
  destruct (Z.eqb (sp_rowid r) z) eqn:Ez; simpl; [done|].
  destruct (existsb _ zs); simpl; congruence.
Qed.

(** The deletions go through exactly when the outbox refers to none of them. *)
Lemma delete_rows_iff zs t :
  (delete_rows foreign_keys zs t).2 = true ↔
  foreign_keys = false
  ∨ ∀ r, r ∈ proof_rows t → existsb (Z.eqb (sp_rowid r)) zs = true → sp_proof_id r ∉ outbox t.
Proof.
  revert t. induction zs as [|z zs IH]; intros t; simpl; [split; [by right|done]|].
  unfold delete_row. destruct (foreign_keys && _) eqn:E; simpl.
  - apply andb_true_iff in E as [Ef (r & Hr & Hs)%existsb_exists].
    apply andb_true_iff in Hs as [Hz Hs%str_in_elem]. apply list_elem_of_In in Hr.
    split; [done|]. intros [|Hu]; [congruence|]. destruct (Hu r Hr); [by rewrite Hz|done].
  - rewrite IH. simpl. destruct foreign_keys; [simpl in E|by split; left].
    split; intros [|Hu]; try done; right; intros r Hr Hz.
    + destruct (Z.eqb (sp_rowid r) z) eqn:Ez; simpl in Hz.
      * intros Ho. apply not_true_iff_false in E. apply E, existsb_exists. exists r.
        rewrite <- list_elem_of_In, Ez. split; [done|]. by apply str_in_elem.
      * apply Hu; [|done]. apply list_elem_of_In, List.filter_In. by rewrite <- list_elem_of_In, Ez.
    + apply list_elem_of_In, List.filter_In in Hr as [Hr _]. apply list_elem_of_In in Hr.
      apply Hu; [done|]. rewrite Hz. apply orb_true_r.
Qed.

(** ** Tables as start-up finds them *)
Record well_stored (t : proof_tables) : Prop := {
  ws_rowids : NoDup (map sp_rowid (proof_rows t));
  ws_nonzero : Forall (λ r, sp_rowid r ≠ 0%Z) (proof_rows t);
  ws_archive : archive_named t
}.

Definition hashed (t : proof_tables) : Prop := Forall (λ r, lacks_hash r = false) (proof_rows t).

Lemma same_decision_iff a b :
  same_decision a b = true ↔ ∃ h, sp_decision_hash a = Some h ∧ sp_decision_hash b = Some h.
Proof.
  unfold same_decision. destruct (sp_decision_hash a) as [h|], (sp_decision_hash b) as [h'|];
    try (split; [done|naive_solver]).
  rewrite String.eqb_eq. naive_solver.
Qed.

Lemma group_key_hash r h : sp_decision_hash r = Some h → lacks_hash r = false → group_key r = h.
Proof. unfold group_key, lacks_hash. intros ->. by intros ->. Qed.

(** Two rows of one decision make both duplicated. *)
Lemma duplicated_two l a b :
  a ∈ l → b ∈ l → a ≠ b → same_decision a b = true → duplicated l a = true.
Proof.
  intros Ha Hb Hne Hs. unfold duplicated. apply Nat.ltb_lt.
  assert (a ∈ List.filter (same_decision a) l) as Ha'.
  { apply list_elem_of_In, List.filter_In. split; [by apply list_elem_of_In|].
    apply same_decision_iff. apply same_decision_iff in Hs. naive_solver. }
  assert (b ∈ List.filter (same_decision a) l) as Hb'
    by (apply list_elem_of_In, List.filter_In; by rewrite <- list_elem_of_In).
  destruct (List.filter (same_decision a) l) as [|x [|y m]]; simpl; [|set_solver|lia].
  by apply elem_of_nil in Ha'.
Qed.

Lemma duplicated_other l a :
  NoDup l → duplicated l a = true → ∃ b c, b ∈ l ∧ c ∈ l ∧ b ≠ c
    ∧ same_decision a b = true ∧ same_decision a c = true.
Proof.
  intros Hnd. unfold duplicated. rewrite Nat.ltb_lt. intros Hl.
  assert (NoDup (List.filter (same_decision a) l)) as Hf.
  { rewrite NoDup_ListNoDup in Hnd |- *. by apply List.NoDup_filter. }
  assert (∀ x, x ∈ List.filter (same_decision a) l → x ∈ l ∧ same_decision a x = true) as Hin.
  { intros x Hx. apply list_elem_of_In, List.filter_In in Hx as [Hx Hs].
    split; [by apply list_elem_of_In|done]. }
  destruct (List.filter (same_decision a) l) as [|x [|y m]]; simpl in Hl; [lia|lia|].
  apply NoDup_cons in Hf as [Hx _].
  destruct (Hin x) as [? ?]; [by left|]. destruct (Hin y) as [? ?]; [by right; left|].
  exists x, y. split; [done|]. split; [done|]. split; [set_solver|done].
Qed.

(** ** Which rows go *)
Section Groups.
Context (t : proof_tables) (Hws : well_stored t) (Hh : hashed t).

Definition groups_of : list (string * list StoredProof) := group_rows (select_duplicates t).
Definition removed (r : StoredProof) : Prop := r ∈ duplicates_of groups_of.

Lemma rows_NoDup : NoDup (proof_rows t).
Proof using Hws. exact (NoDup_fmap_1 sp_rowid _ (ws_rowids t Hws)). Qed.

Lemma same_rowid r r' :
  r ∈ proof_rows t → r' ∈ proof_rows t → sp_rowid r = sp_rowid r' → r = r'.
Proof using Hws.
  intros Hr Hr' E. apply list_elem_of_lookup in Hr as [i Hi], Hr' as [j Hj].
  pose proof (ws_rowids t Hws) as Hnd. rewrite NoDup_alt in Hnd.
  assert (i = j) as ->; [|congruence].
  apply (Hnd i j (sp_rowid r)); rewrite list_lookup_fmap, ?Hi, ?Hj; simpl; congruence.
Qed.

Lemma selected r :
  r ∈ select_duplicates t ↔ r ∈ proof_rows t ∧ duplicated (proof_rows t) r = true.
Proof.
  unfold select_duplicates. rewrite elem_of_sort_by, list_elem_of_In, List.filter_In.
  by rewrite <- list_elem_of_In.
Qed.

Lemma selected_NoDup : NoDup (select_duplicates t).
Proof using Hws.
  unfold select_duplicates. rewrite sort_by_perm, NoDup_ListNoDup. apply List.NoDup_filter.
  rewrite <- NoDup_ListNoDup. apply rows_NoDup.
Qed.

Lemma row_hash r : r ∈ proof_rows t → sp_decision_hash r = Some (group_key r).
Proof using Hh.
  intros Hr. unfold hashed in Hh. rewrite Forall_forall in Hh. specialize (Hh r Hr).
  destruct (sp_decision_hash r) as [h|] eqn:E; [|by unfold lacks_hash in Hh; rewrite E in Hh].
  by rewrite (group_key_hash r h).
Qed.

Lemma group_elem k g r :
  (k, g) ∈ groups_of → r ∈ sort_stored g → r ∈ proof_rows t ∧ group_key r = k.
Proof.
  intros ->%group_rows_elem. unfold sort_stored.
  rewrite elem_of_sort_by, list_elem_of_In, List.filter_In, <- list_elem_of_In, selected, String.eqb_eq.
  tauto.
Qed.

Lemma group_NoDup k g : (k, g) ∈ groups_of → NoDup (sort_stored g).
Proof using Hws.
  intros ->%group_rows_elem. unfold sort_stored. rewrite sort_by_perm, NoDup_ListNoDup.
  apply List.NoDup_filter. rewrite <- NoDup_ListNoDup. apply selected_NoDup.
Qed.

Lemma group_unique k g g' : (k, g) ∈ groups_of → (k, g') ∈ groups_of → g = g'.
Proof. intros ->%group_rows_elem ->%group_rows_elem. done. Qed.

Lemma removed_iff r : removed r ↔ ∃ k g, (k, g) ∈ groups_of ∧ r ∈ tail (sort_stored g).
Proof.
  unfold removed, duplicates_of. rewrite list_elem_of_In, in_flat_map. split.
  - intros ([k g] & Hkg & Hr). exists k, g. rewrite !list_elem_of_In. done.
  - intros (k & g & Hkg & Hr). exists (k, g). rewrite !list_elem_of_In in *. done.
Qed.

(** One row of a decision stays. *)
Lemma kept_unique r r' :
  r ∈ proof_rows t → r' ∈ proof_rows t → ¬ removed r → ¬ removed r' →
  sp_decision_hash r = sp_decision_hash r' → r = r'.
Proof using Hws Hh.
  intros Hr Hr' Hk Hk' E. destruct (decide (sp_rowid r = sp_rowid r')) as [Er|Hne];
    [by apply same_rowid|exfalso].
  assert (same_decision r r' = true ∧ same_decision r' r = true) as [Hs Hs'].
  { pose proof (row_hash r Hr). rewrite !same_decision_iff.
    split; exists (group_key r); split; congruence. }
  destruct (group_rows_has (select_duplicates t) r) as (g & Hg & Hin).
  { apply selected. split; [done|]. apply (duplicated_two _ r r'); congruence. }
  destruct (group_rows_has (select_duplicates t) r') as (g' & Hg' & Hin').
  { apply selected. split; [done|]. apply (duplicated_two _ r' r); congruence. }
  assert (group_key r = group_key r') as Ek.
  { pose proof (row_hash r Hr). pose proof (row_hash r' Hr'). congruence. }
  rewrite <- Ek in Hg'. pose proof (group_unique _ _ _ Hg Hg') as <-.
  assert (∀ x, x ∈ g → ¬ removed x → head (sort_stored g) = Some x) as Hhead.
  { intros x Hx Hnx. assert (x ∈ sort_stored g) as Hx' by (by apply elem_of_sort_by).
    destruct (sort_stored g) as [|c l] eqn:Es; [by apply elem_of_nil in Hx'|].
    apply elem_of_cons in Hx' as [->|Hx']; [done|]. destruct Hnx.
    apply removed_iff. exists (group_key r), g. rewrite Es. done. }
  pose proof (Hhead r Hin Hk). pose proof (Hhead r' Hin' Hk'). congruence.
Qed.

(** A row that goes leaves one of its decision behind. *)
Lemma removed_survivor r :
  removed r → ∃ c, c ∈ proof_rows t ∧ ¬ removed c ∧ sp_decision_hash c = sp_decision_hash r.
Proof using Hws Hh.
  intros (k & g & Hg & Hr)%removed_iff.
  pose proof (group_NoDup k g Hg) as Hnd. pose proof (λ x, group_elem k g x Hg) as Helem.
  destruct (sort_stored g) as [|c l] eqn:Es; [by apply elem_of_nil in Hr|]. simpl in Hr.
  apply NoDup_cons in Hnd as [Hc _].
  destruct (Helem c) as [Hct Hck]; [by left|]. destruct (Helem r) as [Hrt Hrk]; [by right|].
  exists c. split; [done|]. split.
  - intros (k' & g' & Hg' & Hc')%removed_iff.
    destruct (group_elem k' g' c Hg') as [_ Hk'].
    { destruct (sort_stored g'); [by apply elem_of_nil in Hc'|by right]. }
    rewrite <- Hk', Hck in Hg'. rewrite (group_unique _ _ _ Hg' Hg), Es in Hc'. done.
  - rewrite (row_hash c), (row_hash r) by done. congruence.
Qed.

Lemma removed_row r : removed r → r ∈ proof_rows t.
Proof.
  intros (k & g & Hg & Hr)%removed_iff. apply (group_elem k g r Hg).
  destruct (sort_stored g); [by apply elem_of_nil in Hr|by right].
Qed.

(** The row numbers to delete are those of the rows that go. *)
Lemma rowid_removed r :
  r ∈ proof_rows t →
  existsb (Z.eqb (sp_rowid r)) (duplicate_rowids groups_of) = true ↔ removed r.
Proof using Hws.
  intros Hr. rewrite existsb_exists. unfold duplicate_rowids. split.
  - intros (z & Hz & <-%Z.eqb_eq). apply List.filter_In in Hz as [Hz _].
    apply in_flat_map in Hz as ([k g] & Hg & Hz). apply in_map_iff in Hz as (r' & E & Hr').
    apply list_elem_of_In in Hg, Hr'.
    assert (removed r') as Hrm by (apply removed_iff; eauto).
    by rewrite (same_rowid r r') by (done || by apply removed_row).
  - intros Hrm. exists (sp_rowid r). split; [|apply Z.eqb_refl].
    apply List.filter_In. split.
    + apply removed_iff in Hrm as (k & g & Hg & Hr').
      apply in_flat_map. exists (k, g). split; [by apply list_elem_of_In|].
      apply in_map_iff. exists r. split; [done|by apply list_elem_of_In].
    + pose proof (ws_nonzero t Hws) as Hz. rewrite Forall_forall in Hz.
      apply negb_true_iff, Z.eqb_neq. by apply Hz.
Qed.
End Groups.

(** What a run leaves. *)
Lemma quarantine_outcome t :
  well_stored t → hashed t →
  let r := quarantineHistoricalProofDuplicates foreign_keys t in
  (r.2 ≠ None ↔ foreign_keys = false ∨ ∀ x, removed t x → sp_proof_id x ∉ outbox t)
  ∧ (r.2 ≠ None →
      (∀ x, x ∈ proof_rows r.1 ↔ x ∈ proof_rows t ∧ ¬ removed t x)
      ∧ NoDup (proof_rows r.1)
      ∧ ∀ x, removed t x → archived r.1 (sp_proof_id x)).
Proof.
  intros Hws Hh.
  assert (quarantineHistoricalProofDuplicates foreign_keys t
    = let t1 := fold_left (λ t kv, quarantine_group kv.2 t) (groups_of t) t in
      let '(t2, done) := delete_rows foreign_keys (duplicate_rowids (groups_of t)) t1 in
      (t2, if done then Some (match select_duplicates t with [] => false | _ => true end,
             length (duplicates_of (groups_of t))) else None)) as ->.
  { unfold quarantineHistoricalProofDuplicates, groups_of. by destruct (select_duplicates t). }
  cbv zeta. destruct (quarantine_groups_spec (groups_of t) t (ws_archive t Hws)) as (_ & Ha & _ & Hr & Ho).
  set (t1 := fold_left _ (groups_of t) t) in *. clearbody t1.
  pose proof (delete_rows_iff (duplicate_rowids (groups_of t)) t1) as Hd. rewrite Hr, Ho in Hd.
  pose proof (delete_rows_spec (duplicate_rowids (groups_of t)) t1) as Hs.
  destruct (delete_rows _ _ t1) as [t2 [|]]; simpl in *.
  - split.
    { split; [intros _|done]. destruct (proj1 Hd eq_refl) as [|Hu]; [by left|right].
      intros x Hx. pose proof (removed_row t x Hx) as Hxt. apply Hu; [done|]. by apply rowid_removed. }
    intros _. destruct (Hs t2 eq_refl) as (Er & Ear & _). rewrite Er, Hr. split; [|split].
    + intros x. rewrite list_elem_of_In, List.filter_In, <- list_elem_of_In, negb_true_iff.
      split; intros [Hx Hn]; (split; [done|]); rewrite <- (rowid_removed t Hws x Hx) in *;
        [congruence|by apply not_true_iff_false].
    + rewrite NoDup_ListNoDup. apply List.NoDup_filter. rewrite <- NoDup_ListNoDup.
      by apply rows_NoDup.
    + intros x Hx. destruct (Ha x Hx) as (a & Hin & Hp). exists a. by rewrite Ear.
  - split; [|done]. split; [done|]. intros Hu. destruct Hd as [_ Hd]. discriminate Hd.
    destruct Hu as [|Hu]; [by left|right]. intros x Hx Hz. apply Hu. by apply rowid_removed in Hz.
Qed.

Lemma quarantine_completes t :
  well_stored t → hashed t → foreign_keys = false ∨ (∀ x, removed t x → sp_proof_id x ∉ outbox t) →
  (quarantineHistoricalProofDuplicates foreign_keys t).2 ≠ None.
Proof. intros Hws Hh Hu. by apply quarantine_outcome. Qed.

Lemma backfill_hashed t : hashed (backfillProofDecisionHashes t).
Proof.
  unfold hashed, backfillProofDecisionHashes. simpl. apply Forall_map, Forall_forall. intros r _.
  destruct (lacks_hash r) eqn:E; [|done]. unfold lacks_hash, right_hash, proofDecisionHash; simpl.
  by destruct (sp_decision_id r).
Qed.

Lemma backfill_stored t : well_stored t → well_stored (backfillProofDecisionHashes t).
Proof.
  intros [H1 H2 H3]. unfold backfillProofDecisionHashes. split; simpl; [|apply Forall_map|done].
  - rewrite map_map. erewrite map_ext; [exact H1|]. intros r. by destruct (lacks_hash r).
  - eapply Forall_impl; [exact H2|]. intros r Hr. simpl. by destruct (lacks_hash r).
Qed.

(** C23. Stabilisation: on any stored tables, after the hashes are filled in and
    the quarantine has gone through, the registry has one row per decision
    hash; every row is there still or its proof is archived and a row of its
    decision is left; the registry counts as stable exactly when every remaining
    hash is that of its own decision and object; and the quarantine, run again,
    finds nothing and changes nothing. *)
Theorem quarantine_stabilizes t0 :
  well_stored t0 →
  let t := backfillProofDecisionHashes t0 in
  let r := quarantineHistoricalProofDuplicates foreign_keys t in
  r.2 ≠ None →
  (∀ x, x ∈ proof_rows r.1 → x ∈ proof_rows t)
  ∧ (∀ x y, x ∈ proof_rows r.1 → y ∈ proof_rows r.1 → sp_decision_hash x = sp_decision_hash y → x = y)
  ∧ (∀ x, x ∈ proof_rows t → x ∈ proof_rows r.1
      ∨ archived r.1 (sp_proof_id x)
        ∧ ∃ c, c ∈ proof_rows r.1 ∧ sp_decision_hash c = sp_decision_hash x)
  ∧ (proofRegistryStabilized r.1 = true ↔
      ∀ x, x ∈ proof_rows r.1 → sp_decision_hash x = Some (right_hash x))
  ∧ quarantineHistoricalProofDuplicates foreign_keys r.1 = (r.1, Some (false, 0%nat)).
Proof.
  intros Hws t r Hr. pose proof (backfill_stored t0 Hws) as Ht. pose proof (backfill_hashed t0) as Hh.
  fold t in Ht, Hh. destruct (quarantine_outcome t Ht Hh) as [_ Hout]. fold r in Hout.
  destruct (Hout Hr) as (Hin & Hnd & Har). clear Hout Hr. clearbody r.
  assert (∀ x y, x ∈ proof_rows r.1 → y ∈ proof_rows r.1 →
    sp_decision_hash x = sp_decision_hash y → x = y) as Huniq.
  { intros x y [Hx Hx']%Hin [Hy Hy']%Hin. by apply (kept_unique t). }
  assert (∀ x, duplicated (proof_rows r.1) x = false) as Hsingle.
  { intros x. destruct (duplicated _ x) eqn:E; [|done].
    apply duplicated_other in E as (b & c & Hb & Hc & Hne & (h & E1 & E2)%same_decision_iff
      & (h' & E3 & E4)%same_decision_iff); [|done].
    destruct Hne. apply Huniq; congruence. }
  split; [by intros x [? _]%Hin|]. split; [done|]. split; [|split].
  - intros x Hx. pose proof (rowid_removed t Ht x Hx) as Hrm.
    destruct (existsb _ (duplicate_rowids (groups_of t))).
    + apply proj1 in Hrm. specialize (Hrm eq_refl). right. split; [by apply Har|].
      destruct (removed_survivor t Ht Hh x Hrm) as (c & Hc & Hck & E). exists c. by rewrite Hin.
    + left. apply Hin. split; [done|]. intros Hu. by apply Hrm in Hu.
  - unfold proofRegistryStabilized. rewrite andb_true_iff, !forallb_forall.
    setoid_rewrite <- list_elem_of_In. setoid_rewrite andb_true_iff.
    setoid_rewrite bool_decide_eq_true. split; [naive_solver|]. intros Hu. split.
    + intros x Hx. split; [|by apply Hu]. apply negb_true_iff.
      unfold hashed in Hh. rewrite Forall_forall in Hh. by apply Hh, Hin.
    + intros x _. by rewrite Hsingle.
  - unfold quarantineHistoricalProofDuplicates, select_duplicates.
    by rewrite (filter_all_false _ _ Hsingle).
Qed.

(** Start-up goes through exactly when the outbox refers to no duplicate:
    where foreign keys are enforced, one duplicate with an outbox row makes the
    quarantine fail, at every start-up again. *)
Theorem quarantine_completes_iff t0 :
  well_stored t0 →
  let t := backfillProofDecisionHashes t0 in
  (quarantineHistoricalProofDuplicates foreign_keys t).2 ≠ None ↔
  foreign_keys = false ∨ ∀ x, removed t x → sp_proof_id x ∉ outbox t.
Proof.
  intros Hws t. apply quarantine_outcome; [by apply backfill_stored|apply backfill_hashed].
Qed.
End Stabilise.

(** * A concrete start-up *)
#[local] Instance bare_platform : Platform :=
  mkPlatform (λ _, None) (λ _, None) (λ _, EmptyString) (λ _, NNaN) (λ s, s) (λ s, s) String.leb
    (λ _, EmptyString) (λ _ s, s) (λ _, None) (λ s, s).

Definition sample_proof (rowid : Z) (id created : string) : StoredProof :=
  mkStored rowid id "D-1" "sha256:o" None created [("session_id", JStr "s")].

Definition sample_tables (refs : list string) : proof_tables :=
  mkProofTables [sample_proof 1 "p1" "t1"; sample_proof 2 "p2" "t2"] [] [] refs.

Lemma sample_well_stored refs : well_stored (sample_tables refs).
Proof.
  split; simpl.
  - apply (bool_decide_unpack _). reflexivity.
  - repeat constructor; discriminate.
  - constructor.
Qed.

Lemma quarantine_stabilizes_witness :
  let t := backfillProofDecisionHashes (sample_tables ["p2"]) in
  let r := quarantineHistoricalProofDuplicates false t in
  ∃ c, c ∈ proof_rows r.1 ∧ sp_decision_hash c = Some (proofDecisionHash "D-1" "sha256:o").
Proof.
  intros t r.
  destruct (quarantine_stabilizes false (sample_tables ["p2"]) (sample_well_stored _))
    as (_ & _ & Hk & _).
  { apply quarantine_completes; [apply backfill_stored, sample_well_stored|apply backfill_hashed|].
    left. reflexivity. }
  destruct (Hk (set_decision_hash (sample_proof 1 "p1" "t1") (proofDecisionHash "D-1" "sha256:o")))
    as [Hin|(_ & c & Hc & E)]; [left|eexists; split; [exact Hin|reflexivity]|].
  exists c. split; [exact Hc|exact E].
Defined.

Lemma quarantine_completes_iff_witness :
  (quarantineHistoricalProofDuplicates true (backfillProofDecisionHashes (sample_tables []))).2 ≠ None.
Proof.
  apply (quarantine_completes_iff true (sample_tables []) (sample_well_stored _)).
  right. intros x _. apply not_elem_of_nil.
Defined.
