(* ===== verification/ReconciliationTraversal.v ===== *)
(** The reconciliation traversal of [src/index.ts]: one walk over the registries
    in a fixed order, from session to governance evidence, that looks for the row
    an anchor names in each and stops at the first that does not follow from the
    rows before it; its report, and the routes that answer with it.

    The statements only read. Three of the registries are written by routes that
    are not modelled, and no column of theirs is looked at: the number of their
    rows is a parameter. *)
From Stdlib Require Import ZArith NArith Lia Ascii.
From stdpp Require Import base list strings pretty.
From S2P Require Import Prelude JsValue Sha256 Canonical Effects WorkerValues WorkerTables WorkerSql.
From S2P Require Import WorkerLineage WorkerIssuance WorkerAuthority WorkerExecution.

Local Open Scope eff_scope.

(** * Registries, drift and anchors *)
Inductive ReconciliationRegistry :=
  | session_registry | continuity_registry | authority_registry | aeo_registry
  | validation_registry | execution_registry | proof_registry | invocation_registry
  | preo_registry | runtime_topology_registry | recursive_governance_containment_registry
  | root_authority_observability_registry | unauthorized_mutation_closure_registry.

#[export] Instance registry_eq_dec : EqDecision ReconciliationRegistry.
Proof. solve_decision. Defined.

Definition registry_str (r : ReconciliationRegistry) : string :=
  match r with
  | session_registry => "session_registry"
  | continuity_registry => "continuity_registry"
  | authority_registry => "authority_registry"
  | aeo_registry => "aeo_registry"
  | validation_registry => "validation_registry"
  | execution_registry => "execution_registry"
  | proof_registry => "proof_registry"
  | invocation_registry => "invocation_registry"
  | preo_registry => "preo_registry"
  | runtime_topology_registry => "runtime_topology_registry"
  | recursive_governance_containment_registry => "recursive_governance_containment_registry"
  | root_authority_observability_registry => "root_authority_observability_registry"
  | unauthorized_mutation_closure_registry => "unauthorized_mutation_closure_registry"
  end.

Definition CANONICAL_RECONCILIATION_REGISTRY_ORDER : list ReconciliationRegistry :=
  [session_registry; continuity_registry; authority_registry; aeo_registry; validation_registry;
   execution_registry; proof_registry; invocation_registry; preo_registry;
   runtime_topology_registry; recursive_governance_containment_registry;
   root_authority_observability_registry; unauthorized_mutation_closure_registry].

Definition RECONCILIATION_MAX_RECURSION_DEPTH : nat := SYSTEM_MAX_CONTINUITY_DEPTH.
Definition RECONCILIATION_ROW_LIMIT : nat := 2.
Definition RECONCILIATION_SCHEDULER_BATCH_LIMIT : nat := 25.

Inductive drift_class :=
  | orphan_legitimacy_object_drift | recursive_ancestry_drift | replay_chain_drift
  | proof_lineage_drift | duplicate_lineage_hash_drift | preo_ancestry_drift
  | revocation_propagation_drift | traversal_instability_drift
  | federated_identifier_resolution_drift.

#[export] Instance drift_eq_dec : EqDecision drift_class.
Proof. solve_decision. Defined.

Definition drift_class_str (d : drift_class) : string :=
  match d with
  | orphan_legitimacy_object_drift => "orphan_legitimacy_object_drift"
  | recursive_ancestry_drift => "recursive_ancestry_drift"
  | replay_chain_drift => "replay_chain_drift"
  | proof_lineage_drift => "proof_lineage_drift"
  | duplicate_lineage_hash_drift => "duplicate_lineage_hash_drift"
  | preo_ancestry_drift => "preo_ancestry_drift"
  | revocation_propagation_drift => "revocation_propagation_drift"
  | traversal_instability_drift => "traversal_instability_drift"
  | federated_identifier_resolution_drift => "federated_identifier_resolution_drift"
  end.

(** An absent identifier is the empty text: every reader treats them alike. *)
Record ReconciliationAnchor := mkAnchor {
  ra_session : string;
  ra_continuity : string;
  ra_decision : string;
  ra_execution : string;
  ra_proof : string;
  ra_object_hash : string;
  ra_nonce : string
}.

Definition reconciliationAnchorKey (a : ReconciliationAnchor) : string :=
  canonicalize (JObj [("continuity_id", JStr (ra_continuity a)); ("decision_id", JStr (ra_decision a));
    ("execution_id", JStr (ra_execution a)); ("invocation_nonce", JStr (ra_nonce a));
    ("proof_id", JStr (ra_proof a)); ("session_id", JStr (ra_session a));
    ("validated_object_hash", JStr (ra_object_hash a))]).

(** * Results *)
Record trace_entry := mkEntry {
  te_registry : ReconciliationRegistry;
  te_position : nat;
  te_depth : nat;
  te_lookup_key : string;
  te_row_count : nat;
  te_lineage_hash : string;
  te_identifiers : option (list (string * string))
}.

(** Identifiers, those that are there, by name. *)
Definition populatedCanonicalIdentifiers (ids : list (string * string)) : list (string * string) :=
  sort_by (λ x y, str_leb x.1 y.1) (List.filter (λ kv, negb (is_empty_str kv.2)) ids).

Definition identifiers_js (ids : list (string * string)) : jsval :=
  JObj (map (λ kv, (kv.1, JStr kv.2)) ids).

Definition entry_js (e : trace_entry) : jsval :=
  JObj [("registry", JStr (registry_str (te_registry e)));
    ("canonical_traversal_position", jint (Z.of_nat (te_position e)));
    ("reconciliation_depth", jint (Z.of_nat (te_depth e))); ("lookup_key", JStr (te_lookup_key e));
    ("row_count", jint (Z.of_nat (te_row_count e))); ("lineage_hash", JStr (te_lineage_hash e));
    ("canonical_identifiers",
       match te_identifiers e with Some ids => identifiers_js ids | None => JUndef end)].

Definition trace_js (t : list trace_entry) : jsval := JArr (map entry_js t).

Inductive severity := LOW | MEDIUM | HIGH | CRITICAL.

Definition drift_severity_str (s : severity) : string :=
  match s with LOW => "LOW" | MEDIUM => "MEDIUM" | HIGH => "HIGH" | CRITICAL => "CRITICAL" end.

Record ReconciliationDrift := mkDrift {
  rd_id : string;
  rd_class : drift_class;
  rd_anchor : string;
  rd_registry : ReconciliationRegistry;
  rd_severity : severity;
  rd_trace : list trace_entry
}.

Inductive ReconciliationStatus := VALID_RECONCILIATION | INVALID_RECONCILIATION | NULL_STATUS.

Definition reconciliation_status_str (s : ReconciliationStatus) : string :=
  match s with
  | VALID_RECONCILIATION => "VALID_RECONCILIATION"
  | INVALID_RECONCILIATION => "INVALID_RECONCILIATION"
  | NULL_STATUS => "NULL"
  end.

(** [result] is [NULL] unless the reconciliation is valid. *)
Record ReconciliationResult := mkResult {
  rr_status : ReconciliationStatus;
  rr_result : ReconciliationStatus;
  rr_anchor : string;
  rr_depth : nat;
  rr_trace : list trace_entry;
  rr_drift : list ReconciliationDrift
}.

Definition reconciliationDriftId (d : drift_class) (r : ReconciliationRegistry) (lineage_anchor : string)
    (trace : list trace_entry) : string :=
  hashCanonical (JObj [("drift_class", JStr (drift_class_str d)); ("registry", JStr (registry_str r));
    ("lineage_anchor", JStr lineage_anchor); ("trace", trace_js trace)]).

Definition reconciliationInvalid (d : drift_class) (r : ReconciliationRegistry)
    (a : ReconciliationAnchor) (trace : list trace_entry) (s : severity) : ReconciliationResult :=
  let lineage_anchor := reconciliationAnchorKey a in
  mkResult INVALID_RECONCILIATION NULL_STATUS lineage_anchor (length trace) trace
    [mkDrift (reconciliationDriftId d r lineage_anchor trace) d lineage_anchor r s trace].

Definition reconciliationValid (a : ReconciliationAnchor) (trace : list trace_entry) :
    ReconciliationResult :=
  mkResult VALID_RECONCILIATION VALID_RECONCILIATION (reconciliationAnchorKey a) (length trace) trace [].

Definition reconciliationNull (a : ReconciliationAnchor) (trace : list trace_entry) :
    ReconciliationResult :=
  mkResult NULL_STATUS NULL_STATUS (reconciliationAnchorKey a) (length trace) trace [].

(** * Rows *)
Inductive registry_row :=
  | InSession (r : SessionRow) | InContinuity (r : ContinuityRow) | InAuthority (r : AuthorityRow)
  | InAeo (r : AeoRow) | InValidation (r : ValidationRow) | InExecution (r : ExecutionRow)
  | InProof (r : ProofRow) | InInvocation (r : InvocationRow) | InPreo (r : PreoRow)
  | InEvidence.

(** [String(row?.continuity_hash || row?.validated_object_hash || row?.reviewed_hash || "")]. *)
Definition row_lineage_hash (row : registry_row) : string :=
  let or_hash x y := if is_empty_str x then y else x in
  match row with
  | InContinuity r => co_hash r
  | InAeo r => ao_hash r
  | InValidation r => va_hash r
  | InExecution r => ex_hash r
  | InProof r => or_hash (pf_continuity_hash r) (pf_hash r)
  | InInvocation r => in_hash r
  | InPreo r => po_reviewed_hash r
  | InSession _ | InAuthority _ | InEvidence => EmptyString
  end.

Definition canonicalIdentifiersFromReconciliationRow (row : registry_row) : list (string * string) :=
  populatedCanonicalIdentifiers
    match row with
    | InSession r => [("session_id", se_id r)]
    | InContinuity r => [("continuity_id", co_id r); ("session_id", co_session r)]
    | InAuthority r => [("authority_id", au_id r); ("continuity_id", au_continuity r);
        ("decision_id", au_decision r); ("session_id", au_session r)]
    | InAeo r => [("aeo_id", ao_id r); ("authority_id", ao_authority r);
        ("continuity_id", ao_continuity r); ("decision_id", ao_decision r);
        ("validated_object_hash", ao_hash r)]
    | InValidation r => [("validation_id", va_id r); ("continuity_id", va_continuity r);
        ("decision_id", va_decision r); ("invocation_nonce", va_nonce r);
        ("session_id", va_session r); ("validated_object_hash", va_hash r)]
    | InExecution r => [("continuity_id", ex_continuity r); ("decision_id", ex_decision r);
        ("execution_id", ex_id r); ("invocation_nonce", ex_nonce r); ("session_id", ex_session r);
        ("validated_object_hash", ex_hash r)]
    | InProof r => [("continuity_id", pf_continuity r); ("decision_id", pf_decision r);
        ("execution_id", pf_execution r); ("proof_id", pf_id r); ("session_id", pf_session r);
        ("validated_object_hash", pf_hash r)]
    | InInvocation r => [("continuity_id", in_continuity r); ("decision_id", in_decision r);
        ("invocation_nonce", in_nonce r); ("validated_object_hash", in_hash r)]
    | InPreo r => [("preo_id", po_id r); ("authority_id", po_authority r);
        ("continuity_id", po_continuity r); ("decision_id", po_decision r);
        ("reviewed_hash", po_reviewed_hash r)]
    | InEvidence => []
    end.

(** The rows accepted so far. *)
Record traversal_context := mkContext {
  cx_session : option SessionRow;
  cx_continuity : option ContinuityRow;
  cx_authority : option AuthorityRow;
  cx_aeo : option AeoRow;
  cx_validation : option ValidationRow;
  cx_execution : option ExecutionRow;
  cx_proof : option ProofRow;
  cx_invocation : option InvocationRow;
  cx_preo : option PreoRow
}.

Definition empty_context : traversal_context :=
  mkContext None None None None None None None None None.

Definition accept (row : registry_row) (c : traversal_context) : traversal_context :=
  let 'mkContext s k a o v e p i g := c in
  match row with
  | InSession r => mkContext (Some r) k a o v e p i g
  | InContinuity r => mkContext s (Some r) a o v e p i g
  | InAuthority r => mkContext s k (Some r) o v e p i g
  | InAeo r => mkContext s k a (Some r) v e p i g
  | InValidation r => mkContext s k a o (Some r) e p i g
  | InExecution r => mkContext s k a o v (Some r) p i g
  | InProof r => mkContext s k a o v e (Some r) i g
  | InInvocation r => mkContext s k a o v e p (Some r) g
  | InPreo r => mkContext s k a o v e p i (Some r)
  | InEvidence => c
  end.

(** * Lookups *)
(** [String(context.x?.field || anchor.field || "")]. *)
Definition known {R} (field : R → string) (row : option R) (fallback : string) : string :=
  match row with
  | Some r => if is_empty_str (field r) then fallback else field r
  | None => fallback
  end.

(** Two rows at most, oldest first. *)
Definition limited {R} (created id : R → string) (p : R → bool) (rows : list R) : list R :=
  take RECONCILIATION_ROW_LIMIT (sort_by (earlier_first created id) (List.filter p rows)).

Section Lookup.
Context (evidence_rows : ReconciliationRegistry → nat).
Context (a : ReconciliationAnchor) (c : traversal_context).

Definition lk_session : string := known se_id (cx_session c) (ra_session a).
Definition lk_continuity : string := known co_id (cx_continuity c) (ra_continuity a).
Definition lk_decision : string := known au_decision (cx_authority c) (ra_decision a).
Definition lk_hash : string := known ao_hash (cx_aeo c) (ra_object_hash a).
Definition lk_execution : string := known ex_id (cx_execution c) (ra_execution a).
Definition lk_nonce : string :=
  known va_nonce (cx_validation c) (known ex_nonce (cx_execution c) (ra_nonce a)).

Definition colon2 (x y : string) : string := x +:+ ":" +:+ y.
Definition colon3 (x y z : string) : string := x +:+ ":" +:+ y +:+ ":" +:+ z.

Definition lookup_key (r : ReconciliationRegistry) : string :=
  let unless x y := if is_empty_str x then y else x in
  match r with
  | session_registry => unless lk_session "ACTIVE"
  | continuity_registry => unless lk_continuity lk_session
  | authority_registry => unless lk_decision (colon2 lk_session lk_continuity)
  | aeo_registry => lk_decision
  | validation_registry => colon2 lk_decision lk_hash
  | execution_registry => unless lk_execution (colon2 lk_decision lk_hash)
  | proof_registry => unless (ra_proof a) (colon3 lk_execution lk_decision lk_hash)
  | invocation_registry => colon3 lk_decision lk_hash lk_nonce
  | preo_registry => colon2 lk_decision lk_hash
  | _ => registry_str r
  end.

(** [reconciliationLookup] and the query that it makes. *)
Definition lookup_rows (r : ReconciliationRegistry) (s : world) : list registry_row :=
  match r with
  | session_registry => map InSession (limited se_created_at se_id
      (λ x, if is_empty_str lk_session then sql_eqb (se_status x) "ACTIVE"
            else sql_eqb (se_id x) lk_session) (sessions s))
  | continuity_registry => map InContinuity (limited co_issued_at co_id
      (λ x, if is_empty_str lk_continuity then sql_eqb (co_session x) lk_session
            else sql_eqb (co_id x) lk_continuity) (continuities s))
  | authority_registry => map InAuthority (limited au_created_at au_id
      (λ x, if is_empty_str lk_decision
            then sql_eqb (au_session x) lk_session && sql_eqb (au_continuity x) lk_continuity
            else sql_eqb (au_decision x) lk_decision) (authorities s))
  | aeo_registry => map InAeo (limited ao_created_at ao_id
      (λ x, sql_eqb (ao_decision x) lk_decision) (aeos s))
  | validation_registry => map InValidation (limited va_created_at va_id
      (λ x, sql_eqb (va_decision x) lk_decision && sql_eqb (va_hash x) lk_hash) (validations s))
  | execution_registry => map InExecution (limited ex_created_at ex_id
      (λ x, if is_empty_str lk_execution
            then sql_eqb (ex_decision x) lk_decision && sql_eqb (ex_hash x) lk_hash
            else sql_eqb (ex_id x) lk_execution) (executions s))
  | proof_registry => map InProof (limited pf_created_at pf_id
      (λ x, if is_empty_str (ra_proof a)
            then sql_eqb (pf_execution x) lk_execution && sql_eqb (pf_decision x) lk_decision
                 && sql_eqb (pf_hash x) lk_hash
            else sql_eqb (pf_id x) (ra_proof a)) (proofs s))
  | invocation_registry => map InInvocation (limited in_created_at in_nonce
      (same_invocation lk_decision lk_hash lk_nonce) (invocations s))
  | preo_registry => map InPreo (limited po_created_at po_id
      (λ x, sql_eqb (po_decision x) lk_decision && sql_eqb (po_reviewed_hash x) lk_hash) (preos s))
  | runtime_topology_registry =>
      map (λ _, InEvidence) (take RECONCILIATION_ROW_LIMIT (topologies s))
  | _ => repeat InEvidence (min RECONCILIATION_ROW_LIMIT (evidence_rows r))
  end.

Definition readReconciliationRows (r : ReconciliationRegistry) : sql (list registry_row) :=
  select (lookup_rows r).
End Lookup.

(** * Checks *)

(** The drift of the first condition that is met. *)
Fixpoint first_drift (checks : list (bool * drift_class)) : option drift_class :=
  match checks with
  | [] => None
  | (true, d) :: _ => Some d
  | (false, _) :: rest => first_drift rest
  end.

Definition unlike (x y : string) : bool := negb (String.eqb x y).

Section Checks.
Context `{!Platform}.

Definition select_hash_twins (h : string) : sql nat :=
  select (λ s, length (take RECONCILIATION_ROW_LIMIT
    (List.filter (λ x, sql_eqb (co_hash x) h) (continuities s)))).

(** The columns of a continuity that are compared with the session's, and its life. *)
Definition continuity_row_drift (row : ContinuityRow) (session : SessionRow) : option drift_class :=
  first_drift [(unlike (co_session row) (se_id session), recursive_ancestry_drift);
    (unlike (co_identity row) (se_identity session), recursive_ancestry_drift);
    (unlike (co_status row) "ACTIVE" || negb (null_or_empty (co_revoked_at row)),
       revocation_propagation_drift)].

(** The loop; [None] is [VALID]. The depth is that of the rows visited. *)
Fixpoint read_only_ancestry (fuel : nat) (visited : list string) (current : ContinuityRow)
    (session : SessionRow) : eff (option drift_class) :=
  match fuel with
  | O => ret (Some traversal_instability_drift)
  | S n =>
      if is_empty_str (co_id current) || str_in (co_id current) visited
      then ret (Some recursive_ancestry_drift)
      else if Nat.ltb RECONCILIATION_MAX_RECURSION_DEPTH (S (length visited))
      then ret (Some traversal_instability_drift)
      else
        match continuity_row_drift current session with
        | Some d => ret (Some d)
        | None =>
            let! t := exec now_ms in
            if isExpired (co_expires_at current) t then ret (Some revocation_propagation_drift)
            else
              match json_parse (stored_json (co_canonical current)) with
              | None => ret (Some recursive_ancestry_drift)
              | Some canonical =>
                  let actualHash := continuityHash canonical in
                  if unlike actualHash (co_hash current) then ret (Some recursive_ancestry_drift)
                  else
                    let! _ := need_object canonical in
                    if unlike actualHash (text (get canonical "continuity_hash"))
                    then ret (Some recursive_ancestry_drift)
                    else
                      let! twins := exec (select_hash_twins (co_hash current)) in
                      if Nat.ltb 1 twins then ret (Some duplicate_lineage_hash_drift)
                      else if unlike (canonical_parent canonical) (row_parent current)
                      then ret (Some recursive_ancestry_drift)
                      else if is_empty_str (canonical_parent canonical) then ret None
                      else
                        let! parent := exec (select_continuity (canonical_parent canonical)) in
                        match parent with
                        | None => ret (Some orphan_legitimacy_object_drift)
                        | Some p => read_only_ancestry n (co_id current :: visited) p session
                        end
              end
        end
  end.

(** The 33rd row ends the loop. *)
Definition verifyContinuityAncestryReadOnly (continuity : ContinuityRow) (session : SessionRow) :
    eff (option drift_class) :=
  read_only_ancestry (S RECONCILIATION_MAX_RECURSION_DEPTH) [] continuity session.

(** ** Rows against the rows before them *)
Definition authority_drift (r : AuthorityRow) (s : SessionRow) (k : ContinuityRow) :
    option drift_class :=
  first_drift [(unlike (au_session r) (se_id s), recursive_ancestry_drift);
    (unlike (au_continuity r) (co_id k), recursive_ancestry_drift);
    (unlike (au_identity r) (se_identity s), recursive_ancestry_drift);
    (str_in (au_status r) ["REVOKED"; "EXPIRED"], revocation_propagation_drift)].

Definition aeo_drift (r : AeoRow) (a : AuthorityRow) : option drift_class :=
  first_drift [(unlike (ao_authority r) (au_id a), recursive_ancestry_drift);
    (unlike (ao_continuity r) (au_continuity a), recursive_ancestry_drift);
    (match stored_aeo (ao_canonical r) with
     | Some aeo => unlike (aeo_hash aeo) (ao_hash r) | None => true end, recursive_ancestry_drift)].

Definition origin_drifts (o : option string) : bool := match o with Some _ => true | None => false end.

Definition validation_drift (r : ValidationRow) (s : SessionRow) (k : ContinuityRow) (o : AeoRow) :
    option drift_class :=
  first_drift [(unlike (va_session r) (se_id s), recursive_ancestry_drift);
    (unlike (va_continuity r) (co_id k), recursive_ancestry_drift);
    (unlike (va_hash r) (ao_hash o), recursive_ancestry_drift);
    (unlike (va_status r) "VALID" || unlike (va_result r) "VALID", replay_chain_drift);
    (is_empty_str (va_parent_hash r), orphan_legitimacy_object_drift);
    (unlike (va_parent_hash r) (ao_hash o), recursive_ancestry_drift);
    (unlike (va_stage r) "validate", recursive_ancestry_drift);
    (is_empty_str (va_origin_hash r), orphan_legitimacy_object_drift);
    (origin_drifts (verifyLineageOrigin stage_validate (va_decision r) (va_hash r) (va_stage r)
       (va_origin_hash r) (va_parent_hash r) (ao_hash o)), recursive_ancestry_drift)].

Definition execution_drift (r : ExecutionRow) (v : ValidationRow) : option drift_class :=
  first_drift [(unlike (ex_session r) (va_session v), recursive_ancestry_drift);
    (unlike (ex_continuity r) (va_continuity v), recursive_ancestry_drift);
    (unlike (ex_decision r) (va_decision v), recursive_ancestry_drift);
    (unlike (ex_hash r) (va_hash v), recursive_ancestry_drift);
    (unlike (ex_nonce r) (va_nonce v), replay_chain_drift);
    (is_empty_str (ex_parent_hash r), orphan_legitimacy_object_drift);
    (unlike (ex_parent_hash r) (va_origin_hash v), proof_lineage_drift);
    (unlike (ex_stage r) "execute", proof_lineage_drift);
    (is_empty_str (ex_origin_hash r), orphan_legitimacy_object_drift);
    (origin_drifts (verifyLineageOrigin stage_execute (ex_decision r) (ex_hash r) (ex_stage r)
       (ex_origin_hash r) (ex_parent_hash r) (va_origin_hash v)), proof_lineage_drift);
    (unlike (ex_status r) "EXECUTED", proof_lineage_drift)].

Definition proof_row_drift (r : ProofRow) (e : ExecutionRow) (k : ContinuityRow) :
    option drift_class :=
  first_drift [(unlike (pf_execution r) (ex_id e), proof_lineage_drift);
    (unlike (pf_decision r) (ex_decision e), proof_lineage_drift);
    (unlike (pf_hash r) (ex_hash e), proof_lineage_drift);
    (unlike (pf_continuity r) (co_id k), proof_lineage_drift);
    (unlike (pf_continuity_hash r) (co_hash k), proof_lineage_drift)].

Definition proof_origin_drift (r : ProofRow) (e : ExecutionRow) : option drift_class :=
  first_drift [(is_empty_str (pf_parent_hash r), orphan_legitimacy_object_drift);
    (unlike (pf_parent_hash r) (ex_origin_hash e), proof_lineage_drift);
    (unlike (pf_stage r) "proof", proof_lineage_drift);
    (is_empty_str (pf_origin_hash r), orphan_legitimacy_object_drift);
    (origin_drifts (verifyLineageOrigin stage_proof (pf_decision r) (pf_hash r) (pf_stage r)
       (pf_origin_hash r) (pf_parent_hash r) (ex_origin_hash e)), proof_lineage_drift)].

Definition invocation_drift (r : InvocationRow) (v : ValidationRow) : option drift_class :=
  first_drift [(unlike (in_decision r) (va_decision v), replay_chain_drift);
    (unlike (in_hash r) (va_hash v), replay_chain_drift);
    (unlike (in_nonce r) (va_nonce v), replay_chain_drift);
    (unlike (in_continuity r) (va_continuity v), replay_chain_drift);
    (unlike (in_status r) "EXECUTED", replay_chain_drift)].

Definition preo_drift (r : PreoRow) (a : AuthorityRow) (o : AeoRow) : option drift_class :=
  first_drift [(unlike (po_decision r) (au_decision a), preo_ancestry_drift);
    (unlike (po_authority r) (au_id a), preo_ancestry_drift);
    (unlike (po_continuity r) (au_continuity a), preo_ancestry_drift);
    (unlike (po_reviewed_hash r) (ao_hash o), preo_ancestry_drift);
    (unlike (po_status r) "PREO_VALID", preo_ancestry_drift)].

(** The two lineage texts of a proof, both parsed before either is read. *)
Definition proof_texts_drift (r : ProofRow) (e : ExecutionRow) (a : AuthorityRow) :
    eff (option drift_class) :=
  match json_parse (stored_json (pf_authority_lineage r)),
        json_parse (stored_json (pf_execution_lineage r)) with
  | Some authorityLineage, Some executionLineage =>
      let! _ := need_object authorityLineage in
      if unlike (text (get authorityLineage "authority_id")) (au_id a)
      then ret (Some proof_lineage_drift)
      else
        let! _ := need_object executionLineage in
        ret (first_drift [(unlike (text (get executionLineage "execution_id")) (ex_id e),
          proof_lineage_drift)])
  | _, _ => ret (Some proof_lineage_drift)
  end.

(** [None] is [VALID]; the caller then accepts the row. *)
Definition verifyReconciliationRegistryRow (row : registry_row) (c : traversal_context) :
    eff (option drift_class) :=
  let orphan := ret (Some orphan_legitimacy_object_drift) in
  match row with
  | InSession r =>
      if unlike (se_status r) "ACTIVE" then ret (Some revocation_propagation_drift)
      else
        let! t := exec now_ms in
        ret (first_drift [(isExpired (se_expires_at r) t, revocation_propagation_drift)])
  | InContinuity r =>
      match cx_session c with
      | Some s => verifyContinuityAncestryReadOnly r s
      | None => orphan
      end
  | InAuthority r =>
      match cx_session c, cx_continuity c with
      | Some s, Some k => ret (authority_drift r s k)
      | _, _ => orphan
      end
  | InAeo r =>
      match cx_authority c with Some a => ret (aeo_drift r a) | None => orphan end
  | InValidation r =>
      match cx_session c, cx_continuity c, cx_aeo c with
      | Some s, Some k, Some o => ret (validation_drift r s k o)
      | _, _, _ => orphan
      end
  | InExecution r =>
      match cx_validation c with Some v => ret (execution_drift r v) | None => orphan end
  | InProof r =>
      match cx_execution c, cx_continuity c, cx_authority c with
      | Some e, Some k, Some a =>
          match proof_row_drift r e k with
          | Some d => ret (Some d)
          | None =>
              let! found := proof_texts_drift r e a in
              match found with
              | Some d => ret (Some d)
              | None => ret (proof_origin_drift r e)
              end
          end
      | _, _, _ => orphan
      end
  | InInvocation r =>
      match cx_validation c, cx_execution c with
      | Some v, Some _ => ret (invocation_drift r v)
      | _, _ => orphan
      end
  | InPreo r =>
      match cx_authority c, cx_aeo c with
      | Some a, Some o => ret (preo_drift r a o)
      | _, _ => orphan
      end
  | InEvidence => ret None
  end.

(** * The traversal *)
Section Traversal.
Context (evidence_rows : ReconciliationRegistry → nat) (anchor : ReconciliationAnchor).

Fixpoint index_of (r : ReconciliationRegistry) (l : list ReconciliationRegistry) : nat :=
  match l with
  | [] => 0
  | x :: l' => if decide (x = r) then 0 else S (index_of r l')
  end.

Definition new_entry (r : ReconciliationRegistry) (key : string) (rows : list registry_row)
    (trace : list trace_entry) : trace_entry :=
  mkEntry r (index_of r CANONICAL_RECONCILIATION_REGISTRY_ORDER) (S (length trace)) key (length rows)
    match rows with [row] => row_lineage_hash row | _ => EmptyString end
    match rows with
    | [row] => Some (canonicalIdentifiersFromReconciliationRow row) | _ => None end.

Fixpoint traverse (order : list ReconciliationRegistry) (c : traversal_context)
    (trace : list trace_entry) : eff ReconciliationResult :=
  match order with
  | [] => ret (reconciliationValid anchor trace)
  | r :: order' =>
      if Nat.leb RECONCILIATION_MAX_RECURSION_DEPTH (length trace)
      then ret (reconciliationInvalid traversal_instability_drift r anchor trace CRITICAL)
      else
        let! rows := exec (readReconciliationRows evidence_rows anchor c r) in
        let trace' := trace ++ [new_entry r (lookup_key anchor c r) rows trace] in
        match rows with
        | [] => ret (reconciliationInvalid orphan_legitimacy_object_drift r anchor trace' HIGH)
        | [row] =>
            let! found := verifyReconciliationRegistryRow row c in
            match found with
            | Some d => ret (reconciliationInvalid d r anchor trace' HIGH)
            | None => traverse order' (accept row c) trace'
            end
        | _ => ret (reconciliationInvalid traversal_instability_drift r anchor trace' HIGH)
        end
  end.

Definition deterministicRecursiveReconciliationTraversal (has_db : bool) : eff ReconciliationResult :=
  if has_db then traverse CANONICAL_RECONCILIATION_REGISTRY_ORDER empty_context []
  else ret (reconciliationNull anchor []).
End Traversal.
End Checks.
