(* ===== verification/ReconciliationReport.v ===== *)
(** What [src/index.ts] makes of a reconciliation: the summary, the Merkle
    evidence, the report and the checkpoint, the schedule of anchors, and the
    three [/reconcile] routes. *)
From Stdlib Require Import ZArith NArith Lia Ascii.
From stdpp Require Import base list strings pretty.
From S2P Require Import Prelude JsValue Sha256 Canonical Effects WorkerValues WorkerTables WorkerSql.
From S2P Require Import WorkerLineage WorkerIssuance WorkerProof ReconciliationTraversal.

Local Open Scope eff_scope.

Definition strs_js (l : list string) : jsval := JArr (map JStr l).

Definition order_js : jsval := strs_js (map registry_str CANONICAL_RECONCILIATION_REGISTRY_ORDER).

Definition drift_js (d : ReconciliationDrift) : jsval :=
  JObj [("drift_id", JStr (rd_id d)); ("drift_class", JStr (drift_class_str (rd_class d)));
    ("lineage_anchor", JStr (rd_anchor d)); ("registry_origin", JStr (registry_str (rd_registry d)));
    ("detected_at", JStr "DETERMINISTIC_RECONCILIATION_TRAVERSAL");
    ("severity", JStr (drift_severity_str (rd_severity d))); ("deterministic_trace", trace_js (rd_trace d))].

Definition drifts_js (r : ReconciliationResult) : jsval := JArr (map drift_js (rr_drift r)).

Definition drift_classes (r : ReconciliationResult) : list string :=
  map (λ d, drift_class_str (rd_class d)) (rr_drift r).

(** [.sort()] on texts. *)
Definition sorted_strs (l : list string) : list string := sort_by str_leb l.

Definition status_js (s : ReconciliationStatus) : jsval := JStr (reconciliation_status_str s).

Definition deterministicReconciliationId (kind : string) (payload : jsval) : string :=
  hashCanonical (JObj [("kind", JStr kind); ("payload", payload)]).

(** * Summary *)
Definition registry_lineage_anchor (e : trace_entry) : string :=
  canonicalize (JObj [("registry", JStr (registry_str (te_registry e)));
    ("lookup_key", JStr (te_lookup_key e)); ("lineage_hash", JStr (te_lineage_hash e))]).

Definition reconciliationSummaryObject (r : ReconciliationResult) (timestamp : string) : jsval :=
  let anchors := strs_js (map registry_lineage_anchor (rr_trace r)) in
  let stable := JObj [("status", status_js (rr_status r)); ("lineage_anchor", JStr (rr_anchor r));
    ("traversal_trace", trace_js (rr_trace r));
    ("drift_classifications", strs_js (drift_classes r)); ("registry_lineage_anchors", anchors)] in
  JObj [("reconciliation_id", JStr (deterministicReconciliationId "report" stable));
    ("reconciliation_timestamp", JStr timestamp); ("status", status_js (rr_status r));
    ("lineage_anchor", JStr (rr_anchor r)); ("traversal_trace", trace_js (rr_trace r));
    ("drift_classifications", drifts_js r); ("registry_lineage_anchors", anchors);
    ("registry_integrity_summary", JObj [
       ("registries_checked", jint (Z.of_nat (length (rr_trace r))));
       ("drift_count", jint (Z.of_nat (length (rr_drift r))));
       ("bounded_recursion_depth", jint (Z.of_nat (rr_depth r)));
       ("canonical_registry_ordering", order_js)])].

Definition portableReconciliationEnvelope (payload : jsval) : jsval :=
  let exact_object_hash := hashCanonical payload in
  JObj [("media_type", JStr "application/vnd.mindshift.reconciliation+jcs");
    ("dsse_payload_type", JStr "application/vnd.mindshift.reconciliation.v1+json");
    ("canonicalization", JStr "JCS");
    ("content_addressed_lineage_hash", JStr (hashCanonical (JObj [
       ("exact_object_hash", JStr exact_object_hash);
       ("lineage_anchor", JStr (text (get payload "lineage_anchor")))])));
    ("exact_object_hash", JStr exact_object_hash); ("payload", canonicalRecord payload)].

(** * Merkle evidence *)
Definition RECONCILIATION_MERKLE_LAYERS : list string :=
  ["session"; "continuity"; "authority"; "AEO"; "validation"; "execution"; "proof"; "attestation";
   "PREO"].

Record ReconciliationMerkleNode := mkNode {
  mn_position : nat;
  mn_layer : string;
  mn_registry : string;
  mn_object_hash : string;
  mn_parent_hash : string;
  mn_node_hash : string
}.

Definition merkle_genesis (lineage_anchor : string) : string :=
  hashCanonical (JObj [("genesis", JStr "federated_reconciliation");
    ("lineage_anchor", JStr lineage_anchor)]).

Definition merkle_object (layer : string) (entry : option trace_entry) : string :=
  hashCanonical (JObj [("layer", JStr layer);
    ("trace", match entry with Some e => entry_js e | None => JNull end)]).

Definition merkle_node_hash (layer object_hash parent_hash : string) (position : nat) : string :=
  hashCanonical (JObj [("layer", JStr layer); ("object_hash", JStr object_hash);
    ("parent_hash", JStr parent_hash); ("position", jint (Z.of_nat position))]).

(** The loop from [index] on, [trace] being the entries from there on. *)
Fixpoint merkle_from (layers : list string) (index : nat) (trace : list trace_entry)
    (parent_hash : string) : string * list ReconciliationMerkleNode :=
  match layers with
  | [] => (parent_hash, [])
  | layer :: layers' =>
      let object_hash := merkle_object layer (head trace) in
      let node_hash := merkle_node_hash layer object_hash parent_hash index in
      let '(root, nodes) := merkle_from layers' (S index) (tail trace) node_hash in
      (root, mkNode index layer
         match head trace with Some e => registry_str (te_registry e) | None => EmptyString end
         object_hash parent_hash node_hash :: nodes)
  end.

Definition reconciliationMerkleEvidence (r : ReconciliationResult) :
    string * list ReconciliationMerkleNode :=
  merkle_from RECONCILIATION_MERKLE_LAYERS 0 (rr_trace r) (merkle_genesis (rr_anchor r)).

Definition merkle_root (r : ReconciliationResult) : string := (reconciliationMerkleEvidence r).1.

Definition node_js (n : ReconciliationMerkleNode) : jsval :=
  JObj [("position", jint (Z.of_nat (mn_position n))); ("layer", JStr (mn_layer n));
    ("registry", JStr (mn_registry n)); ("object_hash", JStr (mn_object_hash n));
    ("parent_hash", JStr (mn_parent_hash n)); ("node_hash", JStr (mn_node_hash n))].

(** * Snapshot, report, checkpoint *)
Definition CANONICAL_RUNTIME_ROUTES : list string :=
  ["/session"; "/continuity"; "/authority"; "/compile"; "/validate"; "/execute"; "/proof"].

Definition LOCAL_FEDERATION_RUNTIME_ID : string := "mindshift-local-runtime".

Definition AUTHORITY_BOUNDARY : string := "portable_evidence_not_portable_authority".

Definition deterministicReconciliationSnapshot (r : ReconciliationResult) : jsval :=
  let '(root, nodes) := reconciliationMerkleEvidence r in
  canonicalRecord (JObj [("authority_boundary", JStr AUTHORITY_BOUNDARY);
    ("canonical_runtime_path", strs_js CANONICAL_RUNTIME_ROUTES);
    ("drift_classifications", strs_js (sorted_strs (drift_classes r)));
    ("local_validation_required", JBool true); ("merkle_nodes", JArr (map node_js nodes));
    ("reconciliation_merkle_root", JStr root); ("replay_neutral", JBool true);
    ("status", status_js (rr_result r)); ("traversal_trace", trace_js (rr_trace r))]).

(** The entries in the order of the registries, the first of each. *)
Definition ordered_trace (r : ReconciliationResult) : list trace_entry :=
  omap (λ g, List.find (λ e, bool_decide (te_registry e = g)) (rr_trace r))
    CANONICAL_RECONCILIATION_REGISTRY_ORDER.

Definition entry_identifiers (e : trace_entry) : list (string * string) :=
  default [] (te_identifiers e).

(** [String(identifiers?.k || "")]. *)
Definition identifier (k : string) (ids : list (string * string)) : string :=
  match List.find (λ kv, String.eqb kv.1 k) ids with Some kv => kv.2 | None => EmptyString end.

Definition hash_continuity (e : trace_entry) : jsval :=
  let ids := entry_identifiers e in
  JObj [("proof_hash", JStr (identifier "proof_id" ids));
    ("execution_hash", JStr (identifier "execution_id" ids));
    ("validation_hash", JStr (identifier "validated_object_hash" ids))].

Definition deterministicTraversalHash (r : ReconciliationResult) (root traversal_id : string) : string :=
  hashCanonical (JObj [("traversal_id", JStr traversal_id); ("lineage_anchor", JStr (rr_anchor r));
    ("registry_order", order_js);
    ("checked_registries", strs_js (map (λ e, registry_str (te_registry e)) (ordered_trace r)));
    ("drift_classes", strs_js (sorted_strs (drift_classes r)));
    ("reconciliation_merkle_root", JStr root);
    ("hash_continuity", JArr (map hash_continuity (ordered_trace r)))]).

Definition quarantine_candidates (r : ReconciliationResult) : list string :=
  sorted_strs (map rd_anchor (List.filter
    (λ d, match rd_severity d with CRITICAL | HIGH => true | _ => false end) (rr_drift r))).

Definition checked_registries (r : ReconciliationResult) : list ReconciliationRegistry :=
  List.filter (λ g, bool_decide (g ∈ map te_registry (rr_trace r)))
    CANONICAL_RECONCILIATION_REGISTRY_ORDER.

Definition deterministicReconciliationReport (r : ReconciliationResult) (created_at : string) : jsval :=
  let root := merkle_root r in
  let traversal_id := hashCanonical (JObj [("anchor", JStr (rr_anchor r));
    ("canonical_registry_ordering", order_js);
    ("deterministic_traversal_trace", trace_js (rr_trace r))]) in
  let payload := [("traversal_id", JStr traversal_id);
    ("traversal_hash", JStr (deterministicTraversalHash r root traversal_id));
    ("reconciliation_merkle_root", JStr root); ("registry_order", order_js);
    ("checked_registries", strs_js (map registry_str (checked_registries r)));
    ("drift_results", strs_js (sorted_strs (drift_classes r)));
    ("quarantine_candidates", strs_js (quarantine_candidates r));
    ("evidence_only", JBool true); ("replay_neutral", JBool true); ("created_at", JStr created_at)] in
  JObj (("report_id", JStr (hashCanonical (JObj payload))) :: payload).

Record ReconciliationCheckpoint := mkCheckpoint {
  ck_id : string;
  ck_runtime : string;
  ck_merkle_root : string;
  ck_position : nat;
  ck_hash : string;
  ck_lineage_count : nat;
  ck_replay_hash : string;
  ck_drift_hash : string;
  ck_revocation_hash : string;
  ck_created_at : string
}.

Definition revocation_classes (r : ReconciliationResult) : list string :=
  sorted_strs (List.filter (λ d, includes "revocation" d || includes "expiration" d)
    (drift_classes r)).

Definition deterministicReconciliationCheckpoint (r : ReconciliationResult)
    (created_at runtime_id : string) : ReconciliationCheckpoint :=
  let snapshot := deterministicReconciliationSnapshot r in
  let replay := hashCanonical (JObj [("replay_neutral", JBool true);
    ("trace", trace_js (List.filter (λ e, bool_decide (te_registry e = invocation_registry))
       (rr_trace r)))]) in
  let drift := hashCanonical (strs_js (sorted_strs (drift_classes r))) in
  let revocation := hashCanonical (JObj [("replay_neutral", JBool true);
    ("revocation_classes", strs_js (revocation_classes r))]) in
  let deterministic_hash := hashCanonical (JObj [("runtime_id", JStr runtime_id);
    ("snapshot", snapshot); ("replay_snapshot_hash", JStr replay);
    ("drift_snapshot_hash", JStr drift); ("revocation_snapshot_hash", JStr revocation)]) in
  let root := text (get snapshot "reconciliation_merkle_root") in
  let count := length (rr_trace r) in
  mkCheckpoint (hashCanonical (JObj [("runtime_id", JStr runtime_id);
      ("reconciliation_merkle_root", JStr root); ("deterministic_hash", JStr deterministic_hash);
      ("traversal_position", jint (Z.of_nat count)); ("lineage_count", jint (Z.of_nat count));
      ("replay_snapshot_hash", JStr replay); ("drift_snapshot_hash", JStr drift)]))
    runtime_id root count deterministic_hash count replay drift revocation created_at.

Definition checkpoint_js (k : ReconciliationCheckpoint) : jsval :=
  JObj [("checkpoint_id", JStr (ck_id k)); ("runtime_id", JStr (ck_runtime k));
    ("reconciliation_merkle_root", JStr (ck_merkle_root k));
    ("traversal_position", jint (Z.of_nat (ck_position k))); ("deterministic_hash", JStr (ck_hash k));
    ("lineage_count", jint (Z.of_nat (ck_lineage_count k)));
    ("replay_snapshot_hash", JStr (ck_replay_hash k)); ("drift_snapshot_hash", JStr (ck_drift_hash k));
    ("revocation_snapshot_hash", JStr (ck_revocation_hash k)); ("created_at", JStr (ck_created_at k))].

(** * Schedule *)
Fixpoint columns_leb (a b : list string) : bool :=
  match a, b with
  | x :: a', y :: b' => if String.eqb x y then columns_leb a' b' else String.leb x y
  | [], _ => true
  | _, [] => false
  end.

Definition proof_order (p : ProofRow) : list string :=
  [pf_created_at p; pf_decision p; pf_execution p; pf_id p].

Definition select_schedule : sql (list ProofRow) :=
  select (λ s, take RECONCILIATION_SCHEDULER_BATCH_LIMIT
    (sort_by (λ p q, columns_leb (proof_order p) (proof_order q)) (proofs s))).

(** The anchor that a scheduled proof is; the nonce is not scheduled. *)
Definition scheduled_anchor (p : ProofRow) : ReconciliationAnchor :=
  mkAnchor (pf_session p) (pf_continuity p) (pf_decision p) (pf_execution p) (pf_id p) (pf_hash p)
    EmptyString.

Definition scheduled_js (position : nat) (p : ProofRow) : jsval :=
  JObj [("canonical_schedule_position", jint (Z.of_nat position));
    ("scheduled_registry", JStr "proof_registry"); ("session_id", JStr (pf_session p));
    ("continuity_id", JStr (pf_continuity p)); ("decision_id", JStr (pf_decision p));
    ("execution_id", JStr (pf_execution p)); ("proof_id", JStr (pf_id p));
    ("validated_object_hash", JStr (pf_hash p))].

Definition SCHEDULE_ORDER : list string :=
  ["proof_registry.created_at ASC"; "proof_registry.decision_id ASC";
   "proof_registry.execution_id ASC"; "proof_registry.proof_id ASC"].

Definition schedule_window (status : string) (window_core : list (string * jsval)) (anchors : jsval) :
    list (string * jsval) :=
  [("status", JStr status); ("scheduler_mode", JStr "deterministic_read_only_traversal");
   ("window_id", JStr (deterministicReconciliationId "schedule" (JObj window_core)));
   ("batch_limit", jint (Z.of_nat RECONCILIATION_SCHEDULER_BATCH_LIMIT));
   ("ordered_by", strs_js SCHEDULE_ORDER); ("read_only", JBool true);
   ("replay_neutral", JBool true); ("canonical_registry_ordering", order_js); ("anchors", anchors)].

Definition deterministicReconciliationSchedule (has_db : bool) : eff (list (string * jsval)) :=
  let ordered_by := ("ordered_by", strs_js SCHEDULE_ORDER) in
  if negb has_db
  then ret (schedule_window "NULL" [("anchors", JArr []); ordered_by] (JArr []))
  else
    let! rows := exec select_schedule in
    let anchors := JArr (imap (λ i p, scheduled_js (S i) p) rows) in
    ret (schedule_window (match rows with [] => "NULL" | _ => "SCHEDULED_RECONCILIATION" end)
      [("anchors", anchors);
       ("batch_limit", jint (Z.of_nat RECONCILIATION_SCHEDULER_BATCH_LIMIT)); ordered_by] anchors).

(** * Routes *)

(** [url.searchParams.get(name) || undefined], for each name. *)
Definition reconciliationAnchorFromRequest (param : string → option string) : ReconciliationAnchor :=
  let get_param k := default EmptyString (param k) in
  mkAnchor (get_param "session_id") (get_param "continuity_id") (get_param "decision_id")
    (get_param "execution_id") (get_param "proof_id") (get_param "validated_object_hash")
    (get_param "invocation_nonce").

Section Routes.
Context `{!Platform} (evidence_rows : ReconciliationRegistry → nat) (has_db : bool).

Definition reconciliation_unavailable (route : string) : response :=
  json [("status", JStr "NULL"); ("route", JStr route);
    ("reason", JStr "reconciliation_unavailable")].

(** The [try] and [catch] around a route. *)
Definition guarded (route : string) (m : eff response) : eff response :=
  attempt m (ret (reconciliation_unavailable route)).

Definition observed (route : string) (status : jsval) (fields : list (string * jsval)) : response :=
  json ([("status", status); ("route", JStr route); ("reason", JStr "observability_only")] ++ fields).

Definition traversal (param : string → option string) : eff ReconciliationResult :=
  deterministicRecursiveReconciliationTraversal evidence_rows
    (reconciliationAnchorFromRequest param) has_db.

Definition reconcile_schedule_route : eff response :=
  guarded "/reconcile/schedule" (
    let! window := deterministicReconciliationSchedule has_db in
    ret (json (window ++ [("route", JStr "/reconcile/schedule");
      ("reason", JStr "observability_only")]))).

Definition reconcile_report_route (param : string → option string) : eff response :=
  guarded "/reconcile/report" (
    let! r := traversal param in
    let! reported_at := now_iso in
    let! summarized_at := now_iso in
    let summary := reconciliationSummaryObject r summarized_at in
    ret (observed "/reconcile/report" (status_js (rr_result r))
      [("report", deterministicReconciliationReport r reported_at); ("summary", summary);
       ("portable", portableReconciliationEnvelope summary); ("evidence_only", JBool true);
       ("replay_neutral", JBool true); ("read_only", JBool true); ("mutation_capable", JBool false);
       ("authority_created", JBool false); ("execution_started", JBool false);
       ("proof_created", JBool false); ("authority_consumed", JBool false);
       ("canonical_lifecycle_mutated", JBool false)])).

Definition reconcile_drift_route (param : string → option string) : eff response :=
  guarded "/reconcile/drift" (
    let! r := traversal param in
    let! timestamp := now_iso in
    let summary := reconciliationSummaryObject r timestamp in
    ret (observed "/reconcile/drift" (status_js (rr_result r))
      [("reconciliation_id", get summary "reconciliation_id"); ("drift", drifts_js r)])).
End Routes.
