(* ===== verification/FederatedReconciliation.v ===== *)
(** What [src/index.ts] hands to other runtimes and takes from them: the portable
    bundle of a reconciliation and its verification, the revocation evidence and
    its classification, the continuity of a federated lineage, and the
    [/federation/reconcile] routes over them.

    A bundle or an evidence is the list of its texts by name. *)
From Stdlib Require Import ZArith NArith Lia Ascii.
From stdpp Require Import base list strings pretty.
From S2P Require Import Prelude JsValue Sha256 Canonical Effects WorkerValues WorkerTables WorkerSql.
From S2P Require Import WorkerLineage WorkerEvidence WorkerIssuance WorkerProof.
From S2P Require Import ReconciliationTraversal ReconciliationReport.

Local Open Scope eff_scope.

(** * Texts by name *)
Definition fields : Type := list (string * string).

(** [{ k: String(input?.k || ""), … }]. *)
Definition fields_of (names : list string) (input : jsval) : fields :=
  map (λ k, (k, text (get input k))) names.

Definition fields_js (f : fields) : jsval := identifiers_js f.

Definition some_empty (f : fields) : bool := existsb (λ kv, is_empty_str kv.2) f.

(** [/^[a-f0-9]{64}$/]. *)
Definition is_digest (s : string) : bool :=
  Nat.eqb (String.length s) 64 && str_forall is_hex s.

(** An expectation that is there and not met. *)
Definition unmet (expected actual : string) : bool :=
  negb (is_empty_str expected) && unlike actual expected.

(** [isPlainRecord(input?.k) ? input.k : input]. *)
Definition unwrap (k : string) (input : jsval) : jsval :=
  if is_record (get input k) then get input k else input.

(** * Runtimes *)
Inductive RemoteRuntimeClassification :=
  | LOCAL_RUNTIME | FEDERATED_RUNTIME | EXTERNAL_REFERENCE | UNTRUSTED_RUNTIME
  | PORTABLE_EVIDENCE_ONLY.

Definition runtime_str (c : RemoteRuntimeClassification) : string :=
  match c with
  | LOCAL_RUNTIME => "LOCAL_RUNTIME" | FEDERATED_RUNTIME => "FEDERATED_RUNTIME"
  | EXTERNAL_REFERENCE => "EXTERNAL_REFERENCE" | UNTRUSTED_RUNTIME => "UNTRUSTED_RUNTIME"
  | PORTABLE_EVIDENCE_ONLY => "PORTABLE_EVIDENCE_ONLY"
  end.

Definition classifyRemoteRuntime (id local_runtime_id : string) : RemoteRuntimeClassification :=
  if is_empty_str id then UNTRUSTED_RUNTIME
  else if String.eqb id local_runtime_id then LOCAL_RUNTIME
  else if starts_with "spiffe://" id || starts_with "mindshift-federated://" id
  then FEDERATED_RUNTIME
  else if starts_with "https://" id || starts_with "urn:" id then EXTERNAL_REFERENCE
  else PORTABLE_EVIDENCE_ONLY.

(** * Identifiers of a reconciliation *)

(** The entry of a registry, the last if there are several. *)
Definition entry_for (r : ReconciliationResult) (g : ReconciliationRegistry) : option trace_entry :=
  last (List.filter (λ e, bool_decide (te_registry e = g)) (rr_trace r)).

Definition populated (e : trace_entry) : bool :=
  match te_identifiers e with Some (_ :: _) => true | _ => false end.

(** [canonicalPersistedIdentifierMap(result).get(g) || {}]. *)
Definition persisted_identifiers (r : ReconciliationResult) (g : ReconciliationRegistry) : fields :=
  match last (List.filter (λ e, bool_decide (te_registry e = g) && populated e) (rr_trace r)) with
  | Some e => entry_identifiers e
  | None => []
  end.

Fixpoint first_non_empty (l : list string) : string :=
  match l with
  | [] => EmptyString
  | x :: l' => if is_empty_str x then first_non_empty l' else x
  end.

Definition resolveCanonicalPortableIdentifiers (r : ReconciliationResult) :
    option ReconciliationAnchor :=
  let its g k := identifier k (persisted_identifiers r g) in
  let decision := first_non_empty [its authority_registry "decision_id";
    its validation_registry "decision_id"; its execution_registry "decision_id";
    its proof_registry "decision_id"; its aeo_registry "decision_id"] in
  let object := first_non_empty [its proof_registry "validated_object_hash";
    its validation_registry "validated_object_hash"; its aeo_registry "validated_object_hash";
    its execution_registry "validated_object_hash"] in
  let continuity := first_non_empty [its continuity_registry "continuity_id";
    its authority_registry "continuity_id"; its validation_registry "continuity_id";
    its execution_registry "continuity_id"; its proof_registry "continuity_id"] in
  if is_empty_str decision || is_empty_str object || is_empty_str continuity then None
  else Some (mkAnchor
    (first_non_empty [its authority_registry "session_id"; its validation_registry "session_id";
       its execution_registry "session_id"; its proof_registry "session_id";
       its continuity_registry "session_id"])
    continuity decision
    (first_non_empty [its execution_registry "execution_id"; its proof_registry "execution_id"])
    (its proof_registry "proof_id") object
    (first_non_empty [its invocation_registry "invocation_nonce";
       its validation_registry "invocation_nonce"; its execution_registry "invocation_nonce"])).

Definition canonicalIdentifiersForRegistry (r : ReconciliationResult) (g : ReconciliationRegistry) :
    fields :=
  match entry_for r g with Some e => entry_identifiers e | None => [] end.

Definition resolvedPortableIdentifiersFromCanonicalRows (r : ReconciliationResult) : option fields :=
  let its g k := identifier k (canonicalIdentifiersForRegistry r g) in
  let found := [("decision_id", its authority_registry "decision_id");
    ("validated_object_hash", first_non_empty [its aeo_registry "validated_object_hash";
       its validation_registry "validated_object_hash"]);
    ("proof_id", its proof_registry "proof_id"); ("execution_id", its execution_registry "execution_id");
    ("invocation_nonce", its invocation_registry "invocation_nonce");
    ("continuity_id", its continuity_registry "continuity_id")] in
  if some_empty found then None else Some found.

(** * The portable bundle *)
Definition BUNDLE_FIELDS : list string :=
  ["runtime_id"; "reconciliation_id"; "decision_id"; "validated_object_hash"; "proof_id";
   "execution_id"; "invocation_nonce"; "continuity_id"; "authority_lineage_hash";
   "proof_lineage_hash"; "replay_lineage_hash"; "preo_lineage_hash"; "attestation_hash";
   "reconciliation_merkle_root"; "federation_boundary"; "emitted_at"].

Definition canonicalPortableLegitimacyBundle (input : jsval) : option fields :=
  let bundle := fields_of BUNDLE_FIELDS input in
  if some_empty bundle then None
  else if unlike (identifier "federation_boundary" bundle) AUTHORITY_BOUNDARY then None
  else Some bundle.

Definition entry_digest (r : ReconciliationResult) (g : ReconciliationRegistry) : string :=
  hashCanonical match entry_for r g with Some e => entry_js e | None => JNull end.

Definition portableLegitimacyBundleFromResult (r : ReconciliationResult)
    (emitted_at runtime_id : string) : option fields :=
  let root := merkle_root r in
  match resolveCanonicalPortableIdentifiers r with
  | None => None
  | Some _ =>
      match resolvedPortableIdentifiersFromCanonicalRows r with
      | None => None
      | Some ids =>
          canonicalPortableLegitimacyBundle (fields_js (
            [("runtime_id", runtime_id);
             ("reconciliation_id", deterministicReconciliationId "federated_bundle"
                (JObj [("runtime_id", JStr runtime_id); ("root", JStr root);
                   ("anchor", JStr (rr_anchor r))]))]
            ++ ids ++
            [("authority_lineage_hash", entry_digest r authority_registry);
             ("proof_lineage_hash", entry_digest r proof_registry);
             ("replay_lineage_hash", entry_digest r invocation_registry);
             ("preo_lineage_hash", entry_digest r preo_registry);
             ("attestation_hash", hashCanonical (JObj [("attestation", JStr "observed");
                ("root", JStr root)]));
             ("reconciliation_merkle_root", root); ("federation_boundary", AUTHORITY_BOUNDARY);
             ("emitted_at", emitted_at)]))
      end
  end.

Definition federatedIdentifierResolutionDrift (r : ReconciliationResult) : ReconciliationDrift :=
  mkDrift (reconciliationDriftId federated_identifier_resolution_drift proof_registry (rr_anchor r)
      (rr_trace r))
    federated_identifier_resolution_drift (rr_anchor r) proof_registry HIGH (rr_trace r).

Definition federatedDriftClassificationsAfterPortableBundleResolution (r : ReconciliationResult)
    (bundle : option fields) : list ReconciliationDrift :=
  match bundle with
  | Some _ => rr_drift r
  | None => rr_drift r ++ [federatedIdentifierResolutionDrift r]
  end.

Definition reconciliationStatusAfterPortableBundleResolution (r : ReconciliationResult)
    (bundle : option fields) : ReconciliationStatus :=
  match bundle with Some _ => rr_result r | None => NULL_STATUS end.

Definition FEDERATED_RECONCILIATION_PAYLOAD_TYPE : string :=
  "application/vnd.mindshift.federated-reconciliation.v1+json".

Section Verification.
Context `{!Platform}.

(** The first signature of the bundle's runtime decides. An absent secret is the
    empty text. *)
Definition verifyFederatedProofEnvelope (envelope : jsval) (bundle : fields) (hmac_secret : string) :
    bool :=
  if negb (is_record envelope) then false
  else if unlike (text (js_or (get envelope "payloadType") (get envelope "payload_type")))
            FEDERATED_RECONCILIATION_PAYLOAD_TYPE then false
  else
    match atob (text (get envelope "payload")) with
    | None => false
    | Some payloadBytes =>
        if unlike (text_decode payloadBytes) (canonicalize (fields_js bundle)) then false
        else if is_empty_str hmac_secret then false
        else
          let signatures := match get envelope "signatures" with JArr l => l | _ => [] end in
          let provided := default JUndef (List.find (λ g, is_record g
            && String.eqb (text (get g "keyid")) (identifier "runtime_id" bundle)) signatures) in
          match atob (text (js_or (get provided "sig") (get provided "signature"))) with
          | None => false
          | Some signature => constantTimeEqual signature (hmacSha256 hmac_secret
              (dssePreAuthenticationEncoding FEDERATED_RECONCILIATION_PAYLOAD_TYPE payloadBytes))
          end
    end.

(** The drift class of a refusal, or the bundle that is observed. *)
Definition verify_bundle (input : jsval) (expected : ReconciliationAnchor)
    (local_runtime_id hmac_secret : string) : fields + string :=
  let payload := unwrap "payload" input in
  match canonicalPortableLegitimacyBundle payload with
  | None => inr "federated_bundle_drift"
  | Some bundle =>
      let its k := identifier k bundle in
      let refused :=
        [(is_empty_str (its "runtime_id"), "federated_runtime_divergence_drift");
         (unlike (canonicalize payload) (canonicalize (fields_js bundle)), "federated_bundle_drift");
         (unmet (ra_decision expected) (its "decision_id"), "federated_reconciliation_drift");
         (unmet (ra_object_hash expected) (its "validated_object_hash"), "federated_exact_object_drift");
         (unmet (ra_nonce expected) (its "invocation_nonce"), "federated_replay_drift");
         (unmet (ra_continuity expected) (its "continuity_id"), "federated_continuity_drift");
         (unmet (ra_execution expected) (its "execution_id"), "federated_reconciliation_drift");
         (unmet (ra_proof expected) (its "proof_id"), "federated_attestation_drift");
         (negb (is_digest (its "reconciliation_merkle_root")), "federated_merkle_drift");
         (negb (is_digest (its "attestation_hash")), "federated_attestation_drift");
         (negb (is_digest (its "preo_lineage_hash")), "federated_preo_drift");
         (is_record (get input "dsse_envelope")
            && negb (verifyFederatedProofEnvelope (get input "dsse_envelope") bundle hmac_secret),
          "federated_attestation_drift")] in
      match List.find fst refused with
      | Some (_, drift) => inr drift
      | None => inl bundle
      end
  end.

Definition verification_js (classification : RemoteRuntimeClassification) (o : fields + string) :
    jsval :=
  let status := match o with inl _ => "FEDERATED_RECONCILIATION_OBSERVED" | inr _ => "NULL" end in
  JObj ([("status", JStr status); ("result", JStr status)]
    ++ match o with inr drift => [("drift_class", JStr drift)] | inl _ => [] end
    ++ [("runtime_classification", JStr (runtime_str classification));
        ("trust_semantics", JStr "remote_evidence_can_narrow_acceptance_only");
        ("local_validation_required", JBool true); ("remote_authority_inherited", JBool false);
        ("remote_execution_legitimacy", JBool false); ("replay_state_consumed", JBool false)]
    ++ match o with
       | inl bundle => [("merkle_root", JStr (identifier "reconciliation_merkle_root" bundle));
           ("bundle_hash", JStr (hashCanonical (fields_js bundle)))]
       | inr _ => []
       end).

Definition verifyFederatedLegitimacyBundle (input : jsval) (expected : ReconciliationAnchor)
    (local_runtime_id hmac_secret : string) : jsval :=
  let runtime_id :=
    match canonicalPortableLegitimacyBundle (unwrap "payload" input) with
    | Some bundle => identifier "runtime_id" bundle | None => EmptyString end in
  verification_js (classifyRemoteRuntime runtime_id local_runtime_id)
    (verify_bundle input expected local_runtime_id hmac_secret).
End Verification.

Definition reconciliationWitnessEnvelope (bundle : option fields) (checkpoint : ReconciliationCheckpoint)
    (classification : RemoteRuntimeClassification) : jsval :=
  let bundle_hash := hashCanonical (fields_js (default [] bundle)) in
  let checkpoint_hash := hashCanonical (checkpoint_js checkpoint) in
  JObj [("witness_id", JStr (hashCanonical (JObj [("bundle_hash", JStr bundle_hash);
      ("checkpoint_hash", JStr checkpoint_hash);
      ("classification", JStr (runtime_str classification))])));
    ("runtime_classification", JStr (runtime_str classification));
    ("authority_boundary", JStr AUTHORITY_BOUNDARY); ("local_validation_required", JBool true);
    ("replay_neutral", JBool true); ("mutation_capable", JBool false);
    ("bundle_hash", JStr bundle_hash); ("checkpoint_hash", JStr checkpoint_hash)].

(** * Revocation evidence *)
Definition REVOCATION_FIELDS : list string :=
  ["runtime_id"; "remote_runtime_id"; "continuity_id"; "decision_id"; "validated_object_hash";
   "revocation_class"; "revocation_reason"; "lineage_hash"; "reconciliation_merkle_root";
   "attestation_hash"; "observed_at"].

Definition canonicalFederatedRevocationEvidence (input : jsval) : option fields :=
  let evidence := fields_of REVOCATION_FIELDS input in
  let its k := identifier k evidence in
  if some_empty evidence then None
  else if String.eqb (its "runtime_id") (its "remote_runtime_id") then None
  else if negb (forallb (λ k, is_digest (its k))
                  ["validated_object_hash"; "lineage_hash"; "reconciliation_merkle_root";
                   "attestation_hash"]) then None
  else Some evidence.

Definition deterministicFederatedRevocationEvidenceHash (evidence : fields) : string :=
  hashCanonical (JObj [("evidence_type", JStr "FederatedRevocationEvidence");
    ("deterministic_serialization", JBool true); ("exact_object_bound", JBool true);
    ("canonical_hash_locked", JBool true); ("evidence", fields_js evidence)]).

Definition federatedRevocationEnvelopeCore (evidence : fields) (evidence_hash : string) :
    list (string * jsval) :=
  [("evidence_type", JStr "FederatedRevocationEvidence"); ("evidence_hash", JStr evidence_hash);
   ("evidence", fields_js evidence); ("replay_neutral", JBool true); ("read_only", JBool true);
   ("mutation_capable", JBool false); ("federation_boundary", JStr AUTHORITY_BOUNDARY);
   ("deterministic_serialization", JBool true); ("exact_object_bound", JBool true);
   ("canonical_hash_locked", JBool true); ("remote_authority_inherited", JBool false);
   ("remote_execution_legitimacy", JBool false); ("replay_state_consumed", JBool false)].

Definition deterministicFederatedRevocationEnvelopeHash (evidence : fields) (evidence_hash : string) :
    string :=
  hashCanonical (JObj (federatedRevocationEnvelopeCore evidence evidence_hash)).

Definition replayNeutralFederatedRevocationEvidenceEnvelope (evidence : fields) : jsval :=
  let evidence_hash := deterministicFederatedRevocationEvidenceHash evidence in
  JObj (federatedRevocationEnvelopeCore evidence evidence_hash
    ++ [("envelope_hash", JStr (deterministicFederatedRevocationEnvelopeHash evidence evidence_hash))]).

(** [/^\d{4}-\d{2}-\d{2}T/]. *)
Definition is_decimal (a : ascii) : bool := ((48 <=? code a) && (code a <=? 57))%N.

Fixpoint shaped (shape s : string) : bool :=
  match shape, s with
  | EmptyString, _ => true
  | String p shape', String a s' =>
      (if Ascii.eqb p "0" then is_decimal a else Ascii.eqb p a) && shaped shape' s'
  | String _ _, EmptyString => false
  end.

Definition dated (s : string) : bool := shaped "0000-00-00T" s.

Definition is_true (v : jsval) : bool := bool_decide (v = JBool true).

(** The drift class and the fate of a refusal, or the evidence that is observed. *)
Definition classifyFederatedRevocationEvidence (input : jsval) (expected : ReconciliationAnchor)
    (checkpoint : option ReconciliationCheckpoint) (local_runtime_id : string) :
    fields + (string * string) :=
  let wrapped := is_record input && truthy (get input "evidence") in
  let claims := is_record input
    && existsb (λ k, is_true (get input k)) ["remote_authority_inherited";
         "remote_execution_legitimacy"; "local_revocation_authority"; "mutation_capable"] in
  if claims
  then inr ("federated_revocation_projection_drift", "federated_remote_revocation_authority_inference")
  else
    match canonicalFederatedRevocationEvidence (unwrap "evidence" input) with
    | None => inr ("federated_revocation_divergence_drift", "federated_revocation_identity_mismatch")
    | Some evidence =>
        let its k := identifier k evidence in
        let hash := deterministicFederatedRevocationEvidenceHash evidence in
        let at_checkpoint f := match checkpoint with Some k => f (ck_merkle_root k) | None => false end in
        let refused :=
          [(wrapped && negb (is_true (get input "exact_object_bound")
                             && is_true (get input "canonical_hash_locked")),
            ("federated_revocation_exact_object_drift", "federated_revocation_exact_object_flag_drift"));
           (wrapped && unlike (text (get input "evidence_hash")) hash,
            ("federated_revocation_exact_object_drift", "federated_revocation_envelope_hash_mismatch"));
           (wrapped && unlike (text (get input "envelope_hash"))
                         (deterministicFederatedRevocationEnvelopeHash evidence hash),
            ("federated_revocation_exact_object_drift", "federated_revocation_stale_envelope_replay"));
           (unlike (its "runtime_id") local_runtime_id,
            ("federated_revocation_divergence_drift", "federated_revocation_identity_mismatch"));
           (is_empty_str (its "lineage_hash"),
            ("federated_revocation_divergence_drift", "federated_revocation_without_lineage"));
           (unmet (ra_decision expected) (its "decision_id"),
            ("federated_revocation_replay_drift", "federated_revocation_replay_collision"));
           (unmet (ra_object_hash expected) (its "validated_object_hash"),
            ("federated_revocation_anchor_drift", "federated_revocation_anchor_mismatch"));
           (at_checkpoint (String.eqb (its "validated_object_hash")),
            ("federated_revocation_anchor_drift",
             "federated_revocation_reconciliation_hash_as_validated_hash"));
           (unmet (ra_continuity expected) (its "continuity_id"),
            ("federated_revocation_divergence_drift", "federated_revocation_identity_mismatch"));
           (at_checkpoint (unlike (its "reconciliation_merkle_root")),
            ("federated_checkpoint_revocation_drift", "federated_checkpoint_revocation_divergence"));
           (String.eqb (its "revocation_class") "EXPIRED" && negb (dated (its "observed_at")),
            ("federated_expiration_visibility_drift",
             "federated_expired_lineage_visibility_corruption"))] in
        match List.find fst refused with
        | Some (_, drift) => inr drift
        | None => inl evidence
        end
    end.

Definition REMOTE_OBSERVED_RUNTIME : string := "mindshift-federated://observed-runtime".

Definition federatedRevocationEvidenceFromResult (r : ReconciliationResult)
    (state : ReconciliationCheckpoint) (observed_at remote_runtime_id : string) : option fields :=
  match resolveCanonicalPortableIdentifiers r with
  | None => None
  | Some ids =>
      let reason := default "observed_remote_revocation_state"
        (List.find (includes "revocation") (drift_classes r)) in
      canonicalFederatedRevocationEvidence (fields_js [("runtime_id", LOCAL_FEDERATION_RUNTIME_ID);
        ("remote_runtime_id", remote_runtime_id); ("continuity_id", ra_continuity ids);
        ("decision_id", ra_decision ids);
        ("revocation_class",
           if existsb (String.eqb "revocation_propagation_drift") (drift_classes r)
           then "REVOKED" else "OBSERVED");
        ("revocation_reason", reason);
        ("lineage_hash", hashCanonical (JObj [("canonical_registry_ordering", order_js);
           ("deterministic_traversal_trace", trace_js (rr_trace r))]));
        ("reconciliation_merkle_root", ck_merkle_root state);
        ("validated_object_hash", ra_object_hash ids);
        ("attestation_hash", hashCanonical (JObj [
           ("attestation", JStr "federated_revocation_observability");
           ("state_id", JStr (ck_id state))])); ("observed_at", observed_at)])
  end.

(** * Lineage across runtimes *)
Record FederatedLineageEvidence := mkLineageEvidence {
  fl_runtime : string;
  fl_domain : string;
  fl_lineage_hash : string;
  fl_decision : string;
  fl_object_hash : string;
  fl_nonce : string;
  fl_parent_lineage_hash : string
}.

Definition same_subject (a b : FederatedLineageEvidence) : bool :=
  String.eqb (fl_decision a) (fl_decision b) && String.eqb (fl_object_hash a) (fl_object_hash b)
  && String.eqb (fl_nonce a) (fl_nonce b).

(** The loop over the rest: the drift, with the runtime it is found at, or the
    last of them. *)
Fixpoint lineage_from (previous : FederatedLineageEvidence) (rest : list FederatedLineageEvidence) :
    FederatedLineageEvidence + (string * string) :=
  match rest with
  | [] => inl previous
  | item :: rest' =>
      if String.eqb (fl_domain item) "local_runtime"
         || unlike (fl_parent_lineage_hash item) (fl_lineage_hash previous)
      then inr ("federated_lineage_drift", fl_runtime item)
      else if negb (same_subject item previous)
      then inr ("federated_replay_discontinuity_drift", fl_runtime item)
      else lineage_from item rest'
  end.

Definition verifyFederatedLineageContinuity (evidence : list FederatedLineageEvidence)
    (local_runtime_id : string) : FederatedLineageEvidence + (string * string) :=
  if is_empty_str local_runtime_id || Nat.ltb RECONCILIATION_MAX_RECURSION_DEPTH (length evidence)
  then inr ("federated_lineage_drift", EmptyString)
  else
    match evidence with
    | [] => inr ("federated_lineage_drift", EmptyString)
    | first :: rest =>
        if unlike (fl_domain first) "local_runtime" || unlike (fl_runtime first) local_runtime_id
        then inr ("foreign_ancestry_mismatch_drift", fl_runtime first)
        else lineage_from first rest
    end.

(** * Routes *)
Section Routes.
Context `{!Platform} (evidence_rows : ReconciliationRegistry → nat) (has_db : bool) (secret : string).

(** [JSON.parse(decode(base64ToBytes(x) || "{}"))]. *)
Definition supplied (x : string) : eff jsval :=
  match json_parse (text_decode (default "{}" (atob x))) with Some v => ret v | None => throw end.

Definition bundle_js (bundle : option fields) : jsval :=
  match bundle with Some f => fields_js f | None => JNull end.

Definition bundle_runtime (bundle : option fields) : string :=
  match bundle with
  | Some f => identifier "runtime_id" f
  | None => LOCAL_FEDERATION_RUNTIME_ID
  end.

Definition federation_reconcile_route (param : string → option string) : eff response :=
  guarded "/federation/reconcile" (
    let! r := traversal evidence_rows has_db param in
    let! emitted_at := now_iso in
    let checkpoint := deterministicReconciliationCheckpoint r emitted_at LOCAL_FEDERATION_RUNTIME_ID in
    let bundle := portableLegitimacyBundleFromResult r emitted_at LOCAL_FEDERATION_RUNTIME_ID in
    let! verification :=
      match param "bundle" with
      | Some x => if is_empty_str x then ret JNull
          else let! input := supplied x in
               ret (verifyFederatedLegitimacyBundle input (reconciliationAnchorFromRequest param)
                 LOCAL_FEDERATION_RUNTIME_ID secret)
      | None => ret JNull
      end in
    let drift := federatedDriftClassificationsAfterPortableBundleResolution r bundle in
    ret (observed "/federation/reconcile"
      (status_js (reconciliationStatusAfterPortableBundleResolution r bundle))
      [("authority_boundary", JStr AUTHORITY_BOUNDARY); ("local_validation_required", JBool true);
       ("remote_execution_legitimacy", JBool false); ("replay_neutral", JBool true);
       ("bundle", bundle_js bundle); ("checkpoint", checkpoint_js checkpoint);
       ("witness", reconciliationWitnessEnvelope bundle checkpoint
          (classifyRemoteRuntime (bundle_runtime bundle) LOCAL_FEDERATION_RUNTIME_ID));
       ("verification", verification); ("drift", JArr (map drift_js drift))])).

Definition federation_report_route (param : string → option string) : eff response :=
  guarded "/federation/reconcile/report" (
    let! r := traversal evidence_rows has_db param in
    let! emitted_at := now_iso in
    let bundle := portableLegitimacyBundleFromResult r emitted_at LOCAL_FEDERATION_RUNTIME_ID in
    let drift := federatedDriftClassificationsAfterPortableBundleResolution r bundle in
    ret (observed "/federation/reconcile/report"
      (status_js (reconciliationStatusAfterPortableBundleResolution r bundle))
      [("report", deterministicReconciliationReport r emitted_at);
       ("summary", reconciliationSummaryObject r emitted_at);
       ("deterministic_snapshot", deterministicReconciliationSnapshot r);
       ("portable_legitimacy_bundle", bundle_js bundle); ("drift", JArr (map drift_js drift));
       ("federation_boundary", JStr AUTHORITY_BOUNDARY); ("evidence_only", JBool true);
       ("replay_neutral", JBool true); ("read_only", JBool true); ("mutation_capable", JBool false);
       ("authority_created", JBool false); ("execution_started", JBool false);
       ("proof_created", JBool false); ("authority_consumed", JBool false);
       ("canonical_lifecycle_mutated", JBool false)])).

Definition federated_drift_taxonomy : list string :=
  ["federated_checkpoint_drift"; "federated_merkle_drift"; "federated_bundle_drift";
   "federated_attestation_drift"; "federated_reconciliation_drift";
   "federated_runtime_divergence_drift"; "federated_replay_drift"; "federated_preo_drift";
   "federated_continuity_drift"; "federated_exact_object_drift";
   "federated_identifier_resolution_drift"].

Definition federation_drift_route (param : string → option string) : eff response :=
  guarded "/federation/reconcile/drift" (
    let! r := traversal evidence_rows has_db param in
    ret (observed "/federation/reconcile/drift" (status_js (rr_result r))
      [("drift", drifts_js r); ("federated_drift_taxonomy", strs_js federated_drift_taxonomy);
       ("repairs", JBool false); ("legitimacy_inference", JBool false)])).

Definition federation_checkpoint_route (param : string → option string) : eff response :=
  guarded "/federation/reconcile/checkpoint" (
    let! r := traversal evidence_rows has_db param in
    let! created_at := now_iso in
    ret (observed "/federation/reconcile/checkpoint" (status_js (rr_result r))
      [("append_only", JBool true); ("rollback_overwrite", JBool false);
       ("replay_neutral", JBool true); ("checkpoint", checkpoint_js
          (deterministicReconciliationCheckpoint r created_at LOCAL_FEDERATION_RUNTIME_ID))])).

(** The routes that answer from a traversal; none of them asks for the key. *)
Inductive reading_route :=
  | R_reconcile_report | R_reconcile_drift | R_federation | R_federation_report
  | R_federation_drift | R_federation_checkpoint.

Definition reconcile_handler (rt : reading_route) (param : string → option string) : eff response :=
  match rt with
  | R_reconcile_report => reconcile_report_route evidence_rows has_db param
  | R_reconcile_drift => reconcile_drift_route evidence_rows has_db param
  | R_federation => federation_reconcile_route param
  | R_federation_report => federation_report_route param
  | R_federation_drift => federation_drift_route param
  | R_federation_checkpoint => federation_checkpoint_route param
  end.

Definition reconcile_serve (rt : reading_route) (param : string → option string) : prog sql response :=
  bind (reconcile_handler rt param) (λ o,
    Ret (match o with Go r => r | Answer r => r | Throws => runtime_exception end)).
End Routes.
