(* ===== verification/TraversalTheorems.v ===== *)
(** What the reconciliation traversal answers, and why it never finds a lineage
    of the worker valid. *)
From Stdlib Require Import ZArith NArith Lia Ascii.
From stdpp Require Import base list strings pretty.
From S2P Require Import Prelude JsValue Sha256 Canonical Json Effects WorkerValues WorkerTables.
From S2P Require Import WorkerSql WorkerLineage WorkerEvidence WorkerIssuance WorkerAuthority.
From S2P Require Import WorkerExecution WorkerProof WorkerInvariant WorkerLawful WorkerCalm.
From S2P Require Import WorkerLineageProof WorkerSafety WorkerRun WorkerTheorems.
From S2P Require Import ReconciliationTraversal ReconciliationReport FederatedReconciliation.

Local Open Scope eff_scope.

(** * Statements that only read *)
Definition reads_only (X : Type) (e : sql X) : Prop := ∀ s, (e s).1 = s.

Definition no_answer {A} (o : flow A) : Prop := match o with Answer _ => False | _ => True end.

Definition reading {A} (m : eff A) : Prop := tree reads_only no_answer m.

Definition outcome {A} (m : eff A) (s : world) : flow A := (run perform m s).2.

Create HintDb reading.

Lemma reading_ret {A} (a : A) : reading (ret a).
Proof. done. Qed.

Lemma reading_throw {A} : reading (@throw A).
Proof. done. Qed.

Lemma reading_select {X} (f : world → X) : reading (exec (select f)).
Proof. by split. Qed.

Lemma reading_need_object v : reading (need_object v).
Proof. unfold need_object. by destruct (nullish v). Qed.

Lemma reading_ebind {A B} (m : eff A) (f : A → eff B) :
  reading m → (∀ a, reading (f a)) → reading (ebind m f).
Proof.
  intros Hm Hf. eapply tree_bind; [exact Hm|]. intros [a|r|] Ho; [apply Hf|exact Ho|exact I].
Qed.

#[export] Hint Resolve reading_ret reading_throw reading_select reading_need_object : reading.

Ltac reading_step := match goal with
  | |- reading (ebind _ _) => apply reading_ebind; [|intros ?]
  | |- reading (let _ := _ in _) => cbv zeta
  | |- reading (match ?x with _ => _ end) => destruct x
  | |- reading _ => solve [auto 3 with reading]
  end.
Ltac reading := repeat (reading_step; cbv beta).

Lemma reading_world {A} (m : eff A) s : reading m → (run perform m s).1 = s.
Proof. apply (run_read perform reads_only no_answer). intros X e He. apply He. Qed.

Lemma reading_answer {A} (m : eff A) s r : reading m → outcome m s ≠ Answer r.
Proof. intros Hm E. pose proof (run_tree perform reads_only no_answer m s Hm). unfold outcome in E. by rewrite E in H. Qed.

Lemma outcome_ebind {A B} (m : eff A) (f : A → eff B) s :
  reading m → outcome (ebind m f) s
  = match outcome m s with Go a => outcome (f a) s | Answer r => Answer r | Throws => Throws end.
Proof.
  intros Hm. unfold outcome, ebind. rewrite run_bind, (reading_world m s Hm).
  by destruct (run perform m s).2.
Qed.

Section Traversal.
Context {platform : Platform} (evidence_rows : ReconciliationRegistry → nat).
Local Abbreviation lookup := (lookup_rows evidence_rows).
Local Abbreviation traverse := (traverse evidence_rows).

Lemma reading_ancestry n visited c r : reading (read_only_ancestry n visited c r).
Proof.
  revert visited c. induction n as [|n IH]; intros visited c; cbn [read_only_ancestry]; [done|].
  unfold now_ms, select_hash_twins, select_continuity. reading.
Qed.

Lemma reading_verify row c : reading (verifyReconciliationRegistryRow row c).
Proof.
  destruct row; simpl; unfold now_ms, verifyContinuityAncestryReadOnly, proof_texts_drift; reading.
  apply reading_ancestry.
Qed.
Hint Resolve reading_verify : reading.

Lemma reading_traverse a order c t : reading (traverse a order c t).
Proof.
  revert c t. induction order as [|r order IH]; intros c t;
    cbn [ReconciliationTraversal.traverse]; unfold readReconciliationRows; reading.
Qed.

Lemma reading_traversal a db :
  reading (deterministicRecursiveReconciliationTraversal evidence_rows a db).
Proof. destruct db; [apply reading_traverse|done]. Qed.

(** * The shape of an answer *)

(** Every entry but the last found one row. *)
Definition single (t : list trace_entry) : Prop := Forall (λ e, te_row_count e = 1%nat) t.

(** Stopped at the last entry, by it. *)
Definition stopped (res : ReconciliationResult) : Prop :=
  ∃ d t e, rr_drift res = [d] ∧ rr_trace res = t ++ [e] ∧ single t
    ∧ rd_registry d = te_registry e ∧ rd_severity d = HIGH ∧ rd_trace d = rr_trace res
    ∧ match te_row_count e with
      | 0 => rd_class d = orphan_legitimacy_object_drift
      | 1 => True
      | _ => rd_class d = traversal_instability_drift
      end%nat.

Definition well_shaped (a : ReconciliationAnchor) (res : ReconciliationResult) : Prop :=
  rr_anchor res = reconciliationAnchorKey a ∧ rr_depth res = length (rr_trace res)
  ∧ map te_registry (rr_trace res) = take (rr_depth res) CANONICAL_RECONCILIATION_REGISTRY_ORDER
  ∧ map te_depth (rr_trace res) = seq 1 (rr_depth res)
  ∧ match rr_status res with
    | VALID_RECONCILIATION => rr_result res = VALID_RECONCILIATION ∧ rr_drift res = []
        ∧ rr_depth res = 13%nat ∧ single (rr_trace res)
    | INVALID_RECONCILIATION => rr_result res = NULL_STATUS ∧ stopped res
    | NULL_STATUS => rr_result res = NULL_STATUS ∧ rr_drift res = [] ∧ rr_trace res = []
    end.

(** The entries made so far. *)
Definition traced (done : list ReconciliationRegistry) (t : list trace_entry) : Prop :=
  map te_registry t = done ∧ map te_depth t = seq 1 (length t) ∧ single t.

Lemma traced_snoc done t r key rows :
  map te_registry t = done → map te_depth t = seq 1 (length t) →
  let t' := t ++ [new_entry r key rows t] in
  map te_registry t' = done ++ [r] ∧ map te_depth t' = seq 1 (length t').
Proof.
  intros E1 E2. simpl. rewrite !map_app, length_app, E1, E2. simpl.
  by rewrite Nat.add_1_r, seq_S.
Qed.

Lemma traverse_shape a done order c t s :
  done ++ order = CANONICAL_RECONCILIATION_REGISTRY_ORDER → traced done t →
  match outcome (traverse a order c t) s with
  | Go res => well_shaped a res ∧ rr_status res ≠ NULL_STATUS
  | Answer _ => False | Throws => True end.
Proof.
  revert done c t. induction order as [|r order IH]; intros done c t Ho (E1 & E2 & Hs).
  { rewrite app_nil_r in Ho. simpl. unfold well_shaped; simpl.
    assert (length t = 13%nat) as El by (by rewrite <- (length_map te_registry), E1, Ho).
    split; [|done]. rewrite El in *. split_and!; auto. by rewrite E1, Ho. }
  assert (length t < 13)%nat as El.
  { rewrite <- (length_map te_registry), E1. change 13%nat with
      (length CANONICAL_RECONCILIATION_REGISTRY_ORDER). rewrite <- Ho, length_app. simpl. lia. }
  cbn [ReconciliationTraversal.traverse].
  destruct (Nat.leb_spec RECONCILIATION_MAX_RECURSION_DEPTH (length t)) as [Hb|_];
    [unfold RECONCILIATION_MAX_RECURSION_DEPTH, SYSTEM_MAX_CONTINUITY_DEPTH in Hb; lia|].
  rewrite outcome_ebind by apply reading_select. simpl. cbv zeta.
  generalize (lookup a c r s) as rows. intros rows. set (key := lookup_key a c r).
  destruct (traced_snoc done t r key rows E1 E2) as [F1 F2]. 
  assert (take (length (t ++ [new_entry r key rows t])) CANONICAL_RECONCILIATION_REGISTRY_ORDER
    = done ++ [r]) as F3.
  { assert (length (t ++ [new_entry r key rows t]) = length (done ++ [r])) as ->
      by (by rewrite <- F1, length_map).
    by rewrite <- Ho, (cons_middle r done order), app_assoc, take_app_length. }
  assert (∀ d, (match length rows with 0 => d = orphan_legitimacy_object_drift | 1 => True
     | _ => d = traversal_instability_drift end)%nat →
    well_shaped a (reconciliationInvalid d r a (t ++ [new_entry r key rows t]) HIGH)) as Hinv.
  { intros d Hd. unfold well_shaped; simpl. split_and!; auto; [congruence|].
    eexists _, t, (new_entry r key rows t). simpl. split_and!; eauto. }
  destruct rows as [|row [|row2 rows]]; simpl; [split; [by apply Hinv|done]| |split; [by apply Hinv|done]].
  rewrite outcome_ebind by apply reading_verify.
  destruct (outcome (verifyReconciliationRegistryRow row c) s) as [[d|]|ans|] eqn:Ev; simpl.
  - split; [by apply Hinv|done].
  - apply (IH (done ++ [r])); [by rewrite <- app_assoc|]. split_and!; [exact F1|exact F2|].
    apply Forall_app. split; [exact Hs|]. by repeat constructor.
  - by apply (reading_answer _ s ans (reading_verify row c)).
  - done.
Qed.

(** Every answer has its shape. *)
Lemma traversal_shape a db s :
  match outcome (deterministicRecursiveReconciliationTraversal evidence_rows a db) s with
  | Go res => well_shaped a res ∧ (rr_status res = NULL_STATUS ↔ db = false)
  | Answer _ => False
  | Throws => True
  end.
Proof.
  destruct db; [|simpl; unfold well_shaped; simpl; by split_and!].
  pose proof (traverse_shape a [] CANONICAL_RECONCILIATION_REGISTRY_ORDER empty_context [] s
    eq_refl) as H.
  cbn [deterministicRecursiveReconciliationTraversal].
  destruct (outcome _ s) as [res|r|]; [|exact (H ltac:(by split_and!; [| |constructor]))|done].
  destruct H as [H1 H2]; [by split_and!; [| |constructor]|]. split; [exact H1|]. by split.
Qed.
End Traversal.

(** * A lineage of the worker is never valid *)
Definition row_ok (row : registry_row) : Prop :=
  match row with InValidation v => origin_ok v | InExecution e => run_ok e | _ => True end.

Definition context_ok (c : traversal_context) : Prop :=
  match cx_validation c with Some v => origin_ok v | None => True end.

Definition in_execution (row : registry_row) : Prop :=
  match row with InExecution _ => True | _ => False end.

(** A digest is no origin: an origin's text opens with a brace. *)
Lemma digest_not_origin v stage d h p : hashCanonical v ≠ canonicalLineageHash stage d h p.
Proof.
  Transparent hashCanonical. unfold hashCanonical. Opaque hashCanonical. intros E.
  destruct (sha256Hex_shape (canonicalize v)) as [_ H]. rewrite E in H. simpl in H. discriminate H.
Qed.

Lemma unlike_true x y : x ≠ y → unlike x y = true.
Proof. intros H. unfold unlike. by rewrite (proj2 (String.eqb_neq x y) H). Qed.

Lemma unlike_false x y : unlike x y = false → x = y.
Proof. unfold unlike. by intros H%negb_false_iff%String.eqb_eq. Qed.

Lemma execution_always_drifts e v : run_ok e → origin_ok v → execution_drift e v ≠ None.
Proof.
  intros (_ & (x & Hx) & _) Ho. unfold execution_drift, origin_ok in *. simpl.
  rewrite (unlike_true (ex_parent_hash e) (va_origin_hash v)).
  - by repeat match goal with |- context [if ?b then _ else _] => destruct b end.
  - rewrite Hx, Ho. apply digest_not_origin.
Qed.

Lemma elem_of_limited {R} (created id : R → string) p rows r :
  r ∈ limited created id p rows → r ∈ rows.
Proof.
  unfold limited. intros H%elem_of_take. destruct H as (i & H & _).
  apply list_elem_of_lookup_2, elem_of_sort_by, list_elem_of_In, filter_In in H as [H _].
  by apply list_elem_of_In.
Qed.

Section Never.
Context {platform : Platform} (evidence_rows : ReconciliationRegistry → nat).

Lemma lookup_rows_ok a c r s :
  lawful_world s → Forall row_ok (lookup_rows evidence_rows a c r s)
    ∧ (r = execution_registry → Forall in_execution (lookup_rows evidence_rows a c r s)).
Proof.
  intros Hs. pose proof (i_sealed _ Hs) as Hk.
  split; [|intros ->]; apply Forall_forall; intros row Hrow;
    [|by apply list_elem_of_fmap in Hrow as (e & -> & _)].
  destruct r; cbn [lookup_rows] in Hrow;
    try (apply list_elem_of_fmap in Hrow as (x & -> & Hx); simpl; trivial; apply elem_of_limited in Hx);
    try (by apply (k_origins _ Hk)); try (by apply (k_runs _ Hk));
    apply list_elem_of_In, repeat_spec in Hrow; by subst row.
Qed.

Lemma reading_calm {A} (m : eff A) : reading m → calm m.
Proof.
  unfold reading, calm. induction m as [[a|r|]|X e k IH]; simpl; try done.
  intros [He Hk]. split; [|intros x; apply IH, Hk].
  intros s Hs. rewrite (He s). by split.
Qed.

Lemma verify_never row c s :
  lawful_world s → row_ok row → context_ok c →
  oke (λ found _, in_execution row → found ≠ None) (verifyReconciliationRegistryRow row c) s.
Proof.
  intros Hs Hrow Hc. destruct row as [| | | | |e| | | |];
    try (eapply oke_weaken; [|by apply oke_calm, reading_calm, reading_verify]; done).
  simpl. unfold context_ok in Hc. destruct (cx_validation c) as [v|]; [|by apply oke_ret].
  apply oke_ret. intros s' _ _ _. by apply execution_always_drifts.
Qed.

(** Not valid, and stopped within [n] registries. *)
Definition stops_by (n : nat) (res : ReconciliationResult) : Prop :=
  rr_status res ≠ VALID_RECONCILIATION ∧ rr_result res ≠ VALID_RECONCILIATION ∧ (rr_depth res <= n)%nat.

Lemma stops_invalid n d r a t sev :
  (length t <= n)%nat → stops_by n (reconciliationInvalid d r a t sev).
Proof. intros H. by split_and!. Qed.

(** One registry: the walk stops there, or goes on with a row that follows. *)
Lemma traverse_next n a r order c t s :
  (length t < n)%nat → context_ok c → lawful_world s →
  (∀ row s', lawful_world s' → row_ok row → r ≠ execution_registry →
     oke (λ res _, stops_by n res)
       (traverse evidence_rows a order (accept row c)
          (t ++ [new_entry r (lookup_key a c r) [row] t])) s') →
  oke (λ res _, stops_by n res) (traverse evidence_rows a (r :: order) c t) s.
Proof.
  intros Ht Hc Hs Hnext. cbn [traverse].
  destruct (Nat.leb _ _); [apply oke_ret; intros ? _ _; apply stops_invalid; lia|].
  eapply (oke_ebind (λ rows _, Forall row_ok rows ∧ (r = execution_registry → Forall in_execution rows)));
    [|done|].
  { apply oke_select; [|auto]. intros s2 Hs2. by apply lookup_rows_ok. }
  intros rows s1 _ Hs1 [Hok Hex]. cbv zeta.
  assert (∀ d sev, stops_by n
    (reconciliationInvalid d r a (t ++ [new_entry r (lookup_key a c r) rows t]) sev)) as Hstop
    by (intros; apply stops_invalid; rewrite length_app; simpl; lia).
  destruct rows as [|row [|row2 rows]]; [by apply oke_ret| |by apply oke_ret].
  pose proof (Forall_inv Hok) as Hrow.
  eapply oke_ebind; [apply (verify_never row c s1); assumption|assumption|].
  intros [d|] s2 _ Hs2 Hd; [by apply oke_ret|]. apply Hnext; [done|done|].
  intros ->. by destruct (Hd (Forall_inv (Hex eq_refl))).
Qed.

Lemma accept_ok row c : row_ok row → context_ok c → context_ok (accept row c).
Proof. unfold context_ok. intros Hrow Hc. destruct c, row; exact Hrow || exact Hc. Qed.

Lemma traverse_never n a before after c t s :
  (length t + length before < n)%nat → context_ok c → lawful_world s →
  oke (λ res _, stops_by n res)
    (traverse evidence_rows a (before ++ execution_registry :: after) c t) s.
Proof.
  revert c t s. induction before as [|r before IH]; intros c t s Hn Hc Hs; simpl in Hn;
    apply traverse_next; try assumption; try lia; [done|].
  intros row s' Hs' Hrow _. apply IH; [|by apply accept_ok|done].
  rewrite length_app. simpl. lia.
Qed.

Definition execution_depth : nat := 6.

Lemma traversal_never a db s :
  lawful_world s →
  oke (λ res _, stops_by execution_depth res)
    (deterministicRecursiveReconciliationTraversal evidence_rows a db) s.
Proof.
  intros Hs. destruct db; [|apply oke_ret; intros ? _ _; split_and!; [done|done|simpl; lia]].
  apply (traverse_never _ a [session_registry; continuity_registry; authority_registry; aeo_registry;
    validation_registry] _ empty_context [] s); [simpl; unfold execution_depth; lia|done|done].
Qed.

(** ** The routes *)
Definition honest (r : response) (_ : world) : Prop := ¬ says "VALID_RECONCILIATION" r.

Lemma observed_honest route st fs s :
  st ≠ VALID_RECONCILIATION → honest (observed route (status_js st) fs) s.
Proof. intros H E. unfold says, observed in E. simpl in E. by destruct st. Qed.

Lemma oke_guarded route m s :
  oke honest m s → lawful_world s → oke honest (guarded route m) s.
Proof.
  intros Hm Hs. eapply ok_bind; [apply _|exact Hm| |done].
  intros [a|r|] s' _ _ Ho s2 _ _; [exact Ho|exact Ho|by intros E].
Qed.

Context (has_db : bool) (secret : string).

Lemma oke_observed param (f : ReconciliationResult → eff response) route s :
  lawful_world s →
  (∀ res s', stops_by execution_depth res → lawful_world s' → oke honest (f res) s') →
  oke honest (guarded route (let! r := traversal evidence_rows has_db param in f r)) s.
Proof.
  intros Hs Hf. apply oke_guarded; [|done].
  eapply oke_ebind; [by apply traversal_never|done|]. intros res s' _ Hs' Hres. by apply Hf.
Qed.

Lemma bundle_status_honest res bundle :
  stops_by execution_depth res → reconciliationStatusAfterPortableBundleResolution res bundle ≠ VALID_RECONCILIATION.
Proof. intros (_ & H & _). by destruct bundle. Qed.

Lemma calm_supplied x : calm (supplied x).
Proof. unfold supplied. calm. Qed.

Ltac observe Hs := repeat (apply oke_calm_ebind; [calm|exact Hs|clear Hs; intros ? ? ? Hs]);
  apply oke_ret; intros ? _ _; apply observed_honest.

Lemma reconcile_handler_honest rt param s :
  lawful_world s → oke honest (reconcile_handler evidence_rows has_db secret rt param) s.
Proof.
  intros Hs. destruct rt; apply oke_observed; try done; intros res s1 Hres Hs1; cbv zeta;
    try (observe Hs1; first [by apply Hres | by eapply bundle_status_honest]).
  apply oke_calm_ebind; [calm|done|]. intros at_time s2 Hg2 Hs2. cbv zeta.
  apply oke_calm_ebind; [|done|].
  - destruct (param "bundle") as [x|]; [|apply calm_ret]. destruct (is_empty_str x); [apply calm_ret|].
    apply calm_ebind; [apply calm_supplied|]. intros ?. apply calm_ret.
  - intros verification s3 Hg3 Hs3. apply oke_ret. intros s4 _ _. apply observed_honest.
    by eapply bundle_status_honest.
Qed.

Lemma reconcile_serve_honest rt param s :
  lawful_world s →
  ok perform lawful_world grows honest (reconcile_serve evidence_rows has_db secret rt param) s.
Proof.
  intros Hs. eapply ok_bind; [apply _|by apply reconcile_handler_honest| |done].
  intros [a|r|] s' _ _ Ho s2 _ _; [exact Ho| |by intros E].
  unfold honest, says. simpl in Ho. unfold refusal in Ho. by rewrite Ho.
Qed.
End Never.

Section Reached.
Context {platform : Platform} (api_key secret : string) (has_db : bool).
Context (json_canonical : ∀ v, json_parse (canonicalize v) = Some (normalize v)).

(** A request for a reconciliation, with the rows then in the registries that are
    not modelled. *)
Record question := mkQuestion {
  qn_route : reading_route;
  qn_param : string → option string;
  qn_evidence : ReconciliationRegistry → nat
}.

Definition asks (qn : question) : prog sql response :=
  reconcile_serve (qn_evidence qn) has_db secret (qn_route qn) (qn_param qn).

(** C15. However requests for reconciliations interleave with the requests of the
    worker, from any lawful tables, whatever the registries of evidence hold, none
    of them is ever answered that a lineage is valid, and every reconciliation of
    the tables then reached stops at the execution at the latest: the traversal
    compares its parent, a digest, with its validation's origin, a canonical text.
    The worker's own guarantees stand beside them. *)
Theorem never_reconciled arrivals questions start q :
  lawful_world start →
  pool_steps perform (start, map (serves api_key secret) arrivals ++ map asks questions) q →
  lawful_world q.1
  ∧ (∀ i r, (length arrivals <= i)%nat → q.2 !! i = Some (Ret r) → ¬ says "VALID_RECONCILIATION" r)
  ∧ (∀ evidence_rows a res,
      outcome (deterministicRecursiveReconciliationTraversal evidence_rows a has_db) q.1 = Go res →
      stops_by execution_depth res).
Proof using json_canonical.
  intros Hl Hq.
  destruct (pool_steps_ok perform lawful_world grows
    (λ i r s, (length arrivals <= i)%nat → honest r s) _ _ Hq Hl) as (Hs & _ & Hok).
  { intros j m Hj. apply lookup_app_Some in Hj as [Hj|[Hlen Hj]].
    - apply lookup_lt_Some in Hj as Hlt. rewrite length_map in Hlt.
      rewrite list_lookup_fmap in Hj. destruct (arrivals !! j) as [a|]; [|done]. injection Hj as <-.
      eapply ok_weaken; [|by apply (serves_ok api_key secret json_canonical)].
      simpl. intros ? ? _ ?. lia.
    - rewrite list_lookup_fmap in Hj. destruct (questions !! _) as [qn|]; [|done]. injection Hj as <-.
      eapply ok_weaken; [|by apply reconcile_serve_honest]. by intros ? ? ? _. }
  split_and!; [exact Hs| |].
  - intros i r Hi Hr. exact (Hok i _ Hr q.1 (reflexivity _) Hs Hi).
  - intros evidence_rows a res E. pose proof (traversal_never evidence_rows a has_db q.1 Hs) as H.
    apply Effects.run_ok in H as (_ & _ & H); [|apply _|exact Hs]. unfold outcome in E. by rewrite E in H.
Qed.
End Reached.

(** * The demonstration, asked *)
Definition demo_question : question :=
  mkQuestion R_federation_drift (λ name, if String.eqb name "decision_id" then Some "d1"
    else if String.eqb name "session_id" then Some "uuid-0" else None) (λ _, 1%nat).

Definition with_topologies (ts : list TopologyRow) (s : world) : world :=
  mkWorld (sessions s) (continuities s) (authorities s) (aeos s) (validations s) (invocations s)
    (executions s) (proofs s) (snapshots s) (preos s) (attestations s) (delegations s) (envelopes s)
    (govern_envelopes s) (govern_nonces s) (govern_evidence s) (ataos s) (outbox s) (epochs s) ts
    (logs s) (clock s) (drawn s).

Lemma topologies_lawful ts s : lawful_world s → lawful_world (with_topologies ts s).
Proof. intros []. split; try assumption. destruct i_sealed. by split. Qed.

Definition observed_topology : TopologyRow :=
  mkTopologyRow "snapshot-1" "th" "true" "true" "false" "false" "false" "2026".

(** One observation of the topology is there. *)
Definition asked_tables : world := with_topologies [observed_topology] (empty_world t0).

Definition asked_start : pool response :=
  (asked_tables, map (serves "key" "secret") demo_arrivals ++ map (asks "secret" true) [demo_question]).

(** The lifecycle completes, then the question is asked. *)
Definition asked : pool response := schedule perform (demo_order ++ repeat 9%nat 60) asked_start.

(** The status of an answer and the first of its drifts. *)
Definition answered (m : option (prog sql response)) : jsval * jsval :=
  match m with
  | Some (Ret r) => (get (rs_body r) "status",
      match get (rs_body r) "drift" with
      | JArr (d :: _) => JArr [get d "drift_class"; get d "registry_origin"] | v => v end)
  | _ => (JUndef, JUndef)
  end.

Lemma asked_answer :
  answered (asked.2 !! 9%nat)
  = (JStr "NULL", JArr [JStr "proof_lineage_drift"; JStr "execution_registry"]).
Proof. vm_compute. reflexivity. Qed.

Lemma asked_steps : pool_steps perform asked_start asked.
Proof. exact (schedule_steps perform (demo_order ++ repeat 9%nat 60) asked_start). Qed.

#[global] Opaque asked asked_start.

Lemma never_reconciled_witness :
  ∃ r, asked.2 !! 9%nat = Some (Ret r) ∧ says "NULL" r ∧ ¬ says "VALID_RECONCILIATION" r.
Proof.
  pose proof asked_answer as H. destruct (asked.2 !! 9%nat) as [[r|]|] eqn:E;
    [|discriminate H|discriminate H].
  exists r. split; [reflexivity|]. split; [exact (f_equal fst H)|].
  destruct (never_reconciled "key" "secret" true plain_json demo_arrivals [demo_question] asked_tables
    asked (topologies_lawful _ _ (empty_lawful t0)) asked_steps) as (_ & Hn & _).
  refine (Hn 9%nat r _ E). apply Nat.leb_le. reflexivity.
Defined.
