(* ===== verification/ReconciledLineage.v ===== *)
(** What the reconciliation traversal answers: the rows that it accepts are
    exactly those that follow from the rows before them, and a valid answer means
    nine rows, each the only one that its lookup selects. *)
From Stdlib Require Import ZArith NArith Lia Ascii.
From stdpp Require Import base list strings pretty.
From S2P Require Import Prelude JsValue Sha256 Canonical Json Effects WorkerValues WorkerTables.
From S2P Require Import WorkerSql WorkerLineage WorkerEvidence WorkerIssuance WorkerAuthority.
From S2P Require Import WorkerExecution WorkerProof WorkerLawful WorkerSafety WorkerRun.
From S2P Require Import ReconciliationTraversal ReconciliationReport TraversalTheorems.

Local Open Scope eff_scope.

(** * Checks that found nothing *)
Lemma first_drift_none checks : first_drift checks = None ↔ Forall (λ c, c.1 = false) checks.
Proof.
  induction checks as [|[[|] d] checks IH]; simpl; rewrite ?Forall_cons; simpl; naive_solver.
Qed.

Lemma unlike_iff x y : unlike x y = false ↔ x = y.
Proof. unfold unlike. by rewrite negb_false_iff, String.eqb_eq. Qed.

Lemma canonicalLineageHash_ne stage d h p : canonicalLineageHash stage d h p ≠ EmptyString.
Proof. discriminate. Qed.

(** A row's parent is [parent], and its origin says so. *)
Definition bound_to (parent : string) (stage : LineageStage)
    (d h actual_parent actual_stage origin : string) : Prop :=
  actual_parent = parent ∧ parent ≠ EmptyString ∧ actual_stage = stage_str stage
  ∧ origin = canonicalLineageHash stage d h parent.

Lemma origin_agrees stage d h st origin parent expected :
  origin_drifts (verifyLineageOrigin stage d h st origin parent expected) = false ↔
  bound_to expected stage d h parent st origin.
Proof.
  unfold verifyLineageOrigin, bound_to.
  rewrite (surjective_pairing (match stage with _ => _ end)).
  destruct (String.eqb_spec st (stage_str stage)) as [->|]; [|simpl; naive_solver].
  destruct (is_empty_str expected) eqn:He;
    [apply is_empty_str_true in He; simpl; naive_solver|apply is_empty_str_false in He].
  destruct (is_empty_str parent) eqn:Hp;
    [apply is_empty_str_true in Hp; simpl; naive_solver|].
  destruct (String.eqb_spec parent expected) as [->|]; [|simpl; naive_solver]. simpl.
  destruct (String.eqb_spec origin (canonicalLineageHash stage d h expected)); simpl; naive_solver.
Qed.

(** No check is met: what each of them says. *)
Ltac checks := rewrite first_drift_none, !Forall_cons, Forall_nil; cbn [fst];
  rewrite ?orb_false_iff, ?negb_false_iff, ?unlike_iff, ?is_empty_str_false, ?origin_agrees.

Section Lineage.
Context {platform : Platform}.

(** ** Ancestry *)

(** The row is the session's and alive at the clock's time, and its text is what
    its digest says, which no other row has. *)
Record sound_row (s : world) (session : SessionRow) (c : ContinuityRow) (canonical : jsval) : Prop :=
  mkSoundRow {
    sr_named : co_id c ≠ EmptyString;
    sr_session : co_session c = se_id session;
    sr_identity : co_identity c = se_identity session;
    sr_active : co_status c = "ACTIVE";
    sr_unrevoked : null_or_empty (co_revoked_at c) = true;
    sr_unexpired : isExpired (co_expires_at c) (clock s) = false;
    sr_text : json_parse (stored_json (co_canonical c)) = Some canonical;
    sr_hash : continuityHash canonical = co_hash c;
    sr_claimed : text (get canonical "continuity_hash") = co_hash c;
    sr_parent : canonical_parent canonical = row_parent c;
    sr_unique : (length (List.filter (λ x, sql_eqb (co_hash x) (co_hash c)) (continuities s)) <= 1)%nat
  }.

(** [n] sound rows, no two of one identifier, from [c] up to a root. *)
Inductive sound_ancestry (s : world) (session : SessionRow) : ContinuityRow → list string → Prop :=
  | sound_root c canonical :
      sound_row s session c canonical → row_parent c = EmptyString →
      sound_ancestry s session c [co_id c]
  | sound_child c canonical p ids :
      sound_row s session c canonical → row_parent c ≠ EmptyString →
      find_continuity (row_parent c) s = Some p → sound_ancestry s session p ids →
      co_id c ∉ ids → sound_ancestry s session c (co_id c :: ids).

Lemma continuity_row_passed c session :
  continuity_row_drift c session = None ↔
  co_session c = se_id session ∧ co_identity c = se_identity session ∧ co_status c = "ACTIVE"
  ∧ null_or_empty (co_revoked_at c) = true.
Proof. unfold continuity_row_drift. checks. naive_solver. Qed.

Lemma twins_unique (l : list ContinuityRow) :
  Nat.ltb 1 (length (take RECONCILIATION_ROW_LIMIT l)) = false ↔ (length l <= 1)%nat.
Proof. rewrite Nat.ltb_ge, length_take. unfold RECONCILIATION_ROW_LIMIT. lia. Qed.

Lemma ancestry_sound n visited c session s :
  outcome (read_only_ancestry n visited c session) s = Go None →
  ∃ ids, sound_ancestry s session c ids ∧ (length visited + length ids <= RECONCILIATION_MAX_RECURSION_DEPTH)%nat
    ∧ ∀ x, x ∈ ids → x ∉ visited.
Proof.
  revert visited c. induction n as [|n IH]; intros visited c; cbn [read_only_ancestry]; [done|].
  destruct (is_empty_str (co_id c) || str_in (co_id c) visited) eqn:Hseen; [done|].
  destruct (Nat.ltb _ _) eqn:Hdepth; [done|]. apply Nat.ltb_ge in Hdepth.
  destruct (continuity_row_drift c session) as [d|] eqn:Hrow; [done|].
  apply continuity_row_passed in Hrow as (H1 & H2 & H3 & H4).
  unfold now_ms. rewrite outcome_ebind by apply reading_select. simpl.
  destruct (isExpired _ _) eqn:Hexp; [done|].
  destruct (json_parse _) as [canonical|] eqn:Htext; [|done]. cbv zeta.
  destruct (unlike (continuityHash canonical) _) eqn:Hhash; [done|]. apply unlike_false in Hhash.
  unfold need_object. destruct (nullish canonical); [done|].
  rewrite outcome_ebind by apply reading_ret. simpl.
  destruct (unlike (continuityHash canonical) _) eqn:Hclaim; [done|]. apply unlike_false in Hclaim.
  unfold select_hash_twins. rewrite outcome_ebind by apply reading_select. simpl.
  destruct (Nat.ltb 1 _) eqn:Htwins; [done|]. apply twins_unique in Htwins.
  destruct (unlike (canonical_parent canonical) _) eqn:Hpar; [done|]. apply unlike_false in Hpar.
  apply orb_false_iff in Hseen as [Hnamed%is_empty_str_false Hseen].
  assert (sound_row s session c canonical) as Hsound by (split; congruence || done).
  assert (co_id c ∉ visited) as Hfresh by (intros Hin%str_in_elem; congruence).
  destruct (is_empty_str (canonical_parent canonical)) eqn:Hroot.
  { intros _. apply is_empty_str_true in Hroot. exists [co_id c]. split; [|split].
    - eapply sound_root; [exact Hsound|congruence].
    - simpl. lia.
    - by intros x ->%list_elem_of_singleton. }
  apply is_empty_str_false in Hroot.
  unfold select_continuity. rewrite outcome_ebind by apply reading_select. simpl.
  destruct (find_continuity _ s) as [p|] eqn:Hp; [|done].
  intros (ids & Hids & Hlen & Hfr)%IH. simpl in Hlen. exists (co_id c :: ids).
  split; [|split; [simpl; lia|]].
  - eapply sound_child; [exact Hsound|congruence|by rewrite <- Hpar|exact Hids|].
    intros Hin. apply (Hfr _ Hin). by left.
  - intros x [->|Hin]%elem_of_cons; [done|]. intros Hx. apply (Hfr x Hin). by right.
Qed.

(** A sound row is passed, and its parent is looked up. *)
Lemma sound_row_step n visited c session s canonical :
  sound_row s session c canonical → co_id c ∉ visited →
  (length visited < RECONCILIATION_MAX_RECURSION_DEPTH)%nat →
  outcome (read_only_ancestry (S n) visited c session) s
  = if is_empty_str (row_parent c) then Go None
    else match find_continuity (row_parent c) s with
         | Some p => outcome (read_only_ancestry n (co_id c :: visited) p session) s
         | None => Go (Some orphan_legitimacy_object_drift)
         end.
Proof.
  intros [Hn%is_empty_str_false ? ? ? ? Hexp Htext Hhash Hclaim Hpar Htwins] Hfresh Hlen.
  cbn [read_only_ancestry]. rewrite Hn. simpl orb.
  destruct (str_in (co_id c) visited) eqn:E; [by apply str_in_elem in E|].
  destruct (Nat.ltb_spec RECONCILIATION_MAX_RECURSION_DEPTH (S (length visited))); [lia|].
  rewrite (proj2 (continuity_row_passed c session)) by done.
  unfold now_ms. rewrite outcome_ebind by apply reading_select. simpl. rewrite Hexp, Htext. cbv zeta.
  rewrite (proj2 (unlike_iff _ _) Hhash).
  unfold need_object. destruct (nullish canonical) eqn:Hnull.
  { exfalso. apply (hashCanonical_ne (continuityHashMaterial canonical)).
    change (continuityHash canonical = EmptyString). rewrite Hhash, <- Hclaim.
    by destruct canonical. }
  rewrite outcome_ebind by apply reading_ret. simpl.
  rewrite (proj2 (unlike_iff (continuityHash canonical) _)) by congruence.
  unfold select_hash_twins. rewrite outcome_ebind by apply reading_select. simpl.
  rewrite (proj2 (twins_unique _) Htwins), (proj2 (unlike_iff _ _) Hpar), Hpar.
  destruct (is_empty_str (row_parent c)); [done|].
  unfold select_continuity. rewrite outcome_ebind by apply reading_select. simpl.
  by destruct (find_continuity _ s).
Qed.

Lemma ancestry_complete session c ids s :
  sound_ancestry s session c ids → ∀ n visited,
  (length ids <= n)%nat → (length visited + length ids <= RECONCILIATION_MAX_RECURSION_DEPTH)%nat →
  (∀ x, x ∈ ids → x ∉ visited) →
  outcome (read_only_ancestry n visited c session) s = Go None.
Proof.
  induction 1 as [c canonical Hs Hr|c canonical p ids Hs Hr Hp _ IH Hnin];
    intros [|n] visited Hn Hlen Hfr; simpl in Hn, Hlen; try lia;
    rewrite (sound_row_step n visited c session s canonical) by (done || lia || (apply Hfr; by left)).
  - by rewrite (proj2 (is_empty_str_true _) Hr).
  - rewrite (proj2 (is_empty_str_false _) Hr), Hp. apply IH; [lia|simpl; lia|].
    intros x Hx. rewrite not_elem_of_cons. split; [by intros ->|]. apply Hfr. by right.
Qed.

(** The ancestry is passed exactly when it is sound and within the bound. *)
Lemma ancestry_exact c session s :
  outcome (verifyContinuityAncestryReadOnly c session) s = Go None ↔
  ∃ ids, sound_ancestry s session c ids ∧ (length ids <= SYSTEM_MAX_CONTINUITY_DEPTH)%nat.
Proof.
  unfold verifyContinuityAncestryReadOnly. split.
  - intros (ids & Hids & Hlen & _)%ancestry_sound. eauto.
  - intros (ids & Hids & Hlen). apply (ancestry_complete session c ids s Hids); simpl.
    + unfold RECONCILIATION_MAX_RECURSION_DEPTH. lia.
    + exact Hlen.
    + intros x _. apply not_elem_of_nil.
Qed.

(** The two lineage texts of a proof name the authority and the execution. *)
Definition lineage_texts (p : ProofRow) (e : ExecutionRow) (a : AuthorityRow) : Prop :=
  ∃ authority_text execution_text,
    json_parse (stored_json (pf_authority_lineage p)) = Some authority_text
    ∧ json_parse (stored_json (pf_execution_lineage p)) = Some execution_text
    ∧ nullish authority_text = false ∧ text (get authority_text "authority_id") = au_id a
    ∧ nullish execution_text = false ∧ text (get execution_text "execution_id") = ex_id e.

(** ** A row that follows

    Each row against those accepted before it, all that is asked of it. *)
Definition follows (s : world) (row : registry_row) (c : traversal_context) : Prop :=
  match row with
  | InSession r => se_status r = "ACTIVE" ∧ isExpired (se_expires_at r) (clock s) = false
  | InContinuity k => ∃ r, cx_session c = Some r
      ∧ ∃ ids, sound_ancestry s r k ids ∧ (length ids <= SYSTEM_MAX_CONTINUITY_DEPTH)%nat
  | InAuthority a => ∃ r k, cx_session c = Some r ∧ cx_continuity c = Some k
      ∧ au_session a = se_id r ∧ au_continuity a = co_id k ∧ au_identity a = se_identity r
      ∧ str_in (au_status a) ["REVOKED"; "EXPIRED"] = false
  | InAeo o => ∃ a, cx_authority c = Some a
      ∧ ao_authority o = au_id a ∧ ao_continuity o = au_continuity a
      ∧ ∃ aeo, stored_aeo (ao_canonical o) = Some aeo ∧ aeo_hash aeo = ao_hash o
  | InValidation v => ∃ r k o, cx_session c = Some r ∧ cx_continuity c = Some k ∧ cx_aeo c = Some o
      ∧ va_session v = se_id r ∧ va_continuity v = co_id k ∧ va_hash v = ao_hash o
      ∧ va_status v = "VALID" ∧ va_result v = "VALID"
      ∧ bound_to (ao_hash o) stage_validate (va_decision v) (va_hash v)
          (va_parent_hash v) (va_stage v) (va_origin_hash v)
  | InExecution e => ∃ v, cx_validation c = Some v
      ∧ ex_session e = va_session v ∧ ex_continuity e = va_continuity v
      ∧ ex_decision e = va_decision v ∧ ex_hash e = va_hash v ∧ ex_nonce e = va_nonce v
      ∧ ex_status e = "EXECUTED"
      ∧ bound_to (va_origin_hash v) stage_execute (ex_decision e) (ex_hash e)
          (ex_parent_hash e) (ex_stage e) (ex_origin_hash e)
  | InProof p => ∃ e k a, cx_execution c = Some e ∧ cx_continuity c = Some k ∧ cx_authority c = Some a
      ∧ pf_execution p = ex_id e ∧ pf_decision p = ex_decision e ∧ pf_hash p = ex_hash e
      ∧ pf_continuity p = co_id k ∧ pf_continuity_hash p = co_hash k
      ∧ lineage_texts p e a
      ∧ bound_to (ex_origin_hash e) stage_proof (pf_decision p) (pf_hash p)
          (pf_parent_hash p) (pf_stage p) (pf_origin_hash p)
  | InInvocation i => ∃ v e, cx_validation c = Some v ∧ cx_execution c = Some e
      ∧ in_decision i = va_decision v ∧ in_hash i = va_hash v ∧ in_nonce i = va_nonce v
      ∧ in_continuity i = va_continuity v ∧ in_status i = "EXECUTED"
  | InPreo g => ∃ a o, cx_authority c = Some a ∧ cx_aeo c = Some o
      ∧ po_decision g = au_decision a ∧ po_authority g = au_id a ∧ po_continuity g = au_continuity a
      ∧ po_reviewed_hash g = ao_hash o ∧ po_status g = "PREO_VALID"
  | InEvidence => True
  end.

(** * The lineage *)
Definition named (expected actual : string) : Prop := expected ≠ EmptyString → actual = expected.

(** [r] is the only row that satisfies [p]. *)
Definition the_only {R} (p : R → bool) (rows : list R) (r : R) : Prop :=
  List.filter p rows = [r].

(** What a question asks of a table: the row it names, or else those of [q]. *)
Definition asked_for {R} (expected : string) (field : R → string) (q : R → bool) (x : R) : bool :=
  if is_empty_str expected then q x else sql_eqb (field x) expected.

Record reconciled (s : world) (anchor : ReconciliationAnchor) (r : SessionRow) (k : ContinuityRow)
    (a : AuthorityRow) (o : AeoRow) (v : ValidationRow) (e : ExecutionRow) (p : ProofRow)
    (i : InvocationRow) (g : PreoRow) : Prop := mkReconciled {
  rc_session : the_only (asked_for (ra_session anchor) se_id (λ x, sql_eqb (se_status x) "ACTIVE"))
      (sessions s) r
    ∧ se_status r = "ACTIVE" ∧ isExpired (se_expires_at r) (clock s) = false
    ∧ named (ra_session anchor) (se_id r);
  rc_continuity : the_only (asked_for (ra_continuity anchor) co_id
      (λ x, sql_eqb (co_session x) (se_id r))) (continuities s) k
    ∧ named (ra_continuity anchor) (co_id k)
    ∧ ∃ ids, sound_ancestry s r k ids ∧ (length ids <= SYSTEM_MAX_CONTINUITY_DEPTH)%nat;
  rc_authority : the_only (asked_for (ra_decision anchor) au_decision
      (λ x, sql_eqb (au_session x) (se_id r) && sql_eqb (au_continuity x) (co_id k))) (authorities s) a
    ∧ named (ra_decision anchor) (au_decision a)
    ∧ au_session a = se_id r ∧ au_continuity a = co_id k ∧ au_identity a = se_identity r
    ∧ str_in (au_status a) ["REVOKED"; "EXPIRED"] = false;
  rc_object : the_only (λ x, sql_eqb (ao_decision x) (au_decision a)) (aeos s) o
    ∧ ao_authority o = au_id a ∧ ao_continuity o = co_id k
    ∧ ∃ aeo, stored_aeo (ao_canonical o) = Some aeo ∧ aeo_hash aeo = ao_hash o;
  rc_validation : the_only (λ x, sql_eqb (va_decision x) (au_decision a)
      && sql_eqb (va_hash x) (ao_hash o)) (validations s) v
    ∧ va_session v = se_id r ∧ va_continuity v = co_id k ∧ va_status v = "VALID" ∧ va_result v = "VALID"
    ∧ va_parent_hash v = ao_hash o
    ∧ va_origin_hash v = canonicalLineageHash stage_validate (va_decision v) (va_hash v) (ao_hash o);
  rc_execution : the_only (asked_for (ra_execution anchor) ex_id
      (λ x, sql_eqb (ex_decision x) (au_decision a) && sql_eqb (ex_hash x) (ao_hash o))) (executions s) e
    ∧ named (ra_execution anchor) (ex_id e)
    ∧ ex_session e = se_id r ∧ ex_continuity e = co_id k ∧ ex_decision e = au_decision a
    ∧ ex_hash e = ao_hash o ∧ ex_nonce e = va_nonce v ∧ ex_status e = "EXECUTED"
    ∧ ex_parent_hash e = va_origin_hash v
    ∧ ex_origin_hash e = canonicalLineageHash stage_execute (ex_decision e) (ex_hash e) (va_origin_hash v);
  rc_proof : the_only (asked_for (ra_proof anchor) pf_id
      (λ x, sql_eqb (pf_execution x) (ex_id e)
        && sql_eqb (pf_decision x) (au_decision a) && sql_eqb (pf_hash x) (ao_hash o))) (proofs s) p
    ∧ named (ra_proof anchor) (pf_id p)
    ∧ pf_execution p = ex_id e ∧ pf_decision p = ex_decision e ∧ pf_hash p = ex_hash e
    ∧ pf_continuity p = co_id k ∧ pf_continuity_hash p = co_hash k
    ∧ lineage_texts p e a
    ∧ pf_parent_hash p = ex_origin_hash e
    ∧ pf_origin_hash p = canonicalLineageHash stage_proof (pf_decision p) (pf_hash p) (ex_origin_hash e);
  rc_invocation : the_only (same_invocation (au_decision a) (ao_hash o) (va_nonce v)) (invocations s) i
    ∧ in_decision i = va_decision v ∧ in_hash i = va_hash v
    ∧ in_nonce i = va_nonce v ∧ in_continuity i = co_id k ∧ in_status i = "EXECUTED";
  rc_preo : the_only (λ x, sql_eqb (po_decision x) (au_decision a)
      && sql_eqb (po_reviewed_hash x) (ao_hash o)) (preos s) g
    ∧ po_decision g = au_decision a ∧ po_authority g = au_id a
    ∧ po_continuity g = co_id k ∧ po_reviewed_hash g = ao_hash o ∧ po_status g = "PREO_VALID"
}.

(** ** One registry *)
Lemma limited_one {R} (F : R → registry_row) (created id : R → string) q rows row :
  map F (limited created id q rows) = [row] → ∃ r, row = F r ∧ the_only q rows r.
Proof.
  unfold limited, the_only. intros H.
  assert (length (List.filter q rows) = 1)%nat as Hl.
  { assert (Nat.min 2 (length (List.filter q rows)) = 1)%nat; [|lia].
    change 2%nat with RECONCILIATION_ROW_LIMIT.
    rewrite <- (sort_by_length (earlier_first created id)), <- length_take, <- (length_map F).
    by rewrite H. }
  destruct (List.filter q rows) as [|r [|]]; try done. exists r. split; [|done].
  simpl in H. congruence.
Qed.

Lemma the_only_elem {R} (q : R → bool) rows r : the_only q rows r → r ∈ rows ∧ q r = true.
Proof.
  unfold the_only. intros H. assert (In r (List.filter q rows)) as Hin by (rewrite H; by left).
  apply filter_In in Hin as [Hin ?]. by rewrite list_elem_of_In.
Qed.

(** ** Rows that passed *)
Lemma outcome_ret {A} (x y : A) s : outcome (ret x) s = Go y ↔ x = y.
Proof. split; [by intros [= <-]|by intros ->]. Qed.

Lemma authority_passed r s k :
  authority_drift r s k = None ↔
  au_session r = se_id s ∧ au_continuity r = co_id k ∧ au_identity r = se_identity s
  ∧ str_in (au_status r) ["REVOKED"; "EXPIRED"] = false.
Proof. unfold authority_drift. checks. naive_solver. Qed.

Lemma aeo_passed r a :
  aeo_drift r a = None ↔
  ao_authority r = au_id a ∧ ao_continuity r = au_continuity a
  ∧ ∃ aeo, stored_aeo (ao_canonical r) = Some aeo ∧ aeo_hash aeo = ao_hash r.
Proof. unfold aeo_drift. destruct (stored_aeo _) as [aeo|]; checks; naive_solver. Qed.

Lemma bound_to_fields parent stage d h ap st origin :
  bound_to parent stage d h ap st origin →
  ap ≠ EmptyString ∧ ap = parent ∧ st = stage_str stage ∧ origin ≠ EmptyString.
Proof. intros (-> & ? & -> & ->). split_and!; [done..|]. apply canonicalLineageHash_ne. Qed.

Lemma validation_passed r s k o :
  validation_drift r s k o = None ↔
  va_session r = se_id s ∧ va_continuity r = co_id k ∧ va_hash r = ao_hash o ∧ va_status r = "VALID"
  ∧ va_result r = "VALID"
  ∧ bound_to (ao_hash o) stage_validate (va_decision r) (va_hash r)
      (va_parent_hash r) (va_stage r) (va_origin_hash r).
Proof.
  unfold validation_drift. checks. split; [naive_solver|].
  intros (? & ? & ? & ? & ? & H). pose proof (bound_to_fields _ _ _ _ _ _ _ H). naive_solver.
Qed.

Lemma execution_passed r v :
  execution_drift r v = None ↔
  ex_session r = va_session v ∧ ex_continuity r = va_continuity v ∧ ex_decision r = va_decision v
  ∧ ex_hash r = va_hash v ∧ ex_nonce r = va_nonce v ∧ ex_status r = "EXECUTED"
  ∧ bound_to (va_origin_hash v) stage_execute (ex_decision r) (ex_hash r)
      (ex_parent_hash r) (ex_stage r) (ex_origin_hash r).
Proof.
  unfold execution_drift. checks. split; [naive_solver|].
  intros (? & ? & ? & ? & ? & ? & H). pose proof (bound_to_fields _ _ _ _ _ _ _ H). naive_solver.
Qed.

Lemma proof_row_passed r e k :
  proof_row_drift r e k = None ↔
  pf_execution r = ex_id e ∧ pf_decision r = ex_decision e ∧ pf_hash r = ex_hash e
  ∧ pf_continuity r = co_id k ∧ pf_continuity_hash r = co_hash k.
Proof. unfold proof_row_drift. checks. naive_solver. Qed.

Lemma proof_origin_passed r e :
  proof_origin_drift r e = None ↔
  bound_to (ex_origin_hash e) stage_proof (pf_decision r) (pf_hash r)
    (pf_parent_hash r) (pf_stage r) (pf_origin_hash r).
Proof.
  unfold proof_origin_drift. checks. split; [naive_solver|].
  intros H. pose proof (bound_to_fields _ _ _ _ _ _ _ H). naive_solver.
Qed.

Lemma reading_proof_texts r e a : reading (proof_texts_drift r e a).
Proof. unfold proof_texts_drift. reading. Qed.

Lemma need_object_bind {A} v (f : unit → eff A) s :
  outcome (ebind (need_object v) f) s = if nullish v then Throws else outcome (f tt) s.
Proof. rewrite outcome_ebind by apply reading_need_object. unfold need_object. by destruct (nullish v). Qed.

Lemma proof_texts_passed r e a s :
  outcome (proof_texts_drift r e a) s = Go None ↔ lineage_texts r e a.
Proof.
  unfold proof_texts_drift, lineage_texts.
  destruct (json_parse _) as [at'|]; [|split; [done|naive_solver]].
  destruct (json_parse _) as [et|]; [|split; [done|naive_solver]].
  rewrite need_object_bind. destruct (nullish at') eqn:Ha.
  { split; [done|]. intros (x & y & [= <-] & _ & E & _). congruence. }
  destruct (unlike _ _) eqn:Hu.
  { split; [done|]. intros (x & y & [= <-] & _ & _ & E & _). apply unlike_iff in E. congruence. }
  apply unlike_iff in Hu. rewrite need_object_bind.
  destruct (nullish et) eqn:He.
  { split; [done|]. intros (x & y & _ & [= <-] & _ & _ & E & _). congruence. }
  rewrite outcome_ret. checks. split.
  - intros [E _]. by exists at', et.
  - by intros (x & y & [= <-] & [= <-] & _ & _ & _ & E).
Qed.

Lemma invocation_passed r v :
  invocation_drift r v = None ↔
  in_decision r = va_decision v ∧ in_hash r = va_hash v ∧ in_nonce r = va_nonce v
  ∧ in_continuity r = va_continuity v ∧ in_status r = "EXECUTED".
Proof. unfold invocation_drift. checks. naive_solver. Qed.

Lemma preo_passed r a o :
  preo_drift r a o = None ↔
  po_decision r = au_decision a ∧ po_authority r = au_id a ∧ po_continuity r = au_continuity a
  ∧ po_reviewed_hash r = ao_hash o ∧ po_status r = "PREO_VALID".
Proof. unfold preo_drift. checks. naive_solver. Qed.

(** The check of a row accepts exactly the rows that follow. *)
Lemma verify_follows row c s :
  outcome (verifyReconciliationRegistryRow row c) s = Go None ↔ follows s row c.
Proof.
  destruct row as [r|k|a|o|v|e|p|i|g|]; cbn [verifyReconciliationRegistryRow follows].
  - destruct (unlike _ _) eqn:H; [split; [done|]|apply unlike_iff in H].
    { intros [E _]. apply unlike_iff in E. congruence. }
    unfold now_ms. rewrite outcome_ebind by apply reading_select. simpl.
    destruct (isExpired _ _); simpl; naive_solver.
  - destruct (cx_session c); [rewrite ancestry_exact|]; naive_solver.
  - destruct (cx_session c), (cx_continuity c); rewrite ?outcome_ret, ?authority_passed; naive_solver.
  - destruct (cx_authority c); rewrite ?outcome_ret, ?aeo_passed; naive_solver.
  - destruct (cx_session c), (cx_continuity c), (cx_aeo c);
      rewrite ?outcome_ret, ?validation_passed; naive_solver.
  - destruct (cx_validation c); rewrite ?outcome_ret, ?execution_passed; naive_solver.
  - destruct (cx_execution c) as [e|]; [|split; [done|naive_solver]].
    destruct (cx_continuity c) as [k|]; [|split; [done|naive_solver]].
    destruct (cx_authority c) as [a|]; [|split; [done|naive_solver]].
    pose proof (proof_row_passed p e k) as H1. pose proof (proof_texts_passed p e a s) as H2.
    destruct (proof_row_drift p e k); [split; [done|naive_solver]|].
    rewrite outcome_ebind by apply reading_proof_texts.
    destruct (outcome (proof_texts_drift p e a) s) as [[d|]| |];
      [split; [done|naive_solver]| |split; [done|naive_solver]|split; [done|naive_solver]].
    rewrite outcome_ret, proof_origin_passed. naive_solver.
  - destruct (cx_validation c), (cx_execution c); rewrite ?outcome_ret, ?invocation_passed; naive_solver.
  - destruct (cx_authority c), (cx_aeo c); rewrite ?outcome_ret, ?preo_passed; naive_solver.
  - done.
Qed.

(** ** The walk *)
Context (evidence_rows : ReconciliationRegistry → nat).

(** The registries one after the other: the only row that each lookup finds in
    the context of those before, which follows from them. *)
Inductive walked (s : world) (a : ReconciliationAnchor) :
    list ReconciliationRegistry → traversal_context → list registry_row → traversal_context → Prop :=
  | walked_none c : walked s a [] c [] c
  | walked_one r order c row rows c' :
      lookup_rows evidence_rows a c r s = [row] → follows s row c →
      walked s a order (accept row c) rows c' → walked s a (r :: order) c (row :: rows) c'.

(** Why the walk goes no further than [r], and the drift that says so. *)
Definition halts (s : world) (a : ReconciliationAnchor) (r : ReconciliationRegistry)
    (c : traversal_context) (d : drift_class) : Prop :=
  match lookup_rows evidence_rows a c r s with
  | [] => d = orphan_legitimacy_object_drift
  | [row] => ¬ follows s row c
      ∧ outcome (verifyReconciliationRegistryRow row c) s = Go (Some d)
  | _ => d = traversal_instability_drift
  end.

Definition walk_result (s : world) (a : ReconciliationAnchor) (order : list ReconciliationRegistry)
    (c : traversal_context) (o : flow ReconciliationResult) : Prop :=
  match o with
  | Go res =>
      match rr_status res with
      | VALID_RECONCILIATION => ∃ rows c', walked s a order c rows c'
      | INVALID_RECONCILIATION => ∃ before r after rows c' d, order = before ++ r :: after
          ∧ walked s a before c rows c' ∧ rr_drift res = [d] ∧ rd_registry d = r
          ∧ halts s a r c' (rd_class d)
      | NULL_STATUS => False
      end
  | Throws => ∃ before r after rows c' row, order = before ++ r :: after
      ∧ walked s a before c rows c' ∧ lookup_rows evidence_rows a c' r s = [row]
      ∧ ¬ follows s row c'
  | Answer _ => False
  end.

Lemma walk_on s a r order c row o :
  lookup_rows evidence_rows a c r s = [row] → follows s row c →
  walk_result s a order (accept row c) o → walk_result s a (r :: order) c o.
Proof.
  intros Hrow Hf. destruct o as [res|ans|]; simpl; [|done|].
  - destruct (rr_status res); [| |done].
    + intros (rows & c' & H). exists (row :: rows), c'. by eapply walked_one.
    + intros (before & r' & after & rows & c' & d & -> & H & ? & ? & ?).
      exists (r :: before), r', after, (row :: rows), c', d. split_and!; try done.
      by eapply walked_one.
  - intros (before & r' & after & rows & c' & row' & -> & H & ? & ?).
    exists (r :: before), r', after, (row :: rows), c', row'. split_and!; try done.
    by eapply walked_one.
Qed.

Lemma traverse_walk a order c t s :
  (length t + length order <= RECONCILIATION_MAX_RECURSION_DEPTH)%nat →
  walk_result s a order c (outcome (traverse evidence_rows a order c t) s).
Proof.
  revert c t. induction order as [|r order IH]; intros c t Hlen; simpl in Hlen.
  { simpl. exists [], c. constructor. }
  cbn [traverse].
  destruct (Nat.leb_spec RECONCILIATION_MAX_RECURSION_DEPTH (length t)); [lia|].
  rewrite outcome_ebind by apply reading_select.
  change (outcome (exec (readReconciliationRows evidence_rows a c r)) s)
    with (Go (lookup_rows evidence_rows a c r s)). cbv beta iota zeta.
  assert (∀ d rows, halts s a r c d →
    walk_result s a (r :: order) c
      (Go (reconciliationInvalid d r a (t ++ [new_entry r (lookup_key a c r) rows t]) HIGH))) as Hstop.
  { intros d rows Hd. simpl. eexists [], r, order, [], c, _. split_and!; try done. constructor. }
  unfold halts in Hstop.
  destruct (lookup_rows evidence_rows a c r s) as [|row [|row2 rows]] eqn:Hrows; [by apply Hstop| |by apply Hstop].
  rewrite outcome_ebind by apply reading_verify.
  pose proof (verify_follows row c s) as Hv.
  destruct (outcome (verifyReconciliationRegistryRow row c) s) as [[d|]|ans|] eqn:Ev.
  - apply Hstop. split; [|done]. by intros Hf%Hv.
  - apply (walk_on s a r order c row); [exact Hrows|by apply Hv|]. apply IH.
    rewrite length_app. simpl. lia.
  - by apply (reading_answer _ s ans (reading_verify row c)).
  - eexists [], r, order, [], c, row. split_and!; try done; [constructor|]. by intros Hf%Hv.
Qed.

Lemma walk_valid s a order c o res :
  o = Go res → rr_status res = VALID_RECONCILIATION → walk_result s a order c o →
  ∃ rows c', walked s a order c rows c'.
Proof. intros -> Hv. simpl. by rewrite Hv. Qed.

Lemma walked_next s a r order c rows c' :
  walked s a (r :: order) c rows c' →
  ∃ row rows', lookup_rows evidence_rows a c r s = [row] ∧ follows s row c
    ∧ walked s a order (accept row c) rows' c'.
Proof. inversion 1; subst. eauto. Qed.

(** C26. The reconciliation traversal changes no table; it answers or throws. Its
    trace names the registries in their order, each under its depth, and every
    entry but the last found exactly one row. A valid answer has all thirteen
    entries, each with one row, and no drift: in each registry the row that its
    lookup found, in the context of those before, follows from them. An invalid
    answer has one drift, of the registry at which it stopped, the rows before it
    all following: an orphan when no row was found there, an instability when
    several were, and otherwise the drift of the one row, which does not follow.
    It throws only at a row that does not follow. *)
Theorem traversal_answer a db s :
  let o := run perform (deterministicRecursiveReconciliationTraversal evidence_rows a db) s in
  o.1 = s
  ∧ match o.2 with
    | Go res => well_shaped a res ∧ (rr_status res = NULL_STATUS ↔ db = false)
    | Answer _ => False
    | Throws => True
    end
  ∧ (db = true → walk_result s a CANONICAL_RECONCILIATION_REGISTRY_ORDER empty_context o.2).
Proof.
  cbv zeta. split; [apply reading_world, reading_traversal|]. split; [apply traversal_shape|].
  intros ->. apply (traverse_walk a CANONICAL_RECONCILIATION_REGISTRY_ORDER empty_context [] s).
  simpl. unfold RECONCILIATION_MAX_RECURSION_DEPTH, SYSTEM_MAX_CONTINUITY_DEPTH. lia.
Qed.

(** ** The rows that an anchor names *)
Lemma known_same {R} (field : R → string) r x : named x (field r) → known field (Some r) x = field r.
Proof.
  intros H. simpl. destruct (is_empty_str (field r)) eqn:E; [|done]. apply is_empty_str_true in E.
  rewrite E in *. destruct (decide (x = EmptyString)) as [->|Hne]; [done|]. by specialize (H Hne).
Qed.

Lemma known_there {R} (field : R → string) r x : field r ≠ EmptyString → known field (Some r) x = field r.
Proof. intros H%is_empty_str_false. simpl. by rewrite H. Qed.

Lemma asked_named {R} (q : R → bool) (field : R → string) x rows r :
  the_only (asked_for x field q) rows r → named x (field r).
Proof.
  intros [_ H]%the_only_elem Hne. unfold asked_for in H.
  apply is_empty_str_false in Hne. rewrite Hne in H. by apply sql_eqb_true.
Qed.

(** The nonce that the invocation is looked up by is the validation's. *)
Lemma known_nonce v e x i d h rows :
  the_only (same_invocation d h (known va_nonce (Some v) (known ex_nonce (Some e) x))) rows i →
  in_nonce i = va_nonce v → the_only (same_invocation d h (va_nonce v)) rows i.
Proof.
  intros H Hi. pose proof (the_only_elem _ _ _ H) as [_ Hq].
  apply andb_true_iff in Hq as [_ Hn%sql_eqb_true]. by rewrite Hn in Hi; rewrite Hi in H.
Qed.

(** The next registry: its only row, and what it follows from. *)
Ltac next H r Hr Hf :=
  let row := fresh in let t := fresh in let Hrow := fresh in
  apply walked_next in H as (row & t & Hrow & Hf & H);
  cbn [lookup_rows] in Hrow; apply limited_one in Hrow as (r & -> & Hr);
  cbn [accept empty_context] in H;
  cbn [follows cx_session cx_continuity cx_authority cx_aeo cx_validation cx_execution] in Hf;
  unfold lk_session, lk_continuity, lk_decision, lk_hash, lk_execution, lk_nonce in Hr;
  cbn [cx_session cx_continuity cx_authority cx_aeo cx_validation cx_execution empty_context] in Hr.

(** C13. A reconciliation that is answered valid has found a whole lineage in the
    tables: nine rows, each the only one in its table that its lookup selects (by
    the identifier that the question names, or else by the rows before it): a live
    session, a live continuity of it with authentic ancestors of bounded depth, an
    authority of both, the object of its decision with the digest of its text, the
    validation of that object, and its execution, proof, nonce and review, each
    bound to those before it and to every identifier that the question named. *)
Theorem valid_means_lineage anchor s res :
  (run perform (deterministicRecursiveReconciliationTraversal evidence_rows anchor true) s).2 = Go res →
  rr_status res = VALID_RECONCILIATION →
  ∃ r k a o v e p i g, reconciled s anchor r k a o v e p i g.
Proof.
  intros E Hv.
  pose proof (traverse_walk anchor CANONICAL_RECONCILIATION_REGISTRY_ORDER empty_context [] s
    ltac:(apply Nat.leb_le; reflexivity)) as H.
  apply (walk_valid _ _ _ _ _ _ E Hv) in H as (rows & c' & H).
  unfold CANONICAL_RECONCILIATION_REGISTRY_ORDER in H.
  next H r Hr F1. pose proof (asked_named _ se_id _ _ _ Hr) as Nr.
  next H k Hk F2. rewrite known_same in Hk by exact Nr. pose proof (asked_named _ co_id _ _ _ Hk) as Nk.
  next H a Ha F3. rewrite !known_same in Ha by done. pose proof (asked_named _ au_decision _ _ _ Ha) as Na.
  next H o Ho F4. rewrite known_same in Ho by done. destruct F4 as (? & [= <-] & ? & ? & aeo & ? & Haeo).
  assert (ao_hash o ≠ EmptyString) as No by (rewrite <- Haeo; apply hashCanonical_ne).
  next H v Hvd F5. rewrite known_same, known_there in Hvd by done.
  pose proof (the_only_elem _ _ _ Hvd) as [_ [Hd%sql_eqb_true _]%andb_true_iff].
  next H e He F6. rewrite known_same, known_there in He by done.
  pose proof (asked_named _ ex_id _ _ _ He) as Ne.
  next H p Hp F7. rewrite (known_same ex_id e), known_same, known_there in Hp by done.
  pose proof (asked_named _ pf_id _ _ _ Hp) as Np.
  next H i Hi F8. next H g Hg F9. rewrite known_same, known_there in Hi, Hg by done.
  destruct F2 as (? & [= <-] & ids & ? & ?). destruct F3 as (? & ? & [= <-] & [= <-] & ? & ? & ? & ?).
  destruct F5 as (? & ? & ? & [= <-] & [= <-] & [= <-] & ? & ? & ? & ? & ? & ? & ? & ? & ?).
  destruct F6 as (? & [= <-] & ? & ? & ? & ? & ? & ? & ? & ? & ? & ?).
  destruct F7 as (? & ? & ? & [= <-] & [= <-] & [= <-] & ? & ? & ? & ? & ? & ? & ? & ? & ? & ?).
  destruct F8 as (? & ? & [= <-] & [= <-] & ? & ? & Hin & ? & ?).
  destruct F9 as (? & ? & [= <-] & [= <-] & ? & ? & ? & ? & ?).
  apply known_nonce in Hi; [|exact Hin].
  exists r, k, a, o, v, e, p, i, g.
  split; split_and!; eauto; try congruence; destruct F1; congruence.
Qed.
End Lineage.

(** * A lineage that reconciles

    The demonstration's tables with an execution and a proof whose parents are the
    origins of the rows before them, a review and one row of topology. *)
Definition origin_of (stage : LineageStage) (d h parent : string) : string :=
  canonicalLineageHash stage d h parent.

Definition repaired_execution (v : ValidationRow) (e : ExecutionRow) : ExecutionRow :=
  mkExecution (ex_id e) (ex_session e) (ex_decision e) (ex_hash e) (ex_nonce e) (ex_status e)
    (ex_created_at e) (ex_continuity e) (ex_provenance e) (ex_workflow_integrity e) (ex_delegated e)
    (ex_replay_chain e) (ex_lineage_hash e) (ex_root_hash e) (va_origin_hash v) "execute"
    (origin_of stage_execute (ex_decision e) (ex_hash e) (va_origin_hash v)).

Definition repaired_proof (e : ExecutionRow) (p : ProofRow) : ProofRow :=
  mkProof (pf_id p) (pf_identity p) (pf_session p) (pf_continuity p) (pf_continuity_hash p)
    (pf_execution p) (pf_decision p) (pf_hash p) (pf_decision_hash p) (pf_authority_lineage p)
    (pf_execution_lineage p) (pf_surface p) (pf_run_id p) (pf_commit_sha p) (pf_workflow p)
    (pf_environment p) (pf_created_at p) (pf_provenance p) (pf_workflow_integrity p) (pf_delegated p)
    (pf_replay_chain p) (pf_lineage_hash p) (pf_root_hash p) (ex_origin_hash e) "proof"
    (origin_of stage_proof (pf_decision p) (pf_hash p) (ex_origin_hash e)).

Definition review_row (a : AuthorityRow) (h : string) : PreoRow :=
  mkPreo "preo-1" (au_decision a) (au_id a) (au_continuity a) h "tree" "merge" "{}" "PREO_VALID"
    (au_created_at a).

Definition repair (s : world) : world :=
  match validations s, executions s, proofs s, authorities s with
  | v :: _, e :: _, p :: _, a :: _ =>
      let e' := repaired_execution v e in
      with_topologies [observed_topology] (set_preos [review_row a (ex_hash e)]
        (set_proofs [repaired_proof e' p] (set_executions [e'] s)))
  | _, _, _, _ => s
  end.

Definition repaired : world := repair demo.1.

Definition demo_anchor : ReconciliationAnchor :=
  mkAnchor "uuid-0" "c1" "d1" EmptyString EmptyString demo_hash "n1".

Definition reconcile_repaired : flow ReconciliationResult :=
  (run perform (deterministicRecursiveReconciliationTraversal (λ _, 1%nat) demo_anchor true) repaired).2.

Definition found_valid (o : flow ReconciliationResult) : Prop :=
  match o with
  | Go res => reconciliation_status_str (rr_status res) = "VALID_RECONCILIATION"
  | _ => False
  end.

Lemma found_valid_go o : found_valid o → ∃ res, o = Go res ∧ rr_status res = VALID_RECONCILIATION.
Proof.
  destruct o as [res|r|]; [|intros []|intros []]. intros H. exists res.
  split; [reflexivity|]. simpl in H. by destruct (rr_status res).
Qed.

Lemma repaired_valid : found_valid reconcile_repaired.
Proof. vm_compute. reflexivity. Qed.

Lemma repaired_run : ∃ res, reconcile_repaired = Go res ∧ rr_status res = VALID_RECONCILIATION.
Proof. exact (found_valid_go reconcile_repaired repaired_valid). Qed.

Lemma reconcile_repaired_eq : reconcile_repaired
  = (run perform (deterministicRecursiveReconciliationTraversal (λ _, 1%nat) demo_anchor true) repaired).2.
Proof. reflexivity. Qed.

#[global] Opaque repaired reconcile_repaired.

Lemma valid_means_lineage_witness :
  ∃ r k a o v e p i g, reconciled repaired demo_anchor r k a o v e p i g.
Proof.
  destruct repaired_run as (res & E & Hv).
  exact (valid_means_lineage (λ _, 1%nat) demo_anchor repaired res
    (eq_trans (eq_sym reconcile_repaired_eq) E) Hv).
Defined.

Lemma traversal_answer_witness :
  ∃ rows c, walked (λ _, 1%nat) repaired demo_anchor CANONICAL_RECONCILIATION_REGISTRY_ORDER
    empty_context rows c.
Proof.
  destruct repaired_run as (res & E & Hv).
  pose proof (traversal_answer (λ _, 1%nat) demo_anchor true repaired) as H. cbv zeta in H.
  destruct H as (_ & _ & H).
  exact (walk_valid (λ _, 1%nat) repaired demo_anchor _ _ _ res
    (eq_trans (eq_sym reconcile_repaired_eq) E) Hv (H eq_refl)).
Defined.
