(* ===== verification/TraversalEvidence.v ===== *)
(** What a reconciliation's evidence depends on: which identifiers of the anchor
    its trace never looks at, and which entries its Merkle root binds. *)
From Stdlib Require Import ZArith NArith Lia Ascii.
From stdpp Require Import base list strings pretty.
From S2P Require Import Prelude JsValue Sha256 Canonical Json Effects WorkerValues WorkerTables.
From S2P Require Import WorkerSql WorkerLineage WorkerEvidence WorkerIssuance WorkerAuthority.
From S2P Require Import WorkerExecution WorkerProof WorkerLawful WorkerSafety WorkerRun.
From S2P Require Import ReconciliationTraversal ReconciliationReport TraversalTheorems.
From S2P Require Import ReconciledLineage.

Local Open Scope eff_scope.

(** * The object hash of an anchor *)
Definition asked_object (h : string) (a : ReconciliationAnchor) : ReconciliationAnchor :=
  mkAnchor (ra_session a) (ra_continuity a) (ra_decision a) (ra_execution a) (ra_proof a) h (ra_nonce a).

(** A result but for what repeats the anchor. *)
Definition findings (res : ReconciliationResult) :=
  (rr_status res, rr_result res, rr_trace res,
   map (λ d, (rd_class d, rd_registry d, rd_severity d, rd_trace d)) (rr_drift res)).

Definition flow_map {A B} (f : A → B) (o : flow A) : flow B :=
  match o with Go x => Go (f x) | Answer r => Answer r | Throws => Throws end.

(** The object's registry is still ahead, with only earlier ones before it, or its
    row has been found. *)
Definition object_known (c : traversal_context) : Prop :=
  ∃ o, cx_aeo c = Some o ∧ ao_hash o ≠ EmptyString.

Definition before_object (r : ReconciliationRegistry) : bool :=
  match r with session_registry | continuity_registry | authority_registry => true | _ => false end.

Inductive ahead : list ReconciliationRegistry → Prop :=
  | ahead_here order : ahead (aeo_registry :: order)
  | ahead_later r order : before_object r = true → ahead order → ahead (r :: order).

Section Anchor.
Context {platform : Platform} (evidence_rows : ReconciliationRegistry → nat).
Local Abbreviation traverse := (traverse evidence_rows).

Lemma lookup_same a h c r s :
  object_known c ∨ before_object r = true ∨ r = aeo_registry →
  lookup_rows evidence_rows (asked_object h a) c r s = lookup_rows evidence_rows a c r s
  ∧ lookup_key (asked_object h a) c r = lookup_key a c r.
Proof.
  intros [(o & Ho & Hh)|[Hr| ->]]; [|by destruct r|done].
  assert (lk_hash (asked_object h a) c = lk_hash a c) as E.
  { unfold lk_hash. rewrite Ho. by rewrite !known_there. }
  destruct r; cbn [lookup_rows lookup_key]; rewrite ?E; done.
Qed.

Lemma accept_known row c s :
  object_known c → outcome (verifyReconciliationRegistryRow row c) s = Go None →
  object_known (accept row c).
Proof.
  intros (o & Ho & Hh) Hv. destruct c as [cs ck [a|] co cv ce cp ci cg], row; simpl in *;
    try (by exists o); try done.
  apply outcome_ret, aeo_passed in Hv as (_ & _ & aeo & _ & E).
  eexists; split; [done|]. rewrite <- E. apply hashCanonical_ne.
Qed.

Lemma accept_object r c s :
  outcome (verifyReconciliationRegistryRow (InAeo r) c) s = Go None → object_known (accept (InAeo r) c).
Proof.
  intros Hv. destruct c as [cs ck [a|] co cv ce cp ci cg]; simpl in *; [|done].
  apply outcome_ret, aeo_passed in Hv as (_ & _ & aeo & _ & E).
  eexists; split; [done|]. rewrite <- E. apply hashCanonical_ne.
Qed.

Lemma traverse_same a h order c t s :
  object_known c ∨ ahead order →
  flow_map findings (outcome (traverse (asked_object h a) order c t) s)
  = flow_map findings (outcome (traverse a order c t) s).
Proof.
  revert c t. induction order as [|r order IH]; intros c t Hc; [done|].
  cbn [ReconciliationTraversal.traverse]. destruct (Nat.leb _ _); [done|].
  rewrite !outcome_ebind by apply reading_select. simpl. cbv zeta.
  destruct (lookup_same a h c r s) as [E1 E2].
  { destruct Hc as [?|Ha]; [by left|]. inversion Ha; subst; auto. }
  rewrite E1, E2.
  destruct (lookup_rows evidence_rows a c r s) as [|row [|row2 rows]] eqn:Hrows; [done| |done].
  rewrite !outcome_ebind by apply reading_verify.
  destruct (outcome (verifyReconciliationRegistryRow row c) s) as [[d|]|ans|] eqn:Hv; [done| |done|done].
  apply IH. destruct Hc as [Hc|Ha]; [left; by eapply accept_known|].
  inversion Ha as [|r' order' Hb Ha']; subst; [|by right]. left.
  cbn [lookup_rows] in Hrows. apply limited_one in Hrows as (o & -> & _). by eapply accept_object.
Qed.

(** C37. The object hash in a question is never compared with anything: two
    questions that differ in it alone are answered with the same status, the same
    trace and the same drift, whatever the tables hold. *)
Theorem object_hash_ignored a h s :
  flow_map findings (run perform
    (deterministicRecursiveReconciliationTraversal evidence_rows (asked_object h a) true) s).2
  = flow_map findings (run perform
    (deterministicRecursiveReconciliationTraversal evidence_rows a true) s).2.
Proof. apply (traverse_same a h). right. repeat constructor. Qed.
End Anchor.

(** * The Merkle root *)

(** What is hashed for a layer. *)
Definition layer_value (r : ReconciliationResult) (i : nat) : jsval :=
  match rr_trace r !! i with Some e => entry_js e | None => JNull end.

Definition same_layers (r r' : ReconciliationResult) : Prop :=
  rr_anchor r = rr_anchor r'
  ∧ ∀ i, (i < 9)%nat → canonicalize (layer_value r i) = canonicalize (layer_value r' i).

Definition entry_facts (e : trace_entry) :=
  (te_registry e, te_position e, te_depth e, te_lookup_key e, te_row_count e, te_lineage_hash e).

Lemma registry_str_inj r r' : registry_str r = registry_str r' → r = r'.
Proof. destruct r, r'; intros H; first [reflexivity | discriminate H]. Qed.

Lemma entry_bound e e' :
  normalize (entry_js e) = normalize (entry_js e') → entry_facts e = entry_facts e'.
Proof.
  intros E. assert (∀ k, k ≠ proto_key → rigid (get (entry_js e) k) = true →
    get (entry_js e') k = get (entry_js e) k) as H by (intros; by apply rigid_get).
  pose proof (H "registry" ltac:(discriminate) eq_refl) as H1.
  pose proof (H "canonical_traversal_position" ltac:(discriminate) eq_refl) as H2.
  pose proof (H "reconciliation_depth" ltac:(discriminate) eq_refl) as H3.
  pose proof (H "lookup_key" ltac:(discriminate) eq_refl) as H4.
  pose proof (H "row_count" ltac:(discriminate) eq_refl) as H5.
  pose proof (H "lineage_hash" ltac:(discriminate) eq_refl) as H6.
  simpl in *. clear H. injection H1 as H1%registry_str_inj. injection H2 as H2%Nat2Z.inj.
  injection H3 as H3%Nat2Z.inj. injection H4 as H4. injection H5 as H5%Nat2Z.inj.
  injection H6 as H6. unfold entry_facts. congruence.
Qed.

Lemma layer_lookup (trace : list trace_entry) i :
  match head (drop i trace) with Some e => entry_js e | None => JNull end
  = match trace !! i with Some e => entry_js e | None => JNull end.
Proof. by rewrite head_lookup, lookup_drop, Nat.add_0_r. Qed.

Definition value_of (e : option trace_entry) : jsval :=
  match e with Some e => entry_js e | None => JNull end.

(** What the Merkle digests are taken of: the anchor, and for each layer the
    entry of the trace and then the node, which names the entry's digest and the
    digest of the node before. *)
Definition genesis_js (anchor : string) : jsval :=
  JObj [("genesis", JStr "federated_reconciliation"); ("lineage_anchor", JStr anchor)].

Definition object_js (layer : string) (entry : option trace_entry) : jsval :=
  JObj [("layer", JStr layer); ("trace", value_of entry)].

Definition merkle_node_js (layer object_hash parent_hash : string) (position : nat) : jsval :=
  JObj [("layer", JStr layer); ("object_hash", JStr object_hash);
    ("parent_hash", JStr parent_hash); ("position", jint (Z.of_nat position))].

Fixpoint node_texts (layers : list string) (index : nat) (trace : list trace_entry)
    (parent_hash : string) : list string :=
  match layers with
  | [] => []
  | layer :: layers' =>
      let object_hash := merkle_object layer (head trace) in
      canonicalize (object_js layer (head trace))
      :: canonicalize (merkle_node_js layer object_hash parent_hash index)
      :: node_texts layers' (S index) (tail trace) (merkle_node_hash layer object_hash parent_hash index)
  end.

Definition merkle_texts (r : ReconciliationResult) : list string :=
  canonicalize (genesis_js (rr_anchor r))
  :: node_texts RECONCILIATION_MERKLE_LAYERS 0 (rr_trace r) (merkle_genesis (rr_anchor r)).

Lemma hashed_field v w k s :
  hashCanonical v = hashCanonical w → k ≠ proto_key → get v k = JStr s →
  get w k = JStr s ∨ collision_in [canonicalize v; canonicalize w].
Proof.
  intros [E|]%hash_binding Hk Hs; [left|by right]. rewrite <- Hs. apply rigid_get; [done|by rewrite Hs|done].
Qed.

Lemma node_binds layer o o' p p' i :
  merkle_node_hash layer o p i = merkle_node_hash layer o' p' i →
  (o = o' ∧ p = p')
  ∨ collision_in [canonicalize (merkle_node_js layer o p i); canonicalize (merkle_node_js layer o' p' i)].
Proof.
  unfold merkle_node_hash. intros E.
  destruct (hashed_field _ _ "object_hash" o E ltac:(discriminate) eq_refl) as [H1|]; [|by right].
  destruct (hashed_field _ _ "parent_hash" p E ltac:(discriminate) eq_refl) as [H2|]; [|by right].
  simpl in H1, H2. left. split; congruence.
Qed.

Lemma object_binds layer e e' :
  merkle_object layer e = merkle_object layer e' →
  normalize (value_of e) = normalize (value_of e')
  ∨ collision_in [canonicalize (object_js layer e); canonicalize (object_js layer e')].
Proof.
  unfold merkle_object. intros [E|]%hash_binding; [left|by right].
  by apply (normalize_get _ _ "trace" ltac:(discriminate)) in E.
Qed.

Lemma merkle_cons layer layers i t p :
  (merkle_from (layer :: layers) i t p).1
  = (merkle_from layers (S i) (tail t) (merkle_node_hash layer (merkle_object layer (head t)) p i)).1.
Proof. simpl. by destruct (merkle_from layers (S i) _ _). Qed.

Lemma merkle_from_binds layers i t t' p p' :
  (merkle_from layers i t p).1 = (merkle_from layers i t' p').1 →
  (p = p' ∧ ∀ j, (j < length layers)%nat → normalize (value_of (t !! j)) = normalize (value_of (t' !! j)))
  ∨ collision_in (node_texts layers i t p ++ node_texts layers i t' p').
Proof.
  revert i t t' p p'. induction layers as [|layer layers IH]; intros i t t' p p'.
  { simpl. intros ->. left. split; [done|]. intros j Hj. lia. }
  rewrite !merkle_cons. cbn [node_texts]. cbv zeta. intros [[En Ht]|]%IH; [|right; collide].
  apply node_binds in En as [[Eo Ep]|]; [|right; collide].
  apply object_binds in Eo as [Eo|]; [|right; collide].
  left. split; [done|]. intros [|j] Hj; [by destruct t, t'|].
  simpl in Hj. specialize (Ht j ltac:(lia)). by destruct t, t'.
Qed.

Lemma hash_normal v w : normalize v = normalize w → hashCanonical v = hashCanonical w.
Proof.
  Transparent hashCanonical. unfold hashCanonical, canonicalize. Opaque hashCanonical. by intros ->.
Qed.

Lemma merkle_object_normal layer e e' :
  normalize (value_of e) = normalize (value_of e') → merkle_object layer e = merkle_object layer e'.
Proof.
  intros H. apply hash_normal. rewrite !normalize_obj.
  assert (∀ v, norm_props [("layer", JStr layer); ("trace", v)]
    = [("layer", JStr layer); ("trace", normalize v)]) as E by (intros v; reflexivity).
  rewrite !E. unfold value_of in H. by rewrite H.
Qed.

Lemma merkle_from_same layers i t t' p :
  (∀ j, (j < length layers)%nat → normalize (value_of (t !! j)) = normalize (value_of (t' !! j))) →
  (merkle_from layers i t p).1 = (merkle_from layers i t' p).1.
Proof.
  revert i t t' p. induction layers as [|layer layers IH]; intros i t t' p H; [done|].
  rewrite !merkle_cons. assert (merkle_object layer (head t) = merkle_object layer (head t')) as ->.
  { apply merkle_object_normal. specialize (H 0%nat ltac:(simpl; lia)). by destruct t, t'. }
  apply IH. intros j Hj. specialize (H (S j) ltac:(simpl; lia)). by destruct t, t'.
Qed.

(** C29. The Merkle root of a reconciliation binds the anchor and the first nine
    entries of the trace, from the session to the review: two reconciliations of
    one root agree on them, unless two of the texts hashed for these two roots
    (anchors, entries, nodes) have one digest. It binds nothing else: on the
    entries of the four governance registries it does not depend. *)
Theorem merkle_binds r r' :
  (same_layers r r' → merkle_root r = merkle_root r')
  ∧ (merkle_root r = merkle_root r' →
      (same_layers r r'
       ∧ ∀ i e e', (i < 9)%nat → rr_trace r !! i = Some e → rr_trace r' !! i = Some e' →
           entry_facts e = entry_facts e')
      ∨ collision_in (merkle_texts r ++ merkle_texts r')).
Proof.
  unfold merkle_root, reconciliationMerkleEvidence. split.
  - intros [Ha Hl]. rewrite Ha. apply merkle_from_same. intros j Hj. by apply canonicalize_eq, Hl.
  - unfold merkle_texts. intros [[Ep Ht]|]%merkle_from_binds; [|right; collide].
    destruct (hashed_field _ _ "lineage_anchor" (rr_anchor r) Ep ltac:(discriminate) eq_refl)
      as [Ha|]; [|right; unfold genesis_js; collide]. left. simpl in Ha. split; [split; [congruence|]|].
    + intros i Hi. by apply canonicalize_eq, Ht.
    + intros i e e' Hi He He'. specialize (Ht i Hi). rewrite He, He' in Ht. by apply entry_bound.
Qed.

(** A walk of ten entries, the last one of the topologies. *)
Definition ten_layers (session_hash topology_hash : string) : ReconciliationResult :=
  let entry g h := mkEntry g 0 1 EmptyString 1 h None in
  reconciliationValid (mkAnchor "s1" "c1" "d1" EmptyString EmptyString EmptyString EmptyString)
    (entry session_registry session_hash
       :: map (λ g, entry g EmptyString)
            [continuity_registry; authority_registry; aeo_registry; validation_registry;
             execution_registry; proof_registry; invocation_registry; preo_registry]
       ++ [entry runtime_topology_registry topology_hash]).

(** Another topology leaves the root, another session hash does not. *)
Lemma merkle_binds_witness :
  merkle_root (ten_layers "h" "e1") = merkle_root (ten_layers "h" "e2")
  ∧ (merkle_root (ten_layers "h1" "e") = merkle_root (ten_layers "h2" "e") →
     collision_in (merkle_texts (ten_layers "h1" "e") ++ merkle_texts (ten_layers "h2" "e"))).
Proof.
  split.
  - apply (proj1 (merkle_binds (ten_layers "h" "e1") (ten_layers "h" "e2"))).
    split; [reflexivity|]. intros i Hi. by do 9 (destruct i as [|i]; [reflexivity|]); lia.
  - intros H. destruct (proj2 (merkle_binds (ten_layers "h1" "e") (ten_layers "h2" "e")) H)
      as [[_ Hf]|Hc]; [|exact Hc].
    pose proof (Hf 0%nat _ _ ltac:(lia) eq_refl eq_refl) as E. discriminate E.
Defined.
