(* ===== verification/FederationTheorems.v ===== *)
(** What crosses between runtimes: the bundle that a reconciliation produces is
    the one that its verification observes, and an envelope of revocation evidence
    stands for one evidence only. *)
From Stdlib Require Import ZArith NArith Lia Ascii.
From stdpp Require Import base list strings pretty.
From S2P Require Import Prelude JsValue Sha256 Canonical Json Effects WorkerValues WorkerTables.
From S2P Require Import WorkerSql WorkerLineage WorkerEvidence WorkerIssuance WorkerProof.
From S2P Require Import WorkerSafety WorkerRun WorkerTheorems.
From S2P Require Import ReconciliationTraversal ReconciliationReport FederatedReconciliation.
From S2P Require Import TraversalTheorems ReconciledLineage TraversalEvidence.

(** * Texts by name *)
Lemma get_fields f k :
  get (fields_js f) k
  = match List.find (λ kv, String.eqb kv.1 k) f with Some kv => JStr kv.2 | None => JUndef end.
Proof.
  induction f as [|[k' x] f IH]; [done|]. simpl in *. rewrite (String.eqb_sym k k').
  by destruct (String.eqb k' k).
Qed.

Lemma text_of_field f k : text (get (fields_js f) k) = identifier k f.
Proof. rewrite get_fields. unfold identifier. destruct (List.find _ f); [apply text_str|done]. Qed.

Lemma field_of names input k : k ∈ names → identifier k (fields_of names input) = text (get input k).
Proof.
  unfold identifier. induction names as [|k' names IH]; [by intros ?%elem_of_nil|].
  simpl. destruct (String.eqb_spec k' k) as [->|Hne]; [done|].
  intros [?|?]%elem_of_cons; [congruence|by apply IH].
Qed.

(** Reading the texts back gives them back. *)
Lemma fields_of_read names input :
  fields_of names (fields_js (fields_of names input)) = fields_of names input.
Proof.
  apply map_ext_in. intros k Hk%list_elem_of_In. by rewrite text_of_field, field_of.
Qed.

(** One canonical text, one list of texts. *)
Lemma fields_inj names x y :
  proto_key ∉ names →
  normalize (fields_js (fields_of names x)) = normalize (fields_js (fields_of names y)) →
  fields_of names x = fields_of names y.
Proof.
  intros Hp E. apply map_ext_in. intros k Hk%list_elem_of_In.
  assert (k ≠ proto_key) as Hne by (by intros ->).
  apply (normalize_get _ _ k Hne) in E.
  rewrite <- (field_of names x k Hk), <- (field_of names y k Hk), <- !text_of_field.
  rewrite !get_fields in *.
  destruct (List.find _ _), (List.find _ _); simpl in E; first [done|by injection E as ->].
Qed.

(** * Checks in order *)
Lemma no_refusal {B D} (l : list (bool * D)) (b : B) :
  match List.find fst l with Some (_, d) => inr d | None => inl b end = inl b
  ↔ Forall (λ c, c.1 = false) l.
Proof.
  induction l as [|[[|] d] l IH]; simpl; [by split; [constructor|]| |].
  - split; [done|by intros ?%Forall_inv].
  - rewrite IH, Forall_cons. by split; [|intros [_ ?]].
Qed.

(** An expectation is met when there is none. *)
Definition met (expected actual : string) : Prop := expected = EmptyString ∨ actual = expected.

Lemma unmet_false expected actual : unmet expected actual = false ↔ met expected actual.
Proof.
  unfold unmet, met, unlike. rewrite andb_false_iff, !negb_false_iff, String.eqb_eq.
  by rewrite is_empty_str_true.
Qed.

Lemma is_digest_hash v : is_digest (hashCanonical v) = true.
Proof.
  Transparent hashCanonical. unfold is_digest, hashCanonical. Opaque hashCanonical.
  destruct (sha256Hex_shape (canonicalize v)) as [Hl Hh]. by rewrite Hl, Hh.
Qed.

(** * The bundle *)

(** What a verification expects of a bundle: whatever its question names. *)
Definition bundle_met (expected : ReconciliationAnchor) (bundle : fields) : Prop :=
  met (ra_decision expected) (identifier "decision_id" bundle)
  ∧ met (ra_object_hash expected) (identifier "validated_object_hash" bundle)
  ∧ met (ra_nonce expected) (identifier "invocation_nonce" bundle)
  ∧ met (ra_continuity expected) (identifier "continuity_id" bundle)
  ∧ met (ra_execution expected) (identifier "execution_id" bundle)
  ∧ met (ra_proof expected) (identifier "proof_id" bundle).

Lemma bundle_read input b :
  canonicalPortableLegitimacyBundle input = Some b →
  b = fields_of BUNDLE_FIELDS input ∧ canonicalPortableLegitimacyBundle (fields_js b) = Some b
  ∧ some_empty b = false.
Proof.
  unfold canonicalPortableLegitimacyBundle. cbv zeta. destruct (some_empty _) eqn:E; [done|].
  destruct (unlike _ _) eqn:E2; [done|]. intros H.
  assert (b = fields_of BUNDLE_FIELDS input) as -> by congruence.
  rewrite fields_of_read. by rewrite E, E2.
Qed.

Lemma bundle_field f b k :
  canonicalPortableLegitimacyBundle (fields_js f) = Some b → k ∈ BUNDLE_FIELDS →
  identifier k b = identifier k f.
Proof. intros [-> _]%bundle_read Hk. rewrite field_of by exact Hk. apply text_of_field. Qed.

Lemma merkle_digest layers i t p :
  is_digest p = true → is_digest (merkle_from layers i t p).1 = true.
Proof.
  revert i t p. induction layers as [|layer layers IH]; intros i t p Hp; [done|].
  rewrite merkle_cons. apply IH, is_digest_hash.
Qed.

Lemma digest_not_empty x : is_digest x = true → x ≠ EmptyString.
Proof. by intros H ->. Qed.

Lemma bundle_produced r emitted_at runtime_id b :
  portableLegitimacyBundleFromResult r emitted_at runtime_id = Some b →
  canonicalPortableLegitimacyBundle (fields_js b) = Some b
  ∧ get (fields_js b) "payload" = JUndef ∧ get (fields_js b) "dsse_envelope" = JUndef
  ∧ identifier "runtime_id" b = runtime_id ∧ runtime_id ≠ EmptyString
  ∧ identifier "reconciliation_merkle_root" b = merkle_root r
  ∧ Forall (λ k, is_digest (identifier k b) = true)
      ["reconciliation_merkle_root"; "attestation_hash"; "preo_lineage_hash"].
Proof.
  unfold portableLegitimacyBundleFromResult. destruct (resolveCanonicalPortableIdentifiers r); [|done].
  unfold resolvedPortableIdentifiersFromCanonicalRows. cbv zeta. destruct (some_empty _); [done|].
  intros H. pose proof (λ k, bundle_field _ b k H) as Hk.
  assert (∀ k, bool_decide (k ∈ BUNDLE_FIELDS) → identifier k b = identifier k _) as Hf
    by (intros k Hin%bool_decide_unpack; exact (Hk k Hin)). clear Hk.
  pose proof (Hf "runtime_id" I) as Hr. pose proof (Hf "reconciliation_merkle_root" I) as Hm.
  pose proof (Hf "attestation_hash" I) as Ha. pose proof (Hf "preo_lineage_hash" I) as Hp.
  clear Hf. apply bundle_read in H as (Hb & H & He).
  split_and!; [exact H|by rewrite Hb|by rewrite Hb|exact Hr| |exact Hm|].
  - intros ->. rewrite Hb in He. discriminate He.
  - repeat apply Forall_cons_2; [rewrite Hm; apply merkle_digest|rewrite Ha|rewrite Hp|constructor];
      apply is_digest_hash.
Qed.

(** C25. The bundle that a reconciliation produces is the one that its verification
    observes, at any runtime whose question names nothing else: reading the bundle
    back gives every text unchanged, and what a question may refuse is only a text
    that it names otherwise. *)
Theorem bundle_roundtrip `{!Platform} r emitted_at runtime_id b expected local secret :
  portableLegitimacyBundleFromResult r emitted_at runtime_id = Some b →
  identifier "runtime_id" b = runtime_id ∧ identifier "reconciliation_merkle_root" b = merkle_root r
  ∧ (verify_bundle (fields_js b) expected local secret = inl b ↔ bundle_met expected b).
Proof.
  intros Hb. apply bundle_produced in Hb as (Hb & Hp & Hd & Hr & Hne & Hm & Hx).
  split; [done|]. split; [done|].
  unfold verify_bundle, unwrap. rewrite Hp. cbv zeta. cbn [is_record]. rewrite Hb, Hd, no_refusal.
  rewrite !Forall_cons in Hx. destruct Hx as (Hx0 & Hx1 & Hx2 & _).
  rewrite !Forall_cons, Forall_nil. cbn [fst].
  rewrite !unmet_false. unfold unlike. rewrite String.eqb_refl, Hr, (proj2 (is_empty_str_false _) Hne).
  rewrite Hx0, Hx1, Hx2. unfold bundle_met. simpl. tauto.
Qed.

(** * Evidence of a revocation *)
Lemma evidence_read input ev :
  canonicalFederatedRevocationEvidence input = Some ev →
  ev = fields_of REVOCATION_FIELDS input ∧ canonicalFederatedRevocationEvidence (fields_js ev) = Some ev
  ∧ some_empty ev = false.
Proof.
  unfold canonicalFederatedRevocationEvidence. cbv zeta. destruct (some_empty _) eqn:E; [done|].
  destruct (String.eqb _ _) eqn:E2; [done|]. destruct (negb _) eqn:E3; [done|]. intros H.
  assert (ev = fields_of REVOCATION_FIELDS input) as -> by congruence.
  rewrite fields_of_read. by rewrite E, E2, E3.
Qed.

Lemma none_empty names input k :
  some_empty (fields_of names input) = false → k ∈ names → text (get input k) ≠ EmptyString.
Proof.
  induction names as [|k' names IH]; [by intros _ ?%elem_of_nil|]. simpl.
  intros [E ?]%orb_false_iff [->|?]%elem_of_cons; [by apply is_empty_str_false|by apply IH].
Qed.

Lemma evidence_not_empty input ev k :
  canonicalFederatedRevocationEvidence input = Some ev → k ∈ REVOCATION_FIELDS →
  identifier k ev ≠ EmptyString.
Proof.
  intros (-> & _ & He)%evidence_read Hk. rewrite field_of by exact Hk.
  by apply (none_empty REVOCATION_FIELDS).
Qed.

(** When evidence is observed: whatever the question and the checkpoint name. *)
Definition evidence_met (expected : ReconciliationAnchor) (checkpoint : option ReconciliationCheckpoint)
    (local : string) (ev : fields) : Prop :=
  identifier "runtime_id" ev = local
  ∧ met (ra_decision expected) (identifier "decision_id" ev)
  ∧ met (ra_object_hash expected) (identifier "validated_object_hash" ev)
  ∧ met (ra_continuity expected) (identifier "continuity_id" ev)
  ∧ match checkpoint with
    | Some k => identifier "validated_object_hash" ev ≠ ck_merkle_root k
        ∧ identifier "reconciliation_merkle_root" ev = ck_merkle_root k
    | None => True
    end
  ∧ (identifier "revocation_class" ev = "EXPIRED" → dated (identifier "observed_at" ev) = true).

(** The two digests of an envelope, and the flags that it must carry. *)
Definition sealed_envelope (input : jsval) (ev : fields) : Prop :=
  let hash := deterministicFederatedRevocationEvidenceHash ev in
  get input "exact_object_bound" = JBool true ∧ get input "canonical_hash_locked" = JBool true
  ∧ text (get input "evidence_hash") = hash
  ∧ text (get input "envelope_hash") = deterministicFederatedRevocationEnvelopeHash ev hash.

Definition wrapped (input : jsval) : bool := is_record input && truthy (get input "evidence").

Definition claims_authority (input : jsval) : bool :=
  is_record input
  && existsb (λ k, is_true (get input k)) ["remote_authority_inherited"; "remote_execution_legitimacy";
       "local_revocation_authority"; "mutation_capable"].

Lemma is_true_iff v : is_true v = true ↔ v = JBool true.
Proof. unfold is_true. apply bool_decide_eq_true. Qed.

Lemma guard_iff g b (P : Prop) : (b = false ↔ P) → (g && b = false ↔ (g = true → P)).
Proof. intros H. destruct g; simpl; [rewrite H; tauto|]. split; [done|]. done. Qed.

Lemma classify_iff input ev expected checkpoint local :
  canonicalFederatedRevocationEvidence (unwrap "evidence" input) = Some ev →
  classifyFederatedRevocationEvidence input expected checkpoint local = inl ev
  ↔ claims_authority input = false ∧ (wrapped input = true → sealed_envelope input ev)
    ∧ evidence_met expected checkpoint local ev.
Proof.
  intros Hev. unfold classifyFederatedRevocationEvidence. cbv zeta. fold (claims_authority input).
  destruct (claims_authority input); [split; [done|by intros [? _]]|].
  rewrite Hev, no_refusal, !Forall_cons, Forall_nil. cbn [fst]. fold (wrapped input).
  pose proof (evidence_not_empty _ _ "lineage_hash" Hev (bool_decide_unpack ("lineage_hash" ∈ REVOCATION_FIELDS) I)) as Hl%is_empty_str_false.
  rewrite Hl, !unmet_false, !unlike_iff.
  rewrite (guard_iff _ (negb _) (get input "exact_object_bound" = JBool true
    ∧ get input "canonical_hash_locked" = JBool true))
    by (rewrite negb_false_iff, andb_true_iff, !is_true_iff; done).
  rewrite !(guard_iff _ (unlike _ _) _ (unlike_iff _ _)).
  rewrite (guard_iff _ (negb (dated _)) (dated (identifier "observed_at" ev) = true))
    by apply negb_false_iff.
  rewrite String.eqb_eq. unfold sealed_envelope, evidence_met.
  destruct checkpoint as [k|]; rewrite ?unlike_iff, ?String.eqb_neq; tauto.
Qed.

Lemma envelope_fields ev :
  let envelope := replayNeutralFederatedRevocationEvidenceEnvelope ev in
  unwrap "evidence" envelope = fields_js ev ∧ claims_authority envelope = false
  ∧ sealed_envelope envelope ev.
Proof.
  cbv zeta. split_and!; [done..|]. unfold sealed_envelope. cbv zeta. split_and!; [done..| |];
    cbn [replayNeutralFederatedRevocationEvidenceEnvelope]; apply text_str.
Qed.

(** The envelope that a runtime makes of its evidence of a revocation is
    observed as that evidence, exactly when the runtime is the one that asks, what
    the question and the checkpoint name agrees with it, the object is not the
    checkpoint's root, and an expiry has a date. It never claims an authority. *)
Theorem revocation_roundtrip input ev expected checkpoint local :
  canonicalFederatedRevocationEvidence input = Some ev →
  classifyFederatedRevocationEvidence (replayNeutralFederatedRevocationEvidenceEnvelope ev)
    expected checkpoint local = inl ev
  ↔ evidence_met expected checkpoint local ev.
Proof.
  intros (_ & H & _)%evidence_read. destruct (envelope_fields ev) as (Hu & Hc & Hs).
  rewrite classify_iff by (rewrite Hu; exact H). tauto.
Qed.

(** What the digest of the envelope of [ev] is taken of. *)
Definition envelope_text (ev : fields) : string :=
  canonicalize (JObj (federatedRevocationEnvelopeCore ev (deterministicFederatedRevocationEvidenceHash ev))).

Lemma envelope_hash_binds x y :
  deterministicFederatedRevocationEnvelopeHash (fields_of REVOCATION_FIELDS x)
    (deterministicFederatedRevocationEvidenceHash (fields_of REVOCATION_FIELDS x))
  = deterministicFederatedRevocationEnvelopeHash (fields_of REVOCATION_FIELDS y)
    (deterministicFederatedRevocationEvidenceHash (fields_of REVOCATION_FIELDS y)) →
  fields_of REVOCATION_FIELDS x = fields_of REVOCATION_FIELDS y
  ∨ collision_in [envelope_text (fields_of REVOCATION_FIELDS x); envelope_text (fields_of REVOCATION_FIELDS y)].
Proof.
  intros [E|]%hash_binding; [left|by right].
  apply (normalize_get _ _ "evidence" ltac:(discriminate)) in E.
  apply fields_inj; [|exact E]. by apply (bool_decide_unpack _).
Qed.

Lemma classify_evidence input ev expected checkpoint local :
  classifyFederatedRevocationEvidence input expected checkpoint local = inl ev →
  canonicalFederatedRevocationEvidence (unwrap "evidence" input) = Some ev.
Proof.
  unfold classifyFederatedRevocationEvidence. cbv zeta. fold (claims_authority input).
  destruct (claims_authority input); [done|].
  destruct (canonicalFederatedRevocationEvidence _) as [e|]; [|done].
  destruct (List.find fst _) as [[b d]|]; [done|]. by injection 1 as ->.
Qed.

(** C31. Two envelopes of one digest that are observed, at whatever runtimes,
    questions and checkpoints, carry one evidence, unless the texts of these two
    envelopes are a collision of SHA-256; and the digest each shows is the one the
    code computes of its evidence. Nothing of an observed envelope's evidence can
    be changed under its digest. *)
Theorem envelope_binds x y ex ey expected expected' checkpoint checkpoint' local local' :
  wrapped x = true → wrapped y = true →
  classifyFederatedRevocationEvidence x expected checkpoint local = inl ex →
  classifyFederatedRevocationEvidence y expected' checkpoint' local' = inl ey →
  text (get x "envelope_hash") = text (get y "envelope_hash") →
  text (get x "envelope_hash")
    = deterministicFederatedRevocationEnvelopeHash ex (deterministicFederatedRevocationEvidenceHash ex)
  ∧ text (get y "envelope_hash")
    = deterministicFederatedRevocationEnvelopeHash ey (deterministicFederatedRevocationEvidenceHash ey)
  ∧ (ex = ey ∨ collision_in [envelope_text ex; envelope_text ey]).
Proof.
  intros Wx Wy Hx Hy E. pose proof (classify_evidence _ _ _ _ _ Hx) as Cx.
  pose proof (classify_evidence _ _ _ _ _ Hy) as Cy.
  apply classify_iff in Hx as (_ & (_ & _ & _ & Sx)%(λ f, f Wx) & _); [|exact Cx].
  apply classify_iff in Hy as (_ & (_ & _ & _ & Sy)%(λ f, f Wy) & _); [|exact Cy].
  split; [exact Sx|]. split; [exact Sy|]. rewrite Sx, Sy in E. apply evidence_read in Cx as (-> & _), Cy as (-> & _).
  by apply envelope_hash_binds.
Qed.

(** * A bundle and an envelope, observed *)

(** A bundle is made whenever its identifiers are there. *)
Lemma bundle_exists r emitted_at runtime_id anchor ids :
  resolveCanonicalPortableIdentifiers r = Some anchor →
  resolvedPortableIdentifiersFromCanonicalRows r = Some ids →
  runtime_id ≠ EmptyString → emitted_at ≠ EmptyString →
  ∃ b, portableLegitimacyBundleFromResult r emitted_at runtime_id = Some b
    ∧ ∀ k, k ∈ ["decision_id"; "validated_object_hash"; "proof_id"; "execution_id";
        "invocation_nonce"; "continuity_id"] → identifier k b = identifier k ids.
Proof.
  intros E1 E2 Hr%is_empty_str_false He%is_empty_str_false.
  unfold portableLegitimacyBundleFromResult. rewrite E1, E2.
  unfold resolvedPortableIdentifiersFromCanonicalRows in E2. cbv zeta in E2.
  destruct (some_empty _) eqn:Hids; [done|]. injection E2 as <-.
  assert (is_empty_str (merkle_root r) = false) as Hm
    by (apply is_empty_str_false, digest_not_empty, merkle_digest, is_digest_hash).
  assert (∀ v, is_empty_str (hashCanonical v) = false) as Hh
    by (intros v; apply is_empty_str_false, hashCanonical_ne).
  match goal with |- ∃ b, canonicalPortableLegitimacyBundle (fields_js ?l) = _ ∧ _ => set (f := l) end.
  assert (fields_of BUNDLE_FIELDS (fields_js f) = f) as Ef
    by (unfold fields_of; simpl; rewrite !text_str; reflexivity).
  exists f. unfold canonicalPortableLegitimacyBundle. rewrite Ef. split.
  - assert (some_empty f = false) as ->; [|done]. unfold some_empty in *. simpl in *.
    unfold entry_digest, deterministicReconciliationId. by rewrite Hr, He, Hm, !Hh, !orb_assoc, !orb_false_r in *.
  - intros k Hk. repeat (apply elem_of_cons in Hk as [->|Hk]; [reflexivity|]). by apply elem_of_nil in Hk.
Qed.

Definition found_entry (g : ReconciliationRegistry) (ids : fields) : trace_entry :=
  mkEntry g (index_of g CANONICAL_RECONCILIATION_REGISTRY_ORDER) 1 EmptyString 1 EmptyString (Some ids).

(** What the walk keeps of a lineage, as far as a bundle looks at it. *)
Definition sample_result : ReconciliationResult :=
  reconciliationValid (mkAnchor "s1" "c1" "d1" EmptyString EmptyString EmptyString EmptyString)
    [found_entry session_registry [("session_id", "s1")];
     found_entry continuity_registry [("continuity_id", "c1"); ("session_id", "s1")];
     found_entry authority_registry [("authority_id", "a1"); ("continuity_id", "c1");
       ("decision_id", "d1"); ("session_id", "s1")];
     found_entry aeo_registry [("aeo_id", "o1"); ("authority_id", "a1"); ("continuity_id", "c1");
       ("decision_id", "d1"); ("validated_object_hash", "h1")];
     found_entry execution_registry [("continuity_id", "c1"); ("decision_id", "d1");
       ("execution_id", "e1"); ("invocation_nonce", "n1"); ("session_id", "s1");
       ("validated_object_hash", "h1")];
     found_entry proof_registry [("continuity_id", "c1"); ("decision_id", "d1");
       ("execution_id", "e1"); ("proof_id", "p1"); ("session_id", "s1");
       ("validated_object_hash", "h1")];
     found_entry invocation_registry [("continuity_id", "c1"); ("decision_id", "d1");
       ("invocation_nonce", "n1"); ("validated_object_hash", "h1")]].

Lemma sample_bundle : ∃ b,
  portableLegitimacyBundleFromResult sample_result "2026" LOCAL_FEDERATION_RUNTIME_ID = Some b
  ∧ identifier "decision_id" b = "d1" ∧ identifier "continuity_id" b = "c1"
  ∧ identifier "invocation_nonce" b = "n1".
Proof.
  edestruct (bundle_exists sample_result "2026" LOCAL_FEDERATION_RUNTIME_ID) as (b & E & H);
    [reflexivity|reflexivity|discriminate|discriminate|].
  exists b. split; [exact E|].
  split_and!; (rewrite H; [reflexivity|by apply (bool_decide_unpack _)]).
Qed.

Definition asked_decision (d : string) : ReconciliationAnchor :=
  mkAnchor EmptyString "c1" d EmptyString EmptyString EmptyString "n1".

Lemma bundle_roundtrip_witness : ∃ b : fields,
  verify_bundle (fields_js b) (asked_decision "d1") "elsewhere" "secret" = inl b
  ∧ verify_bundle (fields_js b) (asked_decision "d2") "elsewhere" "secret" ≠ inl b.
Proof.
  destruct sample_bundle as (b & E & Hd & Hc & Hn). exists b. split.
  - apply (bundle_roundtrip sample_result "2026" LOCAL_FEDERATION_RUNTIME_ID b (asked_decision "d1")
      "elsewhere" "secret" E).
    split_and!; [right; exact Hd|left; reflexivity|right; exact Hn|right; exact Hc|left; reflexivity..].
  - intros H. apply (bundle_roundtrip sample_result "2026" LOCAL_FEDERATION_RUNTIME_ID b
      (asked_decision "d2") "elsewhere" "secret" E) in H as ([H|H] & _); [discriminate H|].
    rewrite Hd in H. discriminate H.
Defined.

Definition sample_digest : string :=
  "0123456789abcdef0123456789abcdef0123456789abcdef0123456789abcdef".

Definition sample_evidence : fields :=
  [("runtime_id", LOCAL_FEDERATION_RUNTIME_ID); ("remote_runtime_id", REMOTE_OBSERVED_RUNTIME);
   ("continuity_id", "c1"); ("decision_id", "d1"); ("validated_object_hash", sample_digest);
   ("revocation_class", "EXPIRED"); ("revocation_reason", "observed_remote_revocation_state");
   ("lineage_hash", sample_digest); ("reconciliation_merkle_root", sample_digest);
   ("attestation_hash", sample_digest); ("observed_at", "2026-01-01T00:00:00.000Z")].

Lemma sample_evidence_canonical :
  canonicalFederatedRevocationEvidence (fields_js sample_evidence) = Some sample_evidence.
Proof. vm_compute. reflexivity. Qed.

Lemma sample_evidence_met : evidence_met (asked_decision "d1") None LOCAL_FEDERATION_RUNTIME_ID sample_evidence.
Proof.
  split_and!; [reflexivity|right; reflexivity|left; reflexivity|right; reflexivity|exact I|reflexivity].
Qed.

Lemma revocation_roundtrip_witness :
  classifyFederatedRevocationEvidence (replayNeutralFederatedRevocationEvidenceEnvelope sample_evidence)
    (asked_decision "d1") None LOCAL_FEDERATION_RUNTIME_ID = inl sample_evidence
  ∧ classifyFederatedRevocationEvidence (replayNeutralFederatedRevocationEvidenceEnvelope sample_evidence)
    (asked_decision "d2") None LOCAL_FEDERATION_RUNTIME_ID ≠ inl sample_evidence.
Proof.
  split.
  - apply (revocation_roundtrip _ sample_evidence (asked_decision "d1") None
      LOCAL_FEDERATION_RUNTIME_ID sample_evidence_canonical). exact sample_evidence_met.
  - intros H. apply (revocation_roundtrip _ sample_evidence (asked_decision "d2") None
      LOCAL_FEDERATION_RUNTIME_ID sample_evidence_canonical) in H as (_ & [H|H] & _); discriminate H.
Defined.

(** The same evidence with a note beside it. *)
Definition noted (envelope : jsval) : jsval :=
  match envelope with JObj ps => JObj (ps ++ [("note", JStr "seen")]) | v => v end.

Definition sample_envelope : jsval := replayNeutralFederatedRevocationEvidenceEnvelope sample_evidence.

Lemma sample_observed :
  classifyFederatedRevocationEvidence sample_envelope (asked_decision "d1") None
    LOCAL_FEDERATION_RUNTIME_ID = inl sample_evidence.
Proof.
  destruct (envelope_fields sample_evidence) as (Hu & Hc & Hs).
  apply classify_iff; [unfold sample_envelope; rewrite Hu; exact sample_evidence_canonical|].
  split_and!; [exact Hc|intros _; exact Hs|exact sample_evidence_met].
Qed.

Lemma noted_fields ev :
  let envelope := noted (replayNeutralFederatedRevocationEvidenceEnvelope ev) in
  unwrap "evidence" envelope = fields_js ev ∧ claims_authority envelope = false
  ∧ sealed_envelope envelope ev
  ∧ get envelope "envelope_hash"
    = get (replayNeutralFederatedRevocationEvidenceEnvelope ev) "envelope_hash".
Proof.
  cbv zeta. split_and!; [done..| |done]. unfold sealed_envelope. cbv zeta.
  split_and!; [done..| |]; cbn [noted replayNeutralFederatedRevocationEvidenceEnvelope]; apply text_str.
Qed.

Lemma noted_observed :
  classifyFederatedRevocationEvidence (noted sample_envelope) (asked_decision "d1") None
    LOCAL_FEDERATION_RUNTIME_ID = inl sample_evidence.
Proof.
  destruct (noted_fields sample_evidence) as (Hu & Hc & Hs & _).
  apply classify_iff; [unfold sample_envelope; rewrite Hu; exact sample_evidence_canonical|].
  split_and!; [exact Hc|intros _; exact Hs|exact sample_evidence_met].
Qed.

Lemma envelope_binds_witness :
  noted sample_envelope ≠ sample_envelope
  ∧ text (get (noted sample_envelope) "envelope_hash")
    = deterministicFederatedRevocationEnvelopeHash sample_evidence
        (deterministicFederatedRevocationEvidenceHash sample_evidence).
Proof.
  split; [intros H; discriminate (f_equal (λ v, get v "note") H)|].
  destruct (noted_fields sample_evidence) as (_ & _ & _ & Hh).
  exact (proj1 (envelope_binds (noted sample_envelope) sample_envelope _ _ _ _ _ _ _ _ eq_refl eq_refl
    noted_observed sample_observed (f_equal text Hh))).
Defined.
